(* ===== verification/_CoqProject ===== *)
-Q . S2P
Prelude.v
Floats.v
Options.v
Row.v
Okey.v
BytesList.v
Query.v
QuerySpec.v
QueryText.v
Externals.v
Intern.v
RangeBuf.v
Binning.v
Builder.v
Extractor.v
Reader.v
Index.v
ReaderSpec.v
BuilderSpec.v
BlobSpec.v
SstIndex.v
Dumps.v
BinSource.v
BinStats.v
Pins.v
PrefetchQueue.v
TableIter.v
QueryBitmap.v
TableScan.v
TableSpec.v
Iterators.v
Merging.v
Lsm.v
Shadow.v
ScanHandles.v
TopIterator.v
BatchSpec.v
LsmScan.v
ScanSpec.v
ScanDemo.v
Liveness.v
FloatOrder.v
ByteAxis.v
Estimator.v
EstimatorSpec.v
RebuildSpec.v
Refresh.v
Worker.v
Facade.v
Lifetimes.v
Database.v
Workload.v
