(* ===== verification/Prelude.v ===== *)
(** * BitLSM, verified

    BitLSM is a secondary-index layer over RocksDB. Rows with typed attributes
    are stored as RocksDB values; while RocksDB writes an SSTable, a builder
    collects the attributes and appends to the file an index (SABI) of binned
    bitmaps; a query, a conjunction of OR clauses over attributes, is answered
    by scanning memtables and files, in each file only the data blocks whose
    bitmaps may hold a match, by merging the sources in key order, and by
    dropping rows that a newer version shadows. An estimator predicts how many
    rows a query selects and reads. This library models the code under
    src/src/include and proves it correct. RocksDB and CRoaring are not part of
    the sources: they are parameters, with the laws their documentation states
    as hypotheses or class laws, each met by a concrete instance here.

    ** Conventions

    Machine integers are [Z] with the wrap-around written out ([u32], [u64],
    [s32], [s64]); doubles are bit patterns or [SpecFloat] values; a byte string is a
    [list byte]. A computation that may throw, abort or have undefined
    behaviour returns [result], whose [fault]s are those ends; a status is a
    value of [Status]. A theorem that a call returns [Ok] therefore also says
    that it has no undefined behaviour. Data and operations keep the names of
    the source; fields of C++ objects are fields of records, one definition
    per loop and per function.

    ** Files

    Foundations.
    - [Prelude] (this file): integers, faults, bytes, indexed access, tactics.
    - [Floats], [FloatOrder]: IEEE-754 values, their order and rounding.
    - [Externals]: RocksDB's integer coding, CRoaring's bitmaps, [std::sort].

    Rows and queries.
    - [Options] (bit_lsm_option.h): schemas and their validation.
    - [Row] (bit_lsm_utils.h): row layout, in-place encoder, decoders.
    - [Okey] (bit_lsm_encoding.h): order-preserving keys, the extractor.
    - [Extractor] (bit_lsm_encoding.h): the extractor's shared scratch memory.
    - [BytesList] (bytes_list.h): packed lists of byte strings.
    - [Query], [QuerySpec] (bit_lsm_query.h, .cpp): CNF queries, reference and
      compiled evaluation, translation to the byte domain; [QueryText]
      (bit_lsm_query.h): the text of a query.

    The index of an SSTable (sabi.h, sabi_builder.cpp, sabi_reader.cpp,
    sabi_factory.cpp).
    - [Intern]: the hash table of distinct values of an equality attribute.
    - [RangeBuf]: sorting and binning of a range attribute.
    - [Binning]: the allocation of bins, binning of an equality attribute.
    - [Builder]: the builder RocksDB drives, and [Finish], which writes the blob.
    - [Reader]: opening a blob, selecting bins, pruning, histograms.
    - [Index]: the contract between the two; [ReaderSpec] and [BuilderSpec] are
      proved against it, [BlobSpec] shows that a blob reads back, [SstIndex]
      composes all of it.
    - [Dumps] (also bit_lsm_utils.h): the debug dumps, as the text they print.
    - [BinSource]: bins resident in memory or read on demand through the shared
      block cache, with span prefetch.
    - [BinStats]: the process-wide counters of those accesses add up.
    - [Pins]: the pins that keep those bins alive in a cache that others evict
      from.

    Scans.
    - [PrefetchQueue] (block_prefetch_queue.h, .cpp).
    - [TableIter], [QueryBitmap], [TableScan], [TableSpec]
      (sabi_table_iterator.cpp): the scan of one file.
    - [Iterators] (bit_lsm_memtable_iterator.cpp, bit_lsm_level_iterator.cpp)
      with the interface of bit_lsm_iterator.h; [Merging]
      (bit_lsm_merging_iterator.cpp).
    - [Lsm]: RocksDB's tree and the meaning of a read; [Shadow]
      (bit_lsm_shadow_check.h, .cpp): may a newer version exist elsewhere.
    - [ScanHandles]: the table references, SuperVersion and snapshot a scan holds,
      with the constructors and destructors of its iterators.
    - [TopIterator], [BatchSpec] (bit_lsm_iterator.cpp): batches of candidates;
      [LsmScan], [ScanSpec], [Liveness]: the whole scan; [ScanDemo]: a tree
      that meets all assumptions.

    Statistics (bit_lsm_estimator.h, .cpp).
    - [ByteAxis]: byte strings as coordinates. [Estimator], [EstimatorSpec],
      [RebuildSpec]: statistics, estimates and their rebuild. [Refresh]: when to
      rebuild. [Worker]: the worker thread and its condition variable.

    The database (bit_lsm.h, bit_lsm.cpp, bit_lsm_column_family.h).
    - [Facade]: writes, [NewIterator], [EstimateSelectivity]. [Lifetimes]: open,
      create, drop, close, the event listener, and the objects they free.
    - [Database]: what a client sees, as operations on a map of rows.
    - [Workload] (utils.h): the loaders of the benchmarks.

    ** Interfaces

    A client is proved against what a component promises: the index contract
    ([Index.index_ok]) between builder and reader, [BinSource] for bins,
    [InternalIterator] and [streams] for every iterator of a scan,
    [ShadowCheck] with its laws for the checker, [RocksWrite] and [RocksCF]
    for RocksDB's writes and column families, [RoaringOps], [Coding],
    [StdSort] and [NthElement] for libraries. Implementations are instances.

    ** What the theorems show

    - A drained query returns, in key order, every non-empty key whose read at
      the snapshot it selects, or a prefix with a non-OK status
      ([ScanSpec.query_returns_matches], [Facade.NewIterator_answers]), and all
      of them when nothing fails ([Liveness.query_completes]). Beside those it
      returns at most rows whose newest version is deleted only by range
      tombstones of its own file ([Lsm.own_file_deleted]): the shadow check never
      consults that file ([Shadow.own_file_ignored]). Where no file holds a key
      together with a newer visible tombstone over it ([Lsm.no_own_tombstones])
      the rows are exactly the answer without the empty key. In terms of the rows
      a client wrote: [Database.query_refines_filter], and together with the
      writes [Database.client_view]. Candidate mode returns a superset.
    - On the way: no row is lost by the index ([SstIndex], [ReaderSpec],
      [QueryBitmap]), by a table scan ([TableSpec]), by the level and merging
      iterators, and no row with a newer version, or with a newer tombstone in
      another source, is served ([Shadow], [TableSpec]).
    - Encodings round-trip and keep order ([Row], [Okey], [BytesList],
      [SstIndex.table_roundtrip]); evaluators agree ([QuerySpec]); decoded
      values have the schema's types ([Row.decode_typed]). The text of a query
      determines it up to printed numbers, and a printed double is a nearest
      decimal of six digits ([QueryText]); a dump prints the stored row ([Dumps]).
    - On-demand bins are the index's or a failure is reported, under any
      failures and any use of the shared cache ([BinSource]), and the counters
      account for every one of them ([BinStats]); every view stays
      alive and every reference is returned exactly once ([Pins], [ScanHandles]).
    - Binning is correct, balanced and ends ([RangeBuf], [Binning], [Intern]).
    - Statistics account for the live files and are bounded in staleness;
      estimates are between one row and all rows; the worker loses no signal
      and makes progress ([RebuildSpec], [Refresh], [EstimatorSpec], [Worker]).
    - Writes are validated and atomic, and sequences of them act on a map of rows
      ([Facade], [Database.writes_refine]); no interleaving of open,
      create, drop, notifications, workers and close touches freed memory, and
      drops end ([Lifetimes]). The loaders put every key once ([Workload]).
    - Findings that run the code on an input: [ScanDemo.empty_key_lost] and
      [ScanDemo.own_tombstone_missed] (in general: the empty key in
      [ScanSpec.query_returns_matches], and [Shadow.own_file_ignored]),
      [Lifetimes.event_before_arm_lost], [RebuildSpec.okey_axis_not_scaled],
      [Facade.null_becomes_value], [ScanHandles.late_checker_release],
      [Workload.last_char_unused], [QueryText.ToString_example].

    ** Fuel and bounds

    Loops whose end is not structural take fuel, and a theorem says how much is
    enough: the probe loop of the hash table (the number of slots, [Intern]),
    the allocation loop (budget plus one try per attribute, [Binning]), the
    coalescing of missed bins (the number of bins asked for, [BinSource], [Pins]), the
    level and merging iterators and the batches (the number of rows left,
    through the measure in [streams]), a whole scan (the number of its rows plus
    one, in the statements of [ScanSpec]), the decimal exponent of a double (the
    decades from -324 to 308, [QueryText]). Running out is the fault
    [OutOfFuel], never a result (the last search is total and its fuel shown
    enough). Limits the code itself has are hypotheses: row
    ids, offsets and blob sizes below 2^32, at most 2^31 nullable attributes,
    fewer than 2^64 signals. Of RocksDB's tree ([Lsm.lsm_ok]): the versions of a
    user key are in one file of each level below 0, and neighbouring files share
    a boundary user key only where a range tombstone was cut ([Lsm.file_before]).

    ** Not modelled

    - RocksDB and CRoaring, and the patch to RocksDB (third-party code).
    - Batch entries of 4 GiB or more, which [WriteBatch::Put] refuses.
    - Output without a result: [BitLSM::Statistics], which prints what RocksDB
      reports, log lines, timing, and [SABIReader::ApproximateMemoryUsage], which
      sums what the allocator reports. The [TEST_DumpValue] methods that the
      iterators declare are defined nowhere.
    - Hints to RocksDB's I/O that change no result: the readahead hand-over
      between files.
    - [SABIUDIIterator], whose methods are empty: RocksDB never seeks through
      this index. *)
From Stdlib Require Import ZArith Lia Strings.Byte Orders OrdersTac.
From stdpp Require Import base numbers list sorting option.

#[global] Open Scope Z_scope.

(** ** Machine integers

    An unsigned [w]-bit integer is a [Z]; the wrap-around of the C++ type is
    written out where the source computes in that type. *)
Definition u8 (z : Z) : Z := z mod 2 ^ 8.
Definition u32 (z : Z) : Z := z mod 2 ^ 32.
Definition u64 (z : Z) : Z := z mod 2 ^ 64.

(** A two's-complement 64-bit integer read out of its unsigned pattern. *)
Definition s64 (z : Z) : Z :=
  let u := u64 z in if u <? 2 ^ 63 then u else u - 2 ^ 64.

(** [static_cast<int32_t>] *)
Definition s32 (z : Z) : Z := (z + 2 ^ 31) mod 2 ^ 32 - 2 ^ 31.

Definition UINT32_MAX : Z := 2 ^ 32 - 1.
Definition UINT64_MAX : Z := 2 ^ 64 - 1.

Definition is_u32 (z : Z) : Prop := 0 <= z < 2 ^ 32.
Definition is_u64 (z : Z) : Prop := 0 <= z < 2 ^ 64.
Definition is_s64 (z : Z) : Prop := - 2 ^ 63 <= z < 2 ^ 63.

Lemma u32_small z : is_u32 z -> u32 z = z.
Proof. intros H. apply Z.mod_small, H. Qed.
Lemma u32_range z : is_u32 (u32 z).
Proof. apply Z.mod_pos_bound. lia. Qed.
Lemma u64_small z : is_u64 z -> u64 z = z.
Proof. intros H. apply Z.mod_small, H. Qed.
Lemma u64_range z : is_u64 (u64 z).
Proof. apply Z.mod_pos_bound. lia. Qed.
Lemma s32_id z : - 2 ^ 31 <= z < 2 ^ 31 -> s32 z = z.
Proof. intros H. unfold s32. rewrite Z.mod_small; lia. Qed.
Lemma s64_range z : is_s64 (s64 z).
Proof.
  unfold s64, is_s64. pose proof (u64_range z) as H. unfold is_u64 in H.
  destruct (Z.ltb_spec (u64 z) (2 ^ 63)); lia.
Qed.
Lemma s64_u64 z : is_s64 z -> s64 (u64 z) = z.
Proof.
  intros H. unfold is_s64 in H. unfold s64.
  rewrite (u64_small (u64 z)) by apply u64_range. unfold u64.
  destruct (Z.lt_ge_cases z 0).
  - assert (z mod 2 ^ 64 = z + 2 ^ 64) as ->.
    { symmetry. apply Z.mod_unique_pos with (-1); lia. }
    destruct (Z.ltb_spec (z + 2 ^ 64) (2 ^ 63)); lia.
  - rewrite Z.mod_small by lia. destruct (Z.ltb_spec z (2 ^ 63)); lia.
Qed.

(** ** Bit patterns *)
Lemma testbit_small n a i : 0 <= n <= i -> 0 <= a < 2 ^ n -> Z.testbit a i = false.
Proof.
  intros Hn Ha. rewrite <- (Z.mod_small a (2 ^ n)) by done.
  apply Z.mod_pow2_bits_high. lia.
Qed.

Lemma lor_disjoint n a b :
  0 <= n -> 0 <= a < 2 ^ n -> Z.lor a (b * 2 ^ n) = a + b * 2 ^ n.
Proof.
  intros Hn Ha. rewrite <- Z.lxor_lor, Z.add_nocarry_lxor; [done|..];
    rewrite <- Z.shiftl_mul_pow2 by done; apply Z.bits_inj'; intros i Hi;
    rewrite Z.land_spec, Z.bits_0; destruct (Z.lt_ge_cases i n);
    try (by rewrite Z.shiftl_spec_low, andb_false_r);
    by rewrite (testbit_small n) by lia.
Qed.

Lemma land_pow2 a k : 0 <= k -> (Z.land a (2 ^ k) =? 0) = negb (Z.testbit a k).
Proof.
  intros Hk. destruct (Z.eqb_spec (Z.land a (2 ^ k)) 0) as [E|E].
  - apply (f_equal (fun x => Z.testbit x k)) in E.
    rewrite Z.land_spec, Z.pow2_bits_true, andb_true_r, Z.bits_0 in E by done.
    by rewrite E.
  - destruct (Z.testbit a k) eqn:T; [done|]. destruct E.
    apply Z.bits_inj'. intros i Hi. rewrite Z.land_spec, Z.bits_0.
    destruct (decide (i = k)) as [->|Hne]; [by rewrite T|].
    rewrite Z.pow2_bits_false by done. apply andb_false_r.
Qed.

(** ** Faults

    The ways a C++ computation of the model stops without a value: a
    [std::get] on the wrong alternative throws, an access outside a buffer is
    undefined behaviour, and so is a floating-point to integer conversion
    whose value does not fit; [std::logic_error], [std::invalid_argument] and
    [std::runtime_error] are thrown by name; a failed [assert] aborts, and an
    access to an object that was freed is undefined behaviour. *)
Inductive fault :=
  | BadVariantAccess
  | OutOfBounds
  | BadConversion
  | LogicError
  | InvalidArgumentError
  | RuntimeError
  | AssertionFailed
  | UseAfterFree
  | OutOfFuel.

Inductive result (A : Type) :=
  | Ok (a : A)
  | Fault (f : fault).
Arguments Ok {A} a.
Arguments Fault {A} f.

#[global] Instance result_ret : MRet result := fun A a => Ok a.
#[global] Instance result_bind : MBind result :=
  fun A B f m => match m with Ok a => f a | Fault e => Fault e end.
#[global] Instance result_fmap : FMap result :=
  fun A B f m => match m with Ok a => Ok (f a) | Fault e => Fault e end.

#[global] Instance fault_eq_dec : EqDecision fault.
Proof. solve_decision. Defined.

Definition get_or {A} (f : fault) (o : option A) : result A :=
  match o with Some a => Ok a | None => Fault f end.

Lemma result_bind_ok {A B} (m : result A) (k : A -> result B) b :
  (m ≫= k) = Ok b <-> exists a, m = Ok a /\ k a = Ok b.
Proof.
  destruct m as [a|e]; simpl; split.
  - intros H. exists a. auto.
  - intros (a' & [= ->] & H). exact H.
  - discriminate.
  - intros (a' & H & _). discriminate H.
Qed.

Lemma get_or_ok {A} f (o : option A) a : get_or f o = Ok a <-> o = Some a.
Proof. destruct o; simpl; split; congruence. Qed.

Lemma mapM_Ok {A B} (f : A -> result B) l k :
  mapM f l = Ok k <-> Forall2 (fun x y => f x = Ok y) l k.
Proof.
  split.
  - revert k. induction l as [|x l IH]; intros k; simpl.
    + intros [= <-]. constructor.
    + intros H. apply result_bind_ok in H as (y & Hy & H).
      apply result_bind_ok in H as (k' & Hk & H). injection H as <-. constructor; auto.
  - induction 1 as [|x y l k Hy _ IH]; [done|]. simpl. by rewrite Hy, IH.
Qed.

(** Decompose every successful [result] computation of the context. *)
Ltac inv_ok :=
  repeat match goal with
  | H : Ok _ = Ok _ |- _ => injection H as H; try subst
  | H : Fault _ = Ok _ |- _ => discriminate H
  | H : mret _ = Ok _ |- _ => unfold mret, result_ret in H
  | H : (_ ≫= _) = Ok _ |- _ =>
      apply result_bind_ok in H; destruct H as (? & ? & ?)
  | H : get_or _ _ = Ok _ |- _ => apply get_or_ok in H
  end.

(** ** Bytes *)
Abbreviation bytes := (list byte).

Definition b2z (b : byte) : Z := Z.of_N (Byte.to_N b).
Definition z2b (z : Z) : byte :=
  match Byte.of_N (Z.to_N (z mod 256)) with Some b => b | None => x00 end.

#[global] Instance byte_eq_dec : EqDecision byte := Byte.byte_eq_dec.

Lemma b2z_range b : 0 <= b2z b < 256.
Proof.
  unfold b2z. pose proof (Byte.to_N_bounded b) as H. lia.
Qed.
Lemma z2b_b2z b : z2b (b2z b) = b.
Proof.
  unfold z2b. rewrite Z.mod_small by apply b2z_range. unfold b2z.
  by rewrite N2Z.id, Byte.of_to_N.
Qed.
Lemma b2z_z2b z : b2z (z2b z) = z mod 256.
Proof.
  unfold z2b. pose proof (Z.mod_pos_bound z 256 ltac:(lia)) as Hb.
  destruct (Byte.of_N (Z.to_N (z mod 256))) as [b|] eqn:E.
  - apply Byte.to_of_N in E. unfold b2z. rewrite E. lia.
  - apply Byte.of_N_None_iff in E. lia.
Qed.
#[global] Instance b2z_inj : Inj (=) (=) b2z.
Proof. intros a b H. by rewrite <- (z2b_b2z a), H, z2b_b2z. Qed.

(** ** Buffers addressed by integer offsets

    [zget] is [v[i]], [zsub] reads a byte range ([memcpy] out, or a
    [string_view] over it) and [zwrite] is [memcpy] into a buffer. Each faults
    outside the buffer, where the C++ is undefined. *)
Definition zlen {A} (l : list A) : Z := Z.of_nat (length l).

Definition zget {A} (l : list A) (i : Z) : result A :=
  if (i <? 0) then Fault OutOfBounds
  else get_or OutOfBounds (l !! Z.to_nat i).

Definition zset {A} (l : list A) (i : Z) (a : A) : result (list A) :=
  if (i <? 0) || (zlen l <=? i) then Fault OutOfBounds
  else Ok (<[Z.to_nat i := a]> l).

Definition zsub {A} (l : list A) (off len : Z) : result (list A) :=
  if (off <? 0) || (len <? 0) || (zlen l <? off + len) then Fault OutOfBounds
  else Ok (take (Z.to_nat len) (drop (Z.to_nat off) l)).

Definition zwrite {A} (l : list A) (off : Z) (d : list A) : result (list A) :=
  if (off <? 0) || (zlen l <? off + zlen d) then Fault OutOfBounds
  else Ok (take (Z.to_nat off) l ++ d ++ drop (Z.to_nat off + length d) l).

(** [std::string::resize] / [std::vector::resize]. *)
Definition zresize {A} (l : list A) (n : Z) (d : A) : list A :=
  resize (Z.to_nat n) d l.

Lemma zlen_app {A} (l k : list A) : zlen (l ++ k) = zlen l + zlen k.
Proof. unfold zlen. rewrite length_app. lia. Qed.
Lemma zlen_nil {A} : zlen (@nil A) = 0.
Proof. reflexivity. Qed.
(** [zlen []] is convertible to [0]; rewriting by conversion is reliable. *)
Ltac zlen0 := change (zlen []) with 0 in *.

Lemma zlen_cons {A} (a : A) l : zlen (a :: l) = zlen l + 1.
Proof. unfold zlen. simpl length. lia. Qed.
Lemma zlen_snoc {A} (l : list A) a : zlen (l ++ [a]) = zlen l + 1.
Proof. unfold zlen. rewrite length_app. simpl. lia. Qed.
Lemma zlen_nonneg {A} (l : list A) : 0 <= zlen l.
Proof. unfold zlen. lia. Qed.
Lemma zlen_replicate {A} n (a : A) : zlen (replicate n a) = Z.of_nat n.
Proof. unfold zlen. by rewrite length_replicate. Qed.
Lemma zlen_map {A B} (f : A -> B) l : zlen (map f l) = zlen l.
Proof. unfold zlen. by rewrite length_map. Qed.
Lemma zlen_0_inv {A} (l : list A) : zlen l = 0 -> l = [].
Proof. destruct l; [done|]. rewrite zlen_cons. pose proof (zlen_nonneg l). lia. Qed.
Lemma zlen_take_drop {A} (l : list A) off len :
  0 <= off -> 0 <= len -> off + len <= zlen l ->
  zlen (take (Z.to_nat len) (drop (Z.to_nat off) l)) = len.
Proof. unfold zlen. intros. rewrite length_take, length_drop. lia. Qed.

Lemma zget_lookup {A} (l : list A) i a :
  zget l i = Ok a <-> 0 <= i /\ l !! Z.to_nat i = Some a.
Proof.
  unfold zget. destruct (Z.ltb_spec i 0).
  - split; [discriminate|lia].
  - rewrite get_or_ok. intuition lia.
Qed.
Lemma zget_nat {A} (l : list A) (i : nat) a :
  l !! i = Some a -> zget l (Z.of_nat i) = Ok a.
Proof. intros H. apply zget_lookup. rewrite Nat2Z.id. split; [lia|done]. Qed.

Lemma zset_ok {A} (l : list A) (i : nat) a :
  (i < length l)%nat -> zset l (Z.of_nat i) a = Ok (<[i := a]> l).
Proof.
  intros H. unfold zset, zlen.
  destruct (Z.ltb_spec (Z.of_nat i) 0); [lia|].
  destruct (Z.leb_spec (Z.of_nat (length l)) (Z.of_nat i)); [lia|].
  simpl. by rewrite Nat2Z.id.
Qed.

Lemma zset_okZ {A} (l : list A) i a :
  0 <= i -> (Z.to_nat i < length l)%nat -> zset l i a = Ok (<[Z.to_nat i := a]> l).
Proof. intros Hi H. rewrite <- (zset_ok l (Z.to_nat i) a) by done. by rewrite Z2Nat.id. Qed.

Lemma zsub_app {A} (l1 m l2 : list A) off len :
  off = zlen l1 -> len = zlen m -> zsub (l1 ++ m ++ l2) off len = Ok m.
Proof.
  intros -> ->. unfold zsub. rewrite !zlen_app.
  pose proof (zlen_nonneg l1). pose proof (zlen_nonneg m).
  pose proof (zlen_nonneg l2).
  rewrite !(proj2 (Z.ltb_ge _ _)) by lia. simpl.
  unfold zlen. rewrite !Nat2Z.id, drop_app_length, take_app_length. done.
Qed.

Lemma zwrite_app {A} (l1 m l2 d : list A) off :
  off = zlen l1 -> zlen d = zlen m ->
  zwrite (l1 ++ m ++ l2) off d = Ok (l1 ++ d ++ l2).
Proof.
  intros -> Hd. unfold zwrite. rewrite !zlen_app.
  pose proof (zlen_nonneg l1). pose proof (zlen_nonneg l2).
  rewrite !(proj2 (Z.ltb_ge _ _)) by lia. simpl. unfold zlen in *.
  rewrite Nat2Z.id, take_app_length.
  apply Nat2Z.inj in Hd. rewrite Hd.
  by rewrite (app_assoc l1 m l2), <- length_app, drop_app_length.
Qed.

Lemma zwrite_head {A} (m l2 d : list A) :
  zlen d = zlen m -> zwrite (m ++ l2) 0 d = Ok (d ++ l2).
Proof. intros H. by apply (zwrite_app [] m l2). Qed.
Lemma zsub_head {A} (m l2 : list A) len :
  len = zlen m -> zsub (m ++ l2) 0 len = Ok m.
Proof. intros H. by apply (zsub_app [] m l2). Qed.
Lemma zsub_tail {A} (l1 m : list A) off len :
  off = zlen l1 -> len = zlen m -> zsub (l1 ++ m) off len = Ok m.
Proof. intros. rewrite <- (app_nil_r m) at 1. by apply zsub_app. Qed.

Lemma zsub_length {A} (l : list A) off len r :
  zsub l off len = Ok r -> zlen r = len.
Proof.
  unfold zsub. destruct (_ || _) eqn:E; [discriminate|].
  rewrite !orb_false_iff, !Z.ltb_ge in E. intros [= <-].
  apply zlen_take_drop; lia.
Qed.

Lemma zresize_length {A} (l : list A) n d : 0 <= n -> zlen (zresize l n d) = n.
Proof. intros. unfold zlen, zresize. rewrite length_resize. lia. Qed.

(** Any list of a given length splits at any offset. *)
Lemma zsplit {A} (l : list A) n :
  0 <= n <= zlen l -> exists l1 l2, l = l1 ++ l2 /\ zlen l1 = n.
Proof.
  intros H. exists (take (Z.to_nat n) l), (drop (Z.to_nat n) l).
  rewrite take_drop. split; [done|]. unfold zlen in *.
  rewrite length_take. lia.
Qed.

(** ** Little-endian codec

    The host is little-endian: a [memcpy] between an integer object and [n]
    bytes moves its low [n] bytes, least significant first. *)
Fixpoint le_enc (n : nat) (z : Z) : bytes :=
  match n with
  | O => []
  | S n' => z2b z :: le_enc n' (z / 256)
  end.

Fixpoint le_dec (l : bytes) : Z :=
  match l with
  | [] => 0
  | b :: l' => b2z b + 256 * le_dec l'
  end.

Lemma length_le_enc n z : length (le_enc n z) = n.
Proof. revert z. induction n; intros; simpl; auto. Qed.
Lemma zlen_le_enc n z : zlen (le_enc n z) = Z.of_nat n.
Proof. unfold zlen. by rewrite length_le_enc. Qed.

Lemma pow256_succ n : 256 ^ Z.of_nat (S n) = 256 * 256 ^ Z.of_nat n.
Proof. rewrite Nat2Z.inj_succ, Z.pow_succ_r by lia. done. Qed.

Lemma le_dec_enc n z : le_dec (le_enc n z) = z mod 256 ^ Z.of_nat n.
Proof.
  revert z. induction n as [|n IH]; intros z.
  - simpl. by rewrite Z.mod_1_r.
  - cbn [le_enc le_dec]. rewrite IH, b2z_z2b, pow256_succ.
    assert (0 < 256 ^ Z.of_nat n) by (apply Z.pow_pos_nonneg; lia).
    rewrite Z.rem_mul_r by lia. lia.
Qed.

Lemma le_dec_range l : 0 <= le_dec l < 256 ^ zlen l.
Proof.
  induction l as [|b l IH]; [split; [done|reflexivity]|].
  cbn [le_dec]. unfold zlen in *. cbn [length]. rewrite pow256_succ.
  pose proof (b2z_range b). lia.
Qed.

Lemma le_dec_enc_id n z : 0 <= z < 256 ^ Z.of_nat n -> le_dec (le_enc n z) = z.
Proof. intros H. rewrite le_dec_enc. by apply Z.mod_small. Qed.

Lemma le_enc_dec l : le_enc (length l) (le_dec l) = l.
Proof.
  induction l as [|b l IH]; [done|]. cbn [length le_dec le_enc].
  pose proof (b2z_range b). f_equal.
  - apply (inj b2z). rewrite b2z_z2b.
    rewrite Z.mul_comm, Z.mod_add by lia. by apply Z.mod_small.
  - rewrite Z.mul_comm, Z.div_add by lia.
    rewrite Z.div_small by done. by rewrite Z.add_0_l.
Qed.

#[global] Arguments le_enc : simpl never.

(** ** [omap] and [concat] *)
Lemma omap_step {A B} (f : A -> option B) x l :
  omap f (x :: l) = match f x with Some y => y :: omap f l | None => omap f l end.
Proof. done. Qed.
Lemma omap_all {A B} (g : A -> option B) (f : A -> B) l :
  (forall x, x ∈ l -> g x = Some (f x)) -> omap g l = map f l.
Proof.
  induction l as [|x l IH]; intros Hg; [done|]. cbn [omap list_omap map]. rewrite (Hg x) by by left.
  f_equal. apply IH. intros y Hy. apply Hg. by right.
Qed.
Lemma omap_le {A B} (g : A -> option B) l : (length (omap g l) <= length l)%nat.
Proof. induction l as [|x l IH]; [done|]. cbn [omap list_omap length]. destruct (g x); cbn [length]; unfold omap in *; lia. Qed.
Lemma list_elem_of_concat {A} (x : A) ls : x ∈ concat ls <-> exists l, x ∈ l /\ l ∈ ls.
Proof.
  rewrite list_elem_of_In, in_concat. split; intros (l & H1 & H2); exists l; by rewrite !list_elem_of_In in *.
Qed.

(** ** The memcmp order

    [std::string::compare], [std::string_view::compare] and their relational
    operators: lexicographic on unsigned bytes, a proper prefix is smaller. *)
Fixpoint bcompare (a b : bytes) : comparison :=
  match a, b with
  | [], [] => Eq
  | [], _ :: _ => Lt
  | _ :: _, [] => Gt
  | x :: a', y :: b' =>
      match Z.compare (b2z x) (b2z y) with
      | Eq => bcompare a' b'
      | c => c
      end
  end.

Definition blt (a b : bytes) : Prop := bcompare a b = Lt.
Definition ble (a b : bytes) : Prop := bcompare a b <> Gt.
Definition bltb (a b : bytes) : bool :=
  match bcompare a b with Lt => true | _ => false end.
Definition bleb (a b : bytes) : bool :=
  match bcompare a b with Gt => false | _ => true end.
Definition beqb (a b : bytes) : bool :=
  match bcompare a b with Eq => true | _ => false end.

Lemma bcompare_eq a b : bcompare a b = Eq <-> a = b.
Proof.
  revert b. induction a as [|x a IH]; intros [|y b]; simpl; try done.
  destruct (Z.compare_spec (b2z x) (b2z y)) as [E|E|E].
  - apply (inj b2z) in E as ->. rewrite IH. split; congruence.
  - split; [done|]. intros [= -> ->]. lia.
  - split; [done|]. intros [= -> ->]. lia.
Qed.
Lemma bcompare_refl a : bcompare a a = Eq.
Proof. by apply bcompare_eq. Qed.
Lemma bcompare_antisym a b : bcompare b a = CompOpp (bcompare a b).
Proof.
  revert b. induction a as [|x a IH]; intros [|y b]; simpl; try done.
  rewrite (Z.compare_antisym (b2z x) (b2z y)).
  destruct (Z.compare (b2z x) (b2z y)); simpl; auto.
Qed.
Lemma blt_trans a b c : blt a b -> blt b c -> blt a c.
Proof.
  unfold blt. revert b c.
  induction a as [|x a IH]; intros [|y b] [|z c]; simpl; try done.
  destruct (Z.compare_spec (b2z x) (b2z y)) as [E1|E1|E1],
           (Z.compare_spec (b2z y) (b2z z)) as [E2|E2|E2]; intros H1 H2; try done.
  - rewrite E1, E2, Z.compare_refl. eauto.
  - rewrite E1. apply Z.compare_lt_iff in E2 as ->. done.
  - rewrite <- E2. apply Z.compare_lt_iff in E1 as ->. done.
  - assert (b2z x < b2z z) as ->%Z.compare_lt_iff by lia. done.
Qed.
Lemma blt_irrefl a : ~ blt a a.
Proof. unfold blt. by rewrite bcompare_refl. Qed.
Lemma ble_lteq a b : ble a b <-> blt a b \/ a = b.
Proof.
  unfold ble, blt. rewrite <- bcompare_eq.
  destruct (bcompare a b); intuition congruence.
Qed.
Lemma blt_total a b : blt a b \/ a = b \/ blt b a.
Proof.
  unfold blt. rewrite (bcompare_antisym a b), <- bcompare_eq.
  destruct (bcompare a b); simpl; auto.
Qed.

(** The order as a standard-library [TotalOrder], which gives the [order]
    decision procedure; [border] runs it on [blt] and [ble] goals. *)
Module BytesOrder <: OrderedTypeFull'.
Definition t := bytes.
Definition eq := @Logic.eq bytes.
Definition lt := blt.
Definition le := ble.
Definition compare := bcompare.
#[global] Instance eq_equiv : Equivalence eq := eq_equivalence.
#[global] Instance lt_strorder : StrictOrder lt.
Proof. split; [exact blt_irrefl|exact blt_trans]. Qed.
#[global] Instance lt_compat : Proper (eq ==> eq ==> iff) lt.
Proof. by intros ? ? -> ? ? ->. Qed.
Definition le_lteq := ble_lteq.
Lemma compare_spec x y : CompareSpec (eq x y) (lt x y) (lt y x) (compare x y).
Proof.
  unfold compare, eq, lt, blt. rewrite (bcompare_antisym x y).
  destruct (bcompare x y) eqn:E; constructor; simpl; auto.
  by apply bcompare_eq.
Qed.
Definition eq_dec (x y : t) : {eq x y} + {~ eq x y} := decide (x = y).
Infix "==" := eq (at level 70, no associativity).
Infix "<" := lt.
Infix "<=" := le.
Notation "x ?= y" := (compare x y) (at level 70, no associativity).
End BytesOrder.
Module BytesTac := OTF_to_OrderTac BytesOrder.

Ltac border :=
  change blt with BytesOrder.lt in *;
  change ble with BytesOrder.le in *;
  change (@Logic.eq bytes) with BytesOrder.eq in *;
  BytesTac.order.

Lemma bltb_lt a b : bltb a b = true <-> blt a b.
Proof. unfold bltb, blt. destruct (bcompare a b); intuition congruence. Qed.
Lemma bleb_le a b : bleb a b = true <-> ble a b.
Proof. unfold bleb, ble. destruct (bcompare a b); intuition congruence. Qed.
Lemma beqb_eq a b : beqb a b = true <-> a = b.
Proof.
  unfold beqb. rewrite <- bcompare_eq. destruct (bcompare a b); intuition congruence.
Qed.
Lemma ble_not_lt a b : ble a b <-> ~ blt b a.
Proof.
  unfold ble, blt. rewrite (bcompare_antisym a b).
  destruct (bcompare a b); simpl; intuition congruence.
Qed.
Lemma bltb_ge a b : bltb a b = false <-> ble b a.
Proof. rewrite ble_not_lt, <- bltb_lt. destruct (bltb a b); intuition congruence. Qed.
Lemma bleb_gt a b : bleb a b = false <-> blt b a.
Proof.
  unfold bleb, blt. rewrite (bcompare_antisym a b).
  destruct (bcompare a b); simpl; intuition congruence.
Qed.

#[global] Instance blt_dec a b : Decision (blt a b).
Proof. unfold blt. apply _. Defined.
#[global] Instance ble_dec a b : Decision (ble a b).
Proof. unfold ble. apply _. Defined.
#[global] Instance ble_refl : Reflexive ble.
Proof. intros a. unfold ble. by rewrite bcompare_refl. Qed.
#[global] Instance ble_trans : Transitive ble.
Proof. intros a b c H1 H2. border. Qed.
#[global] Instance ble_total : Total ble.
Proof. intros a b. destruct (blt_total a b) as [?|[?|?]]; [left|left|right]; border. Qed.

Lemma nil_ble a : ble [] a.
Proof. by destruct a. Qed.

Create HintDb bitlsm.
Create Rewrite HintDb bitlsm.
#[export] Hint Resolve u32_range u64_range s64_range b2z_range zlen_nonneg
  blt_irrefl nil_ble : bitlsm.
#[export] Hint Rewrite @zlen_app @zlen_nil @zlen_cons @zlen_replicate
  zlen_le_enc @length_app : bitlsm.
