(* ===== verification/Floats.v ===== *)
(** * IEEE-754 values

    The [double] and [float] objects of the source. A [double] is its 64-bit
    pattern and a [float] its 32-bit pattern, since the source moves both
    through [memcpy]; comparisons, arithmetic and conversions are those of the
    standard library's IEEE-754 specification ([SpecFloat]). *)
From Stdlib Require Import ZArith Lia Floats.SpecFloat.
From stdpp Require Import base numbers.
From S2P Require Import Prelude.

(** ** Interchange formats *)
Section Format.
(** Widths of the stored significand and of the exponent field. *)
Variables mw ew : Z.

Definition fmt_prec : Z := mw + 1.
Definition fmt_emax : Z := 2 ^ (ew - 1).
Definition fmt_emin : Z := SpecFloat.emin fmt_prec fmt_emax.

Definition bits_decode (u : Z) : spec_float :=
  let s := Z.testbit u (mw + ew) in
  let e := (u / 2 ^ mw) mod 2 ^ ew in
  let m := u mod 2 ^ mw in
  if e =? 0 then
    match m with Zpos p => S754_finite s p fmt_emin | _ => S754_zero s end
  else if e =? 2 ^ ew - 1 then
    if m =? 0 then S754_infinity s else S754_nan
  else
    match m + 2 ^ mw with
    | Zpos p => S754_finite s p (e + fmt_emin - 1)
    | _ => S754_nan
    end.

(** The pattern of a value; a NaN gets the default quiet pattern. *)
Definition bits_encode (f : spec_float) : Z :=
  let sgn (s : bool) := if s then 2 ^ (mw + ew) else 0 in
  match f with
  | S754_zero s => sgn s
  | S754_infinity s => sgn s + (2 ^ ew - 1) * 2 ^ mw
  | S754_nan => (2 ^ ew - 1) * 2 ^ mw + 2 ^ (mw - 1)
  | S754_finite s p e =>
      if Zpos p <? 2 ^ mw then sgn s + Zpos p
      else sgn s + (e - fmt_emin + 1) * 2 ^ mw + (Zpos p - 2 ^ mw)
  end.
End Format.

Definition f64_decode : Z -> spec_float := bits_decode 52 11.
Definition f64_encode : spec_float -> Z := bits_encode 52 11.
Definition f32_decode : Z -> spec_float := bits_decode 23 8.
Definition f32_encode : spec_float -> Z := bits_encode 23 8.

Definition is_nan (f : spec_float) : bool :=
  match f with S754_nan => true | _ => false end.

(** ** Comparisons of doubles *)
Definition f64_eqb (a b : Z) : bool := SFeqb (f64_decode a) (f64_decode b).
Definition f64_ltb (a b : Z) : bool := SFltb (f64_decode a) (f64_decode b).
Definition f64_leb (a b : Z) : bool := SFleb (f64_decode a) (f64_decode b).

(** ** Conversions

    [static_cast<float>(double)] rounds to nearest, ties to even;
    [static_cast<double>(float)] is exact. Both keep the sign and the leading
    payload bits of a NaN and set its quiet bit. *)
Definition signed_mant (s : bool) (p : positive) : Z :=
  if s then Zneg p else Zpos p.

Definition cast_f32 (d : Z) : Z :=
  match f64_decode d with
  | S754_nan =>
      u32 (Z.lor (if Z.testbit d 63 then 2 ^ 31 else 0)
            (Z.lor (0x7FC00000) (Z.shiftr (d mod 2 ^ 52) 29)))
  | S754_finite s p e =>
      u32 (f32_encode (binary_normalize 24 128 (signed_mant s p) e s))
  | f => u32 (f32_encode f)
  end.

Definition cast_f64 (f : Z) : Z :=
  match f32_decode f with
  | S754_nan =>
      u64 (Z.lor (if Z.testbit f 31 then 2 ^ 63 else 0)
            (Z.lor (0x7FF8000000000000) (Z.shiftl (f mod 2 ^ 23) 29)))
  | S754_finite s p e =>
      u64 (f64_encode (binary_normalize 53 1024 (signed_mant s p) e s))
  | g => u64 (f64_encode g)
  end.

(** An unsigned integer converted to [double]. *)
Definition f64_of_Z (n : Z) : spec_float := binary_normalize 53 1024 n 0 false.

(** [double] arithmetic on decoded values. *)
Definition f64_div : spec_float -> spec_float -> spec_float := SFdiv 53 1024.
Definition f64_sub : spec_float -> spec_float -> spec_float := SFsub 53 1024.

(** Conversion of a [double] to an unsigned integer of range [0, bound):
    truncation, undefined when the truncated value does not fit. *)
Definition f64_to_Z (bound : Z) (f : spec_float) : result Z :=
  match f with
  | S754_zero _ => Ok 0
  | S754_finite s p e =>
      let m := Z.shiftl (Zpos p) e in
      if s then if m =? 0 then Ok 0 else Fault BadConversion
      else if m <? bound then Ok m else Fault BadConversion
  | _ => Fault BadConversion
  end.

Lemma cast_f32_range d : is_u32 (cast_f32 d).
Proof. unfold cast_f32. destruct (f64_decode d); auto with bitlsm. Qed.
Lemma cast_f64_range f : is_u64 (cast_f64 f).
Proof. unfold cast_f64. destruct (f32_decode f); auto with bitlsm. Qed.

(** ** The order of doubles is the order of signed magnitudes *)
Definition f64_neg (u : Z) : bool := Z.testbit u 63.
Definition f64_mag (u : Z) : Z := u mod 2 ^ 63.
(** The signed magnitude of a pattern. *)
Definition f64_sval (u : Z) : Z := if f64_neg u then - f64_mag u else f64_mag u.

Definition f64_nan (u : Z) : bool := is_nan (f64_decode u).

Lemma testbit63 u : is_u64 u -> Z.testbit u 63 = (2 ^ 63 <=? u).
Proof.
  intros H. unfold is_u64 in H.
  destruct (Z.leb_spec (2 ^ 63) u).
  - apply Z.testbit_true; [lia|].
    assert (u / 2 ^ 63 = 1) as ->; [|done].
    symmetry. apply Z.div_unique_pos with (u - 2 ^ 63); lia.
  - apply Z.testbit_false; [lia|]. by rewrite Z.div_small by lia.
Qed.

(** Exponent and significand fields in terms of the magnitude. *)
Lemma f64_fields u :
  (u / 2 ^ 52) mod 2 ^ 11 = f64_mag u / 2 ^ 52 /\
  u mod 2 ^ 52 = f64_mag u mod 2 ^ 52.
Proof.
  unfold f64_mag. change (2 ^ 63) with (2 ^ 52 * 2 ^ 11).
  rewrite Z.rem_mul_r by lia. split.
  - rewrite Z.add_comm, Z.mul_comm, Z.div_add_l by lia.
    rewrite (Z.div_small (u mod 2 ^ 52)) by (apply Z.mod_pos_bound; lia). lia.
  - rewrite Z.mul_comm, Z.mod_add, Z.mod_mod by lia. done.
Qed.

(** What a finite pattern of magnitude [g] decodes to. *)
Definition f64_finite_of (g : Z) (p : positive) (x : Z) : Prop :=
  (0 < g < 2 ^ 52 /\ Zpos p = g /\ x = -1074) \/
  (2 ^ 52 <= g < 2047 * 2 ^ 52 /\
   Zpos p = g mod 2 ^ 52 + 2 ^ 52 /\ x = g / 2 ^ 52 - 1075).

Lemma f64_decode_spec u :
  f64_nan u = false ->
  (f64_decode u = S754_zero (f64_neg u) /\ f64_mag u = 0) \/
  (f64_decode u = S754_infinity (f64_neg u) /\ f64_mag u = 2047 * 2 ^ 52) \/
  (exists p x, f64_decode u = S754_finite (f64_neg u) p x /\
               f64_finite_of (f64_mag u) p x).
Proof.
  unfold f64_nan, f64_decode, bits_decode, fmt_emin, fmt_prec, fmt_emax,
    SpecFloat.emin.
  destruct (f64_fields u) as [He Hm]. rewrite He, Hm.
  change (52 + 11) with 63. fold (f64_neg u).
  pose proof (Z.mod_pos_bound u (2 ^ 63) ltac:(lia)) as Hr. fold (f64_mag u) in Hr.
  set (g := f64_mag u) in *. clearbody g. clear He Hm.
  pose proof (Z.div_mod g (2 ^ 52) ltac:(lia)) as Hdm.
  pose proof (Z.mod_pos_bound g (2 ^ 52) ltac:(lia)) as Hmb.
  assert (0 <= g / 2 ^ 52 < 2 ^ 11) as Hq by
    (split; [apply Z.div_pos; lia | apply Z.div_lt_upper_bound; lia]).
  unfold f64_finite_of.
  destruct (Z.eqb_spec (g / 2 ^ 52) 0) as [E0|E0].
  - intros _. destruct (g mod 2 ^ 52) eqn:Em; [left; split; [done|lia]| |lia].
    right; right. exists p, (-1074). split; [done|]. left. lia.
  - destruct (Z.eqb_spec (g / 2 ^ 52) (2 ^ 11 - 1)) as [E1|E1].
    + destruct (Z.eqb_spec (g mod 2 ^ 52) 0); [|done].
      intros _. right; left. split; [done|lia].
    + destruct (g mod 2 ^ 52 + 2 ^ 52) eqn:Es; [lia| |lia].
      intros _. right; right. eexists _, _. split; [done|]. right. lia.
Qed.

(** Magnitudes of finite values compare like (exponent, significand). *)
Lemma f64_finite_compare g1 p1 x1 g2 p2 x2 :
  f64_finite_of g1 p1 x1 -> f64_finite_of g2 p2 x2 ->
  match Z.compare x1 x2 with
  | Eq => Pos.compare_cont Eq p1 p2 | c => c
  end = Z.compare g1 g2.
Proof.
  unfold f64_finite_of. intros H1 H2.
  change (Pos.compare_cont Eq p1 p2) with (Z.compare (Zpos p1) (Zpos p2)).
  pose proof (Z.div_mod g1 (2 ^ 52) ltac:(lia)).
  pose proof (Z.mod_pos_bound g1 (2 ^ 52) ltac:(lia)).
  pose proof (Z.div_mod g2 (2 ^ 52) ltac:(lia)).
  pose proof (Z.mod_pos_bound g2 (2 ^ 52) ltac:(lia)).
  destruct (Z.compare_spec x1 x2), (Z.compare_spec (Zpos p1) (Zpos p2)),
    (Z.compare_spec g1 g2); try done; exfalso; lia.
Qed.

Lemma f64_compare_sval a b :
  f64_nan a = false -> f64_nan b = false ->
  SFcompare (f64_decode a) (f64_decode b) =
  Some (Z.compare (f64_sval a) (f64_sval b)).
Proof.
  intros Ha Hb. unfold f64_sval.
  assert (forall g p x, f64_finite_of g p x -> 0 < g < 2047 * 2 ^ 52) as Hfin
    by (unfold f64_finite_of; lia).
  destruct (f64_decode_spec a Ha) as [[Ea Ga]|[[Ea Ga]|(p1 & x1 & Ea & F1)]],
    (f64_decode_spec b Hb) as [[Eb Gb]|[[Eb Gb]|(p2 & x2 & Eb & F2)]];
    rewrite Ea, Eb; clear Ea Eb;
    try (pose proof (Hfin _ _ _ F1)); try (pose proof (Hfin _ _ _ F2));
    try rewrite Ga; try rewrite Gb;
    destruct (f64_neg a), (f64_neg b); cbn [SFcompare]; f_equal; symmetry;
    try (apply Z.compare_eq_iff; lia); try (apply Z.compare_lt_iff; lia);
    try (apply Z.compare_gt_iff; lia).
  - rewrite Z.compare_opp, Z.compare_antisym.
    rewrite <- (f64_finite_compare _ _ _ _ _ _ F1 F2).
    by destruct (Z.compare x1 x2).
  - by rewrite (f64_finite_compare _ _ _ _ _ _ F1 F2).
Qed.

Lemma f64_eqb_sval a b :
  f64_nan a = false -> f64_nan b = false ->
  f64_eqb a b = (f64_sval a =? f64_sval b).
Proof.
  intros Ha Hb. unfold f64_eqb, SFeqb. rewrite f64_compare_sval by done.
  rewrite Z.eqb_compare. by destruct (Z.compare _ _).
Qed.
Lemma f64_ltb_sval a b :
  f64_nan a = false -> f64_nan b = false ->
  f64_ltb a b = (f64_sval a <? f64_sval b).
Proof.
  intros Ha Hb. unfold f64_ltb, SFltb. rewrite f64_compare_sval by done.
  unfold Z.ltb. by destruct (Z.compare _ _).
Qed.
Lemma f64_leb_sval a b :
  f64_nan a = false -> f64_nan b = false ->
  f64_leb a b = (f64_sval a <=? f64_sval b).
Proof.
  intros Ha Hb. unfold f64_leb, SFleb. rewrite f64_compare_sval by done.
  unfold Z.leb. by destruct (Z.compare _ _).
Qed.

(** A NaN operand makes every comparison false. *)
Lemma f64_cmp_nan a b :
  f64_nan a = true \/ f64_nan b = true ->
  f64_eqb a b = false /\ f64_ltb a b = false /\ f64_leb a b = false.
Proof.
  unfold f64_nan, is_nan, f64_eqb, f64_ltb, f64_leb, SFeqb, SFltb, SFleb.
  intros H. destruct (f64_decode a), (f64_decode b); destruct H; try done;
    repeat split; destruct s; reflexivity.
Qed.
