(* ===== verification/Options.v ===== *)
(** * Schema: index types, physical types, attribute specs

    Models [bit_lsm_option.h]. *)
From Stdlib Require Import ZArith Lia Strings.String.
From stdpp Require Import base numbers list pretty.
From S2P Require Import Prelude.

(** ** rocksdb::Status

    The status object the operations of the program return: its code and its
    message. *)
Inductive Status :=
  | OK
  | NotFound (msg : string)
  | Corruption (msg : string)
  | NotSupported (msg : string)
  | InvalidArgument (msg : string)
  | IOError (msg : string)
  | TryAgain (msg : string).

Definition ok (s : Status) : bool := match s with OK => true | _ => false end.

(** [std::to_string] of an unsigned integer. *)
Definition to_string (z : Z) : string := pretty z.

Inductive IndexType := kEquality | kRange.
Inductive PhysicalType := kInt | kUint | kFloat | kBinary | kVarBinary.

#[global] Instance IndexType_eq_dec : EqDecision IndexType.
Proof. solve_decision. Defined.
#[global] Instance PhysicalType_eq_dec : EqDecision PhysicalType.
Proof. solve_decision. Defined.

(** The byte an index type is persisted as. *)
Definition IndexType_byte (t : IndexType) : Z :=
  match t with kEquality => 0 | kRange => 1 end.

Record AttrSpec := mkAttrSpec {
  index_type : IndexType;
  physical_type : PhysicalType;
  width : Z;
  nullable : bool;
}.

#[global] Instance AttrSpec_eq_dec : EqDecision AttrSpec.
Proof. solve_decision. Defined.

Definition IsNumeric (s : AttrSpec) : bool :=
  bool_decide (physical_type s = kInt) || bool_decide (physical_type s = kUint)
  || bool_decide (physical_type s = kFloat).

Definition IsFixed (s : AttrSpec) : bool :=
  negb (bool_decide (physical_type s = kVarBinary)).

Definition Valid (s : AttrSpec) : bool :=
  match physical_type s with
  | kInt | kUint =>
      (width s =? 1) || (width s =? 2) || (width s =? 4) || (width s =? 8)
  | kFloat => (width s =? 4) || (width s =? 8)
  | kBinary => 0 <? width s
  | kVarBinary => width s =? 0
  end.

Record BitLSMOptions := mkBitLSMOptions {
  attr_num : Z;
  attr_specs : list AttrSpec;
  read_seqno : Z;
  rho : Z; (* bit pattern of the double *)
  scan_prefetch_depth : Z;
  enable_estimator : bool;
  estimator_grid_cells : Z;
  estimator_min_rebuild_interval_ms : Z;
  ondemand_index : bool;
}.

Fixpoint ValidateAttrSpecs_loop (i : Z) (specs : list AttrSpec) : Status :=
  match specs with
  | [] => OK
  | s :: rest =>
      if negb (Valid s) then
        InvalidArgument ("attr " +:+ to_string i +:+ ": width " +:+
          to_string (width s) +:+ " is invalid for its physical type")
      else ValidateAttrSpecs_loop (i + 1) rest
  end.

Definition ValidateAttrSpecs (o : BitLSMOptions) : Status :=
  if negb (zlen (attr_specs o) =? attr_num o) then
    InvalidArgument "attr_num does not match attr_specs size"
  else ValidateAttrSpecs_loop 0 (attr_specs o).

(** ** The accepted schemas *)

Lemma ValidateAttrSpecs_loop_ok i specs :
  ValidateAttrSpecs_loop i specs = OK <-> Forall (fun s => Valid s = true) specs.
Proof.
  revert i. induction specs as [|s specs IH]; intros i; simpl.
  - split; auto.
  - destruct (Valid s) eqn:E; simpl.
    + rewrite IH, Forall_cons. naive_solver.
    + rewrite Forall_cons. split; [done|]. intros [H _]. congruence.
Qed.

(** A schema that open and create accept: the sizes agree and every width
    fits its physical type. *)
Record schema_ok (o : BitLSMOptions) : Prop := {
  schema_size : zlen (attr_specs o) = attr_num o;
  schema_valid : Forall (fun s => Valid s = true) (attr_specs o);
}.

Lemma ValidateAttrSpecs_ok o : ValidateAttrSpecs o = OK <-> schema_ok o.
Proof.
  unfold ValidateAttrSpecs. destruct (Z.eqb_spec (zlen (attr_specs o)) (attr_num o)); simpl.
  - rewrite ValidateAttrSpecs_loop_ok. split; [by constructor|by intros []].
  - split; [done|]. intros []. congruence.
Qed.

Lemma Valid_width_nonneg s : Valid s = true -> 0 <= width s.
Proof.
  unfold Valid. destruct (physical_type s); rewrite ?orb_true_iff, ?Z.eqb_eq, ?Z.ltb_lt; lia.
Qed.

Lemma IsFixed_false s : IsFixed s = false <-> physical_type s = kVarBinary.
Proof. unfold IsFixed. rewrite negb_false_iff, bool_decide_eq_true. done. Qed.
Lemma IsFixed_true s : IsFixed s = true <-> physical_type s <> kVarBinary.
Proof. unfold IsFixed. rewrite negb_true_iff, bool_decide_eq_false. done. Qed.
