(* ===== verification/Row.v ===== *)
(** * The row value format

    Models [bit_lsm_utils.h]: the layout derived from a schema, the encoder
    [EncodeValue] that fills a reused output buffer in place, and the decoders
    [DecodeAttr] and [DecodePayload].

    The refinement theorem shows that the in-place encoder writes exactly the
    concatenation of the five regions of the format, whatever the buffer held
    before; the round trips follow from it. *)
From Stdlib Require Import ZArith Lia Strings.Byte.
From stdpp Require Import base numbers list.
From S2P Require Import Prelude Floats Options.

(** ** Attribute values

    [Attr] and [AttrView] are the same variant, up to who owns the bytes of
    the string alternative. Integers are in the range of their C++ type, a
    double is its pattern. *)
Inductive Attr :=
  | ANull
  | AInt (z : Z)
  | AUint (z : Z)
  | ADouble (d : Z)
  | AString (s : bytes).

Abbreviation AttrView := Attr.

#[global] Instance Attr_eq_dec : EqDecision Attr.
Proof. solve_decision. Defined.

Definition is_monostate (a : Attr) : bool :=
  match a with ANull => true | _ => false end.

Definition get_int (a : Attr) : result Z :=
  match a with AInt z => Ok z | _ => Fault BadVariantAccess end.
Definition get_uint (a : Attr) : result Z :=
  match a with AUint z => Ok z | _ => Fault BadVariantAccess end.
Definition get_double (a : Attr) : result Z :=
  match a with ADouble d => Ok d | _ => Fault BadVariantAccess end.
Definition get_string (a : Attr) : result bytes :=
  match a with AString s => Ok s | _ => Fault BadVariantAccess end.

(** ** ValueLayout *)
Record ValueLayout := mkValueLayout {
  n_variable : Z;
  n_nullable : Z;
  null_bitmap_bytes : Z;
  variable_base : Z;
  slot : list Z;
  is_fixed : list bool;
  null_bit : list Z;
  specs : list AttrSpec;
}.

(** First loop of the constructor: counts, and the null-bitmap positions. *)
Fixpoint layout_counts (ss : list AttrSpec) (n_variable n_nullable : Z)
    : Z * Z * list Z :=
  match ss with
  | [] => (n_variable, n_nullable, [])
  | s :: rest =>
      let nv := if negb (IsFixed s) then u32 (n_variable + 1) else n_variable in
      let nn := if nullable s then u32 (n_nullable + 1) else n_nullable in
      let nb := if nullable s then s32 n_nullable else -1 in
      let '(nv', nn', nbs) := layout_counts rest nv nn in
      (nv', nn', nb :: nbs)
  end.

(** Second loop: slots, fixed flags and the end of the fixed region. *)
Fixpoint layout_slots (ss : list AttrSpec) (off variable_rank : Z)
    : list Z * list bool * Z :=
  match ss with
  | [] => ([], [], off)
  | s :: rest =>
      if IsFixed s then
        let '(sl, fx, e) := layout_slots rest (u32 (off + width s)) variable_rank in
        (off :: sl, true :: fx, e)
      else
        let '(sl, fx, e) := layout_slots rest off (u32 (variable_rank + 1)) in
        (variable_rank :: sl, false :: fx, e)
  end.

Definition mkLayout (options : BitLSMOptions) : result ValueLayout :=
  let sp := attr_specs options in
  if zlen sp <? attr_num options then Fault OutOfBounds
  else
    let ss := take (Z.to_nat (attr_num options)) sp in
    let '(nv, nn, nbs) := layout_counts ss 0 0 in
    let nbb := u32 (nn + 7) / 8 in
    let off := u32 (nbb + u32 (nv * 4)) in
    let '(sl, fx, e) := layout_slots ss off 0 in
    Ok {| n_variable := nv; n_nullable := nn; null_bitmap_bytes := nbb;
          variable_base := e; slot := sl; is_fixed := fx; null_bit := nbs;
          specs := sp |}.

Definition IsNullBitSet (base : bytes) (nb : Z) : result bool :=
  b ← zget base (Z.shiftr nb 3);
  Ok (Z.testbit (b2z b) (Z.land nb 7)).

(** The bytes [EncodeFixed] copies to its destination. *)
Definition EncodeFixed (v : Attr) (s : AttrSpec) : result bytes :=
  match physical_type s with
  | kFloat =>
      d ← get_double v;
      if width s =? 8 then Ok (le_enc 8 d) else Ok (le_enc 4 (cast_f32 d))
  | kInt =>
      x ← get_int v;
      if 8 <? width s then Fault OutOfBounds
      else Ok (le_enc (Z.to_nat (width s)) (u64 x))
  | kUint =>
      x ← get_uint v;
      if 8 <? width s then Fault OutOfBounds
      else Ok (le_enc (Z.to_nat (width s)) x)
  | kBinary => str ← get_string v; zsub str 0 (width s)
  | kVarBinary => Ok []
  end.

Definition sign_extend (w raw : Z) : Z :=
  if w <? 8 then
    let sign_bit := Z.shiftl 1 (w * 8 - 1) in
    if negb (Z.land raw sign_bit =? 0) then
      Z.lor raw (u64 (Z.lnot (Z.shiftl 1 (w * 8) - 1)))
    else raw
  else raw.

(** Reads the slot at offset [src] of [buf]. *)
Definition DecodeFixed (buf : bytes) (src : Z) (s : AttrSpec) : result AttrView :=
  match physical_type s with
  | kFloat =>
      if width s =? 8 then b ← zsub buf src 8; Ok (ADouble (le_dec b))
      else b ← zsub buf src 4; Ok (ADouble (cast_f64 (le_dec b)))
  | kInt =>
      if 8 <? width s then Fault OutOfBounds else
      b ← zsub buf src (width s);
      Ok (AInt (s64 (sign_extend (width s) (le_dec b))))
  | kUint =>
      if 8 <? width s then Fault OutOfBounds else
      b ← zsub buf src (width s); Ok (AUint (le_dec b))
  | kBinary => b ← zsub buf src (width s); Ok (AString b)
  | kVarBinary => Ok ANull
  end.

(** An integer converted to [double] rounds to nearest; only numbers convert. *)
Definition NumericToDouble (v : AttrView) : result SpecFloat.spec_float :=
  match v with
  | AInt z | AUint z => Ok (f64_of_Z z)
  | ADouble d => Ok (f64_decode d)
  | _ => Fault BadVariantAccess
  end.

(** ** EncodeValue *)

(** First loop: total size of the variable-length values. *)
Fixpoint variable_bytes_loop (layout : ValueLayout) (i : Z) (attrs : list Attr)
    (variable_bytes : Z) : result Z :=
  match attrs with
  | [] => Ok variable_bytes
  | a :: rest =>
      fx ← zget (is_fixed layout) i;
      vb ← (if negb fx && negb (is_monostate a)
            then str ← get_string a; Ok (u32 (variable_bytes + u32 (zlen str)))
            else Ok variable_bytes);
      variable_bytes_loop layout (i + 1) rest vb
  end.

(** [base[nb >> 3] |= static_cast<char>(1u << (nb & 7))] *)
Definition set_null_bit (base : bytes) (nb : Z) : result bytes :=
  b ← zget base (Z.shiftr nb 3);
  zset base (Z.shiftr nb 3) (z2b (Z.lor (b2z b) (Z.shiftl 1 (Z.land nb 7)))).

Record enc_state := mkEncState {
  base : bytes;
  variable_ptr : Z;
  var_end : Z;
  variable_seen : Z;
}.

(** One iteration of the second loop. *)
Definition encode_attr (layout : ValueLayout) (i : Z) (a : Attr) (st : enc_state)
    : result enc_state :=
  let is_null := is_monostate a in
  base1 ← (if is_null then
             nb ← zget (null_bit layout) i;
             if 0 <=? nb then set_null_bit (base st) nb else Ok (base st)
           else Ok (base st));
  fx ← zget (is_fixed layout) i;
  if fx : bool then
    sl ← zget (slot layout) i;
    sp ← zget (specs layout) i;
    data ← (if is_null then Ok (replicate (Z.to_nat (width sp)) x00)
            else EncodeFixed a sp);
    base2 ← zwrite base1 sl data;
    Ok (mkEncState base2 (variable_ptr st) (var_end st) (variable_seen st))
  else
    '(base2, ptr, ve) ←
      (if is_null then Ok (base1, variable_ptr st, var_end st)
       else
         str ← get_string a;
         base2 ← zwrite base1 (variable_ptr st) str;
         Ok (base2, variable_ptr st + zlen str,
             u32 (var_end st + u32 (zlen str))));
    base3 ← zwrite base2 (null_bitmap_bytes layout + variable_seen st * 4)
              (le_enc 4 ve);
    Ok (mkEncState base3 ptr ve (u32 (variable_seen st + 1))).

Fixpoint encode_loop (layout : ValueLayout) (i : Z) (attrs : list Attr)
    (st : enc_state) : result enc_state :=
  match attrs with
  | [] => Ok st
  | a :: rest =>
      st' ← encode_attr layout i a st; encode_loop layout (i + 1) rest st'
  end.

(** [out_value] is the caller's buffer: [resize] keeps what it held. *)
Definition EncodeValue (layout : ValueLayout) (attrs : list Attr)
    (payload out_value : bytes) : result bytes :=
  variable_bytes ← variable_bytes_loop layout 0 attrs 0;
  let out := zresize out_value
    (u32 (variable_base layout + variable_bytes) + zlen payload) x00 in
  base0 ← zwrite out 0
    (replicate (Z.to_nat (null_bitmap_bytes layout)) x00);
  st ← encode_loop layout 0 attrs
         (mkEncState base0 (variable_base layout) 0 0);
  if zlen payload =? 0 then Ok (base st)
  else zwrite (base st) (variable_ptr st) payload.

(** ** Decoding *)
Definition DecodeAttr (layout : ValueLayout) (buffer : bytes) (attr_idx : Z)
    : result AttrView :=
  nb ← zget (null_bit layout) attr_idx;
  isnull ← (if 0 <=? nb then IsNullBitSet buffer nb else Ok false);
  if isnull : bool then Ok ANull else
  fx ← zget (is_fixed layout) attr_idx;
  if fx : bool then
    sl ← zget (slot layout) attr_idx;
    sp ← zget (specs layout) attr_idx;
    DecodeFixed buffer sl sp
  else
    rank ← zget (slot layout) attr_idx;
    e ← zsub buffer (null_bitmap_bytes layout + rank * 4) 4;
    st ← (if 0 <? rank
          then zsub buffer (null_bitmap_bytes layout + (rank - 1) * 4) 4
          else Ok []);
    let stop := le_dec e in
    let start := le_dec st in
    v ← zsub buffer (variable_base layout + start) (u32 (stop - start));
    Ok (AString v).

Definition DecodePayload (layout : ValueLayout) (buffer : bytes) : result bytes :=
  st ← (if 0 <? n_variable layout
        then zsub buffer
               (null_bitmap_bytes layout + (n_variable layout - 1) * 4) 4
        else Ok []);
  let off := u32 (variable_base layout + le_dec st) in
  zsub buffer off (zlen buffer - off).

(** ** The format, declaratively *)

(** Sizes over a list of specs. *)
Fixpoint n_var (ss : list AttrSpec) : Z :=
  match ss with
  | [] => 0
  | s :: rest => (if IsFixed s then 0 else 1) + n_var rest
  end.
Fixpoint n_null (ss : list AttrSpec) : Z :=
  match ss with
  | [] => 0
  | s :: rest => (if nullable s then 1 else 0) + n_null rest
  end.
Fixpoint fixed_len (ss : list AttrSpec) : Z :=
  match ss with
  | [] => 0
  | s :: rest => (if IsFixed s then width s else 0) + fixed_len rest
  end.
Definition nbb_of (ss : list AttrSpec) : Z := (n_null ss + 7) / 8.
Definition hdr_of (ss : list AttrSpec) : Z := nbb_of ss + n_var ss * 4.

(** An attribute value of the alternative its physical type stores; NULL goes
    with any type. *)
Definition attr_typed (s : AttrSpec) (a : Attr) : Prop :=
  match a with
  | ANull => True
  | AInt z => physical_type s = kInt /\ is_s64 z
  | AUint z => physical_type s = kUint /\ is_u64 z
  | ADouble d => physical_type s = kFloat /\ is_u64 d
  | AString b =>
      (physical_type s = kBinary /\ zlen b = width s) \/
      physical_type s = kVarBinary
  end.

(** The bytes a fixed slot holds for a typed value. *)
Definition fixed_bytes (s : AttrSpec) (a : Attr) : bytes :=
  match a with
  | ANull => replicate (Z.to_nat (width s)) x00
  | AInt z => le_enc (Z.to_nat (width s)) (u64 z)
  | AUint z => le_enc (Z.to_nat (width s)) z
  | ADouble d => if width s =? 8 then le_enc 8 d else le_enc 4 (cast_f32 d)
  | AString b => b
  end.

Definition var_bytes (a : Attr) : bytes :=
  match a with AString b => b | _ => [] end.

(** The fixed region, the variable region and the [var_end] array. *)
Fixpoint fixed_region (ss : list AttrSpec) (attrs : list Attr) : bytes :=
  match ss, attrs with
  | s :: ss', a :: attrs' =>
      (if IsFixed s then fixed_bytes s a else []) ++ fixed_region ss' attrs'
  | _, _ => []
  end.
Fixpoint var_region (ss : list AttrSpec) (attrs : list Attr) : bytes :=
  match ss, attrs with
  | s :: ss', a :: attrs' =>
      (if IsFixed s then [] else var_bytes a) ++ var_region ss' attrs'
  | _, _ => []
  end.
Fixpoint var_ends (ss : list AttrSpec) (attrs : list Attr) (e : Z) : bytes :=
  match ss, attrs with
  | s :: ss', a :: attrs' =>
      if IsFixed s then var_ends ss' attrs' e
      else le_enc 4 (e + zlen (var_bytes a)) ++
           var_ends ss' attrs' (e + zlen (var_bytes a))
  | _, _ => []
  end.

(** The null bitmap: bit [n] is set for the [n]-th nullable attribute that is
    NULL. *)
Definition bm_set (bm : bytes) (nb : Z) : bytes :=
  alter (fun b => z2b (Z.lor (b2z b) (Z.shiftl 1 (Z.land nb 7))))
        (Z.to_nat (Z.shiftr nb 3)) bm.
Fixpoint bitmap_from (ss : list AttrSpec) (attrs : list Attr) (n : Z)
    (bm : bytes) : bytes :=
  match ss, attrs with
  | s :: ss', a :: attrs' =>
      bitmap_from ss' attrs' (if nullable s then n + 1 else n)
        (if nullable s && is_monostate a then bm_set bm n else bm)
  | _, _ => bm
  end.
Definition null_bitmap (ss : list AttrSpec) (attrs : list Attr) : bytes :=
  bitmap_from ss attrs 0 (replicate (Z.to_nat (nbb_of ss)) x00).

(** The row value: the five regions in order. *)
Definition row_value (ss : list AttrSpec) (attrs : list Attr) (payload : bytes)
    : bytes :=
  null_bitmap ss attrs ++ var_ends ss attrs 0 ++ fixed_region ss attrs ++
  var_region ss attrs ++ payload.

(** The row fits the 32-bit offsets of the format. *)
Definition row_fits (ss : list AttrSpec) (attrs : list Attr) : Prop :=
  n_null ss <= 2 ^ 31 /\
  hdr_of ss + fixed_len ss + zlen (var_region ss attrs) < 2 ^ 32.

(** The value a row gives back for an attribute stored under [s]. *)
Definition stored_value (s : AttrSpec) (a : Attr) : Attr :=
  match a with
  | ANull =>
      if nullable s then ANull
      else match physical_type s with
           | kInt => AInt 0
           | kUint => AUint 0
           | kFloat => ADouble 0
           | kBinary => AString (replicate (Z.to_nat (width s)) x00)
           | kVarBinary => AString []
           end
  | AInt z => AInt (s64 (sign_extend (width s) (u64 z mod 256 ^ width s)))
  | AUint z => AUint (z mod 256 ^ width s)
  | ADouble d => if width s =? 8 then ADouble d else ADouble (cast_f64 (cast_f32 d))
  | AString b => AString b
  end.

(** ** The layout constructor computes these sizes *)
Lemma n_var_nonneg ss : 0 <= n_var ss.
Proof. induction ss as [|s ss IH]; simpl; [lia|]. destruct (IsFixed s); lia. Qed.
Lemma n_null_nonneg ss : 0 <= n_null ss.
Proof. induction ss as [|s ss IH]; simpl; [lia|]. destruct (nullable s); lia. Qed.
Lemma fixed_len_nonneg ss :
  Forall (fun s => Valid s = true) ss -> 0 <= fixed_len ss.
Proof.
  induction 1 as [|s ss H _ IH]; simpl; [lia|].
  apply Valid_width_nonneg in H. destruct (IsFixed s); lia.
Qed.
Lemma n_var_app a b : n_var (a ++ b) = n_var a + n_var b.
Proof. induction a as [|s a IH]; simpl; [lia|]. rewrite IH. lia. Qed.
Lemma n_null_app a b : n_null (a ++ b) = n_null a + n_null b.
Proof. induction a as [|s a IH]; simpl; [lia|]. rewrite IH. lia. Qed.
Lemma fixed_len_app a b : fixed_len (a ++ b) = fixed_len a + fixed_len b.
Proof. induction a as [|s a IH]; simpl; [lia|]. rewrite IH. lia. Qed.

Lemma layout_counts_spec ss nv nn :
  0 <= nv -> 0 <= nn -> nv + n_var ss < 2 ^ 32 -> nn + n_null ss <= 2 ^ 31 ->
  exists nbs,
    layout_counts ss nv nn = (nv + n_var ss, nn + n_null ss, nbs) /\
    forall pre s post, ss = pre ++ s :: post ->
      nbs !! length pre = Some (if nullable s then nn + n_null pre else -1).
Proof.
  revert nv nn. induction ss as [|s ss IH]; intros nv nn Hv Hn Hv' Hn'.
  - exists []. simpl. split; [f_equal; f_equal; lia|].
    intros pre s post H. by destruct pre.
  - simpl in *. pose proof (n_var_nonneg ss). pose proof (n_null_nonneg ss).
    edestruct (IH (if negb (IsFixed s) then u32 (nv + 1) else nv)
                  (if nullable s then u32 (nn + 1) else nn))
      as (nbs & -> & Hnbs);
      try (destruct (IsFixed s), (nullable s); simpl;
           rewrite ?u32_small by (unfold is_u32; lia); lia).
    exists ((if nullable s then nn else -1) :: nbs).
    assert (nullable s = true -> s32 nn = nn) as Hs32 by (intros Es; rewrite Es in Hn'; apply s32_id; lia). split.
    + destruct (IsFixed s), (nullable s); simpl;
        rewrite ?Hs32 by done; rewrite ?u32_small by (unfold is_u32; lia);
        (apply (f_equal2 pair); [apply (f_equal2 pair); lia|reflexivity]).
    + intros [|p pre] s' post [= -> ->]; simpl.
      * destruct (nullable s'); f_equal; lia.
      * rewrite (Hnbs pre s' post eq_refl). f_equal.
        destruct (nullable s'), (nullable p);
          rewrite ?u32_small by (unfold is_u32; lia); lia.
Qed.

Lemma layout_slots_spec ss off rank :
  Forall (fun s => Valid s = true) ss ->
  0 <= off -> 0 <= rank -> off + fixed_len ss < 2 ^ 32 ->
  rank + n_var ss < 2 ^ 32 ->
  exists sl fx,
    layout_slots ss off rank = (sl, fx, off + fixed_len ss) /\
    forall pre s post, ss = pre ++ s :: post ->
      fx !! length pre = Some (IsFixed s) /\
      sl !! length pre =
        Some (if IsFixed s then off + fixed_len pre else rank + n_var pre).
Proof.
  intros Hval. revert off rank.
  induction Hval as [|s ss Hs Hss IH]; intros off rank Ho Hr Ho' Hr'.
  - exists [], []. simpl. split; [f_equal; lia|].
    intros pre s post H. by destruct pre.
  - simpl in *. pose proof (n_var_nonneg ss). pose proof (fixed_len_nonneg ss Hss).
    pose proof (Valid_width_nonneg s Hs).
    destruct (IsFixed s) eqn:Ef.
    + rewrite u32_small by (unfold is_u32; lia).
      destruct (IH (off + width s) rank) as (sl & fx & -> & Hat); try lia.
      eexists _, _. split; [f_equal; lia|].
      intros [|p pre] s' post [= -> ->]; simpl; rewrite ?Ef.
      * split; f_equal; lia.
      * destruct (Hat pre s' post eq_refl) as [-> ->]. split; [done|].
        f_equal. destruct (IsFixed s'); lia.
    + rewrite u32_small by (unfold is_u32; lia).
      destruct (IH off (rank + 1)) as (sl & fx & -> & Hat); try lia.
      eexists _, _. split; [f_equal; lia|].
      intros [|p pre] s' post [= -> ->]; simpl; rewrite ?Ef.
      * split; f_equal; lia.
      * destruct (Hat pre s' post eq_refl) as [-> ->]. split; [done|].
        f_equal. destruct (IsFixed s'); lia.
Qed.

(** The layout of a schema: what every reader of it relies on. *)
Record layout_of (ss : list AttrSpec) (lay : ValueLayout) : Prop := {
  lo_nvar : n_variable lay = n_var ss;
  lo_nbb : null_bitmap_bytes lay = nbb_of ss;
  lo_base : variable_base lay = hdr_of ss + fixed_len ss;
  lo_specs : specs lay = ss;
  lo_len : length (slot lay) = length ss;
  lo_valid : Forall (fun s => Valid s = true) ss;
  lo_at pre s post : ss = pre ++ s :: post ->
    zget (is_fixed lay) (zlen pre) = Ok (IsFixed s) /\
    zget (slot lay) (zlen pre) =
      Ok (if IsFixed s then hdr_of ss + fixed_len pre else n_var pre) /\
    zget (null_bit lay) (zlen pre) =
      Ok (if nullable s then n_null pre else -1) /\
    zget (specs lay) (zlen pre) = Ok s;
}.

(** The header and the fixed region fit 32-bit offsets. *)
Definition schema_fits (ss : list AttrSpec) : Prop :=
  n_null ss <= 2 ^ 31 /\ hdr_of ss + fixed_len ss < 2 ^ 32.

Lemma nbb_bound ss : 0 <= nbb_of ss /\ n_null ss <= 8 * nbb_of ss.
Proof.
  unfold nbb_of. pose proof (n_null_nonneg ss).
  pose proof (Z.div_mod (n_null ss + 7) 8 ltac:(lia)).
  pose proof (Z.mod_pos_bound (n_null ss + 7) 8 ltac:(lia)).
  split; [apply Z.div_pos; lia|lia].
Qed.

Lemma length_layout_slots ss off rank sl fx e :
  layout_slots ss off rank = (sl, fx, e) -> length sl = length ss.
Proof.
  revert off rank sl fx e. induction ss as [|s ss IH]; intros off rank sl fx e; simpl.
  - by intros [= <- _ _].
  - destruct (IsFixed s).
    + destruct (layout_slots ss _ rank) as [[sl' fx'] e'] eqn:E.
      intros [= <- _ _]. simpl. f_equal. eauto.
    + destruct (layout_slots ss off _) as [[sl' fx'] e'] eqn:E.
      intros [= <- _ _]. simpl. f_equal. eauto.
Qed.

Lemma mkLayout_spec o :
  schema_ok o -> schema_fits (attr_specs o) ->
  exists lay, mkLayout o = Ok lay /\ layout_of (attr_specs o) lay.
Proof.
  intros [Hsz Hval] [Hn Hh]. unfold mkLayout.
  set (ss := attr_specs o) in *. rewrite <- Hsz, Z.ltb_irrefl.
  rewrite take_ge by (unfold zlen; lia).
  pose proof (n_var_nonneg ss). pose proof (n_null_nonneg ss).
  pose proof (fixed_len_nonneg ss Hval). pose proof (nbb_bound ss).
  unfold hdr_of in *.
  destruct (layout_counts_spec ss 0 0) as (nbs & Hc & Hnbs); try lia.
  rewrite !Z.add_0_l in Hc. rewrite Hc.
  rewrite (u32_small (n_null ss + 7)) by (unfold is_u32; lia).
  rewrite (u32_small (n_var ss * 4)) by (unfold is_u32; lia).
  fold (nbb_of ss). rewrite (u32_small (nbb_of ss + _)) by (unfold is_u32; lia).
  destruct (layout_slots_spec ss (nbb_of ss + n_var ss * 4) 0)
    as (sl & fx & Hl & Hat); [done|lia..|].
  pose proof (length_layout_slots _ _ _ _ _ _ Hl) as Hlen.
  rewrite Hl. eexists. split; [done|]. split; try done.
  intros pre s post E. destruct (Hat pre s post E) as [Hf Hs'].
  specialize (Hnbs pre s post E). simpl. unfold zlen.
  rewrite (zget_nat _ _ _ Hf), (zget_nat _ _ _ Hs'), (zget_nat _ _ _ Hnbs).
  rewrite (zget_nat ss (length pre) s) by (rewrite E; by apply list_lookup_middle).
  unfold hdr_of. rewrite !Z.add_0_l. done.
Qed.

(** ** The encoder refines the declarative format *)
Lemma bm_index (bm : bytes) n :
  0 <= n < 8 * zlen bm -> 0 <= Z.shiftr n 3 < zlen bm.
Proof.
  intros H. rewrite Z.shiftr_div_pow2 by lia. change (2 ^ 3) with 8.
  split; [apply Z.div_pos; lia|apply Z.div_lt_upper_bound; lia].
Qed.

Lemma length_bm_set bm n : zlen (bm_set bm n) = zlen bm.
Proof. unfold bm_set, zlen. by rewrite length_alter. Qed.

Lemma length_bitmap_from ss attrs n bm : zlen (bitmap_from ss attrs n bm) = zlen bm.
Proof.
  revert attrs n bm. induction ss as [|s ss IH]; intros [|a attrs] n bm; simpl; try done.
  rewrite IH. destruct (nullable s && is_monostate a); [apply length_bm_set|done].
Qed.

Lemma set_null_bit_app bm rest n :
  0 <= n < 8 * zlen bm ->
  set_null_bit (bm ++ rest) n = Ok (bm_set bm n ++ rest).
Proof.
  intros H. pose proof (bm_index bm n H) as Hi. unfold set_null_bit, bm_set.
  destruct (lookup_lt_is_Some_2 bm (Z.to_nat (Z.shiftr n 3))) as [b Hb];
    [unfold zlen in Hi; lia|].
  set (i := Z.to_nat (Z.shiftr n 3)) in *.
  assert (Z.shiftr n 3 = Z.of_nat i) as -> by (subst i; lia).
  rewrite (zget_nat _ _ b) by by rewrite lookup_app_l by (eapply lookup_lt_Some; eauto).
  simpl. pose proof (lookup_lt_Some _ _ _ Hb) as Hlt.
  rewrite zset_ok by (rewrite length_app; lia).
  rewrite insert_app_l by done. do 2 f_equal.
  apply list_eq. intros j. destruct (decide (i = j)) as [<-|Hne].
  - by rewrite list_lookup_insert_eq, list_lookup_alter_eq, Hb.
  - by rewrite list_lookup_insert_ne, list_lookup_alter_ne.
Qed.

(** Sizes of the regions. *)
Lemma zlen_fixed_bytes s a :
  Valid s = true -> attr_typed s a -> IsFixed s = true ->
  zlen (fixed_bytes s a) = width s.
Proof.
  intros Hv Ht Hf%IsFixed_true. pose proof (Valid_width_nonneg s Hv).
  unfold Valid in Hv. destruct a; simpl in *.
  - rewrite zlen_replicate. lia.
  - rewrite zlen_le_enc. lia.
  - rewrite zlen_le_enc. lia.
  - destruct Ht as [Hp _]. rewrite Hp, orb_true_iff, !Z.eqb_eq in Hv.
    destruct (Z.eqb_spec (width s) 8) as [E|E]; rewrite zlen_le_enc; lia.
  - destruct Ht as [[_ ?]|?]; [done|congruence].
Qed.

Lemma EncodeFixed_typed s a :
  Valid s = true -> attr_typed s a -> a <> ANull -> IsFixed s = true ->
  EncodeFixed a s = Ok (fixed_bytes s a).
Proof.
  intros Hv Ht Hn Hf%IsFixed_true. unfold EncodeFixed, Valid in *.
  destruct a; simpl in *; try done.
  - destruct Ht as [Hp _]. rewrite Hp in *. simpl. rewrite (proj2 (Z.ltb_ge _ _)); [done|].
    rewrite !orb_true_iff, !Z.eqb_eq in Hv. lia.
  - destruct Ht as [Hp _]. rewrite Hp in *. simpl. rewrite (proj2 (Z.ltb_ge _ _)); [done|].
    rewrite !orb_true_iff, !Z.eqb_eq in Hv. lia.
  - destruct Ht as [Hp _]. rewrite Hp in *. simpl. by destruct (width s =? 8).
  - destruct Ht as [[Hp Hl]|?]; [|congruence]. rewrite Hp. simpl.
    rewrite <- (app_nil_r s0) at 1. apply (zsub_app [] s0 []); [done|lia].
Qed.

(** What the second loop maintains: the part of every region that belongs to
    the attributes already visited is written, the rest of the buffer is
    whatever it was. *)
Record enc_inv (ss ss1 ss2 : list AttrSpec) (bm ve1 veR fx1 fxR vr1 vrR : bytes)
    (st : enc_state) : Prop := {
  ei_split : ss = ss1 ++ ss2;
  ei_base : base st = bm ++ (ve1 ++ veR) ++ (fx1 ++ fxR) ++ (vr1 ++ vrR);
  ei_bm : zlen bm = nbb_of ss;
  ei_ve1 : zlen ve1 = n_var ss1 * 4;
  ei_veR : zlen veR = n_var ss2 * 4;
  ei_fx1 : zlen fx1 = fixed_len ss1;
  ei_fxR : zlen fxR = fixed_len ss2;
  ei_ptr : variable_ptr st = hdr_of ss + fixed_len ss + zlen vr1;
  ei_end : var_end st = zlen vr1;
  ei_seen : variable_seen st = n_var ss1;
}.

Ltac reassoc_to target :=
  match goal with |- context [zwrite ?l _ _] =>
    replace l with target by (rewrite <- ?app_assoc; reflexivity) end.

Section EncodeAttr.
Context (lay : ValueLayout) (ss ss1 : list AttrSpec) (s : AttrSpec) (ss2 : list AttrSpec).
Context (bm ve1 veR fx1 fxR vr1 vrR : bytes) (st : enc_state) (a : Attr).
Context (Hlay : layout_of ss lay) (Hinv : enc_inv ss ss1 (s :: ss2) bm ve1 veR fx1 fxR vr1 vrR st).

(** The schema at the attribute being visited. *)
Lemma enc_split : Valid s = true /\ Forall (fun x => Valid x = true) ss2 /\
  n_null ss = n_null ss1 + ((if nullable s then 1 else 0) + n_null ss2) /\
  n_var ss = n_var ss1 + ((if IsFixed s then 0 else 1) + n_var ss2) /\
  fixed_len ss = fixed_len ss1 + ((if IsFixed s then width s else 0) + fixed_len ss2).
Proof.
  pose proof (lo_valid _ _ Hlay) as Hv. rewrite (ei_split _ _ _ _ _ _ _ _ _ _ _ Hinv) in Hv |- *.
  apply Forall_app in Hv as [_ Hv]. apply Forall_cons in Hv as [Hv Hv2].
  split_and!; [done|done|by rewrite n_null_app|by rewrite n_var_app|by rewrite fixed_len_app].
Qed.

(** A null attribute sets its bit, if it has one. *)
Lemma enc_null_bit : exists base1,
  (if is_monostate a then
     nb ← zget (null_bit lay) (zlen ss1);
     if 0 <=? nb then set_null_bit (base st) nb else Ok (base st)
   else Ok (base st)) = Ok base1 /\
  enc_inv ss ss1 (s :: ss2) (if nullable s && is_monostate a then bm_set bm (n_null ss1) else bm) ve1 veR fx1 fxR vr1 vrR
    (mkEncState base1 (variable_ptr st) (var_end st) (variable_seen st)).
Proof.
  destruct enc_split as (_ & _ & Hnn & _). destruct Hinv as [Es Eb Hbm ? ? ? ? ? ? ?].
  destruct (lo_at _ _ Hlay ss1 s ss2 Es) as (_ & _ & Hnb & _).
  pose proof (n_null_nonneg ss1). pose proof (n_null_nonneg ss2). pose proof (nbb_bound ss) as [_ Hb].
  exists ((if nullable s && is_monostate a then bm_set bm (n_null ss1) else bm) ++ (ve1 ++ veR) ++ (fx1 ++ fxR) ++ (vr1 ++ vrR)).
  split; [|split; try done; cbn [base]; destruct (_ && _); by rewrite ?length_bm_set].
  rewrite Hnb, Eb. destruct (is_monostate a), (nullable s); simpl; try done.
  rewrite (proj2 (Z.leb_le _ _)) by lia. apply set_null_bit_app. lia.
Qed.

(** A fixed-width attribute is written into its slot. *)
Lemma enc_fixed : attr_typed s a -> IsFixed s = true -> exists base2 fxR',
  zwrite (base st) (hdr_of ss + fixed_len ss1) (fixed_bytes s a) = Ok base2 /\
  enc_inv ss (ss1 ++ [s]) ss2 bm ve1 veR (fx1 ++ fixed_bytes s a) fxR' vr1 vrR
    (mkEncState base2 (variable_ptr st) (var_end st) (variable_seen st)).
Proof.
  intros Ht Ef. destruct enc_split as (Hv & Hv2 & _ & Hnv & _). destruct Hinv as [Es Eb Hbm Hve1 HveR Hfx1 HfxR Hptr Hend Hseen].
  simpl in HveR, HfxR. rewrite Ef in *. pose proof (zlen_fixed_bytes s a Hv Ht Ef) as Hlf. pose proof (Valid_width_nonneg s Hv).
  pose proof (fixed_len_nonneg _ Hv2). destruct (zsplit fxR (width s)) as (fxA & fxR' & EfxR & HfxA); [lia|].
  rewrite EfxR, zlen_app in HfxR. rewrite Eb, EfxR.
  reassoc_to ((bm ++ (ve1 ++ veR) ++ fx1) ++ fxA ++ (fxR' ++ vr1 ++ vrR)).
  rewrite zwrite_app by (rewrite ?zlen_app; unfold hdr_of; lia). eexists _, fxR'. split; [done|].
  split; cbn [base variable_ptr var_end variable_seen]; rewrite ?zlen_app, ?n_var_app, ?fixed_len_app; simpl; rewrite ?Ef; try lia.
  - by rewrite <- app_assoc.
  - by rewrite <- !app_assoc.
Qed.

(** A variable-width one is appended to the last region, and its end recorded. *)
Lemma enc_variable : schema_fits ss -> attr_typed s a -> IsFixed s = false ->
  zlen vr1 + zlen (var_bytes a) < 2 ^ 32 -> zlen (var_bytes a) <= zlen vrR ->
  exists base2 base3 veR' vrR',
    (if is_monostate a then Ok (base st, variable_ptr st, var_end st)
     else
       str ← get_string a;
       base2 ← zwrite (base st) (variable_ptr st) str;
       Ok (base2, variable_ptr st + zlen str, u32 (var_end st + u32 (zlen str)))) =
      Ok (base2, variable_ptr st + zlen (var_bytes a), zlen vr1 + zlen (var_bytes a)) /\
    zwrite base2 (nbb_of ss + variable_seen st * 4) (le_enc 4 (zlen vr1 + zlen (var_bytes a))) = Ok base3 /\
    zlen vrR = zlen (var_bytes a) + zlen vrR' /\
    enc_inv ss (ss1 ++ [s]) ss2 bm (ve1 ++ le_enc 4 (zlen vr1 + zlen (var_bytes a))) veR' fx1 fxR (vr1 ++ var_bytes a) vrR'
      (mkEncState base3 (variable_ptr st + zlen (var_bytes a)) (zlen vr1 + zlen (var_bytes a)) (u32 (variable_seen st + 1))).
Proof.
  intros [_ Hfit] Ht Ef Hlt Hle. destruct enc_split as (_ & Hv2 & _ & Hnv & Hfl).
  destruct Hinv as [Es Eb Hbm Hve1 HveR Hfx1 HfxR Hptr Hend Hseen]. simpl in HveR, HfxR. rewrite Ef in *.
  pose proof (n_var_nonneg ss1). pose proof (n_var_nonneg ss2). pose proof (zlen_nonneg vr1). pose proof (zlen_nonneg (var_bytes a)).
  pose proof (nbb_bound ss) as [Hb0 _]. pose proof (fixed_len_nonneg _ Hv2). pose proof (zlen_nonneg fx1).
  destruct (zsplit veR 4) as (veA & veR' & EveR & HveA); [lia|]. rewrite EveR, zlen_app in HveR.
  destruct (zsplit vrR (zlen (var_bytes a))) as (vrA & vrR' & EvrR & HvrA); [lia|]. rewrite EvrR, zlen_app in Hle |- *.
  exists (bm ++ (ve1 ++ veA ++ veR') ++ (fx1 ++ fxR) ++ vr1 ++ var_bytes a ++ vrR'). eexists _, veR', vrR'. split.
  { rewrite Eb, EveR, EvrR, Hend. apply IsFixed_false in Ef. destruct a as [| | | |str]; simpl in *; try (destruct Ht; congruence).
    - apply zlen_0_inv in HvrA as ->. by rewrite zlen_nil, !Z.add_0_r.
    - rewrite !u32_small by (unfold is_u32; rewrite ?u32_small by (unfold is_u32; lia); lia).
      reassoc_to ((bm ++ (ve1 ++ veA ++ veR') ++ (fx1 ++ fxR) ++ vr1) ++ vrA ++ vrR').
      rewrite zwrite_app; [by rewrite <- !app_assoc| |lia]. rewrite Hptr, !zlen_app. unfold hdr_of. lia. }
  reassoc_to ((bm ++ ve1) ++ veA ++ (veR' ++ (fx1 ++ fxR) ++ vr1 ++ var_bytes a ++ vrR')).
  rewrite zwrite_app by (rewrite ?zlen_app, ?zlen_le_enc; lia). split; [done|]. split; [lia|].
  split; cbn [base variable_ptr var_end variable_seen]; rewrite ?zlen_app, ?zlen_le_enc, ?n_var_app, ?fixed_len_app; simpl; rewrite ?Ef; try lia.
  - by rewrite <- app_assoc.
  - by rewrite <- !app_assoc.
  - rewrite Hseen, u32_small; [lia|]. unfold is_u32, hdr_of in *. lia.
Qed.
End EncodeAttr.

(** One iteration, on every branch. *)
Lemma encode_attr_step lay ss ss1 s ss2 bm ve1 veR fx1 fxR vr1 vrR st a :
  layout_of ss lay -> schema_fits ss ->
  enc_inv ss ss1 (s :: ss2) bm ve1 veR fx1 fxR vr1 vrR st ->
  attr_typed s a ->
  zlen vr1 + zlen (if IsFixed s then [] else var_bytes a) < 2 ^ 32 ->
  zlen (if IsFixed s then [] else var_bytes a) <= zlen vrR ->
  exists st' veR' fxR' vrR',
    encode_attr lay (zlen ss1) a st = Ok st' /\
    zlen vrR = zlen (if IsFixed s then [] else var_bytes a) + zlen vrR' /\
    enc_inv ss (ss1 ++ [s]) ss2
      (if nullable s && is_monostate a then bm_set bm (n_null ss1) else bm)
      (ve1 ++ if IsFixed s then []
              else le_enc 4 (zlen vr1 + zlen (var_bytes a))) veR'
      (fx1 ++ if IsFixed s then fixed_bytes s a else []) fxR'
      (vr1 ++ if IsFixed s then [] else var_bytes a) vrR' st'.
Proof.
  intros Hlay Hfit Hinv Ht Hlt Hle. destruct (enc_null_bit _ _ _ _ _ _ _ _ _ _ _ _ _ a Hlay Hinv) as (base1 & E1 & Hinv1).
  set (bm' := if nullable s && is_monostate a then _ else _) in *. set (st1 := mkEncState _ _ _ _) in Hinv1.
  destruct (lo_at _ _ Hlay ss1 s ss2 (ei_split _ _ _ _ _ _ _ _ _ _ _ Hinv)) as (Hisf & Hsl & _ & Hsp).
  destruct (enc_split _ _ _ _ _ _ _ _ _ _ _ _ _ Hlay Hinv) as (Hv & _).
  unfold encode_attr. rewrite E1. cbn [mbind result_bind]. rewrite Hisf. cbn [mbind result_bind]. destruct (IsFixed s) eqn:Ef.
  - rewrite Hsl, Hsp. cbn [mbind result_bind].
    assert ((if is_monostate a then Ok (replicate (Z.to_nat (width s)) x00) else EncodeFixed a s) = Ok (fixed_bytes s a)) as ->.
    { destruct (is_monostate a) eqn:Em; [by destruct a|]. apply EncodeFixed_typed; try done. by intros ->. }
    cbn [mbind result_bind]. destruct (enc_fixed _ _ _ _ _ _ _ _ _ _ _ _ st1 a Hlay Hinv1 Ht Ef) as (base2 & fxR' & E2 & Hinv2).
    cbn [base st1] in E2. rewrite E2. cbn [mbind result_bind]. eexists _, veR, fxR', vrR. split; [done|].
    rewrite !app_nil_r, zlen_nil. by split.
  - destruct (enc_variable _ _ _ _ _ _ _ _ _ _ _ _ st1 a Hlay Hinv1 Hfit Ht Ef Hlt Hle) as (base2 & base3 & veR' & vrR' & E2 & E3 & Hl & Hinv3).
    cbn [base variable_ptr var_end variable_seen st1] in E2, E3. rewrite E2. cbn [mbind result_bind].
    rewrite (lo_nbb _ _ Hlay), E3. cbn [mbind result_bind]. eexists _, veR', fxR, vrR'. rewrite app_nil_r. by split_and!.
Qed.

Lemma encode_loop_spec lay ss ss2 attrs :
  layout_of ss lay -> schema_fits ss -> Forall2 attr_typed ss2 attrs ->
  forall ss1 bm ve1 veR fx1 fxR vr1 vrR st,
  enc_inv ss ss1 ss2 bm ve1 veR fx1 fxR vr1 vrR st ->
  zlen vr1 + zlen (var_region ss2 attrs) < 2 ^ 32 ->
  zlen (var_region ss2 attrs) <= zlen vrR ->
  exists st' vrR',
    encode_loop lay (zlen ss1) attrs st = Ok st' /\
    zlen vrR = zlen (var_region ss2 attrs) + zlen vrR' /\
    enc_inv ss ss [] (bitmap_from ss2 attrs (n_null ss1) bm)
      (ve1 ++ var_ends ss2 attrs (zlen vr1)) [] (fx1 ++ fixed_region ss2 attrs) []
      (vr1 ++ var_region ss2 attrs) vrR' st'.
Proof.
  intros Hlay Hfit Hty.
  induction Hty as [|s a ss2 attrs Ht Hty IH];
    intros ss1 bm ve1 veR fx1 fxR vr1 vrR st Hinv Hlt Hle.
  - exists st, vrR. simpl. rewrite !app_nil_r, zlen_nil.
    split; [done|]. split; [lia|]. pose proof Hinv as [Es ? ? ? HveR ? HfxR].
    rewrite app_nil_r in Es. subst ss1.
    simpl in HveR, HfxR. apply zlen_0_inv in HveR, HfxR. by subst.
  - cbn [var_region] in Hlt, Hle. rewrite zlen_app in Hlt, Hle.
    pose proof (zlen_nonneg (var_region ss2 attrs)).
    destruct (encode_attr_step lay ss ss1 s ss2 bm ve1 veR fx1 fxR vr1 vrR st a)
      as (st1 & veR1 & fxR1 & vrR1 & Hs & Hvr & Hinv1); try done; try lia.
    destruct (IH _ _ _ _ _ _ _ _ _ Hinv1) as (st' & vrR' & Hl & Hvr' & Hinv');
      [rewrite ?zlen_app; lia..|].
    exists st', vrR'. cbn [encode_loop]. rewrite Hs. cbn [mbind result_bind].
    rewrite zlen_snoc in Hl. rewrite Hl.
    split; [done|]. cbn [var_region]. rewrite zlen_app. split; [lia|].
    cbn [bitmap_from var_ends fixed_region].
    rewrite n_null_app in Hinv'. cbn [n_null] in Hinv'. rewrite <- !app_assoc in Hinv'.
    assert (n_null ss1 + ((if nullable s then 1 else 0) + 0) =
            if nullable s then n_null ss1 + 1 else n_null ss1) as Hn
      by (destruct (nullable s); lia).
    rewrite Hn in Hinv'. destruct (IsFixed s); simpl in Hinv'.
    + by rewrite app_nil_r in Hinv'.
    + by rewrite zlen_app in Hinv'.
Qed.

Lemma variable_bytes_loop_spec lay ss ss2 attrs :
  layout_of ss lay -> Forall2 attr_typed ss2 attrs ->
  forall ss1 acc, ss = ss1 ++ ss2 -> 0 <= acc ->
  acc + zlen (var_region ss2 attrs) < 2 ^ 32 ->
  variable_bytes_loop lay (zlen ss1) attrs acc =
    Ok (acc + zlen (var_region ss2 attrs)).
Proof.
  intros Hlay Hty. induction Hty as [|s a ss2 attrs Ht Hty IH]; intros ss1 acc Es Ha Hlt.
  - simpl. rewrite zlen_nil. f_equal. lia.
  - cbn [variable_bytes_loop var_region]. cbn [var_region] in Hlt.
    rewrite zlen_app in Hlt |- *.
    pose proof (zlen_nonneg (var_region ss2 attrs)).
    destruct (lo_at _ _ Hlay ss1 s ss2 Es) as (-> & _ & _ & _). cbn [mbind result_bind].
    set (d := zlen (if IsFixed s then [] else var_bytes a)) in *.
    assert (0 <= d) by apply zlen_nonneg.
    assert ((if negb (IsFixed s) && negb (is_monostate a)
             then str ← get_string a; Ok (u32 (acc + u32 (zlen str)))
             else Ok acc) = Ok (acc + d)) as ->.
    { unfold d in *. destruct (IsFixed s) eqn:Ef; simpl; [rewrite zlen_nil; f_equal; lia|].
      apply IsFixed_false in Ef.
      destruct a; simpl in *; try (destruct Ht; congruence).
      - rewrite zlen_nil. f_equal. lia.
      - pose proof (zlen_nonneg s0).
        rewrite !u32_small; [done|..]; unfold is_u32;
          rewrite ?u32_small by (unfold is_u32; lia); lia. }
    cbn [mbind result_bind].
    specialize (IH (ss1 ++ [s]) (acc + d)). rewrite zlen_snoc in IH.
    rewrite IH; [f_equal; lia| |lia|lia].
    by rewrite <- app_assoc.
Qed.

Lemma row_fits_schema ss attrs : row_fits ss attrs -> schema_fits ss.
Proof.
  intros [H1 H2]. pose proof (zlen_nonneg (var_region ss attrs)).
  split; [done|lia].
Qed.

(** A buffer of the row's size in its regions. *)
Lemma split_regions (out : bytes) n1 n2 n3 n4 : zlen out = n1 + n2 + n3 + n4 -> 0 <= n1 -> 0 <= n2 -> 0 <= n3 -> 0 <= n4 ->
  exists r1 r2 r3 r4, out = r1 ++ r2 ++ r3 ++ r4 /\ zlen r1 = n1 /\ zlen r2 = n2 /\ zlen r3 = n3 /\ zlen r4 = n4.
Proof.
  intros Hl H1 H2 H3 H4. destruct (zsplit out n1) as (r1 & out1 & -> & E1); [lia|]. rewrite zlen_app in Hl.
  destruct (zsplit out1 n2) as (r2 & out2 & -> & E2); [lia|]. rewrite zlen_app in Hl.
  destruct (zsplit out2 n3) as (r3 & r4 & -> & E3); [lia|]. rewrite zlen_app in Hl. exists r1, r2, r3, r4. split_and!; try done. lia.
Qed.

(** The payload fills what is left of the buffer. *)
Lemma write_payload (rows rest payload : bytes) : zlen rest = zlen payload ->
  (if zlen payload =? 0 then Ok (rows ++ rest) else zwrite (rows ++ rest) (zlen rows) payload) = Ok (rows ++ payload).
Proof.
  intros Hl. destruct (Z.eqb_spec (zlen payload) 0) as [E|E].
  - rewrite E in Hl. apply zlen_0_inv in Hl as ->. by apply zlen_0_inv in E as ->.
  - rewrite <- (app_nil_r rest). rewrite zwrite_app by done. by rewrite app_nil_r.
Qed.

(** The encoder, in place over a dirty buffer, produces the row value. *)
Lemma EncodeValue_refines lay ss attrs payload out_value :
  layout_of ss lay -> Forall2 attr_typed ss attrs -> row_fits ss attrs ->
  EncodeValue lay attrs payload out_value = Ok (row_value ss attrs payload).
Proof.
  intros Hlay Hty Hfit. pose proof (row_fits_schema _ _ Hfit) as Hsf.
  destruct Hfit as [_ Hfit]. pose proof (zlen_nonneg (var_region ss attrs)) as Hvr.
  pose proof (fixed_len_nonneg _ (lo_valid _ _ Hlay)) as Hfl.
  pose proof (nbb_bound ss) as [Hb _]. pose proof (n_var_nonneg ss) as Hnv. pose proof (zlen_nonneg payload).
  unfold hdr_of, EncodeValue in *. pose proof (variable_bytes_loop_spec lay ss ss attrs Hlay Hty [] 0) as Hvb.
  zlen0. rewrite Hvb by (done || lia). cbn [mbind result_bind]. rewrite Z.add_0_l, (lo_base _ _ Hlay), (lo_nbb _ _ Hlay).
  rewrite u32_small by (unfold is_u32, hdr_of; lia). unfold hdr_of.
  set (n := nbb_of ss + n_var ss * 4 + fixed_len ss + zlen (var_region ss attrs) + zlen payload).
  pose proof (zresize_length out_value n x00 ltac:(lia)) as Hl. set (out := zresize out_value n x00) in *. clearbody out.
  destruct (split_regions out (nbb_of ss) (n_var ss * 4) (fixed_len ss) (zlen (var_region ss attrs) + zlen payload))
    as (bm0 & veR & fxR & vrR & -> & Hbm0 & HveR & HfxR & HvrR); [lia..|].
  rewrite zwrite_head by (rewrite zlen_replicate; lia). cbn [mbind result_bind app].
  set (bmz := replicate (Z.to_nat (nbb_of ss)) x00).
  destruct (encode_loop_spec lay ss ss attrs Hlay Hsf Hty [] bmz [] veR [] fxR [] vrR
    (mkEncState (bmz ++ veR ++ fxR ++ vrR) (nbb_of ss + n_var ss * 4 + fixed_len ss) 0 0))
    as (st' & vrR' & Hloop & Hvr' & [_ Eb Hbm Hve _ Hfx _ Hptr _ _]).
  { split; simpl; try done; try lia.
    - unfold bmz. rewrite zlen_replicate. lia.
    - unfold hdr_of. rewrite zlen_nil. lia. }
  { rewrite zlen_nil. lia. } { lia. }
  zlen0. rewrite Hloop. cbn [mbind result_bind]. rewrite Eb, Hptr. zlen0. cbn [app]. rewrite !app_nil_r.
  unfold row_value, null_bitmap. fold bmz. cbn [n_null app] in *.
  set (L := bitmap_from ss attrs 0 bmz ++ var_ends ss attrs 0 ++ fixed_region ss attrs ++ var_region ss attrs).
  assert (zlen L = hdr_of ss + fixed_len ss + zlen (var_region ss attrs)) as HL by (unfold L, hdr_of; rewrite !zlen_app; lia).
  replace (_ ++ _ ++ _ ++ _ ++ vrR') with (L ++ vrR') by (unfold L; by rewrite <- !app_assoc). rewrite <- HL.
  rewrite write_payload by lia. unfold L. by rewrite <- !app_assoc.
Qed.

(** ** Decoding the declarative format *)
Definition bm_bit (bm : bytes) (n : Z) : bool :=
  match bm !! Z.to_nat (Z.shiftr n 3) with
  | Some b => Z.testbit (b2z b) (Z.land n 7)
  | None => false
  end.

Lemma land7 n : Z.land n 7 = n mod 8.
Proof. change 7 with (Z.ones 3). by rewrite Z.land_ones. Qed.
Lemma shiftr3 n : Z.shiftr n 3 = n / 8.
Proof. by rewrite Z.shiftr_div_pow2. Qed.

Lemma IsNullBitSet_app bm rest n :
  0 <= n < 8 * zlen bm -> IsNullBitSet (bm ++ rest) n = Ok (bm_bit bm n).
Proof.
  intros H. pose proof (bm_index bm n H) as Hi. unfold IsNullBitSet, bm_bit.
  destruct (lookup_lt_is_Some_2 bm (Z.to_nat (Z.shiftr n 3))) as [b Hb];
    [unfold zlen in Hi; lia|].
  rewrite Hb, (proj2 (zget_lookup _ _ b)); [done|]. split; [lia|].
  by rewrite lookup_app_l by (eapply lookup_lt_Some; eauto).
Qed.

Lemma bm_bit_set bm m n :
  0 <= m < 8 * zlen bm -> 0 <= n ->
  bm_bit (bm_set bm m) n = (m =? n) || bm_bit bm n.
Proof.
  intros Hm Hn. pose proof (bm_index bm m Hm) as Hi. unfold bm_bit, bm_set.
  rewrite !shiftr3, !land7 in *.
  pose proof (Z.div_mod m 8 ltac:(lia)). pose proof (Z.div_mod n 8 ltac:(lia)).
  pose proof (Z.mod_pos_bound m 8 ltac:(lia)). pose proof (Z.mod_pos_bound n 8 ltac:(lia)).
  assert (0 <= n / 8) by (apply Z.div_pos; lia).
  destruct (decide (Z.to_nat (m / 8) = Z.to_nat (n / 8))) as [E|E].
  - rewrite <- E, list_lookup_alter_eq.
    destruct (lookup_lt_is_Some_2 bm (Z.to_nat (m / 8))) as [b Hb];
      [unfold zlen in Hi; lia|].
    rewrite Hb. simpl. rewrite b2z_z2b. change 256 with (2 ^ 8).
    rewrite Z.mod_pow2_bits_low, Z.lor_spec, Z.shiftl_spec, orb_comm by lia. f_equal.
    assert (m / 8 = n / 8) by lia.
    destruct (Z.eqb_spec m n) as [->|Hne].
    + by rewrite Z.sub_diag.
    + destruct (Z.lt_ge_cases (n mod 8) (m mod 8)).
      * apply Z.testbit_neg_r. lia.
      * apply Z.bits_above_log2; simpl; lia.
  - rewrite list_lookup_alter_ne by done.
    destruct (Z.eqb_spec m n) as [->|Hne]; [done|]. done.
Qed.

Lemma bm_bit_zeros k n : bm_bit (replicate k x00) n = false.
Proof.
  unfold bm_bit. destruct (replicate k x00 !! _) as [b|] eqn:E; [|done].
  apply lookup_replicate in E as [-> _]. apply Z.bits_0.
Qed.

Lemma bitmap_from_low ss attrs n bm k :
  0 <= k < n -> n + n_null ss <= 8 * zlen bm ->
  bm_bit (bitmap_from ss attrs n bm) k = bm_bit bm k.
Proof.
  revert attrs n bm. induction ss as [|s ss IH]; intros [|a attrs] n bm Hk Hn; simpl in *; try done.
  pose proof (n_null_nonneg ss).
  rewrite IH by (destruct (nullable s); simpl; try destruct (is_monostate a);
    rewrite ?length_bm_set; lia).
  destruct (nullable s); simpl; [|done]. destruct (is_monostate a); [|done].
  rewrite bm_bit_set by lia. by destruct (Z.eqb_spec n k); [lia|].
Qed.

Lemma bitmap_from_at pre s post pa a qa n bm :
  length pre = length pa -> nullable s = true -> 0 <= n ->
  n + n_null (pre ++ s :: post) <= 8 * zlen bm ->
  bm_bit (bitmap_from (pre ++ s :: post) (pa ++ a :: qa) n bm) (n + n_null pre) =
  is_monostate a || bm_bit bm (n + n_null pre).
Proof.
  revert pa n bm. induction pre as [|p pre IH]; intros [|pa0 pa] n bm Hl Hs Hn Hb; try done.
  - simpl in *. rewrite Hs in *. simpl. rewrite Z.add_0_r.
    pose proof (n_null_nonneg post).
    rewrite bitmap_from_low by (destruct (is_monostate a); rewrite ?length_bm_set; lia).
    destruct (is_monostate a); [|done]. rewrite bm_bit_set by lia. by rewrite Z.eqb_refl.
  - simpl in *. pose proof (n_null_nonneg pre). pose proof (n_null_nonneg (pre ++ s :: post)).
    set (bm' := if nullable p && is_monostate pa0 then bm_set bm n else bm).
    assert (zlen bm' = zlen bm) as Hz
      by (unfold bm'; destruct (_ && _); [apply length_bm_set|done]).
    specialize (IH pa (if nullable p then n + 1 else n) bm').
    replace (n + ((if nullable p then 1 else 0) + n_null pre))
      with ((if nullable p then n + 1 else n) + n_null pre)
      by (destruct (nullable p); lia).
    rewrite IH by (try done; try lia; destruct (nullable p); lia). f_equal.
    unfold bm'. destruct (nullable p) eqn:Ep; simpl; [|done].
    destruct (is_monostate pa0); [|done].
    rewrite bm_bit_set by lia. by destruct (Z.eqb_spec n (n + 1 + n_null pre)); [lia|].
Qed.

Lemma zlen_var_ends ss attrs e :
  length ss = length attrs -> zlen (var_ends ss attrs e) = n_var ss * 4.
Proof.
  revert attrs e. induction ss as [|s ss IH]; intros [|a attrs] e H; try done.
  injection H as H. cbn [var_ends n_var].
  destruct (IsFixed s); [rewrite IH by lia; lia|].
  rewrite zlen_app, zlen_le_enc, IH by lia. lia.
Qed.

Lemma zlen_fixed_region ss attrs :
  Forall (fun s => Valid s = true) ss -> Forall2 attr_typed ss attrs ->
  zlen (fixed_region ss attrs) = fixed_len ss.
Proof.
  intros Hv Ht. induction Ht as [|s a ss attrs H Ht IH]; [done|].
  apply Forall_cons in Hv as [Hv Hvs]. simpl. rewrite zlen_app, IH by done.
  destruct (IsFixed s) eqn:Ef; [|done]. by rewrite zlen_fixed_bytes.
Qed.

Lemma fixed_region_app pre s post pa a qa :
  length pre = length pa ->
  fixed_region (pre ++ s :: post) (pa ++ a :: qa) =
  fixed_region pre pa ++ (if IsFixed s then fixed_bytes s a else []) ++
  fixed_region post qa.
Proof.
  revert pa. induction pre as [|p pre IH]; intros [|x pa] H; try done.
  simpl. rewrite IH by (simpl in H; lia). by rewrite app_assoc.
Qed.
Lemma var_region_app pre s post pa a qa :
  length pre = length pa ->
  var_region (pre ++ s :: post) (pa ++ a :: qa) =
  var_region pre pa ++ (if IsFixed s then [] else var_bytes a) ++
  var_region post qa.
Proof.
  revert pa. induction pre as [|p pre IH]; intros [|x pa] H; try done.
  simpl. rewrite IH by (simpl in H; lia). by rewrite app_assoc.
Qed.
Lemma var_ends_app pre s post pa a qa e :
  length pre = length pa -> IsFixed s = false ->
  exists post', var_ends (pre ++ s :: post) (pa ++ a :: qa) e =
    var_ends pre pa e ++
    le_enc 4 (e + zlen (var_region pre pa) + zlen (var_bytes a)) ++ post'.
Proof.
  intros H Hs. revert pa e H. induction pre as [|p pre IH]; intros [|x pa] e H; try done.
  - cbn [app var_ends var_region]. rewrite Hs. eexists. zlen0. rewrite Z.add_0_r. done.
  - cbn [app var_ends var_region]. destruct (IH pa (if IsFixed p then e else e + zlen (var_bytes x))) as [post' Hp];
      [simpl in H; lia|].
    exists post'. destruct (IsFixed p); [done|]. rewrite Hp, zlen_app, <- app_assoc.
    by rewrite (Z.add_assoc e).
Qed.
(** The last [var_end] of a prefix is where its variable bytes end. *)
Lemma var_ends_last pre pa e :
  length pre = length pa -> 0 < n_var pre ->
  exists init, var_ends pre pa e = init ++ le_enc 4 (e + zlen (var_region pre pa)).
Proof.
  revert pa e. induction pre as [|p pre IH]; intros [|x pa] e H Hn; [cbn in Hn; lia|done|done|].
  injection H as H. cbn [var_ends var_region]. cbn [n_var] in Hn. pose proof (n_var_nonneg pre). destruct (IsFixed p).
  - simpl in *. destruct (IH pa e) as [init ->]; [lia..|]. by exists init.
  - destruct (decide (n_var pre = 0)) as [E|E].
    + exists []. assert (var_region pre pa = []) as ->.
      { clear -E. revert pa. induction pre as [|q pre IH]; intros [|y pa]; try done.
        simpl in *. pose proof (n_var_nonneg pre).
        destruct (IsFixed q); simpl; [|lia]. apply IH. lia. }
      rewrite (zlen_0_inv (var_ends pre pa _)) by (rewrite zlen_var_ends; lia).
      by rewrite !app_nil_r.
    + destruct (IH pa (e + zlen (var_bytes x))) as [init ->]; [lia..|].
      eexists (_ ++ init). by rewrite <- app_assoc, zlen_app, Z.add_assoc.
Qed.

Lemma le_dec_zeros n : le_dec (replicate n x00) = 0.
Proof. induction n as [|n IH]; [done|]. cbn [replicate le_dec]. by rewrite IH. Qed.

Lemma DecodeFixed_bytes s a l1 l2 :
  Valid s = true -> attr_typed s a -> IsFixed s = true ->
  (a = ANull -> nullable s = false) ->
  DecodeFixed (l1 ++ fixed_bytes s a ++ l2) (zlen l1) s = Ok (stored_value s a).
Proof.
  intros Hv Ht Hf Hn. pose proof (zlen_fixed_bytes s a Hv Ht Hf) as Hl.
  pose proof (Valid_width_nonneg s Hv) as Hw. apply IsFixed_true in Hf.
  unfold DecodeFixed, Valid in *.
  destruct a; cbn [fixed_bytes stored_value attr_typed] in *.
  - rewrite (Hn eq_refl).
    destruct (physical_type s) eqn:Ep; rewrite ?orb_true_iff, ?Z.eqb_eq in Hv.
    + rewrite (proj2 (Z.ltb_ge _ _)), zsub_app by (lia || done).
      cbn [mbind result_bind]. rewrite le_dec_zeros. unfold sign_extend.
      rewrite Z.land_0_l. by destruct (width s <? 8).
    + rewrite (proj2 (Z.ltb_ge _ _)), zsub_app by (lia || done).
      cbn [mbind result_bind]. by rewrite le_dec_zeros.
    + destruct (Z.eqb_spec (width s) 8) as [E|E];
        rewrite zsub_app by (lia || done); cbn [mbind result_bind]; by rewrite le_dec_zeros.
    + by rewrite zsub_app by (lia || done).
    + done.
  - destruct Ht as [Ep Hz]. rewrite Ep, ?orb_true_iff, ?Z.eqb_eq in *.
    rewrite (proj2 (Z.ltb_ge _ _)), zsub_app by (lia || done).
    cbn [mbind result_bind]. rewrite le_dec_enc, Z2Nat.id by lia. done.
  - destruct Ht as [Ep Hz]. rewrite Ep, ?orb_true_iff, ?Z.eqb_eq in *.
    rewrite (proj2 (Z.ltb_ge _ _)), zsub_app by (lia || done).
    cbn [mbind result_bind]. rewrite le_dec_enc, Z2Nat.id by lia. done.
  - destruct Ht as [Ep Hz]. rewrite Ep, ?orb_true_iff, ?Z.eqb_eq in *.
    destruct (Z.eqb_spec (width s) 8) as [E|E];
      rewrite zsub_app by (rewrite ?zlen_le_enc; lia || done); cbn [mbind result_bind].
    + by rewrite le_dec_enc_id.
    + rewrite le_dec_enc_id; [done|]. apply cast_f32_range.
  - destruct Ht as [[Ep Hb]|Ep]; [|congruence]. rewrite Ep.
    by rewrite zsub_app by (lia || done).
Qed.

(** Split a typed row at one attribute. *)
Lemma typed_split ss attrs i s a :
  Forall2 attr_typed ss attrs -> ss !! i = Some s -> attrs !! i = Some a ->
  exists pre post pa qa,
    ss = pre ++ s :: post /\ attrs = pa ++ a :: qa /\
    length pre = i /\ length pa = i /\ attr_typed s a /\
    Forall2 attr_typed pre pa /\ Forall2 attr_typed post qa.
Proof.
  intros Hty Hs Ha.
  apply list_elem_of_split_length in Hs as (pre & post & -> & Hp).
  apply list_elem_of_split_length in Ha as (pa & qa & -> & Hq).
  exists pre, post, pa, qa.
  apply Forall2_app_inv in Hty as [H1 H2]; [|lia].
  apply Forall2_cons in H2 as [H2 H3]. done.
Qed.

Lemma row_value_split pre s post pa a qa payload :
  length pre = length pa ->
  row_value (pre ++ s :: post) (pa ++ a :: qa) payload =
    null_bitmap (pre ++ s :: post) (pa ++ a :: qa) ++
    var_ends (pre ++ s :: post) (pa ++ a :: qa) 0 ++
    (fixed_region pre pa ++ (if IsFixed s then fixed_bytes s a else []) ++
     fixed_region post qa) ++
    (var_region pre pa ++ (if IsFixed s then [] else var_bytes a) ++
     (var_region post qa ++ payload)).
Proof.
  intros H. unfold row_value. rewrite fixed_region_app, var_region_app by done.
  by rewrite <- !app_assoc.
Qed.

Lemma zlen_null_bitmap ss attrs : zlen (null_bitmap ss attrs) = nbb_of ss.
Proof.
  unfold null_bitmap. rewrite length_bitmap_from, zlen_replicate.
  pose proof (nbb_bound ss). lia.
Qed.

(** The null bit of an attribute in an encoded row. *)
Lemma row_null_bit lay ss attrs payload pre s post pa a qa :
  layout_of ss lay -> ss = pre ++ s :: post -> attrs = pa ++ a :: qa ->
  length pre = length pa ->
  (if 0 <=? (if nullable s then n_null pre else -1)
   then IsNullBitSet (row_value ss attrs payload)
          (if nullable s then n_null pre else -1)
   else Ok false) = Ok (nullable s && is_monostate a).
Proof.
  intros Hlay -> -> Hlen. destruct (nullable s) eqn:En; [|done].
  pose proof (n_null_nonneg pre). rewrite (proj2 (Z.leb_le _ _)) by lia.
  pose proof (nbb_bound (pre ++ s :: post)) as [_ Hb].
  unfold row_value. rewrite IsNullBitSet_app.
  - unfold null_bitmap. f_equal. simpl.
    rewrite <- (Z.add_0_l (n_null pre)), bitmap_from_at; try done.
    + rewrite bm_bit_zeros, orb_false_r. done.
    + rewrite zlen_replicate. pose proof (nbb_bound (pre ++ s :: post)). lia.
  - rewrite zlen_null_bitmap. pose proof (n_null_nonneg post).
    rewrite n_null_app in Hb. simpl in Hb. rewrite En in Hb. lia.
Qed.

(** Reading [var_end[rank - 1]]: where the bytes of the prefix end. *)
Lemma read_prev_end bm pre pa tail nbb :
  length pre = length pa -> zlen bm = nbb ->
  zlen (var_region pre pa) < 2 ^ 32 ->
  exists st,
    (if 0 <? n_var pre
     then zsub (bm ++ var_ends pre pa 0 ++ tail) (nbb + (n_var pre - 1) * 4) 4
     else Ok []) = Ok st /\
    le_dec st = zlen (var_region pre pa).
Proof.
  intros Hlen Hbm Hlt. pose proof (zlen_nonneg (var_region pre pa)).
  destruct (Z.ltb_spec 0 (n_var pre)) as [Hp|Hp].
  - destruct (var_ends_last pre pa 0 Hlen Hp) as [init Hi].
    pose proof (zlen_var_ends pre pa 0 Hlen) as Hv. rewrite Hi in Hv |- *.
    rewrite zlen_app, zlen_le_enc in Hv.
    replace (bm ++ (init ++ le_enc 4 (0 + zlen (var_region pre pa))) ++ tail)
      with ((bm ++ init) ++ le_enc 4 (0 + zlen (var_region pre pa)) ++ tail)
      by (by rewrite <- !app_assoc).
    rewrite zsub_app by (rewrite ?zlen_app, ?zlen_le_enc; lia).
    eexists. split; [done|]. rewrite Z.add_0_l, le_dec_enc_id; [done|].
    change (256 ^ Z.of_nat 4) with (2 ^ 32). lia.
  - exists []. split; [done|]. pose proof (n_var_nonneg pre).
    assert (var_region pre pa = []) as ->; [|done].
    assert (n_var pre = 0) as E by lia. clear -E. revert pa.
    induction pre as [|q pre IH]; intros [|y pa]; try done.
    simpl in *. pose proof (n_var_nonneg pre).
    destruct (IsFixed q); simpl; [|lia]. apply IH. lia.
Qed.

Section DecodeRow.
Context (lay : ValueLayout) (ss : list AttrSpec) (attrs : list Attr) (payload : bytes).
Context (pre : list AttrSpec) (s : AttrSpec) (post : list AttrSpec) (pa : list Attr) (a : Attr) (qa : list Attr).
Context (Hlay : layout_of ss lay) (Ess : ss = pre ++ s :: post) (Eat : attrs = pa ++ a :: qa) (Hpa : length pre = length pa).
Context (Hta : attr_typed s a) (Htp : Forall2 attr_typed pre pa) (Htq : Forall2 attr_typed post qa) (Hfit : row_fits ss attrs).
Context (Hnn : a = ANull -> nullable s = false).

Lemma row_valid : Forall (fun x => Valid x = true) pre /\ Valid s = true /\ Forall (fun x => Valid x = true) post.
Proof.
  pose proof (lo_valid _ _ Hlay) as Hval. rewrite Ess in Hval. apply Forall_app in Hval as [Hvp Hvs].
  by apply Forall_cons in Hvs as [Hvs Hvq].
Qed.
Lemma row_typed : Forall2 attr_typed ss attrs.
Proof. rewrite Ess, Eat. apply Forall2_app; [done|by constructor]. Qed.

(** A fixed-width attribute reads back from its slot. *)
Lemma row_fixed : IsFixed s = true ->
  DecodeFixed (row_value ss attrs payload) (hdr_of ss + fixed_len pre) s = Ok (stored_value s a).
Proof.
  intros Ef. destruct row_valid as (Hvp & Hvs & Hvq). pose proof (row_value_split pre s post pa a qa payload Hpa) as Erow.
  rewrite <- Ess, <- Eat, Ef in Erow. pose proof (zlen_null_bitmap ss attrs) as Hzb.
  pose proof (zlen_var_ends ss attrs 0 (Forall2_length _ _ _ row_typed)) as Hzv. pose proof (zlen_fixed_region pre pa Hvp Htp) as Hzf.
  set (l1 := fixed_region post qa) in *. set (l2 := var_region post qa ++ payload) in *. rewrite Erow.
  replace (_ ++ _ ++ (_ ++ fixed_bytes s a ++ l1) ++ _)
    with ((null_bitmap ss attrs ++ var_ends ss attrs 0 ++ fixed_region pre pa) ++
          fixed_bytes s a ++ (l1 ++ var_region pre pa ++ [] ++ l2)) by (by rewrite <- !app_assoc).
  rewrite <- (DecodeFixed_bytes s a (null_bitmap ss attrs ++ var_ends ss attrs 0 ++ fixed_region pre pa)
    (l1 ++ var_region pre pa ++ [] ++ l2)) by done.
  f_equal. rewrite !zlen_app. unfold hdr_of. lia.
Qed.

(** The recorded end of a variable-width one, and the end before it. *)
Lemma row_var_bounds : IsFixed s = false -> exists e st,
  zsub (row_value ss attrs payload) (nbb_of ss + n_var pre * 4) 4 = Ok e /\
  (if 0 <? n_var pre then zsub (row_value ss attrs payload) (nbb_of ss + (n_var pre - 1) * 4) 4 else Ok []) = Ok st /\
  le_dec e = zlen (var_region pre pa) + zlen (var_bytes a) /\ le_dec st = zlen (var_region pre pa) /\
  is_u32 (zlen (var_bytes a)).
Proof.
  intros Ef. destruct Hfit as [_ Hf]. destruct row_valid as (Hvp & Hvs & Hvq).
  pose proof (zlen_null_bitmap ss attrs) as Hzb. pose proof (zlen_var_ends pre pa 0 Hpa) as Hzvp.
  pose proof (nbb_bound ss) as [Hb0 _]. pose proof (n_var_nonneg ss). pose proof (n_var_nonneg pre).
  pose proof (fixed_len_nonneg _ (lo_valid _ _ Hlay)). unfold hdr_of in Hf.
  assert (zlen (var_region ss attrs) = zlen (var_region pre pa) + zlen (var_bytes a) + zlen (var_region post qa)) as Hvr
    by (rewrite Ess, Eat, var_region_app, Ef, !zlen_app by done; lia).
  pose proof (zlen_nonneg (var_region pre pa)). pose proof (zlen_nonneg (var_bytes a)). pose proof (zlen_nonneg (var_region post qa)).
  destruct (var_ends_app pre s post pa a qa 0 Hpa Ef) as [post' Hve]. rewrite <- Ess, <- Eat, Z.add_0_l in Hve.
  remember (zlen (var_region pre pa) + zlen (var_bytes a)) as E eqn:HE.
  assert (row_value ss attrs payload = (null_bitmap ss attrs ++ var_ends pre pa 0) ++ le_enc 4 E ++
    (post' ++ fixed_region ss attrs ++ var_region ss attrs ++ payload)) as ->
    by (unfold row_value; rewrite Hve; by rewrite <- !app_assoc).
  rewrite zsub_app by (rewrite ?zlen_app, ?zlen_le_enc; lia). rewrite <- app_assoc.
  destruct (read_prev_end (null_bitmap ss attrs) pre pa (le_enc 4 E ++ post' ++ fixed_region ss attrs ++ var_region ss attrs ++ payload)
    (nbb_of ss) Hpa Hzb ltac:(lia)) as (st & -> & Hst).
  eexists _, st. split; [done|]. split; [done|].
  rewrite le_dec_enc_id by (change (256 ^ Z.of_nat 4) with (2 ^ 32); lia). unfold is_u32. split_and!; try done; lia.
Qed.

(** Its bytes lie between the two. *)
Lemma row_var_bytes : IsFixed s = false ->
  zsub (row_value ss attrs payload) (hdr_of ss + fixed_len ss + zlen (var_region pre pa)) (zlen (var_bytes a)) = Ok (var_bytes a).
Proof.
  intros Ef. destruct row_valid as (Hvp & Hvs & Hvq). pose proof (row_value_split pre s post pa a qa payload Hpa) as Erow.
  rewrite <- Ess, <- Eat, Ef in Erow. pose proof (zlen_null_bitmap ss attrs) as Hzb.
  pose proof (zlen_var_ends ss attrs 0 (Forall2_length _ _ _ row_typed)) as Hzv.
  pose proof (zlen_fixed_region pre pa Hvp Htp) as Hzf. pose proof (zlen_fixed_region post qa Hvq Htq) as Hzq.
  assert (fixed_len ss = fixed_len pre + fixed_len post) as Hfl by (rewrite Ess, fixed_len_app; simpl; rewrite Ef; lia).
  set (l1 := fixed_region post qa) in *. set (l2 := var_region post qa ++ payload) in *. rewrite Erow.
  replace (_ ++ _ ++ (_ ++ [] ++ l1) ++ _)
    with ((null_bitmap ss attrs ++ var_ends ss attrs 0 ++ (fixed_region pre pa ++ l1) ++ var_region pre pa) ++ var_bytes a ++ l2)
    by (by rewrite <- !app_assoc).
  rewrite zsub_app; [done| |lia]. rewrite !zlen_app. unfold hdr_of. lia.
Qed.
End DecodeRow.

Lemma DecodeAttr_row lay ss attrs payload i s a :
  layout_of ss lay -> Forall2 attr_typed ss attrs -> row_fits ss attrs ->
  ss !! i = Some s -> attrs !! i = Some a ->
  DecodeAttr lay (row_value ss attrs payload) (Z.of_nat i) = Ok (stored_value s a).
Proof.
  intros Hlay Hty Hfit Hs Ha.
  destruct (typed_split _ _ _ _ _ Hty Hs Ha) as (pre & post & pa & qa & Ess & Eat & <- & Hpa%symmetry & Hta & Htp & Htq).
  destruct (lo_at _ _ Hlay pre s post Ess) as (Hisf & Hsl & Hnb & Hsp).
  unfold DecodeAttr. fold (zlen pre). rewrite Hnb. cbn [mbind result_bind].
  rewrite (row_null_bit lay ss attrs payload pre s post pa a qa) by done. cbn [mbind result_bind].
  destruct (nullable s && is_monostate a) eqn:Enull.
  { apply andb_prop in Enull as [En Em]. destruct a; try done. simpl. by rewrite En. }
  assert (a = ANull -> nullable s = false) as Hnn by (intros ->; by rewrite andb_true_r in Enull).
  rewrite Hisf. cbn [mbind result_bind]. rewrite Hsl. destruct (IsFixed s) eqn:Ef; cbn [mbind result_bind].
  - rewrite Hsp. cbn [mbind result_bind]. by eapply row_fixed.
  - rewrite (lo_nbb _ _ Hlay), (lo_base _ _ Hlay).
    destruct (row_var_bounds lay ss attrs payload pre s post pa a qa Hlay Ess Eat Hpa Hfit Ef) as (e & st & Ee & Est & He & Hst & Hsz).
    rewrite Ee. cbn [mbind result_bind]. rewrite Est. cbn [mbind result_bind]. rewrite He, Hst.
    replace (_ + _ - _) with (zlen (var_bytes a)) by lia. rewrite u32_small by done.
    rewrite (row_var_bytes lay ss attrs payload pre s post pa a qa) by done. cbn [mbind result_bind].
    apply IsFixed_false in Ef. destruct a; simpl in *; try (destruct Hta; congruence); try done. rewrite Hnn, Ef by done. done.
Qed.

Lemma DecodePayload_row lay ss attrs payload :
  layout_of ss lay -> Forall2 attr_typed ss attrs -> row_fits ss attrs ->
  DecodePayload lay (row_value ss attrs payload) = Ok payload.
Proof.
  intros Hlay Hty [Hn Hfit]. unfold DecodePayload.
  rewrite (lo_nvar _ _ Hlay), (lo_nbb _ _ Hlay), (lo_base _ _ Hlay).
  pose proof (zlen_null_bitmap ss attrs) as Hzb.
  pose proof (Forall2_length _ _ _ Hty) as Hlen.
  pose proof (zlen_var_ends ss attrs 0 Hlen) as Hzv.
  pose proof (zlen_fixed_region ss attrs (lo_valid _ _ Hlay) Hty) as Hzf.
  pose proof (nbb_bound ss) as [Hb0 _]. pose proof (n_var_nonneg ss).
  pose proof (fixed_len_nonneg _ (lo_valid _ _ Hlay)).
  pose proof (zlen_nonneg (var_region ss attrs)). unfold hdr_of in *.
  destruct (read_prev_end (null_bitmap ss attrs) ss attrs
    (fixed_region ss attrs ++ var_region ss attrs ++ payload)
    (nbb_of ss) Hlen Hzb ltac:(lia)) as (st & Hst & Hd).
  fold (row_value ss attrs payload) in Hst. rewrite Hst. cbn [mbind result_bind]. rewrite Hd.
  rewrite u32_small by (unfold is_u32; lia).
  replace (row_value ss attrs payload) with
    ((null_bitmap ss attrs ++ var_ends ss attrs 0 ++ fixed_region ss attrs ++
      var_region ss attrs) ++ payload)
    by (unfold row_value; by rewrite <- !app_assoc).
  apply zsub_tail; rewrite !zlen_app; lia.
Qed.

(** ** Lossless values *)

(** A value that its column can hold: a NULL needs a nullable column, an
    integer the range of its width, a double a width that keeps it. *)
Definition attr_fits (s : AttrSpec) (a : Attr) : Prop :=
  match a with
  | ANull => nullable s = true
  | AInt z => - 2 ^ (8 * width s - 1) <= z < 2 ^ (8 * width s - 1)
  | AUint z => 0 <= z < 2 ^ (8 * width s)
  | ADouble d => width s = 8 \/ cast_f64 (cast_f32 d) = d
  | AString _ => True
  end.

(** Sign extension undoes the truncation to [w] bytes. *)
Lemma sign_extend_trunc w z :
  w = 1 \/ w = 2 \/ w = 4 \/ w = 8 ->
  - 2 ^ (8 * w - 1) <= z < 2 ^ (8 * w - 1) ->
  s64 (sign_extend w (u64 z mod 256 ^ w)) = z.
Proof.
  intros Hw Hz. unfold sign_extend.
  assert (is_s64 z) as Hs by (unfold is_s64; destruct Hw as [->|[->|[->| ->]]]; lia).
  destruct (Z.ltb_spec w 8) as [Hlt|Hge]; cycle 1.
  { assert (w = 8) as -> by lia. change (256 ^ 8) with (2 ^ 64).
    rewrite Z.mod_small by apply u64_range. by apply s64_u64. }
  rewrite (Z.mul_comm w 8), !Z.shiftl_1_l.
  assert (256 ^ w = 2 ^ (8 * w)) as -> by (rewrite Z.pow_mul_r; [done|lia..]).
  assert (Hm : u64 z mod 2 ^ (8 * w) = z mod 2 ^ (8 * w)).
  { unfold u64. destruct Hw as [->|[->|[->| ->]]]; [| | |lia];
      apply Z.mod_mod_divide;
      [exists (2 ^ 56)|exists (2 ^ 48)|exists (2 ^ 32)]; lia. }
  rewrite Hm, land_pow2 by lia. rewrite negb_involutive.
  set (m := 8 * w - 1) in *.
  assert (2 ^ (8 * w) = 2 * 2 ^ m) as Hp
    by (unfold m; rewrite <- Z.pow_succ_r by lia; f_equal; lia).
  assert (0 < 2 ^ m) by (apply Z.pow_pos_nonneg; lia).
  assert (Hmask : u64 (Z.lnot (2 ^ (8 * w) - 1)) = (2 ^ (64 - 8 * w) - 1) * 2 ^ (8 * w)
                  /\ 2 ^ (64 - 8 * w) * 2 ^ (8 * w) = 2 ^ 64)
    by (destruct Hw as [->|[->|[->| ->]]]; [done..|lia]).
  destruct Hmask as [-> Hmask].
  destruct (Z.lt_ge_cases z 0) as [Hneg|Hpos].
  - assert (z mod 2 ^ (8 * w) = z + 2 ^ (8 * w)) as ->
      by (symmetry; apply Z.mod_unique_pos with (-1); lia).
    replace (Z.testbit _ m) with true.
    + rewrite lor_disjoint by lia.
      transitivity (s64 (u64 z)); [|by apply s64_u64]. f_equal. unfold u64.
      apply Z.mod_unique_pos with (-1); [|lia]. unfold is_s64 in Hs. lia.
    + symmetry. apply Z.testbit_true; [lia|]. rewrite Hp.
      rewrite <- (Z.div_unique_pos (z + 2 * 2 ^ m) (2 ^ m) 1 (z + 2 ^ m)); [done|lia..].
  - rewrite (Z.mod_small z) by lia. rewrite (testbit_small m) by lia.
    rewrite <- (s64_u64 z) at 2 by done. rewrite u64_small; [done|].
    unfold is_u64, is_s64 in *. lia.
Qed.

Lemma stored_value_lossless s a :
  Valid s = true -> attr_typed s a -> attr_fits s a -> stored_value s a = a.
Proof.
  intros Hv Ht Hf. unfold Valid in Hv. destruct a; simpl in *.
  - by rewrite Hf.
  - destruct Ht as [Ep Hz]. rewrite Ep, !orb_true_iff, !Z.eqb_eq in Hv.
    rewrite sign_extend_trunc by (done || lia). done.
  - destruct Ht as [Ep Hz]. rewrite Ep, !orb_true_iff, !Z.eqb_eq in Hv.
    rewrite Z.mod_small; [done|].
    assert (256 ^ width s = 2 ^ (8 * width s)) as -> by (rewrite Z.pow_mul_r; [done|lia..]).
    done.
  - destruct (Z.eqb_spec (width s) 8); [done|]. destruct Hf as [?|Hc]; [done|by rewrite Hc].
  - done.
Qed.

(** ** Types of decoded values *)
Lemma le_dec_u64 b : zlen b <= 8 -> is_u64 (le_dec b).
Proof.
  intros H. pose proof (le_dec_range b). pose proof (zlen_nonneg b).
  assert (256 ^ zlen b <= 256 ^ 8) by (apply Z.pow_le_mono_r; lia).
  unfold is_u64. change (256 ^ 8) with (2 ^ 64) in *. lia.
Qed.

(** Sign extension lands in the range of its width. *)
Lemma sign_extend_range w raw :
  w = 1 \/ w = 2 \/ w = 4 \/ w = 8 -> 0 <= raw < 256 ^ w ->
  - 2 ^ (8 * w - 1) <= s64 (sign_extend w raw) < 2 ^ (8 * w - 1).
Proof.
  intros Hw Hr.
  assert (256 ^ w = 2 * 2 ^ (8 * w - 1)) as E by (destruct Hw as [->|[->|[->| ->]]]; reflexivity).
  assert (exists z, - 2 ^ (8 * w - 1) <= z < 2 ^ (8 * w - 1) /\ z mod 256 ^ w = raw) as (z & Hz & <-).
  { destruct (Z.ltb_spec raw (2 ^ (8 * w - 1))).
    - exists raw. split; [lia|]. by apply Z.mod_small.
    - exists (raw - 256 ^ w). split; [lia|]. symmetry. apply Z.mod_unique_pos with (-1); lia. }
  assert (z mod 256 ^ w = u64 z mod 256 ^ w) as ->; [|by rewrite sign_extend_trunc].
  unfold u64. symmetry. apply Z.mod_mod_divide. exists (256 ^ (8 - w)). destruct Hw as [->|[->|[->| ->]]]; reflexivity.
Qed.

(** A decoded value of the column's type: NULL only where the column allows it,
    an integer within the column's width, [width] bytes of a binary. *)
Definition decoded_typed (s : AttrSpec) (v : AttrView) : Prop :=
  attr_typed s v /\
  match v with
  | ANull => nullable s = true
  | AInt z => - 2 ^ (8 * width s - 1) <= z < 2 ^ (8 * width s - 1)
  | AUint z => 0 <= z < 2 ^ (8 * width s)
  | _ => True
  end.

Lemma DecodeFixed_typed buf src s v :
  Valid s = true -> IsFixed s = true -> DecodeFixed buf src s = Ok v -> decoded_typed s v.
Proof.
  unfold IsFixed, DecodeFixed, Valid, decoded_typed. intros Hv Hf H.
  destruct (physical_type s) eqn:Ep; try discriminate Hf; rewrite ?orb_true_iff, ?Z.eqb_eq in Hv.
  - destruct (Z.ltb_spec 8 (width s)); [discriminate|]. apply result_bind_ok in H as (b & Hb & H).
    apply zsub_length in Hb. injection H as <-. split; [split; [done|apply s64_range]|].
    apply sign_extend_range; [lia|]. rewrite <- Hb. apply le_dec_range.
  - destruct (Z.ltb_spec 8 (width s)); [discriminate|]. apply result_bind_ok in H as (b & Hb & H).
    apply zsub_length in Hb. injection H as <-. split; [split; [done|apply le_dec_u64; lia]|].
    rewrite Z.pow_mul_r by lia. change (2 ^ 8) with 256. rewrite <- Hb. apply le_dec_range.
  - destruct (width s =? 8); apply result_bind_ok in H as (b & Hb & H); apply zsub_length in Hb;
      injection H as <-; (split; [split; [done|]|done]).
    + apply le_dec_u64. lia.
    + apply cast_f64_range.
  - apply result_bind_ok in H as (b & Hb & H). apply zsub_length in Hb. injection H as <-. split; [by left|done].
Qed.

Lemma DecodeAttr_typed ss lay buf pre s post v :
  layout_of ss lay -> ss = pre ++ s :: post -> Valid s = true ->
  DecodeAttr lay buf (zlen pre) = Ok v -> decoded_typed s v.
Proof.
  intros Hlay Ess Hv H. destruct (lo_at _ _ Hlay pre s post Ess) as (Hfx & Hsl & Hnb & Hsp).
  unfold DecodeAttr in H. rewrite Hnb in H. cbn [mbind result_bind] in H.
  apply result_bind_ok in H as (isnull & En & H). destruct isnull.
  { injection H as <-. split; [done|]. destruct (nullable s); [done|]. by cbn in En. }
  rewrite Hfx in H. cbn [mbind result_bind] in H. rewrite Hsl, Hsp in H.
  cbn [mbind result_bind] in H. destruct (IsFixed s) eqn:Ef; [by apply DecodeFixed_typed in H|].
  apply IsFixed_false in Ef. inv_ok. split; [by right|done].
Qed.

(** ** Properties of the row format *)

(** A row to run the statements on: a nullable int32 and a string. *)
Definition demo_options : BitLSMOptions :=
  mkBitLSMOptions 2 [mkAttrSpec kRange kInt 4 true; mkAttrSpec kEquality kVarBinary 0 false]
    0 0x3FE0000000000000 4 false 0 0 false.
Definition demo_row : list Attr := [AInt (-5); AString [x61; x62]].
Lemma demo_schema_ok : schema_ok demo_options.
Proof. by apply ValidateAttrSpecs_ok. Qed.
Lemma demo_row_typed : Forall2 attr_typed (attr_specs demo_options) demo_row.
Proof. repeat constructor; unfold is_s64; lia. Qed.
Lemma demo_row_fits : row_fits (attr_specs demo_options) demo_row.
Proof. split; vm_compute; done. Qed.

(** Refinement: for every accepted schema and every typed row that fits
    the 32-bit offsets, the constructor builds a layout and [EncodeValue],
    writing in place into a reused buffer, produces exactly the five regions
    of the format, whatever bytes and size the buffer had before. *)
Theorem EncodeValue_writes_row_value o attrs payload out_value :
  schema_ok o -> Forall2 attr_typed (attr_specs o) attrs ->
  row_fits (attr_specs o) attrs ->
  exists lay, mkLayout o = Ok lay /\
    EncodeValue lay attrs payload out_value =
      Ok (row_value (attr_specs o) attrs payload).
Proof.
  intros Ho Hty Hfit.
  destruct (mkLayout_spec o Ho (row_fits_schema _ _ Hfit)) as (lay & Hl & Hlay).
  exists lay. split; [done|]. by apply EncodeValue_refines.
Qed.

Lemma EncodeValue_writes_row_value_witness : exists lay, mkLayout demo_options = Ok lay /\
  EncodeValue lay demo_row [x70] [x7a; x7a] = Ok (row_value (attr_specs demo_options) demo_row [x70]).
Proof.
  exact (EncodeValue_writes_row_value demo_options demo_row [x70] [x7a; x7a] demo_schema_ok
    demo_row_typed demo_row_fits).
Defined.

(** (C25) Round trip: decoding an encoded row gives back every attribute that
    its column can hold, NULL included, and the payload. *)
Theorem row_roundtrip o attrs payload out_value :
  schema_ok o -> Forall2 attr_typed (attr_specs o) attrs ->
  Forall2 attr_fits (attr_specs o) attrs -> row_fits (attr_specs o) attrs ->
  exists lay v, mkLayout o = Ok lay /\
    EncodeValue lay attrs payload out_value = Ok v /\
    (forall i a, attrs !! i = Some a -> DecodeAttr lay v (Z.of_nat i) = Ok a) /\
    DecodePayload lay v = Ok payload.
Proof.
  intros Ho Hty Hfits Hrow.
  destruct (mkLayout_spec o Ho (row_fits_schema _ _ Hrow)) as (lay & Hl & Hlay).
  exists lay, (row_value (attr_specs o) attrs payload).
  split; [done|]. split; [by apply EncodeValue_refines|].
  split; [|by apply DecodePayload_row].
  intros i a Ha. destruct (Forall2_lookup_r _ _ _ _ _ Hfits Ha) as (s & Hs & Hf).
  rewrite (DecodeAttr_row lay (attr_specs o) attrs payload i s a) by done.
  f_equal. apply stored_value_lossless; [|by eapply Forall2_lookup_lr|done].
  by apply (Forall_lookup_1 _ _ _ _ (schema_valid _ Ho) Hs).
Qed.
Lemma row_roundtrip_witness : exists lay v, mkLayout demo_options = Ok lay /\
  EncodeValue lay demo_row [x70] [] = Ok v /\
  (forall i a, demo_row !! i = Some a -> DecodeAttr lay v (Z.of_nat i) = Ok a) /\
  DecodePayload lay v = Ok [x70].
Proof.
  apply (row_roundtrip demo_options demo_row [x70] [] demo_schema_ok demo_row_typed); [|exact demo_row_fits].
  repeat constructor; cbn; lia.
Defined.

(** (C26) Types: whatever bytes a stored value consists of, an attribute that
    decodes from it has the type its column declares: the alternative of the
    physical type, an integer within the column's width, exactly [width] bytes
    for a fixed binary, and NULL only where the column is nullable. *)
Theorem decode_typed o lay buffer i s v :
  schema_ok o -> schema_fits (attr_specs o) -> mkLayout o = Ok lay -> attr_specs o !! i = Some s ->
  DecodeAttr lay buffer (Z.of_nat i) = Ok v -> decoded_typed s v.
Proof.
  intros Ho Hfit Hl Hs H. destruct (mkLayout_spec o Ho Hfit) as (lay' & Hl' & Hlay). rewrite Hl' in Hl. injection Hl as ->.
  pose proof (take_drop_middle _ _ _ Hs) as E. symmetry in E.
  eapply (DecodeAttr_typed _ lay buffer (take i (attr_specs o)) s); [exact Hlay|exact E| |].
  - by apply (Forall_lookup_1 _ _ _ _ (schema_valid _ Ho) Hs).
  - unfold zlen. rewrite length_take_le; [exact H|]. apply lookup_lt_Some in Hs. lia.
Qed.
Lemma decode_typed_witness : exists lay, mkLayout demo_options = Ok lay /\ DecodeAttr lay [x00; x01; x00; x00; x00; xff; xff; xff; x80; x7a] 0 = Ok (AInt (-2130706433)) /\
  decoded_typed (mkAttrSpec kRange kInt 4 true) (AInt (-2130706433)).
Proof.
  destruct (mkLayout_spec demo_options demo_schema_ok (row_fits_schema _ _ demo_row_fits)) as (lay & Hl & _).
  assert (DecodeAttr lay [x00; x01; x00; x00; x00; xff; xff; xff; x80; x7a] 0 = Ok (AInt (-2130706433))) as Hd.
  { vm_compute in Hl. injection Hl as <-. vm_compute. reflexivity. }
  exists lay. split; [exact Hl|]. split; [exact Hd|].
  exact (decode_typed demo_options lay _ 0 _ _ demo_schema_ok (row_fits_schema _ _ demo_row_fits) Hl eq_refl Hd).
Defined.
