(* ===== verification/Okey.v ===== *)
(** * The order-preserving key domain

    Models [bit_lsm_encoding.h]: the maps from native scalars to 64-bit okeys,
    the okeys' big-endian byte form, the schema SABI sees and the extractor
    that turns a row into the byte strings SABI indexes. *)
From Stdlib Require Import ZArith Lia Strings.Byte.
From stdpp Require Import base numbers list.
From S2P Require Import Prelude Floats Options Row.

(** ** Native scalar to okey *)
Definition U64ToOkey (x : Z) : Z := x.

Definition I64ToOkey (x : Z) : Z := Z.lxor (u64 x) 0x8000000000000000.

Definition F64ToOkey (d : Z) : Z :=
  let u := if f64_eqb d 0 then 0 else d in
  if negb (Z.land u 0x8000000000000000 =? 0) then u64 (Z.lnot u)
  else Z.lxor u 0x8000000000000000.

(** ** Okey to native scalar *)
Definition OkeyToI64 (okey : Z) : Z := s64 (Z.lxor okey 0x8000000000000000).

Definition OkeyToF64 (okey : Z) : Z :=
  if negb (Z.land okey 0x8000000000000000 =? 0)
  then Z.lxor okey 0x8000000000000000 else u64 (Z.lnot okey).

(** ** Okey and the SABI byte domain *)
Definition kOkeyBytes : Z := 8.

(** [__builtin_bswap64] *)
Definition bswap64 (u : Z) : Z := le_dec (rev (le_enc 8 u)).

Definition OkeyToBytes (okey : Z) : bytes := le_enc 8 (bswap64 okey).

#[global] Arguments OkeyToBytes : simpl never.
#[global] Arguments I64ToOkey : simpl never.
#[global] Arguments U64ToOkey : simpl never.
#[global] Arguments F64ToOkey : simpl never.

Definition OkeyFromBytes (b : bytes) : result Z :=
  raw ← zsub b 0 kOkeyBytes; Ok (bswap64 (le_dec raw)).

(** Query comparand: [QueryCondition::value_type]. *)
Inductive value_type :=
  | VInt (z : Z)
  | VUint (z : Z)
  | VDouble (d : Z)
  | VString (s : bytes).

#[global] Instance value_type_eq_dec : EqDecision value_type.
Proof. solve_decision. Defined.

(** The two overloads of [NumericToOkey]. *)
Definition NumericToOkey (v : AttrView) : result Z :=
  match v with
  | AInt z => Ok (I64ToOkey z)
  | AUint z => Ok (U64ToOkey z)
  | ADouble d => Ok (F64ToOkey d)
  | _ => Fault BadVariantAccess
  end.
Definition NumericToOkey_comparand (v : value_type) : result Z :=
  match v with
  | VInt z => Ok (I64ToOkey z)
  | VUint z => Ok (U64ToOkey z)
  | VDouble d => Ok (F64ToOkey d)
  | VString _ => Fault BadVariantAccess
  end.

(** ** The schema visible to SABI *)
Record SABISchema := mkSABISchema {
  index_types : list IndexType;
  schema_rho : Z;
}.
Definition schema_attr_num (s : SABISchema) : Z := u32 (zlen (index_types s)).

Definition FromOptions (o : BitLSMOptions) : SABISchema :=
  {| index_types := map index_type (attr_specs o); schema_rho := rho o |}.

(** ** Row to encoded attributes *)
Abbreviation EncodedAttr := (option bytes).

(** One slot of [ExtractAll]. *)
Definition encode_view (v : AttrView) : result EncodedAttr :=
  match v with
  | ANull => Ok None
  | AString s => Ok (Some s)
  | _ => k ← NumericToOkey v; Ok (Some (OkeyToBytes k))
  end.

Fixpoint extract_loop (layout : ValueLayout) (row_value : bytes) (i : Z) (n : nat)
    : result (list EncodedAttr) :=
  match n with
  | O => Ok []
  | S n' =>
      v ← DecodeAttr layout row_value i;
      e ← encode_view v;
      rest ← extract_loop layout row_value (i + 1) n';
      Ok (e :: rest)
  end.

(** [ValueLayoutExtractor::ExtractAll]; the key is not used. *)
Definition ExtractAll (layout : ValueLayout) (key row_value : bytes)
    : result (list EncodedAttr) :=
  extract_loop layout row_value 0 (length (slot layout)).

(** ** Okeys preserve the native order *)
Lemma lxor_sign u : is_u64 u ->
  Z.lxor u (2 ^ 63) = if 2 ^ 63 <=? u then u - 2 ^ 63 else u + 2 ^ 63.
Proof.
  intros H. unfold is_u64 in H.
  assert (forall v, 0 <= v < 2 ^ 63 -> Z.lxor v (2 ^ 63) = v + 2 ^ 63) as Hlo.
  { intros v Hv. symmetry. apply Z.add_nocarry_lxor.
    pose proof (land_pow2 v 63 ltac:(lia)) as E.
    rewrite (testbit_small 63) in E by lia. by apply Z.eqb_eq in E. }
  destruct (Z.leb_spec (2 ^ 63) u).
  - replace u with (Z.lxor (u - 2 ^ 63) (2 ^ 63)) at 1 by (rewrite Hlo; lia).
    by rewrite Z.lxor_assoc, Z.lxor_nilpotent, Z.lxor_0_r.
  - apply Hlo. lia.
Qed.

Lemma I64ToOkey_spec x : is_s64 x -> I64ToOkey x = x + 2 ^ 63.
Proof.
  intros H. unfold I64ToOkey. change 0x8000000000000000 with (2 ^ 63).
  rewrite lxor_sign by apply u64_range. unfold is_s64 in H. unfold u64.
  destruct (Z.lt_ge_cases x 0).
  - rewrite <- (Z.mod_unique_pos x (2 ^ 64) (-1) (x + 2 ^ 64)) by lia.
    rewrite (proj2 (Z.leb_le _ _)) by lia. lia.
  - rewrite (Z.mod_small x) by lia. rewrite (proj2 (Z.leb_gt _ _)) by lia. lia.
Qed.

Lemma f64_sval_zero u : is_u64 u -> f64_eqb u 0 = true <-> f64_sval u = 0.
Proof.
  intros Hu. destruct (f64_nan u) eqn:En.
  - destruct (f64_cmp_nan u 0 (or_introl En)) as (-> & _). split; [done|].
    intros Hs. exfalso. unfold f64_sval in Hs.
    assert (f64_mag u = 0) as Hm by (destruct (f64_neg u); lia).
    assert (u = 0 \/ u = 2 ^ 63) as Hcase.
    { unfold is_u64, f64_mag in *. pose proof (Z.div_mod u (2 ^ 63) ltac:(lia)).
      assert (0 <= u / 2 ^ 63 < 2) by
        (split; [apply Z.div_pos; lia|apply Z.div_lt_upper_bound; lia]). lia. }
    destruct Hcase; subst u; discriminate En.
  - rewrite f64_eqb_sval by done. apply Z.eqb_eq.
Qed.

Lemma F64ToOkey_spec u : is_u64 u ->
  F64ToOkey u =
    if f64_eqb u 0 then 2 ^ 63
    else if f64_neg u then 2 ^ 63 - 1 + f64_sval u else 2 ^ 63 + f64_sval u.
Proof.
  intros Hu. unfold F64ToOkey. destruct (f64_eqb u 0); [done|].
  change 0x8000000000000000 with (2 ^ 63).
  rewrite land_pow2, negb_involutive, lxor_sign by (done || lia).
  unfold f64_sval, f64_neg, f64_mag. rewrite testbit63 by done.
  unfold is_u64 in Hu. destruct (Z.leb_spec (2 ^ 63) u).
  - rewrite <- (Z.mod_unique_pos u (2 ^ 63) 1 (u - 2 ^ 63)) by lia.
    unfold Z.lnot, u64. rewrite <- (Z.mod_unique_pos _ (2 ^ 64) (-1) (2 ^ 64 - 1 - u)); lia.
  - rewrite Z.mod_small by lia. lia.
Qed.

Lemma F64ToOkey_compare a b :
  is_u64 a -> is_u64 b -> f64_nan a = false -> f64_nan b = false ->
  Z.compare (F64ToOkey a) (F64ToOkey b) = Z.compare (f64_sval a) (f64_sval b).
Proof.
  intros Ha Hb Na Nb. rewrite !F64ToOkey_spec by done.
  pose proof (f64_sval_zero a Ha) as Za. pose proof (f64_sval_zero b Hb) as Zb.
  assert (forall u, is_u64 u -> f64_neg u = true -> f64_sval u <= 0) as Hneg.
  { intros u Hu Hn. unfold f64_sval. rewrite Hn. unfold f64_mag.
    pose proof (Z.mod_pos_bound u (2 ^ 63) ltac:(lia)). lia. }
  assert (forall u, is_u64 u -> f64_neg u = false -> 0 <= f64_sval u) as Hpos.
  { intros u Hu Hn. unfold f64_sval. rewrite Hn. apply Z.mod_pos_bound. lia. }
  pose proof (Hneg a Ha). pose proof (Hneg b Hb). pose proof (Hpos a Ha).
  pose proof (Hpos b Hb).
  destruct (f64_eqb a 0), (f64_eqb b 0), (f64_neg a), (f64_neg b);
    destruct (Z.compare_spec (f64_sval a) (f64_sval b));
    (apply Z.compare_eq_iff || apply Z.compare_lt_iff || apply Z.compare_gt_iff);
    intuition lia.
Qed.

Lemma F64ToOkey_range u : is_u64 u -> is_u64 (F64ToOkey u).
Proof.
  intros Hu. rewrite F64ToOkey_spec by done. unfold is_u64, f64_sval, f64_mag in *.
  pose proof (Z.mod_pos_bound u (2 ^ 63) ltac:(lia)).
  destruct (f64_eqb u 0), (f64_neg u); lia.
Qed.
Lemma I64ToOkey_range x : is_s64 x -> is_u64 (I64ToOkey x).
Proof. intros H. rewrite I64ToOkey_spec by done. unfold is_u64, is_s64 in *. lia. Qed.

(** ** The byte form is compared by memcmp like the integer *)
Lemma OkeyToBytes_rev k : OkeyToBytes k = rev (le_enc 8 k).
Proof.
  unfold OkeyToBytes, bswap64.
  replace 8%nat with (length (rev (le_enc 8 k))) at 1
    by (by rewrite length_rev, length_le_enc).
  apply le_enc_dec.
Qed.

Lemma zlen_OkeyToBytes k : zlen (OkeyToBytes k) = kOkeyBytes.
Proof. unfold OkeyToBytes. by rewrite zlen_le_enc. Qed.

Lemma bcompare_snoc l1 l2 x y :
  length l1 = length l2 ->
  bcompare (l1 ++ [x]) (l2 ++ [y]) =
    match bcompare l1 l2 with Eq => Z.compare (b2z x) (b2z y) | c => c end.
Proof.
  revert l2. induction l1 as [|a l1 IH]; intros [|b l2] H; try done.
  - simpl. by destruct (Z.compare (b2z x) (b2z y)).
  - simpl. rewrite IH by (simpl in H; lia). by destruct (Z.compare (b2z a) (b2z b)).
Qed.

Lemma bcompare_be n a b :
  bcompare (rev (le_enc n a)) (rev (le_enc n b)) =
  Z.compare (a mod 256 ^ Z.of_nat n) (b mod 256 ^ Z.of_nat n).
Proof.
  revert a b. induction n as [|n IH]; intros a b.
  - simpl. by rewrite !Z.mod_1_r.
  - unfold le_enc; fold le_enc. cbn [rev].
    rewrite bcompare_snoc by (by rewrite !length_rev, !length_le_enc).
    rewrite IH, !b2z_z2b, pow256_succ.
    assert (0 < 256 ^ Z.of_nat n) by (apply Z.pow_pos_nonneg; lia).
    rewrite !Z.rem_mul_r by lia.
    pose proof (Z.mod_pos_bound a 256 ltac:(lia)). pose proof (Z.mod_pos_bound b 256 ltac:(lia)).
    destruct (Z.compare_spec ((a / 256) mod 256 ^ Z.of_nat n)
                             ((b / 256) mod 256 ^ Z.of_nat n)) as [E|E|E].
    + rewrite E. symmetry.
      destruct (Z.compare_spec (a mod 256) (b mod 256));
        (apply Z.compare_eq_iff || apply Z.compare_lt_iff || apply Z.compare_gt_iff); lia.
    + symmetry. apply Z.compare_lt_iff. lia.
    + symmetry. apply Z.compare_gt_iff. lia.
Qed.

Lemma bcompare_okey a b :
  is_u64 a -> is_u64 b ->
  bcompare (OkeyToBytes a) (OkeyToBytes b) = Z.compare a b.
Proof.
  intros Ha Hb. rewrite !OkeyToBytes_rev, bcompare_be.
  change (256 ^ Z.of_nat 8) with (2 ^ 64). by rewrite !Z.mod_small by done.
Qed.

Lemma OkeyFromBytes_ToBytes k : is_u64 k -> OkeyFromBytes (OkeyToBytes k) = Ok k.
Proof.
  intros Hk. unfold OkeyFromBytes.
  pose proof (zlen_OkeyToBytes k) as Hl.
  rewrite <- (app_nil_r (OkeyToBytes k)), zsub_head by done.
  cbn [mbind result_bind]. f_equal. rewrite OkeyToBytes_rev. unfold bswap64.
  replace 8%nat with (length (rev (le_enc 8 k))) at 1
    by (by rewrite length_rev, length_le_enc).
  rewrite le_enc_dec, rev_involutive. apply le_dec_enc_id. done.
Qed.

(** The byte forms of two okeys of one native type compare like the native
    values. *)
Lemma bcompare_int x y : is_s64 x -> is_s64 y ->
  bcompare (OkeyToBytes (I64ToOkey x)) (OkeyToBytes (I64ToOkey y)) = Z.compare x y.
Proof.
  intros Hx Hy. rewrite bcompare_okey by (by apply I64ToOkey_range).
  rewrite !I64ToOkey_spec, !(Z.add_comm _ (2 ^ 63)) by done. apply Z.add_compare_mono_l.
Qed.
Lemma bcompare_uint x y : is_u64 x -> is_u64 y ->
  bcompare (OkeyToBytes (U64ToOkey x)) (OkeyToBytes (U64ToOkey y)) = Z.compare x y.
Proof. apply bcompare_okey. Qed.
Lemma bcompare_double a b : is_u64 a -> is_u64 b ->
  f64_nan a = false -> f64_nan b = false ->
  bcompare (OkeyToBytes (F64ToOkey a)) (OkeyToBytes (F64ToOkey b)) =
  Z.compare (f64_sval a) (f64_sval b).
Proof.
  intros Ha Hb Na Nb. rewrite bcompare_okey by (by apply F64ToOkey_range).
  by apply F64ToOkey_compare.
Qed.


(** (C37) Okeys preserve order: the big-endian byte forms of two okeys compare
    under [memcmp] exactly as the native values do, for 64-bit signed and
    unsigned integers and for every pair of non-NaN doubles (infinities,
    subnormals and both zeros included). *)
Theorem okey_bytes_order :
  (forall x y, is_s64 x -> is_s64 y ->
     bltb (OkeyToBytes (I64ToOkey x)) (OkeyToBytes (I64ToOkey y)) = (x <? y)) /\
  (forall x y, is_u64 x -> is_u64 y ->
     bltb (OkeyToBytes (U64ToOkey x)) (OkeyToBytes (U64ToOkey y)) = (x <? y)) /\
  (forall a b, is_u64 a -> is_u64 b -> f64_nan a = false -> f64_nan b = false ->
     bltb (OkeyToBytes (F64ToOkey a)) (OkeyToBytes (F64ToOkey b)) = f64_ltb a b /\
     beqb (OkeyToBytes (F64ToOkey a)) (OkeyToBytes (F64ToOkey b)) = f64_eqb a b).
Proof.
  split; [|split].
  - intros x y Hx Hy. unfold bltb. by rewrite bcompare_int.
  - intros x y Hx Hy. unfold bltb. by rewrite bcompare_uint.
  - intros a b Ha Hb Na Nb. unfold bltb, beqb. rewrite bcompare_double by done.
    rewrite f64_ltb_sval, f64_eqb_sval by done. split; [done|].
    by destruct (Z.compare_spec (f64_sval a) (f64_sval b)) as [->|H|H];
      [rewrite Z.eqb_refl|symmetry; apply Z.eqb_neq; lia..].
Qed.

(** ** Inverses *)
Lemma OkeyToI64_inv x : is_s64 x -> OkeyToI64 (I64ToOkey x) = x.
Proof.
  intros H. unfold OkeyToI64, I64ToOkey.
  by rewrite Z.lxor_assoc, Z.lxor_nilpotent, Z.lxor_0_r, s64_u64.
Qed.

Lemma OkeyToF64_inv d : is_u64 d -> OkeyToF64 (F64ToOkey d) = if f64_eqb d 0 then 0 else d.
Proof.
  intros Hd. unfold OkeyToF64, F64ToOkey. change 0x8000000000000000 with (2 ^ 63).
  set (u := if f64_eqb d 0 then 0 else d).
  assert (is_u64 u) as Hu by (unfold u; destruct (f64_eqb d 0); done || (unfold is_u64; lia)).
  clearbody u. rewrite !land_pow2, !negb_involutive by lia.
  rewrite (testbit63 u) by done.
  assert (forall z, is_u64 z -> u64 (Z.lnot z) = 2 ^ 64 - 1 - z) as Hnot.
  { intros z Hz. unfold is_u64, u64, Z.lnot in *. symmetry.
    apply (Z.mod_unique_pos _ _ (-1)); lia. }
  unfold is_u64 in Hu. destruct (Z.leb_spec (2 ^ 63) u).
  - rewrite Hnot, testbit63 by (unfold is_u64; lia).
    rewrite (proj2 (Z.leb_gt _ _)) by lia. rewrite Hnot; unfold is_u64; lia.
  - rewrite lxor_sign by done. rewrite (proj2 (Z.leb_gt (2 ^ 63) u)) by lia.
    rewrite testbit63 by (unfold is_u64; lia).
    rewrite (proj2 (Z.leb_le _ _)) by lia. rewrite lxor_sign by (unfold is_u64; lia).
    rewrite (proj2 (Z.leb_le _ _)) by lia. lia.
Qed.

(** The okey maps are inverted by their [OkeyTo*] counterparts through the
    byte form, up to the one normalisation they document: a zero of either sign
    comes back as [+0.0]. *)
Theorem okey_inverse :
  (forall x, is_s64 x ->
     OkeyFromBytes (OkeyToBytes (I64ToOkey x)) = Ok (I64ToOkey x) /\
     OkeyToI64 (I64ToOkey x) = x) /\
  (forall d, is_u64 d ->
     OkeyFromBytes (OkeyToBytes (F64ToOkey d)) = Ok (F64ToOkey d) /\
     OkeyToF64 (F64ToOkey d) = if f64_eqb d 0 then 0 else d).
Proof.
  split.
  - intros x H. split; [by apply OkeyFromBytes_ToBytes, I64ToOkey_range|by apply OkeyToI64_inv].
  - intros d H. split; [by apply OkeyFromBytes_ToBytes, F64ToOkey_range|by apply OkeyToF64_inv].
Qed.
