(* ===== verification/BytesList.v ===== *)
(** * Packed lists of byte strings

    Models [bytes_list.h]: one arena with cumulative end offsets, appended to
    by [push_back], searched by binary search and written to the index blob.

    [bl_repr] relates a packed list to the list of strings it stands for; the
    operations are proved against that list. *)
From Stdlib Require Import ZArith Lia Strings.Byte.
From stdpp Require Import base numbers sets list sorting.
From S2P Require Import Prelude.

Record BytesList := mkBytesList {
  arena : bytes;
  ends : list Z;
}.

Definition bl_empty : BytesList := {| arena := []; ends := [] |}.
Definition size (l : BytesList) : Z := zlen (ends l).
Definition empty (l : BytesList) : bool := size l =? 0.

(** [operator[]] *)
Definition bl_get (l : BytesList) (i : Z) : result bytes :=
  start ← (if i =? 0 then Ok 0 else zget (ends l) (i - 1));
  e ← zget (ends l) i;
  zsub (arena l) start (u32 (e - start)).

Definition back (l : BytesList) : result bytes := bl_get l (size l - 1).

Definition push_back (l : BytesList) (v : bytes) : BytesList :=
  {| arena := arena l ++ v; ends := ends l ++ [u32 (zlen (arena l ++ v))] |}.

Definition clear (l : BytesList) : BytesList := bl_empty.

(** The loop of [UpperBound] and [LowerBound]; [below mid] is the test that
    moves [lo]. *)
Fixpoint search_loop (below : Z -> result bool) (fuel : nat) (lo hi : Z) : result Z :=
  match fuel with
  | O => Fault OutOfFuel
  | S fuel' =>
      if lo <? hi then
        let mid := u32 (lo + (hi - lo) / 2) in
        b ← below mid;
        if b : bool then search_loop below fuel' (u32 (mid + 1)) hi
        else search_loop below fuel' lo mid
      else Ok lo
  end.

(** Each turn at least halves the window, so its size bounds the turns. *)
Definition search_fuel (n : Z) : nat := S (Z.to_nat n).

Definition UpperBound (l : BytesList) (v : bytes) : result Z :=
  search_loop (fun mid => x ← bl_get l mid; Ok (bleb x v))
    (search_fuel (size l)) 0 (u32 (size l)).

Definition LowerBound (l : BytesList) (v : bytes) : result Z :=
  search_loop (fun mid => x ← bl_get l mid; Ok (bltb x v))
    (search_fuel (size l)) 0 (u32 (size l)).

(** Wire form, appended to [out]. *)
Definition Serialize (l : BytesList) (out : bytes) : bytes :=
  out ++ le_enc 4 (u32 (zlen (ends l))) ++
  concat (map (le_enc 4) (ends l)) ++ arena l.

(** The [count] end offsets at the front of [p]. *)
Fixpoint parse_ends (count : nat) (p : bytes) (off : Z) : result (list Z) :=
  match count with
  | O => Ok []
  | S n =>
      b ← zsub p off 4;
      rest ← parse_ends n p (off + 4);
      Ok (le_dec b :: rest)
  end.

(** The list at the front of [p] and the byte length consumed. *)
Definition Parse (p : bytes) : result (BytesList * Z) :=
  c ← zsub p 0 4;
  let count := le_dec c in
  es ← parse_ends (Z.to_nat count) p 4;
  nbytes ← (if count =? 0 then Ok 0 else zget es (zlen es - 1));
  a ← zsub p (4 + count * 4) nbytes;
  Ok ({| arena := a; ends := es |}, 4 + count * 4 + nbytes).

(** ** Partition points

    The number of leading elements a test accepts. *)
Fixpoint count_if {A} (p : A -> bool) (l : list A) : Z :=
  match l with
  | [] => 0
  | a :: rest => (if p a then 1 else 0) + count_if p rest
  end.

Lemma count_if_bounds {A} (p : A -> bool) l : 0 <= count_if p l <= zlen l.
Proof.
  induction l as [|a l IH]; [done|]. cbn [count_if]. rewrite zlen_cons.
  destruct (p a); lia.
Qed.
Lemma count_if_none {A} (p : A -> bool) l :
  (forall a, a ∈ l -> p a = false) -> count_if p l = 0.
Proof.
  induction l as [|a l IH]; intros H; [done|]. cbn [count_if].
  rewrite H by set_solver. rewrite IH; [done|]. set_solver.
Qed.
Lemma count_if_le {A} (p q : A -> bool) l :
  (forall a, a ∈ l -> p a = true -> q a = true) -> count_if p l <= count_if q l.
Proof.
  induction l as [|a l IH]; intros H; [done|]. cbn [count_if].
  pose proof (H a ltac:(set_solver)) as Ha.
  assert (count_if p l <= count_if q l) by (apply IH; set_solver).
  destruct (p a), (q a); lia.
Qed.
Lemma count_if_pos {A} (p : A -> bool) l a :
  a ∈ l -> p a = true -> 0 < count_if p l.
Proof.
  intros Ha Hp. induction l as [|b l IH]; [by apply elem_of_nil in Ha|].
  cbn [count_if]. pose proof (count_if_bounds p l).
  apply elem_of_cons in Ha as [<-|Ha]; [rewrite Hp; lia|].
  specialize (IH Ha). destruct (p b); lia.
Qed.

(** A search over a monotone test finds its partition point. *)
Lemma search_loop_spec below fuel lo hi k :
  0 <= lo <= k -> k <= hi -> hi < 2 ^ 32 -> (Z.to_nat (hi - lo) < fuel)%nat ->
  (forall i, lo <= i < hi -> below i = Ok (i <? k)) ->
  search_loop below fuel lo hi = Ok k.
Proof.
  revert lo hi. induction fuel as [|fuel IH]; intros lo hi Hlo Hhi Hw Hf Hb; [lia|].
  cbn [search_loop]. destruct (Z.ltb_spec lo hi) as [Hlt|Hge]; [|f_equal; lia].
  pose proof (Z.div_mod (hi - lo) 2 ltac:(lia)).
  pose proof (Z.mod_pos_bound (hi - lo) 2 ltac:(lia)).
  rewrite (u32_small (lo + _)) by (unfold is_u32; lia).
  set (mid := lo + (hi - lo) / 2) in *.
  rewrite Hb by lia. cbn [mbind result_bind].
  destruct (Z.ltb_spec mid k).
  - rewrite u32_small by (unfold is_u32; lia). apply IH; try lia.
    intros i Hi. apply Hb. lia.
  - apply IH; try lia. intros i Hi. apply Hb. lia.
Qed.

(** On a sorted list a downward-closed test accepts exactly a prefix. *)
Lemma sorted_prefix {A} (R : relation A) (p : A -> bool) l i x :
  StronglySorted R l -> (forall a b, R a b -> p b = true -> p a = true) ->
  l !! i = Some x -> p x = (Z.of_nat i <? count_if p l).
Proof.
  intros Hs Hp. revert i. induction Hs as [|a l Hs IH Ha]; intros i Hi; [done|].
  rewrite Forall_forall in Ha. cbn [count_if]. pose proof (count_if_bounds p l).
  assert (p a = false -> forall b, b ∈ l -> p b = false) as Hdown.
  { intros E b Hb. destruct (p b) eqn:Eb; [|done].
    by rewrite (Hp a b) in E by eauto. }
  destruct i as [|i]; simpl in Hi.
  - injection Hi as ->. destruct (p x) eqn:E.
    + symmetry. apply Z.ltb_lt. lia.
    + rewrite count_if_none by eauto. done.
  - destruct (p a) eqn:E.
    + rewrite (IH i Hi).
      destruct (Z.ltb_spec (Z.of_nat i) (count_if p l)),
        (Z.ltb_spec (Z.of_nat (S i)) (1 + count_if p l)); try done; lia.
    + rewrite count_if_none by eauto. rewrite (Hdown eq_refl x); [done|].
      by eapply list_elem_of_lookup_2.
Qed.

(** ** What a packed list stands for *)
Fixpoint ends_from (off : Z) (vs : list bytes) : list Z :=
  match vs with
  | [] => []
  | v :: rest => (off + zlen v) :: ends_from (off + zlen v) rest
  end.

Record bl_repr (l : BytesList) (vs : list bytes) : Prop := {
  bl_arena : arena l = concat vs;
  bl_ends : ends l = ends_from 0 vs;
  bl_bytes : zlen (concat vs) < 2 ^ 32;
  bl_count : zlen vs < 2 ^ 32;
}.

Lemma length_ends_from off vs : length (ends_from off vs) = length vs.
Proof. revert off. induction vs; intros; simpl; auto. Qed.

Lemma ends_from_app off a b :
  ends_from off (a ++ b) = ends_from off a ++ ends_from (off + zlen (concat a)) b.
Proof.
  revert off. induction a as [|x a IH]; intros off; simpl.
  - zlen0. by rewrite Z.add_0_r.
  - by rewrite IH, zlen_app, Z.add_assoc.
Qed.

Lemma bl_repr_size l vs : bl_repr l vs -> size l = zlen vs.
Proof. intros H. unfold size, zlen. by rewrite (bl_ends _ _ H), length_ends_from. Qed.

Lemma bl_empty_repr : bl_repr bl_empty [].
Proof. split; done. Qed.

Lemma push_back_repr l vs v :
  bl_repr l vs -> zlen (concat vs) + zlen v < 2 ^ 32 -> zlen vs + 1 < 2 ^ 32 ->
  bl_repr (push_back l v) (vs ++ [v]).
Proof.
  intros [Ha He Hb Hc] Hb' Hc'.
  pose proof (zlen_nonneg (concat vs)). pose proof (zlen_nonneg v).
  unfold push_back. split; cbn [arena ends]; rewrite ?concat_app; cbn [concat];
    rewrite ?app_nil_r, ?Ha, ?zlen_app, ?zlen_cons; zlen0; try done; try lia.
  rewrite ends_from_app, He. cbn [ends_from].
  by rewrite Z.add_0_l, u32_small by (unfold is_u32; lia).
Qed.

Lemma bl_get_repr l vs i v :
  bl_repr l vs -> vs !! i = Some v -> bl_get l (Z.of_nat i) = Ok v.
Proof.
  intros [Ha He Hb Hc] Hi.
  apply list_elem_of_split_length in Hi as (pre & post & -> & ->).
  rewrite ends_from_app, Z.add_0_l in He. cbn [ends_from] in He.
  rewrite concat_app in Ha, Hb. cbn [concat] in Ha, Hb. rewrite !zlen_app in Hb.
  pose proof (zlen_nonneg (concat pre)). pose proof (zlen_nonneg v).
  pose proof (zlen_nonneg (concat post)).
  unfold bl_get.
  assert ((if Z.of_nat (length pre) =? 0 then Ok 0
           else zget (ends l) (Z.of_nat (length pre) - 1)) = Ok (zlen (concat pre))) as ->.
  { destruct pre as [|x pre _] using rev_ind; [done|]. rewrite He, length_app. simpl.
    destruct (Z.eqb_spec (Z.of_nat (length pre + 1)) 0); [lia|].
    replace (Z.of_nat (length pre + 1) - 1) with (Z.of_nat (length pre)) by lia.
    apply zget_nat. rewrite ends_from_app, <- app_assoc.
    rewrite lookup_app_r by (rewrite length_ends_from; lia).
    rewrite length_ends_from, Nat.sub_diag. simpl.
    rewrite concat_app, zlen_app. simpl. by rewrite app_nil_r, Z.add_0_l. }
  cbn [mbind result_bind].
  rewrite (zget_nat (ends l) (length pre) (zlen (concat pre) + zlen v)).
  - cbn [mbind result_bind]. rewrite u32_small by (unfold is_u32; lia).
    rewrite Ha. apply zsub_app; lia.
  - rewrite He, lookup_app_r by (rewrite length_ends_from; lia).
    by rewrite length_ends_from, Nat.sub_diag.
Qed.

Lemma back_repr l vs v : bl_repr l (vs ++ [v]) -> back l = Ok v.
Proof.
  intros H. unfold back. rewrite (bl_repr_size _ _ H), zlen_snoc.
  replace (zlen vs + 1 - 1) with (Z.of_nat (length vs)) by (unfold zlen; lia).
  apply (bl_get_repr _ _ _ _ H). by apply list_lookup_middle.
Qed.

(** ** Binary search over a sorted list *)
Section Search.
Context (l : BytesList) (vs : list bytes) (Hl : bl_repr l vs).
Context (Hsorted : StronglySorted ble vs).

Lemma search_repr (p : bytes -> bool) :
  (forall a b, ble a b -> p b = true -> p a = true) ->
  search_loop (fun mid => x ← bl_get l mid; Ok (p x))
    (search_fuel (size l)) 0 (u32 (size l)) = Ok (count_if p vs).
Proof.
  intros Hp. pose proof (bl_count _ _ Hl). pose proof (count_if_bounds p vs).
  rewrite (bl_repr_size _ _ Hl), u32_small by (unfold is_u32; lia).
  apply search_loop_spec; try lia.
  - unfold search_fuel. lia.
  - intros i Hi.
    destruct (lookup_lt_is_Some_2 vs (Z.to_nat i)) as [x Hx]; [unfold zlen in Hi; lia|].
    replace i with (Z.of_nat (Z.to_nat i)) by lia.
    rewrite (bl_get_repr _ _ _ _ Hl Hx). cbn [mbind result_bind]. f_equal.
    by apply (sorted_prefix ble).
Qed.

Lemma UpperBound_spec v : UpperBound l v = Ok (count_if (fun x => bleb x v) vs).
Proof.
  apply search_repr. intros a b Hab. rewrite !bleb_le. intros. border.
Qed.
Lemma LowerBound_spec v : LowerBound l v = Ok (count_if (fun x => bltb x v) vs).
Proof.
  apply search_repr. intros a b Hab. rewrite !bltb_lt. intros. border.
Qed.
End Search.

(** ** Wire form *)
Lemma parse_ends_spec es pre tail :
  Forall is_u32 es ->
  parse_ends (length es) (pre ++ concat (map (le_enc 4) es) ++ tail) (zlen pre) = Ok es.
Proof.
  intros H. revert pre. induction H as [|e es He Hes IH]; intros pre; [done|].
  cbn [length parse_ends map concat]. rewrite <- app_assoc.
  rewrite zsub_app by (by rewrite ?zlen_le_enc). cbn [mbind result_bind].
  specialize (IH (pre ++ le_enc 4 e)). rewrite zlen_app, zlen_le_enc, <- app_assoc in IH.
  change (Z.of_nat 4) with 4 in IH. rewrite IH. cbn [mbind result_bind].
  by rewrite le_dec_enc_id.
Qed.

Lemma zlen_concat_le_enc es : zlen (concat (map (le_enc 4) es)) = zlen es * 4.
Proof.
  induction es as [|e es IH]; [done|]. cbn [map concat].
  rewrite zlen_app, zlen_le_enc, zlen_cons, IH. lia.
Qed.

Lemma ends_from_range off vs :
  0 <= off -> off + zlen (concat vs) < 2 ^ 32 -> Forall is_u32 (ends_from off vs).
Proof.
  revert off. induction vs as [|v vs IH]; intros off Ho H; constructor.
  - cbn [concat] in H. rewrite zlen_app in H.
    pose proof (zlen_nonneg v). pose proof (zlen_nonneg (concat vs)). unfold is_u32. lia.
  - cbn [concat] in H. rewrite zlen_app in H. pose proof (zlen_nonneg v). apply IH; lia.
Qed.

Lemma Parse_Serialize l vs out rest :
  bl_repr l vs ->
  Parse (drop (length out) (Serialize l out) ++ rest) =
    Ok (l, zlen (Serialize l out) - zlen out).
Proof.
  intros H. pose proof (bl_repr_size _ _ H) as Hs. unfold size in Hs.
  unfold Serialize. rewrite drop_app_length, <- !app_assoc.
  set (es := ends l) in *.
  assert (Forall is_u32 es) as Hes.
  { unfold es. rewrite (bl_ends _ _ H). apply ends_from_range; [lia|].
    pose proof (bl_bytes _ _ H). lia. }
  pose proof (zlen_nonneg vs). pose proof (bl_count _ _ H).
  assert (u32 (zlen es) = zlen es) as Hc by (apply u32_small; unfold is_u32; lia).
  unfold Parse. rewrite zsub_head by (by rewrite zlen_le_enc). cbn [mbind result_bind].
  rewrite Hc, le_dec_enc_id by (change (256 ^ Z.of_nat 4) with (2 ^ 32); lia).
  replace (Z.to_nat (zlen es)) with (length es) by (unfold zlen; lia).
  pose proof (parse_ends_spec es (le_enc 4 (zlen es)) (arena l ++ rest) Hes) as Hp.
  rewrite zlen_le_enc in Hp. change (Z.of_nat 4) with 4 in Hp. rewrite Hp.
  cbn [mbind result_bind].
  assert ((if zlen es =? 0 then Ok 0 else zget es (zlen es - 1)) = Ok (zlen (arena l))) as ->.
  { rewrite (bl_arena _ _ H). unfold es. rewrite (bl_ends _ _ H).
    destruct vs as [|v vs _] using rev_ind; [done|].
    rewrite ends_from_app. cbn [ends_from]. rewrite zlen_snoc.
    destruct (Z.eqb_spec (zlen (ends_from 0 vs) + 1) 0); [pose proof (zlen_nonneg (ends_from 0 vs)); lia|].
    replace (zlen (ends_from 0 vs) + 1 - 1) with (Z.of_nat (length (ends_from 0 vs)))
      by (unfold zlen; lia).
    apply zget_nat. rewrite list_lookup_middle by done.
    rewrite concat_app, zlen_app. cbn [concat]. by rewrite app_nil_r. }
  cbn [mbind result_bind]. rewrite (app_assoc (le_enc 4 _)).
  rewrite zsub_app by (rewrite ?zlen_app, ?zlen_le_enc, ?zlen_concat_le_enc; lia).
  cbn [mbind result_bind]. f_equal. apply (f_equal2 pair); [by destruct l|].
  rewrite !zlen_app, zlen_le_enc, zlen_concat_le_enc. lia.
Qed.

(** ** Properties *)

(** Two boundaries. *)
Definition demo_list : BytesList := push_back (push_back bl_empty [x61]) [x62; x61].
Lemma demo_list_repr : bl_repr demo_list [[x61]; [x62; x61]].
Proof. split; vm_compute; done. Qed.
Lemma demo_list_sorted : StronglySorted ble [[x61]; [x62; x61]].
Proof. repeat constructor; vm_compute; done. Qed.

(** Search: on a list that holds [vs] in memcmp order, [UpperBound] is
    the number of elements at or below [v] and [LowerBound] the number of
    elements below [v]; the loops return, within the window size in turns. *)
Theorem bounds_partition l vs v :
  bl_repr l vs -> StronglySorted ble vs ->
  UpperBound l v = Ok (count_if (fun x => bleb x v) vs) /\
  LowerBound l v = Ok (count_if (fun x => bltb x v) vs).
Proof. intros Hl Hs. split; [by apply UpperBound_spec|by apply LowerBound_spec]. Qed.

Lemma bounds_partition_witness :
  UpperBound demo_list [x61] = Ok (count_if (fun x => bleb x [x61]) [[x61]; [x62; x61]]) /\
  LowerBound demo_list [x61] = Ok (count_if (fun x => bltb x [x61]) [[x61]; [x62; x61]]).
Proof. exact (bounds_partition demo_list _ [x61] demo_list_repr demo_list_sorted). Defined.

(** Round trip: parsing what [Serialize] appended to a blob, whatever
    precedes and follows it, gives back the same packed list and the exact
    number of bytes it occupies. *)
Theorem BytesList_roundtrip l vs out rest :
  bl_repr l vs ->
  Parse (drop (length out) (Serialize l out) ++ rest) =
    Ok (l, zlen (Serialize l out) - zlen out).
Proof. apply Parse_Serialize. Qed.
Lemma BytesList_roundtrip_witness :
  Parse (drop 1 (Serialize demo_list [x7a]) ++ [x79]) =
    Ok (demo_list, zlen (Serialize demo_list [x7a]) - 1).
Proof. exact (BytesList_roundtrip demo_list _ [x7a] [x79] demo_list_repr). Defined.
