(* ===== verification/Query.v ===== *)
(** * Queries

    Models [bit_lsm_query.h] and [bit_lsm_query.cpp]: CNF queries, their
    validation, the reference evaluation [CheckCondition], the pre-resolved
    evaluator [CompiledQuery], byte intervals and the translation
    [EncodeQuery] of a query into SABI's byte domain. *)
From Stdlib Require Import ZArith Lia Strings.Byte Strings.String.
From stdpp Require Import base numbers strings list gmap.
From S2P Require Import Prelude Floats Options Row Okey.

Inductive CompareOp := EQUAL | LESS_EQUAL | GREATER_EQUAL | LESS | GREATER.

#[global] Instance CompareOp_eq_dec : EqDecision CompareOp.
Proof. solve_decision. Defined.

(** The relational operators of an operand type. *)
Record Operand (T : Type) := mkOperand {
  op_eq : T -> T -> bool;
  op_lt : T -> T -> bool;
  op_le : T -> T -> bool;
}.
Arguments op_eq {T}. Arguments op_lt {T}. Arguments op_le {T}.

Definition int_operand : Operand Z := mkOperand Z Z.eqb Z.ltb Z.leb.
Definition double_operand : Operand Z := mkOperand Z f64_eqb f64_ltb f64_leb.

Definition ApplyCompareOp {T} (O : Operand T) (op : CompareOp) (lhs rhs : T) : bool :=
  match op with
  | EQUAL => op_eq O lhs rhs
  | LESS => op_lt O lhs rhs
  | LESS_EQUAL => op_le O lhs rhs
  | GREATER => op_lt O rhs lhs
  | GREATER_EQUAL => op_le O rhs lhs
  end.

Record QueryCondition := mkQueryCondition {
  attr_idx : Z;
  op : CompareOp;
  value : value_type;
}.
Abbreviation OrClause := (list QueryCondition).
Record BitLSMQuery := mkBitLSMQuery { clause_groups : list OrClause }.

(** The constructor from a flat list: every condition its own clause. *)
Definition BitLSMQuery_flat (conditions : list QueryCondition) : BitLSMQuery :=
  {| clause_groups := map (fun c => [c]) conditions |}.

(** The sign of [string_view::compare]. *)
Definition cmp_int (c : comparison) : Z :=
  match c with Lt => -1 | Eq => 0 | Gt => 1 end.

Definition vget_int (v : value_type) : result Z :=
  match v with VInt z => Ok z | _ => Fault BadVariantAccess end.
Definition vget_uint (v : value_type) : result Z :=
  match v with VUint z => Ok z | _ => Fault BadVariantAccess end.
Definition vget_double (v : value_type) : result Z :=
  match v with VDouble d => Ok d | _ => Fault BadVariantAccess end.
Definition vget_string (v : value_type) : result bytes :=
  match v with VString s => Ok s | _ => Fault BadVariantAccess end.

Definition EvalCondition (cond : QueryCondition) (attr_val : AttrView) : result bool :=
  match attr_val with
  | ANull => Ok false
  | AString target =>
      s ← vget_string (value cond);
      Ok (ApplyCompareOp int_operand (op cond) (cmp_int (bcompare target s)) 0)
  | AInt x =>
      c ← vget_int (value cond); Ok (ApplyCompareOp int_operand (op cond) x c)
  | AUint x =>
      c ← vget_uint (value cond); Ok (ApplyCompareOp int_operand (op cond) x c)
  | ADouble x =>
      c ← vget_double (value cond); Ok (ApplyCompareOp double_operand (op cond) x c)
  end.

(** ** Reference evaluation *)

(** The OR loop, with its one-attribute decode cache. *)
Fixpoint check_clause (layout : ValueLayout) (buffer : bytes) (clause : OrClause)
    (cached_idx : Z) (cached_val : AttrView) : result bool :=
  match clause with
  | [] => Ok false
  | cond :: rest =>
      '(idx, v) ←
        (if negb (attr_idx cond =? cached_idx)
         then v ← DecodeAttr layout buffer (attr_idx cond); Ok (attr_idx cond, v)
         else Ok (cached_idx, cached_val));
      pass ← EvalCondition cond v;
      if pass : bool then Ok true else check_clause layout buffer rest idx v
  end.

Fixpoint check_clauses (layout : ValueLayout) (buffer : bytes) (cs : list OrClause)
    : result bool :=
  match cs with
  | [] => Ok true
  | clause :: rest =>
      pass ← check_clause layout buffer clause UINT32_MAX ANull;
      if pass : bool then check_clauses layout buffer rest else Ok false
  end.

Definition CheckCondition (q : BitLSMQuery) (value_slice : bytes)
    (layout : ValueLayout) : result bool :=
  match clause_groups q with
  | [] => Ok true
  | cs => check_clauses layout value_slice cs
  end.

(** ** Validate *)
Definition comparand_matches (t : PhysicalType) (v : value_type) : bool :=
  match t, v with
  | kInt, VInt _ => true
  | kUint, VUint _ => true
  | kFloat, VDouble _ => true
  | kBinary, VString _ => true
  | kVarBinary, VString _ => true
  | _, _ => false
  end.

Fixpoint validate_clause (options : BitLSMOptions) (clause : OrClause) : Status :=
  match clause with
  | [] => OK
  | cond :: rest =>
      match attr_specs options !! Z.to_nat (attr_idx cond) with
      | None =>
          InvalidArgument ("attr_idx " +:+ to_string (attr_idx cond) +:+
            " out of range (attr_num=" +:+
            to_string (zlen (attr_specs options)) +:+ ")")
      | Some spec =>
          if negb (comparand_matches (physical_type spec) (value cond)) then
            InvalidArgument ("attr " +:+ to_string (attr_idx cond) +:+
              " comparand type does not match its physical type")
          else if bool_decide (index_type spec = kEquality) &&
                  negb (bool_decide (op cond = EQUAL)) then
            InvalidArgument ("kEquality attr " +:+ to_string (attr_idx cond) +:+
              " supports only EQUAL")
          else validate_clause options rest
      end
  end.

Fixpoint validate_clauses (options : BitLSMOptions) (ci : Z) (cs : list OrClause)
    : Status :=
  match cs with
  | [] => OK
  | clause :: rest =>
      match clause with
      | [] => InvalidArgument ("clause " +:+ to_string ci +:+ " is empty")
      | _ =>
          match validate_clause options clause with
          | OK => validate_clauses options (ci + 1) rest
          | s => s
          end
      end
  end.

Definition Validate (q : BitLSMQuery) (options : BitLSMOptions) : Status :=
  validate_clauses options 0 (clause_groups q).

(** ** CompiledQuery *)
Record Pred := mkPred {
  p_is_numeric : bool;
  p_op : CompareOp;
  p_null_bit : Z;
  p_slot : Z;
  p_spec : AttrSpec;
  p_ival : Z;
  p_uval : Z;
  p_dval : Z;
  p_soff : Z;
  p_slen : Z;
}.
Record ClauseRange := mkClauseRange { range_begin : Z; range_end : Z }.
Record CompiledQuery := mkCompiledQuery {
  preds_ : list Pred;
  clauses_ : list ClauseRange;
  variable_base_ : Z;
  null_bitmap_bytes_ : Z;
  arena_ : bytes;
}.

(** The predicate of one condition, and the arena after it. *)
Definition compile_cond (layout : ValueLayout) (cond : QueryCondition) (arena : bytes)
    : result (Pred * bytes) :=
  spec ← zget (specs layout) (attr_idx cond);
  nb ← zget (null_bit layout) (attr_idx cond);
  sl ← zget (slot layout) (attr_idx cond);
  let p := mkPred (IsNumeric spec) (op cond) nb sl spec in
  match physical_type spec with
  | kFloat => d ← vget_double (value cond); Ok (p 0 0 d 0 0, arena)
  | kInt => z ← vget_int (value cond); Ok (p z 0 0 0 0, arena)
  | kUint => z ← vget_uint (value cond); Ok (p 0 z 0 0 0, arena)
  | kBinary | kVarBinary =>
      str ← vget_string (value cond);
      Ok (p 0 0 0 (u32 (zlen arena)) (u32 (zlen str)), arena ++ str)
  end.

Fixpoint compile_conds (layout : ValueLayout) (clause : OrClause)
    (preds : list Pred) (arena : bytes) : result (list Pred * bytes) :=
  match clause with
  | [] => Ok (preds, arena)
  | cond :: rest =>
      '(p, arena') ← compile_cond layout cond arena;
      compile_conds layout rest (preds ++ [p]) arena'
  end.

Fixpoint compile_clauses (layout : ValueLayout) (cs : list OrClause)
    (preds : list Pred) (clauses : list ClauseRange) (arena : bytes)
    : result (list Pred * list ClauseRange * bytes) :=
  match cs with
  | [] => Ok (preds, clauses, arena)
  | clause :: rest =>
      let b := u32 (zlen preds) in
      '(preds', arena') ← compile_conds layout clause preds arena;
      compile_clauses layout rest preds'
        (clauses ++ [mkClauseRange b (u32 (zlen preds'))]) arena'
  end.

(** The constructor. *)
Definition CompileQuery (query : BitLSMQuery) (options : BitLSMOptions)
    : result CompiledQuery :=
  layout ← mkLayout options;
  '(preds, clauses, arena) ← compile_clauses layout (clause_groups query) [] [] [];
  Ok {| preds_ := preds; clauses_ := clauses;
        variable_base_ := variable_base layout;
        null_bitmap_bytes_ := null_bitmap_bytes layout; arena_ := arena |}.

Definition PassOp (op : CompareOp) (cmp : Z) : bool :=
  match op with
  | EQUAL => cmp =? 0
  | GREATER_EQUAL => 0 <=? cmp
  | LESS_EQUAL => cmp <=? 0
  | GREATER => 0 <? cmp
  | LESS => cmp <? 0
  end.

(** One predicate against an encoded value. *)
Definition eval_pred (cq : CompiledQuery) (base : bytes) (p : Pred) : result bool :=
  isnull ← (if 0 <=? p_null_bit p then IsNullBitSet base (p_null_bit p) else Ok false);
  if isnull : bool then Ok false
  else if p_is_numeric p then
    if bool_decide (physical_type (p_spec p) = kFloat) && (width (p_spec p) =? 8) then
      b ← zsub base (p_slot p) 8;
      Ok (ApplyCompareOp double_operand (p_op p) (le_dec b) (p_dval p))
    else
      v ← DecodeFixed base (p_slot p) (p_spec p);
      match physical_type (p_spec p) with
      | kFloat => x ← get_double v; Ok (ApplyCompareOp double_operand (p_op p) x (p_dval p))
      | kInt => x ← get_int v; Ok (ApplyCompareOp int_operand (p_op p) x (p_ival p))
      | _ => x ← get_uint v; Ok (ApplyCompareOp int_operand (p_op p) x (p_uval p))
      end
  else
    attr ←
      (if IsFixed (p_spec p) then zsub base (p_slot p) (width (p_spec p))
       else
         e ← zsub base (null_bitmap_bytes_ cq + p_slot p * 4) 4;
         st ← (if 0 <? p_slot p
               then zsub base (null_bitmap_bytes_ cq + (p_slot p - 1) * 4) 4
               else Ok []);
         zsub base (variable_base_ cq + le_dec st) (u32 (le_dec e - le_dec st)));
    want ← zsub (arena_ cq) (p_soff p) (p_slen p);
    Ok (PassOp (p_op p) (cmp_int (bcompare attr want))).

(** [for (i = c.begin; i < c.end; ++i)], [n] iterations left. *)
Fixpoint eval_range (cq : CompiledQuery) (base : bytes) (i : Z) (n : nat) : result bool :=
  match n with
  | O => Ok false
  | S n' =>
      p ← zget (preds_ cq) i;
      ok ← eval_pred cq base p;
      if ok : bool then Ok true else eval_range cq base (i + 1) n'
  end.

Fixpoint eval_clauses (cq : CompiledQuery) (base : bytes) (cs : list ClauseRange)
    : result bool :=
  match cs with
  | [] => Ok true
  | c :: rest =>
      pass ← eval_range cq base (range_begin c) (Z.to_nat (range_end c - range_begin c));
      if pass : bool then eval_clauses cq base rest else Ok false
  end.

Definition Eval (cq : CompiledQuery) (value : bytes) : result bool :=
  eval_clauses cq value (clauses_ cq).

(** ** ByteInterval *)
Record ByteInterval := mkByteInterval {
  lo : bytes;
  lo_open : bool;
  hi : bytes;
  hi_open : bool;
  hi_unbounded : bool;
}.

Definition Empty (w : ByteInterval) : bool :=
  if hi_unbounded w then false
  else match bcompare (lo w) (hi w) with
       | Gt => true
       | Eq => lo_open w || hi_open w
       | Lt => false
       end.

Definition Intersect (w o : ByteInterval) : ByteInterval :=
  let w1 :=
    match bcompare (lo o) (lo w) with
    | Gt => mkByteInterval (lo o) (lo_open o) (hi w) (hi_open w) (hi_unbounded w)
    | Eq => mkByteInterval (lo w) (lo_open w || lo_open o) (hi w) (hi_open w)
              (hi_unbounded w)
    | Lt => w
    end in
  if hi_unbounded o then w1
  else if hi_unbounded w1 then
    mkByteInterval (lo w1) (lo_open w1) (hi o) (hi_open o) false
  else
    match bcompare (hi o) (hi w1) with
    | Lt => mkByteInterval (lo w1) (lo_open w1) (hi o) (hi_open o) (hi_unbounded w1)
    | Eq => mkByteInterval (lo w1) (lo_open w1) (hi w1) (hi_open w1 || hi_open o)
              (hi_unbounded w1)
    | Gt => w1
    end.

Definition FromOp (op : CompareOp) (b : bytes) : ByteInterval :=
  match op with
  | EQUAL => mkByteInterval b false b false false
  | GREATER_EQUAL => mkByteInterval b false [] false true
  | GREATER => mkByteInterval b true [] false true
  | LESS_EQUAL => mkByteInterval [] false b false false
  | LESS => mkByteInterval [] false b true false
  end.

(** ** EncodeQuery *)
Record SABICondition := mkSABICondition {
  s_attr_idx : Z;
  win : ByteInterval;
  s_bytes : bytes;
}.
Abbreviation SABIOrClause := (list SABICondition).
Record SABIQuery := mkSABIQuery {
  s_clause_groups : list SABIOrClause;
  unsat : bool;
}.

(** A default-constructed interval: everything. *)
Definition full_interval : ByteInterval := mkByteInterval [] false [] false true.

Definition ComparandBytes (v : value_type) : result bytes :=
  match v with
  | VString s => Ok s
  | _ => k ← NumericToOkey_comparand v; Ok (OkeyToBytes k)
  end.

(** The members of an OR clause, empty intervals dropped. *)
Fixpoint encode_members (options : BitLSMOptions) (clause : OrClause)
    : result SABIOrClause :=
  match clause with
  | [] => Ok []
  | c :: rest =>
      spec ← zget (attr_specs options) (attr_idx c);
      b ← ComparandBytes (value c);
      enc ← encode_members options rest;
      if bool_decide (index_type spec = kRange) then
        let w := FromOp (op c) b in
        if Empty w then Ok enc else Ok (mkSABICondition (attr_idx c) w [] :: enc)
      else Ok (mkSABICondition (attr_idx c) full_interval b :: enc)
  end.

(** [out], [unsat] and [merged_at] across the clause loop. *)
Record enc_query := mkEncQuery {
  eq_out : list SABIOrClause;
  eq_unsat : bool;
  merged_at : gmap Z Z;
}.

(** [out.clause_groups[k][0].win.Intersect(win)] *)
Definition intersect_at (out : list SABIOrClause) (k : Z) (w : ByteInterval)
    : result (list SABIOrClause * ByteInterval) :=
  cl ← zget out k;
  match cl with
  | [] => Fault OutOfBounds
  | c :: rest =>
      let w' := Intersect (win c) w in
      out' ← zset out k (mkSABICondition (s_attr_idx c) w' (s_bytes c) :: rest);
      Ok (out', w')
  end.

Definition encode_clause (options : BitLSMOptions) (clause : OrClause) (st : enc_query)
    : result enc_query :=
  singleton_ordered ←
    (match clause with
     | [c] =>
         spec ← zget (attr_specs options) (attr_idx c);
         Ok (bool_decide (index_type spec = kRange))
     | _ => Ok false
     end);
  match singleton_ordered, clause with
  | true, c :: _ =>
      b ← ComparandBytes (value c);
      let w := FromOp (op c) b in
      match merged_at st !! attr_idx c with
      | Some k =>
          '(out', w') ← intersect_at (eq_out st) k w;
          Ok (mkEncQuery out' (eq_unsat st || Empty w') (merged_at st))
      | None =>
          Ok (mkEncQuery (eq_out st ++ [[mkSABICondition (attr_idx c) w []]])
                (eq_unsat st || Empty w)
                (<[attr_idx c := zlen (eq_out st)]> (merged_at st)))
      end
  | _, _ =>
      enc ← encode_members options clause;
      Ok (mkEncQuery (eq_out st ++ [enc])
            (eq_unsat st || ((zlen enc =? 0) && negb (zlen clause =? 0)))
            (merged_at st))
  end.

Fixpoint encode_clauses (options : BitLSMOptions) (cs : list OrClause) (st : enc_query)
    : result enc_query :=
  match cs with
  | [] => Ok st
  | clause :: rest =>
      st' ← encode_clause options clause st; encode_clauses options rest st'
  end.

Definition EncodeQuery (q : BitLSMQuery) (options : BitLSMOptions) : result SABIQuery :=
  st ← encode_clauses options (clause_groups q) (mkEncQuery [] false ∅);
  Ok {| s_clause_groups := eq_out st; unsat := eq_unsat st |}.

(** ** Intervals denote sets of byte strings *)
Definition in_interval (w : ByteInterval) (x : bytes) : Prop :=
  (if lo_open w then blt (lo w) x else ble (lo w) x) /\
  (hi_unbounded w = true \/ if hi_open w then blt x (hi w) else ble x (hi w)).

#[global] Instance in_interval_dec w x : Decision (in_interval w x).
Proof. unfold in_interval. destruct (lo_open w), (hi_open w); apply _. Defined.

(** What a comparison result means for an operator. *)
Definition op_holds (o : CompareOp) (c : comparison) : bool := PassOp o (cmp_int c).

Lemma Empty_sound w x : Empty w = true -> ~ in_interval w x.
Proof.
  unfold Empty, in_interval. destruct (hi_unbounded w); [done|].
  intros E [Hl [?|Hh]]; [done|].
  destruct (bcompare (lo w) (hi w)) eqn:C; [| done |].
  - apply bcompare_eq in C. destruct (lo_open w), (hi_open w); try done; border.
  - assert (blt (hi w) (lo w)) by (unfold blt; by rewrite bcompare_antisym, C).
    destruct (lo_open w), (hi_open w); border.
Qed.

Lemma bcompare_cases a b :
  (bcompare a b = Lt /\ blt a b) \/ (bcompare a b = Eq /\ a = b) \/
  (bcompare a b = Gt /\ blt b a).
Proof.
  unfold blt. rewrite (bcompare_antisym a b). rewrite <- bcompare_eq.
  destruct (bcompare a b); simpl; tauto.
Qed.

Lemma Intersect_lo w o x :
  let w1 := match bcompare (lo o) (lo w) with
    | Gt => mkByteInterval (lo o) (lo_open o) (hi w) (hi_open w) (hi_unbounded w)
    | Eq => mkByteInterval (lo w) (lo_open w || lo_open o) (hi w) (hi_open w)
              (hi_unbounded w)
    | Lt => w
    end in
  (if lo_open w1 then blt (lo w1) x else ble (lo w1) x) <->
  (if lo_open w then blt (lo w) x else ble (lo w) x) /\
  (if lo_open o then blt (lo o) x else ble (lo o) x).
Proof.
  destruct (bcompare_cases (lo o) (lo w)) as [[-> H]|[[-> H]|[-> H]]]; simpl.
  - split; [|tauto]. intros Hx. split; [done|].
    destruct (lo_open w), (lo_open o); border.
  - rewrite H. destruct (lo_open w), (lo_open o); simpl; intuition border.
  - split; [|tauto]. intros Hx. split; [|done].
    destruct (lo_open w), (lo_open o); border.
Qed.

Lemma Intersect_spec w o x :
  in_interval (Intersect w o) x <-> in_interval w x /\ in_interval o x.
Proof.
  unfold in_interval, Intersect. pose proof (Intersect_lo w o x) as Hlo. cbv zeta in Hlo.
  set (w1 := match bcompare (lo o) (lo w) with Eq => _ | Lt => _ | Gt => _ end) in *.
  assert (hi w1 = hi w /\ hi_open w1 = hi_open w /\ hi_unbounded w1 = hi_unbounded w)
    as (Eh & Eo & Eu) by (unfold w1; by destruct (bcompare (lo o) (lo w))).
  clearbody w1. cbv zeta.
  destruct (hi_unbounded o) eqn:Uo; [rewrite Hlo, Eh, Eo, Eu; tauto|].
  destruct (hi_unbounded w1) eqn:U1; rewrite <- Eu; simpl; [rewrite Hlo; naive_solver|].
  destruct (bcompare_cases (hi o) (hi w1)) as [[-> H]|[[-> H]|[-> H]]]; simpl;
    rewrite ?U1, Hlo, <- Eh, <- Eo.
  - destruct (hi_open w1), (hi_open o); intuition (try done; right; border).
  - rewrite H. destruct (hi_open w1), (hi_open o); simpl; intuition (try done; right; border).
  - destruct (hi_open w1), (hi_open o); intuition (try done; right; border).
Qed.

Lemma FromOp_spec o b x : in_interval (FromOp o b) x <-> op_holds o (bcompare x b) = true.
Proof.
  unfold in_interval, op_holds. pose proof (nil_ble x).
  destruct (bcompare_cases x b) as [[-> H1]|[[-> H1]|[-> H1]]]; destruct o; simpl;
    (split; [intros [? [?|?]]; try done; exfalso; border|
             intros Hc; try discriminate Hc; split; try (by left); try right; border]).
Qed.

(** ** Validated queries *)
Record cond_valid (o : BitLSMOptions) (c : QueryCondition) : Prop := {
  cv_idx : 0 <= attr_idx c;
  cv_spec : exists spec, attr_specs o !! Z.to_nat (attr_idx c) = Some spec /\
    comparand_matches (physical_type spec) (value c) = true /\
    (index_type spec = kEquality -> op c = EQUAL);
}.

(** The C++ types of a query's fields. *)
Definition value_wf (v : value_type) : Prop :=
  match v with
  | VInt z => is_s64 z
  | VUint z => is_u64 z
  | VDouble d => is_u64 d
  | VString _ => True
  end.
Definition cond_wf (c : QueryCondition) : Prop := is_u32 (attr_idx c) /\ value_wf (value c).
Definition query_wf (q : BitLSMQuery) : Prop := Forall (Forall cond_wf) (clause_groups q).

Lemma validate_clause_ok o clause :
  Forall cond_wf clause ->
  validate_clause o clause = OK <-> Forall (cond_valid o) clause.
Proof.
  induction 1 as [|c clause [[Hi _] _] _ IH]; [split; by constructor|].
  cbn [validate_clause]. rewrite Forall_cons, <- IH.
  destruct (attr_specs o !! Z.to_nat (attr_idx c)) as [spec|] eqn:Es.
  - destruct (comparand_matches _ _) eqn:Ec; simpl.
    + destruct (bool_decide (index_type spec = kEquality) &&
                negb (bool_decide (op c = EQUAL))) eqn:Eq.
      * split; [done|]. intros [[_ (sp & Hs & _ & Ho)] _].
        rewrite Es in Hs. injection Hs as <-.
        apply andb_prop in Eq as [E1%bool_decide_eq_true E2%negb_true_iff].
        apply bool_decide_eq_false in E2. by destruct E2; apply Ho.
      * split; [intros H; split; [|done]|by intros [_ ?]].
        split; [done|]. exists spec. split; [done|]. split; [done|].
        intros E. apply andb_false_iff in Eq as [E1|E1].
        -- by apply bool_decide_eq_false in E1.
        -- by apply negb_false_iff, bool_decide_eq_true in E1.
    + split; [done|]. intros [[_ (sp & Hs & Hc & _)] _].
      rewrite Es in Hs. injection Hs as <-. congruence.
  - split; [done|]. intros [[_ (sp & Hs & _)] _]. congruence.
Qed.

Lemma Validate_ok q o :
  query_wf q ->
  Validate q o = OK <->
  Forall (fun clause => clause <> [] /\ Forall (cond_valid o) clause) (clause_groups q).
Proof.
  unfold query_wf, Validate. generalize 0 as ci. generalize (clause_groups q) as cs.
  induction cs as [|clause cs IH]; intros ci Hwf; [split; by constructor|].
  apply Forall_cons in Hwf as [Hc Hwf]. cbn [validate_clauses].
  rewrite Forall_cons, <- (IH (ci + 1)) by done. rewrite <- validate_clause_ok by done.
  destruct clause as [|c clause]; [split; [done|by intros [[? _] _]]|].
  destruct (validate_clause o (c :: clause)); (split; [intros H|intros [[_ H1] H2]]); try done.
Qed.

(** ** Both evaluators decide the same OR *)
Definition check_cond (layout : ValueLayout) (buffer : bytes) (c : QueryCondition)
    : result bool :=
  v ← DecodeAttr layout buffer (attr_idx c); EvalCondition c v.

Fixpoint any_cond (layout : ValueLayout) (buffer : bytes) (clause : OrClause) : result bool :=
  match clause with
  | [] => Ok false
  | c :: rest =>
      b ← check_cond layout buffer c;
      if b : bool then Ok true else any_cond layout buffer rest
  end.

(** The decode cache is transparent. *)
Lemma check_clause_any layout buffer clause idx v :
  Forall (fun c => attr_idx c <> UINT32_MAX) clause ->
  idx = UINT32_MAX \/ DecodeAttr layout buffer idx = Ok v ->
  check_clause layout buffer clause idx v = any_cond layout buffer clause.
Proof.
  intros H. revert idx v. induction H as [|c clause Hc _ IH]; intros idx v Hcache; [done|].
  cbn [check_clause any_cond]. unfold check_cond.
  destruct (Z.eqb_spec (attr_idx c) idx) as [E|E]; simpl.
  - destruct Hcache as [->|Hd]; [done|]. rewrite E, Hd. cbn [mbind result_bind].
    destruct (EvalCondition c v) as [[]|]; simpl; [done| |done]. apply IH. by right.
  - destruct (DecodeAttr layout buffer (attr_idx c)) as [v'|] eqn:Ed; [|done].
    cbn [mbind result_bind]. destruct (EvalCondition c v') as [[]|]; simpl; [done| |done].
    apply IH. by right.
Qed.

Lemma lookup_split_specs o c spec :
  0 <= attr_idx c -> attr_specs o !! Z.to_nat (attr_idx c) = Some spec ->
  exists pre post, attr_specs o = pre ++ spec :: post /\ attr_idx c = zlen pre.
Proof.
  intros Hi Hs. apply list_elem_of_split_length in Hs as (pre & post & E & Hl).
  exists pre, post. split; [done|]. unfold zlen. lia.
Qed.

Lemma PassOp_apply o c : PassOp o c = ApplyCompareOp int_operand o c 0.
Proof. by destruct o. Qed.

Section Compiled.
Context (o : BitLSMOptions) (layout : ValueLayout).
Context (Hlay : layout_of (attr_specs o) layout).

(** A compiled predicate evaluates its condition, reading the comparand back
    from the shared arena. *)
Lemma eval_pred_spec c arena p arena' tail cq base :
  cond_valid o c ->
  compile_cond layout c arena = Ok (p, arena') ->
  arena_ cq = arena' ++ tail -> zlen (arena_ cq) < 2 ^ 32 ->
  variable_base_ cq = variable_base layout ->
  null_bitmap_bytes_ cq = null_bitmap_bytes layout ->
  eval_pred cq base p = check_cond layout base c.
Proof.
  intros [Hi (spec & Hs & Hm & _)] Hcomp Ha Hlt Hvb Hnbb.
  destruct (lookup_split_specs o c spec Hi Hs) as (pre & post & Ess & Eidx).
  destruct (lo_at _ _ Hlay pre spec post Ess) as (Hisf & Hsl & Hnb & Hsp).
  unfold compile_cond in Hcomp. rewrite Eidx, Hsp, Hnb, Hsl in Hcomp.
  cbn [mbind result_bind] in Hcomp.
  unfold check_cond, DecodeAttr. rewrite Eidx, Hnb. cbn [mbind result_bind].
  set (nb := if nullable spec then n_null pre else -1) in *.
  set (sl := if IsFixed spec then _ else _) in *.
  assert (p_null_bit p = nb /\ p_slot p = sl /\ p_spec p = spec /\ p_op p = op c /\
          p_is_numeric p = IsNumeric spec) as (En & Esl & Esp & Eop & Eis).
  { destruct (physical_type spec), (value c); simpl in Hcomp; try discriminate Hcomp;
      by injection Hcomp as <- <-. }
  unfold eval_pred. rewrite En, Esl, Esp, Eop, Eis.
  destruct (if 0 <=? nb then IsNullBitSet base nb else Ok false) as [[]|]; simpl; [done| |done].
  rewrite Hisf. cbn [mbind result_bind]. rewrite Hsl, Hsp. cbn [mbind result_bind].
  pose proof (zlen_nonneg arena). pose proof (zlen_nonneg tail).
  assert (Hwant : forall s, value c = VString s ->
    (physical_type spec = kBinary \/ physical_type spec = kVarBinary) ->
    zsub (arena_ cq) (p_soff p) (p_slen p) = Ok s).
  { intros s Ev Hp. rewrite Ev in Hcomp. pose proof (zlen_nonneg s).
    destruct Hp as [Hp|Hp]; rewrite Hp in Hcomp; simpl in Hcomp;
      injection Hcomp as <- <-; cbn [p_soff p_slen]; rewrite Ha, <- app_assoc in *;
      rewrite !zlen_app in Hlt; rewrite !u32_small by (unfold is_u32; lia);
      by apply zsub_app. }
  unfold IsNumeric, IsFixed, EvalCondition, DecodeFixed in *.
  destruct (physical_type spec) eqn:Ep, (value c) as [z|z|d|s] eqn:Ev; try done; simpl in *;
    try (injection Hcomp as <- <-; cbn [p_ival p_uval p_dval]).
  - destruct (8 <? width spec); [done|]. by destruct (zsub base sl (width spec)).
  - destruct (8 <? width spec); [done|]. by destruct (zsub base sl (width spec)).
  - destruct (width spec =? 8); simpl; [by destruct (zsub base sl 8)|].
    by destruct (zsub base sl 4).
  - rewrite (Hwant s) by (done || tauto). destruct (zsub base sl (width spec)); [|done].
    simpl. by rewrite PassOp_apply.
  - rewrite (Hwant s) by (done || tauto). rewrite Hvb, Hnbb.
    destruct (zsub base (null_bitmap_bytes layout + sl * 4) 4); [|done]. simpl.
    destruct (if 0 <? sl then _ else _); [|done]. simpl.
    destruct (zsub base _ _); [|done]. simpl. by rewrite PassOp_apply.
Qed.

(** Compiling appends one predicate per condition and only extends the
    arena. *)
Lemma compile_conds_spec clause preds arena preds' arena' :
  compile_conds layout clause preds arena = Ok (preds', arena') ->
  exists new ext, preds' = preds ++ new /\ arena' = arena ++ ext /\
    length new = length clause /\
    forall cq base, Forall (cond_valid o) clause ->
      variable_base_ cq = variable_base layout ->
      null_bitmap_bytes_ cq = null_bitmap_bytes layout ->
      (exists tail, arena_ cq = arena' ++ tail) -> zlen (arena_ cq) < 2 ^ 32 ->
      forall pl pr, preds_ cq = pl ++ new ++ pr ->
      eval_range cq base (zlen pl) (length new) = any_cond layout base clause.
Proof.
  revert preds arena. induction clause as [|c clause IH]; intros preds arena H.
  - injection H as <- <-. exists [], []. rewrite !app_nil_r. by repeat split.
  - cbn [compile_conds] in H. apply result_bind_ok in H as ([p a1] & Hc & H).
    destruct (IH _ _ H) as (new & ext & -> & -> & Hlen & Hev).
    assert (exists e1, a1 = arena ++ e1) as [e1 ->].
    { unfold compile_cond in Hc. inv_ok.
      destruct (physical_type _); inv_ok; simplify_eq; eexists; (by rewrite app_nil_r) || done. }
    exists (p :: new), (e1 ++ ext). rewrite <- !app_assoc. split; [done|]. split; [done|].
    split; [simpl; congruence|].
    intros cq base Hval Hvb Hnbb [tail Ha] Hlt pl pr Hp.
    apply Forall_cons in Hval as [Hv Hval]. cbn [length eval_range any_cond].
    unfold zlen. rewrite (zget_nat _ _ p) by (rewrite Hp; by apply list_lookup_middle).
    cbn [mbind result_bind].
    rewrite (eval_pred_spec c arena p (arena ++ e1) (ext ++ tail) cq base) by
      (try done; rewrite Ha; by rewrite <- !app_assoc).
    destruct (check_cond layout base c) as [[]|]; simpl; [done| |done].
    rewrite <- (Hev cq base Hval Hvb Hnbb) with (pl := pl ++ [p]) (pr := pr).
    + f_equal. unfold zlen. rewrite length_app. simpl. lia.
    + exists tail. rewrite Ha. by rewrite <- !app_assoc.
    + done.
    + rewrite Hp. by rewrite <- app_assoc.
Qed.

Lemma compile_clauses_spec cs preds ranges arena preds' ranges' arena' :
  compile_clauses layout cs preds ranges arena = Ok (preds', ranges', arena') ->
  exists new rs ext, preds' = preds ++ new /\ ranges' = ranges ++ rs /\
    arena' = arena ++ ext /\
    forall cq base, Forall (Forall (cond_valid o)) cs ->
      variable_base_ cq = variable_base layout ->
      null_bitmap_bytes_ cq = null_bitmap_bytes layout ->
      arena_ cq = arena' -> zlen (arena_ cq) < 2 ^ 32 ->
      preds_ cq = preds' -> zlen (preds_ cq) < 2 ^ 32 ->
      Forall (Forall (fun c => attr_idx c <> UINT32_MAX)) cs ->
      eval_clauses cq base rs = check_clauses layout base cs.
Proof.
  revert preds ranges arena. induction cs as [|clause cs IH]; intros preds ranges arena H.
  - injection H as <- <- <-. exists [], [], []. rewrite !app_nil_r. by repeat split.
  - cbn [compile_clauses] in H. apply result_bind_ok in H as ([p1 a1] & Hc & H).
    destruct (compile_conds_spec _ _ _ _ _ Hc) as (new1 & ext1 & -> & -> & Hlen & Hev1).
    destruct (IH _ _ _ H) as (new & rs & ext & -> & -> & -> & Hev).
    exists (new1 ++ new), (mkClauseRange (u32 (zlen preds)) (u32 (zlen (preds ++ new1))) :: rs),
      (ext1 ++ ext).
    rewrite <- !app_assoc. split; [done|]. split; [done|]. split; [done|].
    intros cq base Hval Hvb Hnbb Ha Hlt Hp Hpl Hidx.
    apply Forall_cons in Hval as [Hv Hval]. apply Forall_cons in Hidx as [Hi Hidx].
    cbn [eval_clauses check_clauses range_begin range_end].
    pose proof (zlen_nonneg preds). pose proof (zlen_nonneg new1). pose proof (zlen_nonneg new).
    rewrite Hp, !zlen_app in Hpl. rewrite zlen_app.
    rewrite !u32_small by (unfold is_u32; lia).
    replace (Z.to_nat (zlen preds + zlen new1 - zlen preds)) with (length new1)
      by (unfold zlen; lia).
    rewrite (Hev1 cq base Hv Hvb Hnbb) with (pr := new); try done.
    + rewrite check_clause_any by (done || by left).
      destruct (any_cond layout base clause) as [[]|]; simpl; try done.
      apply Hev; try done; rewrite ?Ha, ?Hp, <- ?app_assoc; try done.
      rewrite !zlen_app. lia.
    + exists ext. by rewrite Ha, <- !app_assoc.
Qed.
End Compiled.

(** [ByteInterval]: an operator's interval holds exactly the byte strings
    that compare so with the comparand, [Intersect] is set intersection, and an
    interval reported empty contains no byte string. *)
Theorem ByteInterval_sets w v op b x :
  (in_interval (FromOp op b) x <-> PassOp op (cmp_int (bcompare x b)) = true) /\
  (in_interval (Intersect w v) x <-> in_interval w x /\ in_interval v x) /\
  (Empty w = true -> ~ in_interval w x).
Proof.
  split; [apply FromOp_spec|]. split; [apply Intersect_spec|]. apply Empty_sound.
Qed.
