(* ===== verification/QuerySpec.v ===== *)
(** * What queries mean

    The theorems on [bit_lsm_query.h] and [bit_lsm_query.cpp]: the
    pre-resolved evaluator agrees with the reference one, and the translation
    into SABI's byte domain keeps a query's meaning. [query_sat] is the
    meaning of an encoded query; the SSTable index is verified against it. *)
From Stdlib Require Import ZArith Lia Strings.Byte Strings.String.
From stdpp Require Import base numbers strings list gmap.
From S2P Require Import Prelude Floats Options Row Okey Query.

(** ** Compiling a validated query *)

(** The sizes of a query that the evaluator keeps in 32 bits. *)
Definition cond_str (c : QueryCondition) : bytes :=
  match value c with VString s => s | _ => [] end.
Definition query_conds (q : BitLSMQuery) : list QueryCondition := concat (clause_groups q).
Definition query_fits (q : BitLSMQuery) : Prop :=
  zlen (query_conds q) < 2 ^ 32 /\ zlen (concat (map cond_str (query_conds q))) < 2 ^ 32.

Lemma Validate_conds q o :
  query_wf q -> Validate q o = OK -> Forall (Forall (cond_valid o)) (clause_groups q).
Proof.
  intros Hwf Hv. apply Validate_ok in Hv; [|done].
  eapply Forall_impl; [exact Hv|]. by intros ? [_ ?].
Qed.

Lemma cond_valid_idx o c : cond_valid o c -> 0 <= attr_idx c < zlen (attr_specs o).
Proof.
  intros [Hi (spec & Hs & _)]. apply lookup_lt_Some in Hs. unfold zlen. lia.
Qed.

Section Compiles.
Context (o : BitLSMOptions) (layout : ValueLayout).
Context (Hlay : layout_of (attr_specs o) layout).

Lemma compile_cond_ok c arena :
  cond_valid o c -> exists p, compile_cond layout c arena = Ok (p, arena ++ cond_str c).
Proof.
  intros [Hi (spec & Hs & Hm & _)].
  destruct (lookup_split_specs o c spec Hi Hs) as (pre & post & Ess & Eidx).
  destruct (lo_at _ _ Hlay pre spec post Ess) as (_ & Hsl & Hnb & Hsp).
  unfold compile_cond, cond_str. rewrite Eidx, Hsp, Hnb, Hsl. cbn [mbind result_bind].
  destruct (physical_type spec), (value c); try discriminate Hm; simpl;
    rewrite ?app_nil_r; by eexists.
Qed.

Lemma compile_conds_ok clause preds arena :
  Forall (cond_valid o) clause ->
  exists preds', compile_conds layout clause preds arena =
    Ok (preds', arena ++ concat (map cond_str clause)) /\
    length preds' = (length preds + length clause)%nat.
Proof.
  intros H. revert preds arena. induction H as [|c clause Hc _ IH]; intros preds arena.
  - exists preds. simpl. rewrite app_nil_r. split; [done|lia].
  - cbn [compile_conds map concat]. destruct (compile_cond_ok c arena Hc) as [p ->].
    cbn [mbind result_bind]. destruct (IH (preds ++ [p]) (arena ++ cond_str c)) as (ps & -> & Hl).
    exists ps. rewrite app_assoc. split; [done|]. rewrite Hl, length_app. simpl. lia.
Qed.

Lemma compile_clauses_ok cs preds ranges arena :
  Forall (Forall (cond_valid o)) cs ->
  exists preds' ranges', compile_clauses layout cs preds ranges arena =
    Ok (preds', ranges', arena ++ concat (map cond_str (concat cs))) /\
    length preds' = (length preds + length (concat cs))%nat.
Proof.
  intros H. revert preds ranges arena.
  induction H as [|clause cs Hc _ IH]; intros preds ranges arena.
  - exists preds, ranges. simpl. rewrite app_nil_r. split; [done|lia].
  - cbn [compile_clauses concat]. destruct (compile_conds_ok clause preds arena Hc) as (p1 & -> & H1).
    cbn [mbind result_bind].
    edestruct IH as (ps & rs & -> & Hl). exists ps, rs.
    rewrite map_app, concat_app, app_assoc. split; [done|].
    rewrite Hl, H1, length_app. lia.
Qed.
End Compiles.

(** A query on the row of [Row]: [-10 < a0 AND (a0 <= 0 OR a1 = "ab")]. *)
Definition demo_query : BitLSMQuery :=
  mkBitLSMQuery [[mkQueryCondition 0 GREATER (VInt (-10))];
                 [mkQueryCondition 0 LESS_EQUAL (VInt 0); mkQueryCondition 1 EQUAL (VString [x61; x62])]].
Lemma demo_query_wf : query_wf demo_query.
Proof. repeat constructor; unfold value_wf, is_u32, is_s64; cbn; lia. Qed.
Lemma demo_query_fits : query_fits demo_query.
Proof. split; vm_compute; done. Qed.
Lemma demo_schema_fits : schema_fits (attr_specs demo_options).
Proof. split; vm_compute; done. Qed.
Lemma demo_attr_num : is_u32 (attr_num demo_options).
Proof. split; vm_compute; done. Qed.

Lemma compiled_agrees q o :
  schema_ok o -> schema_fits (attr_specs o) -> is_u32 (attr_num o) ->
  query_wf q -> Validate q o = OK -> query_fits q ->
  exists layout cq, mkLayout o = Ok layout /\ CompileQuery q o = Ok cq /\
    forall value, Eval cq value = CheckCondition q value layout.
Proof.
  intros Hok Hfit Hnum Hwf Hv [Hn Ha]. destruct (mkLayout_spec o Hok Hfit) as (lay & El & Hlay).
  pose proof (Validate_conds q o Hwf Hv) as Hval.
  destruct (compile_clauses_ok o lay Hlay (clause_groups q) [] [] [] Hval) as (ps & rs & Ec & Hlen).
  exists lay. unfold CompileQuery. rewrite El. cbn [mbind result_bind]. rewrite Ec.
  eexists. split; [done|]. split; [done|]. intros v.
  destruct (compile_clauses_spec o lay Hlay _ _ _ _ _ _ _ Ec)
    as (new & rs' & ext & E1 & E2 & E3 & Hev). simpl in E1, E2, E3. subst.
  unfold Eval, CheckCondition. cbn [clauses_]. rewrite Hev; try done.
  - by destruct (clause_groups q).
  - cbn [preds_]. unfold zlen, query_conds in *. rewrite Hlen. simpl. lia.
  - eapply Forall_impl; [exact Hval|]. intros cl Hcl. eapply Forall_impl; [exact Hcl|].
    intros c Hc%cond_valid_idx. destruct Hok as [Hs _]. unfold is_u32, UINT32_MAX in *. lia.
Qed.

(** (C24) The pre-resolved evaluator used on the scan path decides every row
    exactly as the reference evaluation does: for every query that [Validate]
    accepts, [CompiledQuery]'s constructor succeeds, and [Eval] agrees with
    [CheckCondition] on every byte string, malformed rows included. *)
Theorem CompiledQuery_agrees q o :
  schema_ok o -> schema_fits (attr_specs o) -> is_u32 (attr_num o) ->
  query_wf q -> Validate q o = OK -> query_fits q ->
  exists layout cq, mkLayout o = Ok layout /\ CompileQuery q o = Ok cq /\
    forall value, Eval cq value = CheckCondition q value layout.
Proof. apply compiled_agrees. Qed.

Lemma CompiledQuery_agrees_witness : exists layout cq,
  mkLayout demo_options = Ok layout /\ CompileQuery demo_query demo_options = Ok cq /\
  forall value, Eval cq value = CheckCondition demo_query value layout.
Proof.
  exact (CompiledQuery_agrees demo_query demo_options demo_schema_ok demo_schema_fits demo_attr_num
    demo_query_wf eq_refl demo_query_fits).
Defined.

(** ** The meaning of an encoded query *)
Definition cond_sat (types : list IndexType) (enc : list EncodedAttr) (c : SABICondition) : bool :=
  match types !! Z.to_nat (s_attr_idx c), enc !! Z.to_nat (s_attr_idx c) with
  | Some kRange, Some (Some b) => bool_decide (in_interval (win c) b)
  | Some kEquality, Some (Some b) => beqb b (s_bytes c)
  | _, _ => false
  end.
Definition clause_sat types enc (cl : SABIOrClause) : bool := existsb (cond_sat types enc) cl.
Definition query_sat types enc (q : SABIQuery) : bool :=
  negb (unsat q) && forallb (clause_sat types enc) (s_clause_groups q).

(** A native condition read on the encoded attributes. *)
Definition byte_cond (enc : list EncodedAttr) (c : QueryCondition) : bool :=
  match enc !! Z.to_nat (attr_idx c), ComparandBytes (value c) with
  | Some (Some b), Ok cb => op_holds (op c) (bcompare b cb)
  | _, _ => false
  end.
Definition byte_clause enc (cl : OrClause) : bool := existsb (byte_cond enc) cl.

Lemma ComparandBytes_ok v : exists b, ComparandBytes v = Ok b.
Proof. destruct v; by eexists. Qed.

Lemma op_holds_EQUAL a b : op_holds EQUAL (bcompare a b) = beqb a b.
Proof.
  unfold op_holds, beqb. by destruct (bcompare a b).
Qed.

Lemma Empty_unsat w b : Empty w = true -> bool_decide (in_interval w b) = false.
Proof. intros H. apply bool_decide_eq_false. by apply Empty_sound. Qed.

Lemma FromOp_bool o b x : bool_decide (in_interval (FromOp o b) x) = op_holds o (bcompare x b).
Proof. apply eq_iff_eq_true. by rewrite bool_decide_eq_true, FromOp_spec. Qed.

Section Encode.
Context (o : BitLSMOptions) (enc : list EncodedAttr).
Local Abbreviation types := (index_types (FromOptions o)).

Lemma types_lookup c spec :
  attr_specs o !! Z.to_nat (attr_idx c) = Some spec ->
  types !! Z.to_nat (attr_idx c) = Some (index_type spec).
Proof. intros H. unfold FromOptions. cbn [index_types]. by rewrite list_lookup_fmap, H. Qed.

(** The encoded form of one condition means what the condition does. *)
Lemma cond_sat_range c spec b :
  attr_specs o !! Z.to_nat (attr_idx c) = Some spec -> index_type spec = kRange ->
  ComparandBytes (value c) = Ok b ->
  cond_sat types enc (mkSABICondition (attr_idx c) (FromOp (op c) b) []) = byte_cond enc c.
Proof.
  intros Hs Hr Hb. unfold cond_sat, byte_cond. cbn [s_attr_idx win].
  rewrite (types_lookup c spec Hs), Hr, Hb.
  destruct (enc !! _) as [[x|]|]; [apply FromOp_bool|done..].
Qed.

Lemma cond_sat_equality c spec b :
  attr_specs o !! Z.to_nat (attr_idx c) = Some spec -> index_type spec = kEquality ->
  op c = EQUAL -> ComparandBytes (value c) = Ok b ->
  cond_sat types enc (mkSABICondition (attr_idx c) full_interval b) = byte_cond enc c.
Proof.
  intros Hs He Ho Hb. unfold cond_sat, byte_cond. cbn [s_attr_idx s_bytes].
  rewrite (types_lookup c spec Hs), He, Hb, Ho.
  destruct (enc !! _) as [[x|]|]; [symmetry; apply op_holds_EQUAL|done..].
Qed.

Lemma cond_valid_zget c :
  cond_valid o c -> exists spec, zget (attr_specs o) (attr_idx c) = Ok spec /\
    attr_specs o !! Z.to_nat (attr_idx c) = Some spec /\
    (index_type spec = kEquality -> op c = EQUAL).
Proof.
  intros [Hi (spec & Hs & _ & He)]. exists spec. split; [|done].
  by apply zget_lookup.
Qed.

Lemma encode_members_spec clause :
  Forall (cond_valid o) clause ->
  exists ms, encode_members o clause = Ok ms /\
    clause_sat types enc ms = byte_clause enc clause.
Proof.
  induction 1 as [|c clause Hc _ (ms & Em & IH)]; [by exists []|].
  destruct (cond_valid_zget c Hc) as (spec & Hz & Hs & He).
  destruct (ComparandBytes_ok (value c)) as [b Hb].
  cbn [encode_members]. rewrite Hz, Hb, Em. cbn [mbind result_bind].
  unfold clause_sat, byte_clause in *. cbn [existsb]. rewrite <- IH.
  destruct (index_type spec) eqn:Ei.
  - rewrite bool_decide_eq_false_2 by done. eexists. split; [done|]. cbn [existsb].
    by rewrite (cond_sat_equality c spec b) by auto.
  - rewrite bool_decide_eq_true_2 by done.
    pose proof (cond_sat_range c spec b Hs Ei Hb) as Hsat.
    destruct (Empty _) eqn:Ee; eexists; (split; [done|]); cbn [existsb].
    + rewrite <- Hsat. unfold cond_sat. cbn [s_attr_idx win].
      rewrite (types_lookup c spec Hs), Ei.
      destruct (enc !! _) as [[x|]|]; [by rewrite Empty_unsat|done..].
    + by rewrite Hsat.
Qed.

(** Slots recorded in [merged_at] hold one ordered condition each. *)
Definition merged_ok (st : enc_query) : Prop :=
  forall a k, merged_at st !! a = Some k ->
    0 <= k /\ types !! Z.to_nat a = Some kRange /\
    exists c, eq_out st !! Z.to_nat k = Some [c] /\ s_attr_idx c = a.

Definition st_sat (st : enc_query) : bool :=
  negb (eq_unsat st) && forallb (clause_sat types enc) (eq_out st).

(** Strengthening one clause by [g] strengthens the conjunction by [g]. *)
Lemma forallb_strengthen {A} (f : A -> bool) (l : list A) i x y g :
  l !! i = Some x -> f y = f x && g -> forallb f (<[i := y]> l) = forallb f l && g.
Proof.
  intros H E. revert i H. induction l as [|a l IH]; intros [|i] H; try discriminate H; simpl.
  - injection H as ->. rewrite E. by destruct (f x), g, (forallb f l).
  - by rewrite IH, andb_assoc.
Qed.

Lemma cond_sat_Intersect c w :
  types !! Z.to_nat (s_attr_idx c) = Some kRange ->
  cond_sat types enc (mkSABICondition (s_attr_idx c) (Intersect (win c) w) (s_bytes c)) =
  cond_sat types enc c && cond_sat types enc (mkSABICondition (s_attr_idx c) w []).
Proof.
  intros Ht. unfold cond_sat. cbn [s_attr_idx win]. rewrite Ht.
  destruct (enc !! _) as [[x|]|]; [|done..].
  apply eq_iff_eq_true. rewrite andb_true_iff, !bool_decide_eq_true. apply Intersect_spec.
Qed.

(** An empty window is never satisfied, so the [unsat] flag changes nothing
    but the work done. *)
Lemma cond_sat_Empty c : 
  types !! Z.to_nat (s_attr_idx c) = Some kRange -> Empty (win c) = true ->
  cond_sat types enc c = false.
Proof.
  intros Ht He. unfold cond_sat. rewrite Ht.
  destruct (enc !! _) as [[x|]|]; [by apply Empty_unsat|done..].
Qed.

Lemma merge_into st c k cl w :
  merged_ok st -> merged_at st !! attr_idx c = Some k ->
  cl = mkSABICondition (attr_idx c) w [] ->
  exists st', 
    ('(out', w') ← intersect_at (eq_out st) k w;
     Ok (mkEncQuery out' (eq_unsat st || Empty w') (merged_at st))) = Ok st' /\
    merged_ok st' /\ st_sat st' = st_sat st && cond_sat types enc cl.
Proof.
  intros Hm Hk ->. destruct (Hm _ _ Hk) as (Hk0 & Ht & sc & Hout & Hidx).
  pose proof (lookup_lt_Some _ _ _ Hout) as Hlt.
  unfold intersect_at. rewrite (proj2 (zget_lookup _ _ _)) by (split; eassumption).
  cbn [mbind result_bind].
  rewrite zset_okZ by done. cbn [mbind result_bind].
  set (sc' := mkSABICondition _ _ _). eexists. split; [done|]. split.
  - intros a k' Hk'. destruct (Hm _ _ Hk') as (? & ? & c' & Hc' & Hi').
    split; [done|]. split; [done|]. cbn [eq_out].
    destruct (decide (Z.to_nat k' = Z.to_nat k)) as [E|E].
    + rewrite E in *. exists sc'. rewrite list_lookup_insert_eq by done.
      split; [done|]. simpl. congruence.
    + rewrite list_lookup_insert_ne by done. by exists c'.
  - rewrite <- Hidx in *. unfold st_sat. cbn [eq_unsat eq_out].
    assert (clause_sat types enc [sc'] = clause_sat types enc [sc] &&
      cond_sat types enc (mkSABICondition (s_attr_idx sc) w [])) as Hcl.
    { unfold clause_sat. cbn [existsb]. rewrite !orb_false_r.
      by apply cond_sat_Intersect. }
    rewrite (forallb_strengthen _ _ _ _ _ _ Hout Hcl).
    pose proof (cond_sat_Empty sc' Ht) as Hemp.
    destruct (Empty _) eqn:Ee; [rewrite orb_true_r|by rewrite orb_false_r, andb_assoc].
    cbn [negb andb]. symmetry. rewrite <- andb_assoc, <- (forallb_strengthen _ _ _ _ _ _ Hout Hcl).
    apply andb_false_iff. right. apply not_true_iff_false. intros Hall.
    rewrite forallb_forall in Hall. specialize (Hall [sc']).
    unfold clause_sat in Hall. cbn [existsb] in Hall. rewrite Hemp in Hall by done.
    discriminate Hall. apply list_elem_of_In, list_elem_of_lookup_2 with (Z.to_nat k).
    by apply list_lookup_insert_eq.
Qed.

Lemma push_clause out uns m cl extra (empty : bool) :
  (empty = true -> clause_sat types enc cl = false) ->
  clause_sat types enc cl = extra ->
  st_sat (mkEncQuery (out ++ [cl]) (uns || empty) m) =
  (negb uns && forallb (clause_sat types enc) out) && extra.
Proof.
  intros He <-. unfold st_sat. cbn [eq_unsat eq_out]. rewrite forallb_app. cbn [forallb].
  rewrite andb_true_r. destruct empty; [rewrite He, !andb_false_r by done; done|].
  by rewrite orb_false_r, andb_assoc.
Qed.

Lemma merged_ok_push out uns uns' m cl :
  merged_ok (mkEncQuery out uns m) -> merged_ok (mkEncQuery (out ++ [cl]) uns' m).
Proof.
  intros Hm a k Hk. destruct (Hm a k Hk) as (? & ? & c & Hc & ?). split; [done|]. split; [done|].
  exists c. split; [|done]. by apply lookup_app_l_Some.
Qed.

(** A lone ordered condition opens a slot of its own, or joins the one its
    attribute already has. *)
Lemma encode_clause_singleton c spec st :
  zget (attr_specs o) (attr_idx c) = Ok spec -> index_type spec = kRange ->
  merged_ok st ->
  exists st', encode_clause o [c] st = Ok st' /\ merged_ok st' /\
    st_sat st' = st_sat st && byte_clause enc [c].
Proof.
  intros Hz Ei Hm. pose proof (proj2 (proj1 (zget_lookup _ _ _) Hz)) as Hs.
  destruct (ComparandBytes_ok (value c)) as [b Hb].
  pose proof (cond_sat_range c spec b Hs Ei Hb) as Hsat.
  unfold encode_clause. rewrite Hz. cbn [mbind result_bind].
  rewrite (bool_decide_eq_true_2 _ Ei), Hb. cbn [mbind result_bind].
  unfold byte_clause. cbn [existsb]. rewrite orb_false_r, <- Hsat.
  destruct (merged_at st !! attr_idx c) as [k|] eqn:Ek.
  - destruct (merge_into st c k _ (FromOp (op c) b) Hm Ek eq_refl) as (st' & E & Hm' & Hs').
    exists st'. split; [exact E|done].
  - eexists. split; [done|]. split.
    + intros a k. cbn [merged_at]. rewrite lookup_insert_Some. intros [[<- <-]|[_ Hk]].
      * split; [apply zlen_nonneg|]. split; [by rewrite (types_lookup c spec Hs), Ei|].
        eexists. unfold zlen. rewrite Nat2Z.id. split; [by apply list_lookup_middle|done].
      * by apply (merged_ok_push _ (eq_unsat st) false (merged_at st)).
    + apply push_clause.
      * intros He. unfold clause_sat. cbn [existsb]. rewrite orb_false_r.
        apply cond_sat_Empty; [by rewrite <- Ei; apply types_lookup|done].
      * unfold clause_sat. cbn [existsb]. apply orb_false_r.
Qed.

Lemma encode_clause_general clause st ms :
  encode_members o clause = Ok ms -> clause_sat types enc ms = byte_clause enc clause ->
  merged_ok st ->
  let st' := mkEncQuery (eq_out st ++ [ms])
    (eq_unsat st || ((zlen ms =? 0) && negb (zlen clause =? 0))) (merged_at st) in
  merged_ok st' /\ st_sat st' = st_sat st && byte_clause enc clause.
Proof.
  intros Em Hms Hm st'. split.
  - by apply (merged_ok_push _ (eq_unsat st)); destruct st.
  - apply push_clause; [|done]. intros [He _]%andb_prop.
    apply Z.eqb_eq, zlen_0_inv in He. by subst ms.
Qed.

Lemma encode_clause_spec clause st :
  Forall (cond_valid o) clause -> merged_ok st ->
  exists st', encode_clause o clause st = Ok st' /\ merged_ok st' /\
    st_sat st' = st_sat st && byte_clause enc clause.
Proof.
  intros Hv Hm. destruct (encode_members_spec clause Hv) as (ms & Em & Hms).
  pose proof (encode_clause_general clause st ms Em Hms Hm) as Hgen. cbv zeta in Hgen.
  destruct clause as [|c [|c2 clause]].
  - unfold encode_clause. rewrite Em. by eexists.
  - apply Forall_cons in Hv as [Hc _]. destruct (cond_valid_zget c Hc) as (spec & Hz & Hs & _).
    destruct (index_type spec) eqn:Ei.
    + unfold encode_clause. rewrite Hz. cbn [mbind result_bind].
      rewrite bool_decide_eq_false_2 by congruence. rewrite Em. by eexists.
    + by apply (encode_clause_singleton c spec).
  - unfold encode_clause. rewrite Em. by eexists.
Qed.

Lemma encode_clauses_spec cs st :
  Forall (Forall (cond_valid o)) cs -> merged_ok st ->
  exists st', encode_clauses o cs st = Ok st' /\
    st_sat st' = st_sat st && forallb (byte_clause enc) cs.
Proof.
  intros H. revert st. induction H as [|clause cs Hc _ IH]; intros st Hm.
  - exists st. split; [done|]. by rewrite andb_true_r.
  - cbn [encode_clauses forallb]. destruct (encode_clause_spec clause st Hc Hm) as (s1 & -> & Hm1 & E1).
    cbn [mbind result_bind]. destruct (IH s1 Hm1) as (st' & -> & E). exists st'.
    split; [done|]. by rewrite E, E1, andb_assoc.
Qed.

Lemma EncodeQuery_bytes q :
  Forall (Forall (cond_valid o)) (clause_groups q) ->
  exists sq, EncodeQuery q o = Ok sq /\
    query_sat types enc sq = forallb (byte_clause enc) (clause_groups q).
Proof.
  intros Hv. unfold EncodeQuery.
  destruct (encode_clauses_spec (clause_groups q) (mkEncQuery [] false ∅) Hv) as (st & -> & E).
  { by intros a k. }
  eexists. split; [done|]. exact E.
Qed.
End Encode.

(** *** Encoded conditions name attributes of the schema *)
Definition attrs_in (n : Z) (cs : list SABIOrClause) : Prop :=
  Forall (Forall (fun c => 0 <= s_attr_idx c < n)) cs.

Lemma encode_members_in o clause ms :
  Forall (cond_valid o) clause -> encode_members o clause = Ok ms ->
  Forall (fun c => 0 <= s_attr_idx c < zlen (attr_specs o)) ms.
Proof.
  intros Hv. revert ms. induction Hv as [|c clause Hc _ IH]; intros ms E; cbn [encode_members] in E.
  { by injection E as <-. }
  apply result_bind_ok in E as (spec & _ & E). apply result_bind_ok in E as (b & _ & E).
  apply result_bind_ok in E as (enc & Ee & E). specialize (IH enc Ee). apply cond_valid_idx in Hc.
  destruct (bool_decide _); [destruct (Empty _)|]; injection E as <-; try done; by constructor.
Qed.

Lemma intersect_at_in n out k w out' w' :
  attrs_in n out -> intersect_at out k w = Ok (out', w') -> attrs_in n out'.
Proof.
  intros Ho E. unfold intersect_at in E. apply result_bind_ok in E as (cl & Hcl & E).
  apply zget_lookup in Hcl as [Hk Hcl]. destruct cl as [|c rest]; [done|].
  apply result_bind_ok in E as (out1 & E1 & [= <- <-]).
  pose proof (lookup_lt_Some _ _ _ Hcl). rewrite zset_okZ in E1 by (unfold zlen; lia). injection E1 as <-.
  apply Forall_insert; [done|]. pose proof (proj1 (Forall_lookup _ _) Ho _ _ Hcl) as [? ?]%Forall_cons.
  by constructor.
Qed.

Lemma encode_clause_in o clause st st' :
  Forall (cond_valid o) clause -> attrs_in (zlen (attr_specs o)) (eq_out st) ->
  encode_clause o clause st = Ok st' -> attrs_in (zlen (attr_specs o)) (eq_out st').
Proof.
  intros Hv Ho E. unfold encode_clause in E. apply result_bind_ok in E as (ord & _ & E).
  assert ((enc ← encode_members o clause;
     Ok (mkEncQuery (eq_out st ++ [enc]) (eq_unsat st || ((zlen enc =? 0) && negb (zlen clause =? 0)))
           (merged_at st))) = Ok st' -> attrs_in (zlen (attr_specs o)) (eq_out st')) as Hgen.
  { intros E'. apply result_bind_ok in E' as (enc & Ee & [= <-]). apply Forall_app. split; [done|].
    repeat constructor. by eapply encode_members_in. }
  destruct ord; [|by apply Hgen]. destruct clause as [|c clause]; [by apply Hgen|].
  apply result_bind_ok in E as (b & _ & E). apply Forall_cons in Hv as [Hc%cond_valid_idx _].
  destruct (merged_at st !! attr_idx c) as [k|].
  - apply result_bind_ok in E as ([out' w'] & Ei & [= <-]). by eapply intersect_at_in.
  - injection E as <-. apply Forall_app. split; [done|].
    constructor; [|constructor]. by constructor.
Qed.

Lemma EncodeQuery_attrs o q sq :
  Forall (Forall (cond_valid o)) (clause_groups q) -> EncodeQuery q o = Ok sq ->
  attrs_in (zlen (attr_specs o)) (s_clause_groups sq).
Proof.
  intros Hv E. unfold EncodeQuery in E. apply result_bind_ok in E as (st & E & [= <-]).
  cbn [s_clause_groups].
  assert (attrs_in (zlen (attr_specs o)) (eq_out (mkEncQuery [] false ∅))) as Ho by constructor.
  revert E Ho. generalize (mkEncQuery [] false ∅). induction Hv as [|cl cs Hcl _ IH]; intros s0 E Ho;
    cbn [encode_clauses] in E; [by injection E as <-|].
  apply result_bind_ok in E as (s1 & E1 & E). eapply IH; [exact E|]. by eapply encode_clause_in.
Qed.

(** ** Native conditions and their byte form *)
Definition value_nan (v : value_type) : bool :=
  match v with VDouble d => f64_nan d | _ => false end.
Definition view_nan (v : AttrView) : bool :=
  match v with ADouble d => f64_nan d | _ => false end.

(** The views a column of spec [s] decodes to. *)
Definition view_ok (s : AttrSpec) (v : AttrView) : Prop :=
  match v with
  | ANull => True
  | AInt z => physical_type s = kInt /\ is_s64 z
  | AUint z => physical_type s = kUint /\ is_u64 z
  | ADouble d => physical_type s = kFloat /\ is_u64 d
  | AString _ => physical_type s = kBinary \/ physical_type s = kVarBinary
  end.

Lemma DecodeFixed_wf buf src s v :
  IsFixed s = true -> DecodeFixed buf src s = Ok v -> view_ok s v.
Proof.
  unfold IsFixed, DecodeFixed. intros Hf H.
  destruct (physical_type s) eqn:Ep; try discriminate Hf.
  - destruct (Z.ltb_spec 8 (width s)); [discriminate|]. inv_ok. split; [done|]. apply s64_range.
  - destruct (Z.ltb_spec 8 (width s)); [discriminate|]. apply result_bind_ok in H as (b & Hb & H).
    apply zsub_length in Hb. inv_ok. split; [done|]. apply le_dec_u64. lia.
  - destruct (width s =? 8); apply result_bind_ok in H as (b & Hb & H);
      apply zsub_length in Hb; inv_ok; (split; [done|]).
    + apply le_dec_u64. lia.
    + apply cast_f64_range.
  - inv_ok. by left.
Qed.

Lemma DecodeAttr_wf ss lay buf pre s post v :
  layout_of ss lay -> ss = pre ++ s :: post ->
  DecodeAttr lay buf (zlen pre) = Ok v -> view_ok s v.
Proof.
  intros Hlay Ess H. destruct (lo_at _ _ Hlay pre s post Ess) as (Hfx & Hsl & Hnb & Hsp).
  unfold DecodeAttr in H. rewrite Hnb in H. cbn [mbind result_bind] in H.
  apply result_bind_ok in H as ([] & _ & H); [by inv_ok|].
  rewrite Hfx in H. cbn [mbind result_bind] in H. rewrite Hsl, Hsp in H.
  cbn [mbind result_bind] in H. destruct (IsFixed s) eqn:Ef.
  - by apply DecodeFixed_wf in H.
  - apply IsFixed_false in Ef. inv_ok. by right.
Qed.

Lemma apply_int o x y : ApplyCompareOp int_operand o x y = op_holds o (Z.compare x y).
Proof.
  unfold op_holds. destruct o; simpl;
    destruct (Z.compare_spec x y); simpl; lia.
Qed.

Lemma apply_double o a b : is_u64 a -> is_u64 b -> f64_nan a = false -> f64_nan b = false ->
  ApplyCompareOp double_operand o a b = op_holds o (Z.compare (f64_sval a) (f64_sval b)).
Proof.
  intros Ha Hb Na Nb. rewrite <- apply_int.
  destruct o; simpl; by rewrite ?f64_eqb_sval, ?f64_leb_sval, ?f64_ltb_sval.
Qed.

Lemma apply_double_nan o a b : f64_nan a = true \/ f64_nan b = true ->
  ApplyCompareOp double_operand o a b = false.
Proof.
  intros H. destruct (f64_cmp_nan a b H) as (E1 & E2 & E3).
  destruct (f64_cmp_nan b a ltac:(tauto)) as (_ & E4 & E5).
  destruct o; simpl; congruence.
Qed.

(** What a condition says of an encoded attribute. *)
Definition enc_cond (c : QueryCondition) (e : EncodedAttr) : bool :=
  match e, ComparandBytes (value c) with
  | Some b, Ok cb => op_holds (op c) (bcompare b cb)
  | _, _ => false
  end.

Ltac red_cond :=
  cbn [mbind result_bind vget_int vget_uint vget_double vget_string encode_view NumericToOkey
       ComparandBytes NumericToOkey_comparand view_nan value_nan].

(** One condition against one column: the native comparison implies the one on
    bytes, and equals it unless a NaN is compared. *)
Lemma eval_cond_bytes s c v :
  view_ok s v -> comparand_matches (physical_type s) (value c) = true -> value_wf (value c) ->
  exists r e, EvalCondition c v = Ok r /\ encode_view v = Ok e /\
    (r = true -> enc_cond c e = true) /\
    (view_nan v = false -> value_nan (value c) = false -> r = enc_cond c e).
Proof.
  unfold enc_cond. intros Hv Hm Hwf. destruct v as [|x|x|d|b]; simpl in Hv.
  - exists false, None. done.
  - destruct Hv as [Hp Hx]. rewrite Hp in Hm. destruct (value c) as [z| | |] eqn:Ec; try done.
    simpl in Hwf. exists (ApplyCompareOp int_operand (op c) x z), (Some (OkeyToBytes (I64ToOkey x))).
    unfold EvalCondition. rewrite Ec. red_cond. rewrite bcompare_int, apply_int by done. done.
  - destruct Hv as [Hp Hx]. rewrite Hp in Hm. destruct (value c) as [|z| |] eqn:Ec; try done.
    simpl in Hwf. exists (ApplyCompareOp int_operand (op c) x z), (Some (OkeyToBytes (U64ToOkey x))).
    unfold EvalCondition. rewrite Ec. red_cond. rewrite bcompare_uint, apply_int by done. done.
  - destruct Hv as [Hp Hx]. rewrite Hp in Hm. destruct (value c) as [| |z|] eqn:Ec; try done.
    simpl in Hwf.
    exists (ApplyCompareOp double_operand (op c) d z), (Some (OkeyToBytes (F64ToOkey d))).
    unfold EvalCondition. rewrite Ec. red_cond. split; [done|]. split; [done|].
    destruct (f64_nan d) eqn:Nd, (f64_nan z) eqn:Nz;
      try (rewrite apply_double_nan by tauto; done).
    rewrite bcompare_double, apply_double by done. done.
  - assert (exists z, value c = VString z) as [z Ec].
    { destruct Hv as [Hp|Hp]; rewrite Hp in Hm; destruct (value c); try done; by eexists. }
    exists (ApplyCompareOp int_operand (op c) (cmp_int (bcompare b z)) 0), (Some b).
    unfold EvalCondition. rewrite Ec. red_cond.
    by rewrite <- PassOp_apply.
Qed.

(** Every attribute of an extracted row was decoded and encoded. *)
Lemma extract_loop_at lay row i n enc :
  extract_loop lay row i n = Ok enc ->
  length enc = n /\
  forall k, (k < n)%nat -> exists v e, DecodeAttr lay row (i + Z.of_nat k) = Ok v /\
    encode_view v = Ok e /\ enc !! k = Some e.
Proof.
  revert i enc. induction n as [|n IH]; intros i enc H; cbn [extract_loop] in H.
  - injection H as <-. split; [done|lia].
  - apply result_bind_ok in H as (v & Hv & H). apply result_bind_ok in H as (e & He & H).
    apply result_bind_ok in H as (rest & Hr & H). injection H as <-.
    destruct (IH _ _ Hr) as [Hl Hk]. split; [simpl; congruence|]. intros [|k] Hlt.
    + exists v, e. by rewrite Z.add_0_r.
    + destruct (Hk k) as (v' & e' & Hd & ? & ?); [lia|]. exists v', e'.
      replace (i + Z.of_nat (S k)) with (i + 1 + Z.of_nat k) by lia. done.
Qed.

Section Meaning.
Context (o : BitLSMOptions) (lay : ValueLayout) (key row : bytes) (enc : list EncodedAttr).
Context (Hlay : layout_of (attr_specs o) lay) (Hext : ExtractAll lay key row = Ok enc).

(** No NaN takes part in a query on this row. *)
Definition no_nan (q : BitLSMQuery) : Prop :=
  (forall i v, DecodeAttr lay row i = Ok v -> view_nan v = false) /\
  Forall (fun c => value_nan (value c) = false) (query_conds q).

Lemma check_cond_bytes c :
  cond_valid o c -> value_wf (value c) ->
  exists r, check_cond lay row c = Ok r /\ (r = true -> byte_cond enc c = true) /\
    ((forall i v, DecodeAttr lay row i = Ok v -> view_nan v = false) ->
     value_nan (value c) = false -> r = byte_cond enc c).
Proof.
  intros Hv Hwf. pose proof (cond_valid_idx o c Hv) as Hi.
  destruct Hv as [Hi0 (spec & Hs & Hm & _)].
  destruct (lookup_split_specs o c spec Hi0 Hs) as (pre & post & Ess & Eidx).
  destruct (extract_loop_at _ _ _ _ _ Hext) as [_ Hat].
  destruct (Hat (length pre)) as (v & e & Hd & He & Hk).
  { rewrite (lo_len _ _ Hlay), Ess, length_app. simpl. lia. }
  rewrite Z.add_0_l in Hd.
  destruct (eval_cond_bytes spec c v) as (r & e' & Hr & He' & H1 & H2);
    [by eapply DecodeAttr_wf|done..|].
  assert (e' = e) as -> by congruence.
  exists r. unfold check_cond. rewrite Eidx. fold (zlen pre) in Hd. rewrite Hd.
  split; [done|].
  assert (byte_cond enc c = enc_cond c e) as ->.
  { unfold byte_cond. rewrite Eidx. unfold zlen. by rewrite Nat2Z.id, Hk. }
  split; [done|]. intros Hn Hc. apply H2; [by eapply Hn|done].
Qed.

Lemma any_cond_bytes clause :
  Forall (cond_valid o) clause -> Forall cond_wf clause ->
  exists r, any_cond lay row clause = Ok r /\ (r = true -> byte_clause enc clause = true) /\
    ((forall i v, DecodeAttr lay row i = Ok v -> view_nan v = false) ->
     Forall (fun c => value_nan (value c) = false) clause -> r = byte_clause enc clause).
Proof.
  unfold byte_clause. induction clause as [|c clause IH]; intros Hv Hwf; [by exists false|].
  apply Forall_cons in Hv as [Hc Hv]. apply Forall_cons in Hwf as [[_ Hw] Hwf].
  destruct (check_cond_bytes c Hc Hw) as (r & E & H1 & H2). cbn [any_cond existsb].
  rewrite E. cbn [mbind result_bind]. destruct (IH Hv Hwf) as (r' & E' & H1' & H2').
  exists (r || r'). split; [by destruct r|]. split.
  - intros [Hr|Hr]%orb_prop; apply orb_true_iff; [left|right]; auto.
  - intros Hn [Hc1 Hc2]%Forall_cons. by rewrite <- H2, <- H2'.
Qed.

Lemma check_clauses_bytes cs :
  Forall (Forall (cond_valid o)) cs -> Forall (Forall cond_wf) cs ->
  zlen (attr_specs o) < 2 ^ 32 ->
  exists r, check_clauses lay row cs = Ok r /\
    (r = true -> forallb (byte_clause enc) cs = true) /\
    ((forall i v, DecodeAttr lay row i = Ok v -> view_nan v = false) ->
     Forall (fun c => value_nan (value c) = false) (concat cs) ->
     r = forallb (byte_clause enc) cs).
Proof.
  intros Hv Hwf Hn. induction cs as [|clause cs IH]; [by exists true|].
  apply Forall_cons in Hv as [Hc Hv]. apply Forall_cons in Hwf as [Hw Hwf].
  destruct (any_cond_bytes clause Hc Hw) as (r & E & H1 & H2).
  cbn [check_clauses forallb concat].
  assert (Forall (fun c => attr_idx c <> UINT32_MAX) clause) as Hidx.
  { eapply Forall_impl; [exact Hc|]. intros c H%cond_valid_idx. unfold UINT32_MAX. lia. }
  rewrite check_clause_any, E by (done || by left).
  cbn [mbind result_bind]. destruct (IH Hv Hwf) as (r' & E' & H1' & H2').
  exists (r && r'). split; [by destruct r|]. split.
  - intros [Hr Hr']%andb_prop. by rewrite H1, H1'.
  - intros Hnn [Hc1 Hc2]%Forall_app. by rewrite <- H2, <- H2'.
Qed.
End Meaning.

Lemma encoded_meaning o lay q key row enc :
  schema_ok o -> schema_fits (attr_specs o) -> is_u32 (attr_num o) ->
  mkLayout o = Ok lay -> query_wf q -> Validate q o = OK ->
  ExtractAll lay key row = Ok enc ->
  exists sq r, EncodeQuery q o = Ok sq /\ CheckCondition q row lay = Ok r /\
    (r = true -> query_sat (index_types (FromOptions o)) enc sq = true) /\
    (no_nan lay row q -> r = query_sat (index_types (FromOptions o)) enc sq).
Proof.
  intros Hok Hfit Hnum El Hwf Hv Hext.
  destruct (mkLayout_spec o Hok Hfit) as (lay' & El' & Hlay).
  assert (lay' = lay) as -> by congruence.
  pose proof (Validate_conds q o Hwf Hv) as Hval.
  destruct (EncodeQuery_bytes o enc q Hval) as (sq & Es & Hsat).
  destruct (check_clauses_bytes o lay key row enc Hlay Hext (clause_groups q) Hval Hwf)
    as (r & Er & H1 & H2).
  { rewrite (schema_size o Hok). apply Hnum. }
  exists sq, r. rewrite Hsat. split; [done|]. split.
  - unfold CheckCondition. by destruct (clause_groups q).
  - split; [done|]. intros [Hn1 Hn2]. by apply H2.
Qed.

(** (C23) The byte-domain query keeps the meaning of the native one. For a
    query [Validate] accepts and any row the extractor accepts, [EncodeQuery]
    succeeds, and a row the reference evaluation matches satisfies the encoded
    query (in particular it is not flagged unsatisfiable), although same-attribute
    ranges were merged and empty windows dropped. When no NaN is compared the
    two are equivalent. *)
Theorem EncodeQuery_meaning o lay q key row enc :
  schema_ok o -> schema_fits (attr_specs o) -> is_u32 (attr_num o) ->
  mkLayout o = Ok lay -> query_wf q -> Validate q o = OK ->
  ExtractAll lay key row = Ok enc ->
  exists sq r, EncodeQuery q o = Ok sq /\ CheckCondition q row lay = Ok r /\
    (r = true -> query_sat (index_types (FromOptions o)) enc sq = true) /\
    (no_nan lay row q -> r = query_sat (index_types (FromOptions o)) enc sq).
Proof. apply encoded_meaning. Qed.

Lemma EncodeQuery_meaning_witness : exists lay row enc sq r,
  EncodeValue lay demo_row [x70] [] = Ok row /\ ExtractAll lay [] row = Ok enc /\
  EncodeQuery demo_query demo_options = Ok sq /\ CheckCondition demo_query row lay = Ok r /\
  (r = true -> query_sat [kRange; kEquality] enc sq = true).
Proof.
  destruct (mkLayout demo_options) as [lay|] eqn:El; [|by vm_compute in El].
  destruct (EncodeValue lay demo_row [x70] []) as [row|] eqn:Er;
    [|vm_compute in El; injection El as <-; by vm_compute in Er].
  destruct (ExtractAll lay [] row) as [enc|] eqn:Ee;
    [|vm_compute in El; injection El as <-; vm_compute in Er; injection Er as <-; by vm_compute in Ee].
  destruct (EncodeQuery_meaning demo_options lay demo_query [] row enc demo_schema_ok demo_schema_fits
    demo_attr_num El demo_query_wf eq_refl Ee) as (sq & r & E1 & E2 & H & _).
  exists lay, row, enc, sq, r. exact (conj Er (conj Ee (conj E1 (conj E2 H)))).
Defined.
