(* ===== verification/QueryText.v ===== *)
(** * The text of a query

    Models [BitLSMQuery::ToString] of [bit_lsm_query.h], with what it uses of
    the standard streams: integers in decimal, doubles as [%g] prints them, that
    is, with six significant digits, in fixed or exponent notation, without
    trailing zeros. *)
From Stdlib Require Import ZArith Lia Strings.Byte Strings.Ascii Strings.String Floats.SpecFloat.
From stdpp Require Import base numbers strings list pretty.
From S2P Require Import Prelude Floats Options Row Okey Query.

Local Open Scope string_scope.
Local Open Scope Z_scope.

(** ** Doubles on a stream

    The value of a finite double is the ratio [m * 2^e]; powers in a ratio are
    kept as integers on either side. *)
Definition times_pow (b k : Z) (v : Z * Z) : Z * Z := (v.1 * b ^ Z.max k 0, v.2 * b ^ Z.max (- k) 0).
Definition ratio_of (m : positive) (e : Z) : Z * Z := times_pow 2 e (Zpos m, 1).

(** The nearest integer, ties to even. *)
Definition round_ratio (v : Z * Z) : Z :=
  let q := v.1 / v.2 in
  match 2 * (v.1 mod v.2) ?= v.2 with
  | Lt => q
  | Gt => q + 1
  | Eq => if Z.even q then q else q + 1
  end.

(** The decade of a ratio, [10^x <= v < 10^(x+1)], searched from one upwards or
    downwards; the finite doubles lie between [10^-324] and [10^309]. *)
Definition below_pow10 (v : Z * Z) (x : Z) : bool := let w := times_pow 10 (- x) v in w.1 <? w.2.
Fixpoint decade_up (fuel : nat) (x : Z) (v : Z * Z) : Z :=
  match fuel with
  | O => x
  | S f => if below_pow10 v (x + 1) then x else decade_up f (x + 1) v
  end.
Fixpoint decade_down (fuel : nat) (x : Z) (v : Z * Z) : Z :=
  match fuel with
  | O => x
  | S f => if below_pow10 v x then decade_down f (x - 1) v else x
  end.
Definition decade (v : Z * Z) : Z :=
  if below_pow10 v 0 then decade_down 323 (-1) v else decade_up 308 0 v.

(** The six significant digits as a number and the decimal exponent of the
    first of them. *)
Definition digits6 (v : Z * Z) : Z * Z :=
  let x := decade v in
  let d := round_ratio (times_pow 10 (5 - x) v) in
  if d =? 10 ^ 6 then (10 ^ 5, x + 1) else (d, x).

Fixpoint strip_zeros (s : string) : string :=
  match s with
  | "" => ""
  | String c s' =>
      match strip_zeros s' with
      | "" => if Ascii.eqb c "0"%char then "" else String c ""
      | t => String c t
      end
  end.
Fixpoint zeros (n : nat) : string := match n with O => "" | S n' => String "0" (zeros n') end.
Definition fraction (s : string) : string := match strip_zeros s with "" => "" | t => "." +:+ t end.
(** At least two digits. *)
Definition exponent (x : Z) : string :=
  "e" +:+ (if x <? 0 then "-" else "+") +:+ (if Z.abs x <? 10 then "0" else "") +:+ to_string (Z.abs x).

Definition general_digits (d x : Z) : string :=
  let s := to_string d in
  if (x <? -4) || (6 <=? x) then String.substring 0 1 s +:+ fraction (String.substring 1 5 s) +:+ exponent x
  else if 0 <=? x then
    String.substring 0 (Z.to_nat (x + 1)) s +:+ fraction (String.substring (Z.to_nat (x + 1)) (Z.to_nat (5 - x)) s)
  else "0" +:+ fraction (zeros (Z.to_nat (- x - 1)) +:+ s).

Definition sign_text (neg : bool) : string := if neg then "-" else "".
(** The text of a double from its pattern; a NaN shows its sign. *)
Definition double_text (u : Z) : string :=
  match f64_decode u with
  | S754_zero s => sign_text s +:+ "0"
  | S754_infinity s => sign_text s +:+ "inf"
  | S754_nan => sign_text (Z.testbit u 63) +:+ "nan"
  | S754_finite s m e => let '(d, x) := digits6 (ratio_of m e) in sign_text s +:+ general_digits d x
  end.

(** ** ToString *)
Definition op_str (op : CompareOp) : string :=
  match op with
  | EQUAL => "="
  | LESS => "<"
  | LESS_EQUAL => "<="
  | GREATER => ">"
  | GREATER_EQUAL => ">="
  end.

Definition val_str (v : value_type) : string :=
  match v with
  | VString s => "'" +:+ string_of_list_byte s +:+ "'"
  | VInt z => to_string z
  | VUint z => to_string z
  | VDouble d => double_text d
  end.

Definition cond_str (c : QueryCondition) : string :=
  "a" +:+ to_string (attr_idx c) +:+ op_str (op c) +:+ val_str (value c).

(** The inner loop from its [j]-th condition, and the outer from its [i]-th
    clause. *)
Fixpoint clause_str (j : nat) (clause : OrClause) : string :=
  match clause with
  | [] => ""
  | c :: rest => (if (0 <? j)%nat then " OR " else "") +:+ cond_str c +:+ clause_str (S j) rest
  end.
Fixpoint groups_str (i : nat) (groups : list OrClause) : string :=
  match groups with
  | [] => ""
  | clause :: rest =>
      (if (0 <? i)%nat then " AND " else "") +:+
      (if (1 <? length clause)%nat then "(" else "") +:+
      clause_str 0 clause +:+
      (if (1 <? length clause)%nat then ")" else "") +:+
      groups_str (S i) rest
  end.
Definition ToString (q : BitLSMQuery) : string := groups_str 0 (clause_groups q).

(** ** The streams at work *)
Definition f64_of (m : positive) (e : Z) : Z := f64_encode (binary_normalize 53 1024 (Zpos m) e false).
Example text_half : double_text (f64_of 21 (-1)) = "10.5".
Proof. vm_compute. reflexivity. Qed.
Example text_tenth : double_text 0x3FB999999999999A = "0.1".
Proof. vm_compute. reflexivity. Qed.
Example text_seven : double_text (f64_of 1234567 0) = "1.23457e+06".
Proof. vm_compute. reflexivity. Qed.
Example text_carry : double_text (f64_of 1999999 (-1)) = "1e+06" /\ double_text (f64_of 100 0) = "100".
Proof. vm_compute. done. Qed.
Example text_special : double_text 0x3E7AD7F29ABCAF48 = "1e-07" /\
  double_text 0x8000000000000000 = "-0" /\ double_text 0xFFF0000000000000 = "-inf" /\ double_text 0x7FF8000000000000 = "nan".
Proof. vm_compute. done. Qed.

(** ** Digits *)

(** [v < 10^x]. *)
Definition less (v : Z * Z) (x : Z) : Prop := v.1 * 10 ^ Z.max (- x) 0 < v.2 * 10 ^ Z.max x 0.
Lemma below_pow10_spec v x : reflect (less v x) (below_pow10 v x).
Proof. unfold below_pow10, times_pow, less. cbn [fst snd]. rewrite Z.opp_involutive. apply Z.ltb_spec0. Qed.

Lemma decade_up_spec n x v :
  ~ less v x -> less v (x + Z.of_nat n + 1) -> let y := decade_up n x v in ~ less v y /\ less v (y + 1).
Proof.
  revert x. induction n as [|n IH]; intros x H1 H2; cbn [decade_up].
  { split; [done|]. by replace (x + 1) with (x + Z.of_nat 0 + 1) by lia. }
  destruct (below_pow10_spec v (x + 1)); [done|]. apply IH; [done|]. by replace (x + 1 + _ + 1) with (x + Z.of_nat (S n) + 1) by lia.
Qed.
Lemma decade_down_spec n x v :
  less v (x + 1) -> ~ less v (x - Z.of_nat n) -> let y := decade_down n x v in ~ less v y /\ less v (y + 1).
Proof.
  revert x. induction n as [|n IH]; intros x H1 H2; cbn [decade_down].
  { split; [|done]. by replace x with (x - Z.of_nat 0) by lia. }
  destruct (below_pow10_spec v x); [|done]. apply IH; [by replace (x - 1 + 1) with x by lia|].
  by replace (x - 1 - _) with (x - Z.of_nat (S n)) by lia.
Qed.
Lemma decade_spec v : ~ less v (-324) -> less v 309 -> ~ less v (decade v) /\ less v (decade v + 1).
Proof.
  intros H1 H2. unfold decade. destruct (below_pow10_spec v 0); [by apply decade_down_spec|by apply decade_up_spec].
Qed.

(** Scaling by a power of ten keeps the comparison. *)
Lemma less_scaled v x k : 0 <= k -> let w := times_pow 10 (k - x) v in w.1 < 10 ^ k * w.2 <-> less v x.
Proof.
  intros Hk. unfold less, times_pow. cbn [fst snd].
  assert (forall a b, 0 <= a -> 0 <= b -> 10 ^ (a + b) = 10 ^ a * 10 ^ b) as Hp by (intros; by apply Z.pow_add_r).
  assert (forall a, 0 <= a -> 0 < 10 ^ a) as Hpos by (intros; apply Z.pow_pos_nonneg; lia).
  destruct (Z.le_ge_cases x 0); [|destruct (Z.le_ge_cases x k)].
  - rewrite (Z.max_l (k - x)), (Z.max_r (- (k - x))), (Z.max_l (- x)), (Z.max_r x) by lia.
    replace (k - x) with (k + - x) by lia. rewrite Hp by lia. pose proof (Hpos k Hk). pose proof (Hpos (- x) ltac:(lia)). nia.
  - rewrite (Z.max_l (k - x)), (Z.max_r (- (k - x))), (Z.max_r (- x)), (Z.max_l x) by lia.
    pose proof (Hp (k - x) x ltac:(lia) ltac:(lia)) as E. replace (k - x + x) with k in E by lia. rewrite E.
    pose proof (Hpos (k - x) ltac:(lia)). pose proof (Hpos x ltac:(lia)). nia.
  - rewrite (Z.max_r (k - x)), (Z.max_l (- (k - x))), (Z.max_r (- x)), (Z.max_l x) by lia.
    pose proof (Hp k (- (k - x)) ltac:(lia) ltac:(lia)) as E. replace (k + - (k - x)) with x in E by lia. rewrite E. nia.
Qed.

(** Rounding is to a nearest integer, and keeps integer bounds. *)
Lemma round_ratio_spec v : 0 < v.2 ->
  2 * Z.abs (round_ratio v * v.2 - v.1) <= v.2 /\
  (forall a, a * v.2 <= v.1 -> a <= round_ratio v) /\ (forall b, v.1 < b * v.2 -> round_ratio v <= b).
Proof.
  intros Hv. unfold round_ratio. pose proof (Z.div_mod v.1 v.2 ltac:(lia)) as E. pose proof (Z.mod_pos_bound v.1 v.2 Hv) as Hr.
  set (q := v.1 / v.2) in *. set (r := v.1 mod v.2) in *. rewrite E.
  assert (exists q', (match 2 * r ?= v.2 with Lt => q | Gt => q + 1 | Eq => if Z.even q then q else q + 1 end) = q' /\
    (q' = q /\ 2 * r <= v.2 \/ q' = q + 1 /\ v.2 <= 2 * r)) as (q' & -> & Hq).
  { eexists. split; [done|]. destruct (Z.compare_spec (2 * r) v.2); [destruct (Z.even q)| |]; lia. }
  split; [destruct Hq as [[-> ?]|[-> ?]]; nia|]. split; intros a Ha; destruct Hq as [[-> ?]|[-> ?]]; nia.
Qed.

Lemma f64_finite_range u s m e : f64_decode u = S754_finite s m e -> -1074 <= e <= 971 /\ Zpos m < 2 ^ 53.
Proof.
  unfold f64_decode, bits_decode. change (fmt_emin 52 11) with (-1074). change (2 ^ 11) with 2048. change (2 ^ 52) with 4503599627370496.
  change (2 ^ 53) with 9007199254740992. pose proof (Z.mod_pos_bound (u / 4503599627370496) 2048 ltac:(lia)) as He.
  pose proof (Z.mod_pos_bound u 4503599627370496 ltac:(lia)) as Hm.
  set (ex := (u / 4503599627370496) mod 2048) in *. set (mm := u mod 4503599627370496) in *.
  destruct (Z.eqb_spec ex 0).
  { destruct mm as [|p|p] eqn:Em; [done| |done]. intros [= _ <- <-]. lia. }
  destruct (Z.eqb_spec ex (2048 - 1)); [by destruct (mm =? 0)|].
  destruct (mm + 4503599627370496) as [|p|p] eqn:Em; [done| |done]. intros [= _ <- <-]. lia.
Qed.

Lemma ratio_of_range m e : -1074 <= e <= 971 -> Zpos m < 2 ^ 53 ->
  0 < (ratio_of m e).2 /\ ~ less (ratio_of m e) (-324) /\ less (ratio_of m e) 309.
Proof.
  intros He Hm. unfold less, ratio_of, times_pow. cbn [fst snd].
  change (Z.max (- -324) 0) with 324. change (Z.max (-324) 0) with 0. change (Z.max (- (309)) 0) with 0. change (Z.max 309 0) with 309.
  change (10 ^ 0) with 1. assert (2 ^ 1024 < 10 ^ 309 /\ 2 ^ 1074 < 10 ^ 324) as [H1 H2] by (split; by vm_compute).
  destruct (Z.le_ge_cases 0 e).
  - rewrite (Z.max_l e), (Z.max_r (- e)) by lia. change (2 ^ 0) with 1.
    pose proof (Z.pow_le_mono_r 2 e 971 ltac:(lia) ltac:(lia)). pose proof (Z.pow_pos_nonneg 2 e ltac:(lia) ltac:(lia)).
    change (2 ^ 1024) with (2 ^ 53 * 2 ^ 971) in H1. assert (1 < 10 ^ 324) by (by vm_compute).
    assert (Zpos m * 2 ^ e <= 2 ^ 53 * 2 ^ 971) by (apply Z.mul_le_mono_nonneg; lia). assert (1 <= Zpos m * 2 ^ e) by nia.
    generalize dependent (10 ^ 324). generalize dependent (10 ^ 309). generalize dependent (2 ^ 53 * 2 ^ 971). intros. nia.
  - rewrite (Z.max_r e), (Z.max_l (- e)) by lia. change (2 ^ 0) with 1.
    pose proof (Z.pow_le_mono_r 2 (- e) 1074 ltac:(lia) ltac:(lia)). pose proof (Z.pow_pos_nonneg 2 (- e) ltac:(lia) ltac:(lia)).
    assert (2 ^ 53 < 10 ^ 309) by (by vm_compute).
    generalize dependent (10 ^ 324). generalize dependent (10 ^ 309). generalize dependent (2 ^ 1074). intros. nia.
Qed.

(** One decade further, the same number. *)
Lemma carry_scaled v x : 0 < v.2 ->
  let w := times_pow 10 (5 - x) v in let w' := times_pow 10 (5 - (x + 1)) v in
  2 * Z.abs (10 ^ 6 * w.2 - w.1) <= w.2 -> 2 * Z.abs (10 ^ 5 * w'.2 - w'.1) <= w'.2.
Proof.
  intros Hv. unfold times_pow. cbn [fst snd]. change (10 ^ 6) with 1000000. change (10 ^ 5) with 100000.
  destruct (Z.le_gt_cases (x + 1) 5).
  - rewrite (Z.max_l (5 - x)), (Z.max_r (- (5 - x))), (Z.max_l (5 - (x + 1))), (Z.max_r (- (5 - (x + 1)))) by lia.
    replace (5 - x) with (Z.succ (5 - (x + 1))) by lia. rewrite Z.pow_succ_r by lia. lia.
  - rewrite (Z.max_r (5 - x)), (Z.max_l (- (5 - x))), (Z.max_r (5 - (x + 1))), (Z.max_l (- (5 - (x + 1)))) by lia.
    replace (- (5 - (x + 1))) with (Z.succ (- (5 - x))) by lia. rewrite Z.pow_succ_r by lia.
    pose proof (Z.pow_pos_nonneg 10 (- (5 - x)) ltac:(lia) ltac:(lia)). change (10 ^ 0) with 1. nia.
Qed.

(** The six digits of every finite double are six, and a nearest decimal to its
    value. *)
Theorem digits6_nearest u s m e : f64_decode u = S754_finite s m e ->
  let '(d, x) := digits6 (ratio_of m e) in let w := times_pow 10 (5 - x) (ratio_of m e) in
  10 ^ 5 <= d < 10 ^ 6 /\ 2 * Z.abs (d * w.2 - w.1) <= w.2.
Proof.
  intros [He Hm]%f64_finite_range. destruct (ratio_of_range m e He Hm) as (Hv & Hlo & Hhi). set (v := ratio_of m e) in *.
  destruct (decade_spec v Hlo Hhi) as [H1 H2]. unfold digits6. set (x := decade v) in *. rewrite <- (less_scaled v x 5) in H1 by lia.
  rewrite <- (less_scaled v (x + 1) 6) in H2 by lia. replace (6 - (x + 1)) with (5 - x) in H2 by lia. set (w := times_pow 10 (5 - x) v) in *.
  assert (0 < w.2) as Hw by (apply Z.mul_pos_pos; [done|apply Z.pow_pos_nonneg; lia]).
  destruct (round_ratio_spec w Hw) as (Hr & Ha & Hb). specialize (Ha (10 ^ 5) ltac:(lia)). specialize (Hb (10 ^ 6) ltac:(lia)).
  destruct (Z.eqb_spec (round_ratio w) (10 ^ 6)) as [E|].
  - split; [lia|]. rewrite E in Hr. by apply carry_scaled.
  - split; [lia|done].
Qed.
Lemma digits6_nearest_witness :
  let '(d, x) := digits6 (ratio_of 4503599627370496 (-1074)) in 10 ^ 5 <= d < 10 ^ 6.
Proof. pose proof (digits6_nearest 0x10000000000000 false 4503599627370496 (-1074) eq_refl) as H. destruct (digits6 _). exact (proj1 H). Defined.

(** ** Reading a text back

    A numeric comparand is a run of characters that are neither blank, closing
    parenthesis nor equals sign. *)
Fixpoint all_chars (P : ascii -> bool) (s : string) : bool :=
  match s with "" => true | String c s' => P c && all_chars P s' end.
Definition first_not (P : ascii -> bool) (k : string) : Prop := match k with "" => True | String c _ => P c = false end.
Definition is_digit (c : ascii) : bool := existsb (Ascii.eqb c) (list_ascii_of_string "0123456789").
Definition plain (c : ascii) : bool := negb (existsb (Ascii.eqb c) (list_ascii_of_string " )=")).

Lemma string_app_assoc (a b c : string) : (a +:+ b) +:+ c = a +:+ (b +:+ c).
Proof. induction a as [|x a IH]; [done|]. exact (f_equal (String x) IH). Qed.
Lemma all_chars_app P s t : all_chars P (s +:+ t) = all_chars P s && all_chars P t.
Proof.
  induction s as [|c s IH]; [done|]. change (P c && all_chars P (s +:+ t) = P c && all_chars P s && all_chars P t). by rewrite IH, andb_assoc.
Qed.
Lemma all_chars_impl (P Q : ascii -> bool) s : (forall c, P c = true -> Q c = true) -> all_chars P s = true -> all_chars Q s = true.
Proof. intros HPQ. induction s as [|c s IH]; [done|]. cbn. intros [H1 H2]%andb_true_iff. by rewrite (HPQ c H1), IH. Qed.
Lemma all_chars_substring P i n s : all_chars P s = true -> all_chars P (String.substring i n s) = true.
Proof.
  revert i n. induction s as [|c s IH]; intros i n H; [by destruct i, n|]. cbn in H. apply andb_true_iff in H as [H1 H2].
  destruct i, n; cbn; [done|rewrite H1; by apply IH|by apply IH..].
Qed.
Lemma all_chars_strip P s : all_chars P s = true -> all_chars P (strip_zeros s) = true.
Proof.
  induction s as [|c s IH]; [done|]. cbn. intros [H1 H2]%andb_true_iff. specialize (IH H2).
  destruct (strip_zeros s); [by destruct (Ascii.eqb _ _); cbn; rewrite ?H1|]. cbn in *. by rewrite H1.
Qed.

(** Where a run of [P] characters ends is determined. *)
Lemma run_inj P s1 s2 k1 k2 :
  all_chars P s1 = true -> all_chars P s2 = true -> first_not P k1 -> first_not P k2 ->
  s1 +:+ k1 = s2 +:+ k2 -> s1 = s2 /\ k1 = k2.
Proof.
  revert s2. induction s1 as [|c s1 IH]; intros [|c2 s2] H1 H2 F1 F2 E; cbn [all_chars] in *.
  - done.
  - change (k1 = String c2 (s2 +:+ k2)) in E. rewrite E in F1. cbn in F1. by rewrite F1 in H2.
  - change (String c (s1 +:+ k1) = k2) in E. rewrite <- E in F2. cbn in F2. by rewrite F2 in H1.
  - change (String c (s1 +:+ k1) = String c2 (s2 +:+ k2)) in E. injection E as -> E. apply andb_true_iff in H1 as [_ H1]. apply andb_true_iff in H2 as [_ H2].
    by destruct (IH s2 H1 H2 F1 F2 E) as [-> ->].
Qed.

Lemma pretty_go_digits x s : all_chars is_digit s = true -> all_chars is_digit (pretty_N_go x s) = true.
Proof.
  revert s. induction (N.lt_wf_0 x) as [x _ IH]; intros s Hs. destruct (decide (0 < x)%N) as [Hx|Hx].
  - rewrite pretty_N_go_step by done. apply IH; [by apply N.div_lt|]. cbn [all_chars]. rewrite Hs.
    unfold pretty_N_char. by repeat case_match.
  - replace x with 0%N by lia. by rewrite pretty_N_go_0.
Qed.
Lemma to_string_digits z : 0 <= z -> all_chars is_digit (to_string z) = true.
Proof.
  intros Hz. destruct z as [|p|p]; [done| |lia]. change (to_string (Zpos p)) with (pretty (Npos p)).
  unfold pretty, pretty_N. case_decide; [done|]. by apply pretty_go_digits.
Qed.
Lemma digit_plain c : is_digit c = true -> plain c = true.
Proof. by destruct c as [[] [] [] [] [] [] [] []]. Qed.
Lemma to_string_plain z : all_chars plain (to_string z) = true.
Proof.
  destruct (Z.le_gt_cases 0 z) as [Hz|Hz]; [exact (all_chars_impl _ _ _ digit_plain (to_string_digits z Hz))|].
  destruct z as [|p|p]; [lia|lia|]. change (to_string (Zneg p)) with ("-" +:+ to_string (Zpos p)).
  rewrite all_chars_app. by rewrite (all_chars_impl _ _ _ digit_plain (to_string_digits (Zpos p) ltac:(lia))).
Qed.

Lemma fraction_plain s : all_chars plain s = true -> all_chars plain (fraction s) = true.
Proof. intros Hs%all_chars_strip. unfold fraction. by destruct (strip_zeros s). Qed.
Lemma zeros_plain n : all_chars plain (zeros n) = true.
Proof. by induction n. Qed.
Lemma sign_plain b : all_chars plain (sign_text b) = true.
Proof. by destruct b. Qed.
Lemma app_plain s t : all_chars plain s = true -> all_chars plain t = true -> all_chars plain (s +:+ t) = true.
Proof. intros Hs Ht. by rewrite all_chars_app, Hs, Ht. Qed.
Create HintDb text.
#[export] Hint Resolve app_plain to_string_plain fraction_plain zeros_plain sign_plain all_chars_substring : text.

Lemma general_digits_plain d x : all_chars plain (general_digits d x) = true.
Proof.
  unfold general_digits, exponent. repeat case_match; auto 10 with text.
Qed.
Lemma double_text_plain u : all_chars plain (double_text u) = true.
Proof.
  unfold double_text. destruct (f64_decode u) as [s|s| |s m e]; [| | |destruct (digits6 _)];
    auto using general_digits_plain with text.
Qed.

(** What may follow a condition: the end, a blank or a closing parenthesis. *)
Definition stop (k : string) : Prop := match k with "" => True | String c _ => c = " "%char \/ c = ")"%char end.
Lemma stop_plain k : stop k -> first_not plain k.
Proof. destruct k as [|c k]; [done|]. by intros [->| ->]. Qed.

Definition numeric (c : QueryCondition) : Prop := 0 <= attr_idx c /\ match value c with VString _ => False | _ => True end.
Lemma val_str_plain c : numeric c -> all_chars plain (val_str (value c)) = true.
Proof. intros [_ H]. destruct (value c); cbn [val_str]; [auto with text..|apply double_text_plain|done]. Qed.

(** The same attribute, operator and printed comparand. *)
Definition same_text (c1 c2 : QueryCondition) : Prop :=
  attr_idx c1 = attr_idx c2 /\ op c1 = op c2 /\ val_str (value c1) = val_str (value c2).

Lemma no_equals v k t : all_chars plain v = true -> stop k -> v +:+ k <> String "=" t.
Proof.
  destruct v as [|c v]; intros Hv Hk E.
  - change (k = String "=" t) in E. subst k. by destruct Hk.
  - change (String c (v +:+ k) = String "=" t) in E. injection E as -> _. done.
Qed.
Lemma op_inj o1 o2 v1 v2 k1 k2 :
  all_chars plain v1 = true -> all_chars plain v2 = true -> stop k1 -> stop k2 ->
  op_str o1 +:+ (v1 +:+ k1) = op_str o2 +:+ (v2 +:+ k2) -> o1 = o2 /\ v1 +:+ k1 = v2 +:+ k2.
Proof.
  intros H1 H2 S1 S2 E. pose proof (no_equals v1 k1) as N1. pose proof (no_equals v2 k2) as N2.
  destruct o1, o2; try discriminate E; injection E as E; try done; exfalso.
  all: first [by eapply N1|by eapply N2; [..|symmetry]].
Qed.

Lemma cond_str_inj c1 c2 k1 k2 : numeric c1 -> numeric c2 -> stop k1 -> stop k2 ->
  cond_str c1 +:+ k1 = cond_str c2 +:+ k2 -> same_text c1 c2 /\ k1 = k2.
Proof.
  intros N1 N2 S1 S2. unfold cond_str. rewrite !string_app_assoc. intros [= E]. apply (inj (String.append _)) in E.
  pose proof (val_str_plain c1 N1). pose proof (val_str_plain c2 N2).
  apply (run_inj is_digit) in E as [Ei E]; [|by apply to_string_digits, N1|by apply to_string_digits, N2|by destruct (op c1)|by destruct (op c2)].
  apply op_inj in E as [Eo E]; [|done..]. apply (run_inj plain) in E as [Ev Ek]; [|done|done|by apply stop_plain..].
  split; [|done]. split; [|done]. by apply (inj pretty).
Qed.

(** What follows the last condition of a clause: no further alternative. *)
Definition clause_end (k : string) : Prop := stop k /\ forall t, k <> " OR " +:+ t.
Definition clause_ok (clause : OrClause) : Prop := clause <> [] /\ Forall numeric clause.

Lemma clause_str_stop j clause k : stop k -> stop (clause_str (S j) clause +:+ k).
Proof. by destruct clause; [|left]. Qed.
Lemma clause_tail_inj i j c1 c2 k1 k2 : Forall numeric c1 -> Forall numeric c2 -> clause_end k1 -> clause_end k2 ->
  clause_str (S i) c1 +:+ k1 = clause_str (S j) c2 +:+ k2 -> Forall2 same_text c1 c2 /\ k1 = k2.
Proof.
  intros N1. revert i j c2. induction N1 as [|x1 c1 Hx1 _ IH]; intros i j c2 N2 [S1 O1] [S2 O2]; destruct N2 as [|x2 c2 Hx2 N2].
  - by split.
  - intros E. exfalso. apply (O1 (cond_str x2 +:+ clause_str (S (S j)) c2 +:+ k2)). rewrite <- !string_app_assoc. exact E.
  - intros E. exfalso. apply (O2 (cond_str x1 +:+ clause_str (S (S i)) c1 +:+ k1)). rewrite <- !string_app_assoc. by symmetry.
  - cbn [clause_str]. change (0 <? S i)%nat with true. change (0 <? S j)%nat with true. cbv iota. rewrite !string_app_assoc.
    intros E%(inj (String.append _)). apply cond_str_inj in E as [Hc E]; [|done|done|by apply clause_str_stop..].
    destruct (IH (S i) (S j) c2 N2) as [Hr ->]; [done..|]. split; [by constructor|done].
Qed.

(** A clause with its parentheses, and what follows it. *)
Definition group_str (clause : OrClause) (k : string) : string :=
  (if (1 <? length clause)%nat then "(" else "") +:+ clause_str 0 clause +:+ (if (1 <? length clause)%nat then ")" else "") +:+ k.
Lemma group_str_inj c1 c2 k1 k2 : clause_ok c1 -> clause_ok c2 -> clause_end k1 -> clause_end k2 ->
  group_str c1 k1 = group_str c2 k2 -> Forall2 same_text c1 c2 /\ k1 = k2.
Proof.
  intros [E1 N1] [E2 N2] K1 K2. destruct N1 as [|x1 c1 Hx1 N1]; [done|]. destruct N2 as [|x2 c2 Hx2 N2]; [done|]. clear E1 E2.
  unfold group_str. destruct c1 as [|y1 c1], c2 as [|y2 c2].
  - cbn [length Nat.ltb Nat.leb clause_str]. intros E. rewrite !string_app_assoc in E.
    apply cond_str_inj in E as [Hc E]; [|done|done|apply K1|apply K2]. split; [constructor; [done|constructor]|exact E].
  - discriminate.
  - discriminate.
  - change (1 <? length (x1 :: y1 :: c1))%nat with true. change (1 <? length (x2 :: y2 :: c2))%nat with true. cbv iota.
    change (clause_str 0 (x1 :: y1 :: c1)) with (cond_str x1 +:+ clause_str 1 (y1 :: c1)).
    change (clause_str 0 (x2 :: y2 :: c2)) with (cond_str x2 +:+ clause_str 1 (y2 :: c2)).
    intros E%(inj (String.append _)). rewrite !string_app_assoc in E.
    apply cond_str_inj in E as [Hc E]; [|done|done|by apply clause_str_stop; right..].
    apply clause_tail_inj in E as [Hr E]; [|done|done|by split; [right|]..]. apply (inj (String.append _)) in E as ->. split; [by constructor|done].
Qed.

Lemma groups_str_cons i clause rest :
  groups_str i (clause :: rest) = (if (0 <? i)%nat then " AND " else "") +:+ group_str clause (groups_str (S i) rest).
Proof. done. Qed.
Lemma groups_end i groups : clause_end (groups_str (S i) groups).
Proof. destruct groups as [|clause rest]; [by split|]. split; [by left|]. intros t. discriminate. Qed.

Lemma groups_tail_inj i j g1 g2 : Forall clause_ok g1 -> Forall clause_ok g2 ->
  groups_str (S i) g1 = groups_str (S j) g2 -> Forall2 (Forall2 same_text) g1 g2.
Proof.
  intros H1. revert i j g2. induction H1 as [|c1 g1 Hc1 _ IH]; intros i j g2 H2; destruct H2 as [|c2 g2 Hc2 H2]; [constructor|discriminate..|].
  rewrite !groups_str_cons. intros E%(inj (String.append " AND ")).
  apply group_str_inj in E as [Hc E]; [|done|done|apply groups_end..]. constructor; [done|by eapply IH].
Qed.

Lemma clause_str_same c1 c2 j : Forall2 same_text c1 c2 -> clause_str j c1 = clause_str j c2.
Proof.
  intros H. revert j. induction H as [|x1 x2 c1 c2 (Ea & Eo & Ev) _ IH]; intros j; [done|].
  cbn [clause_str]. unfold cond_str. by rewrite Ea, Eo, Ev, IH.
Qed.
Lemma groups_str_same g1 g2 i : Forall2 (Forall2 same_text) g1 g2 -> groups_str i g1 = groups_str i g2.
Proof.
  intros H. revert i. induction H as [|c1 c2 g1 g2 Hc _ IH]; intros i; [done|].
  rewrite !groups_str_cons. unfold group_str. by rewrite (Forall2_length _ _ _ Hc), (clause_str_same _ _ _ Hc), IH.
Qed.

(** The text determines the query as far as numbers are concerned: two queries
    without empty clauses and string comparands print alike exactly if they have
    the same clauses of the same conditions up to the printed comparand; printed
    integers determine the integer. *)
Theorem ToString_determines q1 q2 : Forall clause_ok (clause_groups q1) -> Forall clause_ok (clause_groups q2) ->
  ToString q1 = ToString q2 <-> Forall2 (Forall2 same_text) (clause_groups q1) (clause_groups q2).
Proof.
  unfold ToString. intros H1 H2. split.
  - destruct H1 as [|c1 g1 Hc1 H1], H2 as [|c2 g2 Hc2 H2].
    + constructor.
    + destruct Hc2 as [Hn _]. by destruct c2 as [|x [|y c2]].
    + destruct Hc1 as [Hn _]. by destruct c1 as [|x [|y c1]].
    + rewrite !groups_str_cons. intros E%(inj (String.append "")).
      apply group_str_inj in E as [Hc E]; [|done|done|apply groups_end..]. constructor; [done|by eapply groups_tail_inj].
  - intros H. by apply groups_str_same.
Qed.
Lemma same_int c1 c2 z1 z2 : same_text c1 c2 -> (value c1 = VInt z1 \/ value c1 = VUint z1) -> (value c2 = VInt z2 \/ value c2 = VUint z2) -> z1 = z2.
Proof. intros (_ & _ & E) [E1|E1] [E2|E2]; rewrite E1, E2 in E; exact (pretty_Z_inj _ _ E). Qed.
Lemma ToString_determines_witness :
  let c a z := mkQueryCondition a GREATER_EQUAL (VInt z) in
  ToString (mkBitLSMQuery [[c 0 1; c 0 (-2)]; [c 12 3]]) <> ToString (mkBitLSMQuery [[c 0 1]; [c 0 (-2)]; [c 1 23]]).
Proof.
  intros c E. apply ToString_determines in E; [|repeat (constructor; [split; [done|repeat constructor; done]|]); constructor..].
  by apply Forall2_length in E.
Defined.

(** As the header's example writes it, less the quotes and parentheses it does
    not print. *)
Example ToString_example :
  ToString (mkBitLSMQuery [[mkQueryCondition 0 EQUAL (VInt 2); mkQueryCondition 0 EQUAL (VInt 7)];
    [mkQueryCondition 2 GREATER_EQUAL (VDouble (f64_of 21 (-1)))]]) = "(a0=2 OR a0=7) AND a2>=10.5".
Proof. vm_compute. reflexivity. Qed.

(** String comparands are not escaped: two different queries with one text. *)
Example ToString_strings_ambiguous :
  let q1 := mkBitLSMQuery [[mkQueryCondition 0 EQUAL (VString (list_byte_of_string "x' AND a1='y"))]] in
  let q2 := mkBitLSMQuery [[mkQueryCondition 0 EQUAL (VString (list_byte_of_string "x"))];
                           [mkQueryCondition 1 EQUAL (VString (list_byte_of_string "y"))]] in
  q1 <> q2 /\ ToString q1 = ToString q2.
Proof. split; [discriminate|]. vm_compute. reflexivity. Qed.
