(* ===== verification/Externals.v ===== *)
(** * What the index relies on

    Code the program calls and does not contain, as operations with the laws
    its documentation states: RocksDB's integer coding ([util/coding.h]) and
    CRoaring's bitmaps ([roaring.hh]). [std::sort], of which the language
    promises only the contract, is a class too: which permutation it returns
    among equivalent elements is left open.

    Every class has an instance here, so its laws are consistent and the
    development's functions run on concrete inputs. *)
From Stdlib Require Import ZArith Lia Strings.Byte Sorting.Sorted.
From stdpp Require Import base numbers list sorting.
From S2P Require Import Prelude.

(** ** RocksDB coding *)
Class Coding := {
  Fixed32 : Z -> bytes;             (** what [PutFixed32] appends *)
  Fixed64 : Z -> bytes;             (** what [PutFixed64] appends *)
  Varint32 : Z -> bytes;            (** the length prefix of [PutLengthPrefixedSlice] *)
  DecodeFixed32 : bytes -> Z;       (** of 4 bytes *)
  DecodeFixed64 : bytes -> Z;       (** of 8 bytes *)
  GetVarint32Ptr : bytes -> option (Z * Z); (** value and bytes consumed *)
}.

(** Fixed-width integers take 4 and 8 bytes and decode to the value; a varint
    takes at most 5 bytes and is self-delimiting. *)
Class CodingLaws (C : Coding) : Prop := {
  zlen_Fixed32 v : zlen (Fixed32 v) = 4;
  zlen_Fixed64 v : zlen (Fixed64 v) = 8;
  DecodeFixed32_inv v : is_u32 v -> DecodeFixed32 (Fixed32 v) = v;
  DecodeFixed64_inv v : is_u64 v -> DecodeFixed64 (Fixed64 v) = v;
  DecodeFixed32_range b : is_u32 (DecodeFixed32 b);
  zlen_Varint32 v : 0 < zlen (Varint32 v) <= 5;
  GetVarint32Ptr_inv v rest : is_u32 v ->
    GetVarint32Ptr (take 5 (Varint32 v ++ rest)) = Some (v, zlen (Varint32 v));
}.

Section CodingOps.
Context `{Coding}.
Definition PutFixed32 (dst : bytes) (v : Z) : bytes := dst ++ Fixed32 (u32 v).
Definition PutFixed64 (dst : bytes) (v : Z) : bytes := dst ++ Fixed64 (u64 v).
Definition PutLengthPrefixedSlice (dst value : bytes) : bytes :=
  dst ++ Varint32 (u32 (zlen value)) ++ value.
(** [DecodeFixed32(base + off)] and [DecodeFixed64(base + off)] *)
Definition Decode32At (base : bytes) (off : Z) : result Z :=
  b ← zsub base off 4; Ok (DecodeFixed32 b).
Definition Decode64At (base : bytes) (off : Z) : result Z :=
  b ← zsub base off 8; Ok (DecodeFixed64 b).
End CodingOps.

(** Little-endian integers and LEB128 varints. *)
Fixpoint leb128 (fuel : nat) (v : Z) : bytes :=
  match fuel with
  | O => [z2b v]
  | S f => if v <? 128 then [z2b v] else z2b (128 + v mod 128) :: leb128 f (v / 128)
  end.
Fixpoint leb128_dec (b : bytes) : option (Z * Z) :=
  match b with
  | [] => None
  | x :: rest =>
      if b2z x <? 128 then Some (b2z x, 1)
      else match leb128_dec rest with
           | Some (v, n) => Some (b2z x - 128 + 128 * v, n + 1)
           | None => None
           end
  end.

#[global] Instance leveldb_coding : Coding := {|
  Fixed32 := le_enc 4;
  Fixed64 := le_enc 8;
  Varint32 := leb128 4;
  DecodeFixed32 b := le_dec (take 4 b);
  DecodeFixed64 b := le_dec b;
  GetVarint32Ptr := leb128_dec;
|}.

Lemma zlen_leb128 f v : 0 < zlen (leb128 f v) <= Z.of_nat f + 1.
Proof.
  revert v. induction f as [|f IH]; intros v; [done|]. cbn [leb128].
  destruct (v <? 128); rewrite ?zlen_cons; [zlen0; lia|]. specialize (IH (v / 128)). lia.
Qed.

Lemma leb128_inv f v rest n :
  0 <= v < 128 ^ (Z.of_nat f + 1) -> (S f <= n)%nat ->
  leb128_dec (take n (leb128 f v ++ rest)) = Some (v, zlen (leb128 f v)).
Proof.
  revert v n. induction f as [|f IH]; intros v n Hv Hn; (destruct n as [|n]; [lia|]).
  - cbn [leb128 app firstn take leb128_dec]. change (128 ^ (Z.of_nat 0 + 1)) with 128 in Hv.
    rewrite b2z_z2b, Z.mod_small by lia. by rewrite (proj2 (Z.ltb_lt _ _)) by lia.
  - cbn [leb128]. destruct (Z.ltb_spec v 128); cbn [app firstn take leb128_dec].
    + rewrite b2z_z2b, Z.mod_small by lia. by rewrite (proj2 (Z.ltb_lt _ _)) by lia.
    + pose proof (Z.mod_pos_bound v 128 ltac:(lia)).
      rewrite b2z_z2b, (Z.mod_small (128 + _)) by lia.
      rewrite (proj2 (Z.ltb_ge _ _)) by lia. rewrite IH.
      * rewrite zlen_cons. f_equal. f_equal. pose proof (Z.div_mod v 128). lia.
      * split; [apply Z.div_pos; lia|]. apply Z.div_lt_upper_bound; [lia|].
        replace (Z.of_nat (S f) + 1) with (Z.of_nat f + 1 + 1) in Hv by lia.
        rewrite Z.pow_add_r in Hv by lia. change (128 ^ 1) with 128 in Hv. lia.
      * lia.
Qed.

#[global] Instance leveldb_coding_laws : CodingLaws leveldb_coding.
Proof.
  split; intros; cbn [Fixed32 Fixed64 Varint32 DecodeFixed32 DecodeFixed64 GetVarint32Ptr leveldb_coding].
  - apply zlen_le_enc.
  - apply zlen_le_enc.
  - rewrite take_ge by (rewrite length_le_enc; lia). by apply le_dec_enc_id.
  - by apply le_dec_enc_id.
  - pose proof (le_dec_range (take 4 b)).
    assert (256 ^ zlen (take 4 b) <= 256 ^ 4).
    { apply Z.pow_le_mono_r; [lia|]. unfold zlen. rewrite length_take. lia. }
    unfold is_u32. change (256 ^ 4) with (2 ^ 32) in *. lia.
  - apply (zlen_leb128 4).
  - apply leb128_inv; [|lia]. unfold is_u32 in *. change (128 ^ (Z.of_nat 4 + 1)) with (2 ^ 35). lia.
Qed.

(** ** std::sort *)
Class StdSort := std_sort : forall {A : Type}, (A -> A -> bool) -> list A -> list A.

(** The precondition of [std::sort]. *)
Class StrictWeak {A} (less : A -> A -> bool) : Prop := {
  sw_irrefl x : less x x = false;
  sw_trans x y z : less x y = true -> less y z = true -> less x z = true;
  sw_incomp x y z : less x y = false -> less y z = false -> less x z = false;
}.

Class StdSortLaws (S : StdSort) : Prop := {
  std_sort_perm {A} (less : A -> A -> bool) l : StrictWeak less -> std_sort less l ≡ₚ l;
  std_sort_sorted {A} (less : A -> A -> bool) l : StrictWeak less ->
    StronglySorted (fun x y => less y x = false) (std_sort less l);
}.

(** Insertion sort: one of the permitted behaviours. *)
Fixpoint isort_insert {A} (less : A -> A -> bool) (x : A) (l : list A) : list A :=
  match l with
  | [] => [x]
  | y :: rest => if less y x then y :: isort_insert less x rest else x :: l
  end.
Fixpoint isort {A} (less : A -> A -> bool) (l : list A) : list A :=
  match l with [] => [] | x :: rest => isort_insert less x (isort less rest) end.

#[global] Instance insertion_sort : StdSort := @isort.

Lemma isort_insert_perm {A} less (x : A) l : isort_insert less x l ≡ₚ x :: l.
Proof.
  induction l as [|y l IH]; simpl; [done|]. destruct (less y x); [|done].
  rewrite IH. apply Permutation_swap.
Qed.

#[global] Instance insertion_sort_laws : StdSortLaws insertion_sort.
Proof.
  split; intros A less l [Hirr Htr Hinc]; unfold std_sort, insertion_sort;
    induction l as [|x l IH]; simpl; try done.
  - by rewrite isort_insert_perm, IH.
  - constructor.
  - induction IH as [|y l' Hs IH' Hall]; simpl; [repeat constructor|].
    destruct (less y x) eqn:E.
    + constructor; [done|]. rewrite (isort_insert_perm less x l'). constructor; [|done].
      destruct (less x y) eqn:E2; [|done].
      by rewrite <- (Hirr x), (Htr x y x E2 E).
    + constructor; [by constructor|]. constructor; [done|].
      eapply Forall_impl; [exact Hall|]. intros z Hz. exact (Hinc z y x Hz E).
Qed.

Lemma strict_weak_Z {A} (f : A -> Z) : StrictWeak (fun x y => f x <? f y).
Proof. split; intros *; rewrite ?Z.ltb_lt, ?Z.ltb_ge; lia. Qed.
Lemma strict_weak_bytes {A} (f : A -> bytes) : StrictWeak (fun x y => bltb (f x) (f y)).
Proof.
  split; intros *; rewrite ?bltb_lt, ?bltb_ge.
  - border.
  - border.
  - border.
Qed.
#[global] Hint Resolve strict_weak_Z strict_weak_bytes : bitlsm.

(** ** CRoaring *)
Class RoaringOps := {
  Roaring : Type;
  r_empty : Roaring;
  r_contains : Roaring -> Z -> bool;
  r_add : Roaring -> Z -> Roaring;
  r_or : Roaring -> Roaring -> Roaring;
  r_and : Roaring -> Roaring -> Roaring;
  r_andnot : Roaring -> Roaring -> Roaring;
  r_fastunion : list Roaring -> Roaring;
  r_addRange : Roaring -> Z -> Z -> Roaring;  (** the ids of [min, max) *)
  r_isEmpty : Roaring -> bool;
  r_toUint32Array : Roaring -> list Z;
  r_cardinality : Roaring -> Z;
  r_runOptimize : Roaring -> Roaring;
  r_getFrozenSizeInBytes : Roaring -> Z;
  r_writeFrozen : Roaring -> bytes;
  r_frozenView : bytes -> Roaring;
}.

Class RoaringLaws (R : RoaringOps) : Prop := {
  contains_empty x : r_contains r_empty x = false;
  contains_add r x y : is_u32 x -> r_contains (r_add r x) y = (y =? x) || r_contains r y;
  contains_or r s x : r_contains (r_or r s) x = r_contains r x || r_contains s x;
  contains_and r s x : r_contains (r_and r s) x = r_contains r x && r_contains s x;
  contains_andnot r s x : r_contains (r_andnot r s) x = r_contains r x && negb (r_contains s x);
  contains_fastunion rs x : r_contains (r_fastunion rs) x = existsb (fun r => r_contains r x) rs;
  contains_addRange r a b x : 0 <= a -> b <= 2 ^ 32 -> r_contains (r_addRange r a b) x =
    r_contains r x || ((a <=? x) && (x <? b));
  isEmpty_contains r : r_isEmpty r = true <-> forall x, r_contains r x = false;
  array_sorted r : StronglySorted Z.lt (r_toUint32Array r);
  array_contains r x : x ∈ r_toUint32Array r <-> r_contains r x = true;
  cardinality_array r : r_cardinality r = zlen (r_toUint32Array r);
  contains_runOptimize r x : r_contains (r_runOptimize r) x = r_contains r x;
  zlen_writeFrozen r : zlen (r_writeFrozen r) = r_getFrozenSizeInBytes r;
  frozen_header r : 4 <= r_getFrozenSizeInBytes r;
  contains_frozenView r x : r_contains (r_frozenView (r_writeFrozen r)) x = r_contains r x;
}.

(** Sets of row ids as bit masks. *)
Fixpoint mask_array (r : N) (n : nat) : list Z :=
  match n with
  | O => []
  | S n' => mask_array r n' ++ if N.testbit r (N.of_nat n') then [Z.of_nat n'] else []
  end.

#[global] Instance mask_roaring : RoaringOps := {|
  Roaring := N;
  r_empty := 0%N;
  r_contains r x := (0 <=? x) && N.testbit r (Z.to_N x);
  r_add r x := N.setbit r (Z.to_N x);
  r_or := N.lor;
  r_and := N.land;
  r_andnot := N.ldiff;
  r_fastunion := fold_right N.lor 0%N;
  r_addRange r a b := N.lor r (N.shiftl (N.ones (Z.to_N (b - a))) (Z.to_N a));
  r_isEmpty r := N.eqb r 0;
  r_toUint32Array r := mask_array r (N.to_nat (N.size r));
  r_cardinality r := zlen (mask_array r (N.to_nat (N.size r)));
  r_runOptimize r := r;
  r_getFrozenSizeInBytes r := 4 + Z.of_N (N.size r);
  r_writeFrozen r := replicate 4 x00 ++ le_enc (N.to_nat (N.size r)) (Z.of_N r);
  r_frozenView b := Z.to_N (le_dec (drop 4 b));
|}.

Lemma mask_array_elem r n x :
  x ∈ mask_array r n <-> 0 <= x < Z.of_nat n /\ N.testbit r (Z.to_N x) = true.
Proof.
  induction n as [|n IH]; cbn [mask_array].
  - rewrite elem_of_nil. split; [done|lia].
  - rewrite elem_of_app, IH. destruct (N.testbit r (N.of_nat n)) eqn:E.
    + rewrite list_elem_of_singleton. split.
      * intros [[? ?]| ->]; [split; [lia|done]|]. split; [lia|].
        by rewrite <- E, <- nat_N_Z, N2Z.id.
      * intros [? ?]. destruct (decide (x = Z.of_nat n)); [by right|]. left. split; [lia|done].
    + rewrite elem_of_nil. split; [intros [[? ?]|[]]; split; [lia|done]|].
      intros [? Ht]. left. split; [|done]. destruct (decide (x = Z.of_nat n)) as [->|]; [|lia].
      rewrite <- nat_N_Z, N2Z.id in Ht. congruence.
Qed.

Lemma mask_array_sorted r n : StronglySorted Z.lt (mask_array r n).
Proof.
  induction n as [|n IH]; cbn [mask_array]; [constructor|].
  destruct (N.testbit r _); [|by rewrite app_nil_r].
  pose proof (fun x => proj1 (mask_array_elem r n x)) as Hlt.
  induction (mask_array r n) as [|y l IHl]; simpl; [repeat constructor|].
  apply StronglySorted_inv in IH as [Hs Hall]. constructor.
  - apply IHl; [done|]. intros x Hx. apply Hlt. by right.
  - apply Forall_app. split; [done|]. constructor; [|done].
    destruct (Hlt y) as [? _]; [by left|]. lia.
Qed.

Lemma testbit_size r n : N.testbit r n = true -> (n < N.size r)%N.
Proof.
  intros H. destruct (N.lt_ge_cases n (N.size r)) as [|Hge]; [done|]. exfalso.
  destruct (N.eq_dec r 0%N) as [->|Hr]; [by rewrite N.bits_0 in H|].
  rewrite N.size_log2 in Hge by done. rewrite N.bits_above_log2 in H by lia. done.
Qed.

#[global] Instance mask_roaring_laws : RoaringLaws mask_roaring.
Proof.
  split; intros; cbn [Roaring r_empty r_contains r_add r_or r_and r_andnot r_fastunion
    r_addRange r_isEmpty r_toUint32Array
    r_cardinality r_runOptimize r_getFrozenSizeInBytes r_writeFrozen r_frozenView mask_roaring].
  - by rewrite N.bits_0, andb_false_r.
  - unfold is_u32 in *. rewrite N.setbit_eqb. destruct (Z.leb_spec 0 y); simpl.
    + f_equal. apply eq_iff_eq_true. rewrite N.eqb_eq, Z.eqb_eq. lia.
    + symmetry. apply orb_false_iff. split; [lia|done].
  - rewrite N.lor_spec. by destruct (0 <=? x).
  - rewrite N.land_spec. by destruct (0 <=? x).
  - rewrite N.ldiff_spec. by destruct (0 <=? x).
  - induction rs as [|r rs IH]; cbn [fold_right existsb]; [by rewrite N.bits_0, andb_false_r|].
    rewrite N.lor_spec, <- IH. by destruct (0 <=? x).
  - rewrite N.lor_spec. destruct (Z.leb_spec 0 x); simpl.
    + f_equal. destruct (Z.leb_spec a x); simpl.
      * rewrite N.shiftl_spec_high' by lia. destruct (Z.ltb_spec x b).
        -- apply N.ones_spec_low. lia.
        -- apply N.ones_spec_high. lia.
      * apply N.shiftl_spec_low. lia.
    + symmetry. apply andb_false_iff. left. lia.
  - rewrite N.eqb_eq. split; [intros ->; intros; by rewrite N.bits_0, andb_false_r|].
    intros Hall. apply N.bits_inj. intros n. rewrite N.bits_0. specialize (Hall (Z.of_N n)).
    rewrite N2Z.id in Hall. by rewrite (proj2 (Z.leb_le 0 (Z.of_N n))) in Hall by lia.
  - apply mask_array_sorted.
  - rewrite mask_array_elem, andb_true_iff, Z.leb_le. split; [tauto|].
    intros [? Ht]. split; [|done]. pose proof (testbit_size _ _ Ht). lia.
  - done.
  - done.
  - rewrite zlen_app, zlen_le_enc, zlen_replicate. lia.
  - lia.
  - rewrite drop_app_length' by done. rewrite le_dec_enc_id, N2Z.id; [done|].
    pose proof (N.size_gt r) as Hs. split; [lia|].
    rewrite N_nat_Z. apply Z.lt_le_trans with (2 ^ Z.of_N (N.size r)).
    + apply N2Z.inj_lt in Hs. by rewrite N2Z.inj_pow in Hs.
    + apply Z.pow_le_mono_l. lia.
Qed.
