(* ===== verification/Intern.v ===== *)
(** * Value interning

    Models [SABIBuilder::EqualityAttrBuf] ([sabi.h], [sabi_builder.cpp]): the
    distinct values of a kEquality attribute in one arena, and a flat
    open-addressing table from value to dense id. [hash] stands for
    [std::hash<string_view>] and is an arbitrary function. *)
From Stdlib Require Import ZArith Lia Strings.Byte.
From stdpp Require Import base numbers list gmap.
From S2P Require Import Prelude.

Record ValueRef := mkValueRef { ref_offset : Z; ref_len : Z }.

Record EqualityAttrBuf := mkEqualityAttrBuf {
  eq_arena : bytes;
  value_by_id : list ValueRef;
  count_by_id : list Z;
  row_ids : list Z;
  bin_by_id : list Z;
  slot_hash_ : list Z;
  slot_id_ : list Z;
  used_ : Z;
}.

Definition kInitSlots : Z := 1024.

Definition EqualityAttrBuf_init : EqualityAttrBuf :=
  mkEqualityAttrBuf [] [] [] [] []
    (replicate (Z.to_nat kInitSlots) 0) (replicate (Z.to_nat kInitSlots) 0) 0.

Definition ValueOf (b : EqualityAttrBuf) (id : Z) : result bytes :=
  v ← zget (value_by_id b) id; zsub (eq_arena b) (ref_offset v) (ref_len v).

(** The [while (slot_id_[idx] != 0)] loop of [Intern]: the id found, or the
    empty slot reached. *)
Fixpoint probe (b : EqualityAttrBuf) (h mask : Z) (value : bytes) (fuel : nat) (idx : Z)
    : result (Z + Z) :=
  match fuel with
  | O => Fault OutOfFuel
  | S fuel' =>
      s ← zget (slot_id_ b) idx;
      if s =? 0 then Ok (inr idx) else
      sh ← zget (slot_hash_ b) idx;
      same ← (if sh =? h then v ← ValueOf b (s - 1); Ok (beqb v value) else Ok false);
      if same : bool then Ok (inl (s - 1))
      else probe b h mask value fuel' (Z.land (idx + 1) mask)
  end.

(** [while (new_id[idx] != 0) idx = (idx + 1) & mask] *)
Fixpoint free_slot (ids : list Z) (mask : Z) (fuel : nat) (idx : Z) : result Z :=
  match fuel with
  | O => Fault OutOfFuel
  | S fuel' =>
      s ← zget ids idx;
      if s =? 0 then Ok idx else free_slot ids mask fuel' (Z.land (idx + 1) mask)
  end.

(** The rehash loop of [Grow], over the old slots. *)
Fixpoint rehash (hs ids : list Z) (mask : Z) (nh nid : list Z)
    : result (list Z * list Z) :=
  match hs, ids with
  | h :: hs', s :: ids' =>
      if s =? 0 then rehash hs' ids' mask nh nid else
      idx ← free_slot nid mask (length nid) (Z.land h mask);
      nh' ← zset nh idx h;
      nid' ← zset nid idx s;
      rehash hs' ids' mask nh' nid'
  | _, _ => Ok (nh, nid)
  end.

Definition Grow (b : EqualityAttrBuf) : result EqualityAttrBuf :=
  let n := zlen (slot_id_ b) * 2 in
  '(nh, nid) ← rehash (slot_hash_ b) (slot_id_ b) (n - 1)
                 (replicate (Z.to_nat n) 0) (replicate (Z.to_nat n) 0);
  Ok (mkEqualityAttrBuf (eq_arena b) (value_by_id b) (count_by_id b) (row_ids b)
        (bin_by_id b) nh nid (used_ b)).

Section Intern.
Context (hash : bytes -> Z).

Definition Intern (b : EqualityAttrBuf) (value : bytes) : result EqualityAttrBuf :=
  let h := hash value in
  let mask := zlen (slot_id_ b) - 1 in
  found ← probe b h mask value (length (slot_id_ b)) (Z.land h mask);
  match found with
  | inl id =>
      c ← zget (count_by_id b) id;
      counts ← zset (count_by_id b) id (u32 (c + 1));
      Ok (mkEqualityAttrBuf (eq_arena b) (value_by_id b) counts (row_ids b ++ [id])
            (bin_by_id b) (slot_hash_ b) (slot_id_ b) (used_ b))
  | inr idx =>
      let id := u32 (zlen (value_by_id b)) in
      sh ← zset (slot_hash_ b) idx h;
      si ← zset (slot_id_ b) idx (u32 (id + 1));
      let b' :=
        mkEqualityAttrBuf (eq_arena b ++ value)
          (value_by_id b ++ [mkValueRef (u32 (zlen (eq_arena b))) (u32 (zlen value))])
          (count_by_id b ++ [1]) (row_ids b ++ [id]) (bin_by_id b) sh si (used_ b + 1) in
      if zlen si * 7 <=? used_ b' * 10 then Grow b' else Ok b'
  end.

Fixpoint InternAll (b : EqualityAttrBuf) (rows : list bytes) : result EqualityAttrBuf :=
  match rows with
  | [] => Ok b
  | v :: rest => b' ← Intern b v; InternAll b' rest
  end.

End Intern.

(** ** Occupied slots *)
Definition occ (ids : list Z) : nat := length (filter (fun s => s <> 0) ids).

Lemma occ_le ids : (occ ids <= length ids)%nat.
Proof. apply length_filter. Qed.

Lemma occ_cons_0 ids : occ (0 :: ids) = occ ids.
Proof. unfold occ. by rewrite filter_cons_False by lia. Qed.
Lemma occ_cons_pos s ids : s <> 0 -> occ (s :: ids) = S (occ ids).
Proof. intros H. unfold occ. by rewrite filter_cons_True by done. Qed.

Lemma occ_free ids : (occ ids < length ids)%nat -> exists p, ids !! p = Some 0.
Proof.
  unfold occ. induction ids as [|s ids IH]; simpl; [lia|].
  destruct (decide (s = 0)) as [->|Hs]; [by exists 0%nat|].
  rewrite filter_cons_True by done. simpl. intros H. destruct IH as [p Hp]; [lia|].
  by exists (S p).
Qed.

Lemma occ_set ids p s : ids !! p = Some 0 -> s <> 0 -> occ (<[p := s]> ids) = S (occ ids).
Proof.
  unfold occ. intros Hp Hs. revert p Hp.
  induction ids as [|x ids IH]; intros [|p] Hp; try discriminate Hp; simpl.
  - injection Hp as ->. rewrite filter_cons_True, filter_cons_False by lia. done.
  - destruct (decide (x = 0)) as [->|Hx].
    + rewrite !filter_cons_False by lia. by apply IH.
    + rewrite !filter_cons_True by done. simpl. by rewrite IH.
Qed.

Lemma occ_replicate n : occ (replicate n 0) = 0%nat.
Proof. unfold occ. induction n; [done|]. simpl. rewrite filter_cons_False by lia. done. Qed.

Lemma nat_least (P : nat -> Prop) `{!forall n, Decision (P n)} m :
  P m -> exists k, (k <= m)%nat /\ P k /\ forall j, (j < k)%nat -> ~ P j.
Proof.
  induction m as [m IH] using lt_wf_ind. intros Hm.
  destruct (decide (Exists P (seq 0 m))) as [He|He].
  - apply Exists_exists in He as (j & Hj & HP). apply elem_of_seq in Hj.
    destruct (IH j) as (k & ? & ? & ?); [lia|done|]. exists k. split; [lia|done].
  - exists m. split; [lia|]. split; [done|]. intros j Hj HP. apply He.
    apply Exists_exists. exists j. split; [apply elem_of_seq; lia|done].
Qed.

(** ** The table as a finite map *)

(** Position [d] of the probe sequence of hash [h] in a table of [n] slots. *)
Definition pos (n h d : Z) : nat := Z.to_nat ((h + d) mod n).

(** A table whose occupied slots are exactly the entries [id -> hash], each
    reachable from its home slot through occupied slots only. *)
Record table_ok (hs ids : list Z) (entry : gmap Z Z) : Prop := {
  t_len : length hs = length ids;
  t_pow : exists k, 0 <= k /\ zlen ids = 2 ^ k;
  t_slot p s : ids !! p = Some s -> s <> 0 -> exists h, hs !! p = Some h /\
    entry !! (s - 1) = Some h;
  t_inj p q s : ids !! p = Some s -> ids !! q = Some s -> s <> 0 -> p = q;
  t_entry id h : entry !! id = Some h -> id + 1 <> 0 /\ exists d, 0 <= d < zlen ids /\
    ids !! pos (zlen ids) h d = Some (id + 1) /\
    hs !! pos (zlen ids) h d = Some h /\
    (forall e, 0 <= e < d -> ids !! pos (zlen ids) h e <> Some 0);
}.

(** The end of the probe sequence of [h]: its first empty slot. *)
Definition probe_end (ids : list Z) (h D : Z) : Prop :=
  0 <= D < zlen ids /\ ids !! pos (zlen ids) h D = Some 0 /\
  forall e, 0 <= e < D -> ids !! pos (zlen ids) h e <> Some 0.

Section Probing.
Context (n k : Z) (Hk : 0 <= k) (Hn : n = 2 ^ k).

Lemma n_pos : 0 < n.
Proof. subst n. apply Z.pow_pos_nonneg; lia. Qed.

Lemma land_mask x : Z.land x (n - 1) = x mod n.
Proof.
  subst n. rewrite <- Z.land_ones by done. f_equal. rewrite Z.ones_equiv. lia.
Qed.

Lemma pos_lt h d : (Z.of_nat (pos n h d) < n)%Z.
Proof.
  pose proof n_pos. unfold pos. pose proof (Z.mod_pos_bound (h + d) n). lia.
Qed.
Lemma pos_val h d : Z.of_nat (pos n h d) = (h + d) mod n.
Proof.
  pose proof n_pos. unfold pos. pose proof (Z.mod_pos_bound (h + d) n). lia.
Qed.
Lemma pos_next h d : Z.land (Z.of_nat (pos n h d) + 1) (n - 1) = Z.of_nat (pos n h (d + 1)).
Proof.
  pose proof n_pos. rewrite land_mask, !pos_val, Zplus_mod_idemp_l. f_equal. lia.
Qed.
Lemma pos_home h : Z.land h (n - 1) = Z.of_nat (pos n h 0).
Proof. rewrite land_mask, pos_val. f_equal. lia. Qed.

(** A table that is not full ends every probe sequence. *)
Lemma probe_end_exists ids h :
  zlen ids = n -> (occ ids < length ids)%nat -> exists D, probe_end ids h D.
Proof.
  intros Hl Ho. pose proof n_pos. destruct (occ_free ids Ho) as [p Hp].
  pose proof (lookup_lt_Some _ _ _ Hp) as Hlt.
  pose proof (Z.mod_pos_bound (Z.of_nat p - h) n ltac:(lia)) as Hb.
  destruct (nat_least (fun d => ids !! pos n h (Z.of_nat d) = Some 0)
              (Z.to_nat ((Z.of_nat p - h) mod n))) as (D & HD & H0 & Hmin).
  { rewrite Z2Nat.id by lia. unfold pos. rewrite Zplus_mod_idemp_r.
    replace (h + (Z.of_nat p - h)) with (Z.of_nat p) by lia.
    rewrite Z.mod_small by (unfold zlen in Hl; lia). by rewrite Nat2Z.id. }
  exists (Z.of_nat D). unfold probe_end. rewrite Hl. split; [lia|]. split; [done|].
  intros e He. specialize (Hmin (Z.to_nat e)). rewrite Z2Nat.id in Hmin by lia. apply Hmin. lia.
Qed.
End Probing.

Lemma free_slot_spec ids h D d fuel k :
  0 <= k -> zlen ids = 2 ^ k -> probe_end ids h D -> 0 <= d <= D -> D - d < Z.of_nat fuel ->
  free_slot ids (zlen ids - 1) fuel (Z.of_nat (pos (zlen ids) h d)) =
    Ok (Z.of_nat (pos (zlen ids) h D)).
Proof.
  intros Hk Hn (HD & H0 & Hne). revert d. induction fuel as [|fuel IH]; intros d Hd Hf; [lia|].
  cbn [free_slot].
  assert (is_Some (ids !! pos (zlen ids) h d)) as [s Hs].
  { apply lookup_lt_is_Some. pose proof (pos_lt _ k Hk Hn h d). unfold zlen in *. lia. }
  rewrite (zget_nat _ _ s Hs). cbn [mbind result_bind].
  destruct (Z.eqb_spec s 0) as [->|Hs0].
  - destruct (decide (d = D)) as [->|]; [done|]. exfalso. apply (Hne d); [lia|done].
  - assert (d <> D) by congruence. rewrite (pos_next _ k) by done. apply IH; lia.
Qed.

(** Storing a new entry at the end of its probe sequence. *)
Lemma table_insert hs ids entry id h D :
  table_ok hs ids entry -> entry !! id = None -> id + 1 <> 0 -> probe_end ids h D ->
  table_ok (<[pos (zlen ids) h D := h]> hs) (<[pos (zlen ids) h D := id + 1]> ids)
    (<[id := h]> entry).
Proof.
  intros [Hlen (k & Hk & Hn) Hslot Hinj Hent] Hid Hid0 (HD & H0 & Hne).
  set (P := pos (zlen ids) h D) in *. pose proof (lookup_lt_Some _ _ _ H0) as HP.
  assert (zlen (<[P := id + 1]> ids) = zlen ids) as Hz by (unfold zlen; by rewrite length_insert).
  assert (Hmono : forall q, ids !! q <> Some 0 -> <[P := id + 1]> ids !! q <> Some 0).
  { intros q Hq. destruct (decide (q = P)) as [->|Hqp].
    - rewrite list_lookup_insert_eq by done. congruence.
    - by rewrite list_lookup_insert_ne. }
  assert (Hnew : forall q, ids !! q = Some (id + 1) -> False).
  { intros q Hq. destruct (Hslot q (id + 1) Hq Hid0) as (hh & _ & He).
    replace (id + 1 - 1) with id in He by lia. congruence. }
  split.
  - by rewrite !length_insert.
  - exists k. by rewrite Hz.
  - intros p s Hp Hs. destruct (decide (p = P)) as [->|Hpp].
    + rewrite list_lookup_insert_eq in Hp by done. injection Hp as <-. exists h.
      rewrite list_lookup_insert_eq by lia. split; [done|].
      replace (id + 1 - 1) with id by lia. by rewrite lookup_insert_eq.
    + rewrite list_lookup_insert_ne in Hp by done.
      destruct (Hslot p s Hp Hs) as (hh & ? & He). exists hh.
      rewrite list_lookup_insert_ne by done. split; [done|].
      rewrite lookup_insert_ne by congruence. done.
  - intros p q s Hp Hq Hs.
    destruct (decide (p = P)) as [->|Hp1], (decide (q = P)) as [->|Hq1]; [done| | |].
    + rewrite list_lookup_insert_eq in Hp by done. rewrite list_lookup_insert_ne in Hq by done.
      injection Hp as <-. by apply Hnew in Hq.
    + rewrite list_lookup_insert_eq in Hq by done. rewrite list_lookup_insert_ne in Hp by done.
      injection Hq as <-. by apply Hnew in Hp.
    + rewrite list_lookup_insert_ne in Hp, Hq by done. by eapply Hinj.
  - intros id' h' He. rewrite Hz. destruct (decide (id' = id)) as [->|Hi].
    + rewrite lookup_insert_eq in He. injection He as <-. split; [done|]. exists D.
      fold P. rewrite !list_lookup_insert_eq by lia. repeat split; try lia.
      intros e Hle. by apply Hmono, Hne.
    + rewrite lookup_insert_ne in He by done. destruct (Hent id' h' He) as (? & d & Hd & Hp & Hh & Hc).
      split; [done|]. exists d. assert (pos (zlen ids) h' d <> P) by congruence.
      rewrite !list_lookup_insert_ne by done. repeat split; try done; try lia.
      intros e Hle. by apply Hmono, Hc.
Qed.

(** ** Rehashing keeps every entry *)
Fixpoint slots_map (hs ids : list Z) : gmap Z Z :=
  match hs, ids with
  | h :: hs', s :: ids' =>
      if s =? 0 then slots_map hs' ids' else <[s - 1 := h]> (slots_map hs' ids')
  | _, _ => ∅
  end.

Lemma slots_map_lookup hs ids id h :
  (forall p q s, ids !! p = Some s -> ids !! q = Some s -> s <> 0 -> p = q) ->
  slots_map hs ids !! id = Some h <->
  id + 1 <> 0 /\ exists p, ids !! p = Some (id + 1) /\ hs !! p = Some h.
Proof.
  revert ids. induction hs as [|x hs IH]; intros [|s ids] Hinj; cbn [slots_map];
    try (rewrite lookup_empty; split; [done|]; intros (_ & p & ? & ?); by destruct p).
  assert (forall p q t, ids !! p = Some t -> ids !! q = Some t -> t <> 0 -> p = q) as Hinj'.
  { intros p q t Hp Hq Ht. by apply (Hinj (S p) (S q) t) in Hp as [= ->]. }
  destruct (Z.eqb_spec s 0) as [->|Hs].
  - rewrite IH by done. split.
    + intros (? & p & ? & ?). split; [done|]. by exists (S p).
    + intros (? & [|p] & Hp & ?); [simplify_eq/=; lia|]. split; [done|]. by exists p.
  - destruct (decide (id = s - 1)) as [->|Hid].
    + rewrite lookup_insert_eq. split.
      * intros [= ->]. split; [lia|]. exists 0%nat. split; [simpl; f_equal; lia|done].
      * intros (_ & p & Hp & Hh). assert (p = 0%nat) as ->; [|by simplify_eq/=].
        apply (Hinj _ _ s); [|done..]. rewrite Hp. f_equal. lia.
    + rewrite lookup_insert_ne, IH by done. split.
      * intros (? & p & ? & ?). split; [done|]. by exists (S p).
      * intros (? & [|p] & Hp & ?); [simplify_eq/=; lia|]. split; [done|]. by exists p.
Qed.

Lemma rehash_spec hs ids nh nid E :
  table_ok nh nid E -> length hs = length ids ->
  (forall p q s, ids !! p = Some s -> ids !! q = Some s -> s <> 0 -> p = q) ->
  (forall p s, ids !! p = Some s -> s <> 0 -> E !! (s - 1) = None) ->
  (occ nid + occ ids < length nid)%nat ->
  exists nh' nid', rehash hs ids (zlen nid - 1) nh nid = Ok (nh', nid') /\
    table_ok nh' nid' (slots_map hs ids ∪ E) /\
    length nid' = length nid /\ occ nid' = (occ nid + occ ids)%nat.
Proof.
  revert ids nh nid E. induction hs as [|h hs IH]; intros [|s ids] nh nid E Ht Hl Hinj Hfr Ho;
    try discriminate Hl.
  { exists nh, nid. cbn [slots_map rehash]. rewrite (left_id_L ∅ (∪)).
    rewrite Nat.add_0_r. done. }
  cbn [rehash slots_map].
  assert (forall p q t, ids !! p = Some t -> ids !! q = Some t -> t <> 0 -> p = q) as Hinj'.
  { intros p q t Hp Hq Hne. by apply (Hinj (S p) (S q) t) in Hp as [= ->]. }
  injection Hl as Hl. destruct (Z.eqb_spec s 0) as [->|Hs].
  - rewrite occ_cons_0 in Ho |- *. apply IH; try done. intros p t Hp. by apply (Hfr (S p)).
  - rewrite occ_cons_pos in Ho |- * by done.
    pose proof Ht as [Hln (k & Hk & Hn) _ _ _].
    destruct (probe_end_exists _ k Hk Hn nid h eq_refl) as [D HD]; [lia|].
    assert (Hpe := HD). destruct Hpe as (HD0 & HDz & _).
    rewrite (pos_home _ k Hk Hn), (free_slot_spec nid h D 0 _ k) by (done || unfold zlen in *; lia).
    cbn [mbind result_bind]. pose proof (lookup_lt_Some _ _ _ HDz) as Hlt.
    rewrite !zset_ok by lia. cbn [mbind result_bind].
    assert (E !! (s - 1) = None) as HE by (by apply (Hfr 0%nat)).
    pose proof (table_insert nh nid E (s - 1) h D Ht HE ltac:(lia) HD) as Ht'.
    replace (s - 1 + 1) with s in Ht' by lia.
    set (nid1 := <[_ := s]> nid) in *.
    assert (length nid1 = length nid) as Hl1 by apply length_insert.
    assert (occ nid1 = S (occ nid)) as Ho1 by (by apply occ_set).
    destruct (IH ids _ nid1 _ Ht' Hl Hinj') as (nh' & nid' & E1 & Ht1 & Hl' & Ho').
    + intros p t Hp Hne. rewrite lookup_insert_ne; [by apply (Hfr (S p))|].
      intros Heq. assert (t = s) as -> by lia.
      by apply (Hinj 0%nat (S p) s) in Hp.
    + lia.
    + exists nh', nid'. replace (zlen nid - 1) with (zlen nid1 - 1) by (unfold zlen; lia).
      split; [done|]. split.
      * rewrite <- insert_union_l, insert_union_r; [done|].
        apply eq_None_not_Some. intros [x Hx]. apply slots_map_lookup in Hx; [|done].
        destruct Hx as (_ & p & Hp & _). replace (s - 1 + 1) with s in Hp by lia.
        by apply (Hinj 0%nat (S p) s) in Hp.
      * split; [congruence|]. rewrite Ho', Ho1. lia.
Qed.

(** ** The buffer represents the rows interned so far *)
Fixpoint refs_of (off : Z) (vs : list bytes) : list ValueRef :=
  match vs with
  | [] => []
  | v :: rest => mkValueRef off (zlen v) :: refs_of (off + zlen v) rest
  end.

Lemma refs_of_snoc off vs v :
  refs_of off (vs ++ [v]) = refs_of off vs ++ [mkValueRef (off + zlen (concat vs)) (zlen v)].
Proof.
  revert off. induction vs as [|x vs IH]; intros off; simpl.
  - zlen0. by rewrite Z.add_0_r.
  - by rewrite IH, zlen_app, Z.add_assoc.
Qed.
Lemma refs_of_lookup off vs id v :
  vs !! id = Some v ->
  refs_of off vs !! id = Some (mkValueRef (off + zlen (concat (take id vs))) (zlen v)).
Proof.
  revert off id. induction vs as [|x vs IH]; intros off [|id] H; try discriminate H; simpl.
  - injection H as ->. zlen0. by rewrite Z.add_0_r.
  - by rewrite (IH _ _ H), zlen_app, Z.add_assoc.
Qed.
Lemma length_refs_of off vs : length (refs_of off vs) = length vs.
Proof. revert off. induction vs; simpl; auto. Qed.

(** How many rows hold a value. *)
Definition row_count (v : bytes) (rows : list bytes) : Z :=
  Z.of_nat (length (filter (fun r => r = v) rows)).

Lemma row_count_snoc v rows r :
  row_count v (rows ++ [r]) = row_count v rows + if decide (r = v) then 1 else 0.
Proof.
  unfold row_count. rewrite filter_app, length_app. destruct (decide (r = v)).
  - rewrite filter_cons_True by done. simpl. lia.
  - rewrite filter_cons_False by done. simpl. lia.
Qed.
Lemma row_count_absent v rows : v ∉ rows -> row_count v rows = 0.
Proof.
  unfold row_count. induction rows as [|r rows IH]; [done|]. intros H.
  apply not_elem_of_cons in H as [H1 H2]. rewrite filter_cons_False by congruence. by apply IH.
Qed.
Lemma row_count_bound v rows : 0 <= row_count v rows <= zlen rows.
Proof. unfold row_count, zlen. pose proof (length_filter (fun r => r = v) rows). lia. Qed.

(** [vs]: the distinct values in order of first occurrence. *)
Record eq_repr (hash : bytes -> Z) (b : EqualityAttrBuf) (vs rows : list bytes) : Prop := {
  er_nodup : NoDup vs;
  er_arena : eq_arena b = concat vs;
  er_refs : value_by_id b = refs_of 0 vs;
  er_counts : count_by_id b = map (fun v => row_count v rows) vs;
  er_rows : Forall2 (fun id r => 0 <= id /\ vs !! Z.to_nat id = Some r) (row_ids b) rows;
  er_values v : v ∈ vs <-> v ∈ rows;
  er_bins : bin_by_id b = [];
  er_table : exists entry, table_ok (slot_hash_ b) (slot_id_ b) entry /\
    forall id h, entry !! id = Some h <->
      0 <= id /\ exists v, vs !! Z.to_nat id = Some v /\ h = hash v;
  er_used : used_ b = zlen vs /\ occ (slot_id_ b) = length vs;
  er_load : used_ b * 10 < zlen (slot_id_ b) * 7;
}.

(** What interning promises: ids name the distinct values. *)
Lemma ValueOf_repr hash b vs rows id v :
  eq_repr hash b vs rows -> vs !! id = Some v -> ValueOf b (Z.of_nat id) = Ok v.
Proof.
  intros Hr Hv. unfold ValueOf. rewrite (er_refs _ _ _ _ Hr), (er_arena _ _ _ _ Hr).
  rewrite (zget_nat _ _ _ (refs_of_lookup 0 vs id v Hv)). cbn [mbind result_bind ref_offset ref_len].
  rewrite <- (take_drop_middle vs id v Hv) at 1. rewrite concat_app. cbn [concat].
  by apply zsub_app.
Qed.

Lemma eq_repr_init hash : eq_repr hash EqualityAttrBuf_init [] [].
Proof.
  split; try done; try constructor.
  - exists ∅. split.
    + split; cbn [EqualityAttrBuf_init slot_hash_ slot_id_].
      * by rewrite !length_replicate.
      * exists 10. split; [lia|]. by rewrite zlen_replicate.
      * intros p s Hp. apply lookup_replicate in Hp as [-> _]. done.
      * intros p q s Hp _. apply lookup_replicate in Hp as [-> _]. done.
      * intros id h. by rewrite lookup_empty.
    + intros id h. rewrite lookup_empty. split; [done|]. by intros (_ & v & ? & _).
Qed.

Section InternSpec.
Context (hash : bytes -> Z) (b : EqualityAttrBuf) (vs rows : list bytes).
Context (Hr : eq_repr hash b vs rows).
Context (entry : gmap Z Z) (Ht : table_ok (slot_hash_ b) (slot_id_ b) entry).
Context (He : forall id h, entry !! id = Some h <->
    0 <= id /\ exists v, vs !! Z.to_nat id = Some v /\ h = hash v).
Context (k : Z) (Hk : 0 <= k) (Hn : zlen (slot_id_ b) = 2 ^ k).
Context (h D : Z) (HD : probe_end (slot_id_ b) h D).
Local Abbreviation n := (zlen (slot_id_ b)).

Lemma slot_value p s :
  slot_id_ b !! p = Some s -> s <> 0 -> exists v,
    vs !! Z.to_nat (s - 1) = Some v /\ 0 <= s - 1 /\
    slot_hash_ b !! p = Some (hash v) /\ ValueOf b (s - 1) = Ok v.
Proof.
  intros Hp Hs. destruct (t_slot _ _ _ Ht p s Hp Hs) as (hh & Hh & E).
  apply He in E as (Hs0 & v & Hv & ->). exists v. split; [done|]. split; [done|].
  split; [done|]. rewrite <- (Z2Nat.id (s - 1)) by done. by apply (ValueOf_repr hash _ vs rows).
Qed.

Lemma probe_spec value d fuel :
  0 <= d <= D -> D - d < Z.of_nat fuel ->
  exists r, probe b h (n - 1) value fuel (Z.of_nat (pos n h d)) = Ok r /\
    match r with
    | inl id => 0 <= id /\ vs !! Z.to_nat id = Some value
    | inr idx => idx = Z.of_nat (pos n h D) /\
        forall e s, d <= e < D -> slot_id_ b !! pos n h e = Some s ->
          slot_hash_ b !! pos n h e = Some h -> vs !! Z.to_nat (s - 1) <> Some value
    end.
Proof.
  destruct HD as (HD0 & HDz & Hne).
  revert d. induction fuel as [|fuel IH]; intros d Hd Hf; [lia|]. cbn [probe].
  assert (is_Some (slot_id_ b !! pos n h d)) as [s Hs].
  { apply lookup_lt_is_Some. pose proof (pos_lt _ k Hk Hn h d). unfold zlen in *. lia. }
  rewrite (zget_nat _ _ s Hs). cbn [mbind result_bind].
  destruct (Z.eqb_spec s 0) as [->|Hs0].
  - exists (inr (Z.of_nat (pos n h d))). split; [done|].
    destruct (decide (d = D)) as [->|]; [|exfalso; apply (Hne d); [lia|done]].
    split; [done|lia].
  - assert (d <> D) by congruence.
    destruct (slot_value _ _ Hs Hs0) as (v & Hv & Hpos & Hh & Hval).
    rewrite (zget_nat _ _ _ Hh). cbn [mbind result_bind].
    assert (exists c : bool, (if hash v =? h then v0 ← ValueOf b (s - 1); Ok (beqb v0 value)
      else Ok false) = Ok c /\ (c = true <-> hash v = h /\ v = value)) as (c & -> & Hc).
    { destruct (Z.eqb_spec (hash v) h).
      - rewrite Hval. exists (beqb v value). split; [done|]. rewrite beqb_eq. tauto.
      - exists false. split; [done|]. split; [done|tauto]. }
    cbn [mbind result_bind]. destruct c.
    + exists (inl (s - 1)). split; [done|]. split; [done|].
      destruct (proj1 Hc eq_refl) as [_ <-]. done.
    + rewrite (pos_next _ k) by done. destruct (IH (d + 1)) as (r & E & Hspec); [lia..|].
      exists r. split; [done|]. destruct r as [id|idx]; [done|].
      destruct Hspec as [-> Hno]. split; [done|]. intros e s' He' Hes Heh.
      destruct (decide (e = d)) as [->|]; [|apply (Hno e); [lia|done..]].
      assert (s' = s) as -> by congruence. rewrite Hv. intros [= ->].
      assert (hash value = h) as Heq by congruence.
      by discriminate (proj2 Hc (conj Heq eq_refl)).
Qed.

(** A value already interned is found before the probe sequence ends. *)
Lemma probe_finds value : h = hash value ->
  exists r, probe b h (n - 1) value (length (slot_id_ b)) (Z.of_nat (pos n h 0)) = Ok r /\
    match r with
    | inl id => 0 <= id /\ vs !! Z.to_nat id = Some value
    | inr idx => idx = Z.of_nat (pos n h D) /\ value ∉ vs
    end.
Proof.
  intros Hh. destruct (probe_spec value 0 (length (slot_id_ b))) as (r & E & Hspec).
  { destruct HD as (? & _). lia. }
  { destruct HD as (? & _). unfold zlen in *. lia. }
  exists r. split; [done|]. destruct r as [id|idx]; [done|].
  destruct Hspec as [-> Hno]. split; [done|]. intros Hin.
  apply list_elem_of_lookup in Hin as [i Hi].
  assert (entry !! Z.of_nat i = Some h) as Hent.
  { apply He. split; [lia|]. exists value. by rewrite Nat2Z.id. }
  destruct (t_entry _ _ _ Ht _ _ Hent) as (Hnz & d & Hd & Hids & Hhs & Hbefore).
  destruct HD as (HD0 & HDz & Hne).
  assert (d < D).
  { destruct (Z.lt_ge_cases d D) as [|Hge]; [done|]. exfalso.
    destruct (decide (d = D)) as [->|]; [|apply (Hbefore D); [lia|done]].
    rewrite Hids in HDz. congruence. }
  apply (Hno d _ ltac:(lia) Hids Hhs). by replace (Z.of_nat i + 1 - 1) with (Z.of_nat i) by lia;
    rewrite Nat2Z.id.
Qed.
End InternSpec.

(** Growing keeps the entries and halves the load. *)
Lemma Grow_spec b entry :
  table_ok (slot_hash_ b) (slot_id_ b) entry ->
  exists nh nid, Grow b = Ok (mkEqualityAttrBuf (eq_arena b) (value_by_id b) (count_by_id b)
      (row_ids b) (bin_by_id b) nh nid (used_ b)) /\
    table_ok nh nid entry /\ zlen nid = zlen (slot_id_ b) * 2 /\ occ nid = occ (slot_id_ b).
Proof.
  intros Ht. pose proof Ht as [Hlen (k & Hk & Hn) Hslot Hinj Hent]. unfold Grow.
  set (N := Z.to_nat (zlen (slot_id_ b) * 2)). pose proof (occ_le (slot_id_ b)) as Hocc.
  assert (0 < zlen (slot_id_ b)) by (rewrite Hn; apply Z.pow_pos_nonneg; lia).
  assert (Z.of_nat N = zlen (slot_id_ b) * 2) as HN by lia.
  assert (table_ok (replicate N 0) (replicate N 0) ∅) as H0.
  { split.
    - done.
    - exists (k + 1). split; [lia|]. rewrite zlen_replicate, HN, Hn, Z.pow_add_r by lia. lia.
    - intros p s Hp. apply lookup_replicate in Hp as [-> _]. done.
    - intros p q s Hp _. apply lookup_replicate in Hp as [-> _]. done.
    - intros id h. by rewrite lookup_empty. }
  destruct (rehash_spec _ _ _ _ _ H0 Hlen Hinj) as (nh & nid & E & Ht' & Hl & Ho).
  { intros p s _ _. by rewrite lookup_empty. }
  { rewrite occ_replicate, length_replicate. unfold zlen in *. lia. }
  rewrite zlen_replicate, HN in E. rewrite E. cbn [mbind result_bind].
  exists nh, nid. split; [done|]. rewrite (right_id_L ∅ (∪)) in Ht'.
  assert (slots_map (slot_hash_ b) (slot_id_ b) = entry) as Heq.
  { apply map_eq. intros id. apply option_eq. intros h. rewrite slots_map_lookup by done. split.
    - intros (Hz & p & Hp & Hh). destruct (Hslot p _ Hp Hz) as (h' & Hh' & He).
      replace (id + 1 - 1) with id in He by lia. congruence.
    - intros He. destruct (Hent id h He) as (Hz & d & _ & Hi & Hh & _). split; [done|]. by eexists. }
  rewrite Heq in Ht'. split; [done|]. split.
  - unfold zlen at 1. by rewrite Hl, length_replicate.
  - by rewrite Ho, occ_replicate.
Qed.

(** Interning a value that is already there only counts the row. *)
Lemma repr_again hash b vs rows value id :
  eq_repr hash b vs rows -> zlen rows + 1 < 2 ^ 32 ->
  0 <= id -> vs !! Z.to_nat id = Some value ->
  exists counts, (c ← zget (count_by_id b) id; zset (count_by_id b) id (u32 (c + 1))) = Ok counts /\
  eq_repr hash (mkEqualityAttrBuf (eq_arena b) (value_by_id b) counts (row_ids b ++ [id])
    (bin_by_id b) (slot_hash_ b) (slot_id_ b) (used_ b)) vs (rows ++ [value]).
Proof.
  intros Hr Hlt Hid Hv. pose proof (er_counts _ _ _ _ Hr) as Hc.
  assert (count_by_id b !! Z.to_nat id = Some (row_count value rows)) as Hcl.
  { rewrite Hc, list_lookup_fmap, Hv. done. }
  pose proof (lookup_lt_Some _ _ _ Hcl) as Hlt'.
  rewrite (proj2 (zget_lookup _ _ _) (conj Hid Hcl)). cbn [mbind result_bind].
  rewrite zset_okZ by done.
  eexists. split; [done|].
  pose proof (row_count_bound value rows).
  rewrite u32_small by (unfold is_u32; lia).
  destruct Hr as [Hnd Ha Hrf _ Hrw Hvs Hb Ht Hu Hl]. split; try done; cbn.
  - rewrite Hc. apply list_eq_same_length with (length vs);
      rewrite ?length_insert, ?length_map; try done.
    intros i x y Hi Hx Hy.
    apply list_lookup_fmap_Some in Hy as (v & -> & Hvi). rewrite row_count_snoc.
    destruct (decide (i = Z.to_nat id)) as [->|Hne].
    + rewrite list_lookup_insert_eq in Hx by (rewrite length_map; done). injection Hx as <-.
      assert (v = value) as -> by congruence. by rewrite decide_True.
    + rewrite list_lookup_insert_ne in Hx by done.
      apply list_lookup_fmap_Some in Hx as (v' & -> & Hv').
      assert (v' = v) as -> by congruence.
      rewrite decide_False; [lia|]. intros ->. apply Hne.
      by eapply (NoDup_lookup vs).
  - apply Forall2_app; [done|]. by repeat constructor.
  - intros v. rewrite elem_of_app, list_elem_of_singleton, Hvs. split; [tauto|].
    intros [?| ->]; [done|]. apply Hvs. by eapply list_elem_of_lookup_2.
Qed.

(** A new value takes the next id and the end of its probe sequence. *)
Lemma repr_new hash b vs rows value sh' si' entry' :
  eq_repr hash b vs rows -> value ∉ vs ->
  zlen (concat vs) + zlen value < 2 ^ 32 ->
    (forall id h, entry' !! id = Some h <-> 0 <= id /\ exists v,
       (vs ++ [value]) !! Z.to_nat id = Some v /\ h = hash v) ->
    table_ok sh' si' entry' -> occ si' = S (length vs) ->
    (used_ b + 1) * 10 < zlen si' * 7 ->
  eq_repr hash (mkEqualityAttrBuf (eq_arena b ++ value)
    (value_by_id b ++ [mkValueRef (u32 (zlen (eq_arena b))) (u32 (zlen value))])
    (count_by_id b ++ [1]) (row_ids b ++ [zlen vs]) (bin_by_id b) sh' si' (used_ b + 1))
    (vs ++ [value]) (rows ++ [value]).
Proof.
  intros [Hnd Ha Hrf Hc Hrw Hvs Hb Ht [Hu1 Hu2] Hl] Hnew Hlt He' Ht' Ho Hld.
  pose proof (zlen_nonneg (concat vs)). pose proof (zlen_nonneg value).
  split; cbn [eq_arena value_by_id count_by_id row_ids bin_by_id slot_hash_ slot_id_ used_];
    try done.
  - apply NoDup_app. split; [done|]. split; [|apply NoDup_singleton].
    intros x Hx ->%list_elem_of_singleton. done.
  - rewrite concat_app. simpl. by rewrite app_nil_r, Ha.
  - rewrite refs_of_snoc, Hrf, Ha, Z.add_0_l, !u32_small by (unfold is_u32; lia). done.
  - rewrite map_app, Hc. simpl. f_equal.
    + apply map_ext_in. intros v Hv%list_elem_of_In. rewrite row_count_snoc.
      rewrite decide_False; [lia|]. intros ->. done.
    + f_equal. rewrite row_count_snoc, decide_True by done.
      rewrite row_count_absent; [done|]. by rewrite <- Hvs.
  - apply Forall2_app.
    + eapply Forall2_impl; [exact Hrw|]. intros id r [? ?]. split; [done|].
      by apply lookup_app_l_Some.
    + constructor; [|done]. split; [apply zlen_nonneg|]. unfold zlen. rewrite Nat2Z.id.
      by apply list_lookup_middle.
  - intros v. rewrite !elem_of_app, Hvs. done.
  - exists entry'. done.
  - rewrite zlen_snoc, Hu1, length_app. simpl. split; lia.
Qed.

(** The next id is free, and taking it extends the entries by one value. *)
Lemma entry_extend (hash : bytes -> Z) vs (entry : gmap Z Z) value :
  (forall id h, entry !! id = Some h <->
     0 <= id /\ exists v, vs !! Z.to_nat id = Some v /\ h = hash v) ->
  entry !! zlen vs = None /\
  forall id h, <[zlen vs := hash value]> entry !! id = Some h <->
    0 <= id /\ exists v, (vs ++ [value]) !! Z.to_nat id = Some v /\ h = hash v.
Proof.
  intros He. split.
  - apply eq_None_not_Some. intros [h Hh]. apply He in Hh as (_ & v & Hv & _).
    apply lookup_lt_Some in Hv. unfold zlen in Hv. lia.
  - intros id h. rewrite lookup_insert_Some, He. unfold zlen. split.
    + intros [[<- <-]|[Hne (Hi & v & Hv & ->)]].
      * split; [lia|]. exists value. rewrite Nat2Z.id. split; [by apply list_lookup_middle|done].
      * split; [done|]. exists v. split; [by apply lookup_app_l_Some|done].
    + intros (Hi & v & Hv & ->). apply lookup_app_Some in Hv as [Hv|[Hge Hv]].
      * right. split; [apply lookup_lt_Some in Hv; lia|]. by eauto.
      * left. apply list_lookup_singleton_Some in Hv as [Hz ->]. split; [lia|done].
Qed.

Lemma Intern_spec hash b vs rows value :
  eq_repr hash b vs rows ->
  zlen rows + 1 < 2 ^ 32 -> zlen vs + 1 < 2 ^ 32 -> zlen (concat vs) + zlen value < 2 ^ 32 ->
  exists b', Intern hash b value = Ok b' /\
    eq_repr hash b' (if decide (value ∈ vs) then vs else vs ++ [value]) (rows ++ [value]).
Proof.
  intros Hr Hrows Hvs Hbytes. destruct (er_table _ _ _ _ Hr) as (entry & Ht & He).
  destruct (er_used _ _ _ _ Hr) as [Hu Ho]. pose proof (er_load _ _ _ _ Hr) as Hload.
  pose proof Ht as [Hlen (k & Hk & Hn) _ _ _].
  assert (0 < zlen (slot_id_ b)) by (rewrite Hn; apply Z.pow_pos_nonneg; lia).
  destruct (probe_end_exists _ k Hk Hn (slot_id_ b) (hash value) eq_refl) as [D HD].
  { unfold zlen in *. lia. }
  unfold Intern. rewrite (pos_home _ k Hk Hn).
  destruct (probe_finds hash b vs rows Hr entry Ht He k Hk Hn (hash value) D HD value eq_refl)
    as (r & -> & Hspec). cbn [mbind result_bind].
  destruct r as [id|idx].
  - destruct Hspec as [Hid Hv]. rewrite decide_True by (by eapply list_elem_of_lookup_2).
    destruct (repr_again hash b vs rows value id Hr Hrows Hid Hv) as (counts & Ec & Hrep).
    eexists. split; [|exact Hrep].
    apply result_bind_ok in Ec as (c & -> & Ec). cbn [mbind result_bind]. by rewrite Ec.
  - destruct Hspec as [-> Hnew]. rewrite decide_False by done.
    assert (zlen (value_by_id b) = zlen vs) as Hzv.
    { rewrite (er_refs _ _ _ _ Hr). unfold zlen. by rewrite length_refs_of. }
    pose proof (zlen_nonneg vs). rewrite Hzv.
    rewrite (u32_small (zlen vs)), (u32_small (zlen vs + 1)) by (unfold is_u32; lia).
    pose proof HD as (HD0 & HDz & HDne).
    pose proof (lookup_lt_Some _ _ _ HDz) as Hlt. rewrite !zset_ok by lia. cbn [mbind result_bind].
    set (entry' := <[zlen vs := hash value]> entry).
    destruct (entry_extend hash vs entry value He) as [Hfresh He']. fold entry' in He'.
    pose proof (table_insert _ _ _ (zlen vs) (hash value) D Ht Hfresh ltac:(lia) HD) as Ht'.
    assert (Ho' := occ_set _ _ (zlen vs + 1) HDz ltac:(lia)). rewrite Ho in Ho'.
    set (sh := <[_ := hash value]> (slot_hash_ b)) in *.
    set (si := <[_ := zlen vs + 1]> (slot_id_ b)) in *.
    assert (zlen si = zlen (slot_id_ b)) as Hsi by (unfold zlen, si; by rewrite length_insert).
    cbn [used_]. destruct (Z.leb_spec (zlen si * 7) ((used_ b + 1) * 10)).
    + destruct (Grow_spec (mkEqualityAttrBuf (eq_arena b ++ value)
        (value_by_id b ++ [mkValueRef (u32 (zlen (eq_arena b))) (u32 (zlen value))])
        (count_by_id b ++ [1]) (row_ids b ++ [zlen vs]) (bin_by_id b) sh si (used_ b + 1))
        entry' Ht') as (nh & nid & -> & Hg & Hgl & Hgo).
      eexists. split; [done|]. cbn [eq_arena value_by_id count_by_id row_ids bin_by_id slot_hash_ slot_id_ used_]
        in Hgl, Hgo |- *.
      apply (repr_new hash b vs rows value nh nid entry'); try done; [congruence|].
      rewrite Hgl, Hsi. lia.
    + eexists. split; [done|].
      by apply (repr_new hash b vs rows value sh si entry').
Qed.

(** The distinct values of a list of rows, in order of first occurrence. *)
Fixpoint distinct_from (vs rows : list bytes) : list bytes :=
  match rows with
  | [] => vs
  | v :: rest => distinct_from (if decide (v ∈ vs) then vs else vs ++ [v]) rest
  end.

Lemma distinct_from_size vs rows :
  zlen vs <= zlen (distinct_from vs rows) <= zlen vs + zlen rows /\
  zlen (concat (distinct_from vs rows)) <= zlen (concat vs) + zlen (concat rows).
Proof.
  revert vs. induction rows as [|v rows IH]; intros vs; cbn [distinct_from concat].
  - zlen0. lia.
  - rewrite zlen_cons, zlen_app. pose proof (zlen_nonneg v).
    destruct (decide (v ∈ vs)); [specialize (IH vs); lia|].
    specialize (IH (vs ++ [v])). rewrite zlen_snoc, concat_app, zlen_app in IH.
    cbn [concat] in IH. rewrite app_nil_r in IH. lia.
Qed.

Lemma InternAll_spec hash b vs rows0 rows :
  eq_repr hash b vs rows0 ->
  zlen rows0 + zlen rows < 2 ^ 32 -> zlen vs + zlen rows < 2 ^ 32 ->
  zlen (concat vs) + zlen (concat rows) < 2 ^ 32 ->
  exists b', InternAll hash b rows = Ok b' /\
    eq_repr hash b' (distinct_from vs rows) (rows0 ++ rows).
Proof.
  revert b vs rows0. induction rows as [|v rows IH]; intros b vs rows0 Hr H1 H2 H3.
  - exists b. by rewrite app_nil_r.
  - rewrite zlen_cons in H1, H2. cbn [concat] in H3. rewrite zlen_app in H3.
    pose proof (zlen_nonneg rows). pose proof (zlen_nonneg (concat rows)).
    pose proof (zlen_nonneg v).
    destruct (Intern_spec hash b vs rows0 v Hr) as (b1 & E & Hr1); [lia..|].
    cbn [InternAll distinct_from]. rewrite E. cbn [mbind result_bind].
    rewrite (cons_middle v rows0 rows), app_assoc. apply IH; [done|..].
    + rewrite zlen_snoc. lia.
    + destruct (decide (v ∈ vs)); rewrite ?zlen_snoc; lia.
    + destruct (decide (v ∈ vs)); [lia|]. rewrite concat_app, zlen_app. cbn [concat].
      rewrite app_nil_r. lia.
Qed.

(** (C36) Interning is a bijection between the distinct values and the dense
    ids, whatever the hash function: after any sequence of rows (within the
    32-bit limits of the buffer) every probe loop has ended, each row's id
    names its value, the counts are the exact occurrence counts, and ids and
    distinct values are as many as [value_by_id] holds. *)
Theorem InternAll_correct (hash : bytes -> Z) (rows : list bytes) :
  zlen rows < 2 ^ 32 -> zlen (concat rows) < 2 ^ 32 ->
  exists b, InternAll hash EqualityAttrBuf_init rows = Ok b /\
    length (row_ids b) = length rows /\
    (forall i r, rows !! i = Some r -> exists id, row_ids b !! i = Some id /\
       ValueOf b id = Ok r /\ zget (count_by_id b) id = Ok (row_count r rows)) /\
    (forall i j r s, rows !! i = Some r -> rows !! j = Some s ->
       row_ids b !! i = row_ids b !! j <-> r = s) /\
    length (value_by_id b) = length (distinct_from [] rows) /\ NoDup (distinct_from [] rows).
Proof.
  intros H1 H2.
  destruct (InternAll_spec hash _ [] [] rows (eq_repr_init hash)) as (b & E & Hr); [cbn [concat]; zlen0; lia..|].
  exists b. split; [done|]. simpl in Hr. set (vs := distinct_from [] rows) in *.
  pose proof (er_rows _ _ _ _ Hr) as Hrows.
  assert (forall i r, rows !! i = Some r -> exists id, row_ids b !! i = Some id /\
    0 <= id /\ vs !! Z.to_nat id = Some r) as Hat.
  { intros i r Hi. destruct (Forall2_lookup_r _ _ _ _ _ Hrows Hi) as (id & ? & ?). by exists id. }
  split; [by eapply Forall2_length|]. split; [|split; [|split]].
  - intros i r Hi. destruct (Hat i r Hi) as (id & Hid & H0 & Hv). exists id. split; [done|].
    split.
    + rewrite <- (Z2Nat.id id) by done. by eapply ValueOf_repr.
    + apply zget_lookup. split; [done|].
      rewrite (er_counts _ _ _ _ Hr), list_lookup_fmap, Hv. done.
  - intros i j r s Hi Hj. destruct (Hat i r Hi) as (id & -> & H0 & Hv).
    destruct (Hat j s Hj) as (id' & -> & H0' & Hv'). split.
    + intros [= ->]. congruence.
    + intros ->. f_equal. apply Z2Nat.inj; [done..|].
      by eapply (NoDup_lookup vs); [apply Hr|..].
  - by rewrite (er_refs _ _ _ _ Hr), length_refs_of.
  - apply Hr.
Qed.

Lemma InternAll_correct_witness :
  let rows := [[x61]; [x62; x63]; [x61]; []] in
  zlen rows < 2 ^ 32 /\ exists b,
    InternAll (fun _ => 7) EqualityAttrBuf_init rows = Ok b /\ length (row_ids b) = 4%nat.
Proof.
  intros rows. split; [reflexivity|].
  destruct (InternAll_correct (fun _ => 7) rows) as (b & E & H & _); [reflexivity..|].
  exists b. split; [exact E|exact H].
Defined.
