(* ===== verification/RangeBuf.v ===== *)
(** * Range attribute buffers and their binning

    Models [SABIBuilder::RangeAttrBuf] and [SABIBuilder::SetRangeBinningPolicy]
    ([sabi.h], [sabi_builder.cpp]): the values of a kRange attribute, their
    sort into runs of equal values, the sweep that cuts the runs into bins of
    near-equal mass and the assignment of every row to its bin. *)
From Stdlib Require Import ZArith Lia Strings.Byte Floats.SpecFloat Sorting.Sorted.
From stdpp Require Import base numbers list sets sorting.
From S2P Require Import Prelude Floats Row Okey BytesList Externals.

Record RangeAttrBuf := mkRangeAttrBuf {
  r_values : BytesList;
  r_sorted : list Z;
  run_start : list Z;
  r_distinct : Z;
  uniform_len : Z;
  bin_of_row : list Z;
}.

Definition RangeAttrBuf_init : RangeAttrBuf := mkRangeAttrBuf bl_empty [] [] 0 (-2) [].

Definition Push (b : RangeAttrBuf) (v : bytes) : RangeAttrBuf :=
  let len := s32 (zlen v) in
  let ul :=
    if uniform_len b =? -2 then len
    else if negb (uniform_len b =? len) then -1 else uniform_len b in
  mkRangeAttrBuf (push_back (r_values b) v) (r_sorted b) (run_start b) (r_distinct b)
    ul (bin_of_row b).

(** The integers [0 .. n-1]. *)
Definition iota (n : Z) : list Z := map Z.of_nat (seq 0 (Z.to_nat n)).

(** [if (i == 0 || key[i] != key[i-1]) run_start.push_back(i)], over the sorted
    keys. *)
Fixpoint cut_runs {K} (eqb : K -> K -> bool) (i : Z) (prev : option K) (keys : list K)
    : list Z :=
  match keys with
  | [] => []
  | k :: rest =>
      let same := match prev with Some p => eqb k p | None => false end in
      (if same then [] else [i]) ++ cut_runs eqb (i + 1) (Some k) rest
  end.

(** All elements of a packed list, read through [operator[]]. *)
Definition read_all (l : BytesList) (n : Z) : result (list bytes) := mapM (bl_get l) (iota n).

Section Sort.
Context `{StdSort}.

(** The two sorting branches: row positions in value order and run starts. *)
Definition sort_rows (ulen n : Z) (vals : list bytes) : result (list Z * list Z) :=
  if ulen =? s32 kOkeyBytes then
    keys ← mapM OkeyFromBytes vals;
    let recs := std_sort (fun x y => fst x <? fst y) (zip keys (iota n)) in
    Ok (map snd recs, cut_runs Z.eqb 0 None (map fst recs))
  else
    let at_ (i : Z) := vals !!! Z.to_nat i in
    let sorted := std_sort (fun x y => bltb (at_ x) (at_ y)) (iota n) in
    Ok (sorted, cut_runs beqb 0 None (map at_ sorted)).

Definition Sort (b : RangeAttrBuf) : result RangeAttrBuf :=
  let n := u32 (size (r_values b)) in
  vals ← read_all (r_values b) n;
  '(sorted, starts) ← sort_rows (uniform_len b) n vals;
  Ok (mkRangeAttrBuf (r_values b) sorted (starts ++ if 0 <? n then [n] else [])
        (zlen starts) (uniform_len b) (bin_of_row b)).
End Sort.

(** ** SetRangeBinningPolicy *)

(** The sweep's state. *)
Record sweep := mkSweep {
  remaining_mass : Z;
  remaining_bins : Z;
  cur : Z;
  boundaries : BytesList;
  boundary_run : list Z;
}.

(** [own_bin || nearer_before] *)
Definition close_before (s : sweep) (run : Z) : bool :=
  let target := f64_div (f64_of_Z (remaining_mass s)) (f64_of_Z (remaining_bins s)) in
  let own_bin := SFleb target (f64_of_Z run) in
  let nearer_before :=
    SFleb (SFabs (f64_sub (f64_of_Z (cur s)) target))
          (SFabs (f64_sub (f64_of_Z (u64 (cur s + run))) target)) in
  own_bin || nearer_before.

(** One run of the sweep. *)
Definition sweep_run (v : BytesList) (sorted runs : list Z) (r : Z) (s : sweep)
    : result sweep :=
  hi ← zget runs (r + 1);
  lo ← zget runs r;
  let run := u32 (hi - lo) in
  s' ← (if (0 <? cur s) && (1 <? remaining_bins s) && close_before s run then
          row ← zget sorted lo;
          bv ← bl_get v row;
          Ok (mkSweep (u64 (remaining_mass s - cur s)) (u32 (remaining_bins s - 1)) 0
                (push_back (boundaries s) bv) (boundary_run s ++ [u32 r]))
        else Ok s);
  Ok (mkSweep (remaining_mass s') (remaining_bins s') (u64 (cur s' + run))
        (boundaries s') (boundary_run s')).

Fixpoint sweep_loop (v : BytesList) (sorted runs : list Z) (r : Z) (n : nat) (s : sweep)
    : result sweep :=
  match n with
  | O => Ok s
  | S n' => s' ← sweep_run v sorted runs r s; sweep_loop v sorted runs (r + 1) n' s'
  end.

(** [while (boundaries.size() < bins + 1)] *)
Fixpoint pad_loop (fuel : nat) (bins last_run : Z) (max_value : bytes)
    (bs : BytesList) (br : list Z) : result (BytesList * list Z) :=
  match fuel with
  | O => Fault OutOfFuel
  | S fuel' =>
      if size bs <? bins + 1
      then pad_loop fuel' bins last_run max_value (push_back bs max_value) (br ++ [last_run])
      else Ok (bs, br)
  end.

(** [while (passed < boundary_run.size() && boundary_run[passed] <= r) ++passed] *)
Fixpoint advance (fuel : nat) (br : list Z) (r passed : Z) : result Z :=
  match fuel with
  | O => Fault OutOfFuel
  | S fuel' =>
      if passed <? zlen br then
        x ← zget br passed;
        if x <=? r then advance fuel' br r (passed + 1) else Ok passed
      else Ok passed
  end.

(** [for (k = runs[r]; k < runs[r+1]; ++k) bin_of_row[sorted[k]] = bin] *)
Fixpoint assign_rows (sorted : list Z) (k : Z) (n : nat) (bin : Z) (out : list Z)
    : result (list Z) :=
  match n with
  | O => Ok out
  | S n' =>
      row ← zget sorted k;
      out' ← zset out row bin;
      assign_rows sorted (k + 1) n' bin out'
  end.

Fixpoint assign_loop (sorted runs br : list Z) (bins r : Z) (n : nat) (passed : Z)
    (out : list Z) : result (list Z) :=
  match n with
  | O => Ok out
  | S n' =>
      passed' ← advance (S (length br)) br r passed;
      let bin0 := if passed' =? 0 then 0 else passed' - 1 in
      let bin := if bins <=? bin0 then u32 (bins - 1) else bin0 in
      lo ← zget runs r;
      hi ← zget runs (r + 1);
      out' ← assign_rows sorted lo (Z.to_nat (hi - lo)) bin out;
      assign_loop sorted runs br bins (r + 1) n' passed' out'
  end.

(** [boundaries.push_back("")], [n] times. *)
Fixpoint push_empty (n : nat) (bs : BytesList) : BytesList :=
  match n with O => bs | S n' => push_empty n' (push_back bs []) end.

(** The boundaries and the buffer with [bin_of_row] filled. *)
Definition SetRangeBinningPolicy (bins : Z) (buf : RangeAttrBuf)
    : result (BytesList * RangeAttrBuf) :=
  let v := r_values buf in
  let sorted := r_sorted buf in
  let runs := run_start buf in
  if zlen sorted =? 0 then Ok (push_empty (Z.to_nat (bins + 1)) bl_empty, buf) else
  let run_cnt := zlen runs - 1 in
  first_row ← zget sorted 0;
  first_value ← bl_get v first_row;
  s ← sweep_loop v sorted runs 0 (Z.to_nat run_cnt)
        (mkSweep (zlen sorted) bins 0 (push_back bl_empty first_value) [0]);
  last_row ← zget sorted (zlen sorted - 1);
  max_value ← bl_get v last_row;
  '(bs, br) ← pad_loop (S (Z.to_nat (bins + 1))) bins (u32 (run_cnt - 1)) max_value
                (boundaries s) (boundary_run s);
  bins_of ← assign_loop sorted runs br bins 0 (Z.to_nat run_cnt) 0
              (zresize (bin_of_row buf) (zlen sorted) 0);
  Ok (bs, mkRangeAttrBuf v sorted runs (r_distinct buf) (uniform_len buf) bins_of).

(** ** Sorted lists *)
Lemma StronglySorted_lookup {A} (R : relation A) l i j x y :
  StronglySorted R l -> (i < j)%nat -> l !! i = Some x -> l !! j = Some y -> R x y.
Proof.
  intros Hs. revert i j. induction Hs as [|a l Hs IH Ha]; intros i j Hij Hi Hj; [done|].
  destruct j as [|j]; [lia|]. destruct i as [|i]; simpl in Hi, Hj.
  - injection Hi as ->. rewrite Forall_forall in Ha. apply Ha. by eapply list_elem_of_lookup_2.
  - eapply IH; [|done..]. lia.
Qed.
Lemma StronglySorted_of_lookup {A} (R : relation A) l :
  (forall i j x y, (i < j)%nat -> l !! i = Some x -> l !! j = Some y -> R x y) -> StronglySorted R l.
Proof.
  induction l as [|a l IH]; intros Hl; constructor.
  - apply IH. intros i j x y Hij Hx Hy. apply (Hl (S i) (S j)); [lia|done|done].
  - apply Forall_lookup. intros i x Hx. apply (Hl 0%nat (S i)); [lia|done|done].
Qed.

Lemma StronglySorted_map {A B} (R : relation A) (S : relation B) (f : A -> B) l :
  (forall x y, x ∈ l -> y ∈ l -> R x y -> S (f x) (f y)) ->
  StronglySorted R l -> StronglySorted S (map f l).
Proof.
  intros Hf Hs. induction Hs as [|x l Hs IH Hx]; simpl; constructor.
  - apply IH. intros. apply Hf; set_solver.
  - rewrite Forall_forall in Hx. apply Forall_forall. intros y Hy.
    apply list_elem_of_fmap in Hy as (z & -> & Hz). apply Hf; [set_solver..|by apply Hx].
Qed.

Lemma snoc_sorted {A} (R : relation A) l x :
  StronglySorted R l -> Forall (fun y => R y x) l -> StronglySorted R (l ++ [x]).
Proof.
  induction 1 as [|y l Hs IH Hy]; intros HF; simpl; [repeat constructor|].
  apply Forall_cons in HF as [H1 H2]. constructor; [by apply IH|].
  apply Forall_app. split; [done|by constructor].
Qed.

(** ** Runs of equal values *)

(** A sorted list as groups of equal values. *)
Abbreviation group := (bytes * nat)%type.
Definition expand (gs : list group) : list bytes :=
  concat (map (fun g => replicate (snd g) (fst g)) gs).
Fixpoint starts (off : Z) (gs : list group) : list Z :=
  match gs with
  | [] => [off]
  | g :: rest => off :: starts (off + Z.of_nat (snd g)) rest
  end.
Record groups_ok (gs : list group) : Prop := {
  g_pos : Forall (fun g => (0 < snd g)%nat) gs;
  g_sorted : StronglySorted blt (map fst gs);
}.

Lemma groups_le gs : groups_ok gs -> (length gs <= length (expand gs))%nat.
Proof.
  intros [Hp _]. unfold expand. induction Hp as [|[y d] l Hd _ IH]; simpl; [lia|].
  rewrite length_app, length_replicate. simpl in Hd. lia.
Qed.

Lemma length_starts off gs : length (starts off gs) = S (length gs).
Proof. revert off. induction gs; intros; simpl; auto. Qed.

Lemma cut_runs_map {A K} (eqA : A -> A -> bool) (eqK : K -> K -> bool) (f : A -> K) i prev l :
  (forall a b, a ∈ l -> b ∈ l \/ prev = Some b -> eqK (f a) (f b) = eqA a b) ->
  cut_runs eqK i (f <$> prev) (map f l) = cut_runs eqA i prev l.
Proof.
  revert i prev. induction l as [|a l IH]; intros i prev H; [done|]. cbn [cut_runs map].
  f_equal.
  - destruct prev as [p|]; [|done]. cbn. rewrite H by set_solver. done.
  - apply (IH (i + 1) (Some a)). intros x y Hx Hy. apply H; [by right|].
    left. destruct Hy as [?|[= ->]]; [by right|by left].
Qed.

Lemma cut_runs_after i p l :
  StronglySorted ble l -> Forall (ble p) l ->
  exists c gs, l = replicate c p ++ expand gs /\ groups_ok gs /\ Forall (blt p) (map fst gs) /\
    cut_runs beqb i (Some p) l ++ [i + zlen l] = starts (i + Z.of_nat c) gs.
Proof.
  intros Hs. revert i p. induction Hs as [|x l Hs IH Hx]; intros i p Hp.
  { exists 0%nat, []. split; [done|]. split; [by split; constructor|]. split; [done|].
    cbn [cut_runs starts app]. zlen0. repeat f_equal; lia. }
  apply Forall_cons in Hp as [Hpx Hp]. cbn [cut_runs].
  destruct (IH (i + 1) x Hx) as (c & gs & Hl & Hg & Hlt & E).
  rewrite zlen_cons. replace (i + (zlen l + 1)) with (i + 1 + zlen l) by lia.
  destruct (beqb x p) eqn:Ebeq.
  - apply beqb_eq in Ebeq as ->. exists (S c), gs. split; [by rewrite Hl|].
    split; [done|]. split; [done|]. cbn [app]. rewrite E. f_equal. lia.
  - assert (blt p x) as Hpx'.
    { apply ble_lteq in Hpx as [?|<-]; [done|]. by rewrite (proj2 (beqb_eq p p)) in Ebeq. }
    exists 0%nat, ((x, S c) :: gs). split; [by rewrite Hl|]. split.
    { destruct Hg. split; constructor; simpl; try done. lia. }
    split.
    { simpl. constructor; [done|]. eapply Forall_impl; [exact Hlt|]. intros. border. }
    cbn [app starts snd]. rewrite E. f_equal; [lia|]. f_equal. lia.
Qed.

Lemma cut_runs_groups l :
  StronglySorted ble l ->
  exists gs, l = expand gs /\ groups_ok gs /\
    cut_runs beqb 0 None l ++ [zlen l] = starts 0 gs.
Proof.
  intros Hs. destruct Hs as [|x l Hs Hx]; [by exists []; repeat split; constructor|].
  destruct (cut_runs_after 1 x l Hs Hx) as (c & gs & Hl & Hg & Hlt & E).
  exists ((x, S c) :: gs). split; [by rewrite Hl|]. split.
  { destruct Hg. split; constructor; simpl; try done. lia. }
  cbn [cut_runs app starts snd]. change (0 + 1) with 1. rewrite zlen_cons. replace (zlen l + 1) with (1 + zlen l) by lia.
  rewrite E. do 2 f_equal. lia.
Qed.

(** ** Sort *)
Lemma elem_of_iota n i : i ∈ iota n <-> 0 <= i < n.
Proof.
  unfold iota. rewrite list_elem_of_fmap. setoid_rewrite elem_of_seq. split.
  - intros (k & -> & ?). lia.
  - intros ?. exists (Z.to_nat i). lia.
Qed.
Lemma length_iota n : length (iota n) = Z.to_nat n.
Proof. unfold iota. by rewrite length_map, length_seq. Qed.
Lemma lookup_iota n k : (k < Z.to_nat n)%nat -> iota n !! k = Some (Z.of_nat k).
Proof. intros Hk. unfold iota. rewrite list_lookup_fmap, lookup_seq_lt by done. done. Qed.

Lemma read_all_repr l vs : bl_repr l vs -> read_all l (size l) = Ok vs.
Proof.
  intros Hl. unfold read_all. rewrite (bl_repr_size _ _ Hl). apply mapM_Ok.
  apply Forall2_same_length_lookup. rewrite length_iota.
  split; [unfold zlen; lia|]. intros i x v Hx Hv.
  rewrite lookup_iota in Hx by (apply lookup_lt_Some in Hv; unfold zlen; lia).
  injection Hx as <-. by apply (bl_get_repr _ vs).
Qed.

(** Pushing keeps the values and knows when they are all okeys. *)
Definition push_all (b : RangeAttrBuf) (vs : list bytes) : RangeAttrBuf := fold_left Push vs b.

Record range_repr (b : RangeAttrBuf) (vs : list bytes) : Prop := {
  rr_values : bl_repr (r_values b) vs;
  rr_uniform : uniform_len b = kOkeyBytes -> Forall (fun v => zlen v = kOkeyBytes) vs;
  rr_empty : uniform_len b = -2 -> vs = [];
  rr_bins : bin_of_row b = [];
}.

Lemma range_repr_init : range_repr RangeAttrBuf_init [].
Proof. by split. Qed.

Lemma s32_okey z : 0 <= z < 2 ^ 32 -> s32 z = kOkeyBytes -> z = kOkeyBytes.
Proof.
  unfold s32, kOkeyBytes. intros Hz H.
  pose proof (Z.div_mod (z + 2 ^ 31) (2 ^ 32) ltac:(lia)).
  pose proof (Z.mod_pos_bound (z + 2 ^ 31) (2 ^ 32) ltac:(lia)). lia.
Qed.

Lemma Push_repr b vs v :
  range_repr b vs -> zlen (concat vs) + zlen v < 2 ^ 32 -> zlen vs + 1 < 2 ^ 32 ->
  zlen v < 2 ^ 31 -> range_repr (Push b v) (vs ++ [v]).
Proof.
  intros [Hv Hu He Hb] H1 H2 H3. pose proof (zlen_nonneg v).
  pose proof (zlen_nonneg (concat vs)).
  assert (forall x, s32 (zlen v) = x -> x = -2 -> False) as Hneg.
  { intros x <- Hx. unfold s32 in Hx. rewrite Z.mod_small in Hx; lia. }
  unfold Push. split; cbn [r_values uniform_len bin_of_row]; [by apply push_back_repr| | |done].
  - intros E. destruct (Z.eqb_spec (uniform_len b) (-2)) as [E2|E2].
    + rewrite (He E2). constructor; [|done]. apply s32_okey; [lia|done].
    + destruct (Z.eqb_spec (uniform_len b) (s32 (zlen v))) as [E3|E3]; cbn [negb] in E; [|done].
      apply Forall_app. split; [auto|]. constructor; [|done]. apply s32_okey; [lia|congruence].
  - intros E. destruct (Z.eqb_spec (uniform_len b) (-2)) as [E2|E2]; [by edestruct Hneg|].
    destruct (Z.eqb_spec (uniform_len b) (s32 (zlen v))); done.
Qed.

(** What sorting establishes: row positions in value order, cut into maximal
    runs of equal values. *)
Record sorted_ok (vs : list bytes) (b : RangeAttrBuf) (gs : list group) : Prop := {
  so_perm : r_sorted b ≡ₚ iota (zlen vs);
  so_values : map (fun i => vs !!! Z.to_nat i) (r_sorted b) = expand gs;
  so_groups : groups_ok gs;
  so_runs : run_start b = if 0 <? zlen vs then starts 0 gs else [];
  so_distinct : r_distinct b = zlen gs;
}.

Lemma OkeyFromBytes_ok b : zlen b = kOkeyBytes -> exists k, OkeyFromBytes b = Ok k /\
  is_u64 k /\ OkeyToBytes k = b.
Proof.
  intros Hb. assert (zsub b 0 kOkeyBytes = Ok b) as Hz.
  { pose proof (zsub_head b [] kOkeyBytes) as E. rewrite app_nil_r in E. by apply E. }
  unfold OkeyFromBytes. rewrite Hz. cbn [mbind result_bind]. eexists. split; [done|].
  assert (length b = 8%nat) as Hl by (unfold zlen, kOkeyBytes in Hb; lia).
  assert (bswap64 (le_dec b) = le_dec (rev b)) as E.
  { unfold bswap64. rewrite <- Hl, le_enc_dec. done. }
  rewrite E. split.
  - pose proof (le_dec_range (rev b)) as Hr. unfold zlen in Hr. rewrite length_rev, Hl in Hr.
    exact Hr.
  - rewrite OkeyToBytes_rev. replace 8%nat with (length (rev b)) by (by rewrite length_rev).
    by rewrite le_enc_dec, rev_involutive.
Qed.

Section SortSpec.
Context `{StdSort} `{!StdSortLaws _}.

(** Both orders sort by the values' bytes: okeys compare like their bytes. *)
Lemma okeys_of vs :
  Forall (fun v => zlen v = kOkeyBytes) vs ->
  exists keys, mapM OkeyFromBytes vs = Ok keys /\ Forall is_u64 keys /\
    vs = map OkeyToBytes keys.
Proof.
  induction 1 as [|v vs Hv _ (keys & E & Hk & IH)]; [by exists []|].
  destruct (OkeyFromBytes_ok v Hv) as (k & Ek & Hu & Eb).
  exists (k :: keys). simpl. rewrite Ek, E, Eb, <- IH.
  split; [done|]. split; [by constructor|done].
Qed.

Lemma zip_iota_perm {K} (keys : list K) n (recs : list (K * Z)) :
  length keys = Z.to_nat n -> recs ≡ₚ zip keys (iota n) ->
  map snd recs ≡ₚ iota n /\
  forall k r, (k, r) ∈ recs -> 0 <= r /\ keys !! Z.to_nat r = Some k.
Proof.
  intros Hl Hp. split.
  - rewrite Hp. by rewrite snd_zip by (rewrite length_iota; lia).
  - intros k r Hin. rewrite Hp in Hin. apply list_elem_of_lookup in Hin as [i Hi].
    apply lookup_zip_Some in Hi as [Hk Hr].
    rewrite lookup_iota in Hr by (apply lookup_lt_Some in Hk; lia).
    injection Hr as <-. split; [lia|]. by rewrite Nat2Z.id.
Qed.

Lemma Sort_finish vs b sorted cuts :
  range_repr b vs -> sorted ≡ₚ iota (zlen vs) ->
  StronglySorted ble (map (fun i => vs !!! Z.to_nat i) sorted) ->
  cuts = cut_runs beqb 0 None (map (fun i => vs !!! Z.to_nat i) sorted) ->
  exists gs, sorted_ok vs (mkRangeAttrBuf (r_values b) sorted
    (cuts ++ if 0 <? zlen vs then [zlen vs] else []) (zlen cuts) (uniform_len b) (bin_of_row b)) gs.
Proof.
  intros Hr Hp Hs Hc. destruct (cut_runs_groups _ Hs) as (gs & Hv & Hg & Hcut).
  rewrite <- Hc in Hcut. exists gs.
  assert (zlen (map (fun i => vs !!! Z.to_nat i) sorted) = zlen vs) as Hlen.
  { unfold zlen. rewrite length_map, (Permutation_length Hp), length_iota. unfold zlen. lia. }
  rewrite Hlen in Hcut. split; cbn [r_sorted run_start r_distinct]; try done.
  - destruct (Z.ltb_spec 0 (zlen vs)) as [?|Hz]; [done|]. rewrite app_nil_r.
    assert (zlen vs = 0) as Hz0 by (pose proof (zlen_nonneg vs); lia).
    apply zlen_0_inv in Hz0. subst vs. rewrite Hc.
    change (iota (zlen [])) with (@nil Z) in Hp. symmetry in Hp.
    apply Permutation_nil in Hp. by subst sorted.
  - assert (length (cuts ++ [zlen vs]) = S (length gs)) as E by (by rewrite Hcut, length_starts).
    rewrite length_app in E. simpl in E. unfold zlen. lia.
Qed.

Lemma okey_recs vs keys recs :
  vs = map OkeyToBytes keys -> Forall is_u64 keys ->
  recs ≡ₚ zip keys (iota (zlen vs)) ->
  map (fun i => vs !!! Z.to_nat i) (map snd recs) = map OkeyToBytes (map fst recs) /\
  Forall is_u64 (map fst recs) /\ map snd recs ≡ₚ iota (zlen vs).
Proof.
  intros Ekeys Hk Hperm. destruct (zip_iota_perm keys (zlen vs) recs) as [Hsnd Hat]; [|done|].
  { rewrite Ekeys. unfold zlen. rewrite length_map. lia. }
  split; [|split; [|done]].
  - rewrite !map_map. apply map_ext_in. intros [k r] Hin%list_elem_of_In. simpl.
    destruct (Hat k r Hin) as [_ Hkr]. rewrite Ekeys.
    apply list_lookup_total_correct. by rewrite list_lookup_fmap, Hkr.
  - apply Forall_forall. intros k Hk'. apply list_elem_of_fmap in Hk' as ([k' r] & -> & Hin).
    destruct (Hat _ _ Hin) as [_ Hkr]. rewrite Forall_forall in Hk. apply Hk.
    by eapply list_elem_of_lookup_2.
Qed.

Lemma sort_rows_spec ulen vs :
  (ulen = kOkeyBytes -> Forall (fun v => zlen v = kOkeyBytes) vs) ->
  exists sorted, let values := map (fun i => vs !!! Z.to_nat i) sorted in
    sort_rows ulen (zlen vs) vs = Ok (sorted, cut_runs beqb 0 None values) /\
    sorted ≡ₚ iota (zlen vs) /\ StronglySorted ble values.
Proof.
  intros Hu. unfold sort_rows. change (s32 kOkeyBytes) with kOkeyBytes.
  destruct (Z.eqb_spec ulen kOkeyBytes) as [Eu|_].
  - destruct (okeys_of vs (Hu Eu)) as (keys & -> & Hk & Ekeys). cbn [mbind result_bind].
    set (recs := std_sort _ _). exists (map snd recs).
    destruct (okey_recs vs keys recs Ekeys Hk) as (Emap & Hu64 & Hsnd).
    { apply std_sort_perm, strict_weak_Z. }
    cbv zeta. rewrite Emap. rewrite Forall_forall in Hu64. split; [|split; [done|]].
    + f_equal. f_equal. symmetry. apply (cut_runs_map Z.eqb beqb OkeyToBytes 0 None).
      intros a c Ha [Hc|?]; [|done]. unfold beqb. rewrite bcompare_okey by auto.
      destruct (Z.compare_spec a c) as [->|?|?]; [by rewrite Z.eqb_refl|
        symmetry; apply Z.eqb_neq; lia..].
    + rewrite map_map. apply (StronglySorted_map (fun x y : Z * Z => (fst y <? fst x) = false)).
      * intros x y Hx Hy Hxy. apply Z.ltb_ge in Hxy. unfold ble.
        rewrite bcompare_okey by (apply Hu64, list_elem_of_fmap; eauto).
        by apply Z.compare_le_iff.
      * apply std_sort_sorted, strict_weak_Z.
  - eexists. cbv zeta. split; [done|]. split; [apply std_sort_perm, strict_weak_bytes|].
    apply (StronglySorted_map (fun x y => bltb (vs !!! Z.to_nat y) (vs !!! Z.to_nat x) = false)).
    + intros x y _ _ Hxy. by apply bltb_ge.
    + apply (std_sort_sorted (fun x y => bltb (vs !!! Z.to_nat x) (vs !!! Z.to_nat y))).
      apply strict_weak_bytes.
Qed.

Lemma Sort_spec b vs :
  range_repr b vs ->
  exists b' gs, Sort b = Ok b' /\ sorted_ok vs b' gs /\
    r_values b' = r_values b /\ bin_of_row b' = [].
Proof.
  intros Hr. pose proof (rr_values _ _ Hr) as Hv. pose proof (bl_repr_size _ _ Hv) as Hsz.
  pose proof (bl_count _ _ Hv). pose proof (zlen_nonneg vs). unfold Sort.
  replace (u32 (size (r_values b))) with (size (r_values b))
    by (rewrite Hsz; symmetry; apply u32_small; unfold is_u32; lia).
  rewrite (read_all_repr _ _ Hv), Hsz. cbn [mbind result_bind].
  destruct (sort_rows_spec _ vs (rr_uniform _ _ Hr)) as (sorted & -> & Hp & Hs).
  cbn [mbind result_bind].
  destruct (Sort_finish vs b sorted _ Hr Hp Hs eq_refl) as [gs Hok].
  eexists _, gs. split; [done|]. split; [exact Hok|]. split; [done|]. apply Hr.
Qed.
End SortSpec.

(** ** The bin of a value

    [(number of boundaries <= value) - 1], clamped to the bins: the rule the
    reader applies too. *)
Definition bin_rule (bs : list bytes) (bins : Z) (x : bytes) : Z :=
  let c := count_if (fun b => bleb b x) bs in
  let b0 := if c =? 0 then 0 else c - 1 in
  if bins <=? b0 then bins - 1 else b0.

Lemma bin_rule_bounds bs bins x : 1 <= bins -> 0 <= bin_rule bs bins x < bins.
Proof.
  intros Hb. unfold bin_rule. pose proof (count_if_bounds (fun b => bleb b x) bs).
  destruct (Z.eqb_spec (count_if (fun b => bleb b x) bs) 0); case_match; lia.
Qed.

Definition off (gs : list group) (r : nat) : nat := length (expand (take r gs)).

Lemma starts_lookup o gs r :
  (r <= length gs)%nat -> starts o gs !! r = Some (o + Z.of_nat (off gs r)).
Proof.
  unfold off, expand. revert o r. induction gs as [|g gs IH]; intros o [|r] Hr; simpl in Hr;
    try lia; cbn [starts take].
  - simpl. f_equal. lia.
  - simpl. f_equal. lia.
  - cbn [lookup list_lookup]. rewrite IH by lia. simpl.
    rewrite length_app, length_replicate. f_equal. lia.
Qed.

Lemma off_succ gs r x c : gs !! r = Some (x, c) -> off gs (S r) = (off gs r + c)%nat.
Proof.
  intros H. unfold off, expand. rewrite (take_S_r _ _ _ H), map_app, concat_app, length_app.
  simpl. rewrite app_nil_r, length_replicate. done.
Qed.

Lemma expand_lookup gs r x c k :
  gs !! r = Some (x, c) -> (off gs r <= k < off gs r + c)%nat -> expand gs !! k = Some x.
Proof.
  intros H Hk. unfold expand. rewrite <- (take_drop_middle gs r _ H) at 1.
  rewrite map_app, concat_app. cbn [map concat fst snd]. fold (expand (take r gs)).
  unfold off in Hk. rewrite lookup_app_r by lia. rewrite lookup_app_l by (rewrite length_replicate; lia).
  by apply lookup_replicate_2; lia.
Qed.

Lemma off_all gs : off gs (length gs) = length (expand gs).
Proof. unfold off. by rewrite take_ge. Qed.

Lemma concat_bound L (l : list bytes) :
  Forall (fun v => zlen v <= L) l -> zlen (concat l) <= L * zlen l.
Proof.
  induction 1 as [|v l Hv _ IH]; cbn [concat]; [zlen0; lia|].
  rewrite zlen_app, zlen_cons. lia.
Qed.

Lemma push_back_bounded L cap l vs v :
  bl_repr l vs -> Forall (fun v => zlen v <= L) (vs ++ [v]) ->
  zlen vs < cap -> 0 <= L -> cap * L < 2 ^ 32 -> cap < 2 ^ 32 ->
  bl_repr (push_back l v) (vs ++ [v]).
Proof.
  intros Hl HL Hc HL0 Hcap Hcap2. pose proof (concat_bound L _ HL) as Hb.
  rewrite concat_app, zlen_app, zlen_snoc in Hb. cbn [concat] in Hb. rewrite app_nil_r in Hb.
  apply push_back_repr; [done|nia|lia].
Qed.

Section Binning.
Context (v : BytesList) (vs : list bytes) (Hv : bl_repr v vs).
Context (sorted runs : list Z) (gs : list group) (bins L : Z).
Context (Hperm : sorted ≡ₚ iota (zlen vs)).
Context (Hvals : map (fun i => vs !!! Z.to_nat i) sorted = expand gs).
Context (Hgs : groups_ok gs) (Hruns : runs = starts 0 gs).
Context (Hbins : 1 <= bins) (HL0 : 0 <= L) (HL : Forall (fun x => zlen x <= L) vs).
Context (Hcap : (bins + 1) * L < 2 ^ 32) (Hcap2 : bins + 1 < 2 ^ 32).
Local Abbreviation rv := (map fst gs).
Local Abbreviation bnds br := (map (fun j : nat => rv !!! j) br).

Lemma len_sorted : length sorted = length vs.
Proof. rewrite (Permutation_length Hperm), length_iota. unfold zlen. lia. Qed.
Lemma len_expand : length (expand gs) = length vs.
Proof. rewrite <- Hvals, length_map. apply len_sorted. Qed.

(** Reading a run boundary, and the row behind a sorted position. *)
Lemma runs_get r : (r <= length gs)%nat -> zget runs (Z.of_nat r) = Ok (Z.of_nat (off gs r)).
Proof. intros H. apply zget_nat. by rewrite Hruns, starts_lookup, Z.add_0_l. Qed.

Lemma row_value k x :
  expand gs !! k = Some x -> exists row, sorted !! k = Some row /\ 0 <= row /\
    vs !! Z.to_nat row = Some x /\ bl_get v row = Ok x.
Proof.
  intros Hk. rewrite <- Hvals in Hk. apply list_lookup_fmap_Some in Hk as (row & -> & Hr).
  assert (0 <= row < zlen vs) as Hrow.
  { apply elem_of_iota. rewrite <- Hperm. by eapply list_elem_of_lookup_2. }
  destruct (lookup_lt_is_Some_2 vs (Z.to_nat row)) as [x Hx]; [unfold zlen in Hrow; lia|].
  exists row. rewrite (list_lookup_total_correct _ _ _ Hx). split; [done|]. split; [lia|].
  split; [done|]. rewrite <- (Z2Nat.id row) by lia. by eapply bl_get_repr.
Qed.

Lemma rv_total r x c : gs !! r = Some (x, c) -> rv !!! r = x.
Proof. intros H. apply list_lookup_total_correct. by rewrite list_lookup_fmap, H. Qed.

Lemma group_pos r x c : gs !! r = Some (x, c) -> (0 < c)%nat.
Proof. intros H. apply (Forall_lookup_1 _ _ _ _ (g_pos _ Hgs) H). Qed.

Lemma rv_in_vs r x c : gs !! r = Some (x, c) -> x ∈ vs.
Proof.
  intros H. pose proof (group_pos _ _ _ H).
  destruct (row_value (off gs r) x) as (row & _ & _ & Hx & _).
  { apply (expand_lookup gs r x c); [done|lia]. }
  by eapply list_elem_of_lookup_2.
Qed.
Lemma rv_bounded r x c : gs !! r = Some (x, c) -> zlen x <= L.
Proof. intros H%rv_in_vs. rewrite Forall_forall in HL. auto. Qed.

(** *** The sweep *)
Record sweep_inv (r : nat) (s : sweep) (br : list nat) : Prop := {
  sw_br : boundary_run s = map Z.of_nat br;
  sw_bnds : bl_repr (boundaries s) (bnds br);
  sw_sorted : StronglySorted lt br;
  sw_hd : head br = Some 0%nat;
  sw_below : Forall (fun j => (j < max r 1)%nat) br;
  sw_bins : 1 <= remaining_bins s /\ zlen br = 1 + bins - remaining_bins s;
  sw_cur : r = 0%nat -> cur s = 0;
}.

Lemma bnds_bounded br :
  Forall (fun j => (j < length gs)%nat) br -> Forall (fun x => zlen x <= L) (bnds br).
Proof.
  intros H. apply Forall_map. eapply Forall_impl; [exact H|]. intros j Hj. simpl.
  destruct (lookup_lt_is_Some_2 gs j Hj) as [[x c] Hg]. rewrite (rv_total _ _ _ Hg).
  by eapply rv_bounded.
Qed.

Lemma sweep_close r s br x c :
  sweep_inv r s br -> gs !! r = Some (x, c) -> 0 < cur s -> 1 < remaining_bins s ->
  sweep_inv (S r) (mkSweep (u64 (remaining_mass s - cur s)) (u32 (remaining_bins s - 1)) 0
    (push_back (boundaries s) x) (boundary_run s ++ [u32 (Z.of_nat r)])) (br ++ [r]).
Proof.
  intros [Hbr Hbn Hso Hhd Hbel [Hb1 Hb2] Hc] Hg Hcur Hrb.
  destruct r as [|r]; [by rewrite Hc in Hcur by done|].
  pose proof (lookup_lt_Some _ _ _ Hg) as Hlt. pose proof (zlen_nonneg br).
  assert (Z.of_nat (length gs) <= zlen vs).
  { unfold zlen. rewrite <- len_expand. pose proof (groups_le gs Hgs). lia. }
  pose proof (bl_count _ _ Hv).
  split; cbn [boundary_run boundaries remaining_bins cur]; try done.
  - rewrite Hbr, map_app. simpl. by rewrite u32_small by (unfold is_u32; lia).
  - rewrite map_app. cbn [map]. rewrite (rv_total _ _ _ Hg).
    apply (push_back_bounded L (bins + 1)); try done.
    + apply Forall_app. split; [|constructor; [by eapply rv_bounded|done]].
      apply bnds_bounded. eapply Forall_impl; [exact Hbel|]. simpl. lia.
    + rewrite zlen_map. lia.
  - apply snoc_sorted; [done|]. eapply Forall_impl; [exact Hbel|]. simpl. lia.
  - destruct br; done.
  - apply Forall_app. split; [|constructor; [|done]].
    + eapply Forall_impl; [exact Hbel|]. simpl. lia.
    + lia.
  - rewrite u32_small by (unfold is_u32; lia). rewrite zlen_snoc. lia.
Qed.

Lemma sweep_run_spec r s br :
  sweep_inv r s br -> (r < length gs)%nat ->
  exists s' br', sweep_run v sorted runs (Z.of_nat r) s = Ok s' /\ sweep_inv (S r) s' br'.
Proof.
  intros Hinv Hr. destruct (lookup_lt_is_Some_2 gs r Hr) as [[x c] Hg].
  unfold sweep_run. replace (Z.of_nat r + 1) with (Z.of_nat (S r)) by lia.
  rewrite !runs_get by lia. cbn [mbind result_bind].
  set (run := u32 _).
  assert (Hkeep : sweep_inv (S r) s br).
  { destruct Hinv as [? ? ? ? Hb ? ?]. split; try done.
    eapply Forall_impl; [exact Hb|]. simpl. lia. }
  assert (Hadd : forall t b, sweep_inv (S r) t b ->
    sweep_inv (S r) (mkSweep (remaining_mass t) (remaining_bins t) (u64 (cur t + run))
      (boundaries t) (boundary_run t)) b).
  { intros t b [? ? ? ? ? ? ?]. by split. }
  destruct ((0 <? cur s) && (1 <? remaining_bins s) && close_before s run) eqn:E.
  - apply andb_prop in E as [[E1%Z.ltb_lt E2%Z.ltb_lt]%andb_prop _].
    pose proof (group_pos _ _ _ Hg).
    destruct (row_value (off gs r) x) as (row & Hrow & _ & _ & Hget).
    { apply (expand_lookup gs r x c); [done|lia]. }
    rewrite (zget_nat _ _ _ Hrow). cbn [mbind result_bind]. rewrite Hget. cbn [mbind result_bind].
    eexists _, (br ++ [r]). split; [done|]. apply Hadd. by eapply sweep_close.
  - eexists _, br. split; [done|]. by apply Hadd.
Qed.

Lemma sweep_loop_spec n r s br :
  sweep_inv r s br -> (r + n = length gs)%nat ->
  exists s' br', sweep_loop v sorted runs (Z.of_nat r) n s = Ok s' /\
    sweep_inv (length gs) s' br'.
Proof.
  revert r s br. induction n as [|n IH]; intros r s br Hinv Hn; cbn [sweep_loop].
  - exists s, br. split; [done|]. by replace (length gs) with r by lia.
  - destruct (sweep_run_spec r s br Hinv) as (s1 & br1 & -> & H1); [lia|].
    cbn [mbind result_bind]. replace (Z.of_nat r + 1) with (Z.of_nat (S r)) by lia.
    apply (IH (S r) s1 br1); [done|lia].
Qed.

Lemma sweep_init x c :
  gs !! 0%nat = Some (x, c) ->
  sweep_inv 0 (mkSweep (zlen sorted) bins 0 (push_back bl_empty x) [0]) [0%nat].
Proof.
  intros Hg. split; try done.
  - cbn [map]. rewrite (rv_total _ _ _ Hg).
    apply (push_back_bounded L (bins + 1) _ []); try done; [|zlen0; lia].
    constructor; [by eapply rv_bounded|done].
  - repeat constructor.
  - by repeat constructor.
  - cbn [remaining_bins]. rewrite zlen_cons. zlen0. lia.
Qed.

(** *** Padding with the maximum *)
Lemma pad_loop_spec fuel bs br :
  bl_repr bs (bnds br) -> Forall (fun j => (j < length gs)%nat) br ->
  zlen br <= bins + 1 -> (Z.to_nat (bins + 1 - zlen br) < fuel)%nat -> (0 < length gs)%nat ->
  let last := (length gs - 1)%nat in
  let br' := br ++ replicate (Z.to_nat (bins + 1 - zlen br)) last in
  exists bs', pad_loop fuel bins (Z.of_nat last) (rv !!! last) bs (map Z.of_nat br) =
    Ok (bs', map Z.of_nat br') /\ bl_repr bs' (bnds br').
Proof.
  intros Hb Hlt Hle Hf Hpos last. revert bs br Hb Hlt Hle Hf.
  induction fuel as [|fuel IH]; intros bs br Hb Hlt Hle Hf; [lia|]. cbn [pad_loop].
  rewrite (bl_repr_size _ _ Hb), zlen_map.
  destruct (Z.ltb_spec (zlen br) (bins + 1)).
  - destruct (IH (push_back bs (rv !!! last)) (br ++ [last])) as (bs' & E & Hbs').
    + rewrite map_app. apply (push_back_bounded L (bins + 1)); try done.
      * change [rv !!! last] with (bnds [last]).
        rewrite <- (map_app (fun j : nat => rv !!! j) br [last]). apply bnds_bounded.
        apply Forall_app. split; [done|]. constructor; [unfold last; lia|done].
      * by rewrite zlen_map.
    + apply Forall_app. split; [done|]. constructor; [unfold last; lia|done].
    + rewrite zlen_snoc. lia.
    + rewrite zlen_snoc. lia.
    + exists bs'. rewrite zlen_snoc in E, Hbs'.
      replace (Z.to_nat (bins + 1 - zlen br)) with (S (Z.to_nat (bins + 1 - (zlen br + 1)))) by lia.
      cbn [replicate]. rewrite map_app in E. cbn [map] in E. rewrite E.
      rewrite <- app_assoc in Hbs' |- *. done.
  - exists bs. replace (Z.to_nat (bins + 1 - zlen br)) with 0%nat by lia.
    cbn [replicate]. rewrite app_nil_r. done.
Qed.

(** *** Assigning rows *)
Lemma rv_compare i j :
  (i < length gs)%nat -> (j < length gs)%nat ->
  bleb (rv !!! i) (rv !!! j) = (Z.of_nat i <=? Z.of_nat j).
Proof.
  intros Hi Hj.
  assert (forall i j, (i < j < length gs)%nat -> blt (rv !!! i) (rv !!! j)) as Hmono.
  { intros a b Hab. pose proof (g_sorted _ Hgs) as Hs.
    destruct (lookup_lt_is_Some_2 rv a) as [x Hx]; [rewrite length_map; lia|].
    destruct (lookup_lt_is_Some_2 rv b) as [y Hy]; [rewrite length_map; lia|].
    rewrite (list_lookup_total_correct _ _ _ Hx), (list_lookup_total_correct _ _ _ Hy).
    apply (StronglySorted_lookup blt rv a b); [done|lia|done..]. }
  destruct (Z.leb_spec (Z.of_nat i) (Z.of_nat j)).
  - apply bleb_le. destruct (decide (i = j)) as [->|]; [border|].
    pose proof (Hmono i j ltac:(lia)). border.
  - apply bleb_gt. apply Hmono. lia.
Qed.

Lemma count_rv br r :
  Forall (fun j => (j < length gs)%nat) br -> (r < length gs)%nat ->
  count_if (fun b => bleb b (rv !!! r)) (bnds br) =
  count_if (fun j => j <=? Z.of_nat r) (map Z.of_nat br).
Proof.
  intros H Hr. induction H as [|j br Hj _ IH]; [done|]. cbn [map count_if].
  by rewrite IH, rv_compare.
Qed.

Lemma advance_spec fuel (br : list Z) r passed :
  StronglySorted Z.le br -> 0 <= passed <= count_if (fun j => j <=? r) br ->
  (Z.to_nat (zlen br - passed) < fuel)%nat ->
  advance fuel br r passed = Ok (count_if (fun j => j <=? r) br).
Proof.
  intros Hs. revert passed. induction fuel as [|fuel IH]; intros passed Hp Hf; [lia|].
  cbn [advance]. set (C := count_if (fun j => j <=? r) br) in *.
  pose proof (count_if_bounds (fun j => j <=? r) br) as HC. fold C in HC.
  destruct (Z.ltb_spec passed (zlen br)); [|f_equal; lia].
  destruct (lookup_lt_is_Some_2 br (Z.to_nat passed)) as [x Hx]; [unfold zlen in *; lia|].
  rewrite (proj2 (zget_lookup _ _ _) (conj (proj1 Hp) Hx)). cbn [mbind result_bind].
  pose proof (sorted_prefix Z.le (fun j => j <=? r) br _ x Hs ltac:(cbv beta; intros; lia) Hx) as E.
  cbv beta in E. rewrite E, Z2Nat.id by lia. fold C.
  destruct (Z.ltb_spec passed C); [|f_equal; lia]. apply IH; lia.
Qed.

Lemma sorted_nodup : NoDup sorted.
Proof.
  rewrite Hperm. unfold iota. apply (NoDup_fmap_2 Z.of_nat), NoDup_seq.
Qed.

Lemma assign_rows_spec k n bin out :
  (k + n <= length sorted)%nat -> length out = length vs ->
  exists out', assign_rows sorted (Z.of_nat k) n bin out = Ok out' /\
    length out' = length vs /\
    (forall i row, (k <= i < k + n)%nat -> sorted !! i = Some row ->
       out' !! Z.to_nat row = Some bin) /\
    (forall row, (forall i, (k <= i < k + n)%nat -> sorted !! i <> Some row) -> 0 <= row ->
       out' !! Z.to_nat row = out !! Z.to_nat row).
Proof.
  revert k out. induction n as [|n IH]; intros k out Hk Hlen; cbn [assign_rows].
  { exists out. split; [done|]. split; [done|]. split; [lia|done]. }
  destruct (lookup_lt_is_Some_2 sorted k) as [row Hrow]; [lia|].
  assert (Hin : forall i r, sorted !! i = Some r -> 0 <= r < zlen vs).
  { intros i r Hi. apply elem_of_iota. rewrite <- Hperm. by eapply list_elem_of_lookup_2. }
  pose proof (Hin _ _ Hrow) as Hb.
  rewrite (zget_nat _ _ _ Hrow). cbn [mbind result_bind].
  rewrite zset_okZ by (unfold zlen in *; lia). cbn [mbind result_bind].
  replace (Z.of_nat k + 1) with (Z.of_nat (S k)) by lia.
  destruct (IH (S k) (<[Z.to_nat row := bin]> out)) as (out' & E & Hl & Hset & Hkeep);
    [lia|by rewrite length_insert|].
  exists out'. split; [done|]. split; [done|]. split.
  - intros i r Hi Hr. destruct (decide (i = k)) as [->|]; [|apply (Hset i); [lia|done]].
    assert (r = row) as -> by congruence. rewrite Hkeep; [|intros i Hi' Hr'|lia].
    + apply list_lookup_insert_eq. unfold zlen in *. lia.
    + assert (i = k); [|lia]. by eapply (NoDup_lookup sorted); [apply sorted_nodup|..].
  - intros r Hno Hr0. rewrite Hkeep; [|intros i Hi; apply Hno; lia|done].
    apply list_lookup_insert_ne. intros Heq. apply (Hno k); [lia|]. rewrite Hrow. f_equal. lia.
Qed.

(** The rows of the first [r] runs are in the bins of their values. *)
Definition assigned (bs : list bytes) (r : nat) (out : list Z) : Prop :=
  length out = length vs /\
  forall k row x, (k < off gs r)%nat -> sorted !! k = Some row ->
    vs !! Z.to_nat row = Some x -> out !! Z.to_nat row = Some (bin_rule bs bins x).

Lemma off_le r : (r <= length gs)%nat -> (off gs r <= length sorted)%nat.
Proof.
  intros Hr. rewrite len_sorted, <- len_expand. unfold off, expand.
  rewrite <- (take_drop r gs) at 2. rewrite map_app, concat_app, length_app. lia.
Qed.

Lemma assign_run br r x c passed out :
  StronglySorted Z.le (map Z.of_nat br) -> Forall (fun j => (j < length gs)%nat) br ->
  gs !! r = Some (x, c) -> assigned (bnds br) r out ->
  let bin0 := if passed =? 0 then 0 else passed - 1 in
  let bin := if bins <=? bin0 then u32 (bins - 1) else bin0 in
  passed = count_if (fun j => j <=? Z.of_nat r) (map Z.of_nat br) ->
  exists out', assign_rows sorted (Z.of_nat (off gs r)) c bin out = Ok out' /\
    assigned (bnds br) (S r) out'.
Proof.
  intros Hso Hbr Hg [Hlen Hprev] bin0 bin Hpassed.
  pose proof (lookup_lt_Some _ _ _ Hg) as Hr. pose proof (off_succ gs r x c Hg) as Hoff.
  pose proof (off_le (S r) ltac:(lia)) as Hle.
  destruct (assign_rows_spec (off gs r) c bin out) as (out' & E & Hl & Hset & Hkeep); [lia|done|].
  exists out'. split; [done|]. split; [done|]. intros k row y Hk Hrow Hy.
  assert (bin = bin_rule (bnds br) bins x) as Hbin.
  { unfold bin, bin0, bin_rule. rewrite <- (rv_total _ _ _ Hg), count_rv, <- Hpassed by done.
    by rewrite u32_small by (unfold is_u32; lia). }
  destruct (Nat.lt_ge_cases k (off gs r)) as [Hlt|Hge].
  - rewrite Hkeep.
    + by eapply Hprev.
    + intros i Hi Hi'. assert (i = k); [|lia].
      by eapply (NoDup_lookup sorted); [apply sorted_nodup|..].
    + assert (0 <= row < zlen vs); [|lia]. apply elem_of_iota. rewrite <- Hperm.
      by eapply list_elem_of_lookup_2.
  - rewrite (Hset k row) by (done || lia). rewrite Hbin. do 2 f_equal.
    destruct (row_value k x) as (row' & Hrow' & _ & Hx' & _).
    { apply (expand_lookup gs r x c); [done|lia]. }
    congruence.
Qed.

Lemma assign_loop_spec br n r passed out :
  StronglySorted Z.le (map Z.of_nat br) -> Forall (fun j => (j < length gs)%nat) br ->
  0 <= passed <= count_if (fun j => j <=? Z.of_nat r) (map Z.of_nat br) ->
  (r + n = length gs)%nat -> assigned (bnds br) r out ->
  exists out', assign_loop sorted runs (map Z.of_nat br) bins (Z.of_nat r) n passed out = Ok out' /\
    assigned (bnds br) (length gs) out'.
Proof.
  intros Hso Hbr. revert r passed out. induction n as [|n IH]; intros r passed out Hp Hn Ha;
    cbn [assign_loop].
  { exists out. split; [done|]. by replace (length gs) with r by lia. }
  destruct (lookup_lt_is_Some_2 gs r) as [[x c] Hg]; [lia|].
  rewrite advance_spec; [|done|done|unfold zlen; lia].
  cbn [mbind result_bind]. replace (Z.of_nat r + 1) with (Z.of_nat (S r)) by lia.
  rewrite !runs_get by lia. cbn [mbind result_bind].
  rewrite (off_succ gs r x c Hg).
  replace (Z.to_nat (Z.of_nat (off gs r + c) - Z.of_nat (off gs r))) with c by lia.
  destruct (assign_run br r x c _ out Hso Hbr Hg Ha eq_refl) as (out1 & E1 & Ha1).
  cbv zeta in E1. rewrite E1. cbn [mbind result_bind]. apply IH; [|lia|done].
  split; [apply count_if_bounds|]. apply count_if_le. cbv beta. intros j _. rewrite !Z.leb_le. lia.
Qed.
End Binning.

(** ** What the binning policy promises *)
Record range_policy_ok (vs bs : list bytes) (bins : Z) (bin_of : list Z) : Prop := {
  rp_count : zlen bs = bins + 1;
  rp_sorted : StronglySorted ble bs;
  rp_first x y : head bs = Some x -> y ∈ vs -> ble x y;
  rp_last x y : last bs = Some x -> y ∈ vs -> ble y x;
  rp_values : vs <> [] -> Forall (fun b => b ∈ vs) bs;
  rp_len : length bin_of = length vs;
  rp_bin j x : vs !! j = Some x -> bin_of !! j = Some (bin_rule bs bins x);
}.

Lemma map_of_nat_sorted br : StronglySorted le br -> StronglySorted Z.le (map Z.of_nat br).
Proof. apply StronglySorted_map. intros. lia. Qed.

Lemma pad_sorted br m j :
  StronglySorted lt br -> Forall (fun i => (i <= j)%nat) br ->
  StronglySorted le (br ++ replicate m j).
Proof.
  intros Hs Hj. apply StronglySorted_app. split.
  - intros a b Ha Hb. apply elem_of_replicate in Hb as [-> _].
    rewrite Forall_forall in Hj. auto.
  - split.
    + clear Hj. induction Hs; constructor; [done|]. eapply Forall_impl; [eassumption|]. simpl. lia.
    + induction m; simpl; constructor; [done|]. apply Forall_forall.
      intros x Hx. by apply elem_of_replicate in Hx as [-> _].
Qed.

Lemma push_empty_repr n bl k :
  bl_repr bl (replicate k []) -> Z.of_nat (n + k) < 2 ^ 32 ->
  bl_repr (push_empty n bl) (replicate (n + k) []).
Proof.
  revert bl k. induction n as [|n IH]; intros bl k Hb Hn; cbn [push_empty]; [done|].
  replace (S n + k)%nat with (n + S k)%nat by lia. apply IH; [|lia].
  rewrite <- Nat.add_1_r, replicate_add. cbn [replicate].
  apply (push_back_bounded 0 (Z.of_nat k + 1)); try lia.
  - done.
  - apply Forall_app. split; [|by constructor]. apply Forall_forall.
    intros x Hx. by apply elem_of_replicate in Hx as [-> _].
  - rewrite zlen_replicate. lia.
Qed.

(** An attribute without rows: empty boundaries, no bins. *)
Lemma SetRange_empty bins buf :
  r_sorted buf = [] -> 1 <= bins -> bins + 1 < 2 ^ 32 -> bin_of_row buf = [] ->
  exists bl bs buf', SetRangeBinningPolicy bins buf = Ok (bl, buf') /\ bl_repr bl bs /\
    range_policy_ok [] bs bins (bin_of_row buf').
Proof.
  intros Hs Hb Hc Hbin. unfold SetRangeBinningPolicy. rewrite Hs. change (zlen [] =? 0) with true.
  exists (push_empty (Z.to_nat (bins + 1)) bl_empty), (replicate (Z.to_nat (bins + 1)) []), buf.
  split; [done|]. split.
  - rewrite <- (Nat.add_0_r (Z.to_nat (bins + 1))) at 2. apply push_empty_repr; [done|lia].
  - split; try done.
    + rewrite zlen_replicate. lia.
    + induction (Z.to_nat (bins + 1)); simpl; constructor; [done|]. apply Forall_forall.
      intros x Hx. apply elem_of_replicate in Hx as [-> _]. border.
    + by intros x y _ Hy%elem_of_nil.
    + by intros x y _ Hy%elem_of_nil.
    + by rewrite Hbin.
Qed.

Section Policy.
Context (vs : list bytes) (buf : RangeAttrBuf) (gs : list group) (bins L : Z).
Context (Hv : bl_repr (r_values buf) vs) (Hso : sorted_ok vs buf gs).
Context (Hbins : 1 <= bins) (HL0 : 0 <= L) (HL : Forall (fun x => zlen x <= L) vs).
Context (Hcap : (bins + 1) * L < 2 ^ 32) (Hcap2 : bins + 1 < 2 ^ 32).
Context (Hne : vs <> []).
Local Abbreviation rv := (map fst gs).
Local Abbreviation bnds br := (map (fun j : nat => rv !!! j) br).

Lemma vs_pos : 0 < zlen vs.
Proof.
  pose proof (zlen_nonneg vs). assert (zlen vs <> 0) by (intros E%zlen_0_inv; done). lia.
Qed.

Lemma runs_eq : run_start buf = starts 0 gs.
Proof.
  rewrite (so_runs _ _ _ Hso). pose proof vs_pos. by rewrite (proj2 (Z.ltb_lt _ _)).
Qed.

Lemma gs_ne : (0 < length gs)%nat.
Proof.
  pose proof vs_pos.
  assert (length (expand gs) = length vs) as E.
  { rewrite <- (so_values _ _ _ Hso), length_map, (Permutation_length (so_perm _ _ _ Hso)).
    rewrite length_iota. unfold zlen. lia. }
  destruct gs; [|simpl; lia]. simpl in E. unfold zlen in H. lia.
Qed.

(** The boundary runs after padding: non-decreasing from the first run to
    the last. *)
Definition br_ok (br : list nat) : Prop :=
  StronglySorted le br /\ Forall (fun j => (j < length gs)%nat) br /\
  head br = Some 0%nat /\ last br = Some (length gs - 1)%nat /\ zlen br = bins + 1.

Lemma in_groups y : y ∈ vs -> exists r c, gs !! r = Some (y, c).
Proof.
  intros Hy. apply list_elem_of_lookup in Hy as [j Hj].
  assert (Z.of_nat j ∈ r_sorted buf) as Hin.
  { rewrite (so_perm _ _ _ Hso), elem_of_iota. apply lookup_lt_Some in Hj. unfold zlen. lia. }
  assert (y ∈ expand gs) as Hy.
  { rewrite <- (so_values _ _ _ Hso). apply list_elem_of_fmap. exists (Z.of_nat j).
    rewrite Nat2Z.id, (list_lookup_total_correct _ _ _ Hj). done. }
  unfold expand in Hy. apply list_elem_of_In, in_concat in Hy as (l & Hl & Hy).
  apply in_map_iff in Hl as ([x c] & <- & Hg). apply list_elem_of_In, list_elem_of_lookup in Hg as [r Hr].
  apply list_elem_of_In, elem_of_replicate in Hy as [-> _]. eauto.
Qed.

Lemma policy_of_br br out :
  br_ok br -> assigned vs (r_sorted buf) gs bins (bnds br) (length gs) out ->
  range_policy_ok vs (bnds br) bins out.
Proof.
  intros (Hbs & Hlt & Hhd & Hlst & Hlen) [Hl Hout].
  pose proof (rv_compare gs (so_groups _ _ _ Hso)) as Hcmp.
  assert (forall r x c, gs !! r = Some (x, c) -> rv !!! r = x /\ (r < length gs)%nat) as Hrv.
  { intros r x c H. split; [by eapply rv_total|by eapply lookup_lt_Some]. }
  split; try done.
  - by rewrite zlen_map.
  - apply (StronglySorted_map le); [|done]. intros i j Hi Hj Hij.
    rewrite Forall_forall in Hlt. apply bleb_le. rewrite Hcmp by auto. apply Z.leb_le. lia.
  - intros x y Hx Hy. destruct br as [|j br]; [done|]. injection Hhd as ->. injection Hx as <-.
    apply in_groups in Hy as (r & c & Hr). destruct (Hrv _ _ _ Hr) as [<- ?].
    apply bleb_le. rewrite Hcmp by lia. apply Z.leb_le. lia.
  - intros x y Hx Hy.
    assert (last (bnds br) = Some (rv !!! (length gs - 1)%nat)) as E
      by (etransitivity; [apply fmap_last|by rewrite Hlst]).
    rewrite Hx in E. injection E as ->.
    apply in_groups in Hy as (r & c & Hr). destruct (Hrv _ _ _ Hr) as [<- ?].
    apply bleb_le. rewrite Hcmp by lia. apply Z.leb_le. lia.
  - intros _. apply Forall_map. eapply Forall_impl; [exact Hlt|]. intros j Hj. simpl.
    destruct (lookup_lt_is_Some_2 gs j Hj) as [[x c] Hg]. destruct (Hrv _ _ _ Hg) as [-> _].
    exact (rv_in_vs _ _ Hv _ _ (so_perm _ _ _ Hso) (so_values _ _ _ Hso) (so_groups _ _ _ Hso) _ _ _ Hg).
  - intros j x Hj. rewrite <- (Nat2Z.id j).
    assert (Z.of_nat j ∈ r_sorted buf) as Hin.
    { rewrite (so_perm _ _ _ Hso), elem_of_iota. apply lookup_lt_Some in Hj. unfold zlen. lia. }
    apply list_elem_of_lookup in Hin as [k Hk]. apply (Hout k); [|done|by rewrite Nat2Z.id].
    rewrite off_all, <- (so_values _ _ _ Hso), length_map. by eapply lookup_lt_Some.
Qed.

(** The rows at the two ends of the value order. *)
Lemma end_values : exists x0 c0 row0 x1 c1 row1,
  gs !! 0%nat = Some (x0, c0) /\ gs !! (length gs - 1)%nat = Some (x1, c1) /\
  zget (r_sorted buf) 0 = Ok row0 /\ bl_get (r_values buf) row0 = Ok x0 /\
  zget (r_sorted buf) (zlen vs - 1) = Ok row1 /\ bl_get (r_values buf) row1 = Ok x1.
Proof.
  pose proof gs_ne as Hg0. pose proof vs_pos as Hpos. destruct Hso as [Hperm Hvals Hgs _ _].
  assert (length (expand gs) = length vs) as Hle by (by eapply len_expand).
  destruct (lookup_lt_is_Some_2 gs 0%nat Hg0) as [[x0 c0] H0].
  destruct (lookup_lt_is_Some_2 gs (length gs - 1)%nat ltac:(lia)) as [[x1 c1] H1].
  destruct (row_value _ _ Hv _ _ Hperm Hvals 0 x0) as (row0 & Hr0 & _ & _ & Hget0).
  { apply (expand_lookup gs 0 x0 c0); [done|]. pose proof (group_pos _ Hgs _ _ _ H0).
    unfold off. simpl. lia. }
  destruct (row_value _ _ Hv _ _ Hperm Hvals (length vs - 1) x1) as (row1 & Hr1 & _ & _ & Hget1).
  { apply (expand_lookup gs (length gs - 1) x1 c1); [done|].
    pose proof (off_succ gs _ _ _ H1) as E. pose proof (group_pos _ Hgs _ _ _ H1).
    replace (S (length gs - 1)) with (length gs) in E by lia. rewrite off_all, Hle in E. lia. }
  exists x0, c0, row0, x1, c1, row1. repeat split; try done; apply zget_lookup; split; try lia.
  - done.
  - by replace (Z.to_nat (zlen vs - 1)) with (length vs - 1)%nat by (unfold zlen; lia).
Qed.

(** Sweep and padding leave well-formed boundary runs. *)
Lemma padded_br_ok s br :
  sweep_inv gs bins (length gs) s br ->
  br_ok (br ++ replicate (Z.to_nat (bins + 1 - zlen br)) (length gs - 1)%nat).
Proof.
  pose proof gs_ne as Hg0. intros [_ _ Hsb Hhd Hbel [Hb1 Hb2] _].
  assert (Z.to_nat (bins + 1 - zlen br) <> 0%nat) as Hm by lia.
  assert (Forall (fun j => (j <= length gs - 1)%nat) br) as Hle.
  { eapply Forall_impl; [exact Hbel|]. simpl. lia. }
  split; [by apply pad_sorted|]. split; [|split; [|split]].
  - apply Forall_app. split; [eapply Forall_impl; [exact Hle|]; simpl; lia|].
    apply Forall_forall. intros x Hx. apply elem_of_replicate in Hx as [-> _]. lia.
  - by destruct br.
  - destruct (Z.to_nat (bins + 1 - zlen br)) as [|m]; [done|].
    by rewrite replicate_S_end, app_assoc, last_snoc.
  - rewrite zlen_app, zlen_replicate. lia.
Qed.

Lemma SetRange_nonempty :
  bin_of_row buf = [] ->
  exists bl bs buf', SetRangeBinningPolicy bins buf = Ok (bl, buf') /\ bl_repr bl bs /\
    range_policy_ok vs bs bins (bin_of_row buf').
Proof.
  intros Hbin. pose proof gs_ne as Hg0. pose proof vs_pos as Hpos. pose proof runs_eq as Hruns.
  destruct end_values as (x0 & c0 & row0 & x1 & c1 & row1 & H0 & H1 & Hr0 & Hx0 & Hr1 & Hx1).
  pose proof Hso as [Hperm Hvals Hgs _ _].
  assert (zlen (r_sorted buf) = zlen vs) as Hzs.
  { unfold zlen. f_equal. by eapply len_sorted. }
  assert (zlen (run_start buf) - 1 = Z.of_nat (length gs)) as Hrc.
  { rewrite Hruns. unfold zlen. rewrite length_starts. lia. }
  unfold SetRangeBinningPolicy. rewrite Hzs, (proj2 (Z.eqb_neq (zlen vs) 0)) by lia.
  rewrite Hr0. cbn [mbind result_bind]. rewrite Hx0. cbn [mbind result_bind].
  rewrite Hrc, Nat2Z.id.
  pose proof (sweep_init _ _ Hv (r_sorted buf) gs bins L Hperm Hvals Hgs Hbins HL0 HL Hcap Hcap2
    x0 c0 H0) as Hinit. rewrite Hzs in Hinit.
  destruct (sweep_loop_spec _ _ Hv _ (run_start buf) _ _ L Hperm Hvals Hgs Hruns HL0 HL
    Hcap Hcap2 (length gs) 0 _ _ Hinit) as (s & br & Es & Hinv); [lia|].
  change (Z.of_nat 0) with 0 in Es. rewrite Es. cbn [mbind result_bind].
  rewrite Hr1. cbn [mbind result_bind]. rewrite Hx1. cbn [mbind result_bind].
  pose proof (padded_br_ok s br Hinv) as Hok. pose proof Hok as (Hbs & Hblt & _ & _ & _).
  pose proof Hinv as [Hbr Hbn _ _ _ [Hb1 Hb2] _].
  pose proof (groups_le gs Hgs) as Hgl. rewrite <- Hvals, length_map in Hgl.
  pose proof (bl_count _ _ Hv) as Hcnt. pose proof (zlen_nonneg br).
  destruct (pad_loop_spec _ _ Hv _ _ bins L Hperm Hvals Hgs HL0 HL Hcap Hcap2
    (S (Z.to_nat (bins + 1))) (boundaries s) br Hbn) as (bl & Ep & Hbl); [|lia..|].
  { by apply Forall_app in Hblt as [? _]. }
  rewrite (rv_total _ _ _ _ H1), <- Hbr in Ep.
  rewrite u32_small by (unfold is_u32, zlen in *; lia).
  replace (Z.of_nat (length gs) - 1) with (Z.of_nat (length gs - 1)) by lia.
  rewrite Ep. cbn [mbind result_bind]. set (br' := br ++ _) in *.
  destruct (assign_loop_spec _ _ Hv _ (run_start buf) _ bins Hperm Hvals Hgs Hruns Hbins Hcap2
    br' (length gs) 0 0 (zresize (bin_of_row buf) (zlen vs) 0)) as (out & Ea & Hout).
  - by apply map_of_nat_sorted.
  - done.
  - split; [lia|apply count_if_bounds].
  - lia.
  - split; [|unfold off; simpl; lia]. pose proof (zresize_length (bin_of_row buf) (zlen vs) 0).
    unfold zlen in *. lia.
  - change (Z.of_nat 0) with 0 in Ea. rewrite Ea. cbn [mbind result_bind].
    eexists bl, (bnds br'), _. split; [done|]. split; [done|]. by apply policy_of_br.
Qed.
End Policy.

Lemma SetRangeBinningPolicy_spec vs buf gs bins L :
  bl_repr (r_values buf) vs -> sorted_ok vs buf gs -> bin_of_row buf = [] ->
  1 <= bins -> 0 <= L -> Forall (fun x => zlen x <= L) vs ->
  (bins + 1) * L < 2 ^ 32 -> bins + 1 < 2 ^ 32 ->
  exists bl bs buf', SetRangeBinningPolicy bins buf = Ok (bl, buf') /\ bl_repr bl bs /\
    range_policy_ok vs bs bins (bin_of_row buf').
Proof.
  intros Hv Hso Hbin Hb HL0 HL Hc Hc2. destruct (decide (vs = [])) as [->|Hne].
  - apply SetRange_empty; try done. pose proof (so_perm _ _ _ Hso) as Hp.
    change (iota (zlen [])) with (@nil Z) in Hp. by apply Permutation_nil_r in Hp.
  - by eapply SetRange_nonempty.
Qed.

Lemma push_all_repr b vs0 vs :
  range_repr b vs0 -> zlen (concat (vs0 ++ vs)) < 2 ^ 32 -> zlen (vs0 ++ vs) < 2 ^ 32 ->
  Forall (fun v => zlen v < 2 ^ 31) vs -> range_repr (push_all b vs) (vs0 ++ vs).
Proof.
  revert b vs0. induction vs as [|v vs IH]; intros b vs0 Hr H1 H2 HF; cbn [push_all fold_left].
  { by rewrite app_nil_r. }
  apply Forall_cons in HF as [Hv HF].
  rewrite cons_middle, app_assoc in H1, H2 |- *. apply IH; try done.
  rewrite concat_app, zlen_app, concat_app, zlen_app in H1. rewrite zlen_app, zlen_snoc in H2.
  cbn [concat] in H1. rewrite app_nil_r in H1.
  pose proof (zlen_nonneg (concat vs)). pose proof (zlen_nonneg vs).
  apply Push_repr; try done; lia.
Qed.

Lemma blt_sorted_nodup l : StronglySorted blt l -> NoDup l.
Proof.
  induction 1 as [|x l _ IH Hx]; constructor; [|done]. intros Hin.
  rewrite Forall_forall in Hx. by apply (blt_irrefl x), Hx.
Qed.

Lemma distinct_groups vs buf gs :
  bl_repr (r_values buf) vs -> sorted_ok vs buf gs -> r_distinct buf = zlen (remove_dups vs).
Proof.
  intros Hv Hso. rewrite (so_distinct _ _ _ Hso). unfold zlen. f_equal.
  rewrite <- (length_map fst gs). apply Permutation_length. apply NoDup_Permutation.
  - apply blt_sorted_nodup, (so_groups _ _ _ Hso).
  - apply NoDup_remove_dups.
  - intros x. rewrite elem_of_remove_dups, list_elem_of_fmap. split.
    + intros ([y c] & -> & Hg). apply list_elem_of_lookup in Hg as [r Hr].
      eapply (rv_in_vs _ _ Hv); [apply Hso..|exact Hr].
    + intros Hx. destruct (in_groups vs buf gs Hso x Hx) as (r & c & Hr). exists (x, c).
      split; [done|]. by eapply list_elem_of_lookup_2.
Qed.

(** (C33) The bins of a kRange attribute. Whatever order [std::sort] gives to
    equal values, and whatever the floating-point targets decide, binning the
    rows of an SSTable ends with [bins + 1] boundaries in memcmp order that
    occur in the data and span exactly from the smallest to the largest value;
    every row is put into the bin the boundaries assign to its value, the
    number of boundaries at or below it less one, clamped; and the distinct
    count is exact. *)
Theorem range_binning_correct `{StdSort} `{!StdSortLaws _} vs bins L :
  zlen vs < 2 ^ 32 -> zlen (concat vs) < 2 ^ 32 -> Forall (fun v => zlen v <= L) vs ->
  0 <= L < 2 ^ 31 -> 1 <= bins -> bins + 1 < 2 ^ 32 -> (bins + 1) * L < 2 ^ 32 ->
  exists buf bl bs buf',
    Sort (push_all RangeAttrBuf_init vs) = Ok buf /\
    SetRangeBinningPolicy bins buf = Ok (bl, buf') /\ bl_repr bl bs /\
    range_policy_ok vs bs bins (bin_of_row buf') /\ r_distinct buf = zlen (remove_dups vs).
Proof.
  intros H1 H2 HF HL Hb Hb1 Hb2.
  assert (range_repr (push_all RangeAttrBuf_init vs) vs) as Hr.
  { apply (push_all_repr _ []); try done.
    eapply Forall_impl; [exact HF|]. simpl. lia. }
  destruct (Sort_spec _ _ Hr) as (buf & gs & Es & Hso & Hv & Hbin).
  pose proof (rr_values _ _ Hr) as Hbl. rewrite <- Hv in Hbl.
  destruct (SetRangeBinningPolicy_spec vs buf gs bins L) as (bl & bs & buf' & E & Hrep & Hok);
    try done; [lia|].
  exists buf, bl, bs, buf'. split; [done|]. split; [done|]. split; [done|]. split; [done|].
  by eapply distinct_groups.
Qed.

Lemma range_binning_correct_witness :
  let vs := [[x62]; [x61]; [x62]; [x63; x61]] in
  zlen vs < 2 ^ 32 /\ exists buf bl bs buf',
    Sort (push_all RangeAttrBuf_init vs) = Ok buf /\
    SetRangeBinningPolicy 2 buf = Ok (bl, buf') /\ bl_repr bl bs /\
    range_policy_ok vs bs 2 (bin_of_row buf') /\ r_distinct buf = zlen (remove_dups vs).
Proof.
  intros vs. split; [reflexivity|].
  apply (range_binning_correct vs 2 2); try reflexivity; try lia.
  repeat constructor; discriminate.
Defined.
