(* ===== verification/Binning.v ===== *)
(** * Bin allocation and equality binning

    Models [SABIBuilder::SetBinningPolicy]'s allocation of bitmaps to
    attributes and [SABIBuilder::SetEqualityBinningPolicy]
    ([sabi_builder.cpp]): the greedy loop over a priority queue of diminishing
    returns, and the assignment of the distinct values of a kEquality
    attribute to the currently lightest bin. *)
From Stdlib Require Import ZArith Lia Strings.Byte Floats.SpecFloat Sorting.Sorted.
From stdpp Require Import base numbers list sets sorting.
From S2P Require Import Prelude Floats Externals Intern RangeBuf.

(** ** std::priority_queue

    [top] and [pop]: the greatest element under [less], and the others. *)
Fixpoint pop_max {A} (less : A -> A -> bool) (x : A) (l : list A) : A * list A :=
  match l with
  | [] => (x, [])
  | y :: r =>
      if less x y then let '(m, rest) := pop_max less y r in (m, x :: rest)
      else let '(m, rest) := pop_max less x r in (m, y :: rest)
  end.

Lemma pop_max_perm {A} (less : A -> A -> bool) x l m rest :
  pop_max less x l = (m, rest) -> m :: rest ≡ₚ x :: l.
Proof.
  revert x m rest. induction l as [|y l IH]; intros x m rest; simpl; [by intros [= <- <-]|].
  destruct (less x y).
  - destruct (pop_max less y l) as [m' r'] eqn:E. intros [= <- <-].
    rewrite Permutation_swap, (IH _ _ _ E). done.
  - destruct (pop_max less x l) as [m' r'] eqn:E. intros [= <- <-].
    rewrite Permutation_swap, (IH _ _ _ E). apply Permutation_swap.
Qed.

Lemma pop_max_top {A} (less : A -> A -> bool) x l m rest :
  StrictWeak less -> pop_max less x l = (m, rest) -> Forall (fun y => less m y = false) (x :: l).
Proof.
  intros [Hirr Htr Hinc]. revert x m rest. induction l as [|y l IH]; intros x m rest; simpl.
  - intros [= <- <-]. by repeat constructor.
  - destruct (less x y) eqn:Exy.
    + destruct (pop_max less y l) as [m' r'] eqn:E. intros [= <- <-].
      specialize (IH _ _ _ E). apply Forall_cons in IH as [Hy Hl].
      constructor; [|by constructor]. destruct (less m' x) eqn:Em; [|done].
      by rewrite (Htr _ _ _ Em Exy) in Hy.
    + destruct (pop_max less x l) as [m' r'] eqn:E. intros [= <- <-].
      specialize (IH _ _ _ E). apply Forall_cons in IH as [Hx Hl].
      repeat constructor; try done. exact (Hinc _ _ _ Hx Exy).
Qed.

(** ** Allocation of bitmaps to attributes *)

(** [operator<] of [pair<double, uint32_t>]. *)
Definition gain_less (x y : spec_float * Z) : bool :=
  SFltb (fst x) (fst y) || (negb (SFltb (fst y) (fst x)) && (snd x <? snd y)).

(** [query_weight / (b * (b + 1))], the product in [uint32_t]. *)
Definition gain (b : Z) : spec_float :=
  f64_div (f64_of_Z 1) (f64_of_Z (u32 (b * u32 (b + 1)))).

(** [(uint32_t)(attr_num / rho)] *)
Definition target_bitmaps (attr_num rho : Z) : result Z :=
  f64_to_Z (2 ^ 32) (f64_div (f64_of_Z attr_num) (f64_decode rho)).

Record alloc := mkAlloc {
  al_nums : list Z;
  al_budget : Z;
  al_total : Z;
  al_pq : list (spec_float * Z);
}.

(** The first loop: one bin for each of the [n] attributes. *)
Fixpoint alloc_init (n : nat) (i : Z) (a : alloc) : alloc :=
  match n with
  | O => a
  | S n' =>
      alloc_init n' (i + 1)
        (mkAlloc (al_nums a ++ [1]) (s32 (al_budget a - 1)) (u32 (al_total a + 1))
           (al_pq a ++ [(gain 1, i)]))
  end.

(** [while (remaining_budget > 0 && pq.size() > 0)] *)
Fixpoint alloc_loop (fuel : nat) (cardinality : list Z) (a : alloc) : result alloc :=
  match fuel with
  | O => Fault OutOfFuel
  | S fuel' =>
      match al_pq a with
      | top :: others =>
          if 0 <? al_budget a then
            let '((_, idx), pq) := pop_max gain_less top others in
            c ← zget cardinality idx;
            b ← zget (al_nums a) idx;
            if c <=? b then
              alloc_loop fuel' cardinality (mkAlloc (al_nums a) (al_budget a) (al_total a) pq)
            else
              nums ← zset (al_nums a) idx (u32 (b + 1));
              alloc_loop fuel' cardinality
                (mkAlloc nums (s32 (al_budget a - 1)) (u32 (al_total a + 1))
                   (pq ++ [(gain (u32 (b + 1)), idx)]))
          else Ok a
      | [] => Ok a
      end
  end.

(** [bitmap_nums] and [total_bitmaps_num] for the given cardinalities. *)
Definition allocate_bitmaps (target : Z) (cardinality : list Z) : result (list Z * Z) :=
  let a := alloc_init (length cardinality) 0 (mkAlloc [] (s32 target) 0 []) in
  a' ← alloc_loop (S (Z.to_nat (al_budget a) + length (al_pq a))) cardinality a;
  Ok (al_nums a', al_total a').

Definition zsum (l : list Z) : Z := fold_right Z.add 0 l.

Lemma zsum_app a b : zsum (a ++ b) = zsum a + zsum b.
Proof. unfold zsum. induction a; simpl; lia. Qed.
Lemma zsum_insert l i x y :
  l !! i = Some x -> zsum (<[i := y]> l) = zsum l - x + y.
Proof.
  unfold zsum. revert i. induction l as [|a l IH]; intros [|i] H; try discriminate H; simpl.
  - injection H as ->. lia.
  - rewrite (IH _ H). lia.
Qed.
Lemma zsum_ge_length l : Forall (fun x => 1 <= x) l -> zlen l <= zsum l.
Proof.
  unfold zsum. induction 1; simpl; [done|]. rewrite zlen_cons. lia.
Qed.


(** The loop keeps what was given out in balance with the budget, and leaves
    the queue only attributes that can still use a bin. *)
Record alloc_inv (T : Z) (card : list Z) (a : alloc) : Prop := {
  ai_len : length (al_nums a) = length card;
  ai_pos : Forall (fun b => 1 <= b) (al_nums a);
  ai_le i b c : al_nums a !! i = Some b -> card !! i = Some c -> b <= Z.max 1 c;
  ai_budget : al_budget a = T - zsum (al_nums a);
  ai_total : al_total a = zsum (al_nums a);
  ai_nodup : NoDup (map snd (al_pq a));
  ai_range : Forall (fun e => 0 <= snd e < zlen card) (al_pq a);
  ai_done i b c : al_nums a !! i = Some b -> card !! i = Some c ->
    Z.of_nat i ∉ map snd (al_pq a) -> c <= b;
}.

Lemma alloc_init_spec n i a T :
  Forall (fun b => b = 1) (al_nums a) -> zlen (al_nums a) = i ->
  map snd (al_pq a) = iota i -> al_budget a = T - i -> al_total a = i ->
  0 <= T < 2 ^ 31 -> i + Z.of_nat n < 2 ^ 31 ->
  let a' := alloc_init n i a in
  Forall (fun b => b = 1) (al_nums a') /\ zlen (al_nums a') = i + Z.of_nat n /\
  map snd (al_pq a') = iota (i + Z.of_nat n) /\ al_budget a' = T - (i + Z.of_nat n) /\
  al_total a' = i + Z.of_nat n.
Proof.
  revert i a. induction n as [|n IH]; intros i a H1 H2 H3 H4 H5 HT Hn.
  { cbn [alloc_init]. rewrite Z.add_0_r. done. }
  cbn [alloc_init]. replace (i + Z.of_nat (S n)) with (i + 1 + Z.of_nat n) by lia.
  assert (0 <= i) by (rewrite <- H2; apply zlen_nonneg).
  apply IH; cbn [al_nums al_pq al_budget al_total]; try lia.
  - apply Forall_app. by split; [|constructor].
  - rewrite zlen_snoc. lia.
  - rewrite map_app, H3. unfold iota. replace (Z.to_nat (i + 1)) with (S (Z.to_nat i)) by lia.
    rewrite seq_S, map_app. simpl. repeat f_equal. lia.
  - rewrite s32_id; lia.
  - rewrite u32_small; [lia|]. unfold is_u32. lia.
Qed.

Section AllocLoop.
Context (T : Z) (card : list Z) (HT : 0 <= T < 2 ^ 31) (Hcard : Forall is_u32 card).

(** Dropping a saturated attribute from the queue. *)
Lemma alloc_drop a g idx pq :
  alloc_inv T card a -> (g, idx) :: pq ≡ₚ al_pq a ->
  (forall b c, al_nums a !! Z.to_nat idx = Some b -> card !! Z.to_nat idx = Some c -> c <= b) ->
  alloc_inv T card (mkAlloc (al_nums a) (al_budget a) (al_total a) pq).
Proof.
  intros [Hl Hp Hle Hb Ht Hn Hr Hd] Hperm Hsat.
  rewrite <- Hperm in Hn, Hr. apply Forall_cons in Hr as [Hi Hr]. simpl in Hi.
  apply NoDup_cons in Hn as [Hni Hn].
  split; cbn [al_nums al_budget al_total al_pq]; try done.
  intros i b c Hib Hic Hnot. destruct (decide (Z.of_nat i = idx)) as [<-|Hne].
  - rewrite Nat2Z.id in Hsat. eauto.
  - eapply Hd; [done..|]. rewrite <- Hperm. simpl. set_solver.
Qed.

(** Giving an attribute one more bin. *)
Lemma alloc_grow a g idx pq b c :
  alloc_inv T card a -> (g, idx) :: pq ≡ₚ al_pq a -> 0 < al_budget a ->
  al_nums a !! Z.to_nat idx = Some b -> card !! Z.to_nat idx = Some c -> b < c ->
  alloc_inv T card (mkAlloc (<[Z.to_nat idx := u32 (b + 1)]> (al_nums a))
    (s32 (al_budget a - 1)) (u32 (al_total a + 1)) (pq ++ [(gain (u32 (b + 1)), idx)])).
Proof.
  intros [Hl Hp Hle Hb Ht Hn Hr Hd] Hperm Hbud Hib Hic Hlt.
  pose proof (Forall_lookup_1 _ _ _ _ Hcard Hic) as Hc. unfold is_u32 in Hc.
  pose proof (Forall_lookup_1 _ _ _ _ Hp Hib) as Hb1. simpl in Hb1.
  pose proof (zsum_ge_length _ Hp). pose proof (zlen_nonneg (al_nums a)).
  rewrite <- Hperm in Hn, Hr. apply Forall_cons in Hr as [Hi Hr]. simpl in Hi.
  rewrite !u32_small by (unfold is_u32; lia).
  split; cbn [al_nums al_budget al_total al_pq].
  - by rewrite length_insert.
  - apply Forall_insert; [done|lia].
  - intros i b' c' Hb' Hc'. destruct (decide (i = Z.to_nat idx)) as [->|Hne].
    + rewrite list_lookup_insert_eq in Hb' by (by eapply lookup_lt_Some). simplify_eq. lia.
    + rewrite list_lookup_insert_ne in Hb' by done. eauto.
  - rewrite s32_id, (zsum_insert _ _ _ _ Hib) by lia. lia.
  - rewrite (zsum_insert _ _ _ _ Hib). lia.
  - rewrite map_app. simpl. rewrite Permutation_app_comm. done.
  - apply Forall_app. split; [done|]. by constructor.
  - intros i b' c' Hb' Hc' Hnot. rewrite map_app in Hnot.
    destruct (decide (i = Z.to_nat idx)) as [->|Hne].
    + exfalso. apply Hnot. simpl. rewrite Z2Nat.id by lia. set_solver.
    + rewrite list_lookup_insert_ne in Hb' by done. eapply Hd; [done..|].
      rewrite <- Hperm. simpl in *. set_solver by lia.
Qed.

Lemma alloc_loop_spec fuel a :
  alloc_inv T card a -> (Z.to_nat (al_budget a) + length (al_pq a) < fuel)%nat ->
  exists a', alloc_loop fuel card a = Ok a' /\ alloc_inv T card a' /\
    (al_budget a' <= 0 \/ al_pq a' = []) /\ Z.min 0 (al_budget a) <= al_budget a'.
Proof.
  revert a. induction fuel as [|fuel IH]; intros a Hinv Hf; [lia|]. cbn [alloc_loop].
  destruct (al_pq a) as [|top others] eqn:Epq; [exists a; split; [done|]; split; [done|]; split; [by right|lia]|].
  destruct (Z.ltb_spec 0 (al_budget a)) as [Hbud|Hbud];
    [|exists a; split; [done|]; split; [done|]; split; [by left|lia]].
  destruct (pop_max gain_less top others) as [[g idx] pq] eqn:Epop.
  apply pop_max_perm in Epop. pose proof (Permutation_length Epop) as Hlen.
  assert (Hperm : (g, idx) :: pq ≡ₚ al_pq a) by (by rewrite Epq).
  pose proof (ai_range _ _ _ Hinv) as Hr. rewrite <- Hperm in Hr.
  apply Forall_cons in Hr as [Hi _]. simpl in Hi. pose proof (ai_len _ _ _ Hinv) as Hl.
  destruct (lookup_lt_is_Some_2 card (Z.to_nat idx)) as [c Hc]; [unfold zlen in Hi; lia|].
  destruct (lookup_lt_is_Some_2 (al_nums a) (Z.to_nat idx)) as [b Hb]; [unfold zlen in Hi; lia|].
  rewrite (proj2 (zget_lookup _ _ _) (conj (proj1 Hi) Hc)).
  rewrite (proj2 (zget_lookup _ _ _) (conj (proj1 Hi) Hb)). cbn [mbind result_bind].
  destruct (Z.leb_spec c b) as [Hsat|Hlt].
  - destruct (IH (mkAlloc (al_nums a) (al_budget a) (al_total a) pq)) as (a' & E & H');
      [|cbn; simpl in Hlen, Hf; lia|by exists a'].
    apply (alloc_drop a g idx pq Hinv Hperm). intros. by simplify_eq.
  - rewrite zset_okZ by (unfold zlen in Hi; lia). cbn [mbind result_bind].
    pose proof (ai_budget _ _ _ Hinv) as Hab.
    pose proof (zsum_ge_length _ (ai_pos _ _ _ Hinv)). pose proof (zlen_nonneg (al_nums a)).
    destruct (IH _ (alloc_grow a g idx pq b c Hinv Hperm Hbud Hb Hc Hlt)) as (a' & E & Hi' & Hs & Hm).
    + cbn [al_budget al_pq]. rewrite s32_id, length_app by lia. simpl in *. lia.
    + exists a'. split; [done|]. split; [done|]. split; [done|].
      cbn [al_budget] in Hm. rewrite s32_id in Hm by lia. lia.
Qed.
End AllocLoop.

Lemma allocate_bitmaps_spec T card :
  0 <= T < 2 ^ 31 -> zlen card < 2 ^ 31 -> Forall is_u32 card ->
  exists nums total, allocate_bitmaps T card = Ok (nums, total) /\
    length nums = length card /\ total = zsum nums /\
    (forall i b c, nums !! i = Some b -> card !! i = Some c -> 1 <= b <= Z.max 1 c) /\
    total <= Z.max T (zlen card) /\
    (total < T -> forall i b c, nums !! i = Some b -> card !! i = Some c -> c <= b).
Proof.
  intros HT Hn Hcard. unfold allocate_bitmaps.
  destruct (alloc_init_spec (length card) 0 (mkAlloc [] (s32 T) 0 []) T) as (H1 & H2 & H3 & H4 & H5);
    cbn [al_nums al_budget al_pq al_total]; try done;
    try (rewrite s32_id; lia); try (unfold zlen in Hn; lia).
  rewrite Z.add_0_l in *. fold (zlen card) in *.
  set (a := alloc_init _ _ _) in *.
  assert (al_nums a = replicate (length card) 1) as Hones.
  { symmetry. apply replicate_as_Forall. split; [unfold zlen in H2; lia|].
    eapply Forall_impl; [exact H1|]. done. }
  assert (zsum (al_nums a) = zlen card) as Hsum.
  { rewrite Hones. unfold zlen, zsum. clear. induction (length card); simpl; lia. }
  assert (alloc_inv T card a) as Hinv.
  { split; try congruence.
    - unfold zlen in H2. lia.
    - eapply Forall_impl; [exact H1|]. simpl. lia.
    - intros i b c Hb _. apply (Forall_lookup_1 _ _ _ _ H1) in Hb. simpl in Hb. lia.
    - rewrite H3. unfold iota. apply (NoDup_fmap_2 Z.of_nat), NoDup_seq.
    - apply Forall_forall. intros e He. apply elem_of_iota. rewrite <- H3.
      apply list_elem_of_fmap. eauto.
    - intros i b c Hb Hc Hnot. exfalso. apply Hnot. rewrite H3, elem_of_iota.
      apply lookup_lt_Some in Hc. unfold zlen. lia. }
  destruct (alloc_loop_spec T card HT Hcard _ a Hinv (Nat.lt_succ_diag_r _))
    as (a' & -> & [Hl Hp Hle Hb Ht _ _ Hd] & Hstop & Hmin). cbn [mbind result_bind].
  exists (al_nums a'), (al_total a'). split; [done|]. split; [done|]. split; [done|].
  split; [|split].
  - intros i b c Hib Hic. split; [by apply (Forall_lookup_1 _ _ _ _ Hp Hib)|eauto].
  - lia.
  - intros Hlt i b c Hib Hic. destruct Hstop as [?|Hq]; [lia|]. eapply Hd; [done..|].
    rewrite Hq. apply not_elem_of_nil.
Qed.

(** (C35) Bin allocation. The greedy loop ends; every attribute gets at least
    one bin and never more than its distinct values need; the total is the
    size the bitmap array is given; the total stays within the target unless
    the mandatory single bins alone exceed it; and bins are left unspent only
    when every attribute has as many as it can use. *)
Theorem allocate_bitmaps_correct T card :
  0 <= T < 2 ^ 31 -> zlen card < 2 ^ 31 -> Forall is_u32 card ->
  exists nums total, allocate_bitmaps T card = Ok (nums, total) /\
    length nums = length card /\ total = zsum nums /\
    (forall i b c, nums !! i = Some b -> card !! i = Some c -> 1 <= b <= Z.max 1 c) /\
    total <= Z.max T (zlen card) /\
    (total < T -> forall i b c, nums !! i = Some b -> card !! i = Some c -> c <= b).
Proof. apply allocate_bitmaps_spec. Qed.

Lemma allocate_bitmaps_correct_witness :
  0 <= 5 < 2 ^ 31 /\ exists nums total,
    allocate_bitmaps 5 [3; 1] = Ok (nums, total) /\ length nums = 2%nat /\ total = zsum nums.
Proof.
  split; [lia|].
  destruct (allocate_bitmaps_correct 5 [3; 1]) as (nums & total & E & Hl & Hs & _);
    [lia|reflexivity| |].
  - repeat constructor; (reflexivity || discriminate).
  - exists nums, total. split; [exact E|]. split; [exact Hl|exact Hs].
Defined.

(** ** SetEqualityBinningPolicy *)
Abbreviation eq_policy := (list (bytes * Z)).

(** [operator<] of [pair<uint32_t, uint32_t>] and of [pair<string, uint32_t>]. *)
Definition load_less (x y : Z * Z) : bool :=
  (fst x <? fst y) || (negb (fst y <? fst x) && (snd x <? snd y)).
Definition entry_less (x y : bytes * Z) : bool :=
  bltb (fst x) (fst y) || (negb (bltb (fst y) (fst x)) && (snd x <? snd y)).

(** The loop over [sorted_ids]: each value goes to the bin on top of the
    min-heap. *)
Fixpoint eq_assign (ids : list Z) (cat : EqualityAttrBuf) (pq : list (Z * Z))
    (binning : eq_policy) (bins_of : list Z) : result (eq_policy * list Z) :=
  match ids with
  | [] => Ok (binning, bins_of)
  | id :: rest =>
      match pq with
      | [] => Fault OutOfBounds
      | e :: others =>
          let '((cur_bin_cnt, bin_idx), pq') := pop_max (fun x y => load_less y x) e others in
          v ← ValueOf cat id;
          c ← zget (count_by_id cat) id;
          bins_of' ← zset bins_of id bin_idx;
          eq_assign rest cat (pq' ++ [(u32 (cur_bin_cnt + c), bin_idx)])
            (binning ++ [(v, bin_idx)]) bins_of'
      end
  end.

Section EqualityBinning.
Context `{StdSort}.

Definition sorted_ids (cat : EqualityAttrBuf) : list Z :=
  std_sort (fun a b => count_by_id cat !!! Z.to_nat b <? count_by_id cat !!! Z.to_nat a)
    (iota (zlen (value_by_id cat))).

Definition SetEqualityBinningPolicy (bins : Z) (cat : EqualityAttrBuf)
    : result (eq_policy * EqualityAttrBuf) :=
  let ids := sorted_ids cat in
  '(binning, bins_of) ← eq_assign ids cat (map (fun j => (0, j)) (iota bins)) []
                          (zresize (bin_by_id cat) (zlen ids) 0);
  Ok (std_sort entry_less binning,
      mkEqualityAttrBuf (eq_arena cat) (value_by_id cat) (count_by_id cat) (row_ids cat)
        bins_of (slot_hash_ cat) (slot_id_ cat) (used_ cat)).
End EqualityBinning.

Lemma strict_weak_load : StrictWeak load_less.
Proof. unfold load_less. split; intros *; lia. Qed.
Lemma strict_weak_flip {A} (less : A -> A -> bool) :
  StrictWeak less -> StrictWeak (fun x y => less y x).
Proof. intros [H1 H2 H3]. split; eauto. Qed.
Lemma strict_weak_entry : StrictWeak entry_less.
Proof.
  unfold entry_less. split.
  - intros x. rewrite (proj2 (bltb_ge _ _)) by border. simpl. lia.
  - intros x y z. rewrite !orb_true_iff, !andb_true_iff, !negb_true_iff, !bltb_lt, !bltb_ge, !Z.ltb_lt.
    intros [?|[? ?]] [?|[? ?]]; [left; border..|].
    destruct (blt_total (fst x) (fst z)) as [?|[E|?]]; [by left| |exfalso; border].
    right. split; [border|lia].
  - intros x y z. rewrite !orb_false_iff, !andb_false_iff, !negb_false_iff, !bltb_lt, !bltb_ge, !Z.ltb_ge.
    intros [H1 H2] [H3 H4]. split; [border|].
    destruct (blt_total (fst z) (fst x)) as [?|[E|?]]; [by left| |exfalso; border].
    right. destruct H2 as [?|?], H4 as [?|?]; try (exfalso; border). lia.
Qed.

(** The load of a bin: the rows of the values assigned to it. *)
Definition bin_load (counts bins_of : list Z) (ids : list Z) (j : Z) : Z :=
  zsum (map (fun id => counts !!! Z.to_nat id)
          (filter (fun id => bins_of !!! Z.to_nat id = j) ids)).

Lemma filter_ext_in {A} (P Q : A -> Prop) `{!forall x, Decision (P x)} `{!forall x, Decision (Q x)} (l : list A) :
  (forall x, x ∈ l -> P x <-> Q x) -> filter P l = filter Q l.
Proof.
  induction l as [|x l IH]; intros Hl; [done|].
  assert (filter P l = filter Q l) as E by (apply IH; intros; apply Hl; by right).
  destruct (decide (P x)) as [Hp|Hp].
  - rewrite !filter_cons_True by (done || by apply Hl; [left|]). by rewrite E.
  - rewrite !filter_cons_False by (done || by rewrite <- Hl by left). by rewrite E.
Qed.

Lemma bin_load_snoc counts bins_of seen id j0 j :
  Forall (fun x => 0 <= x) (id :: seen) -> id ∉ seen -> (Z.to_nat id < length bins_of)%nat ->
  bin_load counts (<[Z.to_nat id := j0]> bins_of) (seen ++ [id]) j =
  bin_load counts bins_of seen j + if decide (j0 = j) then counts !!! Z.to_nat id else 0.
Proof.
  intros Hpos Hni Hlt. apply Forall_cons in Hpos as [Hid Hpos]. unfold bin_load.
  rewrite filter_app, map_app, zsum_app. f_equal.
  - f_equal. f_equal. apply filter_ext_in. rewrite Forall_forall in Hpos.
    intros x Hx. rewrite list_lookup_total_insert_ne; [done|].
    intros E. apply Z2Nat.inj in E; [by subst|done|by apply Hpos].
  - destruct (decide (j0 = j)) as [->|Hne].
    + rewrite filter_cons_True by (by rewrite list_lookup_total_insert_eq).
      simpl. lia.
    + rewrite filter_cons_False by (by rewrite list_lookup_total_insert_eq). done.
Qed.

Lemma bin_load_bounds counts bins_of seen j :
  (forall i, 0 <= counts !!! i) ->
  0 <= bin_load counts bins_of seen j <= zsum (map (fun id => counts !!! Z.to_nat id) seen).
Proof.
  intros Hc. unfold bin_load. induction seen as [|x seen IH]; [done|]. cbn [map].
  destruct (decide (bins_of !!! Z.to_nat x = j)).
  - rewrite filter_cons_True by done. cbn [map]. unfold zsum in *. simpl. specialize (Hc (Z.to_nat x)). lia.
  - rewrite filter_cons_False by done. unfold zsum in *. simpl. specialize (Hc (Z.to_nat x)). lia.
Qed.

Section EqAssign.
Context (hash : bytes -> Z) (cat : EqualityAttrBuf) (vs rows : list bytes) (bins M : Z).
Context (Hcat : eq_repr hash cat vs rows) (Hbins : 1 <= bins).
Context (HM : forall i, 0 <= count_by_id cat !!! i <= M).
Local Abbreviation counts := (count_by_id cat).
Local Abbreviation load bins_of seen j := (bin_load counts bins_of seen j).

Record assign_inv (seen : list Z) (pq : list (Z * Z)) (binning : eq_policy)
    (bins_of : list Z) : Prop := {
  as_pq : pq ≡ₚ map (fun j => (load bins_of seen j, j)) (iota bins);
  as_binning : binning = map (fun id => (vs !!! Z.to_nat id, bins_of !!! Z.to_nat id)) seen;
  as_len : length bins_of = length vs;
  as_range : Forall (fun id => 0 <= bins_of !!! Z.to_nat id < bins) seen;
  as_balance j k : 0 <= j < bins -> 0 <= k < bins ->
    load bins_of seen j <= load bins_of seen k + M;
}.

(** The heap after the lightest bin took a value. *)
Lemma heap_step seen pq pq' cur j0 bins_of id c :
  pq ≡ₚ map (fun j => (load bins_of seen j, j)) (iota bins) ->
  (cur, j0) :: pq' ≡ₚ pq -> Forall (fun x => 0 <= x) (id :: seen) -> id ∉ seen ->
  (Z.to_nat id < length bins_of)%nat -> counts !!! Z.to_nat id = c ->
  0 <= j0 < bins /\ cur = load bins_of seen j0 /\
  (pq' ++ [(cur + c, j0)]) ≡ₚ
    map (fun j => (load (<[Z.to_nat id := j0]> bins_of) (seen ++ [id]) j, j)) (iota bins).
Proof.
  intros Hpq Hpop Hpos Hni Hlt Hc.
  assert ((cur, j0) ∈ map (fun j => (load bins_of seen j, j)) (iota bins)) as Hin.
  { rewrite <- Hpq, <- Hpop. by left. }
  apply list_elem_of_fmap in Hin as (j & [= -> ->] & Hj).
  pose proof Hj as Hj0%elem_of_iota. split; [done|]. split; [done|].
  apply list_elem_of_split in Hj as (l1 & l2 & El).
  assert ((j ∉ l1) /\ (j ∉ l2)) as [Hn1 Hn2].
  { assert (NoDup (iota bins)) as Hnd by (unfold iota; apply (NoDup_fmap_2 Z.of_nat), NoDup_seq).
    rewrite El in Hnd. apply NoDup_app in Hnd as (_ & Hd & Hnd).
    apply NoDup_cons in Hnd as [? _]. split; [|done]. intros Hx. apply (Hd j Hx). by left. }
  rewrite <- Hpop, El, map_app in Hpq. cbn [map] in Hpq.
  apply Permutation_cons_app_inv in Hpq. rewrite Hpq, El, map_app. cbn [map].
  rewrite <- (app_assoc _ _ [_]).
  assert (forall l, j ∉ l -> map (fun i => (load bins_of seen i, i)) l =
    map (fun i => (load (<[Z.to_nat id := j]> bins_of) (seen ++ [id]) i, i)) l) as Hsame.
  { intros l Hl. apply map_ext_in. intros i Hi%list_elem_of_In. f_equal.
    rewrite bin_load_snoc by done. rewrite decide_False by congruence. lia. }
  rewrite !Hsame by done. apply Permutation_app_head.
  rewrite Permutation_app_comm. simpl. rewrite bin_load_snoc, decide_True, Hc by done. done.
Qed.

Lemma ValueOf_cat id : 0 <= id -> (Z.to_nat id < length vs)%nat ->
  ValueOf cat id = Ok (vs !!! Z.to_nat id) /\
  zget counts id = Ok (counts !!! Z.to_nat id).
Proof.
  intros Hid Hlt. destruct (lookup_lt_is_Some_2 vs _ Hlt) as [v Hv].
  rewrite (list_lookup_total_correct _ _ _ Hv). split.
  - rewrite <- (Z2Nat.id id) by done. by eapply ValueOf_repr.
  - apply zget_lookup. split; [done|]. apply list_lookup_lookup_total_lt.
    rewrite (er_counts _ _ _ _ Hcat), length_map. done.
Qed.

Lemma eq_assign_step seen pq binning bins_of id rest :
  assign_inv seen pq binning bins_of ->
  0 <= id -> (Z.to_nat id < length vs)%nat -> Forall (fun x => 0 <= x) seen -> id ∉ seen ->
  zsum (map (fun x => counts !!! Z.to_nat x) (seen ++ [id])) < 2 ^ 32 ->
  exists pq' binning' bins_of',
    eq_assign (id :: rest) cat pq binning bins_of = eq_assign rest cat pq' binning' bins_of' /\
    assign_inv (seen ++ [id]) pq' binning' bins_of'.
Proof.
  intros [Hpq Hbn Hlen Hrg Hbal] Hid Hlt Hpos Hni Hsum.
  destruct pq as [|e others].
  { apply Permutation_length in Hpq. rewrite length_map, length_iota in Hpq. simpl in Hpq. lia. }
  cbn [eq_assign]. destruct (pop_max _ e others) as [[cur j0] pq'] eqn:Epop.
  pose proof (pop_max_top _ _ _ _ _ (strict_weak_flip _ strict_weak_load) Epop) as Hmin.
  apply pop_max_perm in Epop.
  destruct (ValueOf_cat id Hid Hlt) as [-> ->]. cbn [mbind result_bind].
  rewrite zset_okZ by lia. cbn [mbind result_bind].
  set (c := counts !!! Z.to_nat id) in *.
  destruct (heap_step seen _ pq' cur j0 bins_of id c Hpq Epop) as (Hj0 & Hcur & Hpq');
    [by constructor|done|lia|done|].
  assert (Hload : forall j, bin_load counts (<[Z.to_nat id := j0]> bins_of) (seen ++ [id]) j =
    load bins_of seen j + if decide (j0 = j) then c else 0).
  { intros j. apply bin_load_snoc; [by constructor|done|lia]. }
  pose proof (bin_load_bounds counts bins_of seen j0 ltac:(apply HM)) as Hb.
  rewrite map_app, zsum_app in Hsum. cbn [map zsum fold_right] in Hsum. fold c in Hsum.
  pose proof (HM (Z.to_nat id)) as Hc. fold c in Hc.
  rewrite u32_small by (unfold is_u32; lia).
  assert (forall k, 0 <= k < bins -> cur <= load bins_of seen k) as Hleast.
  { intros k Hk. rewrite Forall_forall in Hmin. specialize (Hmin (load bins_of seen k, k)).
    unfold load_less in Hmin. cbn [fst snd] in Hmin.
    assert ((load bins_of seen k, k) ∈ e :: others) as Hin; [|specialize (Hmin Hin); lia].
    rewrite Hpq. apply list_elem_of_fmap. exists k. by rewrite elem_of_iota. }
  eexists _, _, _. split; [done|]. split.
  - done.
  - rewrite map_app, Hbn. cbn [map]. f_equal.
    + apply map_ext_in. intros x Hx%list_elem_of_In. f_equal.
      rewrite list_lookup_total_insert_ne; [done|]. intros E.
      rewrite Forall_forall in Hpos. apply Z2Nat.inj in E; [by subst|done|by apply Hpos].
    + by rewrite list_lookup_total_insert_eq by lia.
  - by rewrite length_insert.
  - rewrite Forall_forall in Hrg, Hpos. apply Forall_forall.
    intros x Hx. apply elem_of_app in Hx as [Hx| ->%list_elem_of_singleton].
    + rewrite list_lookup_total_insert_ne; [by apply Hrg|]. intros E.
      apply Z2Nat.inj in E; [by subst|done|by apply Hpos].
    + by rewrite list_lookup_total_insert_eq by lia.
  - intros j k Hj Hk. rewrite !Hload. specialize (Hbal j k Hj Hk). specialize (Hleast k Hk).
    destruct (decide (j0 = j)) as [<-|], (decide (j0 = k)); lia.
Qed.

Lemma eq_assign_spec ids seen pq binning bins_of :
  assign_inv seen pq binning bins_of ->
  Forall (fun x => 0 <= x /\ (Z.to_nat x < length vs)%nat) (seen ++ ids) ->
  NoDup (seen ++ ids) ->
  zsum (map (fun x => counts !!! Z.to_nat x) (seen ++ ids)) < 2 ^ 32 ->
  exists binning' bins_of' pq',
    eq_assign ids cat pq binning bins_of = Ok (binning', bins_of') /\
    assign_inv (seen ++ ids) pq' binning' bins_of'.
Proof.
  revert seen pq binning bins_of. induction ids as [|id ids IH]; intros seen pq binning bins_of Hinv HF Hnd Hsum.
  { rewrite app_nil_r. by exists binning, bins_of, pq. }
  pose proof HF as [HF1 HF2]%Forall_app. apply Forall_cons in HF2 as [[Hid Hlt] HF2].
  destruct (eq_assign_step seen pq binning bins_of id ids Hinv) as (pq1 & bn1 & bo1 & -> & Hinv1);
    try done.
  - eapply Forall_impl; [exact HF1|]. by intros ? [? _].
  - apply NoDup_app in Hnd as (_ & Hd & _). intros Hx. apply (Hd id Hx). by left.
  - rewrite cons_middle, app_assoc, map_app, zsum_app in Hsum.
    assert (0 <= zsum (map (fun x => counts !!! Z.to_nat x) ids)); [|lia].
    clear -HM. unfold zsum. induction ids as [|x ids IH]; simpl; [done|].
    specialize (HM (Z.to_nat x)). lia.
  - rewrite (cons_middle id), app_assoc in HF, Hnd, Hsum |- *. by apply IH.
Qed.
End EqAssign.

(** ** Every row is counted once *)
Lemma zsum_map_add {A} (f g : A -> Z) l :
  zsum (map (fun x => f x + g x) l) = zsum (map f l) + zsum (map g l).
Proof. unfold zsum. induction l; simpl; lia. Qed.
Lemma zsum_perm l k : l ≡ₚ k -> zsum l = zsum k.
Proof. unfold zsum. induction 1; simpl; lia. Qed.
Lemma zsum_indicator (vs : list bytes) r :
  NoDup vs -> zsum (map (fun v => if decide (r = v) then 1 else 0) vs) =
    if decide (r ∈ vs) then 1 else 0.
Proof.
  unfold zsum. induction 1 as [|v vs Hn _ IH]; cbn [map fold_right];
    [by rewrite decide_False by set_solver|].
  rewrite IH. destruct (decide (r = v)) as [->|].
  - by rewrite decide_False, decide_True by set_solver.
  - destruct (decide (r ∈ vs)); [by rewrite decide_True by set_solver|].
    by rewrite decide_False by set_solver.
Qed.

Lemma counts_total vs rows :
  NoDup vs -> (forall r, r ∈ rows -> r ∈ vs) ->
  zsum (map (fun v => row_count v rows) vs) = zlen rows.
Proof.
  intros Hnd. induction rows as [|r rows IH] using rev_ind; intros Hin.
  - zlen0. clear. unfold zsum. induction vs as [|v vs IH]; cbn [map fold_right]; [done|].
    rewrite IH. done.
  - rewrite zlen_snoc, <- IH by set_solver.
    erewrite map_ext by (intros v; apply row_count_snoc).
    rewrite zsum_map_add, zsum_indicator, decide_True by (done || set_solver). done.
Qed.

Lemma map_lookup_iota {A} `{!Inhabited A} (l : list A) :
  map (fun i => l !!! Z.to_nat i) (iota (zlen l)) = l.
Proof.
  apply list_eq_same_length with (length l); [done| |].
  - rewrite length_map, length_iota. unfold zlen. lia.
  - intros i x y Hi Hx Hy. apply list_lookup_fmap_Some in Hx as (z & -> & Hz).
    rewrite lookup_iota in Hz by (unfold zlen; lia). injection Hz as <-.
    rewrite Nat2Z.id. by apply list_lookup_total_correct.
Qed.

(** What an equality policy promises. *)
Record equality_policy_ok (vs : list bytes) (policy : eq_policy) (bins : Z) (bin_of : list Z)
    : Prop := {
  ep_len : length bin_of = length vs;
  ep_range id b : bin_of !! id = Some b -> 0 <= b < bins;
  ep_sorted : StronglySorted blt (map fst policy);
  ep_entries v b : (v, b) ∈ policy <-> exists id, vs !! id = Some v /\ bin_of !! id = Some b;
}.

Section EqualityPolicy.
Context `{StdSort} `{!StdSortLaws _}.

Lemma sorted_policy (l : eq_policy) :
  NoDup (map fst l) -> StronglySorted blt (map fst (std_sort entry_less l)).
Proof.
  intros Hnd.
  pose proof (std_sort_perm entry_less l strict_weak_entry) as Hp.
  pose proof (std_sort_sorted entry_less l strict_weak_entry) as Hs.
  set (k := std_sort entry_less l) in *. clearbody k. rewrite <- Hp in Hnd.
  clear Hp. induction Hs as [|x k Hs IH Hx]; simpl; constructor.
  - apply IH. simpl in Hnd. by apply NoDup_cons in Hnd as [_ ?].
  - simpl in Hnd. apply NoDup_cons in Hnd as [Hni _]. apply Forall_forall.
    intros y Hy. apply list_elem_of_fmap in Hy as (z & -> & Hz).
    rewrite Forall_forall in Hx. specialize (Hx z Hz). unfold entry_less in Hx.
    apply orb_false_iff in Hx as [Hx _]. apply bltb_ge in Hx.
    apply ble_lteq in Hx as [?|E]; [done|]. exfalso. apply Hni. rewrite E.
    apply list_elem_of_fmap. eauto.
Qed.

Lemma policy_of_assign cat vs bins M ids pq binning bins_of :
  NoDup vs -> ids ≡ₚ iota (zlen vs) ->
  assign_inv cat vs bins M ids pq binning bins_of ->
  equality_policy_ok vs (std_sort entry_less binning) bins bins_of.
Proof.
  intros Hnd Hids [_ Hbn Hlen Hrg _].
  assert (forall i, (i < length vs)%nat -> Z.of_nat i ∈ ids) as Hall.
  { intros i Hi. rewrite Hids, elem_of_iota. unfold zlen. lia. }
  split.
  - done.
  - intros i b Hi. rewrite Forall_forall in Hrg.
    specialize (Hrg (Z.of_nat i) (Hall i ltac:(apply lookup_lt_Some in Hi; lia))).
    by rewrite Nat2Z.id, (list_lookup_total_correct _ _ _ Hi) in Hrg.
  - apply sorted_policy. rewrite Hbn, map_map. cbn [fst].
    rewrite Hids, map_lookup_iota. done.
  - intros v b. rewrite (std_sort_perm entry_less binning strict_weak_entry), Hbn.
    rewrite list_elem_of_fmap. split.
    + intros (i & [= -> ->] & Hi). rewrite Hids in Hi. apply elem_of_iota in Hi.
      exists (Z.to_nat i). unfold zlen in Hi.
      split; apply list_lookup_lookup_total_lt; lia.
    + intros (i & Hv & Hb). exists (Z.of_nat i). rewrite Nat2Z.id.
      rewrite (list_lookup_total_correct _ _ _ Hv), (list_lookup_total_correct _ _ _ Hb).
      split; [done|]. apply Hall. by eapply lookup_lt_Some.
Qed.

Lemma bin_load_perm counts bins_of ids ids' j :
  ids ≡ₚ ids' -> bin_load counts bins_of ids j = bin_load counts bins_of ids' j.
Proof. intros Hp. unfold bin_load. apply zsum_perm. by rewrite Hp. Qed.

Lemma SetEqualityBinningPolicy_spec hash cat vs rows bins M :
  eq_repr hash cat vs rows -> 1 <= bins -> zlen rows < 2 ^ 32 ->
  1 <= M -> (forall v, row_count v rows <= M) ->
  exists policy cat', SetEqualityBinningPolicy bins cat = Ok (policy, cat') /\
    row_ids cat' = row_ids cat /\ value_by_id cat' = value_by_id cat /\
    equality_policy_ok vs policy bins (bin_by_id cat') /\
    (forall j k, 0 <= j < bins -> 0 <= k < bins ->
       bin_load (count_by_id cat) (bin_by_id cat') (iota (zlen vs)) j <=
       bin_load (count_by_id cat) (bin_by_id cat') (iota (zlen vs)) k + M).
Proof.
  intros Hcat Hb Hrows HM1 HM.
  assert (zlen (value_by_id cat) = zlen vs) as Hzv.
  { rewrite (er_refs _ _ _ _ Hcat). unfold zlen. by rewrite length_refs_of. }
  assert (HM0 : forall i, 0 <= count_by_id cat !!! i <= M).
  { intros i. rewrite (er_counts _ _ _ _ Hcat), list_lookup_total_alt, list_lookup_fmap.
    destruct (vs !! i) as [v|]; simpl.
    - pose proof (row_count_bound v rows). specialize (HM v). lia.
    - change (0 <= 1 <= M). lia. }
  assert (sorted_ids cat ≡ₚ iota (zlen vs)) as Hids.
  { unfold sorted_ids. rewrite Hzv. apply std_sort_perm, strict_weak_flip, strict_weak_Z. }
  unfold SetEqualityBinningPolicy.
  assert (zlen (sorted_ids cat) = zlen vs) as Hzi.
  { unfold zlen. rewrite (Permutation_length Hids), length_iota. unfold zlen. lia. }
  rewrite Hzi.
  destruct (eq_assign_spec hash cat vs rows bins M Hcat Hb HM0 (sorted_ids cat) []
    (map (fun j => (0, j)) (iota bins)) [] (zresize (bin_by_id cat) (zlen vs) 0))
    as (binning & bins_of & pq & E & Hinv); cbn [app].
  - split; try done.
    + pose proof (zresize_length (bin_by_id cat) (zlen vs) 0 (zlen_nonneg vs)).
      unfold zlen in *. lia.
    + intros j k _ _. unfold bin_load. simpl. specialize (HM0 0%nat). lia.
  - rewrite Hids. apply Forall_forall. intros x Hx%elem_of_iota. unfold zlen in Hx. lia.
  - rewrite Hids. unfold iota. apply (NoDup_fmap_2 Z.of_nat), NoDup_seq.
  - rewrite (zsum_perm _ _ (Permutation_map _ Hids)).
    rewrite <- (zlen_map (fun v => row_count v rows) vs), <- (er_counts _ _ _ _ Hcat).
    rewrite map_lookup_iota, (er_counts _ _ _ _ Hcat), counts_total; [done|apply Hcat|].
    intros r. apply Hcat.
  - rewrite E. cbn [mbind result_bind app] in *. eexists _, _. split; [done|]. split; [done|].
    split; [done|]. cbn [bin_by_id]. split; [eapply policy_of_assign; [apply Hcat|exact Hids|exact Hinv]|].
    intros j k Hj Hk. pose proof (as_balance _ _ _ _ _ _ _ _ Hinv j k Hj Hk) as Hbal.
    by rewrite !(bin_load_perm _ _ _ _ _ Hids) in Hbal.
Qed.
End EqualityPolicy.

(** (C34) The bins of a kEquality attribute: the policy lists exactly the
    distinct values in memcmp order, each with the one existing bin its id was
    given, and the bins are balanced, no bin holding more rows than another
    plus the rows of the most frequent value. *)
Theorem equality_binning_correct `{StdSort} `{!StdSortLaws _} (hash : bytes -> Z) rows bins M :
  zlen rows < 2 ^ 32 -> zlen (concat rows) < 2 ^ 32 -> 1 <= bins ->
  1 <= M -> (forall v, row_count v rows <= M) ->
  exists cat policy cat', InternAll hash EqualityAttrBuf_init rows = Ok cat /\
    SetEqualityBinningPolicy bins cat = Ok (policy, cat') /\
    equality_policy_ok (distinct_from [] rows) policy bins (bin_by_id cat') /\
    (forall j k, 0 <= j < bins -> 0 <= k < bins ->
       bin_load (count_by_id cat) (bin_by_id cat') (iota (zlen (distinct_from [] rows))) j <=
       bin_load (count_by_id cat) (bin_by_id cat') (iota (zlen (distinct_from [] rows))) k + M).
Proof.
  intros H1 H2 Hb HM1 HM.
  destruct (InternAll_spec hash _ [] [] rows (eq_repr_init hash)) as (cat & E & Hr);
    [cbn [concat]; zlen0; lia..|].
  destruct (SetEqualityBinningPolicy_spec hash cat _ _ bins M Hr) as (policy & cat' & Es & _ & _ & Hok & Hbal);
    try done.
  by exists cat, policy, cat'.
Qed.

Lemma equality_binning_correct_witness :
  let rows := [[x61]; [x62]; [x61]; [x63]] in
  exists cat policy cat', InternAll (fun _ => 0) EqualityAttrBuf_init rows = Ok cat /\
    SetEqualityBinningPolicy 2 cat = Ok (policy, cat') /\
    equality_policy_ok (distinct_from [] rows) policy 2 (bin_by_id cat').
Proof.
  intros rows.
  destruct (equality_binning_correct (fun _ => 0) rows 2 4) as (cat & policy & cat' & E1 & E2 & E3 & _).
  - reflexivity.
  - reflexivity.
  - discriminate.
  - discriminate.
  - intros v. pose proof (row_count_bound v rows) as Hv. unfold rows, zlen in *. simpl length in Hv. lia.
  - exists cat, policy, cat'. split; [exact E1|]. split; [exact E2|exact E3].
Defined.
