(* ===== verification/Builder.v ===== *)
(** * The index builder

    Models [SABIBuilder] ([sabi.h], [sabi_builder.cpp]): the per-SSTable state,
    the callbacks RocksDB drives it with ([OnKeyAdded], [AddIndexEntry]) and
    [Finish], which bins the buffered columns, fills the bitmaps and lays out
    the index blob. *)
From Stdlib Require Import ZArith Lia Strings.Byte Sorting.Sorted.
From stdpp Require Import base numbers list sets sorting.
From S2P Require Import Prelude Floats Options Row Okey BytesList Externals Intern.
From S2P Require Import RangeBuf Binning.

Definition kBitLSMFormatVersion : Z := 8.
Definition kSABIFooterMagic : Z := 0x5AB1B175.

(** [variant<EqualityAttrBuf, RangeAttrBuf>] *)
Inductive AttrBuf :=
  | EqBuf (b : EqualityAttrBuf)
  | RgBuf (b : RangeAttrBuf).

(** [variant<BytesList, vector<pair<string, uint32_t>>>] *)
Inductive Policy :=
  | RangePolicy (boundaries : BytesList)
  | EqualityPolicy (entries : eq_policy).

(** RocksDB's value types, of which the builder singles out two. *)
Inductive ValueType := kTypeDeletion | kTypeSingleDeletion | kTypeOther (code : Z).

Record BlockHandle := mkBlockHandle { bh_offset : Z; bh_size : Z }.

Section Builder.
Context `{RoaringOps} `{Coding} `{StdSort}.
Context (hash : bytes -> Z).
(** [AttrExtractor::ExtractAll] of the extractor the builder owns. *)
Context (extract : bytes -> bytes -> result (list EncodedAttr)).

Record BitmapIndex := mkBitmapIndex {
  bitmaps : list Roaring;
  tombstone_bitmap : Roaring;
  bitmap_nums : list Z;
  binning_policy : list Policy;
}.

Record SABIBuilder := mkSABIBuilder {
  schema_ : SABISchema;
  attr_buf_ : list AttrBuf;
  attr_null_rows_ : list Roaring;
  total_size_uncomp_ : Z;
  data_entries_cnt_ : Z;
  index_entries_cnt_ : Z;
  distinct_cnts_ : list Z;
  bitmap_index_ : BitmapIndex;
  index_blob_ : bytes;
  last_finish_bitmap_sizes_ : list Z;
}.

Definition new_buf (t : IndexType) : AttrBuf :=
  match t with kRange => RgBuf RangeAttrBuf_init | kEquality => EqBuf EqualityAttrBuf_init end.

(** The constructor. *)
Definition new_builder (schema : SABISchema) : SABIBuilder :=
  let n := length (index_types schema) in
  {| schema_ := schema;
     attr_buf_ := map new_buf (index_types schema);
     attr_null_rows_ := replicate n r_empty;
     total_size_uncomp_ := 0; data_entries_cnt_ := 0; index_entries_cnt_ := 0;
     distinct_cnts_ := replicate n 0;
     bitmap_index_ := mkBitmapIndex [] r_empty (replicate n 0) (replicate n (RangePolicy bl_empty));
     index_blob_ := []; last_finish_bitmap_sizes_ := [] |}.

(** Appends one index entry and returns the separator. *)
Definition AddIndexEntry (last_key : bytes) (handle : BlockHandle) (b : SABIBuilder)
    : SABIBuilder * bytes :=
  let blob := PutFixed32 (index_blob_ b) (data_entries_cnt_ b) in
  let blob := PutFixed32 blob (bh_offset handle) in
  let blob := PutFixed32 blob (bh_size handle) in
  ({| schema_ := schema_ b; attr_buf_ := attr_buf_ b; attr_null_rows_ := attr_null_rows_ b;
      total_size_uncomp_ := total_size_uncomp_ b; data_entries_cnt_ := data_entries_cnt_ b;
      index_entries_cnt_ := u32 (index_entries_cnt_ b + 1);
      distinct_cnts_ := distinct_cnts_ b; bitmap_index_ := bitmap_index_ b;
      index_blob_ := blob; last_finish_bitmap_sizes_ := last_finish_bitmap_sizes_ b |},
   last_key).

(** One attribute of a data row: NULLs go to the attribute's null bitmap,
    values to its buffer. *)
Definition buffer_attr (t : IndexType) (e : EncodedAttr) (row : Z) (b : AttrBuf) (nulls : Roaring)
    : result (AttrBuf * Roaring) :=
  match e with
  | None => Ok (b, r_add nulls row)
  | Some v =>
      match t, b with
      | kRange, RgBuf rb => Ok (RgBuf (Push rb v), nulls)
      | kEquality, EqBuf cb => cb' ← Intern hash cb v; Ok (EqBuf cb', nulls)
      | _, _ => Fault BadVariantAccess
      end
  end.

Fixpoint buffer_attrs (ts : list IndexType) (enc : list EncodedAttr) (row : Z)
    (bs : list AttrBuf) (ns : list Roaring) : result (list AttrBuf * list Roaring) :=
  match ts with
  | [] => Ok (bs, ns)
  | t :: ts' =>
      match enc, bs, ns with
      | e :: enc', b :: bs', n :: ns' =>
          '(b', n') ← buffer_attr t e row b n;
          '(bs'', ns'') ← buffer_attrs ts' enc' row bs' ns';
          Ok (b' :: bs'', n' :: ns'')
      | _, _, _ => Fault OutOfBounds
      end
  end.

Definition is_value (type : ValueType) : bool :=
  match type with kTypeDeletion | kTypeSingleDeletion => false | kTypeOther _ => true end.

Definition OnKeyAdded (key : bytes) (type : ValueType) (value : bytes) (b : SABIBuilder)
    : result SABIBuilder :=
  let row := data_entries_cnt_ b in
  '(bufs, nulls, tomb) ←
    (if is_value type then
       enc ← extract key value;
       '(bufs, nulls) ← buffer_attrs (index_types (schema_ b)) enc row
                          (attr_buf_ b) (attr_null_rows_ b);
       Ok (bufs, nulls, tombstone_bitmap (bitmap_index_ b))
     else Ok (attr_buf_ b, attr_null_rows_ b, r_add (tombstone_bitmap (bitmap_index_ b)) row));
  Ok {| schema_ := schema_ b; attr_buf_ := bufs; attr_null_rows_ := nulls;
        total_size_uncomp_ := u64 (u64 (total_size_uncomp_ b + zlen value) + zlen key);
        data_entries_cnt_ := u32 (row + 1);
        index_entries_cnt_ := index_entries_cnt_ b; distinct_cnts_ := distinct_cnts_ b;
        bitmap_index_ := mkBitmapIndex (bitmaps (bitmap_index_ b)) tomb
                           (bitmap_nums (bitmap_index_ b)) (binning_policy (bitmap_index_ b));
        index_blob_ := index_blob_ b;
        last_finish_bitmap_sizes_ := last_finish_bitmap_sizes_ b |}.

(** ** SetBinningPolicy *)

(** Step 2's cardinalities; range buffers are sorted on the way. *)
Fixpoint cardinalities (ts : list IndexType) (target : Z) (bs : list AttrBuf)
    : result (list AttrBuf * list Z) :=
  match ts with
  | [] => Ok (bs, [])
  | t :: ts' =>
      match bs with
      | [] => Fault OutOfBounds
      | b :: bs' =>
          '(b', c) ←
            (match t, b with
             | kEquality, EqBuf cb => Ok (EqBuf cb, u32 (zlen (value_by_id cb)))
             | kRange, RgBuf rb =>
                 rb' ← Sort rb; Ok (RgBuf rb', u32 (Z.min (r_distinct rb') target))
             | _, _ => Fault BadVariantAccess
             end);
          '(bs'', cs) ← cardinalities ts' target bs';
          Ok (b' :: bs'', c :: cs)
      end
  end.

(** Step 3 for one attribute: its policy, its buffer and its distinct count. *)
Definition set_policy (t : IndexType) (bins : Z) (b : AttrBuf) : result (AttrBuf * Policy * Z) :=
  match t, b with
  | kEquality, EqBuf cb =>
      '(policy, cb') ← SetEqualityBinningPolicy bins cb;
      Ok (EqBuf cb', EqualityPolicy policy, zlen (value_by_id cb))
  | kRange, RgBuf rb =>
      '(bounds, rb') ← SetRangeBinningPolicy bins rb;
      Ok (RgBuf rb', RangePolicy bounds, r_distinct rb)
  | _, _ => Fault BadVariantAccess
  end.

Fixpoint set_policies (ts : list IndexType) (nums : list Z) (bs : list AttrBuf)
    : result (list AttrBuf * list Policy * list Z) :=
  match ts with
  | [] => Ok (bs, [], [])
  | t :: ts' =>
      match nums, bs with
      | bins :: nums', b :: bs' =>
          '(b', p, d) ← set_policy t bins b;
          '(bs'', ps, ds) ← set_policies ts' nums' bs';
          Ok (b' :: bs'', p :: ps, d :: ds)
      | _, _ => Fault OutOfBounds
      end
  end.

Definition SetBinningPolicy (b : SABIBuilder) : result SABIBuilder :=
  let ts := index_types (schema_ b) in
  target ← target_bitmaps (schema_attr_num (schema_ b)) (schema_rho (schema_ b));
  '(bufs, cardinality) ← cardinalities ts target (attr_buf_ b);
  '(nums, total) ← allocate_bitmaps target cardinality;
  '(bufs', policies, distinct) ← set_policies ts nums bufs;
  Ok {| schema_ := schema_ b; attr_buf_ := bufs'; attr_null_rows_ := attr_null_rows_ b;
        total_size_uncomp_ := total_size_uncomp_ b; data_entries_cnt_ := data_entries_cnt_ b;
        index_entries_cnt_ := index_entries_cnt_ b; distinct_cnts_ := distinct;
        bitmap_index_ :=
          mkBitmapIndex (zresize (bitmaps (bitmap_index_ b)) total r_empty)
            (tombstone_bitmap (bitmap_index_ b)) nums policies;
        index_blob_ := index_blob_ b;
        last_finish_bitmap_sizes_ := last_finish_bitmap_sizes_ b |}.

(** ** CalculateBitmapIndex *)

(** The local bin of the [k]-th buffered value. *)
Definition local_bin (t : IndexType) (b : AttrBuf) (k : Z) : result Z :=
  match t, b with
  | kEquality, EqBuf cb => id ← zget (row_ids cb) k; zget (bin_by_id cb) id
  | kRange, RgBuf rb => zget (bin_of_row rb) k
  | _, _ => Fault BadVariantAccess
  end.

(** How many values the buffer holds. *)
Definition buffered (t : IndexType) (b : AttrBuf) : result Z :=
  match t, b with
  | kEquality, EqBuf cb => Ok (zlen (row_ids cb))
  | kRange, RgBuf rb => Ok (zlen (bin_of_row rb))
  | _, _ => Fault BadVariantAccess
  end.

(** The loop over row ids [j]; [s] and [k] are the cursors into the skipped ids
    and the buffered values. At the end every value must have been placed. *)
Fixpoint fill_bins (t : IndexType) (b : AttrBuf) (bins off : Z) (skip_ids : list Z) (n : nat) (j s k : Z)
    (bms : list Roaring) : result (list Roaring) :=
  match n with
  | O => size ← buffered t b; if k =? size then Ok bms else Fault AssertionFailed
  | S n' =>
      skip ← (if s <? zlen skip_ids then x ← zget skip_ids s; Ok (x =? j) else Ok false);
      if skip : bool then fill_bins t b bins off skip_ids n' (j + 1) (s + 1) k bms
      else
        bin ← local_bin t b k;
        if bins <=? bin then Fault OutOfBounds else
        r ← zget bms (off + bin);
        bms' ← zset bms (off + bin) (r_add r j);
        fill_bins t b bins off skip_ids n' (j + 1) s (k + 1) bms'
  end.

Fixpoint fill_attrs (ts : list IndexType) (bufs : list AttrBuf) (nulls : list Roaring)
    (nums : list Z) (tomb : Roaring) (rows off : Z) (bms : list Roaring) : result (list Roaring) :=
  match ts with
  | [] => Ok bms
  | t :: ts' =>
      match bufs, nulls, nums with
      | b :: bufs', nl :: nulls', bins :: nums' =>
          let skip_ids := r_toUint32Array (r_or nl tomb) in
          bms' ← fill_bins t b bins off skip_ids (Z.to_nat rows) 0 0 0 bms;
          fill_attrs ts' bufs' nulls' nums' tomb rows (u32 (off + bins)) bms'
      | _, _, _ => Fault OutOfBounds
      end
  end.

Definition CalculateBitmapIndex (b : SABIBuilder) : result SABIBuilder :=
  let bi := bitmap_index_ b in
  bms ← fill_attrs (index_types (schema_ b)) (attr_buf_ b) (attr_null_rows_ b) (bitmap_nums bi)
          (tombstone_bitmap bi) (data_entries_cnt_ b) 0 (bitmaps bi);
  Ok {| schema_ := schema_ b; attr_buf_ := attr_buf_ b; attr_null_rows_ := attr_null_rows_ b;
        total_size_uncomp_ := total_size_uncomp_ b; data_entries_cnt_ := data_entries_cnt_ b;
        index_entries_cnt_ := index_entries_cnt_ b; distinct_cnts_ := distinct_cnts_ b;
        bitmap_index_ := mkBitmapIndex bms (tombstone_bitmap bi) (bitmap_nums bi) (binning_policy bi);
        index_blob_ := index_blob_ b;
        last_finish_bitmap_sizes_ := last_finish_bitmap_sizes_ b |}.

(** ** Finish *)
Definition align32 (off : Z) : Z := Z.land (u32 (off + 31)) (u32 (Z.lnot 31)).

(** The start offset of each bitmap and of the end of the region. *)
Fixpoint offsets_from (off : Z) (sizes : list Z) : list Z :=
  match sizes with
  | [] => [off]
  | sz :: rest => off :: offsets_from (align32 (u32 (off + sz))) rest
  end.

Fixpoint write_frozen (bms : list Roaring) (offs : list Z) (blob : bytes) : result bytes :=
  match bms, offs with
  | r :: bms', o :: offs' => blob' ← zwrite blob o (r_writeFrozen r); write_frozen bms' offs' blob'
  | _, _ => Ok blob
  end.

Definition put_policy (t : IndexType) (p : Policy) (blob : bytes) : result bytes :=
  match t, p with
  | kRange, RangePolicy bounds => Ok (Serialize bounds blob)
  | kEquality, EqualityPolicy es =>
      Ok (fold_left (fun bl e => PutFixed32 (PutLengthPrefixedSlice bl (fst e)) (snd e)) es
            (PutFixed32 blob (zlen es)))
  | _, _ => Fault BadVariantAccess
  end.

(** The policies, and the blob size before the first and after each. *)
Fixpoint put_policies (ts : list IndexType) (ps : list Policy) (blob : bytes)
    : result (bytes * list Z) :=
  match ts, ps with
  | [], _ => Ok (blob, [u32 (zlen blob)])
  | t :: ts', p :: rest =>
      blob1 ← put_policy t p blob;
      '(blob', offs) ← put_policies ts' rest blob1;
      Ok (blob', u32 (zlen blob) :: offs)
  | _ :: _, [] => Fault OutOfBounds
  end.

Definition put32s (l : list Z) (blob : bytes) : bytes := fold_left PutFixed32 l blob.
Definition put64s (l : list Z) (blob : bytes) : bytes := fold_left PutFixed64 l blob.

Definition put_directory (schema : SABISchema) (nums : list Z) (entries : Z)
    (distinct cards sizes policy_offs bitmap_offs : list Z) (blob : bytes) : bytes :=
  let blob := PutFixed32 blob (schema_attr_num schema) in
  let blob := blob ++ map (fun t => z2b (IndexType_byte t)) (index_types schema) in
  let blob := put32s nums blob in
  let blob := PutFixed32 blob entries in
  let blob := put64s distinct blob in
  let blob := put32s cards blob in
  let blob := put32s sizes blob in
  let blob := put32s policy_offs blob in
  put32s bitmap_offs blob.

(** The index contents and the builder after it; the status is always OK. *)
Definition Finish (b0 : SABIBuilder) : result (SABIBuilder * bytes) :=
  b1 ← SetBinningPolicy b0;
  b ← CalculateBitmapIndex b1;
  let bi := bitmap_index_ b in
  let bms := map r_runOptimize (bitmaps bi ++ [tombstone_bitmap bi]) in
  let sizes := map (fun r => u32 (r_getFrozenSizeInBytes r)) bms in
  let cards := map (fun r => u32 (r_cardinality r)) bms in
  let offs := offsets_from (align32 (u32 (zlen (index_blob_ b)))) sizes in
  region_end ← get_or OutOfBounds (last offs);
  blob ← write_frozen bms offs (zresize (index_blob_ b) region_end x00);
  '(blob, policy_offs) ← put_policies (index_types (schema_ b)) (binning_policy bi) blob;
  let directory_off := u32 (zlen blob) in
  let blob := put_directory (schema_ b) (bitmap_nums bi) (index_entries_cnt_ b)
                (distinct_cnts_ b) cards sizes policy_offs offs blob in
  let blob := PutFixed32 blob directory_off in
  let blob := PutFixed32 blob kBitLSMFormatVersion in
  let blob := PutFixed32 blob kSABIFooterMagic in
  Ok ({| schema_ := schema_ b; attr_buf_ := attr_buf_ b; attr_null_rows_ := attr_null_rows_ b;
         total_size_uncomp_ := total_size_uncomp_ b; data_entries_cnt_ := data_entries_cnt_ b;
         index_entries_cnt_ := index_entries_cnt_ b; distinct_cnts_ := distinct_cnts_ b;
         bitmap_index_ := mkBitmapIndex bms (tombstone_bitmap bi) (bitmap_nums bi)
                            (binning_policy bi);
         index_blob_ := blob; last_finish_bitmap_sizes_ := sizes |}, blob).
End Builder.
