(* ===== verification/Extractor.v ===== *)
(** * The extractor's scratch memory

    [Okey.ExtractAll] says which encoded attributes a row gives. The code hands
    them out as views: strings into the row, numbers into [scratch_], a buffer
    that [ValueLayoutExtractor] reuses for every row ([bit_lsm_encoding.h]). This
    file models the buffer and shows what the views read when the builder looks
    at them, after the call. *)
From Stdlib Require Import ZArith Lia Strings.Byte.
From stdpp Require Import base numbers list.
From S2P Require Import Prelude Options Row Query Okey Externals Intern RangeBuf Binning Builder.

(** A slot of [out]. A view into the row is given by the bytes it shows, since
    the row does not change; one into [scratch_] by its place. *)
Inductive attr_slot :=
  | SlotNull
  | SlotRow (s : bytes)
  | SlotScratch (off len : Z).

Record ValueLayoutExtractor := mkExtractor { ex_layout : ValueLayout; scratch_ : bytes }.
Definition new_extractor (options : BitLSMOptions) : result ValueLayoutExtractor :=
  layout ← mkLayout options; Ok (mkExtractor layout (replicate (Z.to_nat (attr_num options * kOkeyBytes)) x00)).

Fixpoint extract_slots (layout : ValueLayout) (row_value : bytes) (i : Z) (n : nat) (scratch : bytes)
    : result (list attr_slot * bytes) :=
  match n with
  | O => Ok ([], scratch)
  | S n' =>
      v ← DecodeAttr layout row_value i;
      '(s, scratch) ←
        (match v with
         | ANull => Ok (SlotNull, scratch)
         | AString b => Ok (SlotRow b, scratch)
         | _ =>
             let p := i * kOkeyBytes in
             k ← NumericToOkey v;
             scratch ← zwrite scratch p (OkeyToBytes k);
             Ok (SlotScratch p kOkeyBytes, scratch)
         end);
      '(rest, scratch) ← extract_slots layout row_value (i + 1) n' scratch;
      Ok (s :: rest, scratch)
  end.
Definition ExtractSlots (e : ValueLayoutExtractor) (key row_value : bytes) : result (list attr_slot * ValueLayoutExtractor) :=
  '(out, scratch) ← extract_slots (ex_layout e) row_value 0 (length (slot (ex_layout e))) (scratch_ e);
  Ok (out, mkExtractor (ex_layout e) scratch).

(** [SABIFactory::NewBuilder]: each builder owns an extractor of its own; a
    reader-only factory has none to make. *)
Definition NewBuilder `{RoaringOps} (schema_ : SABISchema) (extractor_factory_ : option (unit -> result ValueLayoutExtractor))
    : result (SABIBuilder * ValueLayoutExtractor) :=
  match extractor_factory_ with
  | None => Fault AssertionFailed
  | Some make => e ← make tt; Ok (new_builder schema_, e)
  end.

(** Reading a slot. *)
Definition read_slot (e : ValueLayoutExtractor) (s : attr_slot) : result EncodedAttr :=
  match s with
  | SlotNull => Ok None
  | SlotRow b => Ok (Some b)
  | SlotScratch off len => b ← zsub (scratch_ e) off len; Ok (Some b)
  end.
Fixpoint read_slots (e : ValueLayoutExtractor) (l : list attr_slot) : result (list EncodedAttr) :=
  match l with [] => Ok [] | s :: rest => a ← read_slot e s; as_ ← read_slots e rest; Ok (a :: as_) end.

(** Rows in a sequence, each read out before the next call. *)
Fixpoint extract_rows (e : ValueLayoutExtractor) (rows : list bytes) : result (list (list EncodedAttr)) :=
  match rows with
  | [] => Ok []
  | row :: rest =>
      '(out, e) ← ExtractSlots e [] row;
      a ← read_slots e out;
      as_ ← extract_rows e rest; Ok (a :: as_)
  end.

(** The same rows through [ExtractAll]. *)
Fixpoint encoded_rows (layout : ValueLayout) (rows : list bytes) : result (list (list EncodedAttr)) :=
  match rows with
  | [] => Ok []
  | row :: rest => a ← ExtractAll layout [] row; as_ ← encoded_rows layout rest; Ok (a :: as_)
  end.

(** The slots fault where the values do; otherwise [front] is as it was and every
    slot reads its value when all are written. *)
Definition slots_agree (front : bytes) (len : Z) (es : result (list EncodedAttr)) (r : result (list attr_slot * bytes)) : Prop :=
  match es with
  | Ok es => exists out rest', r = Ok (out, front ++ rest') /\ zlen rest' = len /\
      forall lay, read_slots (mkExtractor lay (front ++ rest')) out = Ok es
  | Fault f => r = Fault f
  end.

Lemma slots_agree_cons front b e s len es r :
  (forall lay rest', read_slot (mkExtractor lay (front ++ b ++ rest')) s = Ok e) ->
  slots_agree (front ++ b) len es r ->
  slots_agree front (zlen b + len) (rest ← es; Ok (e :: rest)) ('(rest, scratch) ← r; Ok (s :: rest, scratch)).
Proof.
  intros Hread Ha. destruct es as [es|f]; cbn [mbind result_bind slots_agree] in *; [|by rewrite Ha].
  destruct Ha as (out & rest' & -> & Hl & Hout). exists (s :: out), (b ++ rest'). cbn [mbind result_bind].
  rewrite <- app_assoc. split; [done|]. split; [rewrite zlen_app; lia|]. intros lay. cbn [read_slots]. rewrite Hread.
  cbn [mbind result_bind]. specialize (Hout lay). rewrite <- app_assoc in Hout. by rewrite Hout.
Qed.

Lemma extract_slots_ok layout row i n front rest :
  0 <= i -> zlen front = i * kOkeyBytes -> Z.of_nat n * kOkeyBytes <= zlen rest ->
  slots_agree front (zlen rest) (extract_loop layout row i n) (extract_slots layout row i n (front ++ rest)).
Proof.
  revert i front rest. induction n as [|n IH]; intros i front rest Hi Hf Hr; cbn [extract_loop extract_slots].
  { exists [], rest. by split_and!. }
  destruct (DecodeAttr layout row i) as [v|f]; [|done]. cbn [mbind result_bind].
  destruct (zsplit rest kOkeyBytes) as (block & rest1 & -> & Hb).
  { pose proof (zlen_nonneg rest). unfold kOkeyBytes in *. lia. }
  rewrite zlen_app in *.
  assert (forall s e b, zlen b = kOkeyBytes -> (forall lay rest', read_slot (mkExtractor lay (front ++ b ++ rest')) s = Ok e) ->
    slots_agree front (zlen block + zlen rest1) (rest ← extract_loop layout row (i + 1) n; Ok (e :: rest))
      ('(rest, scratch) ← extract_slots layout row (i + 1) n (front ++ b ++ rest1); Ok (s :: rest, scratch))) as Hcase.
  { intros s e b Hlen Hread. rewrite Hb, <- Hlen. apply slots_agree_cons; [done|]. rewrite app_assoc.
    apply IH; [lia|rewrite zlen_app; lia|lia]. }
  destruct v as [|x|x|x|b]; cbn [encode_view NumericToOkey mbind result_bind].
  2, 3, 4: rewrite zwrite_app by (rewrite ?zlen_OkeyToBytes; lia); cbn [mbind result_bind];
    (apply Hcase; [apply zlen_OkeyToBytes|]); intros lay rest'; cbn [read_slot scratch_];
    by rewrite zsub_app by (rewrite ?zlen_OkeyToBytes; lia).
  all: by apply Hcase.
Qed.

Lemma extract_rows_ok layout scratch rows : Z.of_nat (length (slot layout)) * kOkeyBytes <= zlen scratch ->
  extract_rows (mkExtractor layout scratch) rows = encoded_rows layout rows.
Proof.
  revert scratch. induction rows as [|row rows IH]; intros scratch Hs; [done|]. cbn [extract_rows encoded_rows].
  unfold ExtractSlots, ExtractAll. cbn [ex_layout scratch_].
  pose proof (extract_slots_ok layout row 0 (length (slot layout)) [] scratch ltac:(lia) eq_refl Hs) as Ha. cbn [app] in Ha.
  unfold slots_agree in Ha. destruct (extract_loop layout row 0 _) as [es|f]; [|by rewrite Ha].
  destruct Ha as (out & rest' & -> & Hl & Hread). cbn [mbind result_bind app] in *. rewrite Hread. cbn [mbind result_bind].
  rewrite IH by lia. done.
Qed.

(** The extractor's views. For every accepted schema, the extractor built
    for it hands out, row after row through its one scratch buffer, views that
    after each call read exactly the encoded attributes of that row, with no
    slot overwriting another and nothing left from the rows before; it faults on
    a row exactly when the row does not decode. *)
Theorem extractor_views_hold o :
  schema_ok o -> schema_fits (attr_specs o) ->
  exists e, new_extractor o = Ok e /\ mkLayout o = Ok (ex_layout e) /\
    forall rows, extract_rows e rows = encoded_rows (ex_layout e) rows.
Proof.
  intros Ho Hf. destruct (mkLayout_spec o Ho Hf) as (lay & E & Hlay). unfold new_extractor. rewrite E. cbn [mbind result_bind].
  eexists. split; [done|]. split; [done|]. intros rows. apply extract_rows_ok. cbn [ex_layout]. rewrite (lo_len _ _ Hlay), zlen_replicate.
  pose proof (schema_size _ Ho) as Hn. unfold zlen in Hn. unfold kOkeyBytes. lia.
Qed.
Lemma extractor_views_hold_witness : exists e, new_extractor demo_options = Ok e /\
  extract_rows e [Row.row_value (attr_specs demo_options) demo_row [x70]; Row.row_value (attr_specs demo_options) [ANull; AString []] []]
    = Ok [[Some [x7f; xff; xff; xff; xff; xff; xff; xfb]; Some [x61; x62]]; [None; Some []]].
Proof.
  destruct (extractor_views_hold demo_options demo_schema_ok (row_fits_schema _ _ demo_row_fits)) as (e & E & El & Hrows).
  exists e. split; [exact E|]. rewrite Hrows.
  assert (ex_layout e = match mkLayout demo_options with Ok l => l | Fault _ => ex_layout e end) as -> by (rewrite El; reflexivity).
  vm_compute. reflexivity.
Defined.
