(* ===== verification/Reader.v ===== *)
(** * The index reader

    Models [SABIReader] and [SABIFactory] ([sabi.h], [sabi_reader.cpp],
    [sabi_factory.cpp]): opening a blob (its validation and its parse), the
    selection of the bins of a condition, pruning of a whole SSTable, the
    histograms the estimator reads, and the bins of a resident reader. *)
From Stdlib Require Import ZArith Lia Strings.Byte Strings.String Floats.SpecFloat Sorting.Sorted.
From stdpp Require Import base numbers strings list sets sorting.
From S2P Require Import Prelude Floats Options Row Okey BytesList Query Externals.
From S2P Require Import Intern RangeBuf Binning Builder.

Inductive SABIReaderMode := kResident | kMetadata.

Record BinSelection := mkBinSelection { sel_first : Z; sel_last : Z }.

Record RangeAttrHistogram := mkRangeAttrHistogram {
  h_boundaries : BytesList;
  h_counts : list Z;
  h_distinct : Z;
}.

Section Reader.
Context `{RoaringOps} `{Coding}.

Record SABIReader := mkSABIReader {
  rd_schema : list IndexType;
  mode_ : SABIReaderMode;
  rd_index : BitmapIndex;
  data_entries_cnt_psum : list Z;
  block_handles : list BlockHandle;
  distinct_cnts : list Z;
  bin_cardinalities : list Z;
  bitmap_offsets_ : list Z;
  bitmap_sizes_ : list Z;
}.

(** ** The constructor *)

(** [n] consecutive fixed-width integers at [off]. *)
Fixpoint decode32s (n : nat) (base : bytes) (off : Z) : result (list Z) :=
  match n with
  | O => Ok []
  | S n' => x ← Decode32At base off; rest ← decode32s n' base (off + 4); Ok (x :: rest)
  end.
Fixpoint decode64s (n : nat) (base : bytes) (off : Z) : result (list Z) :=
  match n with
  | O => Ok []
  | S n' => x ← Decode64At base off; rest ← decode64s n' base (off + 8); Ok (x :: rest)
  end.

Definition type_of_byte (b : byte) : result IndexType :=
  if b2z b =? 0 then Ok kEquality
  else if b2z b =? 1 then Ok kRange else Fault BadVariantAccess.

Fixpoint decode_types (n : nat) (base : bytes) (off : Z) : result (list IndexType) :=
  match n with
  | O => Ok []
  | S n' =>
      b ← zget base off; t ← type_of_byte b;
      rest ← decode_types n' base (off + 1); Ok (t :: rest)
  end.

(** The entries of a kEquality body at [ptr]. *)
Fixpoint decode_entries (n : nat) (base : bytes) (ptr : Z) : result eq_policy :=
  match n with
  | O => Ok []
  | S n' =>
      '(key_len, used) ← get_or OutOfBounds (GetVarint32Ptr (take 5 (drop (Z.to_nat ptr) base)));
      let key_start := ptr + used in
      key ← zsub base key_start key_len;
      bin ← Decode32At base (key_start + key_len);
      rest ← decode_entries n' base (key_start + key_len + 4);
      Ok ((key, bin) :: rest)
  end.

Definition decode_policy (t : IndexType) (base : bytes) (off : Z) : result Policy :=
  match t with
  | kEquality =>
      count ← Decode32At base off;
      es ← decode_entries (Z.to_nat count) base (off + 4);
      Ok (EqualityPolicy es)
  | kRange => '(bounds, _) ← Parse (drop (Z.to_nat off) base); Ok (RangePolicy bounds)
  end.

Fixpoint decode_policies (ts : list IndexType) (offs : list Z) (base : bytes)
    : result (list Policy) :=
  match ts, offs with
  | t :: ts', o :: offs' =>
      p ← decode_policy t base o; rest ← decode_policies ts' offs' base; Ok (p :: rest)
  | [], _ => Ok []
  | _ :: _, [] => Fault OutOfBounds
  end.

(** Frozen views over the copied region. *)
Fixpoint frozen_views (offs sizes : list Z) (region_off : Z) (region : bytes)
    : result (list Roaring) :=
  match sizes with
  | [] => Ok []
  | sz :: sizes' =>
      match offs with
      | [] => Fault OutOfBounds
      | o :: offs' =>
          b ← zsub region (o - region_off) sz;
          rest ← frozen_views offs' sizes' region_off region;
          Ok (r_frozenView b :: rest)
      end
  end.

Fixpoint decode_index_entries (n : nat) (base : bytes) (i : Z)
    : result (list Z * list BlockHandle) :=
  match n with
  | O => Ok ([], [])
  | S n' =>
      psum ← Decode32At base (i * 12);
      o ← Decode32At base (i * 12 + 4);
      sz ← Decode32At base (i * 12 + 8);
      '(psums, handles) ← decode_index_entries n' base (i + 1);
      Ok (psum :: psums, mkBlockHandle o sz :: handles)
  end.

(** Step 4: the bitmap arrays of a resident reader. *)
Definition load_bitmaps (base : bytes) (total_bins : Z) (offs sizes : list Z)
    : result (list Roaring * Roaring) :=
  region_off ← zget offs 0;
  region_end ← zget offs (total_bins + 1);
  region ← zsub base region_off (u32 (region_end - region_off));
  views ← frozen_views offs sizes region_off region;
  tomb ← zget views total_bins;
  Ok (take (Z.to_nat total_bins) views, tomb).

Definition new_reader (blob : bytes) (mode : SABIReaderMode) : result SABIReader :=
  if zlen blob <? 12 then Fault AssertionFailed else
  magic ← Decode32At blob (zlen blob - 4);
  if negb (magic =? kSABIFooterMagic) then Fault AssertionFailed else
  directory_off ← Decode32At blob (zlen blob - 12);
  attr_num ← Decode32At blob directory_off;
  let n := Z.to_nat attr_num in
  let dir := directory_off + 4 in
  types ← decode_types n blob dir;
  let dir := dir + attr_num in
  nums ← decode32s n blob dir;
  let total_bins := fold_left (fun acc x => u32 (acc + x)) nums 0 in
  let dir := dir + 4 * attr_num in
  entries ← Decode32At blob dir;
  let dir := dir + 4 in
  distinct ← decode64s n blob dir;
  let dir := dir + 8 * attr_num in
  let bitmaps_cnt := u32 (total_bins + 1) in
  let m := Z.to_nat bitmaps_cnt in
  cards ← decode32s m blob dir;
  let dir := dir + 4 * bitmaps_cnt in
  sizes ← decode32s m blob dir;
  let dir := dir + 4 * bitmaps_cnt in
  policy_offs ← decode32s (S n) blob dir;
  let dir := dir + 4 * (attr_num + 1) in
  bitmap_offs ← decode32s (S m) blob dir;
  policies ← decode_policies types policy_offs blob;
  '(bms, tomb) ←
    (match mode with
     | kResident => load_bitmaps blob total_bins bitmap_offs sizes
     | kMetadata => Ok ([], r_empty)
     end);
  '(psums, handles) ← decode_index_entries (Z.to_nat entries) blob 0;
  Ok {| rd_schema := types; mode_ := mode;
        rd_index := mkBitmapIndex bms tomb nums policies;
        data_entries_cnt_psum := psums; block_handles := handles;
        distinct_cnts := distinct; bin_cardinalities := cards;
        bitmap_offsets_ := bitmap_offs; bitmap_sizes_ := sizes |}.

(** ** Accessors *)
Definition TotalBins (r : SABIReader) : Z :=
  match bitmap_offsets_ r with [] => 0 | offs => u32 (zlen offs - 2) end.

Definition BinCardinality (r : SABIReader) (flat_idx : Z) : result Z :=
  zget (bin_cardinalities r) flat_idx.

Definition TombstoneCardinality (r : SABIReader) : result Z := BinCardinality r (TotalBins r).

(** [BinRange] of a resident reader; [Bin] is the one-bin case. *)
Definition ResidentBin (r : SABIReader) (flat_idx : Z) : result Roaring :=
  if flat_idx =? TotalBins r then Ok (tombstone_bitmap (rd_index r))
  else zget (bitmaps (rd_index r)) flat_idx.

Fixpoint ResidentBinRange (r : SABIReader) (first : Z) (n : nat) : result (list Roaring) :=
  match n with
  | O => Ok []
  | S n' => b ← ResidentBin r first; rest ← ResidentBinRange r (first + 1) n'; Ok (b :: rest)
  end.

Definition AttrBinOffset (r : SABIReader) (attr_idx : Z) : Z :=
  fold_left (fun acc x => u32 (acc + x)) (take (Z.to_nat attr_idx) (bitmap_nums (rd_index r))) 0.

(** ** Selecting bins *)

(** [std::lower_bound] over the entries, by value. *)
Definition entry_lower_bound (es : eq_policy) (v : bytes) : result Z :=
  search_loop (fun mid => e ← zget es mid; Ok (bltb (fst e) v))
    (search_fuel (zlen es)) 0 (u32 (zlen es)).

(** The entry of a value, when there is one. *)
Definition find_entry (es : eq_policy) (v : bytes) : result (option Z) :=
  it ← entry_lower_bound es v;
  if it =? zlen es then Ok None
  else e ← zget es it; Ok (if beqb (fst e) v then Some (snd e) else None).

(** [bin_of]: -1 is below the leftmost boundary. *)
Definition bin_of (bounds : BytesList) (last : Z) (v : bytes) (open : bool) : result Z :=
  i ← (if open then LowerBound bounds v else UpperBound bounds v);
  Ok (if i =? 0 then -1 else if size bounds <=? i then last else s32 i - 1).

Definition SelectBins (r : SABIReader) (cond : SABICondition) : result (option BinSelection) :=
  index_type ← zget (rd_schema r) (s_attr_idx cond);
  let bitmap_offset := AttrBinOffset r (s_attr_idx cond) in
  policy ← zget (binning_policy (rd_index r)) (s_attr_idx cond);
  match index_type, policy with
  | kEquality, EqualityPolicy es =>
      found ← find_entry es (s_bytes cond);
      Ok (match found with
          | Some bin => Some (mkBinSelection (u32 (bitmap_offset + bin)) (u32 (bitmap_offset + bin)))
          | None => None
          end)
  | kRange, _ =>
      if Empty (win cond) then Ok None else
      match policy with
      | RangePolicy bounds =>
          num_bins ← zget (bitmap_nums (rd_index r)) (s_attr_idx cond);
          let last := s32 num_bins - 1 in
          end_bin ← (if hi_unbounded (win cond) then Ok last
                     else bin_of bounds last (hi (win cond)) (hi_open (win cond)));
          if end_bin <? 0 then Ok None else
          start_bin ← bin_of bounds last (lo (win cond)) false;
          let start_bin := if start_bin <? 0 then 0 else start_bin in
          Ok (Some (mkBinSelection (u32 (bitmap_offset + u32 start_bin))
                      (u32 (bitmap_offset + u32 end_bin))))
      | EqualityPolicy _ => Fault BadVariantAccess
      end
  | kEquality, RangePolicy _ => Fault BadVariantAccess
  end.

(** ** Pruning *)
Definition ConditionImpossible (cond : SABICondition) (types : list IndexType)
    (policies : list Policy) : result bool :=
  match policies !! Z.to_nat (s_attr_idx cond), types !! Z.to_nat (s_attr_idx cond) with
  | Some policy, Some kRange =>
      match policy with
      | RangePolicy bounds =>
          if size bounds <? 2 then Ok false else
          mn ← bl_get bounds 0;
          mx ← back bounds;
          let w := win cond in
          if Empty w || bltb mx (lo w) || (beqb (lo w) mx && lo_open w) then Ok true
          else if hi_unbounded w then Ok false
          else Ok (bltb (hi w) mn || (beqb (hi w) mn && hi_open w))
      | EqualityPolicy _ => Ok false
      end
  | Some policy, Some kEquality =>
      match policy with
      | EqualityPolicy es =>
          found ← find_entry es (s_bytes cond);
          Ok (match found with Some _ => false | None => true end)
      | RangePolicy _ => Ok false
      end
  | _, _ => Ok false
  end.

(** Whether every condition of the clause is impossible. *)
Fixpoint clause_impossible (r : SABIReader) (clause : SABIOrClause) : result bool :=
  match clause with
  | [] => Ok true
  | cond :: rest =>
      imp ← ConditionImpossible cond (rd_schema r) (binning_policy (rd_index r));
      if imp : bool then clause_impossible r rest else Ok false
  end.

Fixpoint clauses_can_match (r : SABIReader) (cs : list SABIOrClause) : result bool :=
  match cs with
  | [] => Ok true
  | [] :: rest => clauses_can_match r rest
  | clause :: rest =>
      imp ← clause_impossible r clause;
      if imp : bool then Ok false else clauses_can_match r rest
  end.

Definition QueryCanMatch (r : SABIReader) (q : SABIQuery) : result bool :=
  clauses_can_match r (s_clause_groups q).

(** ** Histograms *)
Fixpoint bin_counts (r : SABIReader) (off : Z) (n : nat) : result (list Z) :=
  match n with
  | O => Ok []
  | S n' => c ← BinCardinality r off; rest ← bin_counts r (off + 1) n'; Ok (c :: rest)
  end.

Definition RangeHistogram (r : SABIReader) (attr_idx : Z) : result (option RangeAttrHistogram) :=
  match rd_schema r !! Z.to_nat attr_idx with
  | Some kRange =>
      bins ← zget (bitmap_nums (rd_index r)) attr_idx;
      counts ← bin_counts r (AttrBinOffset r attr_idx) (Z.to_nat bins);
      if fold_left (fun acc x => u64 (acc + x)) counts 0 =? 0 then Ok None else
      policy ← zget (binning_policy (rd_index r)) attr_idx;
      match policy with
      | RangePolicy bounds =>
          d ← zget (distinct_cnts r) attr_idx; Ok (Some (mkRangeAttrHistogram bounds counts d))
      | EqualityPolicy _ => Fault BadVariantAccess
      end
  | _ => Ok None
  end.

(** [for (e : entries) values_in_bin[e.second]++] *)
Fixpoint count_values (es : eq_policy) (acc : list Z) : result (list Z) :=
  match es with
  | [] => Ok acc
  | e :: rest => c ← zget acc (snd e); acc' ← zset acc (snd e) (u32 (c + 1)); count_values rest acc'
  end.

(** The values with their shares of their bins' rows, as doubles. *)
Fixpoint value_shares (es : eq_policy) (card in_bin : list Z) : result (list (bytes * spec_float)) :=
  match es with
  | [] => Ok []
  | e :: rest =>
      c ← zget card (snd e);
      k ← zget in_bin (snd e);
      more ← value_shares rest card in_bin;
      Ok ((fst e, f64_div (f64_of_Z c) (f64_of_Z k)) :: more)
  end.

Definition EqualityValueCounts (r : SABIReader) (attr_idx : Z)
    : result (option (list (bytes * spec_float))) :=
  match rd_schema r !! Z.to_nat attr_idx with
  | Some kEquality =>
      policy ← zget (binning_policy (rd_index r)) attr_idx;
      match policy with
      | EqualityPolicy es =>
          if zlen es =? 0 then Ok None else
          bins ← zget (bitmap_nums (rd_index r)) attr_idx;
          in_bin ← count_values es (replicate (Z.to_nat bins) 0);
          card ← bin_counts r (AttrBinOffset r attr_idx) (Z.to_nat bins);
          if fold_left (fun acc x => u64 (acc + x)) card 0 =? 0 then Ok None else
          shares ← value_shares es card in_bin;
          Ok (Some shares)
      | RangePolicy _ => Fault BadVariantAccess
      end
  | _ => Ok None
  end.

(** ** SABIFactory *)
Record SABIFactory := mkSABIFactory {
  fac_types : list IndexType;
  fac_ondemand : bool;
}.

Fixpoint types_string (i : nat) (ts : list IndexType) : string :=
  match ts with
  | [] => ""
  | t :: rest =>
      (if (i =? 0)%nat then "" else ",") +:+
      (match t with kRange => "kRange" | kEquality => "kEquality" end) +:+ types_string (S i) rest
  end.
Definition IndexTypesToString (ts : list IndexType) : string := "[" +:+ types_string 0 ts +:+ "]".

(** The validation loop over the type bytes; the first unknown one is
    reported. *)
Fixpoint validate_types (n : nat) (base : bytes) (off i : Z)
    : result (list IndexType + Status) :=
  match n with
  | O => Ok (inl [])
  | S n' =>
      b ← zget base (off + i);
      match type_of_byte b with
      | Fault _ =>
          Ok (inr (Corruption ("SABI directory has unknown index type " +:+
                to_string (b2z b) +:+ " for attr " +:+ to_string i)))
      | Ok t =>
          rest ← validate_types n' base off (i + 1);
          Ok (match rest with inl ts => inl (t :: ts) | inr s => inr s end)
      end
  end.

Definition NewReader (f : SABIFactory) (blob : bytes) : result (Status * option SABIReader) :=
  let footer_missing := Ok (Corruption "SABI index has no version footer; rebuild the DB", None) in
  if zlen blob <? 12 then footer_missing else
  magic ← Decode32At blob (zlen blob - 4);
  if negb (magic =? kSABIFooterMagic) then footer_missing else
  version ← Decode32At blob (zlen blob - 8);
  if negb (version =? kBitLSMFormatVersion) then
    Ok (Corruption ("unsupported BitLSM format version " +:+ to_string version +:+
          " (this build reads v" +:+ to_string kBitLSMFormatVersion +:+ "); rebuild the DB"), None)
  else
  directory_off ← Decode32At blob (zlen blob - 12);
  let body_end := zlen blob - 12 in
  if body_end <? directory_off + 4 then
    Ok (Corruption "SABI directory offset out of bounds", None) else
  attr_num ← Decode32At blob directory_off;
  if body_end <? directory_off + 4 + attr_num then
    Ok (Corruption "SABI directory is truncated", None) else
  types ← validate_types (Z.to_nat attr_num) blob (directory_off + 4) 0;
  match types with
  | inr s => Ok (s, None)
  | inl ts =>
      if negb (bool_decide (fac_types f = [])) && negb (bool_decide (fac_types f = ts)) then
        Ok (Corruption ("SABI schema mismatch: SST index_types " +:+ IndexTypesToString ts +:+
              " vs configured " +:+ IndexTypesToString (fac_types f) +:+
              "; rebuild the DB or fix the schema"), None)
      else
        r ← new_reader blob (if fac_ondemand f then kMetadata else kResident);
        Ok (OK, Some r)
  end.
End Reader.

(** The entry point of the base interface, without the checks. *)
Definition NewReader_unchecked (blob : bytes) : result SABIReader := new_reader blob kResident.
Definition ProducesMetadataOnlyReaders (f : SABIFactory) : bool := fac_ondemand f.
Definition RetainsIndexContents (r : SABIReader) : bool := match mode_ r with kResident => true | kMetadata => false end.

(** ** Validation *)
Section Validation.
Context `{RoaringOps} `{Coding} `{!CodingLaws _}.

Lemma Decode32At_in base off :
  0 <= off -> off + 4 <= zlen base -> exists v, Decode32At base off = Ok v /\ is_u32 v.
Proof.
  intros H0' H1'. unfold Decode32At, zsub.
  rewrite !(proj2 (Z.ltb_ge _ _)) by lia. cbn [orb mbind result_bind].
  eexists. split; [done|]. apply DecodeFixed32_range.
Qed.

Lemma validate_types_ok base off n i :
  0 <= off + i -> off + i + Z.of_nat n <= zlen base ->
  (exists ts, validate_types n base off i = Ok (inl ts) /\ decode_types n base (off + i) = Ok ts /\
     length ts = n) \/
  (exists msg, validate_types n base off i = Ok (inr (Corruption msg))).
Proof.
  revert i. induction n as [|n IH]; intros i H0' H1'; cbn [validate_types decode_types].
  { left. by exists []. }
  destruct (lookup_lt_is_Some_2 base (Z.to_nat (off + i))) as [b Hb]; [unfold zlen in *; lia|].
  rewrite (proj2 (zget_lookup _ _ _) (conj H0' Hb)). cbn [mbind result_bind].
  destruct (type_of_byte b) as [t|]; [|right; by eexists].
  destruct (IH (i + 1)) as [(ts & E1 & E2 & El)|(msg & E)]; [lia|lia| |].
  - rewrite Z.add_assoc in E2. rewrite E1, E2. left. exists (t :: ts). cbn. by rewrite El.
  - rewrite E. right. by eexists.
Qed.
End Validation.

(** (C38) Opening arbitrary bytes never reads outside them before the header is
    validated: the factory answers Corruption, or else the footer has the magic
    and the version, the directory and its type bytes lie inside the blob, the
    types are known and match the configured schema, and only then is the blob
    parsed. *)
Theorem NewReader_validates `{RoaringOps} `{Coding} `{!CodingLaws _} f blob :
  (exists msg, NewReader f blob = Ok (Corruption msg, None)) \/
  (exists dir n ts, 12 <= zlen blob /\
     Decode32At blob (zlen blob - 4) = Ok kSABIFooterMagic /\
     Decode32At blob (zlen blob - 8) = Ok kBitLSMFormatVersion /\
     Decode32At blob (zlen blob - 12) = Ok dir /\ Decode32At blob dir = Ok n /\
     0 <= dir /\ dir + 4 + n <= zlen blob - 12 /\ zlen ts = n /\
     decode_types (length ts) blob (dir + 4) = Ok ts /\ (fac_types f = [] \/ fac_types f = ts) /\
     NewReader f blob = (r ← new_reader blob (if fac_ondemand f then kMetadata else kResident);
                         Ok (OK, Some r))).
Proof.
  unfold NewReader. destruct (Z.ltb_spec (zlen blob) 12); [left; by eexists|].
  destruct (Decode32At_in blob (zlen blob - 4)) as (m & Em & _); [lia|lia|]. rewrite Em. cbn [mbind result_bind].
  destruct (Z.eqb_spec m kSABIFooterMagic) as [->|]; cbn [negb]; [|left; by eexists].
  destruct (Decode32At_in blob (zlen blob - 8)) as (v & Ev & _); [lia|lia|]. rewrite Ev. cbn [mbind result_bind].
  destruct (Z.eqb_spec v kBitLSMFormatVersion) as [->|]; cbn [negb]; [|left; by eexists].
  destruct (Decode32At_in blob (zlen blob - 12)) as (d & Ed & Hd); [lia|lia|]. rewrite Ed. cbn [mbind result_bind].
  destruct (Z.ltb_spec (zlen blob - 12) (d + 4)); [left; by eexists|]. unfold is_u32 in Hd.
  destruct (Decode32At_in blob d) as (n & En & Hn); [lia|lia|]. rewrite En. cbn [mbind result_bind].
  destruct (Z.ltb_spec (zlen blob - 12) (d + 4 + n)); [left; by eexists|]. unfold is_u32 in Hn.
  destruct (validate_types_ok blob (d + 4) (Z.to_nat n) 0) as [(ts & E1 & E2 & El)|(msg & E)]; [lia|lia| |].
  2: { rewrite E. left. by eexists. }
  rewrite E1. cbn [mbind result_bind]. rewrite Z.add_0_r, <- El in E2.
  assert (zlen ts = n) as Hts by (unfold zlen; lia).
  destruct (bool_decide (fac_types f = [])) eqn:F1; cbn [negb andb].
  - right. exists d, n, ts. apply bool_decide_eq_true in F1.
    split_and!; try done; try lia; by left.
  - destruct (bool_decide (fac_types f = ts)) eqn:F2; cbn [negb]; [|left; by eexists].
    right. exists d, n, ts. apply bool_decide_eq_true in F2.
    split_and!; try done; try lia; by right.
Qed.
Lemma NewReader_validates_witness :
  (exists msg, NewReader (mkSABIFactory [] false) [x00; x01] = Ok (Corruption msg, None)) \/
  12 <= zlen [x00; x01].
Proof.
  destruct (NewReader_validates (mkSABIFactory [] false) [x00; x01]) as [Hc|(dir & n & ts & Hlen & _)].
  - exact (or_introl Hc).
  - exact (or_intror Hlen).
Defined.
