(* ===== verification/Index.v ===== *)
(** * What an SSTable index promises

    The contract between the builder and everything that reads an index: the
    rows of an SSTable, the binning policies that fit their columns, and
    bitmaps that put every row into the bin of its value. The reader's
    theorems ([ReaderSpec]) are proved against it and the builder's
    ([BuilderSpec]) establish it. *)
From Stdlib Require Import ZArith Lia Strings.Byte Sorting.Sorted.
From stdpp Require Import base numbers list sets sorting.
From S2P Require Import Prelude Options Okey BytesList Externals Intern RangeBuf Binning.
From S2P Require Import Builder.

(** A row of an SSTable: a tombstone, or the encoded attributes of a value. *)
Abbreviation sst_row := (option (list EncodedAttr)).

(** The value of attribute [i] in a row, when it has one. *)
Definition row_attr (i : nat) (r : sst_row) : option bytes :=
  match r with Some enc => match enc !! i with Some (Some v) => Some v | _ => None end | None => None end.

(** The values of a column, NULLs and tombstones left out. *)
Definition column (i : nat) (rows : list sst_row) : list bytes := omap (row_attr i) rows.

Lemma column_elem i rows v :
  v ∈ column i rows <-> exists j r, rows !! j = Some r /\ row_attr i r = Some v.
Proof.
  unfold column. rewrite list_elem_of_omap. split.
  - intros (r & Hr & Hv). apply list_elem_of_lookup in Hr as [j Hj]. eauto.
  - intros (j & r & Hj & Hv). exists r. split; [by eapply list_elem_of_lookup_2|done].
Qed.

(** A policy that fits a column of values. *)
Record range_fits (bs : list bytes) (bins : Z) (vals : list bytes) : Prop := {
  rf_count : zlen bs = bins + 1;
  rf_sorted : StronglySorted ble bs;
  rf_low v : v ∈ vals -> exists b, head bs = Some b /\ ble b v;
  rf_high v : v ∈ vals -> exists b, last bs = Some b /\ ble v b;
}.
Record equality_fits (es : eq_policy) (bins : Z) (vals : list bytes) : Prop := {
  ef_count : zlen es < 2 ^ 32;
  ef_sorted : StronglySorted blt (map fst es);
  ef_range v b : (v, b) ∈ es -> 0 <= b < bins;
  ef_total v : v ∈ vals -> exists b, (v, b) ∈ es;
}.
Definition policy_fits (t : IndexType) (p : Policy) (bins : Z) (vals : list bytes) : Prop :=
  match t, p with
  | kRange, RangePolicy bl => exists bs, bl_repr bl bs /\ range_fits bs bins vals
  | kEquality, EqualityPolicy es => equality_fits es bins vals
  | _, _ => False
  end.

(** The local bin a policy gives to a value. *)
Definition value_bin (p : Policy) (bins : Z) (v : bytes) (b : Z) : Prop :=
  match p with
  | RangePolicy bl => exists bs, bl_repr bl bs /\ b = bin_rule bs bins v
  | EqualityPolicy es => (v, b) ∈ es
  end.

(** The first flat bin of an attribute. *)
Definition bin_offset (nums : list Z) (i : nat) : Z := zsum (take i nums).

Section Contract.
Context `{RoaringOps}.

Record index_ok (types : list IndexType) (rows : list sst_row) (bi : BitmapIndex) : Prop := {
  io_nums : length (bitmap_nums bi) = length types;
  io_policies : length (binning_policy bi) = length types;
  io_bins i b : bitmap_nums bi !! i = Some b -> 1 <= b;
  io_total : zsum (bitmap_nums bi) < 2 ^ 31 - 1;
  io_bitmaps : zlen (bitmaps bi) = zsum (bitmap_nums bi);
  io_fits i t p b : types !! i = Some t -> binning_policy bi !! i = Some p ->
    bitmap_nums bi !! i = Some b -> policy_fits t p b (column i rows);
  (** a row is in the bin of its value, and in no other bin of the attribute *)
  io_rows i p n bm j r k : binning_policy bi !! i = Some p -> bitmap_nums bi !! i = Some n ->
    0 <= k < n -> bitmaps bi !! Z.to_nat (bin_offset (bitmap_nums bi) i + k) = Some bm ->
    rows !! j = Some r ->
    r_contains bm (Z.of_nat j) = true <-> exists v, row_attr i r = Some v /\ value_bin p n v k;
  (** and the bitmaps hold row ids only *)
  io_only q bm x : bitmaps bi !! q = Some bm -> r_contains bm x = true -> 0 <= x < zlen rows;
  io_tombstones x : r_contains (tombstone_bitmap bi) x = true <->
    0 <= x /\ rows !! Z.to_nat x = Some None;
}.

(** Bitmaps that hold the same row ids, and indexes that differ only in
    bitmap representation. *)
Definition r_equiv (r s : Roaring) : Prop := forall x, r_contains r x = r_contains s x.
Record bi_equiv (a b : BitmapIndex) : Prop := {
  be_nums : bitmap_nums a = bitmap_nums b;
  be_policies : binning_policy a = binning_policy b;
  be_bitmaps : Forall2 r_equiv (bitmaps a) (bitmaps b);
  be_tombstones : r_equiv (tombstone_bitmap a) (tombstone_bitmap b);
}.

#[export] Instance r_equiv_equivalence : Equivalence r_equiv.
Proof. split; unfold r_equiv; repeat intro; congruence. Qed.
#[export] Instance bi_equiv_equivalence : Equivalence bi_equiv.
Proof.
  split.
  - intros a. split; done.
  - intros a b []. split; done.
  - intros a b c [] []. split; [congruence|congruence|etrans; eauto|etrans; eauto].
Qed.

Lemma index_ok_equiv types rows a b : bi_equiv a b -> index_ok types rows a -> index_ok types rows b.
Proof.
  intros [En Ep Eb Et] [H1 H2 H3 H4 H5 H6 H7 H8 H9].
  split; rewrite <- ?En, <- ?Ep; try done.
  - rewrite <- H5. unfold zlen. by rewrite (Forall2_length _ _ _ Eb).
  - intros i p n bm j r k Hp Hn Hk Hbm Hj.
    destruct (Forall2_lookup_r _ _ _ _ _ Eb Hbm) as (bm' & Hbm' & E). rewrite <- E. eauto.
  - intros q bm x Hbm Hx. destruct (Forall2_lookup_r _ _ _ _ _ Eb Hbm) as (bm' & Hbm' & E).
    rewrite <- E in Hx. eauto.
  - intros x. rewrite <- (Et x). apply H9.
Qed.
#[export] Instance index_ok_proper types rows : Proper (bi_equiv ==> iff) (index_ok types rows).
Proof. intros a b E. split; apply index_ok_equiv; [done|by symmetry]. Qed.
End Contract.

Lemma zsum_nonneg l : Forall (fun x => 1 <= x) l -> 0 <= zsum l.
Proof. intros Hl. pose proof (zsum_ge_length l Hl). pose proof (zlen_nonneg l). lia. Qed.

Lemma bin_offset_bound nums i b :
  (forall i b, nums !! i = Some b -> 1 <= b) -> nums !! i = Some b ->
  0 <= bin_offset nums i /\ bin_offset nums i + b <= zsum nums.
Proof.
  intros Hpos Hi. unfold bin_offset.
  assert (Forall (fun x => 1 <= x) nums) as Hall.
  { apply Forall_lookup. eauto. }
  rewrite <- (take_drop_middle nums i b Hi) in Hall. apply Forall_app in Hall as [H1 H2].
  apply Forall_cons in H2 as [_ H2]. apply zsum_nonneg in H1, H2. split; [done|].
  rewrite <- (take_drop_middle nums i b Hi) at 2. rewrite zsum_app.
  change (zsum (b :: drop (S i) nums)) with (b + zsum (drop (S i) nums)). lia.
Qed.

(** The 32-bit running sum of the bin counts. *)
Lemma fold_u32_sum l acc :
  Forall (fun x => 1 <= x) l -> 0 <= acc -> acc + zsum l < 2 ^ 32 ->
  fold_left (fun a x => u32 (a + x)) l acc = acc + zsum l.
Proof.
  intros Hl. revert acc. induction Hl as [|x l Hx Hl IH]; intros acc Ha Hs; cbn [fold_left].
  - unfold zsum. simpl. lia.
  - change (zsum (x :: l)) with (x + zsum l) in *. pose proof (zsum_nonneg l Hl).
    rewrite u32_small by (unfold is_u32; lia). rewrite IH by lia. lia.
Qed.
