(* ===== verification/ReaderSpec.v ===== *)
(** * Reading an index loses no row

    Against the contract of [Index]: the bins [SelectBins] returns for a
    condition cover every row that satisfies it, and [QueryCanMatch] prunes an
    SSTable only when none of its rows satisfies the query. *)
From Stdlib Require Import ZArith Lia Strings.Byte Sorting.Sorted.
From stdpp Require Import base numbers list sets sorting.
From S2P Require Import Prelude Options Okey BytesList Query QuerySpec Externals Intern.
From S2P Require Import RangeBuf Binning Builder Reader Index.

(** ** Finding an entry *)
Lemma entry_lower_bound_spec es v :
  zlen es < 2 ^ 32 -> StronglySorted blt (map fst es) ->
  entry_lower_bound es v = Ok (count_if (fun e => bltb (fst e) v) es).
Proof.
  intros Hlen Hs. unfold entry_lower_bound. pose proof (zlen_nonneg es).
  rewrite u32_small by (unfold is_u32; lia).
  pose proof (count_if_bounds (fun e : bytes * Z => bltb (fst e) v) es).
  apply search_loop_spec; try lia; [unfold search_fuel; lia|].
  intros i Hi. destruct (lookup_lt_is_Some_2 es (Z.to_nat i)) as [e He]; [unfold zlen in *; lia|].
  rewrite (proj2 (zget_lookup _ _ _) (conj (proj1 Hi) He)). cbn [mbind result_bind]. f_equal.
  rewrite <- (Z2Nat.id i) at 1 by lia.
  apply (sorted_prefix (fun a b : bytes * Z => blt (fst a) (fst b)) (fun e => bltb (fst e) v)); [| |done].
  - clear -Hs. induction es as [|x es IH]; constructor.
    + apply IH. by apply StronglySorted_inv in Hs as [? _].
    + apply StronglySorted_inv in Hs as [_ Hx]. exact (proj1 (Forall_fmap _ _ _) Hx).
  - intros a b Hab. rewrite !bltb_lt. intros. border.
Qed.

Lemma find_entry_some es v b :
  zlen es < 2 ^ 32 -> StronglySorted blt (map fst es) -> (v, b) ∈ es ->
  find_entry es v = Ok (Some b).
Proof.
  intros Hlen Hs Hin. unfold find_entry. rewrite entry_lower_bound_spec by done.
  cbn [mbind result_bind]. apply list_elem_of_lookup in Hin as [i Hi].
  assert (count_if (fun e => bltb (fst e) v) es = Z.of_nat i) as ->.
  { apply list_elem_of_split_length in Hi as (l1 & l2 & -> & ->).
    rewrite map_app in Hs. cbn [map] in Hs. apply StronglySorted_app in Hs as (Hlt & _ & Hs2).
    apply StronglySorted_inv in Hs2 as [_ Hgt]. clear Hlen.
    induction l1 as [|x l1 IH]; cbn [app count_if length].
    - simpl. rewrite (proj2 (bltb_ge _ _)) by border. rewrite count_if_none; [done|].
      intros e He. apply bltb_ge. rewrite Forall_forall in Hgt.
      assert (blt v (fst e)); [|border]. apply Hgt, list_elem_of_fmap. eauto.
    - rewrite IH by (intros y z Hy; apply Hlt; simpl; set_solver).
      rewrite (proj2 (bltb_lt _ _)); [lia|]. apply Hlt; set_solver. }
  pose proof (lookup_lt_Some _ _ _ Hi). rewrite (proj2 (Z.eqb_neq _ _)) by (unfold zlen; lia).
  rewrite (zget_nat _ _ _ Hi). cbn [mbind result_bind fst snd].
  by rewrite (proj2 (beqb_eq v v)).
Qed.

Lemma find_entry_ok es v :
  zlen es < 2 ^ 32 -> StronglySorted blt (map fst es) ->
  exists r, find_entry es v = Ok r /\ forall b, r = Some b -> (v, b) ∈ es.
Proof.
  intros Hlen Hs. unfold find_entry. rewrite entry_lower_bound_spec by done. cbn [mbind result_bind].
  set (c := count_if _ es). pose proof (count_if_bounds (fun e : bytes * Z => bltb (fst e) v) es) as Hc.
  fold c in Hc. destruct (Z.eqb_spec c (zlen es)); [by exists None|].
  destruct (lookup_lt_is_Some_2 es (Z.to_nat c)) as [[k b] He]; [unfold zlen in *; lia|].
  rewrite (proj2 (zget_lookup _ _ _) (conj (proj1 Hc) He)). cbn [mbind result_bind fst snd].
  destruct (beqb k v) eqn:Eb; eexists; (split; [done|]); [|done].
  intros b' [= <-]. apply beqb_eq in Eb as <-. by eapply list_elem_of_lookup_2.
Qed.

(** ** The bins of an interval *)
Section RangeBins.
Context (bl : BytesList) (bs : list bytes) (bins : Z) (vals : list bytes).
Context (Hbl : bl_repr bl bs) (Hfit : range_fits bs bins vals) (Hbins : 1 <= bins < 2 ^ 31 - 1).
Local Abbreviation cnt_le v := (count_if (fun b => bleb b v) bs).

Lemma s32_small z : 0 <= z < 2 ^ 31 -> s32 z = z.
Proof. intros. apply s32_id. lia. Qed.

Lemma cnt_mono a v : ble a v -> cnt_le a <= cnt_le v.
Proof. intros Hav. apply count_if_le. intros b _. rewrite !bleb_le. intros. border. Qed.

Lemma cnt_pos v : v ∈ vals -> 1 <= cnt_le v <= bins + 1.
Proof.
  intros Hv. destruct (rf_low _ _ _ Hfit v Hv) as (b & Hb & Hle).
  pose proof (count_if_bounds (fun b => bleb b v) bs) as Hc. rewrite (rf_count _ _ _ Hfit) in Hc.
  split; [|lia]. destruct bs as [|b' bs']; [done|]. injection Hb as ->.
  pose proof (count_if_pos (fun b => bleb b v) (b :: bs') b ltac:(by left)
    ltac:(by apply bleb_le)). lia.
Qed.

Lemma bin_of_closed a : exists k, bin_of bl (s32 bins - 1) a false = Ok k /\
  k = if cnt_le a =? 0 then -1 else if bins + 1 <=? cnt_le a then bins - 1 else cnt_le a - 1.
Proof.
  unfold bin_of. rewrite (UpperBound_spec bl bs) by (done || apply Hfit).
  cbn [mbind result_bind]. eexists. split; [done|].
  pose proof (count_if_bounds (fun b => bleb b a) bs) as Hc. rewrite (rf_count _ _ _ Hfit) in Hc.
  rewrite (bl_repr_size _ _ Hbl), (rf_count _ _ _ Hfit), !s32_small by lia. done.
Qed.
Lemma bin_of_open a : exists k, bin_of bl (s32 bins - 1) a true = Ok k /\
  let c := count_if (fun b => bltb b a) bs in
  k = if c =? 0 then -1 else if bins + 1 <=? c then bins - 1 else c - 1.
Proof.
  unfold bin_of. rewrite (LowerBound_spec bl bs) by (done || apply Hfit).
  cbn [mbind result_bind]. eexists. split; [done|].
  pose proof (count_if_bounds (fun b => bltb b a) bs) as Hc. rewrite (rf_count _ _ _ Hfit) in Hc.
  rewrite (bl_repr_size _ _ Hbl), (rf_count _ _ _ Hfit), !s32_small by lia. done.
Qed.

(** The end bins enclose the bin of every column value in the interval. *)
Lemma range_bins_enclose w v :
  v ∈ vals -> in_interval w v ->
  exists e s,
    (if hi_unbounded w then Ok (s32 bins - 1) else bin_of bl (s32 bins - 1) (hi w) (hi_open w)) = Ok e /\
    0 <= e < bins /\
    bin_of bl (s32 bins - 1) (lo w) false = Ok s /\
    let s' := if s <? 0 then 0 else s in 0 <= s' <= bin_rule bs bins v /\ bin_rule bs bins v <= e.
Proof.
  intros Hv [Hlo Hhi]. pose proof (cnt_pos v Hv) as Hc. pose proof (bin_rule_bounds bs bins v (proj1 Hbins)) as Hb.
  assert (cnt_le (lo w) <= cnt_le v) as Hs by (apply cnt_mono; destruct (lo_open w); border).
  pose proof (count_if_bounds (fun b => bleb b (lo w)) bs).
  destruct (bin_of_closed (lo w)) as (s & Es & Hsv).
  assert (Hstart : let s' := if s <? 0 then 0 else s in 0 <= s' <= bin_rule bs bins v).
  { rewrite Hsv. unfold bin_rule in *. rewrite (proj2 (Z.eqb_neq (cnt_le v) 0)) in * by lia.
    repeat case_match; lia. }
  assert (Hend : exists e, (if hi_unbounded w then Ok (s32 bins - 1)
    else bin_of bl (s32 bins - 1) (hi w) (hi_open w)) = Ok e /\ 0 <= e < bins /\
    bin_rule bs bins v <= e).
  { destruct (hi_unbounded w).
    - exists (bins - 1). rewrite s32_small by lia. split; [done|]. lia.
    - destruct Hhi as [?|Hhi]; [done|]. destruct (hi_open w).
      + destruct (bin_of_open (hi w)) as (e & -> & He). exists e. split; [done|].
        assert (cnt_le v <= count_if (fun b => bltb b (hi w)) bs) as Hle.
        { apply count_if_le. intros b _. rewrite bleb_le, bltb_lt. intros. border. }
        cbv zeta in He. unfold bin_rule in *.
        rewrite (proj2 (Z.eqb_neq (cnt_le v) 0)) in * by lia. repeat case_match; lia.
      + destruct (bin_of_closed (hi w)) as (e & -> & He). exists e. split; [done|].
        pose proof (cnt_mono v (hi w) Hhi) as Hle. unfold bin_rule in *.
        rewrite (proj2 (Z.eqb_neq (cnt_le v) 0)) in * by lia. repeat case_match; lia. }
  destruct Hend as (e & Ee & He & Hbe). exists e, s. done.
Qed.

(** A non-empty interval gives bins in order, whatever the column holds. *)
Lemma range_bins_ordered w :
  Empty w = false ->
  exists e s,
    (if hi_unbounded w then Ok (s32 bins - 1) else bin_of bl (s32 bins - 1) (hi w) (hi_open w)) = Ok e /\
    bin_of bl (s32 bins - 1) (lo w) false = Ok s /\ e < bins /\
    (0 <= e -> 0 <= (if s <? 0 then 0 else s) <= e).
Proof.
  unfold Empty. intros Hne. destruct (bin_of_closed (lo w)) as (s & Es & Hs).
  pose proof (count_if_bounds (fun b => bleb b (lo w)) bs).
  destruct (hi_unbounded w).
  { exists (bins - 1), s. split_and!; [by rewrite s32_small by lia|done|lia|].
    intros _. subst s. repeat case_match; lia. }
  destruct (bcompare_cases (lo w) (hi w)) as [[Ec Hc]|[[Ec Hc]|[Ec Hc]]]; rewrite Ec in Hne; [| |done].
  - destruct (hi_open w).
    + destruct (bin_of_open (hi w)) as (e & Ee & He). exists e, s. cbv zeta in He.
      assert (cnt_le (lo w) <= count_if (fun b => bltb b (hi w)) bs) as Hle.
      { apply count_if_le. intros b _. rewrite bleb_le, bltb_lt. intros. border. }
      split_and!; [done|done|subst; repeat case_match; lia|]. subst. repeat case_match; lia.
    + destruct (bin_of_closed (hi w)) as (e & Ee & He). exists e, s.
      pose proof (cnt_mono (lo w) (hi w) ltac:(border)).
      split_and!; [done|done|subst; repeat case_match; lia|]. subst. repeat case_match; lia.
  - apply orb_false_iff in Hne as [_ ->]. rewrite <- Hc.
    exists s, s. split_and!; [done|done|subst; repeat case_match; lia|].
    subst. repeat case_match; lia.
Qed.
End RangeBins.

(** Everything known of an attribute a condition is satisfied on. *)
Record attr_ctx `{RoaringOps} (types : list IndexType) (rows : list sst_row) (bi : BitmapIndex)
    (i : nat) (t : IndexType) (p : Policy) (n : Z) : Prop := {
  ac_type : types !! i = Some t;
  ac_policy : binning_policy bi !! i = Some p;
  ac_num : bitmap_nums bi !! i = Some n;
  ac_fits : policy_fits t p n (column i rows);
  ac_bins : 1 <= n < 2 ^ 31 - 1;
  ac_off : 0 <= bin_offset (bitmap_nums bi) i /\
    bin_offset (bitmap_nums bi) i + n <= zsum (bitmap_nums bi);
}.

(** A reader with the schema, bin counts and policies of an index; its own
    bitmaps are not asked for, so a metadata reader is one too. *)
Record reads_index `{RoaringOps} (types : list IndexType) (rows : list sst_row) (bi : BitmapIndex)
    (r : SABIReader) : Prop := {
  ri_index : index_ok types rows bi;
  ri_schema : rd_schema r = types;
  ri_nums : bitmap_nums (rd_index r) = bitmap_nums bi;
  ri_policies : binning_policy (rd_index r) = binning_policy bi;
}.

Section ReaderSpec.
Context `{RoaringOps} `{!RoaringLaws _}.
Context (types : list IndexType) (rows : list sst_row) (bi : BitmapIndex) (r : SABIReader).
Context (Hrd : reads_index types rows bi r).
Let Hix := ri_index _ _ _ _ Hrd.
Let Hty := ri_schema _ _ _ _ Hrd.
Local Abbreviation off i := (bin_offset (bitmap_nums bi) i).

Lemma attr_ctx_of i t :
  types !! i = Some t -> exists p n, attr_ctx types rows bi i t p n.
Proof.
  intros Ht. pose proof (lookup_lt_Some _ _ _ Ht) as Hlt.
  destruct (lookup_lt_is_Some_2 (binning_policy bi) i) as [p Hp];
    [by rewrite (io_policies _ _ _ Hix)|].
  destruct (lookup_lt_is_Some_2 (bitmap_nums bi) i) as [n Hn]; [by rewrite (io_nums _ _ _ Hix)|].
  pose proof (bin_offset_bound _ _ _ (io_bins _ _ _ Hix) Hn) as Hoff.
  pose proof (io_total _ _ _ Hix). pose proof (io_bins _ _ _ Hix _ _ Hn).
  exists p, n. split; try done; [by eapply io_fits|lia].
Qed.

Lemma AttrBinOffset_spec i n :
  bitmap_nums bi !! Z.to_nat i = Some n -> AttrBinOffset r i = off (Z.to_nat i).
Proof.
  intros Hn. unfold AttrBinOffset, bin_offset. rewrite (ri_nums _ _ _ _ Hrd).
  pose proof (bin_offset_bound _ _ _ (io_bins _ _ _ Hix) Hn) as Hoff.
  pose proof (io_bins _ _ _ Hix _ _ Hn). pose proof (io_total _ _ _ Hix). unfold bin_offset in Hoff.
  rewrite fold_u32_sum; [lia| |lia|lia].
  apply Forall_take, Forall_lookup. apply Hix.
Qed.

(** A satisfied condition on a column value, by index type. *)
Lemma cond_sat_value c enc :
  cond_sat types enc c = true ->
  exists t v, types !! Z.to_nat (s_attr_idx c) = Some t /\
    enc !! Z.to_nat (s_attr_idx c) = Some (Some v) /\
    match t with kRange => in_interval (win c) v | kEquality => v = s_bytes c end.
Proof.
  unfold cond_sat. destruct (types !! _) as [[]|]; [| |done];
    destruct (enc !! _) as [[v|]|]; try done; intros Hs; eexists _, v.
  - split; [done|]. split; [done|]. by apply beqb_eq.
  - split; [done|]. split; [done|]. by apply bool_decide_eq_true in Hs.
Qed.

(** The selection of one satisfied condition encloses the bin of the row's
    value and stays inside the attribute's bins. *)
Lemma SelectBins_encloses c t v p n :
  let i := Z.to_nat (s_attr_idx c) in
  0 <= s_attr_idx c -> attr_ctx types rows bi i t p n -> v ∈ column i rows ->
  match t with kRange => in_interval (win c) v | kEquality => v = s_bytes c end ->
  exists sel k, SelectBins r c = Ok (Some sel) /\ value_bin p n v k /\ 0 <= k < n /\
    off i <= sel_first sel <= off i + k /\ off i + k <= sel_last sel < off i + n.
Proof.
  intros i Hi [Ht Hp Hn Hf Hb Hoff] Hv Hsat. pose proof (io_total _ _ _ Hix).
  unfold SelectBins. rewrite Hty, (ri_nums _ _ _ _ Hrd), (ri_policies _ _ _ _ Hrd).
  rewrite (proj2 (zget_lookup _ _ _) (conj Hi Ht)), (proj2 (zget_lookup _ _ _) (conj Hi Hp)).
  cbn [mbind result_bind]. rewrite (AttrBinOffset_spec _ n Hn). fold i.
  destruct t, p as [bl|es]; cbn [policy_fits] in Hf; try done.
  - subst v. destruct (ef_total _ _ _ Hf _ Hv) as [b Hin].
    pose proof (ef_range _ _ _ Hf _ _ Hin) as Hbr.
    rewrite (find_entry_some es _ b) by (done || apply Hf). cbn [mbind result_bind].
    eexists _, b. split; [done|]. split; [done|]. cbn [sel_first sel_last].
    rewrite u32_small by (unfold is_u32; lia). lia.
  - destruct Hf as (bs & Hbl & Hfit).
    destruct (range_bins_enclose bl bs n _ Hbl Hfit Hb (win c) v Hv Hsat)
      as (e & s & Ee & He & Es & Hs1 & Hs2). cbv zeta in Hs1.
    destruct (Empty (win c)) eqn:Eemp; [by apply Empty_sound in Hsat|].
    rewrite (proj2 (zget_lookup _ _ _) (conj Hi Hn)). cbn [mbind result_bind].
    rewrite Ee. cbn [mbind result_bind]. rewrite (proj2 (Z.ltb_ge _ _)) by lia.
    rewrite Es. cbn [mbind result_bind]. eexists _, (bin_rule bs n v). split; [done|].
    split; [by exists bs|]. split; [apply bin_rule_bounds; lia|]. cbn [sel_first sel_last].
    rewrite !(u32_small (if _ : bool then _ else _)), !(u32_small e) by (unfold is_u32; lia).
    rewrite !u32_small by (unfold is_u32; lia). lia.
Qed.

(** Every condition on an attribute of the schema gets an answer, and a
    selection stays inside the attribute's bins. *)
Lemma SelectBins_total c t p n :
  let i := Z.to_nat (s_attr_idx c) in
  0 <= s_attr_idx c -> attr_ctx types rows bi i t p n ->
  exists o, SelectBins r c = Ok o /\
    forall sel, o = Some sel -> off i <= sel_first sel <= sel_last sel /\ sel_last sel < off i + n.
Proof.
  intros i Hi [Ht Hp Hn Hf Hb Hoff]. pose proof (io_total _ _ _ Hix).
  unfold SelectBins. rewrite Hty, (ri_nums _ _ _ _ Hrd), (ri_policies _ _ _ _ Hrd).
  rewrite (proj2 (zget_lookup _ _ _) (conj Hi Ht)), (proj2 (zget_lookup _ _ _) (conj Hi Hp)).
  cbn [mbind result_bind]. rewrite (AttrBinOffset_spec _ n Hn). fold i.
  destruct t, p as [bl|es]; cbn [policy_fits] in Hf; try done.
  - destruct (find_entry_ok es (s_bytes c)) as (f & Ef & Hfin); [apply Hf..|]. rewrite Ef.
    cbn [mbind result_bind]. eexists. split; [done|]. destruct f as [b|]; [|done].
    intros sel [= <-]. cbn [sel_first sel_last]. specialize (Hfin b eq_refl).
    pose proof (ef_range _ _ _ Hf _ _ Hfin). rewrite u32_small by (unfold is_u32; lia). lia.
  - destruct (Empty (win c)) eqn:Eemp; [by exists None|]. destruct Hf as (bs & Hbl & Hfit).
    destruct (range_bins_ordered bl bs n _ Hbl Hfit Hb (win c) Eemp) as (e & s & Ee & Es & He & Hse).
    rewrite (proj2 (zget_lookup _ _ _) (conj Hi Hn)). cbn [mbind result_bind]. rewrite Ee.
    cbn [mbind result_bind]. destruct (Z.ltb_spec e 0); [by exists None|]. rewrite Es.
    cbn [mbind result_bind]. eexists. split; [done|]. intros sel [= <-]. cbn [sel_first sel_last].
    specialize (Hse ltac:(lia)).
    rewrite !(u32_small (if _ : bool then _ else _)), !(u32_small e) by (unfold is_u32; lia).
    rewrite !u32_small by (unfold is_u32; lia). lia.
Qed.

(** The bin of a row that satisfies a condition. *)
Lemma SelectBins_row c j enc :
  rows !! j = Some (Some enc) -> 0 <= s_attr_idx c -> cond_sat types enc c = true ->
  exists sel n q bm, SelectBins r c = Ok (Some sel) /\
    bitmap_nums bi !! Z.to_nat (s_attr_idx c) = Some n /\
    (let o := off (Z.to_nat (s_attr_idx c)) in
     o <= sel_first sel <= q /\ q <= sel_last sel < o + n) /\
    bitmaps bi !! Z.to_nat q = Some bm /\ r_contains bm (Z.of_nat j) = true.
Proof.
  intros Hj Hi Hsat. destruct (cond_sat_value c enc Hsat) as (t & v & Ht & Hv & Hs).
  destruct (attr_ctx_of _ t Ht) as (p & n & Hctx). pose proof Hctx as [_ Hp Hn _ _ Hoff].
  assert (row_attr (Z.to_nat (s_attr_idx c)) (Some enc) = Some v) as Hra by (unfold row_attr; by rewrite Hv).
  destruct (SelectBins_encloses c t v p n Hi Hctx) as (sel & k & E & Hvb & Hk & H1 & H2); [|done|].
  { apply column_elem. eauto. }
  set (q := off (Z.to_nat (s_attr_idx c)) + k) in *.
  destruct (lookup_lt_is_Some_2 (bitmaps bi) (Z.to_nat q)) as [bm Hbm].
  { pose proof (io_bitmaps _ _ _ Hix) as Hz. unfold zlen in Hz. lia. }
  exists sel, n, q, bm. split_and!; try done; try lia.
  apply (io_rows _ _ _ Hix (Z.to_nat (s_attr_idx c)) p n bm j (Some enc) k); eauto.
Qed.

(** ** Pruning *)
Lemma ConditionImpossible_ok c : exists b,
  ConditionImpossible c types (binning_policy bi) = Ok b /\
  forall j enc, rows !! j = Some (Some enc) -> cond_sat types enc c = true -> b = false.
Proof.
  set (i := Z.to_nat (s_attr_idx c)). unfold ConditionImpossible.
  destruct (types !! i) as [t|] eqn:Ht; fold i; rewrite Ht.
  2: { exists false. split; [by destruct (binning_policy bi !! i)|done]. }
  destruct (attr_ctx_of i t Ht) as (p & n & [_ Hp Hn Hf Hb _]). rewrite Hp.
  assert (Hval : forall j enc, rows !! j = Some (Some enc) -> cond_sat types enc c = true ->
    exists v, v ∈ column i rows /\
      match t with kRange => in_interval (win c) v | kEquality => v = s_bytes c end).
  { intros j enc Hj Hsat. destruct (cond_sat_value c enc Hsat) as (t' & v & Ht' & Hv & Hs).
    fold i in Ht', Hv. assert (t' = t) as -> by congruence. exists v. split; [|done].
    apply column_elem. exists j, (Some enc). split; [done|]. unfold row_attr. by rewrite Hv. }
  destruct t, p as [bl|es]; cbn [policy_fits] in Hf; try done.
  - destruct (find_entry_ok es (s_bytes c)) as (f & Ef & _); [apply Hf..|]. rewrite Ef.
    eexists. split; [done|]. intros j enc Hj Hsat. destruct (Hval _ _ Hj Hsat) as (v & Hv & ->).
    destruct (ef_total _ _ _ Hf _ Hv) as [b Hin].
    rewrite (find_entry_some es _ b) in Ef by (done || apply Hf). by injection Ef as <-.
  - destruct Hf as (bs & Hbl & Hfit). rewrite (bl_repr_size _ _ Hbl), (rf_count _ _ _ Hfit).
    rewrite (proj2 (Z.ltb_ge _ _)) by lia.
    pose proof (rf_count _ _ _ Hfit) as Hcnt.
    destruct bs as [|mn bs0]; [exfalso; zlen0; lia|].
    destruct (exists_last (l := mn :: bs0) ltac:(done)) as (pre & mx & Elast).
    assert (bl_get bl 0 = Ok mn) as Emn by (by apply (bl_get_repr bl (mn :: bs0) 0)).
    rewrite Emn. cbn [mbind result_bind]. rewrite (back_repr bl pre mx) by (by rewrite <- Elast).
    cbn [mbind result_bind].
    assert (Hrange : forall v, v ∈ column i rows -> ble mn v /\ ble v mx).
    { intros v Hv. destruct (rf_low _ _ _ Hfit v Hv) as (b & [= <-] & ?).
      destruct (rf_high _ _ _ Hfit v Hv) as (b & Hlast & ?). rewrite Elast, last_snoc in Hlast.
      injection Hlast as <-. done. }
    set (w := win c) in *.
    destruct (Empty w || bltb mx (lo w) || (beqb (lo w) mx && lo_open w)) eqn:Elo.
    + exists true. split; [done|]. intros j enc Hj Hsat. exfalso.
      destruct (Hval _ _ Hj Hsat) as (v & Hv & Hw). destruct (Hrange v Hv) as [H1 H2].
      apply orb_prop in Elo as [[He|Hlt%bltb_lt]%orb_prop|[Heq%beqb_eq Hop]%andb_prop].
      * by apply (Empty_sound w v).
      * destruct Hw as [Hl _]. destruct (lo_open w); border.
      * destruct Hw as [Hl _]. rewrite Hop in Hl. border.
    + destruct (hi_unbounded w) eqn:Eu; [by exists false|]. eexists. split; [done|].
      intros j enc Hj Hsat. destruct (Hval _ _ Hj Hsat) as (v & Hv & _ & Hh).
      destruct (Hrange v Hv) as [H1 H2]. destruct Hh as [Hh|Hh]; [fold w in Hh; congruence|].
      apply orb_false_iff. fold w in Hh. split.
      * apply bltb_ge. destruct (hi_open w); border.
      * apply andb_false_iff. destruct (hi_open w); [left|by right].
        apply not_true_iff_false. rewrite beqb_eq. intros <-. border.
Qed.

Lemma clause_impossible_ok cl : exists b,
  clause_impossible r cl = Ok b /\
  forall j enc, rows !! j = Some (Some enc) -> clause_sat types enc cl = true -> b = false.
Proof.
  induction cl as [|c cl (b & E & Hb)]; cbn [clause_impossible]; [by exists true|].
  rewrite Hty, (ri_policies _ _ _ _ Hrd). destruct (ConditionImpossible_ok c) as (b1 & E1 & H1). rewrite E1.
  cbn [mbind result_bind]. exists (b1 && b). split; [by destruct b1|].
  intros j enc Hj Hs. unfold clause_sat in Hs. cbn [existsb] in Hs.
  apply orb_prop in Hs as [Hs|Hs]; apply andb_false_iff; [left|right]; eauto.
Qed.

Lemma clauses_can_match_ok cs : exists b,
  clauses_can_match r cs = Ok b /\
  forall j enc, rows !! j = Some (Some enc) -> forallb (clause_sat types enc) cs = true -> b = true.
Proof.
  induction cs as [|cl cs (b & E & Hb)]; [by exists true|].
  destruct cl as [|c cl].
  - cbn [clauses_can_match]. exists b. split; [done|]. intros j enc Hj Hs.
    by apply andb_prop in Hs as [? _].
  - destruct (clause_impossible_ok (c :: cl)) as (b1 & E1 & H1).
    cbn [clauses_can_match]. rewrite E1. cbn [mbind result_bind].
    exists (negb b1 && b). split; [by destruct b1|]. intros j enc Hj Hs. cbn [forallb] in Hs.
    apply andb_prop in Hs as [Hs1 Hs2]. by rewrite (H1 _ _ Hj Hs1), (Hb _ _ Hj Hs2).
Qed.
End ReaderSpec.

Lemma QueryCanMatch_ok `{RoaringOps} `{!RoaringLaws _} types rows bi r q :
  reads_index types rows bi r ->
  exists b, QueryCanMatch r q = Ok b /\
    (b = false -> forall j enc, rows !! j = Some (Some enc) -> query_sat types enc q = false).
Proof.
  intros Hr. destruct (clauses_can_match_ok types rows bi r Hr (s_clause_groups q)) as (b & E & Hb).
  exists b. split; [done|]. intros -> j enc Hj. apply not_true_iff_false. intros Hs.
  apply andb_prop in Hs as [_ Hs]. specialize (Hb j enc Hj Hs). done.
Qed.

(** (C11) Bin selection loses nothing: for a condition that a row satisfies,
    [SelectBins] returns a run of bins inside the attribute's own, and the
    bitmap of one of them contains the row. *)
Theorem SelectBins_covers `{RoaringOps} `{!RoaringLaws _} types rows bi r c j enc :
  reads_index types rows bi r -> rows !! j = Some (Some enc) -> 0 <= s_attr_idx c ->
  cond_sat types enc c = true ->
  exists sel n q bm, SelectBins r c = Ok (Some sel) /\
    bitmap_nums bi !! Z.to_nat (s_attr_idx c) = Some n /\
    (let off := bin_offset (bitmap_nums bi) (Z.to_nat (s_attr_idx c)) in
     off <= sel_first sel <= q /\ q <= sel_last sel < off + n) /\
    bitmaps bi !! Z.to_nat q = Some bm /\ r_contains bm (Z.of_nat j) = true.
Proof. intros Hr. by apply SelectBins_row. Qed.

(** (C12) Pruning is sound: [QueryCanMatch] answers for every query, and when it
    answers no, no row of the table satisfies the query. *)
Theorem QueryCanMatch_sound `{RoaringOps} `{!RoaringLaws _} types rows bi r q :
  reads_index types rows bi r ->
  exists b, QueryCanMatch r q = Ok b /\
    (b = false -> forall j enc, rows !! j = Some (Some enc) -> query_sat types enc q = false).
Proof. apply QueryCanMatch_ok. Qed.
