(* ===== verification/BuilderSpec.v ===== *)
(** * The builder establishes the index contract

    The rows RocksDB feeds the builder end up in its buffers
    ([OnKeyAdded]), and binning and bitmap construction turn the buffers into
    an index that satisfies the contract of [Index]. *)
From Stdlib Require Import ZArith Lia Strings.Byte Sorting.Sorted.
From stdpp Require Import base numbers list sets sorting.
From S2P Require Import Prelude Floats Options Row Okey BytesList Externals Intern.
From S2P Require Import RangeBuf Binning Builder Index.

(** ** Sizes

    What the 32-bit fields of the builder can hold: [L] bounds the length of a
    value, [T] is the target number of bitmaps. *)
Record rows_fit (types : list IndexType) (rows : list sst_row) (L : Z) : Prop := {
  fit_rows : zlen rows < 2 ^ 32;
  fit_len : 0 <= L < 2 ^ 31;
  fit_values i v : v ∈ column i rows -> zlen v <= L;
  fit_bytes i : (i < length types)%nat -> zlen (concat (column i rows)) < 2 ^ 32;
  fit_width r enc : r ∈ rows -> r = Some enc -> length enc = length types;
}.

Lemma rows_fit_prefix types rows r L :
  rows_fit types (rows ++ [r]) L -> rows_fit types rows L.
Proof.
  intros [H1 H2 H3 H4 H5]. rewrite zlen_snoc in H1. split.
  - lia.
  - done.
  - intros i v Hv. apply (H3 i). unfold column. rewrite omap_app. set_solver.
  - intros i Hi. specialize (H4 i Hi). unfold column in *. rewrite omap_app, concat_app, zlen_app in H4.
    pose proof (zlen_nonneg (concat (omap (row_attr i) [r]))). lia.
  - intros r' enc Hr'. apply H5. set_solver.
Qed.

Lemma column_cons i r rows :
  column i (r :: rows) = (match row_attr i r with Some v => [v] | None => [] end) ++ column i rows.
Proof. unfold column. simpl. by destruct (row_attr i r). Qed.
Lemma column_snoc i rows r :
  column i (rows ++ [r]) = column i rows ++ match row_attr i r with Some v => [v] | None => [] end.
Proof. unfold column. rewrite omap_app. simpl. by destruct (row_attr i r). Qed.

Lemma column_length i rows : zlen (column i rows) <= zlen rows.
Proof.
  induction rows as [|r rows IH]; [done|]. rewrite column_cons, zlen_app, zlen_cons.
  destruct (row_attr i r); rewrite ?zlen_cons; zlen0; lia.
Qed.

(** ** Buffers *)
Definition buf_ok (hash : bytes -> Z) (t : IndexType) (b : AttrBuf) (vals : list bytes) : Prop :=
  match t, b with
  | kRange, RgBuf rb => range_repr rb vals
  | kEquality, EqBuf cb => eq_repr hash cb (distinct_from [] vals) vals
  | _, _ => False
  end.

Lemma distinct_from_snoc vs l v :
  distinct_from vs (l ++ [v]) =
  let d := distinct_from vs l in if decide (v ∈ d) then d else d ++ [v].
Proof.
  revert vs. induction l as [|x l IH]; intros vs; cbn [app distinct_from]; [done|]. apply IH.
Qed.

Section Buffers.
Context `{RoaringOps} `{!RoaringLaws _} (hash : bytes -> Z).

Lemma new_buf_ok t : buf_ok hash t (new_buf t) [].
Proof. destruct t; [apply eq_repr_init|apply range_repr_init]. Qed.

(** One attribute of one row. *)
Lemma buffer_attr_spec t e row b nl vals :
  buf_ok hash t b vals -> is_u32 row ->
  zlen vals + 1 < 2 ^ 32 ->
  (forall v, e = Some v -> zlen (concat vals) + zlen v < 2 ^ 32 /\ zlen v < 2 ^ 31) ->
  exists b' nl', buffer_attr hash t e row b nl = Ok (b', nl') /\
    buf_ok hash t b' (vals ++ match e with Some v => [v] | None => [] end) /\
    forall x, r_contains nl' x = (match e with None => x =? row | _ => false end) || r_contains nl x.
Proof.
  intros Hb Hrow Hlen Hbytes. unfold buffer_attr. destruct e as [v|].
  - destruct (Hbytes v eq_refl) as [Hb1 Hb2].
    destruct t, b as [cb|rb]; cbn [buf_ok] in Hb; try done.
    + pose proof (distinct_from_size [] vals) as [Hd1 Hd2]. cbn [concat] in Hd2. zlen0.
      destruct (Intern_spec hash cb _ _ v Hb) as (cb' & E & Hr'); [lia|lia|lia|].
      rewrite E. cbn [mbind result_bind]. exists (EqBuf cb'), nl. split; [done|].
      split; [|done]. cbn [buf_ok]. by rewrite distinct_from_snoc.
    + exists (RgBuf (Push rb v)), nl. split; [done|]. split; [|done]. by apply Push_repr.
  - exists b, (r_add nl row). rewrite app_nil_r. split; [done|]. split; [done|].
    intros x. by rewrite contains_add.
Qed.

(** All attributes of one row, as one pointwise statement. *)
Lemma buffer_attrs_spec ts enc row bs ns (cols : nat -> list bytes) :
  length enc = length ts -> length bs = length ts -> length ns = length ts -> is_u32 row ->
  (forall i t b, ts !! i = Some t -> bs !! i = Some b -> buf_ok hash t b (cols i)) ->
  (forall i, (i < length ts)%nat -> zlen (cols i) + 1 < 2 ^ 32) ->
  (forall i v, enc !! i = Some (Some v) ->
     zlen (concat (cols i)) + zlen v < 2 ^ 32 /\ zlen v < 2 ^ 31) ->
  exists bs' ns', buffer_attrs hash ts enc row bs ns = Ok (bs', ns') /\
    length bs' = length ts /\ length ns' = length ts /\
    (forall i t b e, ts !! i = Some t -> bs' !! i = Some b -> enc !! i = Some e ->
       buf_ok hash t b (cols i ++ match e with Some v => [v] | None => [] end)) /\
    (forall i e nl nl', enc !! i = Some e -> ns !! i = Some nl -> ns' !! i = Some nl' ->
       forall x, r_contains nl' x = (match e with None => x =? row | _ => false end) || r_contains nl x).
Proof.
  revert enc bs ns cols. induction ts as [|t ts IH];
    intros [|e enc] [|b bs] [|nl ns] cols He Hb Hn Hrow Hok Hlen Hbytes; try discriminate.
  { exists [], []. split; [done|]. split; [done|]. split; [done|]. split; by intros []. }
  cbn [buffer_attrs].
  destruct (buffer_attr_spec t e row b nl (cols 0%nat)) as (b' & nl' & E & Hb' & Hnl').
  { by apply (Hok 0%nat). }
  { done. }
  { apply (Hlen 0%nat). simpl. lia. }
  { intros v ->. by apply (Hbytes 0%nat). }
  rewrite E. cbn [mbind result_bind].
  destruct (IH enc bs ns (fun i => cols (S i))) as (bs' & ns' & E' & Hl1 & Hl2 & Hb'' & Hn'').
  { by injection He. } { by injection Hb. } { by injection Hn. } { done. }
  { intros i t' b0 Ht Hbi. by apply (Hok (S i)). }
  { intros i Hi. apply (Hlen (S i)). simpl. lia. }
  { intros i v Hv. by apply (Hbytes (S i)). }
  rewrite E'. cbn [mbind result_bind]. exists (b' :: bs'), (nl' :: ns').
  split; [done|]. split; [simpl; lia|]. split; [simpl; lia|]. split.
  - intros [|i] t0 b0 e0 Ht Hbi Hei; simpl in *; [by simplify_eq|]. by eapply Hb''.
  - intros [|i] e0 n0 n1 Hei Hni Hni'; simpl in *; [by simplify_eq|]. by eapply Hn''.
Qed.
End Buffers.

Lemma snoc_lookup_inv {A} (l : list A) a j x :
  (l ++ [a]) !! j = Some x <-> l !! j = Some x \/ (j = length l /\ x = a).
Proof.
  rewrite lookup_app_Some, list_lookup_singleton_Some. split.
  - intros [?|(? & Hj & <-)]; [by left|]. right. split; [lia|done].
  - intros [?|[-> ->]]; [by left|]. right. split; [lia|]. split; [lia|done].
Qed.

Section OnKeyAdded.
Context `{RoaringOps} `{!RoaringLaws _} (hash : bytes -> Z).
Context (extract : bytes -> bytes -> result (list EncodedAttr)).
Context (types : list IndexType).

Record builder_inv (rows : list sst_row) (b : SABIBuilder) : Prop := {
  bi_types : index_types (schema_ b) = types;
  bi_cnt : data_entries_cnt_ b = zlen rows;
  bi_bufs : length (attr_buf_ b) = length types;
  bi_nulls : length (attr_null_rows_ b) = length types;
  bi_buf i t buf : types !! i = Some t -> attr_buf_ b !! i = Some buf ->
    buf_ok hash t buf (column i rows);
  bi_null i nl x : attr_null_rows_ b !! i = Some nl -> r_contains nl x = true <->
    0 <= x /\ exists r, rows !! Z.to_nat x = Some r /\ (r <> None /\ row_attr i r = None);
  bi_tomb x : r_contains (tombstone_bitmap (bitmap_index_ b)) x = true <->
    0 <= x /\ exists r, rows !! Z.to_nat x = Some r /\ r = None;
  bi_empty : bitmaps (bitmap_index_ b) = [];
}.

Lemma new_builder_inv rho : builder_inv [] (new_builder (mkSABISchema types rho)).
Proof.
  split; try done; cbn [new_builder attr_buf_ attr_null_rows_ bitmap_index_ tombstone_bitmap index_types].
  - by rewrite length_map.
  - by rewrite length_replicate.
  - intros i t buf Ht Hb. rewrite list_lookup_fmap, Ht in Hb. injection Hb as <-. apply new_buf_ok.
  - intros i nl x Hn. apply lookup_replicate in Hn as [-> _]. rewrite contains_empty.
    split; [done|]. by intros (_ & r & ? & _).
  - intros x. rewrite contains_empty. split; [done|]. by intros (_ & r & ? & _).
Qed.

(** The row a callback adds. *)
Definition added_row (key : bytes) (type : ValueType) (value : bytes) : result sst_row :=
  if is_value type then enc ← extract key value; Ok (Some enc) else Ok None.

(** Membership of the next row id in a bitmap extended with it or not. *)
Lemma row_id_snoc (rows : list sst_row) r (P : sst_row -> Prop) x :
  (0 <= x /\ exists r', (rows ++ [r]) !! Z.to_nat x = Some r' /\ P r') <->
  (x = zlen rows /\ P r) \/ (0 <= x /\ exists r', rows !! Z.to_nat x = Some r' /\ P r').
Proof.
  unfold zlen. split.
  - intros (Hx & r' & Hr & HP). apply snoc_lookup_inv in Hr as [?|[Hj ->]]; [right; eauto|].
    left. split; [lia|done].
  - intros [[-> HP]|(Hx & r' & Hr & HP)].
    + split; [lia|]. exists r. rewrite Nat2Z.id. split; [|done]. by apply list_lookup_middle.
    + split; [done|]. exists r'. split; [by apply lookup_app_l_Some|done].
Qed.

Lemma OnKeyAdded_data rows b enc total L :
  builder_inv rows b -> rows_fit types (rows ++ [Some enc]) L ->
  exists bufs nulls,
  buffer_attrs hash types enc (zlen rows) (attr_buf_ b) (attr_null_rows_ b) = Ok (bufs, nulls) /\
  builder_inv (rows ++ [Some enc])
    {| schema_ := schema_ b; attr_buf_ := bufs; attr_null_rows_ := nulls;
       total_size_uncomp_ := total; data_entries_cnt_ := zlen rows + 1;
       index_entries_cnt_ := index_entries_cnt_ b; distinct_cnts_ := distinct_cnts_ b;
       bitmap_index_ := mkBitmapIndex (bitmaps (bitmap_index_ b))
         (tombstone_bitmap (bitmap_index_ b)) (bitmap_nums (bitmap_index_ b))
         (binning_policy (bitmap_index_ b));
       index_blob_ := index_blob_ b;
       last_finish_bitmap_sizes_ := last_finish_bitmap_sizes_ b |}.
Proof.
  intros [Hty Hcnt Hb Hn Hbuf Hnull Htomb Hemp] Hfit.
  pose proof (fit_width _ _ _ Hfit (Some enc) enc ltac:(set_solver) eq_refl) as Hw.
  destruct (buffer_attrs_spec hash types enc (zlen rows) (attr_buf_ b) (attr_null_rows_ b)
    (fun i => column i rows)) as (bs' & ns' & E & Hl1 & Hl2 & Hb' & Hn'); try done.
  { pose proof (fit_rows _ _ _ Hfit) as Hr. rewrite zlen_snoc in Hr. pose proof (zlen_nonneg rows). unfold is_u32. lia. }
  { intros i _. pose proof (column_length i rows). pose proof (fit_rows _ _ _ Hfit) as Hr.
    rewrite zlen_snoc in Hr. lia. }
  { intros i v Hv. pose proof (fit_len _ _ _ Hfit).
    assert (row_attr i (Some enc) = Some v) as Hrow by (simpl; by rewrite Hv).
    pose proof (fit_bytes _ _ _ Hfit i) as Hby. pose proof (fit_values _ _ _ Hfit i v) as Hvl.
    rewrite column_snoc, Hrow in Hby, Hvl. rewrite concat_app, zlen_app in Hby.
    cbn [concat] in Hby. rewrite app_nil_r in Hby. split.
    - apply Hby. rewrite <- Hw. by eapply lookup_lt_Some.
    - assert (zlen v <= L) by (apply Hvl; set_solver). lia. }
  exists bs', ns'. split; [done|].
  split; cbn [schema_ attr_buf_ attr_null_rows_ data_entries_cnt_ bitmap_index_ tombstone_bitmap bitmaps];
    try done.
  - by rewrite zlen_snoc.
  - intros i t buf Ht Hbi. destruct (lookup_lt_is_Some_2 enc i) as [e He].
    { rewrite Hw. by eapply lookup_lt_Some. }
    specialize (Hb' i t buf e Ht Hbi He). rewrite column_snoc. simpl. rewrite He.
    by destruct e.
  - intros i nl x Hni. assert (i < length types)%nat as Hi by (rewrite <- Hl2; by eapply lookup_lt_Some).
    destruct (lookup_lt_is_Some_2 enc i ltac:(lia)) as [e He].
    destruct (lookup_lt_is_Some_2 (attr_null_rows_ b) i ltac:(lia)) as [nl0 Hn0].
    rewrite (Hn' i e nl0 nl He Hn0 Hni x), orb_true_iff, (Hnull i nl0 x Hn0).
    assert (row_attr i (Some enc) = e) as Hre by (simpl; rewrite He; by destruct e).
    rewrite (row_id_snoc rows (Some enc) (fun r => r <> None /\ row_attr i r = None)), Hre.
    destruct e; rewrite ?Z.eqb_eq; intuition (discriminate || done).
  - intros x. rewrite Htomb, (row_id_snoc rows (Some enc) (fun r => r = None)).
    intuition discriminate.
Qed.

Lemma OnKeyAdded_spec rows b key type value row L :
  builder_inv rows b -> added_row key type value = Ok row -> rows_fit types (rows ++ [row]) L ->
  exists b', OnKeyAdded hash extract key type value b = Ok b' /\ builder_inv (rows ++ [row]) b' /\
    schema_ b' = schema_ b /\ index_blob_ b' = index_blob_ b /\
    index_entries_cnt_ b' = index_entries_cnt_ b.
Proof.
  intros Hinv Hrow Hfit. pose proof Hinv as [Hty Hcnt Hb Hn Hbuf Hnull Htomb Hemp].
  pose proof (fit_rows _ _ _ Hfit) as Hr. rewrite zlen_snoc in Hr. pose proof (zlen_nonneg rows).
  unfold OnKeyAdded, added_row in *. rewrite Hcnt, Hty, (u32_small (zlen rows + 1)) by (unfold is_u32; lia).
  destruct (is_value type).
  - apply result_bind_ok in Hrow as (enc & Hx & [= <-]). rewrite Hx. cbn [mbind result_bind].
    destruct (OnKeyAdded_data rows b enc
      (u64 (u64 (total_size_uncomp_ b + zlen value) + zlen key)) L Hinv Hfit) as (bufs & nulls & E & Hb').
    rewrite E. cbn [mbind result_bind]. eexists. split; [done|]. split; [exact Hb'|done].
  - injection Hrow as <-. cbn [mbind result_bind]. eexists. split; [done|]. split; [|done].
    split; cbn [schema_ attr_buf_ attr_null_rows_ data_entries_cnt_ bitmap_index_ tombstone_bitmap
      bitmaps]; try done.
    + by rewrite zlen_snoc.
    + intros i t buf Ht Hbi. rewrite column_snoc. simpl. rewrite app_nil_r. eauto.
    + intros i nl x Hni. rewrite (Hnull i nl x Hni).
      rewrite (row_id_snoc rows None (fun r => r <> None /\ row_attr i r = None)).
      intuition done.
    + intros x. rewrite contains_add, orb_true_iff, Z.eqb_eq, Htomb by (unfold is_u32; lia).
      rewrite (row_id_snoc rows None (fun r => r = None)). intuition done.
Qed.
End OnKeyAdded.

(** ** Binning *)
Definition sorted_buf_ok (hash : bytes -> Z) (t : IndexType) (b : AttrBuf) (vals : list bytes) : Prop :=
  match t, b with
  | kRange, RgBuf rb => exists gs, bl_repr (r_values rb) vals /\ sorted_ok vals rb gs /\
      bin_of_row rb = []
  | kEquality, EqBuf cb => eq_repr hash cb (distinct_from [] vals) vals
  | _, _ => False
  end.

(** The buffer holds the values, and the local bin of each is the bin its
    policy gives it. *)
Definition binned (t : IndexType) (b : AttrBuf) (p : Policy) (n : Z) (vals : list bytes) : Prop :=
  buffered t b = Ok (zlen vals) /\ forall k v, vals !! k = Some v -> exists bin, local_bin t b (Z.of_nat k) = Ok bin /\
    value_bin p n v bin /\ 0 <= bin < n.

Lemma range_policy_fits vals bs n bins_of :
  range_policy_ok vals bs n bins_of -> 1 <= n -> range_fits bs n vals.
Proof.
  intros [Hc Hs Hf Hl _ _ _] Hn. split; try done.
  - intros v Hv. destruct bs as [|b bs]; [exfalso; zlen0; lia|]. exists b. split; [done|]. eauto.
  - intros v Hv. destruct (last bs) as [b|] eqn:E; [exists b; eauto|].
    apply last_None in E as ->. exfalso. zlen0. lia.
Qed.

Section Policies.
Context `{StdSort} `{!StdSortLaws _} (hash : bytes -> Z).

Lemma cardinalities_spec ts T bs (cols : nat -> list bytes) :
  length bs = length ts ->
  (forall i t b, ts !! i = Some t -> bs !! i = Some b -> buf_ok hash t b (cols i)) ->
  exists bs' cards, cardinalities ts T bs = Ok (bs', cards) /\
    length bs' = length ts /\ length cards = length ts /\ Forall is_u32 cards /\
    (forall i t b, ts !! i = Some t -> bs' !! i = Some b -> sorted_buf_ok hash t b (cols i)).
Proof.
  revert bs cols. induction ts as [|t ts IH]; intros [|b bs] cols Hl Hok; try discriminate.
  { exists [], []. split; [done|]. split; [done|]. split; [done|]. split; [done|]. by intros []. }
  cbn [cardinalities].
  assert (exists b' c, (match t, b with
     | kEquality, EqBuf cb => Ok (EqBuf cb, u32 (zlen (value_by_id cb)))
     | kRange, RgBuf rb => rb' ← Sort rb; Ok (RgBuf rb', u32 (Z.min (r_distinct rb') T))
     | _, _ => Fault BadVariantAccess end) = Ok (b', c) /\ is_u32 c /\
     sorted_buf_ok hash t b' (cols 0%nat)) as (b' & c & E & Hc & Hb').
  { pose proof (Hok 0%nat t b eq_refl eq_refl) as Hb.
    destruct t, b as [cb|rb]; cbn [buf_ok] in Hb; try done.
    - eexists _, _. split; [done|]. split; [apply u32_range|done].
    - destruct (Sort_spec rb _ Hb) as (rb' & gs & E & Hso & Hv & Hbin). rewrite E.
      cbn [mbind result_bind]. eexists _, _. split; [done|]. split; [apply u32_range|].
      exists gs. rewrite Hv. split; [apply Hb|done]. }
  rewrite E. cbn [mbind result_bind].
  destruct (IH bs (fun i => cols (S i))) as (bs' & cards & E' & Hl1 & Hl2 & Hc' & Hbs');
    [by injection Hl|intros i t' b0 Ht Hbi; by apply (Hok (S i))|].
  rewrite E'. cbn [mbind result_bind]. exists (b' :: bs'), (c :: cards).
  split; [done|]. split; [simpl; lia|]. split; [simpl; lia|]. split; [by constructor|].
  intros [|i] t0 b0 Ht Hbi; simpl in *; [by simplify_eq|]. by eapply Hbs'.
Qed.

Lemma eq_distinct cb vals :
  eq_repr hash cb (distinct_from [] vals) vals ->
  zlen (value_by_id cb) = zlen (remove_dups vals).
Proof.
  intros Hb. rewrite (er_refs _ _ _ _ Hb). unfold zlen. rewrite length_refs_of. f_equal.
  apply Permutation_length, NoDup_Permutation; [apply Hb|apply NoDup_remove_dups|].
  intros v. rewrite elem_of_remove_dups. apply (er_values _ _ _ _ Hb).
Qed.

(** One attribute's policy fits its column and bins its rows, and its distinct
    count is exact. *)
Lemma set_policy_spec t n b vals L :
  sorted_buf_ok hash t b vals -> 1 <= n -> 0 <= L -> Forall (fun v => zlen v <= L) vals ->
  (n + 1) * L < 2 ^ 32 -> n + 1 < 2 ^ 32 -> zlen vals < 2 ^ 32 ->
  exists b' p, set_policy t n b = Ok (b', p, zlen (remove_dups vals)) /\
    policy_fits t p n vals /\ binned t b' p n vals.
Proof.
  intros Hb Hn HL0 HL Hcap Hcap2 Hlen. unfold set_policy.
  destruct t, b as [cb|rb]; cbn [sorted_buf_ok] in Hb; try done.
  - set (M := Z.max 1 (zlen vals)).
    destruct (SetEqualityBinningPolicy_spec hash cb _ _ n M Hb Hn) as (policy & cb' & E & Hrow & _ & Hok & _);
      [done|lia|intros v; pose proof (row_count_bound v vals); lia|].
    rewrite E. cbn [mbind result_bind]. rewrite (eq_distinct _ _ Hb).
    eexists _, _. split; [done|].
    destruct Hok as [Hl Hr Hs He]. cbn [policy_fits].
    pose proof (distinct_from_size [] vals) as [Hd _]. zlen0.
    assert (Hvs : forall v, v ∈ vals -> exists id bin, distinct_from [] vals !! id = Some v /\
      bin_by_id cb' !! id = Some bin).
    { intros v Hv. apply (er_values _ _ _ _ Hb), list_elem_of_lookup in Hv as [id Hid].
      destruct (lookup_lt_is_Some_2 (bin_by_id cb') id) as [bin Hbin];
        [rewrite Hl; by eapply lookup_lt_Some|]. eauto. }
    split; [split|split].
    + assert (length policy <= length (distinct_from [] vals))%nat; [|unfold zlen in *; lia].
      rewrite <- (length_map fst policy). apply submseteq_length, NoDup_submseteq.
      * by apply blt_sorted_nodup.
      * intros v Hv. apply list_elem_of_fmap in Hv as ([x y] & -> & Hxy).
        apply He in Hxy as (id & Hid & _). by eapply list_elem_of_lookup_2.
    + done.
    + intros v bin Hin. apply He in Hin as (id & _ & Hbin). by eapply Hr.
    + intros v Hv. destruct (Hvs v Hv) as (id & bin & ? & ?). exists bin. apply He. eauto.
    + cbn [buffered]. rewrite Hrow. unfold zlen. by rewrite (Forall2_length _ _ _ (er_rows _ _ _ _ Hb)).
    + intros k v Hk. pose proof (er_rows _ _ _ _ Hb) as Hrows.
      destruct (Forall2_lookup_r _ _ _ _ _ Hrows Hk) as (id & Hid & Hid0 & Hv).
      destruct (lookup_lt_is_Some_2 (bin_by_id cb') (Z.to_nat id)) as [bin Hbin];
        [rewrite Hl; by eapply lookup_lt_Some|].
      exists bin. cbn [local_bin value_bin]. rewrite Hrow, (zget_nat _ _ _ Hid). cbn [mbind result_bind].
      split; [by apply zget_lookup|]. split; [apply He; eauto|by eapply Hr].
  - destruct Hb as (gs & Hv & Hso & Hbin).
    destruct (SetRangeBinningPolicy_spec vals rb gs n L) as (bl & bs & rb' & E & Hrep & Hok); try done.
    rewrite E. cbn [mbind result_bind]. rewrite (distinct_groups vals rb gs Hv Hso).
    eexists _, _. split; [done|].
    pose proof (range_policy_fits _ _ _ _ Hok Hn) as Hfit. split; [by exists bs|].
    split; [cbn [buffered]; unfold zlen; by rewrite (rp_len _ _ _ _ Hok)|]. intros k v Hk. exists (bin_rule bs n v). cbn [local_bin value_bin].
    split; [apply zget_nat, (rp_bin _ _ _ _ Hok), Hk|]. split; [by exists bs|].
    by apply bin_rule_bounds.
Qed.

Lemma set_policies_spec ts nums bs (cols : nat -> list bytes) L :
  length nums = length ts -> length bs = length ts -> 0 <= L ->
  (forall i t b, ts !! i = Some t -> bs !! i = Some b -> sorted_buf_ok hash t b (cols i)) ->
  (forall i, Forall (fun v => zlen v <= L) (cols i) /\ zlen (cols i) < 2 ^ 32) ->
  Forall (fun n => 1 <= n /\ (n + 1) * L < 2 ^ 32 /\ n + 1 < 2 ^ 32) nums ->
  exists bs' ps, set_policies ts nums bs =
      Ok (bs', ps, map (fun i => zlen (remove_dups (cols i))) (seq 0 (length ts))) /\
    length bs' = length ts /\ length ps = length ts /\
    (forall i t b p n, ts !! i = Some t -> bs' !! i = Some b -> ps !! i = Some p ->
       nums !! i = Some n -> policy_fits t p n (cols i) /\ binned t b p n (cols i)).
Proof.
  revert nums bs cols. induction ts as [|t ts IH];
    intros [|n nums] [|b bs] cols Hl1 Hl2 HL Hok Hcols HF; try discriminate.
  { exists [], []. split; [done|]. split; [done|]. split; [done|]. by intros []. }
  apply Forall_cons in HF as [(Hn1 & Hn2 & Hn3) HF]. cbn [set_policies].
  destruct (Hcols 0%nat) as [Hc1 Hc2].
  destruct (set_policy_spec t n b (cols 0%nat) L) as (b' & p & E & Hfit & Hbin); try done.
  { by apply (Hok 0%nat). }
  rewrite E. cbn [mbind result_bind].
  destruct (IH nums bs (fun i => cols (S i))) as (bs' & ps & E' & Hlb & Hlp & Hall); try done.
  { by injection Hl1. } { by injection Hl2. }
  { intros i t' b0 Ht Hb. by apply (Hok (S i)). }
  rewrite E'. cbn [mbind result_bind]. exists (b' :: bs'), (p :: ps).
  split; [cbn [length seq map]; by rewrite <- seq_shift, map_map|]. split; [simpl; lia|]. split; [simpl; lia|].
  intros [|i] t0 b0 p0 n0 Ht Hb Hp Hn; simpl in *; [by simplify_eq|]. by eapply Hall.
Qed.
End Policies.

(** ** Bitmaps *)
Lemma bl_repr_unique l a b : bl_repr l a -> bl_repr l b -> a = b.
Proof.
  intros Ha%read_all_repr Hb%read_all_repr. congruence.
Qed.

Lemma value_bin_unique t p n vals v b b' :
  policy_fits t p n vals -> value_bin p n v b -> value_bin p n v b' -> b = b'.
Proof.
  destruct t, p as [bl|es]; cbn [policy_fits value_bin]; try done.
  - intros Hf H1 H2. pose proof (blt_sorted_nodup _ (ef_sorted _ _ _ Hf)) as Hnd.
    apply list_elem_of_lookup in H1 as [i Hi], H2 as [j Hj].
    assert (i = j) as ->; [|congruence].
    eapply (NoDup_lookup (map fst es)); [done|..]; by rewrite list_lookup_fmap, ?Hi, ?Hj.
  - intros _ (bs & H1 & ->) (bs' & H2 & ->). by rewrite (bl_repr_unique _ _ _ H1 H2).
Qed.

(** The ids of the rows without a value of attribute [i]. *)
Fixpoint none_ids (i : nat) (j : Z) (rows : list sst_row) : list Z :=
  match rows with
  | [] => []
  | r :: rest => (match row_attr i r with None => [j] | Some _ => [] end) ++ none_ids i (j + 1) rest
  end.

Lemma none_ids_app i j a b : none_ids i j (a ++ b) = none_ids i j a ++ none_ids i (j + zlen a) b.
Proof.
  revert j. induction a as [|r a IH]; intros j; cbn [app none_ids].
  - zlen0. by rewrite Z.add_0_r.
  - rewrite IH, <- app_assoc, zlen_cons. do 3 f_equal. lia.
Qed.

Lemma none_ids_elem i j rows x :
  x ∈ none_ids i j rows <->
  j <= x /\ exists r, rows !! Z.to_nat (x - j) = Some r /\ row_attr i r = None.
Proof.
  revert j. induction rows as [|r rows IH]; intros j; cbn [none_ids].
  - rewrite elem_of_nil. split; [done|]. by intros (_ & r & ? & _).
  - rewrite elem_of_app, IH. split.
    + intros [Hx|(Hx & r' & Hr & Hn)].
      * destruct (row_attr i r) eqn:E; [by apply elem_of_nil in Hx|].
        apply list_elem_of_singleton in Hx as ->. split; [lia|]. exists r.
        by rewrite Z.sub_diag.
      * split; [lia|]. exists r'. split; [|done].
        by replace (Z.to_nat (x - j)) with (S (Z.to_nat (x - (j + 1)))) by lia.
    + intros (Hx & r' & Hr & Hn). destruct (decide (x = j)) as [->|].
      * left. rewrite Z.sub_diag in Hr. injection Hr as ->. rewrite Hn. by left.
      * right. split; [lia|]. exists r'. split; [|done].
        by replace (Z.to_nat (x - j)) with (S (Z.to_nat (x - (j + 1)))) in Hr by lia.
Qed.

Lemma none_ids_sorted i j rows : StronglySorted Z.lt (none_ids i j rows).
Proof.
  revert j. induction rows as [|r rows IH]; intros j; cbn [none_ids]; [constructor|].
  destruct (row_attr i r); [apply IH|]. simpl. constructor; [apply IH|].
  apply Forall_forall. intros x Hx. apply none_ids_elem in Hx as [? _]. lia.
Qed.

Lemma sorted_lt_unique (a b : list Z) :
  StronglySorted Z.lt a -> StronglySorted Z.lt b -> (forall x, x ∈ a <-> x ∈ b) -> a = b.
Proof.
  assert (forall l, StronglySorted Z.lt l -> NoDup l) as Hnd.
  { induction 1 as [|x l _ IH Hx]; constructor; [|done]. intros Hin.
    rewrite Forall_forall in Hx. specialize (Hx x Hin). lia. }
  assert (AntiSymm (=) Z.lt) by (intros x y ? ?; lia).
  intros Ha Hb Hab. apply (StronglySorted_unique Z.lt); try done.
  apply NoDup_Permutation; auto.
Qed.

Section FillBins.
Context `{RoaringOps} `{!RoaringLaws _}.
Context (rows : list sst_row) (i : nat) (t : IndexType) (b : AttrBuf) (p : Policy) (n off : Z).
Context (Hfit : policy_fits t p n (column i rows)) (Hbin : binned t b p n (column i rows)).
Context (Hoff : 0 <= off) (Hids : zlen rows < 2 ^ 32).

(** Row [x] of [rest] (whose first row has id [j]) belongs to flat bin [q]. *)
Definition in_bin (rest : list sst_row) (j : Z) (q : nat) (x : Z) : Prop :=
  j <= x /\ exists r v k, rest !! Z.to_nat (x - j) = Some r /\ row_attr i r = Some v /\
    value_bin p n v k /\ 0 <= k < n /\ Z.of_nat q = off + k.

Lemma in_bin_cons r rest j q x :
  in_bin (r :: rest) j q x <->
  (x = j /\ exists v k, row_attr i r = Some v /\ value_bin p n v k /\ 0 <= k < n /\ Z.of_nat q = off + k) \/
  in_bin rest (j + 1) q x.
Proof.
  unfold in_bin. split.
  - intros (Hx & r' & v & k & Hr & Hrest). destruct (decide (x = j)) as [->|].
    + left. split; [done|]. rewrite Z.sub_diag in Hr. injection Hr as <-. eauto.
    + right. split; [lia|]. exists r', v, k. split; [|done].
      by replace (Z.to_nat (x - j)) with (S (Z.to_nat (x - (j + 1)))) in Hr by lia.
  - intros [[-> (v & k & Hrest)]|(Hx & r' & v & k & Hr & Hrest)].
    + split; [lia|]. exists r, v, k. by rewrite Z.sub_diag.
    + split; [lia|]. exists r', v, k. split; [|done].
      by replace (Z.to_nat (x - j)) with (S (Z.to_nat (x - (j + 1)))) by lia.
Qed.

(** The loop's test whether the row at hand was skipped. *)
Lemma skip_test pre r rest : rows = pre ++ r :: rest ->
  (if zlen (none_ids i 0 pre) <? zlen (none_ids i 0 rows)
   then x ← zget (none_ids i 0 rows) (zlen (none_ids i 0 pre)); Ok (x =? zlen pre)
   else Ok false) = Ok (match row_attr i r with Some _ => false | None => true end).
Proof.
  intros Erows. assert (none_ids i 0 rows = none_ids i 0 pre ++ none_ids i (zlen pre) (r :: rest)) as ->
    by (by rewrite Erows, none_ids_app, Z.add_0_l).
  set (l := none_ids i (zlen pre) (r :: rest)). rewrite zlen_app. destruct (Z.ltb_spec (zlen (none_ids i 0 pre)) (zlen (none_ids i 0 pre) + zlen l)) as [Hlt|Hge].
  - destruct (lookup_lt_is_Some_2 l 0) as [x Hx]; [unfold zlen in Hlt; lia|].
    change (zlen (none_ids i 0 pre)) with (Z.of_nat (length (none_ids i 0 pre))).
    rewrite (zget_nat _ _ x) by (by rewrite lookup_app_r, Nat.sub_diag by lia). cbn [mbind result_bind]. f_equal.
    unfold l in Hx. cbn [none_ids] in Hx. destruct (row_attr i r).
    + apply list_elem_of_lookup_2, none_ids_elem in Hx as [Hx _]. apply Z.eqb_neq. lia.
    + injection Hx as <-. apply Z.eqb_refl.
  - destruct (row_attr i r) eqn:Er; [done|]. unfold l in Hge. cbn [none_ids] in Hge. rewrite Er in Hge. cbn [app] in Hge. rewrite zlen_cons in Hge.
    pose proof (zlen_nonneg (none_ids i (zlen pre + 1) rest)). lia.
Qed.

(** [bms'] has, besides the members of [bms], the rows of [rest]. *)
Definition filled_from (rest : list sst_row) (j : Z) (bms bms' : list Roaring) : Prop :=
  length bms' = length bms /\
  forall q bm', bms' !! q = Some bm' -> exists bm, bms !! q = Some bm /\
    forall x, r_contains bm' x = true <-> r_contains bm x = true \/ in_bin rest j q x.

Lemma filled_from_skip r rest j bms bms' : row_attr i r = None -> filled_from rest (j + 1) bms bms' -> filled_from (r :: rest) j bms bms'.
Proof.
  intros Er [Hl Hc]. split; [done|]. intros q bm' Hq. destruct (Hc q bm' Hq) as (bm & Hb & Hx). exists bm. split; [done|].
  intros x. rewrite Hx, in_bin_cons. split; [tauto|]. intros [?|[[_ (v & k & Hv & _)]|?]]; [tauto|congruence|tauto].
Qed.
Lemma filled_from_add r rest j bms bms' v bin bm :
  is_u32 j -> row_attr i r = Some v -> value_bin p n v bin -> 0 <= bin < n -> bms !! Z.to_nat (off + bin) = Some bm ->
  filled_from rest (j + 1) (<[Z.to_nat (off + bin) := r_add bm j]> bms) bms' -> filled_from (r :: rest) j bms bms'.
Proof.
  intros Hj Er Hvb Hrange Hbm [Hl Hc]. split; [rewrite Hl; apply length_insert|].
  intros q bm' Hq. destruct (Hc q bm' Hq) as (bm1 & Hb1 & Hx). destruct (decide (q = Z.to_nat (off + bin))) as [->|Hne].
  - exists bm. split; [done|]. rewrite list_lookup_insert_eq in Hb1 by (by eapply lookup_lt_Some). injection Hb1 as <-.
    intros x. rewrite Hx, in_bin_cons, contains_add, orb_true_iff, Z.eqb_eq by done.
    split; [intros [[->|?]|?]|intros [?|[[-> _]|?]]]; try tauto.
    right. left. split; [done|]. exists v, bin. split; [done|]. split; [done|]. split; [done|]. lia.
  - exists bm1. rewrite list_lookup_insert_ne in Hb1 by done. split; [done|]. intros x. rewrite Hx, in_bin_cons. split; [tauto|].
    intros [?|[[-> (v' & k & Hv' & Hvb' & Hk & Hq')]|?]]; [tauto| |tauto].
    exfalso. apply Hne. assert (v' = v) as -> by congruence.
    rewrite (value_bin_unique t p n _ v k bin Hfit Hvb' Hvb) in Hq'. lia.
Qed.

Lemma fill_bins_spec pre rest bms :
  rows = pre ++ rest -> off + n <= zlen bms ->
  exists bms', fill_bins t b n off (none_ids i 0 rows) (length rest) (zlen pre)
      (zlen (none_ids i 0 pre)) (zlen (column i pre)) bms = Ok bms' /\ filled_from rest (zlen pre) bms bms'.
Proof.
  revert pre bms. induction rest as [|r rest IH]; intros pre bms Erows Hlen.
  { exists bms. cbn [length fill_bins]. rewrite (proj1 Hbin). cbn [mbind result_bind]. rewrite Erows, app_nil_r, Z.eqb_refl.
    split; [done|]. split; [done|]. intros q bm' Hq. exists bm'. split; [done|].
    intros x. split; [by left|]. intros [?|(_ & r & ? & ? & ? & _)]; done. }
  cbn [length fill_bins]. rewrite (skip_test pre r rest Erows). cbn [mbind result_bind].
  assert (rows = (pre ++ [r]) ++ rest) as Erows' by (by rewrite Erows, <- app_assoc).
  destruct (row_attr i r) as [v|] eqn:Er.
  - assert (column i rows !! length (column i pre) = Some v) as Hcol.
    { rewrite Erows. unfold column. rewrite omap_app. fold (column i pre).
      rewrite lookup_app_r, Nat.sub_diag by lia. fold (column i (r :: rest)). by rewrite column_cons, Er. }
    destruct (proj2 Hbin _ _ Hcol) as (bin & Ebin & Hvb & Hrange).
    change (zlen (column i pre)) with (Z.of_nat (length (column i pre))). rewrite Ebin. cbn [mbind result_bind].
    rewrite (proj2 (Z.leb_gt _ _)) by lia.
    destruct (lookup_lt_is_Some_2 bms (Z.to_nat (off + bin))) as [bm Hbm]; [unfold zlen in Hlen; lia|].
    rewrite (proj2 (zget_lookup bms (off + bin) bm)) by (split; [lia|done]). cbn [mbind result_bind].
    rewrite zset_okZ by (try lia; by eapply lookup_lt_Some). cbn [mbind result_bind]. set (bms1 := <[_ := _]> bms).
    destruct (IH (pre ++ [r]) bms1 Erows') as (bms' & E & Hf); [unfold zlen, bms1 in *; by rewrite length_insert|].
    rewrite zlen_snoc, none_ids_app, column_snoc in E. cbn [none_ids] in E. rewrite Er, app_nil_r, zlen_snoc in E.
    exists bms'. split; [exact E|]. rewrite zlen_snoc in Hf. eapply filled_from_add; try done.
    rewrite Erows, zlen_app, zlen_cons in Hids. pose proof (zlen_nonneg pre). pose proof (zlen_nonneg rest). unfold is_u32. lia.
  - destruct (IH (pre ++ [r]) bms Erows' Hlen) as (bms' & E & Hf).
    rewrite zlen_snoc, none_ids_app, column_snoc in E. cbn [none_ids] in E. rewrite Er in E. cbn [app] in E.
    rewrite zlen_snoc, app_nil_r in E. exists bms'. split; [exact E|]. rewrite zlen_snoc in Hf. by apply filled_from_skip.
Qed.
End FillBins.

Lemma bin_offset_succ nums i n : nums !! i = Some n -> bin_offset nums (S i) = bin_offset nums i + n.
Proof.
  intros H. unfold bin_offset. rewrite (take_S_r _ _ _ H), zsum_app. unfold zsum. simpl. lia.
Qed.

Lemma bin_offset_mono nums i j :
  Forall (fun x => 1 <= x) nums -> (i <= j)%nat -> bin_offset nums i <= bin_offset nums j.
Proof.
  intros Hp Hij. unfold bin_offset. rewrite <- (take_drop i (take j nums)), take_take, zsum_app.
  rewrite Nat.min_l by done.
  assert (0 <= zsum (drop i (take j nums))); [|lia]. apply zsum_nonneg.
  by apply Forall_drop, Forall_take.
Qed.

Section FillAttrs.
Context `{RoaringOps} `{!RoaringLaws _}.
Context (types : list IndexType) (rows : list sst_row) (bufs : list AttrBuf) (nulls : list Roaring).
Context (nums : list Z) (ps : list Policy) (tomb : Roaring).
Context (Hids : zlen rows < 2 ^ 32).
Context (Hl1 : length bufs = length types) (Hl2 : length nulls = length types).
Context (Hl3 : length nums = length types) (Hl4 : length ps = length types).
Context (Hpos : Forall (fun n => 1 <= n) nums) (Htot : zsum nums < 2 ^ 32).
Context (Hall : forall i t b p n, types !! i = Some t -> bufs !! i = Some b -> ps !! i = Some p ->
  nums !! i = Some n -> policy_fits t p n (column i rows) /\ binned t b p n (column i rows)).
Context (Hnull : forall i nl x, nulls !! i = Some nl -> r_contains nl x = true <->
  0 <= x /\ exists r, rows !! Z.to_nat x = Some r /\ (r <> None /\ row_attr i r = None)).
Context (Htomb : forall x, r_contains tomb x = true <->
  0 <= x /\ exists r, rows !! Z.to_nat x = Some r /\ r = None).

(** The skipped ids are the rows without a value. *)
Lemma skip_ids_spec i nl :
  nulls !! i = Some nl -> r_toUint32Array (r_or nl tomb) = none_ids i 0 rows.
Proof.
  intros Hn. apply sorted_lt_unique; [apply array_sorted|apply none_ids_sorted|].
  intros x. rewrite array_contains, contains_or, orb_true_iff, (Hnull i nl x Hn), Htomb.
  rewrite none_ids_elem, Z.sub_0_r. split.
  - intros [(Hx & r & Hr & _ & Hra)|(Hx & r & Hr & ->)]; eauto.
  - intros (Hx & [enc|] & Hr & Hra); [left|right]; (split; [done|]); eexists; eauto.
Qed.

(** Which rows the first [i0] attributes put into each flat bin. *)
Definition filled (i0 : nat) (bms : list Roaring) : Prop :=
  forall q bm x, bms !! q = Some bm -> r_contains bm x = true <->
    exists i p n, (i < i0)%nat /\ ps !! i = Some p /\ nums !! i = Some n /\
      in_bin i p n (bin_offset nums i) rows 0 q x.

Lemma fill_attrs_spec m i0 bms :
  (i0 + m = length types)%nat -> filled i0 bms -> zlen bms = zsum nums ->
  exists bms', fill_attrs (drop i0 types) (drop i0 bufs) (drop i0 nulls) (drop i0 nums) tomb
      (zlen rows) (bin_offset nums i0) bms = Ok bms' /\
    length bms' = length bms /\ filled (length types) bms'.
Proof.
  revert i0 bms. induction m as [|m IH]; intros i0 bms Hi Hf Hlen.
  { rewrite (drop_ge types) by lia. exists bms. split; [done|]. split; [done|].
    by replace (length types) with i0 by lia. }
  destruct (lookup_lt_is_Some_2 types i0) as [t Ht]; [lia|].
  destruct (lookup_lt_is_Some_2 bufs i0) as [b Hb]; [lia|].
  destruct (lookup_lt_is_Some_2 nulls i0) as [nl Hn]; [lia|].
  destruct (lookup_lt_is_Some_2 nums i0) as [n Hnum]; [lia|].
  destruct (lookup_lt_is_Some_2 ps i0) as [p Hp]; [lia|].
  rewrite (drop_S _ _ _ Ht), (drop_S _ _ _ Hb), (drop_S _ _ _ Hn), (drop_S _ _ _ Hnum).
  cbn [fill_attrs]. rewrite (skip_ids_spec i0 nl Hn).
  destruct (Hall i0 t b p n Ht Hb Hp Hnum) as [Hfit Hbin].
  pose proof (bin_offset_bound nums i0 n) as Hoff. rewrite Forall_lookup in Hpos.
  destruct (Hoff Hpos Hnum) as [Ho1 Ho2].
  pose proof (fill_bins_spec rows i0 t b p n (bin_offset nums i0) Hfit Hbin Ho1 Hids [] rows bms
    eq_refl ltac:(lia)) as (bms1 & E & Hl & Hc).
  cbn [none_ids] in E. change (column i0 []) with (@nil bytes) in E. zlen0.
  replace (Z.to_nat (zlen rows)) with (length rows) by (unfold zlen; lia).
  rewrite E. cbn [mbind result_bind].
  assert (1 <= n) by eauto.
  rewrite u32_small by (unfold is_u32; lia). rewrite <- (bin_offset_succ nums i0 n Hnum).
  destruct (IH (S i0) bms1) as (bms' & E' & Hl' & Hf').
  - lia.
  - intros q bm' x Hq. destruct (Hc q bm' Hq) as (bm & Hbm & Hx). rewrite Hx, (Hf q bm x Hbm). split.
    + intros [(i & p' & n' & Hi' & Hrest)|Hin]; [exists i, p', n'; split; [lia|done]|].
      exists i0, p, n. split; [lia|done].
    + intros (i & p' & n' & Hi' & Hp' & Hn' & Hin). destruct (decide (i = i0)) as [->|].
      * right. by simplify_eq.
      * left. exists i, p', n'. split; [lia|done].
  - unfold zlen in *. congruence.
  - exists bms'. split; [done|]. split; [congruence|done].
Qed.

(** The filled bitmaps with their policies satisfy the contract. *)
Lemma filled_index_ok bms :
  filled (length types) bms -> zlen bms = zsum nums -> zsum nums < 2 ^ 31 - 1 ->
  index_ok types rows (mkBitmapIndex bms tomb nums ps).
Proof.
  intros Hf Hlen Htot'. rewrite Forall_lookup in Hpos.
  split; cbn [bitmaps tombstone_bitmap bitmap_nums binning_policy]; try done.
  - intros i t p b Ht Hp Hb. destruct (lookup_lt_is_Some_2 bufs i) as [buf Hbuf].
    { rewrite Hl1. by eapply lookup_lt_Some. }
    by apply (Hall i t buf p b).
  - intros i p n bm j r k Hp Hn Hk Hq Hj. rewrite (Hf _ _ _ Hq).
    destruct (bin_offset_bound nums i n Hpos Hn) as [Ho _]. split.
    + intros (i' & p' & n' & Hi' & Hp' & Hn' & _ & r' & v & k' & Hr & Hv & Hvb & Hk' & Hq').
      rewrite Z.sub_0_r, Nat2Z.id in Hr. rewrite Z2Nat.id in Hq' by lia.
      assert (i' = i) as ->.
      { pose proof (fun a b => bin_offset_mono nums a b (proj2 (Forall_lookup _ _) Hpos)) as Hm.
        destruct (lt_eq_lt_dec i' i) as [[Hlt| ->]|Hlt]; [|done|].
        - pose proof (Hm (S i') i Hlt). rewrite (bin_offset_succ nums i' n' Hn') in *. lia.
        - pose proof (Hm (S i) i' Hlt). rewrite (bin_offset_succ nums i n Hn) in *. lia. }
      simplify_eq. exists v. split; [done|]. by replace k with k' by lia.
    + intros (v & Hv & Hvb). exists i, p, n. split; [rewrite <- Hl4; by eapply lookup_lt_Some|].
      split; [done|]. split; [done|]. split; [lia|]. exists r, v, k.
      rewrite Z.sub_0_r, Nat2Z.id, Z2Nat.id by lia. done.
  - intros q bm x Hq Hx. apply (Hf _ _ _ Hq) in Hx as (i & p & n & _ & _ & _ & Hx & r & _ & _ & Hr & _).
    split; [done|]. apply lookup_lt_Some in Hr. unfold zlen. lia.
  - intros x. rewrite Htomb. split.
    + intros (Hx & r & Hr & ->). done.
    + intros [Hx Hr]. split; [done|]. eauto.
Qed.
End FillAttrs.

(** ** From rows to an index *)
Definition distinct_of (types : list IndexType) (rows : list sst_row) : list Z :=
  map (fun i => zlen (remove_dups (column i rows))) (seq 0 (length types)).

Section BuildIndex.
Context `{RoaringOps} `{!RoaringLaws _} `{StdSort} `{!StdSortLaws _} (hash : bytes -> Z).

Lemma build_index_spec types rows b T L :
  builder_inv hash types rows b -> rows_fit types rows L ->
  target_bitmaps (schema_attr_num (schema_ b)) (schema_rho (schema_ b)) = Ok T ->
  0 <= T -> Z.max T (zlen types) < 2 ^ 31 - 1 -> (Z.max T (zlen types) + 1) * L < 2 ^ 32 ->
  exists b1 b2, SetBinningPolicy b = Ok b1 /\ CalculateBitmapIndex b1 = Ok b2 /\
    index_ok types rows (bitmap_index_ b2) /\ schema_ b2 = schema_ b /\
    index_blob_ b2 = index_blob_ b /\ index_entries_cnt_ b2 = index_entries_cnt_ b /\
    distinct_cnts_ b2 = distinct_of types rows.
Proof.
  intros [Hty Hcnt Hlb Hln Hbuf Hnull Htomb Hemp] Hfit HT HT0 Hmax HcapL.
  pose proof (zlen_nonneg types) as Hz. pose proof (fit_len _ _ _ Hfit) as HL.
  unfold SetBinningPolicy. rewrite HT, Hty. cbn [mbind result_bind].
  destruct (cardinalities_spec hash types T (attr_buf_ b) (fun i => column i rows) Hlb Hbuf)
    as (bs & cards & Ec & Hl1 & Hl2 & Hu32 & Hsb).
  rewrite Ec. cbn [mbind result_bind].
  assert (zlen cards = zlen types) as Hzc by (unfold zlen; lia).
  destruct (allocate_bitmaps_spec T cards) as (nums & total & Ea & Hln' & Htot & Hrange & Hle & _);
    [lia|lia|done|].
  rewrite Ea. cbn [mbind result_bind].
  assert (Forall (fun n => 1 <= n) nums) as Hpos.
  { apply Forall_lookup. intros i n Hn. destruct (lookup_lt_is_Some_2 cards i) as [c Hc].
    { rewrite <- Hln'. by eapply lookup_lt_Some. }
    by apply (Hrange i n c). }
  assert (Forall (fun n => 1 <= n /\ (n + 1) * L < 2 ^ 32 /\ n + 1 < 2 ^ 32) nums) as Hcaps.
  { apply Forall_lookup. intros i n Hn. rewrite Forall_lookup in Hpos.
    destruct (bin_offset_bound nums i n Hpos Hn) as [Ho1 Ho2]. specialize (Hpos i n Hn).
    split; [done|]. split; [|lia]. assert (n <= Z.max T (zlen types)) by lia. nia. }
  destruct (set_policies_spec hash types nums bs (fun i => column i rows) L) as (bs' & ps & Ep & Hlb' & Hlp & Hall);
    [lia|lia|lia|done| |done|].
  { intros i. split.
    - apply Forall_forall. intros v Hv. by eapply fit_values.
    - pose proof (column_length i rows). pose proof (fit_rows _ _ _ Hfit). lia. }
  rewrite Ep. cbn [mbind result_bind]. 
  match goal with |- exists b1 b2, Ok ?x = Ok b1 /\ _ => exists x end.
  unfold CalculateBitmapIndex.
  cbn [schema_ attr_buf_ attr_null_rows_ bitmap_index_ bitmap_nums tombstone_bitmap data_entries_cnt_ bitmaps].
  rewrite Hty, Hcnt, Hemp.
  assert (zsum nums < 2 ^ 31 - 1) as Hs31 by lia.
  assert (0 <= total) as Htot0 by (rewrite Htot; by apply zsum_nonneg).
  set (bms0 := zresize [] total r_empty).
  assert (zlen bms0 = zsum nums) as Hz0 by (unfold bms0; rewrite zresize_length by done; done).
  destruct (fill_attrs_spec types rows bs' (attr_null_rows_ b) nums ps
    (tombstone_bitmap (bitmap_index_ b)) (fit_rows _ _ _ Hfit) Hlb' Hln ltac:(lia) Hlp Hpos ltac:(lia) Hall Hnull Htomb
    (length types) 0 bms0) as (bms & Ef & Hlf & Hfill); [lia| |done|].
  { intros q bm x Hq. split.
    - intros Hx. exfalso. unfold bms0, zresize in Hq. rewrite resize_nil in Hq.
      apply lookup_replicate in Hq as [-> _]. by rewrite contains_empty in Hx.
    - intros (i & p & n & Hi & _). lia. }
  rewrite !drop_0 in Ef. change (bin_offset nums 0) with 0 in Ef.
  rewrite Ef. cbn [mbind result_bind]. eexists. split; [done|]. split; [done|].
  split; [|done]. cbn [bitmap_index_ binning_policy].
  eapply (filled_index_ok types rows bs'); try done; try lia.
  unfold zlen in *. lia.
Qed.
End BuildIndex.
