(* ===== verification/BlobSpec.v ===== *)
(** * The index blob: written by the builder, read back by the reader

    [SABIBuilder::Finish] against [SABIReader]'s constructor and
    [SABIFactory::NewReader]: the wire layout documented in [sabi.h], piece by
    piece. *)
From Stdlib Require Import ZArith Lia Strings.Byte Strings.String Sorting.Sorted.
From stdpp Require Import base numbers strings list sets sorting.
From S2P Require Import Prelude Floats Options Row Okey BytesList Externals Intern.
From S2P Require Import RangeBuf Binning Builder Reader Index BuilderSpec.

(** ** Alignment *)
Lemma align32_spec off : 0 <= off -> off + 31 < 2 ^ 32 -> off <= align32 off < off + 32.
Proof.
  intros H0 H1. unfold align32. rewrite u32_small by (unfold is_u32; lia).
  change (u32 (Z.lnot 31)) with (Z.land (Z.lnot (Z.ones 5)) (Z.ones 32)).
  rewrite (Z.land_comm (Z.lnot _)), Z.land_assoc, Z.land_ones by lia.
  rewrite Z.mod_small by lia. rewrite <- Z.ldiff_land, Z.ldiff_ones_r by lia.
  rewrite Z.shiftl_mul_pow2, Z.shiftr_div_pow2 by lia. change (2 ^ 5) with 32.
  pose proof (Z.div_mod (off + 31) 32 ltac:(lia)).
  pose proof (Z.mod_pos_bound (off + 31) 32 ltac:(lia)). lia.
Qed.

Section Pieces.
Context `{Coding} `{!CodingLaws _}.

Definition fixed32s (l : list Z) : bytes := concat (map Fixed32 l).
Definition fixed64s (l : list Z) : bytes := concat (map Fixed64 l).

Lemma zlen_fixed32s l : zlen (fixed32s l) = 4 * zlen l.
Proof.
  unfold fixed32s. induction l as [|x l IH]; [done|]. cbn [map concat].
  rewrite zlen_app, zlen_cons, zlen_Fixed32, IH. lia.
Qed.
Lemma zlen_fixed64s l : zlen (fixed64s l) = 8 * zlen l.
Proof.
  unfold fixed64s. induction l as [|x l IH]; [done|]. cbn [map concat].
  rewrite zlen_app, zlen_cons, zlen_Fixed64, IH. lia.
Qed.

Lemma PutFixed32_eq blob v : is_u32 v -> PutFixed32 blob v = blob ++ Fixed32 v.
Proof. intros Hv. unfold PutFixed32. by rewrite u32_small. Qed.

Lemma put32s_eq l blob : Forall is_u32 l -> put32s l blob = blob ++ fixed32s l.
Proof.
  unfold put32s, fixed32s. intros Hl. revert blob.
  induction Hl as [|x l Hx _ IH]; intros blob; cbn [fold_left map concat]; [by rewrite app_nil_r|].
  by rewrite IH, PutFixed32_eq, <- app_assoc.
Qed.
Lemma put64s_eq l blob : Forall is_u64 l -> put64s l blob = blob ++ fixed64s l.
Proof.
  unfold put64s, fixed64s. intros Hl. revert blob.
  induction Hl as [|x l Hx _ IH]; intros blob; cbn [fold_left map concat]; [by rewrite app_nil_r|].
  unfold PutFixed64 at 2. by rewrite IH, u64_small, <- app_assoc.
Qed.

(** Reading a piece at its offset. *)
Lemma Decode32At_piece base pre v post off :
  base = pre ++ Fixed32 v ++ post -> off = zlen pre -> is_u32 v -> Decode32At base off = Ok v.
Proof.
  intros -> -> Hv. unfold Decode32At. rewrite zsub_app by (by rewrite ?zlen_Fixed32).
  cbn [mbind result_bind]. by rewrite DecodeFixed32_inv.
Qed.

Lemma decode32s_piece l base pre post off :
  base = pre ++ fixed32s l ++ post -> off = zlen pre -> Forall is_u32 l ->
  decode32s (length l) base off = Ok l.
Proof.
  intros Hb -> Hl. revert pre Hb. induction Hl as [|x l Hx _ IH]; intros pre Hb; [done|].
  cbn [length decode32s]. unfold fixed32s in Hb. cbn [map concat] in Hb.
  rewrite (Decode32At_piece base pre x (fixed32s l ++ post)); [|by rewrite Hb, <- app_assoc|done|done].
  cbn [mbind result_bind]. specialize (IH (pre ++ Fixed32 x)).
  rewrite zlen_app, zlen_Fixed32 in IH. rewrite IH; [done|].
  by rewrite Hb, <- !app_assoc.
Qed.
Lemma decode64s_piece l base pre post off :
  base = pre ++ fixed64s l ++ post -> off = zlen pre -> Forall is_u64 l ->
  decode64s (length l) base off = Ok l.
Proof.
  intros Hb -> Hl. revert pre Hb. induction Hl as [|x l Hx _ IH]; intros pre Hb; [done|].
  cbn [length decode64s]. unfold fixed64s in Hb. cbn [map concat] in Hb. unfold Decode64At.
  rewrite Hb at 1. rewrite <- !app_assoc, zsub_app by (by rewrite ?zlen_Fixed64).
  cbn [mbind result_bind]. rewrite DecodeFixed64_inv by done. specialize (IH (pre ++ Fixed64 x)).
  rewrite zlen_app, zlen_Fixed64 in IH. rewrite IH; [done|].
  by rewrite Hb, <- !app_assoc.
Qed.

Lemma zget_piece {A} (base pre : list A) x post off :
  base = pre ++ x :: post -> off = zlen pre -> zget base off = Ok x.
Proof. intros -> ->. apply zget_nat. by apply list_lookup_middle. Qed.

Lemma drop_piece {A} (base pre rest : list A) off :
  base = pre ++ rest -> off = zlen pre -> drop (Z.to_nat off) base = rest.
Proof. intros -> ->. unfold zlen. rewrite Nat2Z.id. apply drop_app_length. Qed.

Definition type_bytes (ts : list IndexType) : bytes := map (fun t => z2b (IndexType_byte t)) ts.

Lemma type_of_byte_inv t : type_of_byte (z2b (IndexType_byte t)) = Ok t.
Proof. by destruct t. Qed.

Lemma decode_types_piece ts base pre post off :
  base = pre ++ type_bytes ts ++ post -> off = zlen pre -> decode_types (length ts) base off = Ok ts.
Proof.
  intros Hb ->. revert pre Hb. induction ts as [|t ts IH]; intros pre Hb; [done|].
  cbn [length decode_types]. unfold type_bytes in Hb. cbn [map] in Hb.
  rewrite (zget_piece base pre (z2b (IndexType_byte t)) (type_bytes ts ++ post)) by done.
  cbn [mbind result_bind]. rewrite type_of_byte_inv. cbn [mbind result_bind].
  specialize (IH (pre ++ [z2b (IndexType_byte t)])). rewrite zlen_snoc in IH.
  rewrite IH; [done|]. by rewrite Hb, <- app_assoc.
Qed.

(** *** Policies *)
Definition entry_bytes (e : bytes * Z) : bytes :=
  Varint32 (zlen (fst e)) ++ fst e ++ Fixed32 (snd e).
Definition policy_bytes (p : Policy) : bytes :=
  match p with
  | RangePolicy bl => Serialize bl []
  | EqualityPolicy es => Fixed32 (zlen es) ++ concat (map entry_bytes es)
  end.
Definition policy_wire_ok (t : IndexType) (p : Policy) : Prop :=
  match t, p with
  | kRange, RangePolicy bl => exists bs, bl_repr bl bs
  | kEquality, EqualityPolicy es =>
      zlen es < 2 ^ 32 /\ Forall (fun e => is_u32 (snd e) /\ zlen (fst e) < 2 ^ 32) es
  | _, _ => False
  end.

Lemma Serialize_app bl out : Serialize bl out = out ++ Serialize bl [].
Proof. done. Qed.

Lemma put_policy_eq t p blob :
  policy_wire_ok t p -> put_policy t p blob = Ok (blob ++ policy_bytes p).
Proof.
  destruct t, p as [bl|es]; cbn [policy_wire_ok put_policy policy_bytes]; try done.
  intros [Hn Hes].
  rewrite PutFixed32_eq by (pose proof (zlen_nonneg es); unfold is_u32; lia). f_equal.
  rewrite app_assoc. generalize (blob ++ Fixed32 (zlen es)) as acc. clear Hn.
  induction Hes as [|e es [He1 He2] _ IH]; intros acc; cbn [fold_left map concat]; [by rewrite app_nil_r|].
  rewrite IH, PutFixed32_eq by done. unfold PutLengthPrefixedSlice, entry_bytes.
  pose proof (zlen_nonneg (fst e)). rewrite u32_small by (unfold is_u32; lia).
  by rewrite <- !app_assoc.
Qed.

Lemma decode_entries_piece es base pre post off :
  base = pre ++ concat (map entry_bytes es) ++ post -> off = zlen pre ->
  Forall (fun e => is_u32 (snd e) /\ zlen (fst e) < 2 ^ 32) es ->
  decode_entries (length es) base off = Ok es.
Proof.
  intros Hb -> Hes. revert pre Hb. induction Hes as [|[k bin] es [He1 He2] _ IH]; intros pre Hb; [done|].
  cbn [length decode_entries]. cbn [map concat] in Hb. unfold entry_bytes at 1 in Hb.
  cbn [fst snd] in *. rewrite <- !app_assoc in Hb. pose proof (zlen_nonneg k).
  rewrite (drop_piece base pre _ _ Hb eq_refl).
  rewrite GetVarint32Ptr_inv by (unfold is_u32; lia). cbn [get_or mbind result_bind].
  assert (zsub base (zlen pre + zlen (Varint32 (zlen k))) (zlen k) = Ok k) as ->.
  { rewrite Hb, app_assoc. apply zsub_app; [by rewrite zlen_app|done]. }
  cbn [mbind result_bind].
  rewrite (Decode32At_piece base (pre ++ Varint32 (zlen k) ++ k) bin
    (concat (map entry_bytes es) ++ post));
    [|by rewrite Hb, <- !app_assoc|rewrite !zlen_app; lia|done].
  cbn [mbind result_bind].
  specialize (IH (pre ++ Varint32 (zlen k) ++ k ++ Fixed32 bin)).
  rewrite !zlen_app, zlen_Fixed32 in IH.
  replace (zlen pre + zlen (Varint32 (zlen k)) + zlen k + 4)
    with (zlen pre + (zlen (Varint32 (zlen k)) + (zlen k + 4))) by lia.
  rewrite IH; [done|]. by rewrite Hb, <- !app_assoc.
Qed.

Lemma decode_policy_piece t p base pre post off :
  policy_wire_ok t p -> base = pre ++ policy_bytes p ++ post -> off = zlen pre ->
  decode_policy t base off = Ok p.
Proof.
  intros Hp Hb ->. destruct t, p as [bl|es]; cbn [policy_wire_ok policy_bytes] in *; try done; cbn [decode_policy].
  - destruct Hp as [Hn Hes]. pose proof (zlen_nonneg es). rewrite <- app_assoc in Hb.
    rewrite (Decode32At_piece base pre (zlen es) (concat (map entry_bytes es) ++ post));
      [|done|done|unfold is_u32; lia].
    cbn [mbind result_bind]. replace (Z.to_nat (zlen es)) with (length es) by (unfold zlen; lia).
    rewrite (decode_entries_piece es base (pre ++ Fixed32 (zlen es)) post);
      [done|by rewrite Hb, <- !app_assoc|by rewrite zlen_app, zlen_Fixed32|done].
  - destruct Hp as [bs Hbs]. rewrite (drop_piece base pre _ _ Hb eq_refl).
    pose proof (Parse_Serialize bl bs [] post Hbs) as E. cbn [length drop] in E.
    change (drop 0 (Serialize bl [])) with (Serialize bl []) in E. by rewrite E.
Qed.

(** The offsets recorded before each policy and after the last. *)
Fixpoint policy_offsets (off : Z) (ps : list Policy) : list Z :=
  match ps with
  | [] => [off]
  | p :: rest => off :: policy_offsets (off + zlen (policy_bytes p)) rest
  end.
Definition policies_bytes (ps : list Policy) : bytes := concat (map policy_bytes ps).

Lemma put_policies_eq ts ps blob :
  Forall2 policy_wire_ok ts ps -> zlen blob + zlen (policies_bytes ps) < 2 ^ 32 ->
  put_policies ts ps blob = Ok (blob ++ policies_bytes ps, policy_offsets (zlen blob) ps).
Proof.
  intros Hps. revert blob. unfold policies_bytes.
  induction Hps as [|t p ts ps Hp _ IH]; intros blob Hlt; cbn [put_policies policy_offsets map concat] in *.
  - pose proof (zlen_nonneg blob). rewrite app_nil_r, u32_small; [done|]. unfold is_u32. zlen0. lia.
  - rewrite zlen_app in Hlt. pose proof (zlen_nonneg blob). pose proof (zlen_nonneg (policy_bytes p)).
    pose proof (zlen_nonneg (concat (map policy_bytes ps))).
    rewrite (put_policy_eq t p blob Hp). cbn [mbind result_bind]. rewrite IH by (rewrite zlen_app; lia).
    cbn [mbind result_bind]. rewrite <- app_assoc, zlen_app, u32_small by (unfold is_u32; lia). done.
Qed.

Lemma decode_policies_piece ts ps base pre post :
  Forall2 policy_wire_ok ts ps -> base = pre ++ policies_bytes ps ++ post ->
  decode_policies ts (policy_offsets (zlen pre) ps) base = Ok ps.
Proof.
  intros Hps. revert pre. unfold policies_bytes.
  induction Hps as [|t p ts ps Hp _ IH]; intros pre Hb; cbn [decode_policies policy_offsets]; [done|].
  cbn [map concat] in Hb. rewrite <- app_assoc in Hb.
  rewrite (decode_policy_piece t p base pre _ _ Hp Hb eq_refl). cbn [mbind result_bind].
  specialize (IH (pre ++ policy_bytes p)). rewrite zlen_app in IH.
  rewrite IH by (by rewrite <- app_assoc). done.
Qed.

Lemma length_policy_offsets off ps : length (policy_offsets off ps) = S (length ps).
Proof. revert off. induction ps; intros; simpl; auto. Qed.
Lemma policy_offsets_range off ps :
  0 <= off -> off + zlen (policies_bytes ps) < 2 ^ 32 -> Forall is_u32 (policy_offsets off ps).
Proof.
  revert off. unfold policies_bytes. induction ps as [|p ps IH]; intros off H0 H1;
    cbn [policy_offsets map concat] in *.
  - zlen0. repeat constructor; unfold is_u32; lia.
  - rewrite zlen_app in H1. pose proof (zlen_nonneg (policy_bytes p)).
    pose proof (zlen_nonneg (concat (map policy_bytes ps))).
    constructor; [unfold is_u32; lia|]. apply IH; lia.
Qed.

(** *** Index entries *)
Definition index_entry_bytes (e : Z * BlockHandle) : bytes :=
  Fixed32 (fst e) ++ Fixed32 (bh_offset (snd e)) ++ Fixed32 (bh_size (snd e)).
Definition index_entry_ok (e : Z * BlockHandle) : Prop :=
  is_u32 (fst e) /\ is_u32 (bh_offset (snd e)) /\ is_u32 (bh_size (snd e)).

Lemma zlen_index_entries es : zlen (concat (map index_entry_bytes es)) = 12 * zlen es.
Proof.
  induction es as [|e es IH]; [done|]. cbn [map concat]. unfold index_entry_bytes at 1.
  rewrite !zlen_app, !zlen_Fixed32, zlen_cons, IH. lia.
Qed.

Lemma decode_index_entries_piece es pre post :
  Forall index_entry_ok es ->
  decode_index_entries (length es) (concat (map index_entry_bytes (pre ++ es)) ++ post) (zlen pre) =
    Ok (map fst es, map snd es).
Proof.
  intros Hes. revert pre. induction Hes as [|[ps [o sz]] es (H1 & H2 & H3) _ IH]; intros pre; [done|].
  cbn [length decode_index_entries]. simpl in H1, H2, H3.
  set (base := concat _ ++ post).
  assert (base = concat (map index_entry_bytes pre) ++ Fixed32 ps ++ Fixed32 o ++ Fixed32 sz ++
    concat (map index_entry_bytes es) ++ post) as Hb.
  { unfold base. rewrite map_app, concat_app. cbn [map concat]. unfold index_entry_bytes at 2.
    cbn [fst snd bh_offset bh_size]. by rewrite <- !app_assoc. }
  pose proof (zlen_index_entries pre) as Hz.
  rewrite (Decode32At_piece base _ ps _ (zlen pre * 12) Hb) by (done || lia).
  cbn [mbind result_bind]. rewrite (app_assoc _ (Fixed32 ps)) in Hb.
  rewrite (Decode32At_piece base _ o _ (zlen pre * 12 + 4) Hb)
    by (done || rewrite ?zlen_app, ?zlen_Fixed32; lia).
  cbn [mbind result_bind]. rewrite (app_assoc _ (Fixed32 o)) in Hb.
  rewrite (Decode32At_piece base _ sz _ (zlen pre * 12 + 8) Hb)
    by (done || rewrite ?zlen_app, ?zlen_Fixed32; lia).
  cbn [mbind result_bind]. specialize (IH (pre ++ [(ps, mkBlockHandle o sz)])).
  rewrite <- app_assoc, zlen_snoc in IH. unfold base. cbn [app] in IH. rewrite IH. done.
Qed.
End Pieces.

(** ** The frozen bitmaps *)
Section Frozen.
Context `{RoaringOps} `{!RoaringLaws _}.

(** Bitmaps at 32-byte aligned offsets, zero padding after each. *)
Fixpoint frozen_region (off : Z) (bms : list Roaring) : bytes :=
  match bms with
  | [] => []
  | r :: rest =>
      let stop := off + r_getFrozenSizeInBytes r in
      r_writeFrozen r ++ replicate (Z.to_nat (align32 stop - stop)) x00 ++
      frozen_region (align32 stop) rest
  end.

(** Room for the bitmaps whatever their alignment. *)
Definition frozen_room (bms : list Roaring) : Z :=
  zsum (map (fun r => r_getFrozenSizeInBytes r + 31) bms).
Definition frozen_sizes (bms : list Roaring) : list Z := map r_getFrozenSizeInBytes bms.

Lemma frozen_room_cons r bms :
  frozen_room (r :: bms) = r_getFrozenSizeInBytes r + 31 + frozen_room bms.
Proof. done. Qed.
Lemma frozen_room_nonneg bms : 0 <= frozen_room bms.
Proof.
  induction bms as [|r bms IH]; [done|]. rewrite frozen_room_cons.
  pose proof (frozen_header r). lia.
Qed.

(** The induction step shared by the lemmas below. *)
Lemma align_step off r bms :
  0 <= off -> off + frozen_room (r :: bms) < 2 ^ 32 ->
  off < off + r_getFrozenSizeInBytes r <= align32 (off + r_getFrozenSizeInBytes r) /\
  align32 (off + r_getFrozenSizeInBytes r) + frozen_room bms <= off + frozen_room (r :: bms).
Proof.
  intros H0 H1. rewrite frozen_room_cons in *. pose proof (frozen_header r).
  pose proof (frozen_room_nonneg bms).
  pose proof (align32_spec (off + r_getFrozenSizeInBytes r) ltac:(lia) ltac:(lia)). lia.
Qed.

Lemma frozen_region_room bms off :
  0 <= off -> off + frozen_room bms < 2 ^ 32 ->
  zlen (frozen_region off bms) <= frozen_room bms.
Proof.
  revert off. induction bms as [|r bms IH]; intros off H0 H1; [done|].
  pose proof (align_step off r bms H0 H1) as [Ha Hb]. cbn [frozen_region].
  rewrite !zlen_app, zlen_writeFrozen, zlen_replicate.
  specialize (IH (align32 (off + r_getFrozenSizeInBytes r)) ltac:(lia) ltac:(lia)). lia.
Qed.

Lemma frozen_sizes_range bms off :
  0 <= off -> off + frozen_room bms < 2 ^ 32 -> Forall is_u32 (frozen_sizes bms).
Proof.
  revert off. induction bms as [|r bms IH]; intros off H0 H1; [constructor|].
  pose proof (align_step off r bms H0 H1) as [Ha Hb]. pose proof (frozen_room_nonneg bms).
  cbn [frozen_sizes map]. constructor; [unfold is_u32; lia|].
  apply (IH (align32 (off + r_getFrozenSizeInBytes r))); lia.
Qed.

Lemma offsets_from_range bms off :
  0 <= off -> off + frozen_room bms < 2 ^ 32 -> Forall is_u32 (offsets_from off (frozen_sizes bms)).
Proof.
  revert off. induction bms as [|r bms IH]; intros off H0 H1; cbn [frozen_sizes map offsets_from].
  - repeat constructor; unfold is_u32; change (frozen_room []) with 0 in H1; lia.
  - pose proof (align_step off r bms H0 H1) as [Ha Hb]. pose proof (frozen_room_nonneg bms).
    constructor; [unfold is_u32; lia|]. rewrite u32_small by (unfold is_u32; lia). apply IH; lia.
Qed.

Lemma length_offsets_from off sizes : length (offsets_from off sizes) = S (length sizes).
Proof. revert off. induction sizes; intros; simpl; auto. Qed.

(** The last offset is the end of the region. *)
Lemma offsets_from_last bms off :
  0 <= off -> off + frozen_room bms < 2 ^ 32 ->
  last (offsets_from off (frozen_sizes bms)) = Some (off + zlen (frozen_region off bms)).
Proof.
  revert off. induction bms as [|r bms IH]; intros off H0 H1; cbn [frozen_sizes map offsets_from frozen_region].
  - cbn [last]. f_equal. zlen0. lia.
  - pose proof (align_step off r bms H0 H1) as [Ha Hb]. pose proof (frozen_room_nonneg bms).
    rewrite u32_small by (unfold is_u32; lia).
    set (off' := align32 (off + r_getFrozenSizeInBytes r)) in *.
    assert (last (off :: offsets_from off' (map r_getFrozenSizeInBytes bms)) =
      last (offsets_from off' (frozen_sizes bms))) as ->.
    { by destruct bms. }
    rewrite IH by lia. rewrite !zlen_app, zlen_writeFrozen, zlen_replicate. f_equal. lia.
Qed.

Lemma write_frozen_eq bms pre off blob :
  off = zlen pre -> off + frozen_room bms < 2 ^ 32 ->
  blob = pre ++ replicate (length (frozen_region off bms)) x00 ->
  write_frozen bms (offsets_from off (frozen_sizes bms)) blob = Ok (pre ++ frozen_region off bms).
Proof.
  revert pre off blob. induction bms as [|r bms IH]; intros pre off blob Hoff Hroom ->;
    cbn [frozen_sizes map offsets_from frozen_region write_frozen]; [done|].
  pose proof (zlen_nonneg pre). pose proof (align_step off r bms ltac:(lia) Hroom) as [Ha Hb].
  pose proof (frozen_room_nonneg bms).
  rewrite u32_small by (unfold is_u32; lia).
  set (off' := align32 (off + r_getFrozenSizeInBytes r)) in *.
  set (pad := replicate (Z.to_nat (off' - (off + r_getFrozenSizeInBytes r))) x00).
  rewrite !length_app, !replicate_add.
  rewrite (zwrite_app pre) by (done || (unfold zlen; by rewrite length_replicate)).
  cbn [mbind result_bind].
  rewrite (IH (pre ++ r_writeFrozen r ++ pad) off'); [by rewrite <- !app_assoc| | |].
  - rewrite !zlen_app, zlen_writeFrozen. unfold pad. rewrite zlen_replicate. lia.
  - lia.
  - unfold pad. rewrite length_replicate. by rewrite <- !app_assoc.
Qed.

Lemma frozen_views_eq bms off region_off rpre :
  0 <= off -> off + frozen_room bms < 2 ^ 32 -> off = region_off + zlen rpre ->
  frozen_views (offsets_from off (frozen_sizes bms)) (frozen_sizes bms) region_off
    (rpre ++ frozen_region off bms) = Ok (map (fun r => r_frozenView (r_writeFrozen r)) bms).
Proof.
  revert off rpre. induction bms as [|r bms IH]; intros off rpre H0 Hroom Hoff;
    cbn [frozen_sizes map offsets_from frozen_region frozen_views]; [done|].
  pose proof (align_step off r bms H0 Hroom) as [Ha Hb]. pose proof (frozen_room_nonneg bms).
  rewrite u32_small by (unfold is_u32; lia).
  set (off' := align32 (off + r_getFrozenSizeInBytes r)) in *.
  set (pad := replicate (Z.to_nat (off' - (off + r_getFrozenSizeInBytes r))) x00).
  rewrite (zsub_app rpre) by (rewrite ?zlen_writeFrozen; lia).
  cbn [mbind result_bind].
  specialize (IH off' (rpre ++ r_writeFrozen r ++ pad)).
  rewrite <- !app_assoc in IH. unfold frozen_sizes in IH. rewrite IH; [done|lia|lia|].
  rewrite !zlen_app, zlen_writeFrozen. unfold pad. rewrite zlen_replicate. lia.
Qed.
End Frozen.

(** ** The layout *)
Section Layout.
Context `{RoaringOps} `{!RoaringLaws _} `{Coding} `{!CodingLaws _}.

(** What an index holds, as written. *)
Record contents := mkContents {
  c_types : list IndexType;
  c_entries : list (Z * BlockHandle);
  c_bins : list Roaring;
  c_tombstones : Roaring;
  c_nums : list Z;
  c_policies : list Policy;
  c_distinct : list Z;
  c_cards : list Z;
}.

Definition c_bitmaps (c : contents) : list Roaring := c_bins c ++ [c_tombstones c].
Definition entries_bytes (c : contents) : bytes := concat (map index_entry_bytes (c_entries c)).
Definition region_start (c : contents) : Z := align32 (zlen (entries_bytes c)).
Definition region_prefix (c : contents) : bytes :=
  entries_bytes c ++ replicate (Z.to_nat (region_start c - zlen (entries_bytes c))) x00.
Definition c_region (c : contents) : bytes := frozen_region (region_start c) (c_bitmaps c).
Definition policy_start (c : contents) : Z := region_start c + zlen (c_region c).
Definition c_body (c : contents) : bytes :=
  region_prefix c ++ c_region c ++ policies_bytes (c_policies c).
Definition c_offsets (c : contents) : list Z :=
  offsets_from (region_start c) (frozen_sizes (c_bitmaps c)).
Definition dir_pieces (c : contents) : list bytes :=
  [Fixed32 (zlen (c_types c)); type_bytes (c_types c); fixed32s (c_nums c);
   Fixed32 (zlen (c_entries c)); fixed64s (c_distinct c); fixed32s (c_cards c);
   fixed32s (frozen_sizes (c_bitmaps c));
   fixed32s (policy_offsets (policy_start c) (c_policies c)); fixed32s (c_offsets c)].
Definition c_directory (c : contents) : bytes := concat (dir_pieces c).
Definition c_footer (c : contents) : bytes :=
  Fixed32 (zlen (c_body c)) ++ Fixed32 kBitLSMFormatVersion ++ Fixed32 kSABIFooterMagic.
Definition sabi_blob (c : contents) : bytes := c_body c ++ c_directory c ++ c_footer c.

(** Contents the 32-bit fields of the format can carry. *)
Record contents_ok (c : contents) : Prop := {
  ck_nums : length (c_nums c) = length (c_types c);
  ck_policies : Forall2 policy_wire_ok (c_types c) (c_policies c);
  ck_distinct : length (c_distinct c) = length (c_types c);
  ck_cards : length (c_cards c) = length (c_bitmaps c);
  ck_bins : zlen (c_bins c) = zsum (c_nums c);
  ck_nums_pos : Forall (fun n => 1 <= n) (c_nums c);
  ck_total : zsum (c_nums c) + 1 < 2 ^ 32;
  ck_types : zlen (c_types c) < 2 ^ 32;
  ck_entries : Forall index_entry_ok (c_entries c);
  ck_distinct_u64 : Forall is_u64 (c_distinct c);
  ck_cards_u32 : Forall is_u32 (c_cards c);
  ck_size : zlen (entries_bytes c) + 31 + frozen_room (c_bitmaps c) +
            zlen (policies_bytes (c_policies c)) < 2 ^ 32;
}.

Section Blob.
Context (c : contents) (Hc : contents_ok c).

Lemma region_start_spec :
  zlen (entries_bytes c) <= region_start c < zlen (entries_bytes c) + 32.
Proof.
  pose proof (ck_size c Hc). pose proof (zlen_nonneg (entries_bytes c)).
  pose proof (frozen_room_nonneg (c_bitmaps c)).
  pose proof (zlen_nonneg (policies_bytes (c_policies c))). apply align32_spec; lia.
Qed.
Lemma zlen_region_prefix : zlen (region_prefix c) = region_start c.
Proof.
  pose proof region_start_spec. unfold region_prefix. rewrite zlen_app, zlen_replicate. lia.
Qed.
Lemma region_room : 0 <= region_start c /\ region_start c + frozen_room (c_bitmaps c) < 2 ^ 32.
Proof.
  pose proof region_start_spec. pose proof (ck_size c Hc).
  pose proof (zlen_nonneg (entries_bytes c)).
  pose proof (zlen_nonneg (policies_bytes (c_policies c))). lia.
Qed.
Lemma policy_room :
  0 <= policy_start c /\ policy_start c + zlen (policies_bytes (c_policies c)) < 2 ^ 32.
Proof.
  pose proof region_start_spec. pose proof (ck_size c Hc). pose proof region_room as [Hr1 Hr2].
  pose proof (frozen_region_room _ _ Hr1 Hr2). unfold policy_start. fold (c_region c) in *.
  pose proof (zlen_nonneg (c_region c)). lia.
Qed.
Lemma zlen_body : zlen (c_body c) = policy_start c + zlen (policies_bytes (c_policies c)).
Proof. unfold c_body, policy_start. rewrite !zlen_app, zlen_region_prefix. lia. Qed.
Lemma body_u32 : is_u32 (zlen (c_body c)).
Proof.
  pose proof policy_room. rewrite zlen_body.
  pose proof (zlen_nonneg (policies_bytes (c_policies c))). unfold is_u32. lia.
Qed.
Lemma zlen_footer : zlen (c_footer c) = 12.
Proof. unfold c_footer. by rewrite !zlen_app, !zlen_Fixed32. Qed.
Lemma zlen_blob : zlen (sabi_blob c) = zlen (c_body c) + zlen (c_directory c) + 12.
Proof. unfold sabi_blob. rewrite !zlen_app, zlen_footer. lia. Qed.
Lemma zlen_entries_u32 : 0 <= zlen (c_entries c) < 2 ^ 32.
Proof.
  pose proof (ck_size c Hc) as Hs. pose proof (zlen_nonneg (c_entries c)).
  unfold entries_bytes in Hs. rewrite zlen_index_entries in Hs.
  pose proof (frozen_room_nonneg (c_bitmaps c)).
  pose proof (zlen_nonneg (policies_bytes (c_policies c))). lia.
Qed.
Lemma entries_u32 : is_u32 (zlen (c_entries c)).
Proof. pose proof zlen_entries_u32. unfold is_u32. lia. Qed.
Lemma types_u32 : is_u32 (zlen (c_types c)).
Proof. pose proof (zlen_nonneg (c_types c)). pose proof (ck_types c Hc). unfold is_u32. lia. Qed.

Lemma nums_u32 : Forall is_u32 (c_nums c).
Proof.
  apply Forall_lookup. intros i n Hn. pose proof (ck_nums_pos c Hc) as Hp.
  pose proof (ck_total c Hc). rewrite Forall_lookup in Hp.
  pose proof (bin_offset_bound _ _ _ Hp Hn). specialize (Hp _ _ Hn). unfold is_u32. lia.
Qed.
Lemma total_bins_eq : fold_left (fun acc x => u32 (acc + x)) (c_nums c) 0 = zsum (c_nums c).
Proof.
  rewrite fold_u32_sum; [lia|apply Hc|lia|]. pose proof (ck_total c Hc). lia.
Qed.

(** A view of a frozen bitmap. *)
Definition refrozen (r : Roaring) : Roaring := r_frozenView (r_writeFrozen r).

Lemma zlen_bitmaps : zlen (c_bitmaps c) = zsum (c_nums c) + 1.
Proof. unfold c_bitmaps. by rewrite zlen_snoc, (ck_bins c Hc). Qed.

Lemma c_offsets_ends :
  zget (c_offsets c) 0 = Ok (region_start c) /\
  zget (c_offsets c) (zsum (c_nums c) + 1) = Ok (policy_start c).
Proof.
  pose proof region_room as [Hr1 Hr2]. pose proof zlen_bitmaps as Hn. unfold zlen in Hn.
  pose proof (zsum_nonneg _ (ck_nums_pos c Hc)). unfold c_offsets. split.
  - by destruct (frozen_sizes (c_bitmaps c)).
  - pose proof (offsets_from_last _ _ Hr1 Hr2) as E. rewrite last_lookup, length_offsets_from in E.
    apply zget_lookup. split; [lia|]. unfold policy_start, c_region. rewrite <- E. f_equal.
    unfold frozen_sizes. rewrite length_map. lia.
Qed.

Lemma load_bitmaps_eq :
  load_bitmaps (sabi_blob c) (zsum (c_nums c)) (c_offsets c) (frozen_sizes (c_bitmaps c)) =
    Ok (map refrozen (c_bins c), refrozen (c_tombstones c)).
Proof.
  pose proof region_room as [Hr1 Hr2]. pose proof policy_room as Hp. unfold policy_start in Hp.
  pose proof (zlen_nonneg (c_region c)). pose proof (zlen_nonneg (policies_bytes (c_policies c))).
  destruct c_offsets_ends as [E0 E1]. unfold load_bitmaps. rewrite E0. cbn [mbind result_bind].
  rewrite E1. cbn [mbind result_bind]. unfold policy_start.
  rewrite u32_small by (unfold is_u32; lia).
  assert (zsub (sabi_blob c) (region_start c) (region_start c + zlen (c_region c) - region_start c) =
    Ok (c_region c)) as ->.
  { unfold sabi_blob, c_body. rewrite <- !app_assoc. apply zsub_app; [by rewrite zlen_region_prefix|lia]. }
  cbn [mbind result_bind].
  pose proof (frozen_views_eq (c_bitmaps c) (region_start c) (region_start c) [] Hr1 Hr2) as E.
  cbn [app] in E. unfold c_offsets, c_region. rewrite E by (zlen0; lia). cbn [mbind result_bind].
  unfold c_bitmaps. rewrite map_app. cbn [map].
  rewrite (zget_piece _ (map refrozen (c_bins c)) (refrozen (c_tombstones c)) []);
    [|done|by rewrite zlen_map, (ck_bins c Hc)].
  cbn [mbind result_bind]. rewrite take_app_length'; [done|].
  rewrite length_map, <- (ck_bins c Hc). unfold zlen. lia.
Qed.
(** The reader of the blob. *)
Definition opened (mode : SABIReaderMode) : SABIReader :=
  {| rd_schema := c_types c; mode_ := mode;
     rd_index :=
       mkBitmapIndex (match mode with kResident => map refrozen (c_bins c) | kMetadata => [] end)
         (match mode with kResident => refrozen (c_tombstones c) | kMetadata => r_empty end)
         (c_nums c) (c_policies c);
     data_entries_cnt_psum := map fst (c_entries c); block_handles := map snd (c_entries c);
     distinct_cnts := c_distinct c; bin_cardinalities := c_cards c;
     bitmap_offsets_ := c_offsets c; bitmap_sizes_ := frozen_sizes (c_bitmaps c) |}.

Lemma directory_at : Decode32At (sabi_blob c) (zlen (sabi_blob c) - 12) = Ok (zlen (c_body c)).
Proof.
  rewrite zlen_blob.
  eapply (Decode32At_piece _ (c_body c ++ c_directory c)); [|rewrite zlen_app; lia|apply body_u32].
  unfold sabi_blob, c_footer. by rewrite <- !app_assoc.
Qed.
Lemma version_at :
  Decode32At (sabi_blob c) (zlen (sabi_blob c) - 8) = Ok kBitLSMFormatVersion.
Proof.
  rewrite zlen_blob.
  eapply (Decode32At_piece _ (c_body c ++ c_directory c ++ Fixed32 (zlen (c_body c))));
    [|rewrite !zlen_app, zlen_Fixed32; lia|done].
  unfold sabi_blob, c_footer. by rewrite <- !app_assoc.
Qed.
Lemma magic_at : Decode32At (sabi_blob c) (zlen (sabi_blob c) - 4) = Ok kSABIFooterMagic.
Proof.
  rewrite zlen_blob.
  eapply (Decode32At_piece _ (c_body c ++ c_directory c ++ Fixed32 (zlen (c_body c)) ++
    Fixed32 kBitLSMFormatVersion) _ []);
    [|rewrite !zlen_app, !zlen_Fixed32; lia|done].
  unfold sabi_blob, c_footer. by rewrite <- !app_assoc, app_nil_r.
Qed.
Lemma footer_room : (zlen (sabi_blob c) <? 12) = false.
Proof. rewrite zlen_blob. apply Z.ltb_ge. pose proof (zlen_nonneg (c_body c)). pose proof (zlen_nonneg (c_directory c)). lia. Qed.
(** The [k]-th directory piece, in place. *)
Definition dir_before (k : nat) : bytes := c_body c ++ concat (take k (dir_pieces c)).
Lemma dir_piece k P :
  dir_pieces c !! k = Some P ->
  sabi_blob c = dir_before k ++ P ++ (concat (drop (S k) (dir_pieces c)) ++ c_footer c).
Proof.
  intros Hk. unfold sabi_blob, c_directory, dir_before.
  rewrite <- (take_drop_middle _ _ _ Hk) at 1. rewrite concat_app. cbn [concat].
  by rewrite <- !app_assoc.
Qed.

Lemma zlen_type_bytes ts : zlen (type_bytes ts) = zlen ts.
Proof. unfold type_bytes. by rewrite zlen_map. Qed.

(** The sizes of the pieces, in the reader's terms. *)
Lemma dir_before_sizes :
  let n := zlen (c_types c) in
  let m := zsum (c_nums c) + 1 in
  let o := zlen (c_body c) in
  (zlen (dir_before 0), zlen (dir_before 1), zlen (dir_before 2), zlen (dir_before 3),
   zlen (dir_before 4), zlen (dir_before 5), zlen (dir_before 6), zlen (dir_before 7),
   zlen (dir_before 8)) =
  (o, o + 4, o + 4 + n, o + 4 + n + 4 * n, o + 4 + n + 4 * n + 4, o + 4 + n + 4 * n + 4 + 8 * n,
   o + 4 + n + 4 * n + 4 + 8 * n + 4 * m, o + 4 + n + 4 * n + 4 + 8 * n + 4 * m + 4 * m,
   o + 4 + n + 4 * n + 4 + 8 * n + 4 * m + 4 * m + 4 * (n + 1)).
Proof.
  intros n m o.
  assert (zlen (c_nums c) = n) as E1 by (unfold n, zlen; by rewrite (ck_nums c Hc)).
  assert (zlen (c_distinct c) = n) as E2 by (unfold n, zlen; by rewrite (ck_distinct c Hc)).
  assert (zlen (c_cards c) = m) as E3.
  { unfold m. rewrite <- zlen_bitmaps. unfold zlen. by rewrite (ck_cards c Hc). }
  assert (zlen (frozen_sizes (c_bitmaps c)) = m) as E4.
  { unfold frozen_sizes. by rewrite zlen_map, zlen_bitmaps. }
  assert (zlen (policy_offsets (policy_start c) (c_policies c)) = n + 1) as E5.
  { unfold zlen. rewrite length_policy_offsets, <- (Forall2_length _ _ _ (ck_policies c Hc)).
    unfold n, zlen. lia. }
  unfold dir_before, dir_pieces. cbn [firstn take concat].
  rewrite ?app_nil_r, ?zlen_app, ?zlen_Fixed32, ?zlen_fixed32s, ?zlen_fixed64s, ?zlen_type_bytes,
    ?E1, ?E2, ?E3, ?E4, ?E5, ?zlen_nil. fold n o.
  repeat match goal with |- (_, _) = (_, _) => apply f_equal2 end; lia.
Qed.

Lemma dir_counts :
  Z.to_nat (zlen (c_types c)) = length (c_types c) /\
  Z.to_nat (zsum (c_nums c) + 1) = length (c_bitmaps c) /\
  u32 (zsum (c_nums c) + 1) = zsum (c_nums c) + 1 /\
  length (frozen_sizes (c_bitmaps c)) = length (c_bitmaps c) /\
  length (policy_offsets (policy_start c) (c_policies c)) = S (length (c_types c)) /\
  length (c_offsets c) = S (length (c_bitmaps c)).
Proof.
  pose proof (zsum_nonneg _ (ck_nums_pos c Hc)). pose proof (ck_total c Hc).
  pose proof zlen_bitmaps as Hm. unfold zlen in *. repeat split.
  - lia.
  - lia.
  - apply u32_small. unfold is_u32. lia.
  - unfold frozen_sizes. by rewrite length_map.
  - by rewrite length_policy_offsets, <- (Forall2_length _ _ _ (ck_policies c Hc)).
  - unfold c_offsets, frozen_sizes. by rewrite length_offsets_from, length_map.
Qed.

Lemma policies_at :
  decode_policies (c_types c) (policy_offsets (policy_start c) (c_policies c)) (sabi_blob c) =
    Ok (c_policies c).
Proof.
  assert (policy_start c = zlen (region_prefix c ++ c_region c)) as ->.
  { unfold policy_start. by rewrite zlen_app, zlen_region_prefix. }
  apply decode_policies_piece with (c_directory c ++ c_footer c); [apply Hc|].
  unfold sabi_blob, c_body. by rewrite <- !app_assoc.
Qed.

Lemma index_entries_at :
  decode_index_entries (Z.to_nat (zlen (c_entries c))) (sabi_blob c) 0 =
    Ok (map fst (c_entries c), map snd (c_entries c)).
Proof.
  unfold sabi_blob, c_body, region_prefix, entries_bytes. rewrite <- !app_assoc.
  replace (Z.to_nat (zlen (c_entries c))) with (length (c_entries c)) by (unfold zlen; lia).
  apply (decode_index_entries_piece (c_entries c) []). apply Hc.
Qed.

Ltac dir_step lem k S H :=
  rewrite (lem _ _ _ _ _ (dir_piece k _ eq_refl) (eq_sym S) H); cbn [mbind result_bind].

Lemma new_reader_eq mode : new_reader (sabi_blob c) mode = Ok (opened mode).
Proof.
  pose proof dir_before_sizes as Hsz. cbv zeta in Hsz.
  injection Hsz as S0 S1 S2 S3 S4 S5 S6 S7 S8.
  destruct dir_counts as (En & Em & Eu & Ez & Ep & Eo).
  pose proof region_room as [Hr1 Hr2]. pose proof policy_room as [Hp1 Hp2].
  unfold new_reader. rewrite footer_room, magic_at. cbn [mbind result_bind]. rewrite Z.eqb_refl. cbn [negb]. rewrite directory_at. cbn [mbind result_bind].
  dir_step Decode32At_piece 0%nat S0 types_u32. rewrite En.
  rewrite (decode_types_piece _ _ _ _ _ (dir_piece 1 _ eq_refl) (eq_sym S1)).
  cbn [mbind result_bind]. rewrite <- (ck_nums c Hc) at 1.
  dir_step decode32s_piece 2%nat S2 nums_u32.
  dir_step Decode32At_piece 3%nat S3 entries_u32. rewrite <- (ck_distinct c Hc) at 1.
  dir_step decode64s_piece 4%nat S4 (ck_distinct_u64 c Hc).
  rewrite total_bins_eq, Eu, Em. rewrite <- (ck_cards c Hc) at 1.
  dir_step decode32s_piece 5%nat S5 (ck_cards_u32 c Hc). rewrite <- Ez at 1.
  dir_step decode32s_piece 6%nat S6 (frozen_sizes_range _ _ Hr1 Hr2). rewrite <- Ep.
  dir_step decode32s_piece 7%nat S7 (policy_offsets_range _ _ Hp1 Hp2). rewrite <- Eo.
  dir_step decode32s_piece 8%nat S8 (offsets_from_range _ _ Hr1 Hr2).
  rewrite policies_at. cbn [mbind result_bind].
  destruct mode; [rewrite load_bitmaps_eq|]; cbn [mbind result_bind];
    rewrite index_entries_at; done.
Qed.
Lemma validate_types_piece ts base pre post i :
  base = pre ++ type_bytes ts ++ post ->
  forall off, zlen pre = off + i -> validate_types (length ts) base off i = Ok (inl ts).
Proof.
  revert pre i. induction ts as [|t ts IH]; intros pre i Hb off Hoff; [done|].
  cbn [length validate_types]. cbn [type_bytes map] in Hb.
  rewrite (zget_piece base pre (z2b (IndexType_byte t)) (type_bytes ts ++ post)) by done.
  cbn [mbind result_bind]. rewrite type_of_byte_inv.
  rewrite (IH (pre ++ [z2b (IndexType_byte t)])); [done|by rewrite Hb, <- app_assoc|].
  rewrite zlen_snoc. lia.
Qed.

(** What a factory configured with [ts] makes of the schema of the blob. *)
Definition schema_accepts (ts : list IndexType) : bool :=
  bool_decide (ts = []) || bool_decide (ts = c_types c).
Definition mismatch (ts : list IndexType) : Status :=
  Corruption ("SABI schema mismatch: SST index_types " +:+ IndexTypesToString (c_types c) +:+
    " vs configured " +:+ IndexTypesToString ts +:+ "; rebuild the DB or fix the schema").

Lemma NewReader_eq f :
  NewReader f (sabi_blob c) =
    Ok (if schema_accepts (fac_types f)
        then (OK, Some (opened (if fac_ondemand f then kMetadata else kResident)))
        else (mismatch (fac_types f), None)).
Proof.
  pose proof dir_before_sizes as Hsz. cbv zeta in Hsz.
  injection Hsz as S0 S1 S2 _ _ _ _ _ _.
  assert (zlen (c_body c) + 4 + zlen (c_types c) <= zlen (c_body c) + zlen (c_directory c)) as Hd.
  { rewrite <- S2. unfold dir_before. rewrite zlen_app.
    unfold c_directory. rewrite <- (take_drop 2 (dir_pieces c)) at 2. rewrite concat_app, zlen_app.
    pose proof (zlen_nonneg (concat (drop 2 (dir_pieces c)))). lia. }
  pose proof zlen_blob as Hz. pose proof (zlen_nonneg (c_body c)). pose proof (zlen_nonneg (c_types c)).
  unfold NewReader. rewrite (proj2 (Z.ltb_ge _ _)) by lia.
  rewrite magic_at. cbn [mbind result_bind]. rewrite Z.eqb_refl. cbn [negb].
  rewrite version_at. cbn [mbind result_bind]. rewrite Z.eqb_refl. cbn [negb].
  rewrite directory_at. cbn [mbind result_bind]. rewrite (proj2 (Z.ltb_ge _ _)) by lia.
  rewrite (Decode32At_piece _ _ _ _ _ (dir_piece 0 _ eq_refl) (eq_sym S0) types_u32).
  cbn [mbind result_bind]. rewrite (proj2 (Z.ltb_ge _ _)) by lia.
  destruct dir_counts as (En & _). rewrite En.
  rewrite (validate_types_piece _ _ _ _ 0 (dir_piece 1 _ eq_refl)) by (rewrite S1; lia).
  cbn [mbind result_bind].
  unfold schema_accepts. rewrite <- negb_orb.
  destruct (bool_decide (fac_types f = []) || bool_decide (fac_types f = c_types c));
    cbn [negb]; [|done].
  rewrite new_reader_eq. done.
Qed.
End Blob.
End Layout.

(** ** Finish *)
Section FinishSpec.
Context `{RoaringOps} `{!RoaringLaws _} `{Coding} `{!CodingLaws _} `{StdSort}.

(** What [Finish] writes of a builder whose bitmaps are filled. *)
Definition contents_of (b : SABIBuilder) (es : list (Z * BlockHandle)) : contents :=
  let bi := bitmap_index_ b in
  let bins := map r_runOptimize (bitmaps bi) in
  let tomb := r_runOptimize (tombstone_bitmap bi) in
  {| c_types := index_types (schema_ b); c_entries := es; c_bins := bins; c_tombstones := tomb;
     c_nums := bitmap_nums bi; c_policies := binning_policy bi; c_distinct := distinct_cnts_ b;
     c_cards := map r_cardinality (bins ++ [tomb]) |}.

(** The index entries a builder has collected. *)
Definition entries_inv (es : list (Z * BlockHandle)) (b : SABIBuilder) : Prop :=
  index_blob_ b = concat (map index_entry_bytes es) /\ index_entries_cnt_ b = zlen es /\
  Forall index_entry_ok es.

Lemma map_u32 {A} (f : A -> Z) l : Forall is_u32 (map f l) -> map (fun x => u32 (f x)) l = map f l.
Proof.
  intros Hl. apply map_ext_in. intros x Hx. apply u32_small.
  rewrite Forall_forall in Hl. apply Hl. apply list_elem_of_In. by apply in_map.
Qed.

Lemma put_directory_eq schema nums entries distinct cards sizes poffs boffs blob :
  is_u32 (zlen (index_types schema)) -> is_u32 entries -> Forall is_u32 nums ->
  Forall is_u64 distinct -> Forall is_u32 cards -> Forall is_u32 sizes -> Forall is_u32 poffs ->
  Forall is_u32 boffs ->
  put_directory schema nums entries distinct cards sizes poffs boffs blob =
    blob ++ concat [Fixed32 (zlen (index_types schema)); type_bytes (index_types schema);
      fixed32s nums; Fixed32 entries; fixed64s distinct; fixed32s cards; fixed32s sizes;
      fixed32s poffs; fixed32s boffs].
Proof.
  intros. unfold put_directory, schema_attr_num.
  rewrite !put32s_eq, put64s_eq by done.
  rewrite !PutFixed32_eq by (rewrite ?u32_small; done).
  cbn [concat]. rewrite ?u32_small by done. by rewrite app_nil_r, <- !app_assoc.
Qed.

Lemma frozen_written c :
  contents_ok c ->
  write_frozen (c_bitmaps c) (c_offsets c) (zresize (entries_bytes c) (policy_start c) x00) =
    Ok (region_prefix c ++ c_region c).
Proof.
  intros Hc. pose proof (region_room c Hc) as [Hr1 Hr2]. pose proof (region_start_spec c Hc).
  pose proof (zlen_nonneg (c_region c)).
  apply write_frozen_eq; [by rewrite (zlen_region_prefix c Hc)|done|].
  unfold zresize, region_prefix, policy_start in *. fold (c_region c).
  rewrite resize_ge by (unfold zlen in *; lia).
  rewrite <- app_assoc, <- replicate_add. do 2 f_equal. unfold zlen in *. lia.
Qed.

Lemma Finish_eq b0 b1 b es :
  SetBinningPolicy b0 = Ok b1 -> CalculateBitmapIndex b1 = Ok b -> entries_inv es b ->
  contents_ok (contents_of b es) ->
  exists b', Finish b0 = Ok (b', sabi_blob (contents_of b es)) /\
    last_finish_bitmap_sizes_ b' = frozen_sizes (c_bitmaps (contents_of b es)).
Proof.
  intros E1 E2 (Hblob & Hcnt & _) Hc. set (c := contents_of b es) in *.
  pose proof (region_room c Hc) as [Hr1 Hr2]. pose proof (policy_room c Hc) as [Hp1 Hp2].
  pose proof (frozen_sizes_range _ _ Hr1 Hr2) as Hsz.
  assert (entries_bytes c = index_blob_ b) as Heb by done.
  assert (map r_runOptimize (bitmaps (bitmap_index_ b) ++ [tombstone_bitmap (bitmap_index_ b)]) =
    c_bitmaps c) as Hbms by (rewrite map_app; done).
  unfold Finish. rewrite E1. cbn [mbind result_bind]. rewrite E2. cbn [mbind result_bind].
  rewrite Hbms, (map_u32 r_getFrozenSizeInBytes) by exact Hsz.
  rewrite (map_u32 r_cardinality) by apply Hc.
  change (map r_getFrozenSizeInBytes (c_bitmaps c)) with (frozen_sizes (c_bitmaps c)).
  change (map r_cardinality (c_bitmaps c)) with (c_cards c).
  rewrite <- Heb.
  pose proof (ck_size c Hc) as Hs. pose proof (zlen_nonneg (entries_bytes c)).
  pose proof (frozen_room_nonneg (c_bitmaps c)). pose proof (zlen_nonneg (policies_bytes (c_policies c))).
  rewrite (u32_small (zlen (entries_bytes c))) by (unfold is_u32; lia).
  fold (region_start c). fold (c_offsets c).
  replace (last (c_offsets c)) with (Some (policy_start c))
    by (symmetry; by apply offsets_from_last).
  cbn [get_or mbind result_bind]. rewrite (frozen_written c Hc). cbn [mbind result_bind].
  pose proof (zlen_region_prefix c Hc) as Hpre.
  assert (zlen (region_prefix c ++ c_region c) = policy_start c) as Hps
    by (rewrite zlen_app, Hpre; done).
  change (index_types (schema_ b)) with (c_types c). change (binning_policy (bitmap_index_ b)) with (c_policies c).
  rewrite (put_policies_eq (c_types c) (c_policies c)); [|apply Hc|by rewrite Hps].
  cbn [mbind result_bind]. rewrite Hps, <- app_assoc. fold (c_body c).
  rewrite (u32_small (zlen (c_body c))) by by apply body_u32.
  rewrite Hcnt, put_directory_eq;
    [|by apply (types_u32 c)|by apply (entries_u32 c)|by apply (nums_u32 c)|apply (ck_distinct_u64 c Hc)
     |apply Hc|done|by apply policy_offsets_range|by apply offsets_from_range].
  rewrite !PutFixed32_eq by (done || by apply body_u32).
  eexists. split.
  { do 2 f_equal. unfold sabi_blob, c_footer, c_directory, dir_pieces. by rewrite <- !app_assoc. }
  done.
Qed.

(** Freezing and thawing keeps the row ids. *)
Lemma refrozen_equiv r : r_equiv (refrozen (r_runOptimize r)) r.
Proof. intros x. unfold refrozen. by rewrite contains_frozenView, contains_runOptimize. Qed.

Lemma opened_equiv b es :
  bi_equiv (rd_index (opened (contents_of b es) kResident)) (bitmap_index_ b).
Proof.
  split; try done; [|apply refrozen_equiv].
  cbn [opened rd_index bitmaps contents_of c_bins]. rewrite map_map.
  induction (bitmaps (bitmap_index_ b)); constructor; [apply refrozen_equiv|done].
Qed.

Lemma sorted_bounded (l : list Z) m n :
  StronglySorted Z.lt l -> Forall (fun x => m <= x < n) l -> zlen l <= Z.max 0 (n - m).
Proof.
  intros Hs. revert m. induction Hs as [|x l Hs IH Hall]; intros m Hb; [zlen0; lia|].
  apply Forall_cons in Hb as [Hx Hb]. rewrite zlen_cons.
  specialize (IH (x + 1)). assert (zlen l <= Z.max 0 (n - (x + 1))); [|lia]. apply IH.
  rewrite Forall_forall in *. intros y Hy. specialize (Hall y Hy). specialize (Hb y Hy). lia.
Qed.

Lemma cardinality_bound r n :
  (forall x, r_contains r x = true -> 0 <= x < n) -> 0 <= r_cardinality r <= Z.max 0 n.
Proof.
  intros Hr. rewrite cardinality_array. split; [apply zlen_nonneg|].
  pose proof (sorted_bounded (r_toUint32Array r) 0 n (array_sorted r)) as Hb.
  rewrite Z.sub_0_r in Hb. apply Hb. apply Forall_forall. intros x Hx. by apply Hr, array_contains.
Qed.

(** The room the body of the blob needs, alignment included. *)
Definition body_room (b : SABIBuilder) (es : list (Z * BlockHandle)) : Z :=
  12 * zlen es + 31 + frozen_room (c_bitmaps (contents_of b es)) +
  zlen (policies_bytes (binning_policy (bitmap_index_ b))).

Lemma policies_wire types rows bi :
  index_ok types rows bi -> zlen (policies_bytes (binning_policy bi)) < 2 ^ 32 ->
  Forall2 policy_wire_ok types (binning_policy bi).
Proof.
  intros Hix Hlt. apply Forall2_same_length_lookup. split; [symmetry; apply Hix|].
  intros i t p Ht Hp. destruct (lookup_lt_is_Some_2 (bitmap_nums bi) i) as [n Hn].
  { rewrite (io_nums _ _ _ Hix). by eapply lookup_lt_Some. }
  pose proof (io_fits _ _ _ Hix i t p n Ht Hp Hn) as Hf.
  assert (zlen (policy_bytes p) < 2 ^ 32) as Hpl.
  { unfold policies_bytes in Hlt. rewrite <- (take_drop_middle _ _ _ Hp), map_app, concat_app in Hlt.
    cbn [map concat] in Hlt. rewrite !zlen_app in Hlt.
    match type of Hlt with ?a + (_ + ?b) < _ => assert (0 <= a /\ 0 <= b) by (split; apply zlen_nonneg) end.
    lia. }
  destruct t, p as [bl|es]; cbn [policy_fits policy_wire_ok] in *; try done.
  - split; [apply Hf|]. apply Forall_lookup. intros k [key bin] Hk. split.
    + pose proof (ef_range _ _ _ Hf key bin (list_elem_of_lookup_2 _ _ _ Hk)).
      pose proof (io_total _ _ _ Hix).
      pose proof (bin_offset_bound _ _ _ (io_bins _ _ _ Hix) Hn). unfold is_u32. cbn [snd]. lia.
    + cbn [policy_bytes] in Hpl. rewrite <- (take_drop_middle _ _ _ Hk), map_app, concat_app in Hpl.
      cbn [map concat] in Hpl. unfold entry_bytes at 2 in Hpl. rewrite !zlen_app in Hpl. cbn [fst snd] in *.
      repeat match type of Hpl with context [zlen ?l] =>
        lazymatch goal with _ : 0 <= zlen l |- _ => fail | _ => pose proof (zlen_nonneg l) end end.
      lia.
  - destruct Hf as (bs & Hbl & _). eauto.
Qed.

Lemma distinct_of_u64 types rows : zlen rows < 2 ^ 32 -> Forall is_u64 (distinct_of types rows).
Proof.
  intros Hr. unfold distinct_of. apply Forall_forall. intros d Hd.
  apply list_elem_of_fmap in Hd as (i & -> & _). pose proof (column_length i rows) as Hc.
  assert (zlen (remove_dups (column i rows)) <= zlen (column i rows)).
  { unfold zlen. apply inj_le. apply submseteq_length. apply NoDup_submseteq; [apply NoDup_remove_dups|].
    intros x. by rewrite elem_of_remove_dups. }
  pose proof (zlen_nonneg (remove_dups (column i rows))). unfold is_u64. lia.
Qed.

Lemma contents_of_ok types rows b es :
  index_ok types rows (bitmap_index_ b) -> index_types (schema_ b) = types ->
  distinct_cnts_ b = distinct_of types rows -> zlen rows < 2 ^ 32 ->
  Forall index_entry_ok es -> body_room b es < 2 ^ 32 ->
  contents_ok (contents_of b es).
Proof.
  intros Hix Hty Hd Hrows Hes Hroom. unfold body_room in Hroom.
  pose proof (zlen_nonneg es). pose proof (frozen_room_nonneg (c_bitmaps (contents_of b es))).
  assert (Forall (fun n => 1 <= n) (bitmap_nums (bitmap_index_ b))) as Hpos
    by (apply Forall_lookup, (io_bins _ _ _ Hix)).
  pose proof (zsum_ge_length _ Hpos) as Hlen. pose proof (io_total _ _ _ Hix) as Htot.
  split; cbn [contents_of c_nums c_types c_policies c_distinct c_cards c_bins c_entries c_tombstones].
  - rewrite Hty. apply Hix.
  - rewrite Hty. apply (policies_wire types rows); [done|lia].
  - rewrite Hd, Hty. unfold distinct_of. by rewrite length_map, length_seq.
  - by rewrite length_map.
  - rewrite zlen_map. apply Hix.
  - done.
  - lia.
  - rewrite Hty. unfold zlen in *. rewrite (io_nums _ _ _ Hix) in Hlen. lia.
  - done.
  - rewrite Hd. by apply distinct_of_u64.
  - assert (forall r, r ∈ map r_runOptimize (bitmaps (bitmap_index_ b)) ++
      [r_runOptimize (tombstone_bitmap (bitmap_index_ b))] ->
      forall x, r_contains r x = true -> 0 <= x < zlen rows) as Hin.
    { intros r Hr x Hx. apply elem_of_app in Hr as [Hr|Hr%list_elem_of_singleton].
      - apply list_elem_of_fmap in Hr as (r' & -> & Hr'). rewrite contains_runOptimize in Hx.
        apply list_elem_of_lookup in Hr' as [q Hq]. by eapply (io_only _ _ _ Hix).
      - subst r. rewrite contains_runOptimize in Hx. apply (io_tombstones _ _ _ Hix) in Hx as [Hx0 Hx].
        apply lookup_lt_Some in Hx. unfold zlen. lia. }
    apply Forall_forall. intros k Hk. apply list_elem_of_fmap in Hk as (r & -> & Hr).
    pose proof (cardinality_bound r _ (Hin r Hr)). pose proof (zlen_nonneg rows). unfold is_u32. lia.
  - unfold entries_bytes. cbn [c_entries]. rewrite zlen_index_entries. exact Hroom.
Qed.
End FinishSpec.
