(* ===== verification/SstIndex.v ===== *)
(** * An SSTable's index, from the build callbacks to the open reader

    RocksDB's table builder drives a [SABIBuilder] with one [OnKeyAdded] per
    entry and one [AddIndexEntry] per finished data block, then calls
    [Finish]; opening the file hands the blob to [SABIFactory::NewReader].
    This file composes the lemmas of [BuilderSpec] and [BlobSpec] over such a
    run. *)
From Stdlib Require Import ZArith Lia Strings.Byte Strings.String Sorting.Sorted.
From stdpp Require Import base numbers strings list sets sorting.
From S2P Require Import Prelude Floats Options Row Okey BytesList Query QuerySpec.
From S2P Require Import Externals Intern RangeBuf Binning Builder Reader Index ReaderSpec.
From S2P Require Import BuilderSpec BlobSpec.

(** The callbacks of one table build. *)
Inductive table_event :=
  | KeyAdded (key : bytes) (type : ValueType) (value : bytes)
  | BlockDone (last_key : bytes) (handle : BlockHandle).

Section Build.
Context `{RoaringOps} `{!RoaringLaws _} `{Coding} `{!CodingLaws _} `{StdSort} `{!StdSortLaws _}.
Context (hash : bytes -> Z) (extract : bytes -> bytes -> result (list EncodedAttr)).

Fixpoint drive (evs : list table_event) (b : SABIBuilder) : result SABIBuilder :=
  match evs with
  | [] => Ok b
  | KeyAdded key type value :: rest => b' ← OnKeyAdded hash extract key type value b; drive rest b'
  | BlockDone last_key handle :: rest => drive rest (fst (AddIndexEntry last_key handle b))
  end.

(** The rows of the table, as the extractor sees them. *)
Fixpoint rows_of (evs : list table_event) : result (list sst_row) :=
  match evs with
  | [] => Ok []
  | KeyAdded key type value :: rest =>
      r ← added_row extract key type value; rs ← rows_of rest; Ok (r :: rs)
  | BlockDone _ _ :: rest => rows_of rest
  end.

(** Each block's handle with the number of rows up to its end. *)
Fixpoint entries_of (n : Z) (evs : list table_event) : list (Z * BlockHandle) :=
  match evs with
  | [] => []
  | KeyAdded _ _ _ :: rest => entries_of (n + 1) rest
  | BlockDone _ h :: rest => (n, h) :: entries_of n rest
  end.

(** Block handles the 32-bit fields can carry. *)
Definition handle_ok (e : Z * BlockHandle) : Prop :=
  is_u32 (bh_offset (snd e)) /\ is_u32 (bh_size (snd e)).

Lemma rows_fit_app types rows rest L : rows_fit types (rows ++ rest) L -> rows_fit types rows L.
Proof.
  induction rest as [|r rest IH] using rev_ind; [by rewrite app_nil_r|].
  rewrite app_assoc. intros Hf. by apply IH, (rows_fit_prefix _ _ r).
Qed.

Lemma AddIndexEntry_spec types rows es b last_key h :
  builder_inv hash types rows b -> entries_inv es b -> is_u32 (zlen rows) ->
  handle_ok (zlen rows, h) -> zlen es + 1 < 2 ^ 32 ->
  let b' := fst (AddIndexEntry last_key h b) in
  builder_inv hash types rows b' /\ entries_inv (es ++ [(zlen rows, h)]) b' /\ schema_ b' = schema_ b.
Proof.
  intros Hinv (Hblob & Hcnt & Hok) Hr (Ho & Hs) Hlt. pose proof (zlen_nonneg es).
  pose proof Hinv as [Hty Hn Hlb Hln Hbuf Hnull Htomb Hemp]. cbn [bh_offset bh_size snd] in *.
  cbn [AddIndexEntry fst]. split; [split; done|]. split; [|done].
  unfold entries_inv. cbn [index_blob_ index_entries_cnt_]. split_and!.
  - rewrite Hblob, Hn, !PutFixed32_eq by done. rewrite map_app, concat_app. cbn [map concat].
    unfold index_entry_bytes at 3. cbn [fst snd]. by rewrite app_nil_r, <- !app_assoc.
  - rewrite Hcnt, zlen_snoc. apply u32_small. unfold is_u32. lia.
  - apply Forall_app. split; [done|]. repeat constructor; (apply Hr || apply Ho || apply Hs).
Qed.

Lemma drive_spec types evs rows0 es0 b rows L :
  builder_inv hash types rows0 b -> entries_inv es0 b ->
  rows_of evs = Ok rows -> rows_fit types (rows0 ++ rows) L ->
  Forall handle_ok (entries_of (zlen rows0) evs) ->
  zlen es0 + zlen (entries_of (zlen rows0) evs) < 2 ^ 32 ->
  exists b', drive evs b = Ok b' /\ builder_inv hash types (rows0 ++ rows) b' /\
    entries_inv (es0 ++ entries_of (zlen rows0) evs) b' /\ schema_ b' = schema_ b.
Proof.
  revert rows0 es0 b rows. induction evs as [|[key type value|last_key h] evs IH];
    intros rows0 es0 b rows Hinv Hes Hrows Hfit Hh Hlt; cbn [drive rows_of entries_of] in *.
  - injection Hrows as <-. exists b. rewrite !app_nil_r. done.
  - apply result_bind_ok in Hrows as (r & Hr & Hrows).
    apply result_bind_ok in Hrows as (rs & Hrs & [= <-]).
    rewrite cons_middle, app_assoc in Hfit |- *.
    destruct (OnKeyAdded_spec hash extract types rows0 b key type value r L Hinv Hr)
      as (b' & E & Hinv' & Hsch & Hblob & Hcnt); [by eapply rows_fit_app|].
    rewrite E. cbn [mbind result_bind]. rewrite <- (zlen_snoc rows0 r) in *.
    destruct (IH (rows0 ++ [r]) es0 b' rs) as (b'' & E' & H1' & H2' & H3'); try done.
    { destruct Hes as (? & ? & ?). split_and!; congruence || done. }
    exists b''. rewrite E'. split_and!; congruence || done.
  - apply Forall_cons in Hh as [Hh Hrest]. rewrite zlen_cons in Hlt.
    pose proof (fit_rows _ _ _ Hfit) as Hrl. rewrite zlen_app in Hrl.
    pose proof (zlen_nonneg rows). pose proof (zlen_nonneg rows0).
    pose proof (zlen_nonneg (entries_of (zlen rows0) evs)).
    destruct (AddIndexEntry_spec types rows0 es0 b last_key h) as (Hi & He & Hs);
      [done|done|unfold is_u32; lia|done|lia|].
    destruct (IH rows0 _ _ rows Hi He) as (b' & E' & H1' & H2' & H3');
      [done|done|done|rewrite zlen_snoc; lia|].
    exists b'. rewrite E'. rewrite cons_middle, app_assoc. split_and!; congruence || done.
Qed.

(** ** The whole build *)

(** What the builder's 32-bit arithmetic needs of the schema and the rows:
    [T] is the target number of bitmaps, [L] the longest value. *)
Record build_fits (schema : SABISchema) (rows : list sst_row) (T L : Z) : Prop := {
  bf_rows : rows_fit (index_types schema) rows L;
  bf_target : target_bitmaps (schema_attr_num schema) (schema_rho schema) = Ok T;
  bf_nonneg : 0 <= T;
  bf_bins : Z.max T (zlen (index_types schema)) < 2 ^ 31 - 1;
  bf_bounds : (Z.max T (zlen (index_types schema)) + 1) * L < 2 ^ 32;
}.
Definition events_fit (evs : list table_event) : Prop :=
  Forall handle_ok (entries_of 0 evs) /\ zlen (entries_of 0 evs) < 2 ^ 32.

Lemma table_built schema evs rows T L :
  rows_of evs = Ok rows -> build_fits schema rows T L -> events_fit evs ->
  exists b b1 b2, drive evs (new_builder schema) = Ok b /\ SetBinningPolicy b = Ok b1 /\
    CalculateBitmapIndex b1 = Ok b2 /\ index_ok (index_types schema) rows (bitmap_index_ b2) /\
    entries_inv (entries_of 0 evs) b2 /\ schema_ b2 = schema /\
    distinct_cnts_ b2 = distinct_of (index_types schema) rows.
Proof.
  intros Hrows [Hfit HT HT0 Hmax Hcap] [Hh Hlt]. destruct schema as [types rho].
  destruct (drive_spec types evs [] [] (new_builder (mkSABISchema types rho)) rows L)
    as (b & E & Hinv & Hes & Hsch); [apply new_builder_inv|by split_and!|done|done|done|done|].
  change (schema_ b = mkSABISchema types rho) in Hsch. rewrite <- Hsch in HT.
  destruct (build_index_spec hash types rows b T L Hinv Hfit HT HT0 Hmax Hcap)
    as (b1 & b2 & E1 & E2 & Hix & Hs2 & Hb2 & Hc2 & Hd2).
  exists b, b1, b2. split_and!; try done; [|congruence].
  destruct Hes as (Hb & Hc & Ho). split_and!; [by rewrite Hb2|by rewrite Hc2|done].
Qed.

(** The rows a bitmap holds, counted. *)
Definition rows_in (bm : Roaring) (n : Z) : Z :=
  zlen (filter (fun x => r_contains bm x = true) (seqZ 0 n)).

Lemma lt_sorted_nodup l : StronglySorted Z.lt l -> NoDup l.
Proof.
  induction 1 as [|x l Hs IH Hall]; constructor; [|done]. intros Hx.
  rewrite Forall_forall in Hall. specialize (Hall x Hx). lia.
Qed.

Lemma cardinality_rows_in r n :
  (forall x, r_contains r x = true -> 0 <= x < n) -> r_cardinality r = rows_in r n.
Proof.
  intros Hr. rewrite cardinality_array. unfold rows_in, zlen. f_equal. apply Permutation_length.
  apply NoDup_Permutation.
  - apply lt_sorted_nodup, array_sorted.
  - apply NoDup_filter, NoDup_seqZ.
  - intros x. rewrite array_contains, list_elem_of_filter, elem_of_seqZ. split; [|tauto].
    intros Hx. split; [done|]. specialize (Hr x Hx). lia.
Qed.

(** What a reader says of the table it was built from. *)
Record reads_table (schema : SABISchema) (evs : list table_event) (rows : list sst_row)
    (r : SABIReader) : Prop := {
  rt_schema : rd_schema r = index_types schema;
  rt_rows : zlen rows < 2 ^ 32;
  rt_blocks : data_entries_cnt_psum r = map fst (entries_of 0 evs) /\
              block_handles r = map snd (entries_of 0 evs);
  rt_distinct : distinct_cnts r = distinct_of (index_types schema) rows;
  rt_bins : TotalBins r = zsum (bitmap_nums (rd_index r));
  (** resident: the bitmaps are here *)
  rt_index : mode_ r = kResident -> index_ok (index_types schema) rows (rd_index r);
  (** metadata: policies and cardinalities are those of the bitmaps *)
  rt_metadata : exists bi, index_ok (index_types schema) rows bi /\
    bitmap_nums (rd_index r) = bitmap_nums bi /\ binning_policy (rd_index r) = binning_policy bi /\
    forall q bm, (bitmaps bi ++ [tombstone_bitmap bi]) !! q = Some bm ->
      bin_cardinalities r !! q = Some (rows_in bm (zlen rows));
}.

(** Any reader of the table reads an index; a resident one, its own. *)
Lemma resident_reads_index schema evs rows r :
  reads_table schema evs rows r -> mode_ r = kResident ->
  reads_index (index_types schema) rows (rd_index r) r.
Proof. intros [] Hm. split; auto. Qed.

Lemma opened_reads schema evs rows b mode :
  index_ok (index_types schema) rows (bitmap_index_ b) -> schema_ b = schema ->
  distinct_cnts_ b = distinct_of (index_types schema) rows ->
  contents_ok (contents_of b (entries_of 0 evs)) -> zlen rows < 2 ^ 32 ->
  reads_table schema evs rows (opened (contents_of b (entries_of 0 evs)) mode).
Proof.
  intros Hix Hs Hd Hc Hrows. set (c := contents_of b (entries_of 0 evs)) in *. split.
  - cbn [opened rd_schema c contents_of c_types]. by rewrite Hs.
  - done.
  - done.
  - exact Hd.
  - unfold TotalBins. cbn [opened bitmap_offsets_ rd_index bitmap_nums].
    destruct (c_offsets c) eqn:E; [by apply (f_equal length) in E; unfold c_offsets in E;
      rewrite length_offsets_from in E|]. rewrite <- E.
    destruct (dir_counts c Hc) as (_ & _ & _ & _ & _ & Ho). pose proof (zlen_bitmaps c Hc) as Hb.
    unfold zlen in *. rewrite Ho. pose proof (ck_total c Hc).
    pose proof (zsum_nonneg _ (ck_nums_pos c Hc)).
    rewrite u32_small by (unfold is_u32; lia). lia.
  - intros Hm. cbn [opened mode_] in Hm. subst mode. unfold c.
    by rewrite (opened_equiv b (entries_of 0 evs)).
  - exists (bitmap_index_ b). split_and!; [done|by destruct mode|by destruct mode|].
    intros q bm Hq. cbn [opened bin_cardinalities c contents_of c_cards].
    change (map r_runOptimize ?l ++ [r_runOptimize ?t]) with (map r_runOptimize l ++ map r_runOptimize [t]).
    rewrite <- map_app, map_map, list_lookup_fmap, Hq. cbn [fmap option_fmap option_map].
    f_equal. assert (forall x, r_contains bm x = true -> 0 <= x < zlen rows) as Hin.
    { intros x Hx. apply lookup_app_Some in Hq as [Hq|[_ Hq]]; [by eapply (io_only _ _ _ Hix)|].
      apply list_lookup_singleton_Some in Hq as [_ <-].
      apply (io_tombstones _ _ _ Hix) in Hx as [Hx0 Hx]. apply lookup_lt_Some in Hx. unfold zlen. lia. }
    rewrite (cardinality_rows_in _ (zlen rows)).
    + unfold rows_in. f_equal. apply list_filter_iff. intros x. by rewrite contains_runOptimize.
    + intros x. rewrite contains_runOptimize. apply Hin.
Qed.

Lemma table_opened schema evs rows T L b b1 b2 :
  rows_of evs = Ok rows -> build_fits schema rows T L -> events_fit evs ->
  drive evs (new_builder schema) = Ok b -> SetBinningPolicy b = Ok b1 ->
  CalculateBitmapIndex b1 = Ok b2 -> body_room b2 (entries_of 0 evs) < 2 ^ 32 ->
  exists b' blob, Finish b = Ok (b', blob) /\
    (forall f, fac_types f = [] \/ fac_types f = index_types schema ->
       exists r, NewReader f blob = Ok (OK, Some r) /\
         mode_ r = (if fac_ondemand f then kMetadata else kResident) /\
         reads_table schema evs rows r) /\
    (forall f, fac_types f <> [] -> fac_types f <> index_types schema ->
       exists msg, NewReader f blob = Ok (Corruption msg, None)).
Proof.
  intros Hrows Hfit Hevs E E1 E2 Hroom.
  destruct (table_built schema evs rows T L Hrows Hfit Hevs)
    as (b' & b1' & b2' & E' & E1' & E2' & Hix & Hes & Hs & Hd).
  rewrite E in E'. injection E' as <-. rewrite E1 in E1'. injection E1' as <-.
  rewrite E2 in E2'. injection E2' as <-.
  assert (contents_ok (contents_of b2 (entries_of 0 evs))) as Hc.
  { apply (contents_of_ok (index_types schema) rows); try done; [by rewrite Hs|apply Hfit|apply Hes]. }
  destruct (Finish_eq b b1 b2 _ E1 E2 Hes Hc) as (b' & Ef & _).
  eexists _, _. split; [done|].
  assert (forall f, schema_accepts (contents_of b2 (entries_of 0 evs)) (fac_types f) = true <->
    fac_types f = [] \/ fac_types f = index_types schema) as Hacc.
  { intros f. unfold schema_accepts. cbn [contents_of c_types].
    by rewrite Hs, orb_true_iff, !bool_decide_eq_true. }
  split; intros f Hf; rewrite (NewReader_eq _ Hc f).
  - rewrite (proj2 (Hacc f) Hf). eexists. split; [done|]. split; [done|]. apply opened_reads; try done. apply (fit_rows _ _ _ (bf_rows _ _ _ _ Hfit)).
  - intros Hf'. destruct (schema_accepts _ _) eqn:E0; [|by eexists].
    apply Hacc in E0 as [?|?]; done.
Qed.
End Build.

(** A sufficient bound that a run can be checked against. *)
Definition row_fitb (n : nat) (L : Z) (r : sst_row) : bool :=
  match r with
  | None => true
  | Some enc => (length enc =? n)%nat && forallb (fun e => match e with Some v => zlen v <=? L | None => true end) enc
  end.
Definition rows_fitb (types : list IndexType) (rows : list sst_row) (L : Z) : bool :=
  (zlen rows <? 2 ^ 32) && (0 <=? L) && (L <? 2 ^ 31) && (zlen rows * L <? 2 ^ 32) &&
  forallb (row_fitb (length types) L) rows.

Lemma rows_fitb_sound types rows L : rows_fitb types rows L = true -> rows_fit types rows L.
Proof.
  unfold rows_fitb. rewrite !andb_true_iff, !Z.ltb_lt, Z.leb_le, forallb_forall.
  intros ((((Hr & HL) & HL') & Htot) & Hall).
  assert (forall i v, v ∈ column i rows -> zlen v <= L) as Hval.
  { intros i v (j & r & Hj & Hv)%column_elem. unfold row_attr in Hv. destruct r as [enc|]; [|done].
    specialize (Hall (Some enc)). cbn [row_fitb] in Hall. destruct (enc !! i) as [[v'|]|] eqn:Ei; try done.
    injection Hv as ->. rewrite andb_true_iff, forallb_forall in Hall.
    destruct Hall as [_ Hv]; [by eapply list_elem_of_In, list_elem_of_lookup_2|].
    specialize (Hv (Some v)). apply Z.leb_le, Hv. by eapply list_elem_of_In, list_elem_of_lookup_2. }
  split; [done|done|done| |].
  - intros i _. pose proof (column_length i rows) as Hc.
    pose proof (concat_bound L (column i rows) ltac:(apply Forall_forall; apply Hval)). nia.
  - intros r enc Hr' ->. specialize (Hall (Some enc)). cbn [row_fitb] in Hall.
    apply andb_true_iff in Hall as [Hn _]; [|by apply list_elem_of_In]. by apply Nat.eqb_eq.
Qed.

(** ** A table of five rows

    Two attributes, a kRange and a kEquality; a NULL, a tombstone, two data
    blocks. *)
Module Demo.
Definition hash (b : bytes) : Z := le_dec b.
Definition extract (key value : bytes) : result (list EncodedAttr) :=
  Ok [Some value; if beqb value [] then None else Some (take 1 value)].
Definition schema : SABISchema := mkSABISchema [kRange; kEquality] 0x3FE0000000000000.
Definition value_type : ValueType := kTypeOther 1.
Definition events : list table_event :=
  [KeyAdded [x61] value_type [x62; x61]; KeyAdded [x62] value_type [x61];
   KeyAdded [x63] kTypeDeletion []; BlockDone [x63] (mkBlockHandle 0 100);
   KeyAdded [x64] value_type []; KeyAdded [x65] value_type [x62; x63];
   BlockDone [x65] (mkBlockHandle 100 60)].
Definition rows : list sst_row :=
  [Some [Some [x62; x61]; Some [x62]]; Some [Some [x61]; Some [x61]]; None;
   Some [Some []; None]; Some [Some [x62; x63]; Some [x62]]].
Definition factory : SABIFactory := mkSABIFactory [kRange; kEquality] false.

Lemma rows_of_events : rows_of extract events = Ok rows.
Proof. reflexivity. Qed.
Lemma fits : build_fits schema rows 4 2.
Proof.
  split; [by apply rows_fitb_sound|by vm_compute|lia|by vm_compute|by vm_compute].
Qed.
Definition room_checked : bool :=
  match drive hash extract events (new_builder schema) with
  | Ok b => match SetBinningPolicy b with
            | Ok b1 => match CalculateBitmapIndex b1 with
                       | Ok b2 => body_room b2 (entries_of 0 events) <? 2 ^ 32
                       | Fault _ => false
                       end
            | Fault _ => false
            end
  | Fault _ => false
  end.
Lemma room_ok : room_checked = true.
Proof. vm_compute. reflexivity. Qed.
Lemma run : exists b b1 b2, drive hash extract events (new_builder schema) = Ok b /\
  SetBinningPolicy b = Ok b1 /\ CalculateBitmapIndex b1 = Ok b2 /\
  body_room b2 (entries_of 0 events) < 2 ^ 32.
Proof.
  pose proof room_ok as Hr. unfold room_checked in Hr.
  destruct (drive hash extract events (new_builder schema)) as [b|]; [|done].
  destruct (SetBinningPolicy b) as [b1|] eqn:E1; [|done].
  destruct (CalculateBitmapIndex b1) as [b2|] eqn:E2; [|done].
  exists b, b1, b2. split_and!; [done|done|done|]. by apply Z.ltb_lt.
Qed.
Lemma handles : events_fit events.
Proof. split; [|done]. repeat constructor; unfold is_u32; cbn; lia. Qed.

(** A resident reader of the table. *)
Lemma reader : exists r, mode_ r = kResident /\ reads_table schema events rows r.
Proof.
  destruct run as (b & b1 & b2 & E0 & E1 & E2 & Hroom).
  destruct (table_opened hash extract schema events rows 4 2 b b1 b2
    rows_of_events fits handles E0 E1 E2 Hroom) as (b' & blob & _ & Hf & _).
  destruct (Hf factory (or_intror eq_refl)) as (r & _ & Hm & Hr). exists r. exact (conj Hm Hr).
Qed.
Lemma reader_index : exists r, reads_index [kRange; kEquality] rows (rd_index r) r.
Proof. destruct reader as (r & Hm & Hr). exists r. by apply (resident_reads_index schema events). Qed.
End Demo.

(** (C9) An index build. For any sequence of callbacks within the builder's
    32-bit limits, no probe, sort or sweep fails or runs out of turns, and the
    finished index meets its contract: every row is in the bin its value has
    under the attribute's policy and in no other bin of the attribute, NULLs in
    none, tombstones in the tombstone bitmap, no bitmap holds anything else,
    the policies fit the columns, and the distinct counts are exact. *)
Theorem table_index_correct `{RoaringOps} `{!RoaringLaws _} `{Coding} `{!CodingLaws _}
    `{StdSort} `{!StdSortLaws _} hash extract schema evs rows T L :
  rows_of extract evs = Ok rows -> build_fits schema rows T L -> events_fit evs ->
  exists b b1 b2, drive hash extract evs (new_builder schema) = Ok b /\ SetBinningPolicy b = Ok b1 /\
    CalculateBitmapIndex b1 = Ok b2 /\ index_ok (index_types schema) rows (bitmap_index_ b2) /\
    distinct_cnts_ b2 = distinct_of (index_types schema) rows.
Proof.
  intros Hr Hf He. destruct (table_built hash extract schema evs rows T L Hr Hf He)
    as (b & b1 & b2 & E & E1 & E2 & Hix & _ & _ & Hd). by exists b, b1, b2.
Qed.
Lemma table_index_correct_witness : exists b b1 b2,
  drive Demo.hash Demo.extract Demo.events (new_builder Demo.schema) = Ok b /\
  SetBinningPolicy b = Ok b1 /\ CalculateBitmapIndex b1 = Ok b2 /\
  index_ok [kRange; kEquality] Demo.rows (bitmap_index_ b2) /\
  distinct_cnts_ b2 = distinct_of [kRange; kEquality] Demo.rows.
Proof.
  exact (table_index_correct Demo.hash Demo.extract Demo.schema Demo.events Demo.rows 4 2
    Demo.rows_of_events Demo.fits Demo.handles).
Defined.

(** (C10) Round trip of a whole index: when the body fits 32-bit offsets,
    [Finish] writes a blob that [NewReader] opens in the mode asked for, and
    the reader has the schema, the blocks with their row counts, the policies,
    the distinct counts, the cardinalities and (resident) bitmaps that meet the
    contract for the rows of the build. A factory configured with another
    schema refuses it. *)
Theorem table_roundtrip `{RoaringOps} `{!RoaringLaws _} `{Coding} `{!CodingLaws _}
    `{StdSort} `{!StdSortLaws _} hash extract schema evs rows T L b b1 b2 :
  rows_of extract evs = Ok rows -> build_fits schema rows T L -> events_fit evs ->
  drive hash extract evs (new_builder schema) = Ok b -> SetBinningPolicy b = Ok b1 ->
  CalculateBitmapIndex b1 = Ok b2 -> body_room b2 (entries_of 0 evs) < 2 ^ 32 ->
  exists b' blob, Finish b = Ok (b', blob) /\
    (forall f, fac_types f = [] \/ fac_types f = index_types schema ->
       exists r, NewReader f blob = Ok (OK, Some r) /\
         mode_ r = (if fac_ondemand f then kMetadata else kResident) /\
         reads_table schema evs rows r) /\
    (forall f, fac_types f <> [] -> fac_types f <> index_types schema ->
       exists msg, NewReader f blob = Ok (Corruption msg, None)).
Proof. apply table_opened. Qed.
Lemma table_roundtrip_witness : exists b b' blob r,
  drive Demo.hash Demo.extract Demo.events (new_builder Demo.schema) = Ok b /\
  Finish b = Ok (b', blob) /\ NewReader Demo.factory blob = Ok (OK, Some r) /\
  reads_table Demo.schema Demo.events Demo.rows r.
Proof.
  destruct Demo.run as (b & b1 & b2 & E0 & E1 & E2 & Hroom).
  destruct (table_roundtrip Demo.hash Demo.extract Demo.schema Demo.events Demo.rows 4 2 b b1 b2
    Demo.rows_of_events Demo.fits Demo.handles E0 E1 E2 Hroom) as (b' & blob & Ef & Hf & _).
  destruct (Hf Demo.factory (or_intror eq_refl)) as (r & Er & _ & Hr).
  exists b, b', blob, r. exact (conj E0 (conj Ef (conj Er Hr))).
Defined.

Lemma SelectBins_covers_witness : exists r sel q bm,
  SelectBins r (mkSABICondition 1 (FromOp EQUAL [x62]) [x62]) = Ok (Some sel) /\
  sel_first sel <= q <= sel_last sel /\
  bitmaps (rd_index r) !! Z.to_nat q = Some bm /\ r_contains bm 4 = true.
Proof.
  destruct Demo.reader_index as [r Hr].
  destruct (SelectBins_covers [kRange; kEquality] Demo.rows (rd_index r) r
    (mkSABICondition 1 (FromOp EQUAL [x62]) [x62]) 4 [Some [x62; x63]; Some [x62]] Hr eq_refl ltac:(done)
    eq_refl) as (sel & n & q & bm & E & _ & Hq & Hbm & Hc).
  exists r, sel, q, bm. split; [exact E|]. split; [cbv zeta in Hq; lia|]. exact (conj Hbm Hc).
Defined.

Lemma QueryCanMatch_sound_witness : exists r b,
  QueryCanMatch r (mkSABIQuery [[mkSABICondition 0 (FromOp GREATER [x63]) [x63]]] false) = Ok b /\
  (b = false -> forall j enc, Demo.rows !! j = Some (Some enc) ->
     query_sat [kRange; kEquality] enc
       (mkSABIQuery [[mkSABICondition 0 (FromOp GREATER [x63]) [x63]]] false) = false).
Proof.
  destruct Demo.reader_index as [r Hr].
  destruct (QueryCanMatch_sound [kRange; kEquality] Demo.rows (rd_index r) r
    (mkSABIQuery [[mkSABICondition 0 (FromOp GREATER [x63]) [x63]]] false) Hr) as (b & E & Hb).
  exists r, b. exact (conj E Hb).
Defined.
