(* ===== verification/Dumps.v ===== *)
(** * Dumps

    The functions that print a row ([TEST_DumpValue] of [bit_lsm_utils.h]) or an
    index ([SABIBuilder::Dump], [SABIReader::Dump]) on the standard output, as
    the text they write, and the projection of a comparand to a double. Numbers
    are printed in fixed notation with six decimals. *)
From Stdlib Require Import ZArith Lia Strings.Byte Strings.Ascii Strings.String Floats.SpecFloat.
From stdpp Require Import base numbers strings list pretty.
From S2P Require Import Prelude Floats Options Row Okey Query QueryText Externals Builder Reader Index.

Local Open Scope string_scope.
Local Open Scope Z_scope.

(** ** Fixed notation *)

(** Six digits. *)
Definition pad6 (r : Z) : string := zeros (6 - String.length (to_string r)) +:+ to_string r.
Definition fixed_digits (d : Z) : string := to_string (d / 10 ^ 6) +:+ "." +:+ pad6 (d mod 10 ^ 6).
(** The value in millionths, rounded to nearest. *)
Definition millionths (m : positive) (e : Z) : Z := round_ratio (times_pow 10 6 (ratio_of m e)).
Definition fixed_text (nan_neg : bool) (f : spec_float) : string :=
  match f with
  | S754_zero s => sign_text s +:+ fixed_digits 0
  | S754_infinity s => sign_text s +:+ "inf"
  | S754_nan => sign_text nan_neg +:+ "nan"
  | S754_finite s m e => sign_text s +:+ fixed_digits (millionths m e)
  end.

(** The overload on comparands. *)
Definition NumericToDouble_comparand (v : value_type) : spec_float :=
  match v with
  | VInt z | VUint z => f64_of_Z z
  | VDouble d => f64_decode d
  | VString _ => S754_zero false
  end.

(** ** Rows *)
Definition dump_attr (av : AttrView) : result string :=
  match av with
  | ANull => Ok "NULL"
  | AString s => Ok (string_of_list_byte s)
  | _ => d ← NumericToDouble av; Ok (fixed_text (match av with ADouble u => Z.testbit u 63 | _ => false end) d)
  end.

Definition newline : string := String (Ascii.ascii_of_nat 10) "".
Fixpoint dump_attrs (layout : ValueLayout) (input : bytes) (n : nat) (i : Z) : result string :=
  match n with
  | O => Ok newline
  | S n' =>
      av ← DecodeAttr layout input i;
      s ← dump_attr av;
      rest ← dump_attrs layout input n' (i + 1);
      Ok ((if 0 <? i then " / " else "") +:+ s +:+ rest)
  end.
Definition TEST_DumpValue (layout : ValueLayout) (input : bytes) : result string :=
  dump_attrs layout input (length (specs layout)) 0.

(** ** Indexes *)
Definition tab : string := String (Ascii.ascii_of_nat 9) "".
Definition dump_nums (nums : list Z) : string :=
  foldr (fun n s => tab +:+ to_string n +:+ ", " +:+ s) newline nums.
Definition dump_index `{RoaringOps} (bi : BitmapIndex) : string :=
  "bitmap count: " +:+ to_string (zlen (bitmaps bi)) +:+ newline +:+ "bitmap_nums: " +:+ newline +:+ dump_nums (bitmap_nums bi).
Definition SABIReader_Dump `{RoaringOps} (r : SABIReader) : string :=
  "==== SABI Dump ====" +:+ newline +:+ dump_index (rd_index r).
Definition SABIBuilder_Dump `{RoaringOps} (b : SABIBuilder) : string :=
  "==== SABI Dump ====" +:+ newline +:+
  "total_data_entries_size_uncomp_: " +:+ to_string (total_size_uncomp_ b) +:+ newline +:+
  "data_entries_cnt_: " +:+ to_string (data_entries_cnt_ b) +:+ newline +:+
  "index_entries_cnt_: " +:+ to_string (index_entries_cnt_ b) +:+ newline +:+ dump_index (bitmap_index_ b).

(** ** What is printed *)

(** Indexes with the same members print alike. *)
#[export] Instance dump_index_proper `{RoaringOps} : Proper (bi_equiv ==> (=)) dump_index.
Proof. intros a b [En _ Eb _]. unfold dump_index, zlen. by rewrite En, (Forall2_length _ _ _ Eb). Qed.

(** The printed decimal is a nearest one with six decimals. *)
Lemma millionths_nearest m e :
  let w := times_pow 10 6 (ratio_of m e) in 0 <= millionths m e /\ 2 * Z.abs (millionths m e * w.2 - w.1) <= w.2.
Proof.
  assert (forall b k v, 0 < b -> 0 < v.1 -> 0 < v.2 -> 0 < (times_pow b k v).1 /\ 0 < (times_pow b k v).2) as Hp.
  { intros b k v Hb H1 H2. unfold times_pow. cbn [fst snd]. split; (apply Z.mul_pos_pos; [done|apply Z.pow_pos_nonneg; lia]). }
  destruct (Hp 2 e (Zpos m, 1)) as [H1 H2]; [done..|]. destruct (Hp 10 6 (ratio_of m e)) as [H3 H4]; [lia|done|done|].
  destruct (round_ratio_spec _ H4) as (Hr & Ha & _). split; [apply Ha; lia|done].
Qed.

(** What [dump_attrs] prints of decoded values. *)
Fixpoint join (i : Z) (l : list string) : string :=
  match l with [] => newline | s :: rest => (if 0 <? i then " / " else "") +:+ s +:+ join (i + 1) rest end.
Definition attr_text (av : AttrView) : string := match dump_attr av with Ok s => s | Fault _ => "" end.
Lemma dump_attr_total av : dump_attr av = Ok (attr_text av).
Proof. by destruct av. Qed.

Lemma dump_attrs_decoded lay input l i :
  0 <= i -> (forall k av, l !! k = Some av -> DecodeAttr lay input (i + Z.of_nat k) = Ok av) ->
  dump_attrs lay input (length l) i = Ok (join i (map attr_text l)).
Proof.
  revert i. induction l as [|av l IH]; intros i Hi Hd; [done|]. cbn [length dump_attrs map join].
  pose proof (Hd 0%nat av eq_refl) as E. rewrite Z.add_0_r in E. rewrite E. cbn [mbind result_bind].
  rewrite dump_attr_total. cbn [mbind result_bind]. rewrite IH; [done|lia|].
  intros k av' Hk. rewrite <- (Hd (S k) av' Hk). f_equal. lia.
Qed.

(** A dump of an encoded row prints the stored value of every attribute, in the
    order of the schema. *)
Theorem dump_encoded_row o attrs payload out_value :
  schema_ok o -> Forall2 attr_typed (attr_specs o) attrs -> row_fits (attr_specs o) attrs ->
  exists lay v, mkLayout o = Ok lay /\ EncodeValue lay attrs payload out_value = Ok v /\
    TEST_DumpValue lay v = Ok (join 0 (map attr_text (zip_with stored_value (attr_specs o) attrs))).
Proof.
  intros Ho Hty Hrow. destruct (mkLayout_spec o Ho (row_fits_schema _ _ Hrow)) as (lay & Hl & Hlay).
  exists lay, (row_value (attr_specs o) attrs payload). split; [done|]. split; [by apply EncodeValue_refines|].
  unfold TEST_DumpValue. replace (length (specs lay)) with (length (zip_with stored_value (attr_specs o) attrs)).
  - apply dump_attrs_decoded; [done|]. intros k av Hk. apply lookup_zip_with_Some in Hk as (s & a & -> & Hs & Ha).
    rewrite Z.add_0_l. by apply DecodeAttr_row.
  - rewrite length_zip_with, (Forall2_length _ _ _ Hty). rewrite (lo_specs _ _ Hlay), (Forall2_length _ _ _ Hty). lia.
Qed.
Lemma dump_encoded_row_witness : exists lay v, mkLayout demo_options = Ok lay /\
  EncodeValue lay demo_row [x70] [x7a; x7a] = Ok v /\
  TEST_DumpValue lay v = Ok (join 0 (map attr_text (zip_with stored_value (attr_specs demo_options) demo_row))).
Proof. exact (dump_encoded_row demo_options demo_row [x70] [x7a; x7a] demo_schema_ok demo_row_typed demo_row_fits). Defined.

Example dump_demo : attr_text (ADouble (f64_of 21 (-1))) = "10.500000" /\ attr_text (AInt (-7)) = "-7.000000" /\
  attr_text ANull = "NULL" /\ attr_text (ADouble 0x3EB0C6F7A0B5ED8D) = "0.000001".
Proof. vm_compute. done. Qed.
