(* ===== verification/BinSource.v ===== *)
(** * Access to the bins

    A scan asks a reader for bins one at a time or in runs. A resident reader
    hands out its own bitmaps; a metadata reader goes through the shared block
    cache and, for the misses, through one file read per run, which a span
    prefetch may have started already ([SABIReader::Bin], [BinRange],
    [ProbeBin], [LoadRun] and [SABISpanPrefetch] of [sabi_reader.cpp]).

    [BinSource] is what a scan sees of either. *)
From Stdlib Require Import ZArith Lia Strings.Byte Sorting.Sorted.
From stdpp Require Import base numbers list gmap sets sorting.
From S2P Require Import Prelude Options BytesList Query Externals Binning Builder Reader.
From S2P Require Import Index BlobSpec.

(** ** The interface

    [None] is a failed load ([nullptr], [false]). *)
Class BinSource `{RoaringOps} := {
  bin_state : Type;
  bs_bin : Z -> bin_state -> result (option Roaring * bin_state);
  bs_range : Z -> Z -> bin_state -> result (option (list Roaring) * bin_state);
  (** told the selections of a query before they are loaded *)
  bs_plan : list BinSelection -> bin_state -> result bin_state;
}.

(** A selection of bins below [n]. *)
Definition sel_ok (n : Z) (x : BinSelection) : Prop := 0 <= sel_first x <= sel_last x /\ sel_last x < n.

(** Loads may fail, but what they return is the index's bitmaps, [bms]
    (the tombstones last). *)
Class BinSourceLaws `{RoaringOps} (S : BinSource) (bms : list Roaring) (inv : bin_state -> Prop) : Prop := {
  bs_bin_ok q s : inv s -> 0 <= q < zlen bms ->
    exists o s', bs_bin q s = Ok (o, s') /\ inv s' /\
      forall r, o = Some r -> exists bm, bms !! Z.to_nat q = Some bm /\ r_equiv r bm;
  bs_range_ok a b s : inv s -> 0 <= a <= b -> b < zlen bms ->
    exists o s', bs_range a b s = Ok (o, s') /\ inv s' /\
      forall rs, o = Some rs ->
        Forall2 r_equiv rs (take (Z.to_nat (b - a + 1)) (drop (Z.to_nat a) bms));
  bs_plan_ok l s : inv s -> Forall (sel_ok (zlen bms)) l -> exists s', bs_plan l s = Ok s' /\ inv s';
}.

(** ** Resident readers

    The state is the reader, which the accesses leave as it is. *)
#[local] Instance resident_source `{RoaringOps} : BinSource := {|
  bin_state := SABIReader;
  bs_bin q r := b ← ResidentBin r q; Ok (Some b, r);
  bs_range a b r := rs ← ResidentBinRange r a (Z.to_nat (b - a + 1)); Ok (Some rs, r);
  bs_plan _ r := Ok r;
|}.

Section Resident.
Context `{RoaringOps} (r : SABIReader).

Local Abbreviation bms := (bitmaps (rd_index r) ++ [tombstone_bitmap (rd_index r)]).
Context (Htot : TotalBins r = zlen (bitmaps (rd_index r))).

Lemma ResidentBin_ok q : 0 <= q < zlen bms -> exists bm, bms !! Z.to_nat q = Some bm /\ ResidentBin r q = Ok bm.
Proof.
  intros Hq. destruct (lookup_lt_is_Some_2 bms (Z.to_nat q)) as [bm Hbm]; [unfold zlen in Hq; lia|].
  exists bm. split; [done|]. unfold ResidentBin. rewrite zlen_snoc in Hq. rewrite Htot.
  apply lookup_app_Some in Hbm as [Hbm|[Hge Hbm]].
  - pose proof (lookup_lt_Some _ _ _ Hbm). rewrite (proj2 (Z.eqb_neq _ _)) by (unfold zlen; lia).
    apply zget_lookup. split; [lia|done].
  - apply list_lookup_singleton_Some in Hbm as [_ ->]. rewrite (proj2 (Z.eqb_eq _ _)); [done|].
    unfold zlen in *. lia.
Qed.

Lemma ResidentBinRange_ok n a :
  0 <= a -> a + Z.of_nat n <= zlen bms ->
  ResidentBinRange r a n = Ok (take n (drop (Z.to_nat a) bms)).
Proof.
  revert a. induction n as [|n IH]; intros a Ha Hn; cbn [ResidentBinRange]; [done|].
  destruct (ResidentBin_ok a) as (bm & Hbm & E); [lia|]. rewrite E. cbn [mbind result_bind].
  rewrite IH by lia. cbn [mbind result_bind]. rewrite (drop_S _ _ _ Hbm). cbn [firstn take].
  by replace (Z.to_nat (a + 1)) with (S (Z.to_nat a)) by lia.
Qed.

#[local] Instance resident_laws : BinSourceLaws resident_source bms (fun s => s = r).
Proof.
  split; intros; subst s; cbn [bs_bin bs_range bs_plan resident_source].
  - destruct (ResidentBin_ok q) as (bm & Hbm & E); [done|]. rewrite E.
    exists (Some bm), r. split_and!; [done|done|]. intros ? [= <-]. by exists bm.
  - rewrite ResidentBinRange_ok by lia. eexists _, r. split_and!; [done|done|]. by intros ? [= <-].
  - by exists r.
Qed.
End Resident.

(** ** Metadata readers

    What RocksDB decides is left open: at each turn [t] of a clock, whether an
    allocation succeeds, what a read returns, whether an asynchronous read is
    accepted and what polling it gives, whether the cache accepts an entry, and
    what the other users of the shared cache have done to it meanwhile. *)
Inductive submit_result := InFlight | Served (b : bytes) | Refused (not_supported : bool).

Inductive SlotState := kSubmitted | kPopulated | kDead.
Record Slot := mkSlot {
  sl_offset : Z;
  sl_len : Z;
  sl_remaining : Z;
  sl_state : SlotState;
  sl_data : bytes;
}.
Definition kMaxSlots : Z := 64.

(** The counters, which only grow, modulo 2^64. *)
Record SABIBinCacheStats := mkStats {
  st_hits : Z;
  st_misses : Z;
  st_reads : Z;
  st_bytes_read : Z;
  st_bitmaps_loaded : Z;
  st_inserts_refused : Z;
  st_spans_planned : Z;
  st_spans_prefetched : Z;
  st_spans_dropped : Z;
}.
Definition no_stats : SABIBinCacheStats := mkStats 0 0 0 0 0 0 0 0 0.
(** [fetch_add] of every counter. *)
Definition add_stats (d s : SABIBinCacheStats) : SABIBinCacheStats :=
  mkStats (u64 (st_hits s + st_hits d)) (u64 (st_misses s + st_misses d)) (u64 (st_reads s + st_reads d))
    (u64 (st_bytes_read s + st_bytes_read d)) (u64 (st_bitmaps_loaded s + st_bitmaps_loaded d))
    (u64 (st_inserts_refused s + st_inserts_refused d)) (u64 (st_spans_planned s + st_spans_planned d))
    (u64 (st_spans_prefetched s + st_spans_prefetched d)) (u64 (st_spans_dropped s + st_spans_dropped d)).
Definition one_hit : SABIBinCacheStats := mkStats 1 0 0 0 0 0 0 0 0.
Definition one_miss (refused : bool) : SABIBinCacheStats := mkStats 0 1 0 0 1 (if refused then 1 else 0) 0 0 0.
Definition one_read : SABIBinCacheStats := mkStats 0 0 1 0 0 0 0 0 0.
Definition read_bytes (n : Z) : SABIBinCacheStats := mkStats 0 0 0 n 0 0 0 0 0.
Definition planned_spans (n : Z) : SABIBinCacheStats := mkStats 0 0 0 0 0 0 n 0 0.
Definition one_prefetched : SABIBinCacheStats := mkStats 0 0 0 0 0 0 0 1 0.
Definition dropped_spans (n : Z) : SABIBinCacheStats := mkStats 0 0 0 0 0 0 0 0 n.

Section Metadata.
Context `{RoaringOps} `{StdSort}.
Context (r : SABIReader) (udi_off : Z) (has_cache : bool).
Context (alloc_ok : nat -> bool) (file_read : nat -> Z -> Z -> option bytes).
Context (prefetch_async : nat -> Z -> Z -> submit_result) (poll : nat -> Z -> Z -> option bytes).
Context (accepts : nat -> bool) (others : nat -> gmap Z Roaring -> gmap Z Roaring).

(** The block cache's decoded bins by key, the slots of the scan's span
    prefetch ([None] when it has none), the process-wide refusal flag and
    counters, the latter as far as this scan moves them. *)
Record meta := mkMeta {
  cache : gmap Z Roaring;
  slots_ : option (list Slot);
  async_unavailable : bool;
  clock : nat;
  bin_stats : SABIBinCacheStats;
}.
Definition tick (s : meta) : meta :=
  mkMeta (others (clock s) (cache s)) (slots_ s) (async_unavailable s) (S (clock s)) (bin_stats s).
Definition with_cache (c : gmap Z Roaring) (s : meta) : meta :=
  mkMeta c (slots_ s) (async_unavailable s) (clock s) (bin_stats s).
Definition with_slots (l : option (list Slot)) (s : meta) : meta :=
  mkMeta (cache s) l (async_unavailable s) (clock s) (bin_stats s).
Definition count (d : SABIBinCacheStats) (s : meta) : meta :=
  mkMeta (cache s) (slots_ s) (async_unavailable s) (clock s) (add_stats d (bin_stats s)).
Definition GetSABIBinCacheStats (s : meta) : SABIBinCacheStats := bin_stats s.
Definition ResetSABIBinCacheStats (s : meta) : meta :=
  mkMeta (cache s) (slots_ s) (async_unavailable s) (clock s) no_stats.

(** The block-cache key of a bin. *)
Definition BinCacheKey (off : Z) : Z := Z.shiftr (udi_off + off) 2.

Definition ProbeBin (flat_idx : Z) (s0 : meta) : result (option Roaring * meta) :=
  let s := tick s0 in
  if negb has_cache then Ok (None, s) else
  off ← zget (bitmap_offsets_ r) flat_idx;
  match cache s !! BinCacheKey off with
  | Some v => Ok (Some v, count one_hit s)
  | None => Ok (None, s)
  end.

(** [TryConsume]: the bytes copied, and the slots after it. *)
Fixpoint try_consume (t : nat) (offset len : Z) (slots : list Slot)
    : result (option bytes * list Slot) :=
  match slots with
  | [] => Ok (None, [])
  | sl :: rest =>
      if (offset <? sl_offset sl) || (sl_offset sl + sl_len sl <? offset + len) then
        '(o, rest') ← try_consume t offset len rest; Ok (o, sl :: rest')
      else
        let serve (data : bytes) :=
          b ← zsub data (offset - sl_offset sl) len;
          let remaining := sl_remaining sl - Z.min len (sl_remaining sl) in
          Ok (Some b,
              (if remaining =? 0
               then mkSlot (sl_offset sl) (sl_len sl) remaining kDead []
               else mkSlot (sl_offset sl) (sl_len sl) remaining kPopulated data) :: rest) in
        match sl_state sl with
        | kDead => Ok (None, sl :: rest)
        | kSubmitted =>
            match poll t (sl_offset sl) (sl_len sl) with
            | Some data =>
                if zlen data <? sl_len sl
                then Ok (None, mkSlot (sl_offset sl) (sl_len sl) (sl_remaining sl) kDead [] :: rest)
                else serve data
            | None => Ok (None, mkSlot (sl_offset sl) (sl_len sl) (sl_remaining sl) kDead [] :: rest)
            end
        | kPopulated => serve (sl_data sl)
        end
  end.

Definition TryConsume (offset len : Z) (s : meta) : result (option bytes * meta) :=
  match slots_ s with
  | None => Ok (None, s)
  | Some slots =>
      '(o, slots') ← try_consume (clock s) offset len slots;
      let s' := with_slots (Some slots') (tick s) in
      Ok (o, match o with Some _ => count one_prefetched s' | None => s' end)
  end.

(** The decode loop of [LoadRun] over [n] bins from [i]; [a_off] is where the
    arena starts. *)
Fixpoint decode_run (n : nat) (i a_off : Z) (arena : bytes) (s : meta)
    : result (list Roaring * meta) :=
  match n with
  | O => Ok ([], s)
  | S n' =>
      off ← zget (bitmap_offsets_ r) i;
      sz ← zget (bitmap_sizes_ r) i;
      b ← zsub arena (u32 (off - a_off)) sz;
      let view := r_frozenView b in
      let s1 := if has_cache && accepts (clock s)
                then with_cache (<[BinCacheKey off := view]> (cache s)) s else s in
      let s1 := count (one_miss (has_cache && negb (accepts (clock s)))) s1 in
      '(views, s') ← decode_run n' (i + 1) a_off arena (tick s1);
      Ok (view :: views, s')
  end.

Definition LoadRun (a b : Z) (s : meta) : result (option (list Roaring) * meta) :=
  off_a ← zget (bitmap_offsets_ r) a;
  off_b ← zget (bitmap_offsets_ r) b;
  sz_b ← zget (bitmap_sizes_ r) b;
  let file_off := udi_off + off_a in
  let run_len := u32 (u32 (off_b - off_a) + sz_b) in
  if negb (alloc_ok (clock s)) then Ok (None, tick s) else
  '(got, s1) ← TryConsume file_off run_len (tick s);
  let '(arena, s1) :=
    match got with
    | Some bytes => (Some bytes, s1)
    | None =>
        (match file_read (clock s1) file_off run_len with
         | Some result => if zlen result <? run_len then None else Some (take (Z.to_nat run_len) result)
         | None => None
         end, count one_read s1)
    end in
  match arena with
  | None => Ok (None, tick s1)
  | Some arena =>
      '(views, s2) ← decode_run (Z.to_nat (b - a + 1)) a off_a arena (tick (count (read_bytes run_len) s1));
      Ok (Some views, s2)
  end.

(** [Bin]: a span of one. *)
Definition Bin (flat_idx : Z) (s : meta) : result (option Roaring * meta) :=
  '(hit, s1) ← ProbeBin flat_idx s;
  match hit with
  | Some v => Ok (Some v, s1)
  | None =>
      '(loaded, s2) ← LoadRun flat_idx flat_idx s1;
      Ok (match loaded with Some (v :: _) => Some v | _ => None end, s2)
  end.

Fixpoint probe_all (n : nat) (q : Z) (s : meta) : result (list (option Roaring) * meta) :=
  match n with
  | O => Ok ([], s)
  | S n' =>
      '(hit, s1) ← ProbeBin q s;
      '(rest, s2) ← probe_all n' (q + 1) s1;
      Ok (hit :: rest, s2)
  end.

(** The length of the run of misses at the front. *)
Fixpoint miss_run (slots : list (option Roaring)) : nat :=
  match slots with None :: rest => S (miss_run rest) | _ => O end.

(** The coalescing loop: one load per maximal run of misses. *)
Fixpoint fill_misses (fuel : nat) (q : Z) (slots : list (option Roaring)) (s : meta)
    : result (option (list Roaring) * meta) :=
  match slots, fuel with
  | [], _ => Ok (Some [], s)
  | _, O => Fault OutOfFuel
  | Some v :: rest, S f =>
      '(vs, s') ← fill_misses f (q + 1) rest s;
      Ok (option_map (cons v) vs, s')
  | None :: _, S f =>
      let k := miss_run slots in
      '(loaded, s1) ← LoadRun q (q + Z.of_nat k - 1) s;
      match loaded with
      | None => Ok (None, s1)
      | Some vs =>
          '(rest, s2) ← fill_misses f (q + Z.of_nat k) (drop k slots) s1;
          Ok (option_map (app vs) rest, s2)
      end
  end.

Definition BinRange (first_flat last_flat : Z) (s : meta) : result (option (list Roaring) * meta) :=
  let n := Z.to_nat (u32 (last_flat - first_flat + 1)) in
  '(slots, s1) ← probe_all n first_flat s;
  fill_misses n first_flat slots s1.

(** *** The span prefetch *)
Definition BinCached (flat_idx : Z) (s0 : meta) : result (bool * meta) :=
  let s := tick s0 in
  if negb has_cache then Ok (false, s) else
  off ← zget (bitmap_offsets_ r) flat_idx;
  Ok (bool_decide (is_Some (cache s !! BinCacheKey off)), s).

(** The union of selections sorted by their first bin. *)
Fixpoint merge_from (cur : BinSelection) (l : list BinSelection) : list BinSelection :=
  match l with
  | [] => [cur]
  | sel :: rest =>
      if sel_first sel <=? u32 (sel_last cur + 1)
      then merge_from (mkBinSelection (sel_first cur) (Z.max (sel_last cur) (sel_last sel))) rest
      else cur :: merge_from sel rest
  end.
Definition union_selections (selections : list BinSelection) : list BinSelection :=
  match std_sort (fun x y => sel_first x <? sel_first y) selections with
  | [] => []
  | sel :: rest => merge_from sel rest
  end.

(** The cache-missing runs of an interval: bins [i], [i + 1], ... with the run
    that is open. *)
Fixpoint miss_runs (n : nat) (i : Z) (run_start : option Z) (s : meta)
    : result (list BinSelection * meta) :=
  match n with
  | O => Ok (match run_start with Some a => [mkBinSelection a (i - 1)] | None => [] end, s)
  | S n' =>
      '(hit, s1) ← BinCached i s;
      if hit : bool then
        '(rest, s2) ← miss_runs n' (i + 1) None s1;
        Ok (match run_start with Some a => mkBinSelection a (i - 1) :: rest | None => rest end, s2)
      else miss_runs n' (i + 1) (Some (default i run_start)) s1
  end.

Fixpoint plan_runs (ivs : list BinSelection) (s : meta) : result (list BinSelection * meta) :=
  match ivs with
  | [] => Ok ([], s)
  | iv :: rest =>
      '(runs, s1) ← miss_runs (Z.to_nat (sel_last iv - sel_first iv + 1)) (sel_first iv) None s;
      '(more, s2) ← plan_runs rest s1;
      Ok (runs ++ more, s2)
  end.

(** The slot of run [\[a, b\]], unless the submission is refused: whether it was
    put in flight. *)
Definition Submit (a b : Z) (s : meta) : result (bool * meta) :=
  off_a ← zget (bitmap_offsets_ r) a;
  off_b ← zget (bitmap_offsets_ r) b;
  sz_b ← zget (bitmap_sizes_ r) b;
  let offset := udi_off + off_a in
  let len := u32 (u32 (off_b - off_a) + sz_b) in
  let push sl := mkMeta (cache s) (Some (default [] (slots_ s) ++ [sl])) (async_unavailable s) (clock s) (bin_stats s) in
  let '(ok, s') :=
    match prefetch_async (clock s) offset len with
    | InFlight => (true, push (mkSlot offset len len kSubmitted []))
    | Served data =>
        if len <=? zlen data then (true, push (mkSlot offset len len kPopulated data)) else (false, s)
    | Refused not_supported =>
        (false, mkMeta (cache s) (slots_ s) (async_unavailable s || not_supported) (clock s) (bin_stats s))
    end in
  Ok (ok, tick s').

(** The submissions: how many runs were dropped. *)
Fixpoint submit_runs (k : Z) (runs : list BinSelection) (dropped : Z) (s : meta) : result (Z * meta) :=
  match runs with
  | [] => Ok (dropped, s)
  | run :: rest =>
      '(ok, s1) ← (if (kMaxSlots <=? k) || async_unavailable s then Ok (false, s)
                   else Submit (sel_first run) (sel_last run) s);
      submit_runs (k + 1) rest (if ok : bool then dropped else dropped + 1) s1
  end.

(** A new span prefetch for the selections of a query. *)
Definition PlanAndSubmit (selections : list BinSelection) (s0 : meta) : result meta :=
  let s := with_slots (Some []) s0 in
  if async_unavailable s then Ok s else
  '(runs, s1) ← plan_runs (union_selections selections) s;
  if zlen runs <? 2 then Ok s1 else
  '(dropped, s2) ← submit_runs 0 runs 0 (count (planned_spans (zlen runs)) s1);
  Ok (if 0 <? dropped then count (dropped_spans dropped) s2 else s2).

#[local] Instance metadata_source : BinSource := {|
  bin_state := meta; bs_bin := Bin; bs_range := BinRange;
  bs_plan l s := if async_unavailable s then Ok (with_slots None s) else PlanAndSubmit l s;
|}.
End Metadata.

(** ** What a metadata reader returns *)

(** A slice of a slice. *)
Lemma zsub_zsub {A} (l m : list A) off len a n :
  zsub l off len = Ok m -> 0 <= a -> 0 <= n -> a + n <= len -> zsub m a n = zsub l (off + a) n.
Proof.
  unfold zsub. destruct ((off <? 0) || (len <? 0) || (zlen l <? off + len)) eqn:E; [done|].
  intros [= <-] Ha Hn Hle. apply orb_false_iff in E as [[E1 E2]%orb_false_iff E3].
  rewrite Z.ltb_ge in E1, E2, E3.
  assert (zlen (take (Z.to_nat len) (drop (Z.to_nat off) l)) = len) as Hm.
  { unfold zlen in *. rewrite length_take, length_drop. lia. }
  rewrite !(proj2 (Z.ltb_ge _ _)) by lia. cbn [orb]. f_equal.
  rewrite skipn_firstn_comm, take_take, drop_drop. f_equal; [lia|]. f_equal; lia.
Qed.

(** Where the bitmaps lie in the blob. *)
Record extents_ok `{RoaringOps} (r : SABIReader) (blob : bytes) (bms : list Roaring) : Prop := {
  ex_offsets : length (bitmap_offsets_ r) = S (length bms);
  ex_sizes : length (bitmap_sizes_ r) = length bms;
  ex_bin i bm o sz : bms !! i = Some bm -> bitmap_offsets_ r !! i = Some o ->
    bitmap_sizes_ r !! i = Some sz -> 4 <= sz /\ 0 <= o /\ zsub blob o sz = Ok (r_writeFrozen bm);
  ex_next i o sz o' : bitmap_offsets_ r !! i = Some o -> bitmap_sizes_ r !! i = Some sz ->
    bitmap_offsets_ r !! S i = Some o' -> o + sz <= o';
  ex_blob : zlen blob < 2 ^ 32;
}.

(** The bitmaps of a blob lie where its directory says. *)
Lemma frozen_extents `{RoaringOps} `{!RoaringLaws _} bms pre off post i bm o sz :
  0 <= off -> off + frozen_room bms < 2 ^ 32 -> zlen pre = off ->
  bms !! i = Some bm -> offsets_from off (frozen_sizes bms) !! i = Some o ->
  frozen_sizes bms !! i = Some sz ->
  zsub (pre ++ frozen_region off bms ++ post) o sz = Ok (r_writeFrozen bm) /\ off <= o /\
  forall o', offsets_from off (frozen_sizes bms) !! S i = Some o' -> o + sz <= o'.
Proof.
  revert pre off i. induction bms as [|r bms IH]; intros pre off i H0 Hroom Hpre Hi Ho Hsz; [done|].
  pose proof (align_step off r bms H0 Hroom) as [Ha Hb]. pose proof (frozen_room_nonneg bms).
  cbn [frozen_sizes map offsets_from frozen_region] in *.
  rewrite u32_small in * by (unfold is_u32; lia).
  set (off' := align32 (off + r_getFrozenSizeInBytes r)) in *.
  destruct i as [|i]; cbn in Hi, Ho, Hsz.
  - simplify_eq. split; [|split; [lia|]].
    + rewrite <- !app_assoc. apply zsub_app; [done|by rewrite zlen_writeFrozen].
    + intros o' Ho'. cbn in Ho'. assert (o' = off') as ->; [|lia]. by destruct bms; cbn in Ho'; simplify_eq.
  - set (pad := replicate (Z.to_nat (off' - (off + r_getFrozenSizeInBytes r))) x00).
    destruct (IH (pre ++ r_writeFrozen r ++ pad) off' i) as (E & Hle & Hnext); try done; try lia.
    { rewrite !zlen_app, zlen_writeFrozen. unfold pad. rewrite zlen_replicate. lia. }
    split; [|split; [lia|]].
    + rewrite <- !app_assoc in E. by rewrite <- !app_assoc.
    + intros o' Ho'. cbn in Ho'. by apply Hnext.
Qed.

Lemma opened_extents `{RoaringOps} `{!RoaringLaws _} `{Coding} `{!CodingLaws _} c mode :
  contents_ok c -> extents_ok (opened c mode) (c_body c) (c_bitmaps c).
Proof.
  intros Hc. pose proof (region_room c Hc) as [Hr1 Hr2]. pose proof (zlen_region_prefix c Hc) as Hp.
  destruct (dir_counts c Hc) as (_ & _ & _ & Hs & _ & Ho).
  split; cbn [opened bitmap_offsets_ bitmap_sizes_]; try done.
  - intros i bm o sz Hi Hoi Hsi.
    destruct (frozen_extents (c_bitmaps c) (region_prefix c) (region_start c) (policies_bytes (c_policies c))
      i bm o sz) as (E & Hle & _); try done.
    split_and!; [|lia|done]. unfold frozen_sizes in Hsi. rewrite list_lookup_fmap, Hi in Hsi.
    injection Hsi as <-. apply frozen_header.
  - intros i o sz o' Hoi Hsi Hoi'.
    destruct (lookup_lt_is_Some_2 (c_bitmaps c) i) as [bm Hi].
    { rewrite <- Hs. by eapply lookup_lt_Some. }
    destruct (frozen_extents (c_bitmaps c) (region_prefix c) (region_start c) (policies_bytes (c_policies c))
      i bm o sz) as (_ & _ & Hnext); try done. by apply Hnext.
  - apply (body_u32 c Hc).
Qed.

Section Extents.
Context `{RoaringOps} (r : SABIReader) (blob : bytes) (bms : list Roaring).
Context (Hex : extents_ok r blob bms).

Lemma extent_of i bm :
  bms !! i = Some bm -> exists o sz, bitmap_offsets_ r !! i = Some o /\ bitmap_sizes_ r !! i = Some sz /\
    4 <= sz /\ 0 <= o /\ o + sz <= zlen blob /\ zsub blob o sz = Ok (r_writeFrozen bm).
Proof.
  intros Hi. pose proof (lookup_lt_Some _ _ _ Hi).
  destruct (lookup_lt_is_Some_2 (bitmap_offsets_ r) i) as [o Ho]; [rewrite (ex_offsets _ _ _ Hex); lia|].
  destruct (lookup_lt_is_Some_2 (bitmap_sizes_ r) i) as [sz Hsz]; [rewrite (ex_sizes _ _ _ Hex); lia|].
  destruct (ex_bin _ _ _ Hex i bm o sz Hi Ho Hsz) as (Hs4 & Ho0 & Hz). exists o, sz.
  split_and!; try done. unfold zsub in Hz.
  destruct ((o <? 0) || (sz <? 0) || (zlen blob <? o + sz)) eqn:E; [done|].
  apply orb_false_iff in E as [_ E]. by apply Z.ltb_ge.
Qed.

Lemma extent_before i j o sz o' bm :
  (i < j)%nat -> bms !! j = Some bm -> bitmap_offsets_ r !! i = Some o -> bitmap_sizes_ r !! i = Some sz ->
  bitmap_offsets_ r !! j = Some o' -> o + sz <= o'.
Proof.
  intros Hij Hj Ho Hsz. revert bm o' Hj. induction j as [|j IH]; [lia|]. intros bm o' Hj Ho'.
  destruct (decide (i = j)) as [->|]; [by eapply (ex_next _ _ _ Hex)|].
  destruct (lookup_lt_is_Some_2 bms j) as [bm1 Hbm1]; [apply lookup_lt_Some in Hj; lia|].
  destruct (extent_of j bm1 Hbm1) as (o1 & sz1 & Ho1 & Hsz1 & H4 & _).
  pose proof (IH ltac:(lia) bm1 o1 Hbm1 Ho1). pose proof (ex_next _ _ _ Hex j o1 sz1 o' Ho1 Hsz1 Ho'). lia.
Qed.

(** The byte span of a run of bins. *)
Lemma run_span a b bma bmb oa sza ob szb :
  (a <= b)%nat -> bms !! a = Some bma -> bms !! b = Some bmb ->
  bitmap_offsets_ r !! a = Some oa -> bitmap_sizes_ r !! a = Some sza ->
  bitmap_offsets_ r !! b = Some ob -> bitmap_sizes_ r !! b = Some szb ->
  oa <= ob /\ 0 <= oa /\ ob + szb <= zlen blob /\ u32 (u32 (ob - oa) + szb) = ob - oa + szb.
Proof.
  intros Hab Ha Hb Hoa Hsa Hob Hsb.
  destruct (extent_of a bma Ha) as (o1 & s1 & E1 & E2 & H1 & H2 & H3 & _). simplify_eq.
  destruct (extent_of b bmb Hb) as (o2 & s2 & E3 & E4 & H4 & H5 & H6 & _). simplify_eq.
  assert (oa <= ob).
  { destruct (decide (a = b)) as [->|]; [by simplify_eq|].
    pose proof (extent_before a b oa sza ob bmb ltac:(lia) Hb Hoa Hsa Hob). lia. }
  pose proof (ex_blob _ _ _ Hex). split_and!; try lia.
  rewrite (u32_small (ob - oa)) by (unfold is_u32; lia). apply u32_small. unfold is_u32. lia.
Qed.

(** Every bin takes room in the blob. *)
Lemma bins_small : zlen bms <= zlen blob.
Proof.
  assert (forall i bm o, bms !! i = Some bm -> bitmap_offsets_ r !! i = Some o -> Z.of_nat i <= o) as Hge.
  { induction i as [|i IH]; intros bm o Hi Ho.
    - destruct (extent_of 0 bm Hi) as (o' & sz & Ho' & _ & _ & ? & _). simplify_eq. lia.
    - destruct (lookup_lt_is_Some_2 bms i) as [bm' Hi']; [apply lookup_lt_Some in Hi; lia|].
      destruct (extent_of i bm' Hi') as (o' & sz & Ho' & Hsz & ? & _). specialize (IH bm' o' Hi' Ho').
      pose proof (ex_next _ _ _ Hex i o' sz o Ho' Hsz Ho). lia. }
  destruct (decide (bms = [])) as [E|Hne].
  { unfold zlen. rewrite E. simpl. lia. }
  destruct (lookup_lt_is_Some_2 bms (pred (length bms))) as [bm Hbm].
  { destruct bms; [done|simpl; lia]. }
  destruct (extent_of _ _ Hbm) as (o & sz & Ho & _ & ? & _ & ? & _). specialize (Hge _ _ _ Hbm Ho).
  unfold zlen in *. lia.
Qed.

(** Distinct bins have distinct cache keys. *)
Lemma BinCacheKey_inj udi_off i j bmi bmj oi oj :
  bms !! i = Some bmi -> bms !! j = Some bmj -> bitmap_offsets_ r !! i = Some oi ->
  bitmap_offsets_ r !! j = Some oj -> BinCacheKey udi_off oi = BinCacheKey udi_off oj -> i = j.
Proof.
  assert (forall a b, a + 4 <= b -> BinCacheKey udi_off a <> BinCacheKey udi_off b) as Hne.
  { intros a b Hab. unfold BinCacheKey. rewrite !Z.shiftr_div_pow2 by lia. change (2 ^ 2) with 4. intros E.
    pose proof (Z.div_mod (udi_off + a) 4 ltac:(lia)). pose proof (Z.div_mod (udi_off + b) 4 ltac:(lia)).
    pose proof (Z.mod_pos_bound (udi_off + a) 4 ltac:(lia)).
    pose proof (Z.mod_pos_bound (udi_off + b) 4 ltac:(lia)). lia. }
  intros Hi Hj Hoi Hoj E.
  destruct (extent_of i bmi Hi) as (o1 & s1 & E1 & S1 & H1 & _). simplify_eq.
  destruct (extent_of j bmj Hj) as (o2 & s2 & E2 & S2 & H2 & _). simplify_eq.
  destruct (Nat.lt_trichotomy i j) as [Hlt|[|Hlt]]; [|done|]; exfalso.
  - pose proof (extent_before i j oi s1 oj bmj Hlt Hj Hoi S1 Hoj). by apply (Hne oi oj); [lia|].
  - pose proof (extent_before j i oj s2 oi bmi Hlt Hi Hoj S2 Hoi). by apply (Hne oj oi); [lia|].
Qed.
End Extents.

(** ** The plan of a span prefetch *)
Definition sel_in (q : Z) (x : BinSelection) : Prop := sel_first x <= q <= sel_last x.
Definition apart (x y : BinSelection) : Prop := sel_last x + 1 < sel_first y.

Lemma merge_from_spec n cur l :
  n < 2 ^ 32 -> sel_ok n cur -> Forall (sel_ok n) l -> Forall (fun y => sel_first cur <= sel_first y) l ->
  StronglySorted (fun x y => (sel_first y <? sel_first x) = false) l ->
  let ivs := merge_from cur l in
  Forall (sel_ok n) ivs /\ StronglySorted apart ivs /\ Forall (fun y => sel_first cur <= sel_first y) ivs /\
  forall q, Exists (sel_in q) ivs <-> sel_in q cur \/ Exists (sel_in q) l.
Proof.
  intros Hn Hcur Hl. revert cur Hcur.
  induction Hl as [|x l Hx Hl IH]; intros cur Hcur Hge Hs; cbn [merge_from].
  { split_and!; [by constructor|repeat constructor|by repeat constructor|].
    intros q. rewrite Exists_cons, Exists_nil. tauto. }
  apply Forall_cons in Hge as [Hge Hgel]. apply StronglySorted_inv in Hs as [Hs Hall].
  destruct Hcur as [Hc1 Hc2], Hx as [Hx1 Hx2]. rewrite u32_small by (unfold is_u32; lia).
  destruct (Z.leb_spec (sel_first x) (sel_last cur + 1)).
  - destruct (IH (mkBinSelection (sel_first cur) (Z.max (sel_last cur) (sel_last x)))) as (H1 & H2 & H3 & H4);
      [split; cbn; lia|exact Hgel|done|].
    split_and!; try done. intros q. rewrite H4, Exists_cons. unfold sel_in. cbn.
    destruct (Z.le_gt_cases q (sel_last cur)); intuition lia.
  - destruct (IH x (conj Hx1 Hx2)) as (H1 & H2 & H3 & H4); [|done|].
    { eapply Forall_impl; [exact Hall|]. intros y Hy%Z.ltb_ge. lia. }
    split_and!.
    + by constructor.
    + constructor; [done|]. eapply Forall_impl; [exact H3|]. intros y Hy. unfold apart. cbv beta in Hy. lia.
    + constructor; [lia|]. eapply Forall_impl; [exact H3|]. intros y Hy. cbv beta in *. lia.
    + intros q. rewrite !Exists_cons, H4. tauto.
Qed.

(** The intervals of a plan: the selected bins and no others, in order, with a
    gap between any two. *)
Lemma union_selections_spec `{StdSort} `{!StdSortLaws _} n l :
  n < 2 ^ 32 -> Forall (sel_ok n) l ->
  Forall (sel_ok n) (union_selections l) /\ StronglySorted apart (union_selections l) /\
  forall q, Exists (sel_in q) (union_selections l) <-> Exists (sel_in q) l.
Proof.
  intros Hn Hl. unfold union_selections. pose proof (strict_weak_Z sel_first) as Hw.
  pose proof (std_sort_perm _ l Hw) as Hp. pose proof (std_sort_sorted _ l Hw) as Hs.
  destruct (std_sort _ l) as [|x rest].
  { apply Permutation_nil in Hp as ->. split_and!; [constructor|constructor|done]. }
  rewrite <- Hp in Hl. apply Forall_cons in Hl as [Hx Hl]. apply StronglySorted_inv in Hs as [Hs Hall].
  destruct (merge_from_spec n x rest Hn Hx Hl) as (H1 & H2 & _ & H4); [|done|].
  { eapply Forall_impl; [exact Hall|]. intros y Hy%Z.ltb_ge. lia. }
  split_and!; try done. intros q. rewrite H4, <- Hp. by rewrite Exists_cons.
Qed.

Section MetadataSpec.
Context `{RoaringOps} `{!RoaringLaws _} `{StdSort} `{!StdSortLaws _}.
Context (r : SABIReader) (udi_off : Z) (has_cache : bool).
Context (alloc_ok : nat -> bool) (file_read : nat -> Z -> Z -> option bytes).
Context (prefetch_async : nat -> Z -> Z -> submit_result) (poll : nat -> Z -> Z -> option bytes).
Context (accepts : nat -> bool) (others : nat -> gmap Z Roaring -> gmap Z Roaring).
Context (blob : bytes) (bms : list Roaring) (Hex : extents_ok r blob bms).

(** The bytes of the index at [off], when a read of them succeeded. *)
Definition reads_blob (off len : Z) (b : bytes) : Prop :=
  0 <= off -> 0 <= len -> off + len <= zlen blob -> len <= zlen b ->
  zsub blob off len = Ok (take (Z.to_nat len) b).
(** What the cache holds of this index. *)
Definition cache_ok (c : gmap Z Roaring) : Prop :=
  forall i bm o v, bms !! i = Some bm -> bitmap_offsets_ r !! i = Some o ->
    c !! BinCacheKey udi_off o = Some v -> r_equiv v bm.

(** RocksDB returns the bytes of the file, and the other users of the cache
    store decoded bins under the keys of this file too. *)
Context (Hread : forall t off len b, file_read t (udi_off + off) len = Some b -> reads_blob off len b).
Context (Hasync : forall t off len b, prefetch_async t (udi_off + off) len = Served b -> reads_blob off len b).
Context (Hpoll : forall t off len b, poll t (udi_off + off) len = Some b -> reads_blob off len b).
Context (Hothers : forall t c, cache_ok c -> cache_ok (others t c)).

Definition slot_ok (sl : Slot) : Prop :=
  exists x, sl_offset sl = udi_off + x /\ 0 <= x /\ 0 <= sl_len sl /\ x + sl_len sl <= zlen blob /\
    (sl_state sl = kPopulated -> sl_len sl <= zlen (sl_data sl) /\ reads_blob x (sl_len sl) (sl_data sl)).
Record meta_inv (s : meta) : Prop := {
  mi_cache : cache_ok (cache s);
  mi_slots slots : slots_ s = Some slots -> Forall slot_ok slots;
}.

Local Abbreviation tick := (tick others).
Local Abbreviation ProbeBin := (ProbeBin r udi_off has_cache others).
Local Abbreviation TryConsume := (TryConsume poll others).
Local Abbreviation LoadRun := (LoadRun r udi_off has_cache alloc_ok file_read poll accepts others).

Lemma tick_inv s : meta_inv s -> meta_inv (tick s).
Proof. intros [Hc Hs]. split; [by apply Hothers|done]. Qed.
Lemma count_inv d s : meta_inv s -> meta_inv (count d s).
Proof. intros [Hc Hs]. by split. Qed.

Lemma lookup_bms q : 0 <= q < zlen bms -> exists bm, bms !! Z.to_nat q = Some bm.
Proof. intros Hq. apply lookup_lt_is_Some_2. unfold zlen in Hq. lia. Qed.

Lemma zget_extent q bm :
  0 <= q -> bms !! Z.to_nat q = Some bm -> exists o sz,
    zget (bitmap_offsets_ r) q = Ok o /\ zget (bitmap_sizes_ r) q = Ok sz /\
    bitmap_offsets_ r !! Z.to_nat q = Some o /\ bitmap_sizes_ r !! Z.to_nat q = Some sz /\
    4 <= sz /\ 0 <= o /\ o + sz <= zlen blob /\ zsub blob o sz = Ok (r_writeFrozen bm).
Proof.
  intros Hq Hbm. destruct (extent_of r blob bms Hex _ _ Hbm) as (o & sz & Ho & Hsz & Hrest).
  exists o, sz. split_and!; try done; try apply Hrest; by apply zget_lookup.
Qed.

Lemma ProbeBin_ok q s :
  meta_inv s -> 0 <= q < zlen bms ->
  exists o s', ProbeBin q s = Ok (o, s') /\ meta_inv s' /\
    forall v, o = Some v -> exists bm, bms !! Z.to_nat q = Some bm /\ r_equiv v bm.
Proof.
  intros Hs Hq. destruct (lookup_bms q Hq) as [bm Hbm].
  destruct (zget_extent q bm (proj1 Hq) Hbm) as (o & sz & Eo & _ & Ho & _).
  pose proof (tick_inv s Hs) as Ht. unfold BinSource.ProbeBin.
  destruct has_cache; cbn [negb]; [|by exists None, (tick s)].
  rewrite Eo. cbn [mbind result_bind]. destruct (cache (tick s) !! BinCacheKey udi_off o) as [v|] eqn:Ev; [|by exists None, (tick s)].
  eexists _, _. split; [done|]. split; [by apply count_inv|]. intros ? [= <-]. exists bm. split; [done|]. by eapply (mi_cache _ Ht).
Qed.

(** Slicing a buffer that holds a piece of the blob. *)
Lemma reads_sub x len data y n :
  reads_blob x len data -> 0 <= x -> x + len <= zlen blob -> len <= zlen data ->
  0 <= y -> 0 <= n -> y + n <= len ->
  exists b, zsub data y n = Ok b /\ zsub blob (x + y) n = Ok b.
Proof.
  intros Hr Hx Hl Hd Hy Hn Hle. specialize (Hr Hx ltac:(lia) Hl Hd).
  pose proof (zsub_zsub blob _ x len y n Hr Hy Hn Hle) as E.
  assert (zsub data y n = zsub (take (Z.to_nat len) data) y n) as ->.
  { unfold zsub. assert (zlen (take (Z.to_nat len) data) = len) as ->.
    { unfold zlen in *. rewrite length_take. lia. }
    rewrite !(proj2 (Z.ltb_ge _ _)) by lia. cbn [orb].
    rewrite skipn_firstn_comm, take_take. by rewrite Nat.min_l by lia. }
  unfold zsub in E at 1. destruct ((y <? 0) || (n <? 0) || (zlen (take (Z.to_nat len) data) <? y + n)) eqn:C.
  { exfalso. apply orb_true_iff in C as [[C|C]%orb_true_iff|C]; apply Z.ltb_lt in C; try lia.
    unfold zlen in *. rewrite length_take in C. lia. }
  eexists. split; [|by rewrite <- E]. unfold zsub. by rewrite C.
Qed.

Lemma try_consume_ok t x len slots :
  Forall slot_ok slots -> 0 <= x -> 0 <= len -> x + len <= zlen blob ->
  exists o slots', try_consume poll t (udi_off + x) len slots = Ok (o, slots') /\ Forall slot_ok slots' /\
    forall b, o = Some b -> zsub blob x len = Ok b.
Proof.
  intros Hs Hx Hlen Hle. induction Hs as [|sl rest (y & Ey & Hy & Hl & Hyl & Hpop) Hrest (o & rest' & E & Hr' & Ho)];
    cbn [try_consume]; [by exists None, []|].
  rewrite Ey. destruct ((udi_off + x <? udi_off + y) || (udi_off + y + sl_len sl <? udi_off + x + len)) eqn:C.
  { rewrite E. cbn [mbind result_bind]. exists o, (sl :: rest'). split; [done|]. split; [|done].
    constructor; [|done]. by exists y. }
  apply orb_false_iff in C as [C1%Z.ltb_ge C2%Z.ltb_ge].
  replace (udi_off + x - (udi_off + y)) with (x - y) by lia.
  assert (forall data, sl_len sl <= zlen data -> reads_blob y (sl_len sl) data ->
    exists b, zsub data (x - y) len = Ok b /\ zsub blob x len = Ok b) as Hserve.
  { intros data Hd Hr. destruct (reads_sub y (sl_len sl) data (x - y) len) as (b & E1 & E2); try lia; try done.
    exists b. split; [done|]. by replace (y + (x - y)) with x in E2 by lia. }
  assert (forall m, slot_ok (mkSlot (udi_off + y) (sl_len sl) m kDead [])) as Hdead by (intros; by exists y).
  destruct (sl_state sl) eqn:Est.
  - destruct (poll t (udi_off + y) (sl_len sl)) as [data|] eqn:Ep.
    + destruct (Z.ltb_spec (zlen data) (sl_len sl)).
      { eexists None, _. split; [done|]. split; [by constructor|done]. }
      destruct (Hserve data) as (b & E1 & E2); [lia|by eapply Hpoll|]. rewrite E1. cbn [mbind result_bind].
      eexists (Some b), _. split; [done|]. split; [|by intros ? [= <-]]. constructor; [|done].
      case_match; [done|]. exists y. split_and!; try done. intros _. split; [cbn; lia|]. by eapply Hpoll.
    + eexists None, _. split; [done|]. split; [by constructor|done].
  - destruct (Hpop eq_refl) as [Hd Hr]. destruct (Hserve _ Hd Hr) as (b & E1 & E2). rewrite E1.
    cbn [mbind result_bind]. eexists (Some b), _. split; [done|]. split; [|by intros ? [= <-]].
    constructor; [|done]. case_match; [done|]. exists y. by split_and!.
  - eexists None, _. split; [done|]. split; [|done]. constructor; [by exists y; rewrite Est|done].
Qed.

Lemma TryConsume_ok x len s :
  meta_inv s -> 0 <= x -> 0 <= len -> x + len <= zlen blob ->
  exists o s', TryConsume (udi_off + x) len s = Ok (o, s') /\ meta_inv s' /\
    forall b, o = Some b -> zsub blob x len = Ok b.
Proof.
  intros Hs Hx Hlen Hle. unfold BinSource.TryConsume. destruct (slots_ s) as [slots|] eqn:Es.
  - destruct (try_consume_ok (clock s) x len slots) as (o & slots' & E & Hsl & Ho); try done.
    { by apply (mi_slots _ Hs). }
    rewrite E. cbn [mbind result_bind]. eexists _, _. split; [done|]. split; [|done].
    assert (meta_inv (with_slots (Some slots') (tick s))) as Hs'.
    { destruct (tick_inv s Hs) as [Hc _]. split; [done|]. by intros ? [= <-]. }
    destruct o; [by apply count_inv|done].
  - by exists None, s.
Qed.

Lemma insert_cache_ok c i bm o v :
  bms !! i = Some bm -> bitmap_offsets_ r !! i = Some o -> r_equiv v bm -> cache_ok c ->
  cache_ok (<[BinCacheKey udi_off o := v]> c).
Proof.
  intros Hi Ho Hv Hc j bm' o' v' Hj Ho' Hv'. apply lookup_insert_Some in Hv' as [[E ->]|[_ Hv']].
  - assert (i = j) as -> by (by eapply (BinCacheKey_inj r blob bms Hex udi_off)). by simplify_eq.
  - by eapply Hc.
Qed.

(** The arena of a run holds the blob's bytes from the run's first bin on. *)
Lemma decode_run_ok n i a_off arena len s :
  meta_inv s -> 0 <= i -> i + Z.of_nat n <= zlen bms ->
  zsub blob a_off len = Ok arena -> 0 <= a_off ->
  (forall k o sz, i <= k < i + Z.of_nat n -> bitmap_offsets_ r !! Z.to_nat k = Some o ->
     bitmap_sizes_ r !! Z.to_nat k = Some sz -> a_off <= o /\ o + sz <= a_off + len) ->
  exists vs s', decode_run r udi_off has_cache accepts others n i a_off arena s = Ok (vs, s') /\ meta_inv s' /\
    Forall2 r_equiv vs (take n (drop (Z.to_nat i) bms)).
Proof.
  intros Hs Hi Hn Ha Ha0 Hin. revert i s Hs Hi Hn Hin.
  induction n as [|n IH]; intros i s Hs Hi Hn Hin; cbn [decode_run]; [by exists [], s|].
  destruct (lookup_bms i) as [bm Hbm]; [lia|].
  destruct (zget_extent i bm Hi Hbm) as (o & sz & Eo & Esz & Ho & Hsz & H4 & Ho0 & Hole & Hz).
  destruct (Hin i o sz ltac:(lia) Ho Hsz) as [Hlo Hhi]. pose proof (ex_blob _ _ _ Hex).
  rewrite Eo. cbn [mbind result_bind]. rewrite Esz. cbn [mbind result_bind].
  rewrite (u32_small (o - a_off)) by (unfold is_u32; lia).
  rewrite (zsub_zsub blob arena a_off len (o - a_off) sz Ha) by lia.
  replace (a_off + (o - a_off)) with o by lia. rewrite Hz. cbn [mbind result_bind].
  assert (r_equiv (r_frozenView (r_writeFrozen bm)) bm) as Hv by (intros y; apply contains_frozenView).
  set (s0 := if has_cache && accepts (clock s) then _ else s). set (s1 := count _ s0).
  assert (meta_inv s1) as Hs1.
  { apply count_inv. unfold s0. case_match; [|done]. destruct Hs as [Hc Hsl]. split; [|done].
    by eapply insert_cache_ok. }
  destruct (IH (i + 1) (tick s1) (tick_inv _ Hs1) ltac:(lia) ltac:(lia)) as (vs & s' & E & Hs' & Hvs).
  { intros k o' sz' Hk. apply Hin. lia. }
  rewrite E. cbn [mbind result_bind]. eexists _, s'. split; [done|]. split; [done|].
  rewrite (drop_S _ _ _ Hbm). cbn [firstn take].
  replace (S (Z.to_nat i)) with (Z.to_nat (i + 1)) by lia. by constructor.
Qed.

Lemma LoadRun_ok a b s :
  meta_inv s -> 0 <= a <= b -> b < zlen bms ->
  exists o s', LoadRun a b s = Ok (o, s') /\ meta_inv s' /\
    forall vs, o = Some vs -> Forall2 r_equiv vs (take (Z.to_nat (b - a + 1)) (drop (Z.to_nat a) bms)).
Proof.
  intros Hs Hab Hb. destruct (lookup_bms a) as [bma Hbma]; [lia|]. destruct (lookup_bms b) as [bmb Hbmb]; [lia|].
  destruct (zget_extent a bma ltac:(lia) Hbma) as (oa & sza & Eoa & _ & Hoa & Hsza & H4a & Hoa0 & _).
  destruct (zget_extent b bmb ltac:(lia) Hbmb) as (ob & szb & Eob & Eszb & Hob & Hszb & H4b & _).
  destruct (run_span r blob bms Hex (Z.to_nat a) (Z.to_nat b) _ _ _ _ _ _ ltac:(lia) Hbma Hbmb Hoa Hsza Hob Hszb)
    as (Hle & _ & Hend & Elen).
  unfold BinSource.LoadRun. rewrite Eoa. cbn [mbind result_bind]. rewrite Eob. cbn [mbind result_bind].
  rewrite Eszb. cbn [mbind result_bind]. rewrite Elen. set (len := ob - oa + szb) in *.
  destruct (alloc_ok (clock s)); cbn [negb].
  2: { eexists None, _. split; [done|]. split; [by apply tick_inv|done]. }
  destruct (TryConsume_ok oa len (tick s) (tick_inv _ Hs) Hoa0 ltac:(lia) ltac:(lia)) as (got & s1 & E & Hs1 & Hgot).
  rewrite E. cbn [mbind result_bind].
  assert (forall arena s1, meta_inv s1 -> zsub blob oa len = Ok arena -> exists o s',
    ('(views, s2) ← decode_run r udi_off has_cache accepts others (Z.to_nat (b - a + 1)) a oa arena (tick (count (read_bytes len) s1));
     Ok (Some views, s2)) = Ok (o, s') /\ meta_inv s' /\
    forall vs, o = Some vs -> Forall2 r_equiv vs (take (Z.to_nat (b - a + 1)) (drop (Z.to_nat a) bms))) as Hdec.
  { clear s1 E Hs1. intros arena s1 Hs1 Har.
    destruct (decode_run_ok (Z.to_nat (b - a + 1)) a oa arena len (tick (count (read_bytes len) s1))) as (vs & s' & Ed & Hs' & Hvs);
      [by apply tick_inv, count_inv|lia|lia|done|lia| |].
    - intros k o sz Hk Ho Hsz. destruct (lookup_bms k) as [bmk Hbmk]; [lia|].
      destruct (run_span r blob bms Hex (Z.to_nat a) (Z.to_nat k) _ _ _ _ _ _ ltac:(lia) Hbma Hbmk Hoa Hsza Ho Hsz) as (? & _).
      split; [done|]. destruct (decide (k = b)) as [->|]; [simplify_eq; lia|].
      pose proof (extent_before r blob bms Hex (Z.to_nat k) (Z.to_nat b) _ _ _ _ ltac:(lia) Hbmb Ho Hsz Hob). lia.
    - rewrite Ed. cbn [mbind result_bind]. eexists _, _. split; [done|]. split; [done|]. by intros ? [= <-]. }
  destruct got as [b0|]; [apply Hdec; [done|by apply Hgot]|]. pose proof (count_inv one_read s1 Hs1) as Hs1'.
  destruct (file_read (clock s1) (udi_off + oa) len) as [res|] eqn:Er.
  - destruct (Z.ltb_spec (zlen res) len).
    + eexists None, _. split; [done|]. split; [by apply tick_inv|done].
    + apply Hdec; [done|]. eapply Hread; [done|lia..].
  - eexists None, _. split; [done|]. split; [by apply tick_inv|done].
Qed.

Lemma Bin_ok q s :
  meta_inv s -> 0 <= q < zlen bms ->
  exists o s', Bin r udi_off has_cache alloc_ok file_read poll accepts others q s = Ok (o, s') /\ meta_inv s' /\
    forall v, o = Some v -> exists bm, bms !! Z.to_nat q = Some bm /\ r_equiv v bm.
Proof.
  intros Hs Hq. unfold Bin. destruct (ProbeBin_ok q s Hs Hq) as (o & s1 & E & Hs1 & Ho). rewrite E.
  cbn [mbind result_bind]. destruct o as [v|].
  { exists (Some v), s1. by split_and!. }
  destruct (LoadRun_ok q q s1 Hs1 ltac:(lia) ltac:(lia)) as (o & s2 & E2 & Hs2 & Ho2). rewrite E2.
  cbn [mbind result_bind]. eexists _, s2. split; [done|]. split; [done|].
  destruct o as [[|v vs]|]; try done. intros ? [= <-]. specialize (Ho2 _ eq_refl).
  destruct (lookup_bms q Hq) as [bm Hbm]. exists bm. split; [done|].
  rewrite (drop_S _ _ _ Hbm) in Ho2. replace (Z.to_nat (q - q + 1)) with 1%nat in Ho2 by lia.
  cbn [firstn take] in Ho2. by apply Forall2_cons in Ho2 as [? _].
Qed.

Lemma probe_all_ok n q s :
  meta_inv s -> 0 <= q -> q + Z.of_nat n <= zlen bms ->
  exists l s', probe_all r udi_off has_cache others n q s = Ok (l, s') /\ meta_inv s' /\
    Forall2 (fun o bm => forall v, o = Some v -> r_equiv v bm) l (take n (drop (Z.to_nat q) bms)).
Proof.
  revert q s. induction n as [|n IH]; intros q s Hs Hq Hn; cbn [probe_all]; [by exists [], s|].
  destruct (ProbeBin_ok q s Hs ltac:(lia)) as (o & s1 & E & Hs1 & Ho). rewrite E. cbn [mbind result_bind].
  destruct (IH (q + 1) s1 Hs1 ltac:(lia) ltac:(lia)) as (l & s2 & E2 & Hs2 & Hl). rewrite E2.
  cbn [mbind result_bind]. eexists _, s2. split; [done|]. split; [done|].
  destruct (lookup_bms q ltac:(lia)) as [bm Hbm]. rewrite (drop_S _ _ _ Hbm). cbn [firstn take].
  replace (S (Z.to_nat q)) with (Z.to_nat (q + 1)) by lia. constructor; [|done].
  intros v Hv. destruct (Ho v Hv) as (bm' & Hbm' & Hv'). by simplify_eq.
Qed.

Lemma miss_run_le l : (miss_run l <= length l)%nat.
Proof. induction l as [|[v|] l IH]; simpl; lia. Qed.
Lemma miss_run_pos l : (0 < miss_run (None :: l))%nat.
Proof. simpl. lia. Qed.

Lemma fill_misses_ok fuel q l s :
  meta_inv s -> (length l <= fuel)%nat -> 0 <= q ->
  q + zlen l <= zlen bms ->
  Forall2 (fun o bm => forall v, o = Some v -> r_equiv v bm) l (take (length l) (drop (Z.to_nat q) bms)) ->
  exists o s', fill_misses r udi_off has_cache alloc_ok file_read poll accepts others fuel q l s = Ok (o, s') /\
    meta_inv s' /\
    forall vs, o = Some vs -> Forall2 r_equiv vs (take (length l) (drop (Z.to_nat q) bms)).
Proof.
  revert q l s. induction fuel as [|f IH]; intros q l s Hs Hf Hq Hn Hl.
  { destruct l; [|simpl in Hf; lia]. exists (Some []), s. split_and!; try done. by intros ? [= <-]. }
  destruct l as [|[v|] l]; cbn [fill_misses].
  - exists (Some []), s. split_and!; try done. by intros ? [= <-].
  - rewrite zlen_cons in Hn. pose proof (zlen_nonneg l).
    destruct (lookup_bms q ltac:(lia)) as [bm Hbm]. rewrite (drop_S _ _ _ Hbm) in *.
    cbn [length firstn take] in *. replace (S (Z.to_nat q)) with (Z.to_nat (q + 1)) in * by lia.
    apply Forall2_cons in Hl as [Hv Hl].
    destruct (IH (q + 1) l s Hs ltac:(lia) ltac:(lia) ltac:(lia) Hl) as (o & s' & E & Hs' & Ho). rewrite E.
    cbn [mbind result_bind]. eexists _, s'. split; [done|]. split; [done|].
    destruct o as [vs|]; [|done]. intros ? [= <-]. constructor; [by apply Hv|by apply Ho].
  - set (l0 := None :: l) in *. set (k := miss_run l0).
    assert (0 < k <= length l0)%nat as Hk by (split; [apply miss_run_pos|apply miss_run_le]).
    assert (q + Z.of_nat k <= zlen bms) by (unfold zlen in *; lia).
    destruct (LoadRun_ok q (q + Z.of_nat k - 1) s Hs ltac:(lia) ltac:(lia)) as (o & s1 & E & Hs1 & Ho).
    rewrite E. cbn [mbind result_bind]. destruct o as [vs|]; [|by exists None, s1].
    assert (length (drop k l0) = (length l0 - k)%nat) as Hlen by apply length_drop.
    assert (zlen (drop k l0) = zlen l0 - Z.of_nat k) as Hzl by (unfold zlen in *; lia).
    assert (take (length l0) (drop (Z.to_nat q) bms) =
      take k (drop (Z.to_nat q) bms) ++ take (length (drop k l0)) (drop (Z.to_nat (q + Z.of_nat k)) bms)) as Hsplit.
    { rewrite Hlen. replace (Z.to_nat (q + Z.of_nat k)) with (Z.to_nat q + k)%nat by lia.
      rewrite <- drop_drop, take_take_drop. f_equal. lia. }
    rewrite Hsplit in *.
    destruct (IH (q + Z.of_nat k) (drop k l0) s1 Hs1) as (o2 & s2 & E2 & Hs2 & Ho2); [lia|lia|lia| |].
    { apply (Forall2_drop _ _ _ k) in Hl. rewrite drop_app_length' in Hl; [done|].
      rewrite length_take, length_drop. unfold zlen in *. lia. }
    rewrite E2. cbn [mbind result_bind]. eexists _, s2. split; [done|]. split; [done|].
    destruct o2 as [vs2|]; [|done]. intros ? [= <-]. apply Forall2_app; [|by apply Ho2].
    specialize (Ho vs eq_refl). by replace (Z.to_nat (q + Z.of_nat k - 1 - q + 1)) with k in Ho by lia.
Qed.

Lemma BinRange_ok a b s :
  meta_inv s -> 0 <= a <= b -> b < zlen bms ->
  exists o s', BinRange r udi_off has_cache alloc_ok file_read poll accepts others a b s = Ok (o, s') /\
    meta_inv s' /\
    forall vs, o = Some vs -> Forall2 r_equiv vs (take (Z.to_nat (b - a + 1)) (drop (Z.to_nat a) bms)).
Proof.
  intros Hs Hab Hb. pose proof (ex_offsets _ _ _ Hex). unfold BinRange.
  assert (zlen bms <= zlen blob) as Hsmall by exact (bins_small r blob bms Hex).
  pose proof (ex_blob _ _ _ Hex). rewrite u32_small by (unfold is_u32; lia).
  destruct (probe_all_ok (Z.to_nat (b - a + 1)) a s Hs ltac:(lia) ltac:(lia)) as (l & s1 & E & Hs1 & Hl).
  rewrite E. cbn [mbind result_bind].
  assert (length l = Z.to_nat (b - a + 1)) as Hlen.
  { rewrite (Forall2_length _ _ _ Hl), length_take, length_drop. unfold zlen in *. lia. }
  rewrite <- Hlen in *. apply fill_misses_ok; try done; [lia|]. unfold zlen in *. lia.
Qed.

Lemma BinCached_ok q s :
  meta_inv s -> 0 <= q < zlen bms ->
  exists b s', BinCached r udi_off has_cache others q s = Ok (b, s') /\ meta_inv s'.
Proof.
  intros Hs Hq. destruct (lookup_bms q Hq) as [bm Hbm].
  destruct (zget_extent q bm (proj1 Hq) Hbm) as (o & sz & Eo & _). pose proof (tick_inv s Hs) as Ht.
  unfold BinCached. destruct has_cache; cbn [negb]; [|by eexists _, _].
  rewrite Eo. cbn [mbind result_bind]. by eexists _, _.
Qed.

Lemma miss_runs_ok n i st s :
  meta_inv s -> 0 <= i -> i + Z.of_nat n <= zlen bms -> (forall a, st = Some a -> 0 <= a < i) ->
  exists runs s', miss_runs r udi_off has_cache others n i st s = Ok (runs, s') /\ meta_inv s' /\
    Forall (sel_ok (zlen bms)) runs.
Proof.
  revert i st s. induction n as [|n IH]; intros i st s Hs Hi Hn Hst; cbn [miss_runs].
  { eexists _, s. split; [done|]. split; [done|]. destruct st as [a|]; [|done]. specialize (Hst a eq_refl).
    repeat constructor; cbn; lia. }
  destruct (BinCached_ok i s Hs ltac:(lia)) as (hit & s1 & E & Hs1). rewrite E. cbn [mbind result_bind].
  destruct hit.
  - destruct (IH (i + 1) None s1 Hs1) as (runs & s2 & E2 & Hs2 & Hr); [lia|lia|done|]. rewrite E2.
    cbn [mbind result_bind]. eexists _, s2. split; [done|]. split; [done|].
    destruct st as [a|]; [|done]. specialize (Hst a eq_refl). constructor; [|done]. split; cbn; lia.
  - apply IH; [done|lia|lia|]. intros a [= <-]. destruct st as [a|]; cbn; [specialize (Hst a eq_refl)|]; lia.
Qed.

Lemma plan_runs_ok ivs s :
  meta_inv s -> Forall (sel_ok (zlen bms)) ivs ->
  exists runs s', plan_runs r udi_off has_cache others ivs s = Ok (runs, s') /\ meta_inv s' /\
    Forall (sel_ok (zlen bms)) runs.
Proof.
  intros Hs Hivs. revert s Hs. induction Hivs as [|iv ivs [H1 H2] _ IH]; intros s Hs; cbn [plan_runs].
  { by eexists _, _. }
  destruct (miss_runs_ok (Z.to_nat (sel_last iv - sel_first iv + 1)) (sel_first iv) None s Hs)
    as (runs & s1 & E & Hs1 & Hr); [lia|lia|done|]. rewrite E. cbn [mbind result_bind].
  destruct (IH s1 Hs1) as (more & s2 & E2 & Hs2 & Hm). rewrite E2. cbn [mbind result_bind].
  eexists _, s2. split; [done|]. split; [done|]. by apply Forall_app.
Qed.

Lemma Submit_ok a b s :
  meta_inv s -> sel_ok (zlen bms) (mkBinSelection a b) ->
  exists ok s', Submit r udi_off prefetch_async others a b s = Ok (ok, s') /\ meta_inv s'.
Proof.
  intros Hs [Hab Hb]. cbn in Hab, Hb. destruct (lookup_bms a) as [bma Hbma]; [lia|]. destruct (lookup_bms b) as [bmb Hbmb]; [lia|].
  destruct (zget_extent a bma ltac:(lia) Hbma) as (oa & sza & Eoa & _ & Hoa & Hsza & _ & Hoa0 & _).
  destruct (zget_extent b bmb ltac:(lia) Hbmb) as (ob & szb & Eob & Eszb & Hob & Hszb & H4b & _).
  destruct (run_span r blob bms Hex (Z.to_nat a) (Z.to_nat b) _ _ _ _ _ _ ltac:(lia) Hbma Hbmb Hoa Hsza Hob Hszb)
    as (Hle & _ & Hend & Elen).
  unfold Submit. rewrite Eoa. cbn [mbind result_bind]. rewrite Eob. cbn [mbind result_bind].
  rewrite Eszb. cbn [mbind result_bind]. rewrite Elen. set (len := ob - oa + szb) in *.
  destruct Hs as [Hc Hsl].
  assert (forall sl, slot_ok sl -> Forall slot_ok (default [] (slots_ s) ++ [sl])) as Hpush.
  { intros sl Hok. apply Forall_app. split; [|by constructor]. destruct (slots_ s); [by apply Hsl|constructor]. }
  destruct (prefetch_async (clock s) (udi_off + oa) len) as [|data|ns] eqn:Ep.
  - eexists _, _. split; [done|]. apply tick_inv. split; [done|]. intros slots [= <-]. apply Hpush. exists oa. split_and!; try done; cbn; lia.
  - destruct (Z.leb_spec len (zlen data)); (eexists _, _; split; [done|]; apply tick_inv); [|by split].
    split; [done|]. intros slots [= <-]. apply Hpush. exists oa. split_and!; try done; try (cbn; lia).
    intros _. split; [cbn; lia|]. by eapply Hasync.
  - eexists _, _. split; [done|]. apply tick_inv. by split.
Qed.

Lemma submit_runs_ok runs k dropped s :
  meta_inv s -> Forall (sel_ok (zlen bms)) runs ->
  exists dropped' s', submit_runs r udi_off prefetch_async others k runs dropped s = Ok (dropped', s') /\ meta_inv s'.
Proof.
  intros Hs Hr. revert k dropped s Hs. induction Hr as [|[a b] runs Hab _ IH]; intros k dropped s Hs; cbn [submit_runs]; [by eexists _, _|].
  destruct ((kMaxSlots <=? k) || async_unavailable s); [apply (IH _ _ s Hs)|]. cbn [sel_first sel_last].
  destruct (Submit_ok a b s Hs Hab) as (ok & s2 & E & Hs2). rewrite E. cbn [mbind result_bind]. apply (IH _ _ s2 Hs2).
Qed.

Lemma PlanAndSubmit_ok l s :
  meta_inv s -> Forall (sel_ok (zlen bms)) l ->
  exists s', PlanAndSubmit r udi_off has_cache prefetch_async others l s = Ok s' /\ meta_inv s'.
Proof.
  intros Hs Hl. unfold PlanAndSubmit.
  assert (meta_inv (with_slots (Some []) s)) as Hs0.
  { destruct Hs as [Hc _]. split; [done|]. by intros ? [= <-]. }
  set (s0 := with_slots (Some []) s) in *. destruct (async_unavailable s0); [by eexists|].
  pose proof (bins_small r blob bms Hex). pose proof (ex_blob _ _ _ Hex).
  destruct (union_selections_spec (zlen bms) l ltac:(lia) Hl) as (Hu & _).
  destruct (plan_runs_ok (union_selections l) s0 Hs0 Hu) as (runs & s1 & E & Hs1 & Hr). rewrite E.
  cbn [mbind result_bind]. destruct (zlen runs <? 2); [by eexists|].
  destruct (submit_runs_ok runs 0 0 (count (planned_spans (zlen runs)) s1)) as (dropped & s2 & -> & Hs2); [by apply count_inv|done|].
  cbn [mbind result_bind]. eexists. split; [done|]. case_match; [by apply count_inv|done].
Qed.

#[local] Instance metadata_laws :
  BinSourceLaws (metadata_source r udi_off has_cache alloc_ok file_read prefetch_async poll accepts others)
    bms meta_inv.
Proof.
  split; [exact Bin_ok|exact BinRange_ok|]. intros l s Hs Hl. cbn [bs_plan metadata_source].
  destruct (async_unavailable s); [|by apply PlanAndSubmit_ok].
  eexists. split; [done|]. destruct Hs as [Hc _]. by split.
Qed.
End MetadataSpec.

(** ** Whole sequences of accesses *)

(** What a scan asks of its source, in any order and number. *)
Inductive access := Plan (l : list BinSelection) | OneBin (q : Z) | BinSpan (a b : Z).
Definition access_in (n : Z) (x : access) : Prop :=
  match x with
  | Plan l => Forall (sel_ok n) l
  | OneBin q => 0 <= q < n
  | BinSpan a b => 0 <= a <= b /\ b < n
  end.

Section Accesses.
Context `{RoaringOps} {S : BinSource}.

(** The bitmaps an access asks for. *)
Definition wanted (bms : list Roaring) (x : access) : list Roaring :=
  match x with
  | Plan _ => []
  | OneBin q => take 1 (drop (Z.to_nat q) bms)
  | BinSpan a b => take (Z.to_nat (b - a + 1)) (drop (Z.to_nat a) bms)
  end.
Definition run_access (x : access) (s : bin_state) : result (option (list Roaring) * bin_state) :=
  match x with
  | Plan l => s' ← bs_plan l s; Ok (Some [], s')
  | OneBin q => '(o, s') ← bs_bin q s; Ok (option_map (fun v => [v]) o, s')
  | BinSpan a b => bs_range a b s
  end.
Fixpoint run_accesses (l : list access) (s : bin_state) : result (list (option (list Roaring)) * bin_state) :=
  match l with
  | [] => Ok ([], s)
  | x :: rest =>
      '(o, s1) ← run_access x s; '(os, s2) ← run_accesses rest s1; Ok (o :: os, s2)
  end.
(** A failed load, or the bitmaps asked for. *)
Definition answers (bms : list Roaring) (x : access) (o : option (list Roaring)) : Prop :=
  forall vs, o = Some vs -> Forall2 r_equiv vs (wanted bms x).

Lemma run_access_ok bms inv `{!BinSourceLaws S bms inv} x s :
  inv s -> access_in (zlen bms) x ->
  exists o s', run_access x s = Ok (o, s') /\ inv s' /\ answers bms x o.
Proof.
  intros Hi Hx. destruct x as [l|q|a b]; cbn [run_access access_in] in *.
  - destruct (bs_plan_ok l s Hi Hx) as (s' & E & Hi'). rewrite E. eexists _, s'. split; [done|].
    split; [done|]. by intros vs [= <-].
  - destruct (bs_bin_ok q s Hi Hx) as (o & s' & E & Hi' & Ho). rewrite E. eexists _, s'. split; [done|].
    split; [done|]. intros vs Hvs. destruct o as [v|]; [|done]. injection Hvs as <-.
    destruct (Ho v eq_refl) as (bm & Hbm & Heq). cbn [wanted]. rewrite (drop_S _ _ _ Hbm). by repeat constructor.
  - destruct Hx as [Hx1 Hx2]. destruct (bs_range_ok a b s Hi Hx1 Hx2) as (o & s' & E & Hi' & Ho). by exists o, s'.
Qed.

Lemma run_accesses_ok bms inv `{!BinSourceLaws S bms inv} l s :
  inv s -> Forall (access_in (zlen bms)) l ->
  exists os s', run_accesses l s = Ok (os, s') /\ inv s' /\ Forall2 (answers bms) l os.
Proof.
  intros Hi Hl. revert s Hi. induction Hl as [|x l Hx _ IH]; intros s Hi; cbn [run_accesses].
  { by exists [], s. }
  destruct (run_access_ok bms inv x s Hi Hx) as (o & s1 & E & Hi1 & Ho). rewrite E. cbn [mbind result_bind].
  destruct (IH s1 Hi1) as (os & s2 & E2 & Hi2 & Hos). rewrite E2. eexists _, s2. split; [done|].
  split; [done|]. by constructor.
Qed.
End Accesses.

(** ** The outside world of a metadata reader *)
Record io_faithful `{RoaringOps} (r : SABIReader) (udi_off : Z) (blob : bytes) (bms : list Roaring)
    (file_read : nat -> Z -> Z -> option bytes) (prefetch_async : nat -> Z -> Z -> submit_result)
    (poll : nat -> Z -> Z -> option bytes) (others : nat -> gmap Z Roaring -> gmap Z Roaring) : Prop := {
  io_read t off len b : file_read t (udi_off + off) len = Some b -> reads_blob blob off len b;
  io_async t off len b : prefetch_async t (udi_off + off) len = Served b -> reads_blob blob off len b;
  io_poll t off len b : poll t (udi_off + off) len = Some b -> reads_blob blob off len b;
  io_others t c : cache_ok r udi_off bms c -> cache_ok r udi_off bms (others t c);
}.

(** (C21) On-demand bins are the index's bitmaps. For a metadata reader whose
    directory fits the blob in the file: whatever allocations, reads and
    asynchronous submissions fail, whatever the shared cache keeps, drops or
    gets from other users, and in whatever order bins, ranges and span
    prefetches are asked for, every access ends and either reports a failure or
    returns exactly the bitmaps asked for. *)
Theorem metadata_bins_correct `{RoaringOps} `{!RoaringLaws _} `{StdSort} `{!StdSortLaws _}
    r udi_off has_cache alloc_ok file_read prefetch_async poll accepts others blob bms s l :
  extents_ok r blob bms ->
  io_faithful r udi_off blob bms file_read prefetch_async poll others ->
  cache_ok r udi_off bms (cache s) -> slots_ s = None ->
  Forall (access_in (zlen bms)) l ->
  exists os s',
    @run_accesses _ (metadata_source r udi_off has_cache alloc_ok file_read prefetch_async poll accepts others) l s =
      Ok (os, s') /\ Forall2 (answers bms) l os.
Proof.
  intros Hex [] Hc Hn Hl.
  pose proof (metadata_laws r udi_off has_cache alloc_ok file_read prefetch_async poll accepts others blob bms
    Hex io_read0 io_async0 io_poll0 io_others0) as Hlaws.
  destruct (@run_accesses_ok _ _ bms _ Hlaws l s) as (os & s' & E & _ & Ho); [|done|by exists os, s'].
  split; [done|]. by rewrite Hn.
Qed.

(** A directory of two bitmaps at offset 100 of a file; reads through a slot
    fail every other time. *)
Module MetaDemo.
Definition bms : list N := [5%N; 2%N].
Definition blob : bytes := r_writeFrozen 5%N ++ [x00] ++ r_writeFrozen 2%N.
Definition r : SABIReader :=
  mkSABIReader [kRange] kMetadata (mkBitmapIndex [] 0%N [1] []) [] [] [] [2; 1] [0; 8; 14] [7; 6].
Definition read (t : nat) (off len : Z) : option bytes :=
  match zsub blob (off - 100) len with Ok b => Some b | Fault _ => None end.
Definition poll (t : nat) (off len : Z) : option bytes := if Nat.even t then read t off len else None.

Lemma extents : extents_ok r blob bms.
Proof.
  split; try done.
  - intros [|[|i]] bm o sz; cbn; [| |done]; intros [= <-] [= <-] [= <-]; split_and!; (lia || by vm_compute).
  - intros [|[|[|i]]] o sz o'; cbn; try done; intros [= <-] [= <-] [= <-]; lia.
Qed.
Lemma read_ok t off len b : read t (100 + off) len = Some b -> reads_blob blob off len b.
Proof.
  unfold read. replace (100 + off - 100) with off by lia. destruct (zsub blob off len) as [b'|] eqn:E; [|done].
  intros [= <-] Ho Hl He Hb. rewrite E. f_equal. symmetry. apply take_ge. unfold zsub in E.
  destruct (_ || _ || _); [done|]. injection E as <-. rewrite length_take. lia.
Qed.
Lemma faithful : io_faithful r 100 blob bms read (fun _ _ _ => InFlight) poll (fun _ c => c).
Proof.
  split; [apply read_ok|done| |done]. intros t off len b. unfold poll. destruct (Nat.even t); [apply read_ok|done].
Qed.
End MetaDemo.

Lemma metadata_bins_correct_witness : exists os s',
  @run_accesses _ (metadata_source MetaDemo.r 100 true (fun _ => true) MetaDemo.read (fun _ _ _ => InFlight)
    MetaDemo.poll Nat.even (fun _ c => c))
    [Plan [mkBinSelection 0 0; mkBinSelection 1 1]; BinSpan 0 1; OneBin 1] (mkMeta ∅ None false 0 no_stats) = Ok (os, s') /\
  Forall2 (answers MetaDemo.bms) [Plan [mkBinSelection 0 0; mkBinSelection 1 1]; BinSpan 0 1; OneBin 1] os.
Proof.
  apply (metadata_bins_correct MetaDemo.r 100 true (fun _ => true) MetaDemo.read (fun _ _ _ => InFlight)
    MetaDemo.poll Nat.even (fun _ c => c) MetaDemo.blob MetaDemo.bms).
  - exact MetaDemo.extents.
  - exact MetaDemo.faithful.
  - intros i bm o v _ _ Hv. cbn [cache] in Hv. by rewrite lookup_empty in Hv.
  - done.
  - repeat constructor; done.
Defined.

(** The plan of a span prefetch: the intervals cover exactly the bins some
    selection asked for, no two overlap or touch, and all stay inside the
    directory. *)
Theorem union_selections_correct `{StdSort} `{!StdSortLaws _} n l :
  n < 2 ^ 32 -> Forall (sel_ok n) l ->
  Forall (sel_ok n) (union_selections l) /\ StronglySorted apart (union_selections l) /\
  forall q, Exists (sel_in q) (union_selections l) <-> Exists (sel_in q) l.
Proof. apply union_selections_spec. Qed.
Lemma union_selections_correct_witness :
  let l := [mkBinSelection 7 9; mkBinSelection 0 2; mkBinSelection 3 4] in
  StronglySorted apart (union_selections l) /\
  forall q, Exists (sel_in q) (union_selections l) <-> Exists (sel_in q) l.
Proof.
  intros l. apply (union_selections_correct 10 l); [done|]. repeat constructor; cbn; lia.
Defined.
