(* ===== verification/BinStats.v ===== *)
(** * The counters of the bin cache

    [sabi.h] documents nine process-wide counters of the on-demand bins
    ([SABIBinCacheStats]); [BinSource] moves them where [sabi_reader.cpp] does.
    This file shows that they add up. *)
From Stdlib Require Import ZArith Lia Strings.Byte.
From stdpp Require Import base numbers gmap sets list.
From S2P Require Import Prelude Options BytesList Query Externals Binning Builder Reader.
From S2P Require Import Index BlobSpec BinSource.

(** ** Increments *)
Definition plus_stats (d e : SABIBinCacheStats) : SABIBinCacheStats :=
  mkStats (st_hits d + st_hits e) (st_misses d + st_misses e) (st_reads d + st_reads e) (st_bytes_read d + st_bytes_read e)
    (st_bitmaps_loaded d + st_bitmaps_loaded e) (st_inserts_refused d + st_inserts_refused e)
    (st_spans_planned d + st_spans_planned e) (st_spans_prefetched d + st_spans_prefetched e) (st_spans_dropped d + st_spans_dropped e).
Definition stats_wf (s : SABIBinCacheStats) : Prop :=
  is_u64 (st_hits s) /\ is_u64 (st_misses s) /\ is_u64 (st_reads s) /\ is_u64 (st_bytes_read s) /\ is_u64 (st_bitmaps_loaded s) /\
  is_u64 (st_inserts_refused s) /\ is_u64 (st_spans_planned s) /\ is_u64 (st_spans_prefetched s) /\ is_u64 (st_spans_dropped s).

Lemma plus_none d : plus_stats no_stats d = d.
Proof. by destruct d. Qed.

(** The counters moved by [d]. *)
Definition moved {R : RoaringOps} (d : SABIBinCacheStats) (s s' : meta) : Prop :=
  stats_wf (bin_stats s) -> stats_wf (bin_stats s') /\ bin_stats s' = add_stats d (bin_stats s).

Lemma u64_plus x y z : u64 (u64 (x + y) + z) = u64 (x + (y + z)).
Proof. unfold u64. rewrite Zplus_mod_idemp_l. f_equal. lia. Qed.

Section Moved.
Context {R : RoaringOps}.
Lemma moved_count d (s : meta) : moved d s (count d s).
Proof. intros _. split; [|done]. unfold stats_wf. cbn. split_and!; apply u64_range. Qed.
Lemma moved_same (s s' : meta) : bin_stats s' = bin_stats s -> moved no_stats s s'.
Proof.
  intros E Hw. rewrite E. split; [done|]. unfold stats_wf in Hw. destruct (bin_stats s). cbn in Hw. destruct_and!.
  unfold add_stats. cbn. by rewrite !Z.add_0_r, !u64_small.
Qed.
Lemma moved_trans d e (s1 s2 s3 : meta) : moved d s1 s2 -> moved e s2 s3 -> moved (plus_stats d e) s1 s3.
Proof.
  intros H1 H2 Hw. destruct (H1 Hw) as [Hw2 E2]. destruct (H2 Hw2) as [Hw3 E3]. split; [done|]. rewrite E3, E2.
  unfold add_stats, plus_stats. cbn. by rewrite !u64_plus.
Qed.
Lemma moved_then_same d (s1 s2 s3 : meta) : moved d s1 s2 -> bin_stats s3 = bin_stats s2 -> moved d s1 s3.
Proof. intros H1 E. unfold moved. rewrite E. exact H1. Qed.
Lemma moved_after_same d (s1 s2 s3 : meta) : bin_stats s2 = bin_stats s1 -> moved d s2 s3 -> moved d s1 s3.
Proof. intros E. unfold moved. by rewrite E. Qed.
Lemma moved_eq d e (s s' : meta) : moved d s s' -> d = e -> moved e s s'.
Proof. by intros H <-. Qed.
End Moved.

(** ** The books

    [got] bins were handed out and [failed] accesses reported a failure. Every
    bin handed out was a hit or a miss; every miss was decoded once; a run of
    misses cost one read or one prefetched span, and so did at most one run of a
    failed access; refused inserts are misses; dropped spans were planned. *)
Record books (has_cache : bool) (got failed : Z) (d : SABIBinCacheStats) : Prop := {
  bk_sign : 0 <= st_hits d /\ 0 <= st_reads d /\ 0 <= st_spans_prefetched d /\ 0 <= st_bytes_read d;
  bk_failed : 0 <= failed;
  bk_loaded : st_bitmaps_loaded d = st_misses d;
  bk_refused : 0 <= st_inserts_refused d <= st_misses d;
  bk_got : got <= st_hits d + st_misses d;
  bk_all : failed = 0 -> got = st_hits d + st_misses d;
  bk_runs : st_reads d + st_spans_prefetched d <= st_misses d + failed;
  bk_cost : 0 < st_misses d -> 0 < st_reads d + st_spans_prefetched d;
  bk_spans : 0 <= st_spans_dropped d <= st_spans_planned d;
  bk_cache : has_cache = false -> st_hits d = 0 /\ st_inserts_refused d = 0;
}.
Lemma books_none c : books c 0 0 no_stats.
Proof. split; cbn; try lia. Qed.
Lemma books_plus c g1 f1 d1 g2 f2 d2 : books c g1 f1 d1 -> books c g2 f2 d2 -> books c (g1 + g2) (f1 + f2) (plus_stats d1 d2).
Proof.
  intros [] []. destruct_and!. split; cbn; try lia.
  intros ->. destruct bk_cache0, bk_cache1; try done. lia.
Qed.

Section Account.
Context `{RoaringOps} `{StdSort}.
Context (r : SABIReader) (udi_off : Z) (has_cache : bool).
Context (alloc_ok : nat -> bool) (file_read : nat -> Z -> Z -> option bytes).
Context (prefetch_async : nat -> Z -> Z -> submit_result) (poll : nat -> Z -> Z -> option bytes).
Context (accepts : nat -> bool) (others : nat -> gmap Z Roaring -> gmap Z Roaring).
Local Abbreviation tick := (tick others).

Definition hits_of (n : Z) : SABIBinCacheStats := mkStats n 0 0 0 0 0 0 0 0.
Definition some_of {A} (o : option A) : Z := match o with Some _ => 1 | None => 0 end.

Lemma ProbeBin_moves q s o s' : ProbeBin r udi_off has_cache others q s = Ok (o, s') ->
  moved (hits_of (some_of o)) s s' /\ (has_cache = false -> o = None).
Proof.
  unfold ProbeBin. destruct has_cache; cbn [negb].
  - intros (off & _ & E)%result_bind_ok. split; [|done]. destruct (cache (tick s) !! _) as [v|]; injection E as <- <-.
    + apply (moved_after_same _ s (tick s) _ eq_refl). apply (moved_count one_hit).
    + by apply moved_same.
  - intros [= <- <-]. split; [by apply moved_same|done].
Qed.

Lemma probe_all_moves n q s l s' : probe_all r udi_off has_cache others n q s = Ok (l, s') ->
  moved (hits_of (zsum (map some_of l))) s s' /\ length l = n /\ (has_cache = false -> Forall (fun o => o = None) l).
Proof.
  revert q s l. induction n as [|n IH]; intros q s l; cbn [probe_all].
  { intros [= <- <-]. split; [by apply moved_same|done]. }
  intros ([o s1] & E1 & ([l' s2] & E2 & [= <- <-])%result_bind_ok)%result_bind_ok.
  destruct (ProbeBin_moves q s o s1 E1) as [H1 Hc1]. destruct (IH _ _ _ E2) as (H2 & Hl & Hc2).
  split; [|split; [cbn; by rewrite Hl|intros Hc; constructor; auto]]. apply (moved_eq _ _ _ _ (moved_trans _ _ _ _ _ H1 H2)).
  done.
Qed.

(** [n] misses, [k] of them refused by the cache. *)
Definition misses_of (n k : Z) : SABIBinCacheStats := mkStats 0 n 0 0 n k 0 0 0.
Lemma decode_run_moves n i a_off arena s vs s' :
  decode_run r udi_off has_cache accepts others n i a_off arena s = Ok (vs, s') ->
  length vs = n /\ exists k, 0 <= k <= Z.of_nat n /\ (has_cache = false -> k = 0) /\ moved (misses_of (Z.of_nat n) k) s s'.
Proof.
  revert i s vs. induction n as [|n IH]; intros i s vs; cbn [decode_run].
  { intros [= <- <-]. split; [done|]. exists 0. split; [lia|]. split; [done|]. by apply moved_same. }
  intros (off & _ & (sz & _ & (b & _ & ([vs' s2] & E & [= <- <-])%result_bind_ok)%result_bind_ok)%result_bind_ok)%result_bind_ok.
  destruct (IH _ _ _ E) as (Hl & k & Hk & Hc & Hm). split; [cbn; by rewrite Hl|].
  set (ref := has_cache && negb (accepts (clock s))) in *. exists ((if ref then 1 else 0) + k).
  split; [destruct ref; lia|]. split; [intros Hf; unfold ref; rewrite Hf in *; cbn; rewrite Hc; done|].
  set (s0 := if has_cache && accepts (clock s) then _ else s) in *.
  pose proof (moved_trans _ _ _ _ _ (moved_count (one_miss ref) s0) (moved_after_same _ _ _ _ eq_refl Hm)) as H2.
  eapply moved_after_same in H2; [|instantiate (1 := s); unfold s0; by destruct (has_cache && accepts (clock s))].
  apply (moved_eq _ _ _ _ H2). unfold misses_of, plus_stats, one_miss. cbn. f_equal; lia.
Qed.

(** What one run costs: its misses, one read or one prefetched span, bytes; a
    failed one at most a read. *)
Definition run_cost (n k reads prefetched bytes : Z) : SABIBinCacheStats := mkStats 0 n reads bytes n k 0 prefetched 0.
Definition run_books (o : option (list Roaring)) (n : nat) (d : SABIBinCacheStats) : Prop :=
  exists k reads prefetched bytes, d = run_cost (if o then Z.of_nat n else 0) k reads prefetched bytes /\ 0 <= bytes /\
    0 <= reads /\ 0 <= prefetched /\ (has_cache = false -> k = 0) /\
    match o with
    | Some vs => length vs = n /\ 0 <= k <= Z.of_nat n /\ reads + prefetched = 1
    | None => k = 0 /\ reads + prefetched <= 1
    end.

Lemma TryConsume_moves off len s o s' : TryConsume poll others off len s = Ok (o, s') ->
  moved (run_cost 0 0 0 (some_of o) 0) s s'.
Proof.
  unfold TryConsume. destruct (slots_ s) as [slots|]; [|intros [= <- <-]; by apply moved_same].
  intros ([o' slots'] & _ & [= <- <-])%result_bind_ok. destruct o'; [|by apply moved_same].
  apply (moved_after_same _ s (with_slots (Some slots') (tick s)) _ eq_refl). apply (moved_count one_prefetched).
Qed.

Lemma LoadRun_moves a b s o s' : a <= b -> LoadRun r udi_off has_cache alloc_ok file_read poll accepts others a b s = Ok (o, s') ->
  exists d, moved d s s' /\ run_books o (Z.to_nat (b - a + 1)) d.
Proof.
  intros Hab. unfold LoadRun. intros (oa & _ & (ob & _ & (szb & _ & E)%result_bind_ok)%result_bind_ok)%result_bind_ok.
  set (len := u32 _) in E. assert (0 <= len) as Hlen by apply u32_range. destruct (alloc_ok (clock s)); cbn [negb] in E.
  2: { injection E as <- <-. exists no_stats. split; [by apply moved_same|]. exists 0, 0, 0, 0. split_and!; done || lia. }
  apply result_bind_ok in E as ([got s1] & E1 & E). apply TryConsume_moves in E1.
  eapply moved_after_same in E1; [|instantiate (1 := s); done].
  set (p := match got with Some _ => _ | None => _ end) in E.
  assert (exists arena s2 reads prefetched, p = (arena, s2) /\ moved (run_cost 0 0 reads prefetched 0) s s2 /\
    reads + prefetched = 1 /\ 0 <= reads /\ 0 <= prefetched) as (arena & s2 & reads & prefetched & -> & Hm & Hrp).
  { unfold p. destruct got; [by eexists _, _, 0, 1|]. eexists _, _, 1, 0. split; [done|]. split; [|lia].
    exact (moved_trans _ _ _ _ _ E1 (moved_count one_read s1)). }
  destruct arena as [arena|].
  - apply result_bind_ok in E as ([vs s3] & E & [= <- <-]). destruct (decode_run_moves _ _ _ _ _ _ _ E) as (Hl & k & Hk & Hc & Hd).
    pose proof (moved_trans _ _ _ _ _ (moved_trans _ _ _ _ _ Hm (moved_count (read_bytes len) s2)) (moved_after_same _ _ _ _ eq_refl Hd)) as H2.
    eexists. split; [exact H2|]. exists k, reads, prefetched, len. split; [unfold run_cost, plus_stats; cbn; f_equal; lia|]. split_and!; done || lia.
  - injection E as <- <-. eexists. split; [exact (moved_then_same _ _ _ _ Hm eq_refl)|]. exists 0, reads, prefetched, 0. split_and!; done || lia.
Qed.

Lemma books_less c g g' f d : books c g f d -> 0 < f -> g' <= g -> books c g' f d.
Proof. intros [] Hf Hg. split; try done; lia. Qed.
Lemma books_eq c g f d e : books c g f d -> d = e -> books c g f e.
Proof. by intros H1 <-. Qed.

(** What an access handed out, and whether it failed. *)
Definition got (o : option (list Roaring)) : Z := match o with Some vs => zlen vs | None => 0 end.
Definition fails (o : option (list Roaring)) : Z := match o with Some _ => 0 | None => 1 end.

Lemma run_books_ok o n d : (0 < n)%nat -> run_books o n d -> books has_cache (got o) (fails o) d.
Proof.
  intros Hn (k & reads & prefetched & bytes & -> & Hb & Hr & Hp & Hc & Ho). unfold run_cost.
  destruct o as [vs|]; cbn [got fails]; destruct_and!; (split; cbn; unfold zlen; try lia).
  intros Hf. by rewrite (Hc Hf).
Qed.

Lemma miss_run_none l : zsum (map some_of (take (miss_run l) l)) = 0.
Proof. induction l as [|[v|] l IH]; [done|done|exact IH]. Qed.

Lemma some_sum_nonneg {A} (l : list (option A)) : 0 <= zsum (map some_of l).
Proof. induction l as [|[v|] l IH]; unfold zsum in *; cbn [map fold_right some_of]; lia. Qed.
Lemma none_sum {A} (l : list (option A)) : Forall (fun o => o = None) l -> zsum (map some_of l) = 0.
Proof. induction 1 as [|o l -> _ IH]; unfold zsum in *; cbn [map fold_right some_of]; lia. Qed.

Lemma fill_misses_moves fuel q slots s o s' :
  (has_cache = false -> Forall (fun x => x = None) slots) ->
  fill_misses r udi_off has_cache alloc_ok file_read poll accepts others fuel q slots s = Ok (o, s') ->
  (forall vs, o = Some vs -> length vs = length slots) /\
  exists d, moved d s s' /\ books has_cache (got o) (fails o) (plus_stats (hits_of (zsum (map some_of slots))) d).
Proof.
  revert q slots s o. induction fuel as [|fuel IH]; intros q [|[v|] rest] s o Hc; cbn [fill_misses]; try done.
  1, 2: intros [= <- <-]; (split; [by intros vs [= <-]|]); exists no_stats; (split; [by apply moved_same|apply books_none]).
  - intros ([vs s1] & E & [= <- <-])%result_bind_ok. destruct (IH _ _ _ _ (fun Hf => proj2 (Forall_cons_1 _ _ _ (Hc Hf))) E) as (Hl & d & Hm & Hb).
    split; [intros ws Hws; destruct vs as [vs|]; [|done]; injection Hws as <-; cbn; by rewrite (Hl vs)|]. exists d. split; [done|].
    change (zsum (map some_of (Some v :: rest))) with (1 + zsum (map some_of rest)).
    set (h := zsum (map some_of rest)) in *. assert (has_cache = true) as Ht.
    { destruct has_cache; [done|]. specialize (Hc eq_refl). by apply Forall_cons_1 in Hc as [? _]. }
    assert (books has_cache 1 0 (hits_of 1)) as H1 by (rewrite Ht; split; cbn; done || lia).
    pose proof (books_plus _ _ _ _ _ _ _ H1 Hb) as Hb2. destruct vs as [vs|]; cbn [got fails option_map] in *.
    + eapply books_eq; [rewrite zlen_cons, Z.add_comm; exact Hb2|]. unfold plus_stats, hits_of. cbn. f_equal; lia.
    + eapply books_eq; [eapply books_less; [exact Hb2|lia|lia]|]. unfold plus_stats, hits_of. cbn. f_equal; lia.
  - intros ([loaded s1] & E1 & E)%result_bind_ok. set (slots := None :: rest) in *. set (k := miss_run slots) in *.
    assert (zsum (map some_of (take k slots)) = 0) as Hz by (apply miss_run_none).
    assert (0 < k <= length slots)%nat as Hk by (split; [apply miss_run_pos|apply miss_run_le]).
    apply LoadRun_moves in E1 as (d1 & Hm1 & Hb1); [|lia]. replace (Z.to_nat _) with k in Hb1 by lia.
    assert (forall vs, loaded = Some vs -> length vs = k) as Hl1.
    { intros vs ->. destruct Hb1 as (? & ? & ? & ? & _ & _ & _ & _ & _ & Hl & _). done. }
    apply run_books_ok in Hb1; [|lia].
    assert (zsum (map some_of slots) = zsum (map some_of (drop k slots))) as Hsum.
    { rewrite <- (take_drop k slots) at 1. rewrite map_app, zsum_app. lia. }
    destruct loaded as [vs|].
    + apply result_bind_ok in E as ([more s2] & E2 & [= <- <-]).
      destruct (IH _ _ _ _ (fun Hf => Forall_drop _ _ _ (Hc Hf)) E2) as (Hl2 & d2 & Hm2 & Hb2). split.
      { intros ws Hws. destruct more as [vs2|]; [|done]. injection Hws as <-. rewrite length_app, (Hl1 vs eq_refl), (Hl2 vs2 eq_refl), length_drop. lia. }
      exists (plus_stats d1 d2). split; [by eapply moved_trans|]. pose proof (books_plus _ _ _ _ _ _ _ Hb1 Hb2) as Hb. rewrite Hsum.
      set (h := zsum (map some_of (drop k slots))) in *.
      assert (plus_stats d1 (plus_stats (hits_of h) d2) = plus_stats (hits_of h) (plus_stats d1 d2)) as Ed
        by (unfold plus_stats, hits_of; cbn -[Z.add]; f_equal; lia).
      rewrite <- Ed. destruct more as [vs2|]; cbn [got fails option_map] in *.
      * by rewrite zlen_app.
      * eapply books_less; [exact Hb|lia|pose proof (zlen_nonneg vs); lia].
    + injection E as <- <-. split; [done|]. exists d1. split; [done|]. rewrite Hsum.
      set (h := zsum _). assert (0 <= h /\ (has_cache = false -> h = 0)) as [Hh Hh0].
      { split; [apply some_sum_nonneg|]. intros Hf. apply none_sum, Forall_drop, Hc, Hf. }
      destruct Hb1. split; cbn [got fails plus_stats hits_of st_hits st_misses st_reads st_bytes_read st_bitmaps_loaded
        st_inserts_refused st_spans_planned st_spans_prefetched st_spans_dropped] in *; try lia.
      intros Hf. specialize (bk_cache0 Hf). specialize (Hh0 Hf). lia.
Qed.

Lemma BinRange_moves a b s o s' :
  BinRange r udi_off has_cache alloc_ok file_read poll accepts others a b s = Ok (o, s') ->
  exists d, moved d s s' /\ books has_cache (got o) (fails o) d.
Proof.
  unfold BinRange. intros ([slots s1] & E1 & E2)%result_bind_ok. destruct (probe_all_moves _ _ _ _ _ E1) as (H1 & _ & Hc).
  destruct (fill_misses_moves _ _ _ _ _ _ Hc E2) as (_ & d & H2 & Hb). eexists. split; [exact (moved_trans _ _ _ _ _ H1 H2)|exact Hb].
Qed.

Lemma Bin_moves q s o s' :
  Bin r udi_off has_cache alloc_ok file_read poll accepts others q s = Ok (o, s') ->
  exists d, moved d s s' /\ books has_cache (got (option_map (fun v => [v]) o)) (fails (option_map (fun v => [v]) o)) d.
Proof.
  unfold Bin. intros ([hit s1] & E1 & E2)%result_bind_ok. destruct (ProbeBin_moves _ _ _ _ E1) as (H1 & Hc). destruct hit as [v|].
  - injection E2 as <- <-. exists (hits_of 1). split; [done|]. split; cbn; unfold zlen; cbn [length]; try lia. intros Hf. by specialize (Hc Hf).
  - apply result_bind_ok in E2 as ([loaded s2] & E2 & [= <- <-]). apply LoadRun_moves in E2 as (d & H2 & Hb); [|lia].
    replace (q - q + 1) with 1 in Hb by lia. exists d. split; [exact (moved_eq _ _ _ _ (moved_trans _ _ _ _ _ H1 H2) (plus_none d))|].
    assert (match loaded with Some vs => length vs = 1%nat | None => True end) as Hl.
    { destruct loaded; [|done]. destruct Hb as (? & ? & ? & ? & _ & _ & _ & _ & _ & Hl & _). done. }
    apply run_books_ok in Hb; [|lia]. destruct loaded as [[|v [|]]|]; try discriminate; exact Hb.
Qed.

Lemma BinCached_same q s b s' : BinCached r udi_off has_cache others q s = Ok (b, s') -> bin_stats s' = bin_stats s.
Proof.
  unfold BinCached. destruct (negb has_cache); [by intros [= _ <-]|]. by intros (off & _ & [= _ <-])%result_bind_ok.
Qed.
Lemma miss_runs_same n i st s runs s' : miss_runs r udi_off has_cache others n i st s = Ok (runs, s') -> bin_stats s' = bin_stats s.
Proof.
  revert i st s runs. induction n as [|n IH]; intros i st s runs; cbn [miss_runs]; [by intros [= _ <-]|].
  intros ([hit s1] & E1 & E2)%result_bind_ok. apply BinCached_same in E1. rewrite <- E1. destruct hit; [|by eapply IH].
  apply result_bind_ok in E2 as ([rest s2] & E2 & [= _ <-]). by eapply IH.
Qed.
Lemma plan_runs_same ivs s runs s' : plan_runs r udi_off has_cache others ivs s = Ok (runs, s') -> bin_stats s' = bin_stats s.
Proof.
  revert s runs. induction ivs as [|iv ivs IH]; intros s runs; cbn [plan_runs]; [by intros [= _ <-]|].
  intros ([rs s1] & E1 & ([more s2] & E2 & [= _ <-])%result_bind_ok)%result_bind_ok. apply miss_runs_same in E1. rewrite <- E1. by eapply IH.
Qed.
Lemma Submit_same a b s ok s' : Submit r udi_off prefetch_async others a b s = Ok (ok, s') -> bin_stats s' = bin_stats s.
Proof.
  unfold Submit. intros (? & _ & (? & _ & (? & _ & E)%result_bind_ok)%result_bind_ok)%result_bind_ok.
  destruct (prefetch_async _ _ _) as [|data|ns]; [|destruct (_ <=? _)|]; by injection E as <- <-.
Qed.
Lemma submit_runs_same runs k n s n' s' : submit_runs r udi_off prefetch_async others k runs n s = Ok (n', s') ->
  bin_stats s' = bin_stats s /\ n <= n' <= n + zlen runs.
Proof.
  revert k n s. induction runs as [|run runs IH]; intros k n s; cbn [submit_runs]; [intros [= <- <-]; split; [done|unfold zlen; cbn; lia]|].
  intros ([ok s1] & E1 & E2)%result_bind_ok. destruct (IH _ _ _ E2) as [H1 H2]. rewrite zlen_cons. split; [|destruct ok; lia].
  rewrite H1. destruct (_ || _); [by injection E1 as <- <-|by eapply Submit_same].
Qed.

(** A prefetch only moves the counters of spans. *)
Lemma PlanAndSubmit_moves l s s' :
  PlanAndSubmit r udi_off has_cache prefetch_async others l s = Ok s' ->
  exists d, moved d s s' /\ books has_cache 0 0 d.
Proof.
  unfold PlanAndSubmit. set (s0 := with_slots (Some []) s). assert (bin_stats s0 = bin_stats s) as E0 by done.
  destruct (async_unavailable s0). { intros [= <-]. exists no_stats. split; [by apply moved_same|apply books_none]. }
  intros ([runs s1] & E1 & E2)%result_bind_ok. apply plan_runs_same in E1. destruct (_ <? _).
  { injection E2 as <-. exists no_stats. split; [apply moved_same; congruence|apply books_none]. }
  apply result_bind_ok in E2 as ([n s2] & E2 & [= <-]). apply submit_runs_same in E2 as [E2 Hn]. pose proof (zlen_nonneg runs) as Hz.
  assert (moved (planned_spans (zlen runs)) s s2) as H1.
  { eapply moved_then_same; [|exact E2]. eapply moved_after_same; [|apply moved_count]. congruence. }
  exists (plus_stats (planned_spans (zlen runs)) (dropped_spans n)). split; [|split; cbn; lia || done].
  destruct (Z.ltb_spec 0 n).
  - exact (moved_trans _ _ _ _ _ H1 (moved_count _ s2)).
  - replace n with 0 by lia. exact (moved_eq _ _ _ _ (moved_trans _ _ _ _ _ H1 (moved_same s2 s2 eq_refl)) eq_refl).
Qed.

Lemma run_access_moves x s o s' :
  @run_access _ (metadata_source r udi_off has_cache alloc_ok file_read prefetch_async poll accepts others) x s = Ok (o, s') ->
  exists d, moved d s s' /\ books has_cache (got o) (fails o) d.
Proof.
  destruct x as [l|q|a b]; cbn [run_access bs_plan bs_bin bs_range metadata_source].
  - intros (s1 & E & [= <- <-])%result_bind_ok. destruct (async_unavailable s); [|by eapply PlanAndSubmit_moves].
    injection E as <-. exists no_stats. split; [by apply moved_same|apply books_none].
  - intros ([v s1] & E & [= <- <-])%result_bind_ok. by eapply Bin_moves.
  - apply BinRange_moves.
Qed.

Lemma run_accesses_moves l s os s' :
  @run_accesses _ (metadata_source r udi_off has_cache alloc_ok file_read prefetch_async poll accepts others) l s = Ok (os, s') ->
  exists d, moved d s s' /\ books has_cache (zsum (map got os)) (zsum (map fails os)) d.
Proof.
  revert s os. induction l as [|x l IH]; intros s os; cbn [run_accesses].
  { intros [= <- <-]. exists no_stats. split; [by apply moved_same|apply books_none]. }
  intros ([o s1] & E1 & ([os' s2] & E2 & [= <- <-])%result_bind_ok)%result_bind_ok.
  apply run_access_moves in E1 as (d1 & H1 & B1). apply IH in E2 as (d2 & H2 & B2).
  exists (plus_stats d1 d2). split; [by eapply moved_trans|exact (books_plus _ _ _ _ _ _ _ B1 B2)].
Qed.
End Account.

(** ** The counters of a scan *)



(** One range of two missing bins, nothing prefetched: one read of both; the
    second insert is refused, so the bin asked for next misses again, and is
    refused again. *)
Example demo_counters :
  match @run_accesses _ (metadata_source MetaDemo.r 100 true (fun _ => true) MetaDemo.read (fun _ _ _ => InFlight)
      MetaDemo.poll Nat.even (fun _ c => c)) [BinSpan 0 1; OneBin 1] (mkMeta ∅ None false 0 no_stats) with
  | Ok (_, s) => Some (GetSABIBinCacheStats s)
  | Fault _ => None
  end = Some (mkStats 0 3 2 20 3 2 0 0 0).
Proof. vm_compute. reflexivity. Qed.
