(* ===== verification/Pins.v ===== *)
(** * Pinned bins

    [BinSource] says which bitmaps a scan gets. This file says how long they
    live: models [SABIPinnedBin] ([sabi.h]) with its moves and its destructor,
    and the references that [ProbeBin], [LoadRun], [Bin], [BinRange]
    ([sabi_reader.cpp]) and [SABITableIterator::Bin] ([sabi_table_iterator.cpp])
    take into the shared block cache, whose other users insert and evict at any
    time. *)
From Stdlib Require Import ZArith Lia.
From stdpp Require Import base numbers gmap gmultiset sets list.
From S2P Require Import Prelude.

(** ** The cache and the pins

    A decoded bin ([SABICachedBin]) is an address. It is alive while the cache
    holds it, while this scan holds a reference to its entry, or while a pin
    owns it; [pc_refs] and [pc_owned] are the references and bins this scan
    holds. *)
Record pin_cache := mkPinCache {
  resident : gmap Z Z;          (** flat index to bin *)
  pc_refs : gmultiset Z;
  pc_owned : gmultiset Z;
  next_bin : Z;
  pc_clock : nat;
}.

Record SABIPinnedBin := mkPin {
  pin_cache_set : bool;         (** [cache != nullptr] *)
  handle : option Z;
  owned : option Z;
  view : option Z;
}.
Definition empty_pin : SABIPinnedBin := mkPin false None None None.

(** [Cache::Release] and the end of a [unique_ptr]. *)
Definition cache_Release (h : Z) (c : pin_cache) : result pin_cache :=
  if decide (h ∈ pc_refs c)
  then Ok (mkPinCache (resident c) (pc_refs c ∖ {[+ h +]}) (pc_owned c) (next_bin c) (pc_clock c))
  else Fault UseAfterFree.
Definition free_owned (b : Z) (c : pin_cache) : result pin_cache :=
  if decide (b ∈ pc_owned c)
  then Ok (mkPinCache (resident c) (pc_refs c) (pc_owned c ∖ {[+ b +]}) (next_bin c) (pc_clock c))
  else Fault UseAfterFree.

Definition Release (p : SABIPinnedBin) (c : pin_cache) : result (SABIPinnedBin * pin_cache) :=
  c1 ← (match pin_cache_set p, handle p with true, Some h => cache_Release h c | _, _ => Ok c end);
  c2 ← (match owned p with Some b => free_owned b c1 | None => Ok c1 end);
  Ok (empty_pin, c2).

(** [dst = std::move(src)]: both after it. *)
Definition move_assign (dst src : SABIPinnedBin) (c : pin_cache) : result (SABIPinnedBin * SABIPinnedBin * pin_cache) :=
  '(_, c') ← Release dst c;
  Ok (src, empty_pin, c').

(** The destructor, and that of a vector. *)
Definition drop_pin (p : SABIPinnedBin) (c : pin_cache) : result pin_cache := '(_, c') ← Release p c; Ok c'.
Fixpoint drop_pins (ps : list SABIPinnedBin) (c : pin_cache) : result pin_cache :=
  match ps with [] => Ok c | p :: rest => c' ← drop_pin p c; drop_pins rest c' end.

(** [push_back(std::move(src))]: the move constructor assigns to a fresh pin. *)
Definition push_pin (pins : list SABIPinnedBin) (src : SABIPinnedBin) (c : pin_cache)
    : result (list SABIPinnedBin * SABIPinnedBin * pin_cache) :=
  '(p, src', c') ← move_assign empty_pin src c; Ok (pins ++ [p], src', c').

(** ** Loading *)
Section Loads.
(** Whether the table has a block cache; at each turn, whether a load succeeds,
    whether the cache accepts an entry, what its other users do to it. *)
Context (has_cache : bool) (load_ok accepts : nat -> bool) (others : nat -> gmap Z Z -> gmap Z Z).

Definition pin_tick (c : pin_cache) : pin_cache :=
  mkPinCache (others (pc_clock c) (resident c)) (pc_refs c) (pc_owned c) (next_bin c) (S (pc_clock c)).

(** [ProbeBin] into a slot. *)
Definition probe_pin (flat_idx : Z) (slot : SABIPinnedBin) (c0 : pin_cache) : bool * SABIPinnedBin * pin_cache :=
  let c := pin_tick c0 in
  if negb has_cache then (false, slot, c) else
  match resident c !! flat_idx with
  | None => (false, slot, c)
  | Some h => (true, mkPin true (Some h) (owned slot) (Some h),
               mkPinCache (resident c) (pc_refs c ⊎ {[+ h +]}) (pc_owned c) (next_bin c) (pc_clock c))
  end.

(** The loop of [LoadRun] over its slots. *)
Fixpoint load_slots (i : Z) (slots : list SABIPinnedBin) (c0 : pin_cache) : list SABIPinnedBin * pin_cache :=
  match slots with
  | [] => ([], c0)
  | slot :: rest =>
      let c := pin_tick c0 in
      let bin := next_bin c in
      let '(slot', c1) :=
        if negb has_cache then
          (mkPin (pin_cache_set slot) (handle slot) (Some bin) (Some bin),
           mkPinCache (resident c) (pc_refs c) (pc_owned c ⊎ {[+ bin +]}) (bin + 1) (pc_clock c))
        else if accepts (pc_clock c) then
          (mkPin true (Some bin) (owned slot) (Some bin),
           mkPinCache (<[i := bin]> (resident c)) (pc_refs c ⊎ {[+ bin +]}) (pc_owned c) (bin + 1) (pc_clock c))
        else
          (mkPin true None (Some bin) (Some bin),
           mkPinCache (resident c) (pc_refs c) (pc_owned c ⊎ {[+ bin +]}) (bin + 1) (pc_clock c)) in
      let '(rest', c2) := load_slots (i + 1) rest c1 in
      (slot' :: rest', c2)
  end.
(** [LoadRun]: an allocation or a read that fails leaves the slots alone. *)
Definition load_run (a : Z) (slots : list SABIPinnedBin) (c0 : pin_cache) : bool * list SABIPinnedBin * pin_cache :=
  let c := pin_tick c0 in
  if load_ok (pc_clock c) then let '(slots', c') := load_slots a slots c in (true, slots', c') else (false, slots, c).

(** [SABIReader::Bin] of a metadata reader: the view, and the caller's pin. *)
Definition pin_bin (flat_idx : Z) (pin : SABIPinnedBin) (c : pin_cache) : result (option Z * SABIPinnedBin * pin_cache) :=
  let '(hit, slot, c1) := probe_pin flat_idx empty_pin c in
  let '(got, slot, c2) :=
    if hit : bool then (true, slot, c1)
    else match load_run flat_idx [slot] c1 with
         | (b, [slot'], c2) => (b, slot', c2)
         | (b, _, c2) => (b, slot, c2)
         end in
  if got : bool then
    '(pin', slot', c3) ← move_assign pin slot c2;
    c4 ← drop_pin slot' c3;
    Ok (view pin', pin', c4)
  else c3 ← drop_pin slot c2; Ok (None, pin, c3).

Fixpoint probe_pins (q : Z) (slots : list SABIPinnedBin) (c : pin_cache) : list SABIPinnedBin * pin_cache :=
  match slots with
  | [] => ([], c)
  | slot :: rest =>
      let '(_, slot', c1) := probe_pin q slot c in
      let '(rest', c2) := probe_pins (q + 1) rest c1 in
      (slot' :: rest', c2)
  end.
Fixpoint miss_slots (slots : list SABIPinnedBin) : nat :=
  match slots with mkPin _ _ _ None :: rest => S (miss_slots rest) | _ => O end.
(** The coalescing loop; [false] when a load failed. *)
Fixpoint fill_slots (fuel : nat) (q : Z) (slots : list SABIPinnedBin) (c : pin_cache) : result (bool * list SABIPinnedBin * pin_cache) :=
  match slots, fuel with
  | [], _ => Ok (true, [], c)
  | _, O => Fault OutOfFuel
  | slot :: rest, S f =>
      match view slot with
      | Some _ => '(b, rest', c') ← fill_slots f (q + 1) rest c; Ok (b, slot :: rest', c')
      | None =>
          let k := miss_slots slots in
          let '(b, run, c1) := load_run q (take k slots) c in
          if b : bool then '(b', rest', c2) ← fill_slots f (q + Z.of_nat k) (drop k slots) c1; Ok (b', run ++ rest', c2)
          else Ok (false, run ++ drop k slots, c1)
      end
  end.
(** The final loop: views and pins appended in order. *)
Fixpoint hand_out (slots : list SABIPinnedBin) (views : list (option Z)) (pins : list SABIPinnedBin) (c : pin_cache)
    : result (list SABIPinnedBin * list (option Z) * list SABIPinnedBin * pin_cache) :=
  match slots with
  | [] => Ok ([], views, pins, c)
  | slot :: rest =>
      '(pins', slot', c1) ← push_pin pins slot c;
      '(rest', views', pins'', c2) ← hand_out rest (views ++ [view slot]) pins' c1;
      Ok (slot' :: rest', views', pins'', c2)
  end.
Definition pin_range (first_flat last_flat : Z) (pins : list SABIPinnedBin) (c : pin_cache)
    : result (option (list (option Z)) * list SABIPinnedBin * pin_cache) :=
  let n := Z.to_nat (u32 (last_flat - first_flat + 1)) in
  let '(slots, c1) := probe_pins first_flat (replicate n empty_pin) c in
  '(b, slots, c2) ← fill_slots n first_flat slots c1;
  if b : bool then
    '(slots', views, pins', c3) ← hand_out slots [] pins c2;
    c4 ← drop_pins slots' c3;
    Ok (Some views, pins', c4)
  else c3 ← drop_pins slots c2; Ok (None, pins, c3).

(** A lookup that only asks ([BlockPrefetchQueue::InBlockCache],
    [SABIReader::BinCached]): the reference is returned at once. *)
Definition cache_peek (key : Z) (c0 : pin_cache) : result (bool * pin_cache) :=
  let c := pin_tick c0 in
  if negb has_cache then Ok (false, c) else
  match resident c !! key with
  | None => Ok (false, c)
  | Some h => c' ← cache_Release h (mkPinCache (resident c) (pc_refs c ⊎ {[+ h +]}) (pc_owned c) (next_bin c) (pc_clock c)); Ok (true, c')
  end.

(** ** A table iterator's use of them

    [pinned_bins_], and the views it was handed ([SABITableIterator::Bin],
    [GetBitmapForSingleCondition]). *)
Inductive bin_call := CallBin (flat_idx : Z) | CallRange (first last : Z) | CallPeek (key : Z).
Definition iter_bin (flat_idx : Z) (pinned_bins_ : list SABIPinnedBin) (c : pin_cache)
    : result (option Z * list SABIPinnedBin * pin_cache) :=
  '(v, pin, c1) ← pin_bin flat_idx empty_pin c;
  match v with
  | None => c2 ← drop_pin pin c1; Ok (None, pinned_bins_, c2)
  | Some _ =>
      '(pins, pin', c2) ← (match view pin with
                           | Some _ => push_pin pinned_bins_ pin c1
                           | None => Ok (pinned_bins_, pin, c1)
                           end);
      c3 ← drop_pin pin' c2; Ok (v, pins, c3)
  end.
Definition do_call (call : bin_call) (pins : list SABIPinnedBin) (c : pin_cache)
    : result (list (option Z) * list SABIPinnedBin * pin_cache) :=
  match call with
  | CallBin q => '(v, pins', c') ← iter_bin q pins c; Ok (match v with Some _ => [v] | None => [] end, pins', c')
  | CallRange a b => '(vs, pins', c') ← pin_range a b pins c; Ok (default [] vs, pins', c')
  | CallPeek key => '(_, c') ← cache_peek key c; Ok ([], pins, c')
  end.
Fixpoint do_calls (calls : list bin_call) (pins : list SABIPinnedBin) (c : pin_cache)
    : result (list (option Z) * list SABIPinnedBin * pin_cache) :=
  match calls with
  | [] => Ok ([], pins, c)
  | call :: rest =>
      '(vs, pins1, c1) ← do_call call pins c;
      '(vs', pins2, c2) ← do_calls rest pins1 c1;
      Ok (vs ++ vs', pins2, c2)
  end.
End Loads.

(** ** What pins hold *)
Definition handles_of (ps : list SABIPinnedBin) : gmultiset Z := list_to_set_disj (omap handle ps).
Definition owned_of (ps : list SABIPinnedBin) : gmultiset Z := list_to_set_disj (omap owned ps).

(** Besides [R] and [W], the scan holds exactly what its pins name. *)
Definition balanced (R W : gmultiset Z) (ps : list SABIPinnedBin) (c : pin_cache) : Prop :=
  pc_refs c = R ⊎ handles_of ps /\ pc_owned c = W ⊎ owned_of ps.

(** A pin with a view holds that bin, in one way; a pin without holds nothing. *)
Definition pin_ok (p : SABIPinnedBin) : Prop :=
  match view p with
  | Some v => (pin_cache_set p = true /\ handle p = Some v /\ owned p = None) \/ (handle p = None /\ owned p = Some v)
  | None => handle p = None /\ owned p = None
  end.
Definition pin_empty (p : SABIPinnedBin) : Prop := pin_ok p /\ view p = None.
Definition pin_full (p : SABIPinnedBin) : Prop := pin_ok p /\ is_Some (view p).

Lemma handles_cons p ps : handles_of (p :: ps) = (match handle p with Some h => {[+ h +]} | None => ∅ end) ⊎ handles_of ps.
Proof. unfold handles_of. cbn. destruct (handle p); [done|multiset_solver]. Qed.
Lemma owned_cons p ps : owned_of (p :: ps) = (match owned p with Some h => {[+ h +]} | None => ∅ end) ⊎ owned_of ps.
Proof. unfold owned_of. cbn. destruct (owned p); [done|multiset_solver]. Qed.

#[global] Instance omap_perm {A B} (f : A -> option B) : Proper ((≡ₚ) ==> (≡ₚ)) (omap f).
Proof.
  induction 1 as [|x l l' _ IH|x y l|l1 l2 l3 _ IH1 _ IH2]; cbn; [done| | |by rewrite IH1].
  - destruct (f x); by rewrite IH.
  - destruct (f x), (f y); try done. apply perm_swap.
Qed.
Lemma balanced_perm R W ps ps' c : ps ≡ₚ ps' -> balanced R W ps c -> balanced R W ps' c.
Proof. intros Hp [H1 H2]. unfold balanced, handles_of, owned_of in *. by rewrite <- Hp. Qed.

(** Empty pins can come and go. *)
Lemma balanced_empty R W p ps c : pin_empty p -> balanced R W (p :: ps) c <-> balanced R W ps c.
Proof.
  intros [Hp Hv]. unfold pin_ok in Hp. rewrite Hv in Hp. destruct Hp as [Hh Ho]. unfold balanced.
  rewrite handles_cons, owned_cons, Hh, Ho. split; intros [H1 H2]; split; multiset_solver.
Qed.
Lemma balanced_empties R W es ps c : Forall pin_empty es -> balanced R W (es ++ ps) c <-> balanced R W ps c.
Proof. intros He. induction He as [|e es He _ IH]; [done|]. cbn [app]. by rewrite balanced_empty. Qed.
Lemma empty_pin_empty : pin_empty empty_pin.
Proof. done. Qed.

Lemma Release_ok R W p ps c : pin_ok p -> balanced R W (p :: ps) c ->
  exists c', Release p c = Ok (empty_pin, c') /\ balanced R W ps c'.
Proof.
  intros Hp [H1 H2]. rewrite handles_cons in H1. rewrite owned_cons in H2. unfold Release, pin_ok in *.
  destruct (view p) as [v|]; [destruct Hp as [(E1 & E2 & E3)|(E2 & E3)]|destruct Hp as [E2 E3]]; rewrite E2, E3 in *.
  - rewrite E1. unfold cache_Release. rewrite decide_True by multiset_solver. cbn. eexists. split; [done|]. split; cbn; multiset_solver.
  - assert ((match pin_cache_set p with true | _ => Ok c end) = Ok c) as -> by by destruct (pin_cache_set p).
    cbn. unfold free_owned. rewrite decide_True by multiset_solver. eexists. split; [done|]. split; cbn; multiset_solver.
  - assert ((match pin_cache_set p with true | _ => Ok c end) = Ok c) as -> by by destruct (pin_cache_set p).
    cbn. eexists. split; [done|]. split; multiset_solver.
Qed.
Lemma drop_pin_ok R W p ps c : pin_ok p -> balanced R W (p :: ps) c -> exists c', drop_pin p c = Ok c' /\ balanced R W ps c'.
Proof. intros Hp Hb. unfold drop_pin. destruct (Release_ok R W p ps c Hp Hb) as (c' & -> & Hc). by exists c'. Qed.
Lemma drop_pins_ok R W l ps c : Forall pin_ok l -> balanced R W (l ++ ps) c -> exists c', drop_pins l c = Ok c' /\ balanced R W ps c'.
Proof.
  intros Hl. revert c. induction Hl as [|p l Hp _ IH]; intros c Hb; [by exists c|]. cbn [drop_pins].
  destruct (drop_pin_ok R W p (l ++ ps) c Hp Hb) as (c1 & -> & H1). by apply IH.
Qed.
Lemma move_ok R W dst src ps c : pin_ok dst -> balanced R W (dst :: src :: ps) c ->
  exists c', move_assign dst src c = Ok (src, empty_pin, c') /\ balanced R W (src :: ps) c'.
Proof. intros Hd Hb. unfold move_assign. destruct (Release_ok R W dst (src :: ps) c Hd Hb) as (c' & -> & Hc). by exists c'. Qed.
Lemma push_ok R W pins src ps c : balanced R W (src :: pins ++ ps) c ->
  exists c', push_pin pins src c = Ok (pins ++ [src], empty_pin, c') /\ balanced R W ((pins ++ [src]) ++ ps) c'.
Proof.
  intros Hb. unfold push_pin. destruct (move_ok R W empty_pin src (pins ++ ps) c) as (c' & -> & Hc); [done| |].
  - by apply balanced_empty.
  - exists c'. split; [done|]. eapply balanced_perm; [|exact Hc]. rewrite <- app_assoc. cbn. apply Permutation_middle.
Qed.

(** ** Loads keep the balance *)
Section LoadSpec.
Context (has_cache : bool) (load_ok accepts : nat -> bool) (others : nat -> gmap Z Z -> gmap Z Z).
Context (R W : gmultiset Z).

Lemma tick_balanced ps c : balanced R W ps c -> balanced R W ps (pin_tick others c).
Proof. done. Qed.

Lemma probe_pin_ok q slot ps c : pin_empty slot -> balanced R W ps c ->
  exists hit slot' c', probe_pin has_cache others q slot c = (hit, slot', c') /\ balanced R W (slot' :: ps) c' /\
    if hit : bool then pin_full slot' else pin_empty slot'.
Proof.
  intros He Hb. unfold probe_pin.
  assert (balanced R W (slot :: ps) (pin_tick others c)) as Hb' by by apply balanced_empty.
  destruct has_cache; cbn [negb]; [|by exists false, slot, (pin_tick others c)].
  destruct (resident (pin_tick others c) !! q) as [h|]; [|by exists false, slot, (pin_tick others c)].
  eexists true, _, _. split; [done|]. destruct He as [Hp Hv]. unfold pin_ok in Hp. rewrite Hv in Hp. destruct Hp as [Hh Ho].
  destruct Hb as [H1 H2]. split; [|split; [left; by rewrite Ho|by eexists]].
  split; rewrite ?handles_cons, ?owned_cons; cbn [handle owned pc_refs pc_owned pin_tick]; rewrite ?Ho, ?H1, ?H2; clear; multiset_solver.
Qed.

Lemma load_slots_ok i slots ps c : Forall pin_empty slots -> balanced R W ps c ->
  exists slots' c', load_slots has_cache accepts others i slots c = (slots', c') /\ balanced R W (slots' ++ ps) c' /\
    Forall pin_full slots' /\ length slots' = length slots.
Proof.
  intros He. revert i ps c. induction He as [|slot slots [Hp Hv] _ IH]; intros i ps c Hb; [by exists [], c|].
  unfold pin_ok in Hp. rewrite Hv in Hp. destruct Hp as [Hh Ho]. cbn [load_slots]. set (c1 := pin_tick others c).
  set (p := if negb has_cache then _ else _). destruct p as [slot' c2] eqn:Ep.
  assert (balanced R W (slot' :: ps) c2 /\ pin_full slot') as [Hb2 Hf].
  { destruct Hb as [H1 H2]. unfold p in Ep. destruct has_cache; cbn [negb] in Ep; [destruct (accepts _)|]; injection Ep as <- <-;
      (split; [split; rewrite ?handles_cons, ?owned_cons; cbn [handle owned pc_refs pc_owned pin_tick]; rewrite ?Hh, ?Ho, ?H1, ?H2; clear; multiset_solver|]); (split; [|by eexists]).
    - left. cbn. by rewrite Ho.
    - by right.
    - right. cbn. by rewrite Hh. }
  destruct (IH (i + 1) (slot' :: ps) c2 Hb2) as (rest' & c3 & -> & Hb3 & Hf3 & Hl3). exists (slot' :: rest'), c3.
  split; [done|]. split; [|split; [by constructor|cbn; lia]]. eapply balanced_perm; [|exact Hb3]. cbn. by rewrite <- Permutation_middle.
Qed.

Lemma load_run_ok a slots ps c : Forall pin_empty slots -> balanced R W ps c ->
  exists b slots' c', load_run has_cache load_ok accepts others a slots c = (b, slots', c') /\ balanced R W (slots' ++ ps) c' /\
    length slots' = length slots /\ if b : bool then Forall pin_full slots' else slots' = slots.
Proof.
  intros He Hb. unfold load_run. destruct (load_ok _).
  - destruct (load_slots_ok a slots ps (pin_tick others c) He Hb) as (slots' & c' & -> & Hb' & Hf & Hl). by exists true, slots', c'.
  - eexists false, slots, _. split; [done|]. split; [|done]. by apply balanced_empties.
Qed.

Lemma full_ok p : pin_full p -> pin_ok p.
Proof. by intros [? _]. Qed.
Lemma empty_ok p : pin_empty p -> pin_ok p.
Proof. by intros [? _]. Qed.

Lemma pin_bin_ok q pin ps c : pin_ok pin -> balanced R W (pin :: ps) c ->
  exists v pin' c', pin_bin has_cache load_ok accepts others q pin c = Ok (v, pin', c') /\ balanced R W (pin' :: ps) c' /\
    match v with Some _ => pin_full pin' /\ view pin' = v | None => pin' = pin end.
Proof.
  intros Hpin Hb. unfold pin_bin.
  destruct (probe_pin_ok q empty_pin (pin :: ps) c empty_pin_empty Hb) as (hit & slot & c1 & -> & Hb1 & Hs).
  assert (exists got slot' c2, (if hit then (true, slot, c1)
     else match load_run has_cache load_ok accepts others q [slot] c1 with
          | (b, [slot'], c2) => (b, slot', c2) | (b, _, c2) => (b, slot, c2) end) = (got, slot', c2) /\
     balanced R W (slot' :: pin :: ps) c2 /\ if got : bool then pin_full slot' else pin_empty slot') as (got & slot' & c2 & -> & Hb2 & Hs2).
  { destruct hit; [by exists true, slot, c1|]. apply balanced_empty in Hb1; [|done].
    destruct (load_run_ok q [slot] (pin :: ps) c1) as (b & slots' & c2 & -> & Hb2 & Hl & Hs2); [by constructor|done|].
    destruct slots' as [|slot' [|]]; try done. exists b, slot', c2. split; [done|]. split; [done|].
    destruct b; [by inversion Hs2|]. by injection Hs2 as ->. }
  destruct got.
  - destruct (move_ok R W pin slot' ps c2 Hpin) as (c3 & -> & Hb3). { eapply balanced_perm; [apply perm_swap|done]. }
    cbn [mbind result_bind]. destruct (drop_pin_ok R W empty_pin (slot' :: ps) c3) as (c4 & -> & Hb4); [done|by apply balanced_empty|].
    cbn [mbind result_bind]. exists (view slot'), slot', c4. split; [done|]. split; [done|]. destruct Hs2 as [Hok [v Hv]]. rewrite Hv.
    split; [by split; [|exists v]|done].
  - destruct (drop_pin_ok R W slot' (pin :: ps) c2) as (c3 & -> & Hb3); [by apply empty_ok|done|].
    cbn [mbind result_bind]. by exists None, pin, c3.
Qed.

Lemma probe_pins_ok q slots ps c : Forall pin_empty slots -> balanced R W ps c ->
  exists slots' c', probe_pins has_cache others q slots c = (slots', c') /\ balanced R W (slots' ++ ps) c' /\
    Forall pin_ok slots' /\ length slots' = length slots.
Proof.
  intros He. revert q ps c. induction He as [|slot slots He _ IH]; intros q ps c Hb; [by exists [], c|]. cbn [probe_pins].
  destruct (probe_pin_ok q slot ps c He Hb) as (hit & slot' & c1 & -> & Hb1 & Hs).
  destruct (IH (q + 1) (slot' :: ps) c1 Hb1) as (rest' & c2 & -> & Hb2 & Hf2 & Hl2). exists (slot' :: rest'), c2. split; [done|].
  split; [eapply balanced_perm; [|exact Hb2]; cbn; by rewrite <- Permutation_middle|]. split; [|cbn; lia].
  constructor; [|done]. destruct hit; [by apply full_ok|by apply empty_ok].
Qed.

Lemma miss_slots_empty slots : Forall pin_ok slots -> Forall pin_empty (take (miss_slots slots) slots).
Proof.
  induction 1 as [|[cs h ow [v|]] slots Hp _ IH]; cbn [miss_slots take]; [constructor|constructor|]. by constructor.
Qed.
Lemma miss_slots_pos slot rest : view slot = None -> exists k, miss_slots (slot :: rest) = S k.
Proof. destruct slot as [cs h ow [v|]]; [done|]. intros _. by eexists. Qed.

Lemma fill_slots_ok fuel q slots ps c : (length slots <= fuel)%nat -> Forall pin_ok slots -> balanced R W (slots ++ ps) c ->
  exists b slots' c', fill_slots has_cache load_ok accepts others fuel q slots c = Ok (b, slots', c') /\ balanced R W (slots' ++ ps) c' /\
    if b : bool then Forall pin_full slots' else Forall pin_ok slots'.
Proof.
  revert q slots ps c. induction fuel as [|fuel IH]; intros q [|slot rest] ps c Hf Hok Hb; try (by exists true, [], c); [cbn in Hf; lia|].
  cbn [fill_slots]. destruct (view slot) as [v|] eqn:Ev.
  - apply Forall_cons_1 in Hok as [Hp Hok]. destruct (IH (q + 1) rest (slot :: ps) c) as (b & rest' & c' & -> & Hb' & Hs); [cbn in Hf; lia|done| |].
    { eapply balanced_perm; [|exact Hb]. apply Permutation_middle. }
    cbn [mbind result_bind]. exists b, (slot :: rest'), c'. split; [done|]. split.
    + eapply balanced_perm; [|exact Hb']. cbn. by rewrite <- Permutation_middle.
    + destruct b; (constructor; [|done]); [by split; [|exists v]|done].
  - destruct (miss_slots_pos slot rest Ev) as [k Hk]. pose proof (miss_slots_empty _ Hok) as He.
    set (slots := slot :: rest) in *. set (m := miss_slots slots) in *.
    assert (balanced R W (drop m slots ++ ps) c) as Hb1.
    { apply (balanced_empties R W (take m slots)); [done|]. by rewrite app_assoc, take_drop. }
    destruct (load_run_ok q (take m slots) (drop m slots ++ ps) c He Hb1) as (b & run & c1 & -> & Hb2 & Hl & Hrun). destruct b.
    + destruct (IH (q + Z.of_nat m) (drop m slots) (run ++ ps) c1) as (b & rest' & c' & -> & Hb' & Hs).
      * rewrite length_drop, Hk. lia.
      * by apply Forall_drop.
      * eapply balanced_perm; [|exact Hb2]. by rewrite !app_assoc, (Permutation_app_comm run).
      * cbn [mbind result_bind]. exists b, (run ++ rest'), c'. split; [done|]. split.
        -- eapply balanced_perm; [|exact Hb']. by rewrite !app_assoc, (Permutation_app_comm run).
        -- destruct b; apply Forall_app; (split; [|done]); [done|]. eapply Forall_impl; [exact Hrun|apply full_ok].
    + exists false, (run ++ drop m slots), c1. split; [done|]. split; [by rewrite <- app_assoc|]. rewrite Hrun, take_drop. done.
Qed.

Lemma hand_out_ok slots views pins c : Forall pin_ok slots -> balanced R W (slots ++ pins) c ->
  exists slots' c', hand_out slots views pins c = Ok (slots', views ++ map view slots, pins ++ slots, c') /\
    Forall pin_empty slots' /\ balanced R W (slots' ++ pins ++ slots) c'.
Proof.
  intros Hok. revert views pins c. induction Hok as [|slot slots Hp _ IH]; intros views pins c Hb.
  { exists [], c. cbn. by rewrite !app_nil_r. }
  cbn [hand_out]. destruct (push_ok R W pins slot slots c) as (c1 & -> & Hb1).
  { eapply balanced_perm; [|exact Hb]. cbn. by rewrite (Permutation_app_comm slots). }
  cbn [mbind result_bind]. destruct (IH (views ++ [view slot]) (pins ++ [slot]) c1) as (slots' & c' & -> & He & Hb').
  { eapply balanced_perm; [|exact Hb1]. apply Permutation_app_comm. }
  cbn [mbind result_bind]. exists (empty_pin :: slots'), c'. split.
  { rewrite <- !app_assoc. done. }
  split; [by constructor|]. cbn [app]. apply balanced_empty; [done|]. rewrite <- app_assoc in Hb'. exact Hb'.
Qed.

Lemma pin_range_ok a b pins c : Forall pin_full pins -> balanced R W pins c ->
  exists vs new c', pin_range has_cache load_ok accepts others a b pins c = Ok (vs, pins ++ new, c') /\ balanced R W (pins ++ new) c' /\
    Forall pin_full new /\ default [] vs = map view new.
Proof.
  intros Hp Hb. unfold pin_range. set (n := Z.to_nat _).
  destruct (probe_pins_ok a (replicate n empty_pin) pins c) as (slots & c1 & -> & Hb1 & Hs1 & Hl1);
    [by apply Forall_replicate|done|]. rewrite length_replicate in Hl1.
  destruct (fill_slots_ok n a slots pins c1) as (ok & slots' & c2 & -> & Hb2 & Hs2); [lia|done|done|]. cbn [mbind result_bind].
  destruct ok.
  - destruct (hand_out_ok slots' [] pins c2) as (es & c3 & -> & He & Hb3); [|done|].
    { eapply Forall_impl; [exact Hs2|apply full_ok]. }
    cbn [mbind result_bind app]. destruct (drop_pins_ok R W es (pins ++ slots') c3) as (c4 & -> & Hb4); [|done|].
    { eapply Forall_impl; [exact He|apply empty_ok]. }
    cbn [mbind result_bind]. by exists (Some (map view slots')), slots', c4.
  - destruct (drop_pins_ok R W slots' pins c2 Hs2 Hb2) as (c3 & -> & Hb3). cbn [mbind result_bind].
    exists None, [], c3. rewrite app_nil_r. by split_and!.
Qed.

Lemma iter_bin_ok q pins c : balanced R W pins c ->
  exists v new c', iter_bin has_cache load_ok accepts others q pins c = Ok (v, pins ++ new, c') /\ balanced R W (pins ++ new) c' /\
    Forall pin_full new /\ match v with Some _ => [v] | None => [] end = map view new.
Proof.
  intros Hb. unfold iter_bin. destruct (pin_bin_ok q empty_pin pins c) as (v & pin & c1 & -> & Hb1 & Hv); [done|by apply balanced_empty|].
  cbn [mbind result_bind]. destruct v as [v|].
  - destruct Hv as [Hf Hv]. rewrite Hv. destruct (push_ok R W pins pin [] c1) as (c2 & -> & Hb2); [by rewrite app_nil_r|].
    rewrite app_nil_r in Hb2. cbn [mbind result_bind].
    destruct (drop_pin_ok R W empty_pin (pins ++ [pin]) c2) as (c3 & -> & Hb3); [done|by apply balanced_empty|].
    cbn [mbind result_bind]. exists (Some v), [pin], c3. split; [done|]. split; [done|]. split; [by constructor|]. cbn. by rewrite Hv.
  - subst pin. destruct (drop_pin_ok R W empty_pin pins c1) as (c2 & -> & Hb2); [done|done|]. cbn [mbind result_bind].
    exists None, [], c2. rewrite app_nil_r. by split_and!.
Qed.

Lemma cache_peek_ok key ps c : balanced R W ps c ->
  exists b c', cache_peek has_cache others key c = Ok (b, c') /\ balanced R W ps c'.
Proof.
  intros Hb. unfold cache_peek. destruct has_cache; cbn [negb]; [|by eexists false, _].
  destruct (resident (pin_tick others c) !! key) as [h|]; [|by eexists false, _].
  unfold cache_Release. cbn [pc_refs]. rewrite decide_True by multiset_solver. cbn [mbind result_bind]. eexists true, _. split; [done|].
  destruct Hb as [H1 H2]. split; cbn [pc_refs pc_owned pin_tick]; rewrite ?H1, ?H2; clear; multiset_solver.
Qed.

Lemma do_calls_ok calls pins c : Forall pin_full pins -> balanced R W pins c ->
  exists new c', do_calls has_cache load_ok accepts others calls pins c = Ok (map view new, pins ++ new, c') /\
    balanced R W (pins ++ new) c' /\ Forall pin_full new.
Proof.
  revert pins c. induction calls as [|call calls IH]; intros pins c Hp Hb.
  { exists [], c. cbn. rewrite app_nil_r. by split_and!. }
  assert (exists new c1, do_call has_cache load_ok accepts others call pins c = Ok (map view new, pins ++ new, c1) /\
    balanced R W (pins ++ new) c1 /\ Forall pin_full new) as (new & c1 & E & Hb1 & Hf1).
  { destruct call as [q|a b|key]; cbn [do_call].
    - destruct (iter_bin_ok q pins c Hb) as (v & new & c1 & -> & Hb1 & Hf & Ev). cbn [mbind result_bind]. rewrite Ev. by exists new, c1.
    - destruct (pin_range_ok a b pins c Hp Hb) as (vs & new & c1 & -> & Hb1 & Hf & Ev). cbn [mbind result_bind]. rewrite Ev. by exists new, c1.
    - destruct (cache_peek_ok key pins c Hb) as (b & c1 & -> & Hb1). cbn [mbind result_bind]. exists [], c1. rewrite app_nil_r. by split_and!. }
  cbn [do_calls]. rewrite E. cbn [mbind result_bind].
  destruct (IH (pins ++ new) c1) as (new' & c2 & -> & Hb2 & Hf2); [by apply Forall_app|done|].
  cbn [mbind result_bind]. exists (new ++ new'), c2. rewrite map_app, <- !app_assoc in *. split; [done|]. split; [done|by apply Forall_app].
Qed.
End LoadSpec.

(** A bin that a reference or a pin of this scan keeps alive, whatever the other
    users of the cache do. *)
Definition kept (c : pin_cache) (v : option Z) : Prop := exists b, v = Some b /\ (b ∈ pc_refs c \/ b ∈ pc_owned c).

Lemma full_kept R W ps c p : balanced R W ps c -> p ∈ ps -> pin_full p -> kept c (view p).
Proof.
  intros [H1 H2] Hin [Hok [v Hv]]. rewrite Hv. exists v. split; [done|]. unfold pin_ok in Hok. rewrite Hv in Hok.
  destruct Hok as [(_ & Hh & _)|[_ Ho]].
  - left. rewrite H1. apply gmultiset_elem_of_disj_union. right. apply elem_of_list_to_set_disj, list_elem_of_omap. by exists p.
  - right. rewrite H2. apply gmultiset_elem_of_disj_union. right. apply elem_of_list_to_set_disj, list_elem_of_omap. by exists p.
Qed.

(** (C22) Pins: whatever bins and ranges of bins a scan asks for or looks up, in any order,
    whether or not there is a cache, whichever loads fail, whichever entries the
    cache refuses and whatever its other users do to it meanwhile, no reference
    is released twice and no bin is freed twice; every view the scan was ever
    handed, also by an earlier call, is kept alive by a reference or a pin of
    its own; and destroying the scan's pins returns exactly the references it
    took and frees exactly the bins it owned, also after failed loads. *)
Theorem pins_balanced has_cache load_ok accepts others calls c :
  exists views pins c1 c2,
    do_calls has_cache load_ok accepts others calls [] c = Ok (views, pins, c1) /\
    (forall v, v ∈ views -> kept c1 v) /\
    drop_pins pins c1 = Ok c2 /\ pc_refs c2 = pc_refs c /\ pc_owned c2 = pc_owned c.
Proof.
  assert (forall c', balanced (pc_refs c) (pc_owned c) [] c' <-> pc_refs c' = pc_refs c /\ pc_owned c' = pc_owned c) as Hnil.
  { intros c'. unfold balanced. change (handles_of []) with (∅ : gmultiset Z). change (owned_of []) with (∅ : gmultiset Z). split; intros [H1 H2]; split; multiset_solver. }
  destruct (do_calls_ok has_cache load_ok accepts others (pc_refs c) (pc_owned c) calls [] c) as (pins & c1 & E & Hb & Hf);
    [constructor|by apply Hnil|]. cbn [app] in *.
  destruct (drop_pins_ok (pc_refs c) (pc_owned c) pins [] c1) as (c2 & E2 & Hb2).
  { eapply Forall_impl; [exact Hf|apply full_ok]. }
  { by rewrite app_nil_r. }
  exists (map view pins), pins, c1, c2. split; [done|]. split; [|split; [done|by apply Hnil]].
  intros v (p & -> & Hp)%list_elem_of_fmap. eapply full_kept; [exact Hb|done|]. by apply (proj1 (Forall_forall _ _) Hf).
Qed.
