(* ===== verification/PrefetchQueue.v ===== *)
(** * The block prefetch queue

    Models [BlockPrefetchQueue] ([block_prefetch_queue.cpp]): a ring of slots
    that keeps the reads of the next [depth] target blocks of a scan in
    flight. A buffer is known by the block whose read it was last given. What
    RocksDB answers is an argument, indexed by the target that is submitted:
    whether a block is in the block cache, whether the read can be prepared,
    and how the asynchronous prefetch ends. *)
From Stdlib Require Import ZArith Lia Sorting.Sorted.
From stdpp Require Import base numbers list sets.
From S2P Require Import Prelude Options Builder.

(** The status of [PrefetchAsync], as far as the queue looks at it. *)
Inductive async_status := AsyncOk | AsyncTryAgain | AsyncNotSupported | AsyncFailed.

Record queue_slot := mkQueueSlot {
  qs_buf : option (option BlockHandle);  (** [None] is a null [buf] *)
  qs_target : option Z;                  (** [None] is [kNoTarget] *)
  qs_submitted : bool;
}.

(** [g_served] and [g_async_unavailable] are the last two fields. *)
Record prefetch_queue := mkPrefetchQueue {
  pq_targets : option (list (Z * BlockHandle));
  pq_slots : list queue_slot;
  next_submit_ : Z;
  g_served : Z;
  g_async_unavailable : bool;
}.

Definition no_slot : queue_slot := mkQueueSlot None None false.
Definition new_queue (depth served : Z) (unavailable : bool) : prefetch_queue :=
  mkPrefetchQueue None (replicate (Z.to_nat depth) no_slot) 0 served unavailable.

(** *** The process-wide flags

    [warnings] counts the lines written to the error stream. *)
Record prefetch_globals := mkPrefetchGlobals {
  gl_served : Z;
  gl_async_unavailable : bool;
  g_rocksdb_io_uring : bool;
  warnings : nat;
}.
Definition EnableRocksDbIOUring (g : prefetch_globals) : prefetch_globals :=
  mkPrefetchGlobals (gl_served g) (gl_async_unavailable g) true (warnings g).
Definition RocksDbIOUringEnable (g : prefetch_globals) : bool := g_rocksdb_io_uring g.
Definition AsyncReadUnavailable (g : prefetch_globals) : bool := gl_async_unavailable g.
(** The exchange is atomic: only the call that finds the flag clear warns. *)
Definition NoteAsyncReadUnavailable (g : prefetch_globals) : prefetch_globals :=
  mkPrefetchGlobals (gl_served g) true (g_rocksdb_io_uring g) (if gl_async_unavailable g then warnings g else S (warnings g)).
Definition GetBlockPrefetchQueueStats (g : prefetch_globals) : Z * bool := (gl_served g, gl_async_unavailable g).
Definition ResetBlockPrefetchQueueStats (g : prefetch_globals) : prefetch_globals :=
  mkPrefetchGlobals 0 false (g_rocksdb_io_uring g) (warnings g).
(** However many threads note a refusal, one warns. *)
Lemma refusal_noted_once g n : gl_async_unavailable g = false ->
  let g' := Nat.iter (S n) NoteAsyncReadUnavailable g in AsyncReadUnavailable g' = true /\ warnings g' = S (warnings g).
Proof.
  intros Hg. cbv zeta. induction n as [|n [IH1 IH2]]; [cbn; by rewrite Hg|].
  rewrite Nat.iter_succ. set (g' := Nat.iter (S n) NoteAsyncReadUnavailable g) in *. unfold AsyncReadUnavailable in IH1.
  cbn [NoteAsyncReadUnavailable AsyncReadUnavailable gl_async_unavailable warnings]. by rewrite IH1.
Qed.

Section Queue.
Context (in_block_cache : Z -> BlockHandle -> bool) (prepare_ok : Z -> bool).
Context (prefetch_async : Z -> BlockHandle -> async_status).

(** The slot after the submission of target [t], and whether RocksDB refused
    asynchronous reads altogether. *)
Definition submit_slot (t : Z) (handle : BlockHandle) (unavailable : bool) (slot : queue_slot)
    : queue_slot * bool :=
  if unavailable then (mkQueueSlot (qs_buf slot) (Some t) false, unavailable) else
  if in_block_cache t handle then (mkQueueSlot (qs_buf slot) (Some t) false, unavailable) else
  let buf := match qs_buf slot with None => Some None | b => b end in
  if negb (prepare_ok t) then (mkQueueSlot buf (Some t) false, unavailable) else
  match prefetch_async t handle with
  | AsyncOk | AsyncTryAgain => (mkQueueSlot (Some (Some handle)) (Some t) true, unavailable)
  | AsyncNotSupported => (mkQueueSlot buf (Some t) false, true)
  | AsyncFailed => (mkQueueSlot buf (Some t) false, unavailable)
  end.

Definition queue_Submit (targets : list (Z * BlockHandle)) (target_idx : Z) (q : prefetch_queue)
    : result prefetch_queue :=
  let k := target_idx mod zlen (pq_slots q) in
  slot ← zget (pq_slots q) k;
  t ← zget targets target_idx;
  let '(slot', unavailable) := submit_slot target_idx (snd t) (g_async_unavailable q) slot in
  slots ← zset (pq_slots q) k slot';
  Ok (mkPrefetchQueue (pq_targets q) slots (next_submit_ q) (g_served q) unavailable).

(** The loop of [TopUp] up to [limit]. *)
Fixpoint top_up_loop (fuel : nat) (targets : list (Z * BlockHandle)) (limit : Z) (q : prefetch_queue)
    : result prefetch_queue :=
  if next_submit_ q <? limit then
    match fuel with
    | O => Fault OutOfFuel
    | S f =>
        q1 ← queue_Submit targets (next_submit_ q) q;
        top_up_loop f targets limit
          (mkPrefetchQueue (pq_targets q1) (pq_slots q1) (next_submit_ q1 + 1) (g_served q1)
             (g_async_unavailable q1))
    end
  else Ok q.

Definition TopUp (idx : Z) (q : prefetch_queue) : result prefetch_queue :=
  if zlen (pq_slots q) =? 0 then Ok q else
  match pq_targets q with
  | None => Ok q
  | Some targets =>
      let limit := Z.min (u64 (idx + zlen (pq_slots q))) (zlen targets) in
      top_up_loop (Z.to_nat (zlen targets)) targets limit q
  end.

Definition Prepare (targets : list (Z * BlockHandle)) (q : prefetch_queue) : result prefetch_queue :=
  TopUp 0 (mkPrefetchQueue (Some targets) (pq_slots q) 0 (g_served q) (g_async_unavailable q)).

(** The buffer for target [idx], by the block it was given last; [None] is
    [nullptr]. *)
Definition BufferFor (idx : Z) (q : prefetch_queue) : result (option (option BlockHandle) * prefetch_queue) :=
  if zlen (pq_slots q) =? 0 then Ok (None, q) else
  match pq_targets q with
  | None => Ok (None, q)
  | Some targets =>
      if zlen targets <=? idx then Ok (None, q) else
      q1 ← TopUp idx q;
      slot ← zget (pq_slots q1) (idx mod zlen (pq_slots q1));
      if negb (bool_decide (qs_target slot = Some idx)) || negb (qs_submitted slot) then Ok (None, q1)
      else Ok (qs_buf slot, mkPrefetchQueue (pq_targets q1) (pq_slots q1) (next_submit_ q1)
                              (u64 (g_served q1 + 1)) (g_async_unavailable q1))
  end.

(** The calls of a scan. *)
Fixpoint buffers (idxs : list Z) (q : prefetch_queue)
    : result (list (option (option BlockHandle)) * prefetch_queue) :=
  match idxs with
  | [] => Ok ([], q)
  | i :: rest => '(b, q1) ← BufferFor i q; '(bs, q2) ← buffers rest q1; Ok (b :: bs, q2)
  end.

(** ** The ring *)

(** Why target [t] was not prefetched. *)
Definition skipped (q : prefetch_queue) (t : Z) (handle : BlockHandle) : Prop :=
  g_async_unavailable q = true \/ in_block_cache t handle = true \/ prepare_ok t = false \/
  prefetch_async t handle = AsyncNotSupported \/ prefetch_async t handle = AsyncFailed.

(** A refusal sticks. *)
Definition refusal_kept (q q' : prefetch_queue) : Prop :=
  g_async_unavailable q = true -> g_async_unavailable q' = true.

(** What slot [k] says of the last target it was given. *)
Definition slot_says (targets : list (Z * BlockHandle)) (q : prefetch_queue) (slot : queue_slot) (t : Z) : Prop :=
  exists e, targets !! Z.to_nat t = Some e /\
    if qs_submitted slot then qs_buf slot = Some (Some (snd e)) else skipped q t (snd e).

(** With [next_submit_ = n]: slot [k] is for the largest target below [n] that
    is [k] modulo the depth. *)
Record ring (targets : list (Z * BlockHandle)) (q : prefetch_queue) : Prop := {
  rg_targets : pq_targets q = Some targets;
  rg_depth : 0 < zlen (pq_slots q) < 2 ^ 32;
  rg_size : zlen targets < 2 ^ 32;
  rg_next : 0 <= next_submit_ q <= zlen targets;
  rg_slots k slot : pq_slots q !! k = Some slot ->
    match qs_target slot with
    | None => next_submit_ q <= Z.of_nat k
    | Some t => 0 <= t < next_submit_ q /\ t mod zlen (pq_slots q) = Z.of_nat k /\
        next_submit_ q <= t + zlen (pq_slots q) /\ slot_says targets q slot t
    end;
}.

Local Ltac says e :=
  intros [= <- <-] ?; split_and!; [done|exists e; split; [done|]; cbn; tauto|done].
Lemma submit_slot_says targets q q' t e slot slot' u :
  targets !! Z.to_nat t = Some e -> submit_slot t (snd e) (g_async_unavailable q) slot = (slot', u) ->
  g_async_unavailable q' = u ->
  qs_target slot' = Some t /\ slot_says targets q' slot' t /\ (g_async_unavailable q = true -> u = true).
Proof.
  intros He. unfold submit_slot, slot_says, skipped. destruct (g_async_unavailable q).
  { says e. }
  destruct (in_block_cache t (snd e)) eqn:Ec; [says e|].
  destruct (prepare_ok t) eqn:Ep; cbn [negb]; [|says e].
  destruct (prefetch_async t (snd e)) eqn:Ea; says e.
Qed.

Lemma queue_Submit_ok targets q :
  ring targets q -> next_submit_ q < zlen targets ->
  exists q1, queue_Submit targets (next_submit_ q) q = Ok q1 /\
    ring targets (mkPrefetchQueue (pq_targets q1) (pq_slots q1) (next_submit_ q1 + 1) (g_served q1)
                    (g_async_unavailable q1)) /\
    zlen (pq_slots q1) = zlen (pq_slots q) /\ next_submit_ q1 = next_submit_ q /\ refusal_kept q q1.
Proof.
  intros [Ht Hd Hsz Hn Hsl] Hlt. unfold queue_Submit. set (D := zlen (pq_slots q)) in *. set (n := next_submit_ q) in *.
  pose proof (Z.mod_pos_bound n D ltac:(lia)) as Hk.
  destruct (lookup_lt_is_Some_2 (pq_slots q) (Z.to_nat (n mod D))) as [slot Hslot]; [unfold D, zlen in *; lia|].
  destruct (lookup_lt_is_Some_2 targets (Z.to_nat n)) as [e He]; [unfold zlen in *; lia|].
  rewrite (proj2 (zget_lookup (pq_slots q) (n mod D) slot)) by (split; [lia|done]).
  rewrite (proj2 (zget_lookup targets n e)) by (split; [lia|done]). cbn [mbind result_bind].
  destruct (submit_slot n (snd e) (g_async_unavailable q) slot) as [slot' u] eqn:Es.
  rewrite zset_okZ by (unfold D, zlen in *; lia). cbn [mbind result_bind]. eexists. split; [done|].
  cbn [pq_slots pq_targets next_submit_ g_served g_async_unavailable]. fold n.
  assert (zlen (<[Z.to_nat (n mod D):=slot']> (pq_slots q)) = D) as HD by (unfold zlen; by rewrite length_insert).
  assert (g_async_unavailable q = true -> u = true) as Hu.
  { intros Hg. unfold submit_slot in Es. rewrite Hg in Es. by injection Es as _ <-. }
  split; [|done]. split; cbn [pq_slots pq_targets next_submit_]; rewrite ?HD; try done; [lia|].
  intros k s Hs. apply list_lookup_insert_Some in Hs as [(<- & <- & _)|[Hne Hs]].
  - set (q' := mkPrefetchQueue _ _ _ _ _).
    destruct (submit_slot_says targets q q' n e slot slot' u He Es eq_refl) as (-> & Hsay & _).
    split_and!; try done; lia.
  - specialize (Hsl k s Hs). pose proof (lookup_lt_Some _ _ _ Hs) as Hkl. destruct (qs_target s) as [t|].
    + destruct Hsl as (Ht1 & Ht2 & Ht3 & (e' & He' & Hsay)). split_and!; try lia; try done.
      * enough (n <> t + D) by lia. intros ->. apply Hne. rewrite Z.add_mod, Z.mod_same, Z.add_0_r, Z.mod_mod by lia. lia.
      * exists e'. split; [done|]. destruct (qs_submitted s); [done|].
        destruct Hsay as [Hg|Hsay]; [left; by apply Hu|right; exact Hsay].
    + enough (n <> Z.of_nat k) by lia. intros E. apply Hne. rewrite Z.mod_small; [lia|]. unfold D, zlen. lia.
Qed.

Lemma top_up_ok targets limit fuel q :
  ring targets q -> limit <= zlen targets -> (Z.to_nat (limit - next_submit_ q) <= fuel)%nat ->
  exists q1, top_up_loop fuel targets limit q = Ok q1 /\ ring targets q1 /\
    zlen (pq_slots q1) = zlen (pq_slots q) /\ next_submit_ q1 = Z.max (next_submit_ q) limit /\ refusal_kept q q1.
Proof.
  revert q. induction fuel as [|fuel IH]; intros q Hr Hl Hf; cbn [top_up_loop];
    destruct (Z.ltb_spec (next_submit_ q) limit) as [Hlt|Hge]; try lia.
  - exists q. split_and!; [done|done|done|lia|by intros ?].
  - destruct (queue_Submit_ok targets q Hr ltac:(lia)) as (q1 & E & Hr1 & Hd & Hn & Hg). rewrite E. cbn [mbind result_bind].
    destruct (IH _ Hr1 Hl) as (q2 & E2 & Hr2 & Hd2 & Hn2 & Hg2); [cbn; lia|]. exists q2. split_and!; [done|done| | |].
    + rewrite Hd2. exact Hd.
    + rewrite Hn2. cbn. lia.
    + intros ?. by apply Hg2, Hg.
  - exists q. split_and!; [done|done|done|lia|by intros ?].
Qed.

Lemma TopUp_ok targets idx q :
  ring targets q -> 0 <= idx <= zlen targets ->
  exists q1, TopUp idx q = Ok q1 /\ ring targets q1 /\ zlen (pq_slots q1) = zlen (pq_slots q) /\
    next_submit_ q1 = Z.max (next_submit_ q) (Z.min (idx + zlen (pq_slots q)) (zlen targets)) /\
    refusal_kept q q1.
Proof.
  intros Hr Hi. pose proof (rg_depth _ _ Hr). pose proof (rg_size _ _ Hr). unfold TopUp.
  rewrite (proj2 (Z.eqb_neq _ _)) by lia. rewrite (rg_targets _ _ Hr), u64_small by (unfold is_u64; lia).
  apply top_up_ok; [done|lia|]. pose proof (rg_next _ _ Hr). lia.
Qed.

(** A fresh queue with its targets. *)
Lemma Prepare_ok targets depth served unavailable :
  0 < depth < 2 ^ 32 -> zlen targets < 2 ^ 32 ->
  exists q, Prepare targets (new_queue depth served unavailable) = Ok q /\ ring targets q /\
    zlen (pq_slots q) = depth /\ next_submit_ q = Z.min depth (zlen targets).
Proof.
  intros Hd Hs. unfold Prepare, new_queue. cbn [pq_slots g_served g_async_unavailable]. pose proof (zlen_nonneg targets).
  assert (zlen (replicate (Z.to_nat depth) no_slot) = depth) as Hz by (rewrite zlen_replicate; lia).
  set (q0 := mkPrefetchQueue _ _ _ _ _).
  assert (ring targets q0) as Hr.
  { split; cbn [q0 pq_targets pq_slots next_submit_]; rewrite ?Hz; try done; try lia.
    intros k slot Hk. apply lookup_replicate in Hk as [-> _]. cbn. lia. }
  destruct (TopUp_ok targets 0 q0 Hr ltac:(lia)) as (q1 & E & Hr1 & Hd1 & Hn1 & _). exists q1. split; [done|]. split; [done|].
  cbn [q0 pq_slots next_submit_] in Hd1, Hn1. rewrite Hz in Hd1, Hn1. split; [done|]. lia.
Qed.

(** Two numbers in one window of [D] with the same residue. *)
Lemma same_residue a b n D :
  0 < D -> a < n <= a + D -> b < n <= b + D -> a mod D = b mod D -> a = b.
Proof.
  intros HD Ha Hb E. pose proof (Z.div_mod a D ltac:(lia)). pose proof (Z.div_mod b D ltac:(lia)).
  assert (a / D = b / D) by nia. nia.
Qed.

Lemma BufferFor_ok targets idx q e :
  ring targets q -> 0 <= idx -> targets !! Z.to_nat idx = Some e ->
  exists b q1, BufferFor idx q = Ok (b, q1) /\ ring targets q1 /\ zlen (pq_slots q1) = zlen (pq_slots q) /\
    next_submit_ q1 = Z.max (next_submit_ q) (Z.min (idx + zlen (pq_slots q)) (zlen targets)) /\
    (b = None \/ b = Some (Some (snd e))) /\ refusal_kept q q1 /\
    (next_submit_ q <= idx + zlen (pq_slots q) -> b = None -> skipped q1 idx (snd e)).
Proof.
  intros Hr Hi He. pose proof (lookup_lt_Some _ _ _ He) as Hlt. pose proof (rg_depth _ _ Hr) as Hd. unfold BufferFor.
  rewrite (proj2 (Z.eqb_neq _ _)) by lia. rewrite (rg_targets _ _ Hr), (proj2 (Z.leb_gt _ _)) by (unfold zlen; lia).
  destruct (TopUp_ok targets idx q Hr) as (q1 & E & Hr1 & Hd1 & Hn1 & Hg); [unfold zlen; lia|]. rewrite E. cbn [mbind result_bind].
  rewrite Hd1. pose proof (Z.mod_pos_bound idx (zlen (pq_slots q)) ltac:(lia)) as Hk.
  destruct (lookup_lt_is_Some_2 (pq_slots q1) (Z.to_nat (idx mod zlen (pq_slots q)))) as [slot Hslot]; [unfold zlen in *; lia|].
  rewrite (proj2 (zget_lookup (pq_slots q1) (idx mod zlen (pq_slots q)) slot)) by (split; [lia|done]).
  cbn [mbind result_bind]. pose proof (rg_slots _ _ Hr1 _ _ Hslot) as Hsl. rewrite Hd1, Z2Nat.id in Hsl by lia.
  assert (next_submit_ q <= idx + zlen (pq_slots q) -> qs_target slot = Some idx) as Hmine.
  { intros Hw. assert (idx < next_submit_ q1 <= idx + zlen (pq_slots q)) as Hin by (unfold zlen in *; lia).
    destruct (qs_target slot) as [t|].
    - destruct Hsl as (Ht1 & Ht2 & Ht3 & _). f_equal. apply (same_residue t idx (next_submit_ q1) (zlen (pq_slots q))); lia.
    - pose proof (Z.mod_le idx (zlen (pq_slots q)) ltac:(lia) ltac:(lia)). lia. }
  case_bool_decide as Ht; cbn [negb orb].
  - rewrite Ht in Hsl. destruct Hsl as (_ & _ & _ & e' & He' & Hsay). assert (e' = e) as -> by congruence.
    destruct (qs_submitted slot); cbn [negb].
    + eexists _, _. split; [done|]. split_and!; try done; [by destruct Hr1|by right|]. by rewrite Hsay.
    + eexists _, _. split; [done|]. split_and!; try done. by left.
  - eexists _, _. split; [done|]. split_and!; try done; [by left|]. intros Hw. by rewrite (Hmine Hw) in Ht.
Qed.

(** The answer for a target: nothing, or the buffer given that very block. *)
Definition right_buffer (targets : list (Z * BlockHandle)) (idx : Z) (b : option (option BlockHandle)) : Prop :=
  b = None \/ exists e, targets !! Z.to_nat idx = Some e /\ b = Some (Some (snd e)).
(** The answer for a target met in order: nothing only for a reason. *)
Definition told (targets : list (Z * BlockHandle)) (q : prefetch_queue) (idx : Z)
    (b : option (option BlockHandle)) : Prop :=
  exists e, targets !! Z.to_nat idx = Some e /\ (b = Some (Some (snd e)) \/ b = None /\ skipped q idx (snd e)).

Lemma skipped_kept q q' t h : refusal_kept q q' -> skipped q t h -> skipped q' t h.
Proof. intros Hk [Hg|Hs]; [left; by apply Hk|by right]. Qed.

Lemma buffers_ok targets idxs q :
  ring targets q -> Forall (fun i => 0 <= i < zlen targets) idxs ->
  exists bs q', buffers idxs q = Ok (bs, q') /\ Forall2 (right_buffer targets) idxs bs /\ refusal_kept q q' /\
    (StronglySorted Z.lt idxs -> Forall (fun i => next_submit_ q <= i + zlen (pq_slots q)) idxs ->
     Forall2 (told targets q') idxs bs).
Proof.
  intros Hr Hi. revert q Hr. induction Hi as [|i idxs Hi _ IH]; intros q Hr; cbn [buffers].
  { exists [], q. split_and!; try done; by intros ?. }
  destruct (lookup_lt_is_Some_2 targets (Z.to_nat i)) as [e He]; [unfold zlen in Hi; lia|].
  destruct (BufferFor_ok targets i q e Hr ltac:(lia) He) as (b & q1 & E & Hr1 & Hd & Hn & Hb & Hg & Hw). rewrite E.
  cbn [mbind result_bind]. destruct (IH q1 Hr1) as (bs & q2 & E2 & Hbs & Hg2 & Hw2). rewrite E2. eexists _, q2.
  split; [done|]. split_and!.
  - constructor; [|done]. destruct Hb as [->| ->]; [by left|right; eauto].
  - intros ?. by apply Hg2, Hg.
  - intros [Hs Hlt]%StronglySorted_inv [Hwi _]%Forall_cons. constructor.
    + exists e. split; [done|]. destruct Hb as [->| ->]; [right|by left]. split; [done|].
      apply (skipped_kept q1); [done|]. by apply Hw.
    + apply Hw2; [done|]. rewrite Hd, Hn. eapply Forall_impl; [exact Hlt|]. intros j Hj. cbv beta in *. lia.
Qed.
End Queue.

(** (C32) The prefetch queue. After [Prepare], for any sequence of target
    indexes, every [BufferFor] ends, and returns either no buffer or the buffer
    whose last prefetch is the block of that very target, however slots are
    reused. For targets asked for in increasing order, as a scan does, it
    returns no buffer only for a block that was cached, could not be prepared
    or whose asynchronous read RocksDB refused: the window never drops a read. *)
Theorem prefetch_queue_correct in_block_cache prepare_ok prefetch_async targets depth served unavailable idxs :
  0 < depth < 2 ^ 32 -> zlen targets < 2 ^ 32 -> Forall (fun i => 0 <= i < zlen targets) idxs ->
  exists q0 bs q,
    Prepare in_block_cache prepare_ok prefetch_async targets (new_queue depth served unavailable) = Ok q0 /\
    buffers in_block_cache prepare_ok prefetch_async idxs q0 = Ok (bs, q) /\
    Forall2 (right_buffer targets) idxs bs /\
    (StronglySorted Z.lt idxs -> Forall2 (told in_block_cache prepare_ok prefetch_async targets q) idxs bs).
Proof.
  intros Hd Hs Hi.
  destruct (Prepare_ok in_block_cache prepare_ok prefetch_async targets depth served unavailable Hd Hs)
    as (q0 & E0 & Hr & Hd0 & Hn).
  destruct (buffers_ok in_block_cache prepare_ok prefetch_async targets idxs q0 Hr Hi) as (bs & q & E & Hb & _ & Ht).
  exists q0, bs, q. split_and!; try done. intros Hsort. apply Ht; [done|]. rewrite Hd0, Hn.
  eapply Forall_impl; [exact Hi|]. intros i Hi'. cbv beta in *. lia.
Qed.
Lemma prefetch_queue_correct_witness : exists q0 bs q,
  let targets := [(0, mkBlockHandle 0 10); (3, mkBlockHandle 30 10); (4, mkBlockHandle 40 10)] in
  Prepare (fun t _ => t =? 1) (fun _ => true) (fun _ _ => AsyncTryAgain) targets (new_queue 2 0 false) = Ok q0 /\
  buffers (fun t _ => t =? 1) (fun _ => true) (fun _ _ => AsyncTryAgain) [0; 1; 2; 0] q0 = Ok (bs, q) /\
  Forall2 (right_buffer targets) [0; 1; 2; 0] bs.
Proof.
  destruct (prefetch_queue_correct (fun t _ => t =? 1) (fun _ => true) (fun _ _ => AsyncTryAgain)
    [(0, mkBlockHandle 0 10); (3, mkBlockHandle 30 10); (4, mkBlockHandle 40 10)] 2 0 false [0; 1; 2; 0])
    as (q0 & bs & q & E0 & E & Hb & _); [done|done|repeat constructor; done|]. by exists q0, bs, q.
Defined.
