(* ===== verification/TableIter.v ===== *)
(** * The table iterator

    Models [SABITableIterator] ([sabi_table_iterator.cpp]): the query bitmap of
    one SSTable, the data blocks it touches, the walk through a block that
    picks the candidate entries, and the verification of each candidate.

    What RocksDB does is an argument: loading a data block and splitting an
    internal key. A block iterator is a cursor into the block's entries, with
    a restart point every [block_restart_interval] entries. *)
From Stdlib Require Import ZArith Lia Strings.Byte Strings.String Sorting.Sorted.
From stdpp Require Import base numbers strings list sets sorting.
From S2P Require Import Prelude Options Okey BytesList Query Externals Intern RangeBuf.
From S2P Require Import Binning Builder Reader Index BinSource.

(** [ParsedInternalKey] *)
Record ParsedInternalKey := mkParsedInternalKey {
  pk_user_key : bytes;
  pk_sequence : Z;
  pk_type : ValueType;
}.

(** A row in the iterator's buffer: internal key, value, and whether a newer
    version may precede it in its own file. *)
Record buf_row := mkBufRow { br_key : bytes; br_value : bytes; br_shadowed : bool }.

Section TableIterator.
Context `{RoaringOps} `{BinSource}.
Context (read_seqno : Z) (compiled_ : option CompiledQuery) (track_source_versions_ : bool).
Context (block_restart_interval_ : Z).
(** [NewDataBlockIterator]: the entries of a block, or its status. *)
Context (load_block : BlockHandle -> list (bytes * bytes) + Status).
Context (parse_key : bytes -> option ParsedInternalKey) (user_key_of : bytes -> bytes).

(** ** The query bitmap *)

(** A pointer to a bitmap: borrowed from the reader, or an entry of
    [bitmap_pool_], in which case it is owned too. *)
Inductive BitmapRef := Borrowed (bm : Roaring) | Pooled (i : nat).

Record bm_state := mkBmState {
  bm_status : Status;
  bitmap_pool_ : list Roaring;
  bm_bins : bin_state;
}.
Definition set_status (st : Status) (s : bm_state) : bm_state := mkBmState st (bitmap_pool_ s) (bm_bins s).
Definition set_bins (b : bin_state) (s : bm_state) : bm_state := mkBmState (bm_status s) (bitmap_pool_ s) b.
(** [emplace_back] and the pointer to the new entry. *)
Definition pool (bm : Roaring) (s : bm_state) : BitmapRef * bm_state :=
  (Pooled (length (bitmap_pool_ s)), mkBmState (bm_status s) (bitmap_pool_ s ++ [bm]) (bm_bins s)).
Definition deref (p : BitmapRef) (s : bm_state) : result Roaring :=
  match p with Borrowed bm => Ok bm | Pooled i => get_or OutOfBounds (bitmap_pool_ s !! i) end.
(** Assignment through an owned pointer. *)
Definition assign (i : nat) (bm : Roaring) (s : bm_state) : result bm_state :=
  l ← zset (bitmap_pool_ s) (Z.of_nat i) bm; Ok (mkBmState (bm_status s) l (bm_bins s)).

Definition EmptyBitmap : Roaring := r_empty.
Definition bin_read_failed : Status := Corruption "SABI bin read failed".

Definition iter_Bin (flat_idx : Z) (s : bm_state) : result (Roaring * bm_state) :=
  '(view, b) ← bs_bin flat_idx (bm_bins s);
  Ok (match view with
      | Some v => (v, set_bins b s)
      | None => (EmptyBitmap, set_status bin_read_failed (set_bins b s))
      end).

Definition Tombstone (r : SABIReader) (s : bm_state) : result (Roaring * bm_state) :=
  iter_Bin (TotalBins r) s.

Definition GetBitmapForSingleCondition (r : SABIReader) (cond : SABICondition) (s : bm_state)
    : result (BitmapRef * bm_state) :=
  sel ← SelectBins r cond;
  match sel with
  | None => Ok (Borrowed EmptyBitmap, s)
  | Some sel =>
      if sel_first sel =? sel_last sel then
        '(v, s1) ← iter_Bin (sel_first sel) s; Ok (Borrowed v, s1)
      else
        '(views, b) ← bs_range (sel_first sel) (sel_last sel) (bm_bins s);
        match views with
        | None => Ok (Borrowed EmptyBitmap, set_status bin_read_failed (set_bins b s))
        | Some vs => Ok (pool (r_fastunion vs) (set_bins b s))
        end
  end.

Fixpoint condition_bitmaps (r : SABIReader) (clause : SABIOrClause) (s : bm_state)
    : result (list BitmapRef * bm_state) :=
  match clause with
  | [] => Ok ([], s)
  | cond :: rest =>
      '(p, s1) ← GetBitmapForSingleCondition r cond s;
      '(ps, s2) ← condition_bitmaps r rest s1;
      Ok (p :: ps, s2)
  end.

(** [clause_union |= ...] over the remaining conditions. *)
Fixpoint or_all (i : nat) (ps : list BitmapRef) (s : bm_state) : result bm_state :=
  match ps with
  | [] => Ok s
  | p :: rest =>
      u ← deref (Pooled i) s;
      bm ← deref p s;
      s1 ← assign i (r_or u bm) s;
      or_all i rest s1
  end.

(** The OR of one clause. *)
Definition clause_bitmap (r : SABIReader) (clause : SABIOrClause) (s : bm_state)
    : result (BitmapRef * bm_state) :=
  match clause with
  | [] => Ok (Borrowed EmptyBitmap, s)
  | [cond] => GetBitmapForSingleCondition r cond s
  | _ =>
      '(ps, s1) ← condition_bitmaps r clause s;
      match ps with
      | p0 :: p1 :: rest =>
          b0 ← deref p0 s1;
          b1 ← deref p1 s1;
          let '(u, s2) := pool (r_or b0 b1) s1 in
          s3 ← or_all (length (bitmap_pool_ s1)) rest s2;
          Ok (u, s3)
      | _ => Fault OutOfBounds
      end
  end.

(** The AND over the clauses; [acc] is null before the first. [None] is the
    early return with the shared empty bitmap. *)
Fixpoint and_clauses (r : SABIReader) (cs : list SABIOrClause) (acc : option BitmapRef) (s : bm_state)
    : result (option (option BitmapRef) * bm_state) :=
  match cs with
  | [] => Ok (Some acc, s)
  | clause :: rest =>
      '(c, s1) ← clause_bitmap r clause s;
      '(acc', s2) ←
        (match acc with
         | None => Ok (c, s1)
         | Some (Pooled i) =>
             a ← deref (Pooled i) s1; bm ← deref c s1;
             s2 ← assign i (r_and a bm) s1; Ok (Pooled i, s2)
         | Some (Borrowed a) => bm ← deref c s1; Ok (pool (r_and a bm) s1)
         end);
      v ← deref acc' s2;
      if r_isEmpty v then Ok (None, s2) else and_clauses r rest (Some acc') s2
  end.

(** [result -= tombstone] when there are tombstones. *)
Definition filter_tombstones (acc : BitmapRef) (tombstone : Roaring) (s : bm_state)
    : result (BitmapRef * bm_state) :=
  if r_isEmpty tombstone then Ok (acc, s) else
  v ← deref acc s;
  match acc with
  | Pooled i => s' ← assign i (r_andnot v tombstone) s; Ok (acc, s')
  | Borrowed _ => Ok (pool (r_andnot v tombstone) s)
  end.

(** [BuildQueryBitmap]: the value of [query_bitmap_]. *)
Definition BuildQueryBitmap (r : SABIReader) (query : SABIQuery) (s : bm_state)
    : result (Roaring * bm_state) :=
  card ← TombstoneCardinality r;
  '(tombstone, s0) ← (if card =? 0 then Ok (EmptyBitmap, s) else Tombstone r s);
  match s_clause_groups query with
  | [] =>
      let total := match last (data_entries_cnt_psum r) with Some x => x | None => 0 end in
      let '(p, s1) := pool (r_addRange r_empty 0 total) s0 in
      '(p', s2) ← filter_tombstones p tombstone s1;
      bm ← deref p' s2; Ok (bm, s2)
  | cs =>
      '(acc, s1) ← and_clauses r cs None s0;
      match acc with
      | None => Ok (EmptyBitmap, s1)
      | Some None => Fault OutOfBounds
      | Some (Some acc) =>
          '(p', s2) ← filter_tombstones acc tombstone s1;
          bm ← deref p' s2; Ok (bm, s2)
      end
  end.

(** ** Target blocks *)

(** [std::upper_bound] over [len] elements of [data_entries_cnt_psum] from
    [first] on. *)
Fixpoint upper_bound_loop (fuel : nat) (psum : list Z) (first len target : Z) : result Z :=
  if 0 <? len then
    match fuel with
    | O => Fault OutOfFuel
    | S f =>
        let half := Z.shiftr len 1 in
        let mid := first + half in
        x ← zget psum mid;
        if target <? x then upper_bound_loop f psum first half target
        else upper_bound_loop f psum (mid + 1) (len - half - 1) target
    end
  else Ok first.
Definition psum_upper_bound (psum : list Z) (begin target : Z) : result Z :=
  upper_bound_loop (Z.to_nat (zlen psum - begin)) psum begin (zlen psum - begin) target.

Fixpoint target_loop (r : SABIReader) (ids : list Z) (last_added begin : Z)
    : result (list (Z * BlockHandle)) :=
  match ids with
  | [] => Ok []
  | target_idx :: rest =>
      it ← psum_upper_bound (data_entries_cnt_psum r) begin target_idx;
      if it =? zlen (data_entries_cnt_psum r) then Fault OutOfBounds else
      if it =? last_added then target_loop r rest last_added begin
      else
        bh ← zget (block_handles r) it;
        more ← target_loop r rest it it;
        Ok ((it, bh) :: more)
  end.

(** ** Reading a block *)

(** The cursor of a block iterator, and what the loop keeps across indexes. *)
Record walk := mkWalk {
  wk_checkpoint : option Z;  (** [None] is UINT32_MAX *)
  wk_offset : Z;
  wk_pos : Z;
}.

(** The [while] loop to [target_offset]: the cursor, and the user key the last
    hop started from. *)
Fixpoint hop (fuel : nat) (entries : list (bytes * bytes)) (target_offset offset pos : Z)
    (prev : option bytes) : result (Z * Z * option bytes) :=
  if (offset <? target_offset) && (pos <? zlen entries) then
    match fuel with
    | O => Fault OutOfFuel
    | S f =>
        e ← zget entries pos;
        let prev' := if track_source_versions_ && (offset + 1 =? target_offset)
                     then Some (user_key_of (fst e)) else prev in
        hop f entries target_offset (offset + 1) (pos + 1) prev'
    end
  else Ok (offset, pos, prev).

(** One turn of the loop over [indexes]. *)
Definition pick (entries : list (bytes * bytes)) (index : Z) (w : walk) : result (buf_row * walk) :=
  let target_checkpoint := index / block_restart_interval_ in
  let w :=
    if bool_decide (wk_checkpoint w = Some target_checkpoint) then w
    else mkWalk (Some target_checkpoint) 0 (target_checkpoint * block_restart_interval_) in
  let target_offset := index mod block_restart_interval_ in
  '(offset, pos, prev) ← hop (Z.to_nat target_offset) entries target_offset (wk_offset w) (wk_pos w) None;
  if pos <? zlen entries then
    e ← zget entries pos;
    let shadowed := track_source_versions_ &&
      match prev with None => true | Some k => beqb (user_key_of (fst e)) k end in
    Ok (mkBufRow (fst e) (snd e) shadowed, mkWalk (wk_checkpoint w) offset pos)
  else Fault OutOfBounds.

Fixpoint pick_all (entries : list (bytes * bytes)) (indexes : list Z) (w : walk)
    : result (list buf_row) :=
  match indexes with
  | [] => Ok []
  | i :: rest =>
      '(row, w') ← pick entries i w;
      rows ← pick_all entries rest w';
      Ok (row :: rows)
  end.

(** The rows of the block at [indexes], or the status of a failed load. *)
Definition GetAllByIndexesFromDataBlock (bh : BlockHandle) (indexes : list Z)
    : result (list buf_row + Status) :=
  match load_block bh with
  | inr s => Ok (inr s)
  | inl entries => rows ← pick_all entries indexes (mkWalk None 0 0); Ok (inl rows)
  end.

(** ** Verification *)
Definition keep_row (row : buf_row) : result bool :=
  match parse_key (br_key row) with
  | None => Ok false
  | Some ikey =>
      if read_seqno <? pk_sequence ikey then Ok false
      else if negb (is_value (pk_type ikey)) then Ok false
      else match compiled_ with None => Ok true | Some cq => Eval cq (br_value row) end
  end.

(** The two-pointer loop: rows kept move down to [valid_cursor]. *)
Fixpoint compact (n : nat) (i valid_cursor : Z) (buffer : list buf_row)
    : result (Z * list buf_row) :=
  match n with
  | O => Ok (valid_cursor, buffer)
  | S n' =>
      row ← zget buffer i;
      k ← keep_row row;
      if k : bool then
        buffer' ← (if i =? valid_cursor then Ok buffer else zset buffer valid_cursor row);
        compact n' (i + 1) (valid_cursor + 1) buffer'
      else compact n' (i + 1) valid_cursor buffer
  end.

(** ** The iterator *)
Record table_iter := mkTableIter {
  ti_status : Status;
  ti_reader : option SABIReader;
  query_bitmap_ : Roaring;
  ti_bins : bin_state;
  target_blocks_ : list (Z * BlockHandle);
  cur_target_block_idx_ : Z;
  bitmap_iter_ : list Z;  (** the ids from the iterator to its end *)
  buffer_ : list buf_row;
  buffer_idx_ : Z;
  buffer_count_ : Z;
  valid_ : bool;
}.

(** The selections the constructor plans reads for. *)
Fixpoint planned (r : SABIReader) (conds : list SABICondition) : result (list BinSelection) :=
  match conds with
  | [] => Ok []
  | cond :: rest =>
      sel ← SelectBins r cond;
      more ← planned r rest;
      Ok (match sel with Some x => x :: more | None => more end)
  end.

Definition plan_reads (r : SABIReader) (query : SABIQuery) (b : bin_state) : result bin_state :=
  match mode_ r with
  | kResident => Ok b
  | kMetadata =>
      sels ← planned r (concat (s_clause_groups query));
      card ← TombstoneCardinality r;
      bs_plan (sels ++ (if card =? 0 then [] else [mkBinSelection (TotalBins r) (TotalBins r)])) b
  end.

Definition idle (st : Status) (r : option SABIReader) (b : bin_state) : table_iter :=
  mkTableIter st r EmptyBitmap b [] (-1) [] [] 0 0 false.

(** The constructor; [udi] is what loading the table's index gave. *)
Definition new_table_iter (udi : SABIReader + Status) (query : SABIQuery) (b : bin_state)
    : result table_iter :=
  match udi with
  | inr s => Ok (idle s None b)
  | inl r =>
      if unsat query then Ok (idle OK (Some r) b) else
      can ← QueryCanMatch r query;
      if negb can then Ok (idle OK (Some r) b) else
      b1 ← plan_reads r query b;
      '(bm, s) ← BuildQueryBitmap r query (mkBmState OK [] b1);
      targets ← target_loop r (r_toUint32Array bm) (-1) 0;
      Ok (mkTableIter (bm_status s) (Some r) bm (bm_bins s) targets (-1) (r_toUint32Array bm) [] 0 0 false)
  end.

(** The block-local indexes, and the ids left. *)
Fixpoint local_indexes (global_start global_end : Z) (ids : list Z) : list Z * list Z :=
  match ids with
  | [] => ([], [])
  | id :: rest =>
      if global_end <=? id then ([], ids)
      else
        let '(l, ids') := local_indexes global_start global_end rest in
        (if global_start <=? id then (id - global_start) :: l else l, ids')
  end.

Definition stop (st : Status) (cur : Z) (ids : list Z) (buf : list buf_row) (count : Z) (it : table_iter)
    : table_iter :=
  mkTableIter st (ti_reader it) (query_bitmap_ it) (ti_bins it) (target_blocks_ it) cur ids buf
    (buffer_idx_ it) count false.

Fixpoint LoadNextBlock (fuel : nat) (r : SABIReader) (it : table_iter) : result table_iter :=
  match fuel with
  | O => Fault OutOfFuel
  | S f =>
      let cur := cur_target_block_idx_ it + 1 in
      if zlen (target_blocks_ it) <=? cur then
        Ok (stop (ti_status it) cur (bitmap_iter_ it) (buffer_ it) (buffer_count_ it) it)
      else
        '(bh_idx, bh) ← zget (target_blocks_ it) cur;
        global_start ← (if bh_idx =? 0 then Ok 0 else zget (data_entries_cnt_psum r) (bh_idx - 1));
        global_end ← zget (data_entries_cnt_psum r) bh_idx;
        let '(indexes, ids) := local_indexes global_start global_end (bitmap_iter_ it) in
        match indexes with
        | [] =>
            LoadNextBlock f r
              (mkTableIter (ti_status it) (ti_reader it) (query_bitmap_ it) (ti_bins it) (target_blocks_ it)
                 cur ids (buffer_ it) (buffer_idx_ it) (buffer_count_ it) (valid_ it))
        | _ =>
            got ← GetAllByIndexesFromDataBlock bh indexes;
            match got with
            | inr s => Ok (stop s cur ids (buffer_ it) 0 it)
            | inl rows =>
                if negb (ok (ti_status it)) then Ok (stop (ti_status it) cur ids rows (zlen rows) it) else
                '(count, buf) ← compact (length rows) 0 0 rows;
                if 0 <? count then
                  Ok (mkTableIter (ti_status it) (ti_reader it) (query_bitmap_ it) (ti_bins it)
                        (target_blocks_ it) cur ids buf 0 count true)
                else
                  LoadNextBlock f r
                    (mkTableIter (ti_status it) (ti_reader it) (query_bitmap_ it) (ti_bins it)
                       (target_blocks_ it) cur ids buf (buffer_idx_ it) count (valid_ it))
            end
        end
  end.

Definition load_fuel (it : table_iter) : nat := S (S (length (target_blocks_ it))).

Definition invalid (it : table_iter) : table_iter :=
  stop (ti_status it) (cur_target_block_idx_ it) (bitmap_iter_ it) (buffer_ it) (buffer_count_ it) it.

Definition SeekToFirst (it : table_iter) : result table_iter :=
  if negb (ok (ti_status it)) then Ok (invalid it) else
  match ti_reader it with
  | None => Ok (invalid it)
  | Some r =>
      LoadNextBlock (load_fuel it) r
        (mkTableIter (ti_status it) (ti_reader it) (query_bitmap_ it) (ti_bins it) (target_blocks_ it)
           (-1) (r_toUint32Array (query_bitmap_ it)) (buffer_ it) 0 0 (valid_ it))
  end.

Definition Next (it : table_iter) : result table_iter :=
  if negb (valid_ it) then Fault OutOfBounds else
  let idx := buffer_idx_ it + 1 in
  let it' := mkTableIter (ti_status it) (ti_reader it) (query_bitmap_ it) (ti_bins it) (target_blocks_ it)
               (cur_target_block_idx_ it) (bitmap_iter_ it) (buffer_ it) idx (buffer_count_ it) true in
  if buffer_count_ it <=? idx then
    match ti_reader it with
    | None => Fault OutOfBounds
    | Some r => LoadNextBlock (load_fuel it) r (invalid it')
    end
  else Ok it'.

(** [key()], [value()] and [SourceHasNewerVersion()]. *)
Definition current (it : table_iter) : result buf_row := zget (buffer_ it) (buffer_idx_ it).

(** A whole scan: what a consumer that calls [Next] until [!Valid()] sees. *)
Fixpoint drain (fuel : nat) (it : table_iter) : result (list buf_row * table_iter) :=
  if valid_ it then
    match fuel with
    | O => Fault OutOfFuel
    | S f =>
        row ← current it;
        it' ← Next it;
        '(rows, last) ← drain f it';
        Ok (row :: rows, last)
    end
  else Ok ([], it).
Definition scan (fuel : nat) (it : table_iter) : result (list buf_row * table_iter) :=
  it' ← SeekToFirst it; drain fuel it'.
End TableIterator.
