(* ===== verification/QueryBitmap.v ===== *)
(** * The query bitmap covers the matching rows

    Against the contracts of [Index] and [BinSource]: whatever loads fail, the
    bitmap [BuildQueryBitmap] leaves holds row ids of the table only; and when
    none failed, it holds every row that satisfies the encoded query and no
    tombstone. *)
From Stdlib Require Import ZArith Lia Strings.Byte Strings.String Sorting.Sorted.
From stdpp Require Import base numbers strings list sets sorting.
From S2P Require Import Prelude Options Okey BytesList Query QuerySpec Externals Intern RangeBuf.
From S2P Require Import Binning Builder Reader Index ReaderSpec BinSource TableIter.

(** ** The query bitmap *)
Section QueryBitmap.
Context `{RoaringOps} `{!RoaringLaws _}.
Context (types : list IndexType) (rows : list sst_row) (bi : BitmapIndex) (r : SABIReader).
Context (Hrd : reads_index types rows bi r).
Local Abbreviation bms := (bitmaps bi ++ [tombstone_bitmap bi]).
Context {S : BinSource} (inv : bin_state -> Prop) `{!BinSourceLaws S bms inv}.

(** A bitmap that holds every row satisfying [P]; one that holds row ids only;
    the second always, and the first unless a load failed. *)
Definition covers (P : list EncodedAttr -> bool) (v : Roaring) : Prop :=
  forall j enc, rows !! j = Some (Some enc) -> P enc = true -> r_contains v (Z.of_nat j) = true.
Definition row_ids (v : Roaring) : Prop := forall x, r_contains v x = true -> 0 <= x < zlen rows.
Definition good (P : list EncodedAttr -> bool) (st : Status) (v : Roaring) : Prop :=
  row_ids v /\ (st = OK -> covers P v).

(** What evaluation does to the state: the pool grows, a failure sticks. *)
Record ext (s s' : bm_state) : Prop := {
  ext_pool i v : bitmap_pool_ s !! i = Some v -> bitmap_pool_ s' !! i = Some v;
  ext_status : bm_status s' = OK -> bm_status s = OK;
  ext_inv : inv (bm_bins s');
}.

Lemma ext_refl s : inv (bm_bins s) -> ext s s.
Proof. by split. Qed.
Lemma ext_trans s1 s2 s3 : ext s1 s2 -> ext s2 s3 -> ext s1 s3.
Proof. intros [] []. split; eauto. Qed.
Lemma ext_deref s s' p v : ext s s' -> deref p s = Ok v -> deref p s' = Ok v.
Proof.
  intros [Hp _ _]. destruct p as [|i]; [done|]. cbn [deref].
  destruct (bitmap_pool_ s !! i) eqn:E; [|done]. by rewrite (Hp _ _ E).
Qed.
Lemma ext_bins s b : inv b -> ext s (set_bins b s).
Proof. by split. Qed.
Lemma ext_failed s b st : inv b -> st <> OK -> ext s (set_status st (set_bins b s)).
Proof. intros. by split. Qed.
Lemma ext_pooled s v : inv (bm_bins s) -> ext s (snd (pool v s)).
Proof.
  intros Hi. split; [|done|done]. intros i w Hw. cbn. by apply lookup_app_l_Some.
Qed.
Lemma deref_pooled s v : deref (fst (pool v s)) (snd (pool v s)) = Ok v.
Proof. cbn. by rewrite list_lookup_middle by done. Qed.

(** A reference whose bitmap covers [P], unless something failed. *)
Definition evaluates (P : list EncodedAttr -> bool) (s : bm_state) (p : BitmapRef) (s' : bm_state) : Prop :=
  ext s s' /\ exists v, deref p s' = Ok v /\ good P (bm_status s') v.

Lemma evaluates_ext P s p s' s'' :
  evaluates P s p s' -> ext s' s'' -> evaluates P s p s''.
Proof.
  intros [He (v & Hv & Hr & Hc)] He'. split; [by eapply ext_trans|]. exists v. split; [by eapply ext_deref|].
  split; [done|]. intros Ho. apply Hc. by apply (ext_status _ _ He').
Qed.

Lemma row_ids_empty : row_ids r_empty.
Proof. intros x. by rewrite contains_empty. Qed.
Lemma covers_nothing P : (forall j enc, rows !! j = Some (Some enc) -> P enc = false) -> covers P r_empty.
Proof. intros HP j enc Hj Hs. by rewrite (HP j enc Hj) in Hs. Qed.

Lemma bms_only q bm x : bms !! q = Some bm -> r_contains bm x = true -> 0 <= x < zlen rows.
Proof.
  pose proof (ri_index _ _ _ _ Hrd) as Hix. intros Hq Hx.
  apply lookup_app_Some in Hq as [Hq|[_ Hq]]; [by eapply (io_only _ _ _ Hix)|].
  apply list_lookup_singleton_Some in Hq as [_ <-].
  apply (io_tombstones _ _ _ Hix) in Hx as [Hx0 Hx]. apply lookup_lt_Some in Hx. unfold zlen. lia.
Qed.

Lemma iter_Bin_ok q s :
  inv (bm_bins s) -> 0 <= q < zlen bms ->
  exists v s', iter_Bin q s = Ok (v, s') /\ ext s s' /\ row_ids v /\
    (bm_status s' = OK -> exists bm, bms !! Z.to_nat q = Some bm /\ r_equiv v bm).
Proof.
  intros Hi Hq. unfold iter_Bin. destruct (bs_bin_ok q (bm_bins s) Hi Hq) as (o & b & E & Hb & Ho). rewrite E.
  cbn [mbind result_bind]. destruct o as [v|].
  - destruct (Ho v eq_refl) as (bm & Hbm & Heq). eexists _, _. split; [done|]. split; [by apply ext_bins|].
    split; [|intros _; by exists bm]. intros x. rewrite (Heq x). by apply (bms_only (Z.to_nat q)).
  - eexists _, _. split; [done|]. split; [by apply ext_failed|]. split; [apply row_ids_empty|done].
Qed.

(** *** One condition *)
Definition cond_ok (c : SABICondition) : Prop := 0 <= s_attr_idx c < zlen types.

Lemma condition_selects c : cond_ok c ->
  exists o, SelectBins r c = Ok o /\
    (forall sel, o = Some sel -> sel_ok (zlen (bitmaps bi)) sel) /\
    forall j enc, rows !! j = Some (Some enc) -> cond_sat types enc c = true ->
      exists sel q bm, o = Some sel /\ sel_first sel <= q <= sel_last sel /\
        bitmaps bi !! Z.to_nat q = Some bm /\ r_contains bm (Z.of_nat j) = true.
Proof.
  intros [Hc0 Hc1]. pose proof (ri_index _ _ _ _ Hrd) as Hix.
  destruct (lookup_lt_is_Some_2 types (Z.to_nat (s_attr_idx c))) as [t Ht]; [unfold zlen in Hc1; lia|].
  destruct (attr_ctx_of types rows bi r Hrd _ t Ht) as (p & n & Hctx).
  destruct (SelectBins_total types rows bi r Hrd c t p n Hc0 Hctx) as (o & E & Hsel).
  exists o. split; [done|]. pose proof (ac_off _ _ _ _ _ _ _ Hctx) as Hoff. split.
  - intros sel ->. specialize (Hsel sel eq_refl). rewrite (io_bitmaps _ _ _ Hix). split; lia.
  - intros j enc Hj Hs.
    destruct (SelectBins_row types rows bi r Hrd c j enc Hj Hc0 Hs) as (sel & n' & q & bm & E' & _ & Hq & Hbm & Hin).
    cbv zeta in Hq. rewrite E in E'. injection E' as ->. exists sel, q, bm. split_and!; try done; lia.
Qed.

(** Nothing is selected for an unsatisfied condition. *)
Lemma selection_none c :
  (forall j enc, rows !! j = Some (Some enc) -> cond_sat types enc c = true ->
     exists sel q bm, @None BinSelection = Some sel /\ sel_first sel <= q <= sel_last sel /\
       bitmaps bi !! Z.to_nat q = Some bm /\ r_contains bm (Z.of_nat j) = true) ->
  covers (fun enc => cond_sat types enc c) r_empty.
Proof.
  intros Hcov. apply covers_nothing. intros j enc Hj. apply not_true_iff_false. intros Hs.
  by destruct (Hcov j enc Hj Hs) as (? & ? & ? & ? & _).
Qed.

Lemma GetBitmapForSingleCondition_ok c s :
  inv (bm_bins s) -> cond_ok c ->
  exists p s', GetBitmapForSingleCondition r c s = Ok (p, s') /\
    evaluates (fun enc => cond_sat types enc c) s p s'.
Proof.
  intros Hi Hc. destruct (condition_selects c Hc) as (o & E & Hok & Hcov).
  unfold GetBitmapForSingleCondition. rewrite E. cbn [mbind result_bind]. destruct o as [sel|].
  2: { exists (Borrowed EmptyBitmap), s. split; [done|]. split; [by apply ext_refl|].
       exists r_empty. split; [done|]. split; [apply row_ids_empty|]. intros _. by apply selection_none. }
  destruct (Hok sel eq_refl) as [Hs1 Hs2].
  assert (zlen bms = zlen (bitmaps bi) + 1) as Hz by apply zlen_snoc.
  destruct (Z.eqb_spec (sel_first sel) (sel_last sel)) as [Heq|Hne].
  - destruct (iter_Bin_ok (sel_first sel) s Hi ltac:(lia)) as (v & s' & E' & He & Hr & Hv). rewrite E'.
    cbn [mbind result_bind]. eexists _, s'. split; [done|]. split; [done|]. exists v. split; [done|].
    split; [done|]. intros Ho. destruct (Hv Ho) as (bm & Hbm & Heqv). intros j enc Hj Hs.
    destruct (Hcov j enc Hj Hs) as (sel' & q & bm' & [= <-] & Hq & Hbm' & Hin).
    rewrite Heqv. assert (q = sel_first sel) as -> by lia.
    apply (lookup_app_l_Some _ [tombstone_bitmap bi]) in Hbm'. by simplify_eq.
  - assert (sel_last sel < zlen bms) as Hlast by lia.
    destruct (bs_range_ok (sel_first sel) (sel_last sel) (bm_bins s) Hi ltac:(lia) Hlast)
      as (o & b & E' & Hb & Hvs). rewrite E'. cbn [mbind result_bind]. destruct o as [vs|].
    2: { exists (Borrowed EmptyBitmap). eexists. split; [done|].
         split; [by apply ext_failed|]. exists EmptyBitmap. split; [done|]. split; [apply row_ids_empty|done]. }
    specialize (Hvs vs eq_refl). eexists _, _. split; [done|]. split.
    { eapply ext_trans; [by apply ext_bins|]. by apply ext_pooled. }
    exists (r_fastunion vs). split; [apply deref_pooled|]. split.
    + intros x Hx. rewrite contains_fastunion in Hx. apply existsb_exists in Hx as (v & Hv & Hx).
      apply list_elem_of_In, list_elem_of_lookup in Hv as [i Hv].
      destruct (Forall2_lookup_l _ _ _ _ _ Hvs Hv) as (bm & Hbm & Heqv). rewrite Heqv in Hx.
      apply lookup_take_Some in Hbm as [Hbm _]. rewrite lookup_drop in Hbm. by eapply bms_only.
    + intros _ j enc Hj Hs. destruct (Hcov j enc Hj Hs) as (sel' & q & bm & [= <-] & Hq & Hbm & Hin).
      rewrite contains_fastunion. apply existsb_exists.
      apply (lookup_app_l_Some _ [tombstone_bitmap bi]) in Hbm.
      assert (take (Z.to_nat (sel_last sel - sel_first sel + 1)) (drop (Z.to_nat (sel_first sel)) bms) !!
        (Z.to_nat q - Z.to_nat (sel_first sel))%nat = Some bm) as Hl.
      { rewrite lookup_take_lt by lia. rewrite lookup_drop.
        by replace (Z.to_nat (sel_first sel) + (Z.to_nat q - Z.to_nat (sel_first sel)))%nat with (Z.to_nat q) by lia. }
      destruct (Forall2_lookup_r _ _ _ _ _ Hvs Hl) as (v & Hv & Heqv). exists v.
      split; [by eapply list_elem_of_In, list_elem_of_lookup_2|]. by rewrite Heqv.
Qed.

(** *** One clause *)
Lemma condition_bitmaps_ok cl s :
  inv (bm_bins s) -> Forall cond_ok cl ->
  exists ps s', condition_bitmaps r cl s = Ok (ps, s') /\ ext s s' /\
    Forall2 (fun c p => exists v, deref p s' = Ok v /\
      good (fun enc => cond_sat types enc c) (bm_status s') v) cl ps.
Proof.
  intros Hi Hcl. revert s Hi. induction Hcl as [|c cl Hc _ IH]; intros s Hi; cbn [condition_bitmaps].
  { exists [], s. split_and!; [done|by apply ext_refl|done]. }
  destruct (GetBitmapForSingleCondition_ok c s Hi Hc) as (p & s1 & E & Hev). rewrite E.
  cbn [mbind result_bind]. destruct (IH s1 (ext_inv _ _ (proj1 Hev))) as (ps & s2 & E2 & He2 & Hps).
  rewrite E2. cbn [mbind result_bind]. eexists _, s2.
  destruct (evaluates_ext _ _ _ _ _ Hev He2) as [He Hv]. split_and!; [done|done|]. by constructor.
Qed.

Lemma assign_ok i v0 v s :
  inv (bm_bins s) -> bitmap_pool_ s !! i = Some v0 ->
  exists s', assign i v s = Ok s' /\ bm_status s' = bm_status s /\ inv (bm_bins s') /\
    bitmap_pool_ s' = <[i := v]> (bitmap_pool_ s).
Proof.
  intros Hi Hv. unfold assign. rewrite zset_ok by (by eapply lookup_lt_Some).
  cbn [mbind result_bind]. by eexists.
Qed.

Lemma good_or P Q st v w :
  good P st v -> good Q st w -> good (fun enc => P enc || Q enc) st (r_or v w).
Proof.
  intros [Hv1 Hv2] [Hw1 Hw2]. split.
  - intros x. rewrite contains_or. intros [Hx|Hx]%orb_true_iff; auto.
  - intros Ho j enc Hj. rewrite contains_or. intros [Hs|Hs]%orb_true_iff; apply orb_true_iff.
    + left. by apply (Hv2 Ho j enc).
    + right. by apply (Hw2 Ho j enc).
Qed.
Lemma good_and P Q st v w :
  good P st v -> good Q st w -> good (fun enc => P enc && Q enc) st (r_and v w).
Proof.
  intros [Hv1 Hv2] [Hw1 Hw2]. split.
  - intros x. rewrite contains_and. intros [Hx _]%andb_true_iff. auto.
  - intros Ho j enc Hj. rewrite contains_and. intros [Hs Ht]%andb_true_iff. apply andb_true_iff.
    split; [by apply (Hv2 Ho j enc)|by apply (Hw2 Ho j enc)].
Qed.
Lemma good_weaken (P Q : list EncodedAttr -> bool) st v :
  (forall enc, Q enc = true -> P enc = true) -> good P st v -> good Q st v.
Proof. intros HQ [H1 H2]. split; [done|]. intros Ho j enc Hj Hs. eapply H2; eauto. Qed.
Lemma good_status P st st' v : (st' = OK -> st = OK) -> good P st v -> good P st' v.
Proof. intros Hst [H1 H2]. split; auto. Qed.

(** The running union at pool entry [i], above everything older. *)
Lemma or_all_ok cl ps i s0 s P u :
  ext s0 s -> (length (bitmap_pool_ s0) <= i)%nat -> bitmap_pool_ s !! i = Some u ->
  good P (bm_status s) u ->
  Forall2 (fun c p => exists v, deref p s0 = Ok v /\
    good (fun enc => cond_sat types enc c) (bm_status s) v) cl ps ->
  exists s', or_all i ps s = Ok s' /\ ext s0 s' /\ bm_status s' = bm_status s /\
    exists u', bitmap_pool_ s' !! i = Some u' /\
      good (fun enc => P enc || clause_sat types enc cl) (bm_status s) u'.
Proof.
  intros He Hi Hu Hc Hps. revert ps s P u He Hu Hc Hps.
  induction cl as [|c cl IH]; intros ps s P u He Hu Hc Hps;
    apply Forall2_cons_inv_l in Hps || apply Forall2_nil_inv_l in Hps; cbn [or_all].
  - subst ps. exists s. split_and!; try done. exists u. split; [done|].
    apply (good_weaken P); [|done]. intros enc. cbn. by rewrite orb_false_r.
  - destruct Hps as (p & ps' & (v & Hv & Hcv) & Hps & ->). cbn [or_all deref]. rewrite Hu. cbn [get_or mbind result_bind].
    rewrite (ext_deref _ _ _ _ He Hv). cbn [mbind result_bind].
    destruct (assign_ok i u (r_or u v) s (ext_inv _ _ He) Hu) as (s1 & E1 & Hst & Hinv1 & Hp1). rewrite E1.
    cbn [mbind result_bind].
    assert (ext s0 s1) as He1.
    { destruct He as [Hp Ho _]. split; [|by rewrite Hst|done]. intros k w Hw. rewrite Hp1.
      rewrite list_lookup_insert_ne; [by apply Hp|]. apply lookup_lt_Some in Hw. lia. }
    destruct (IH ps' s1 (fun enc => P enc || cond_sat types enc c) (r_or u v) He1) as (s' & E' & He' & Hst' & u' & Hu' & Hc').
    + rewrite Hp1. apply list_lookup_insert_eq. by eapply lookup_lt_Some.
    + rewrite Hst. by apply good_or.
    + by rewrite Hst.
    + exists s'. split_and!; try done; [by rewrite Hst'|]. exists u'. split; [done|]. rewrite <- Hst.
      eapply good_weaken; [|exact Hc']. intros enc. cbn. by rewrite orb_assoc.
Qed.

Lemma clause_bitmap_ok cl s :
  inv (bm_bins s) -> Forall cond_ok cl ->
  exists p s', clause_bitmap r cl s = Ok (p, s') /\ evaluates (fun enc => clause_sat types enc cl) s p s'.
Proof.
  intros Hi Hcl. destruct cl as [|c [|c1 cl]]; cbn [clause_bitmap].
  - exists (Borrowed EmptyBitmap), s. split; [done|]. split; [by apply ext_refl|].
    exists r_empty. split; [done|]. split; [apply row_ids_empty|]. intros _. by apply covers_nothing.
  - apply Forall_cons in Hcl as [Hc _].
    destruct (GetBitmapForSingleCondition_ok c s Hi Hc) as (p & s' & E & He & v & Hv & Hcov).
    exists p, s'. split; [done|]. split; [done|]. exists v. split; [done|].
    eapply good_weaken; [|exact Hcov]. intros enc. unfold clause_sat. cbn. by rewrite orb_false_r.
  - destruct (condition_bitmaps_ok (c :: c1 :: cl) s Hi Hcl) as (ps & s1 & E & He1 & Hps). rewrite E.
    cbn [mbind result_bind]. apply Forall2_cons_inv_l in Hps as (p0 & ps' & (b0 & Hb0 & Hc0) & Hps & ->).
    apply Forall2_cons_inv_l in Hps as (p1 & ps & (b1 & Hb1 & Hc1) & Hps & ->).
    rewrite Hb0. cbn [mbind result_bind]. rewrite Hb1. cbn [mbind result_bind].
    pose proof (ext_inv _ _ He1) as Hi1. pose proof (ext_pooled s1 (r_or b0 b1) Hi1) as He2. cbn [snd pool] in He2.
    cbn [pool]. set (s2 := mkBmState _ _ _) in *.
    destruct (or_all_ok cl ps (length (bitmap_pool_ s1)) s1 s2
      (fun enc => cond_sat types enc c || cond_sat types enc c1) (r_or b0 b1) He2)
      as (s3 & E3 & He3 & Hst3 & u & Hu & Hcu).
    + done.
    + cbn. by rewrite list_lookup_middle.
    + by apply good_or.
    + done.
    + rewrite E3. cbn [mbind result_bind]. eexists _, s3. split; [done|].
      split; [by eapply ext_trans|]. exists u. cbn [deref]. rewrite Hu. split; [done|]. rewrite Hst3.
      eapply good_weaken; [|exact Hcu]. intros enc. unfold clause_sat. cbn.
      by rewrite orb_assoc.
Qed.

(** *** The AND of the clauses *)
Definition acc_ok (P : list EncodedAttr -> bool) (s : bm_state) (a : BitmapRef) : Prop :=
  exists v, deref a s = Ok v /\ good P (bm_status s) v.
Record grows (s s' : bm_state) : Prop := {
  gr_status : bm_status s' = OK -> bm_status s = OK;
  gr_inv : inv (bm_bins s');
}.
Lemma ext_grows s s' : ext s s' -> grows s s'.
Proof. intros []. by split. Qed.

(** One turn: the clause joins the accumulator. *)
Lemma and_step P cl acc c s s1 :
  evaluates (fun enc => clause_sat types enc cl) s c s1 ->
  (forall a, acc = Some a -> acc_ok P s a) ->
  exists a s2,
    (match acc with
     | None => Ok (c, s1)
     | Some (Pooled i) =>
         a ← deref (Pooled i) s1; bm ← deref c s1; s2 ← assign i (r_and a bm) s1; Ok (Pooled i, s2)
     | Some (Borrowed a) => bm ← deref c s1; Ok (pool (r_and a bm) s1)
     end) = Ok (a, s2) /\ grows s s2 /\ acc_ok (fun enc => P enc && clause_sat types enc cl) s2 a.
Proof.
  intros [He (v & Hv & Hcv)] Hacc. destruct acc as [a|].
  2: { exists c, s1. split_and!; [done|by apply ext_grows|]. exists v. split; [done|].
       eapply good_weaken; [|exact Hcv]. intros enc [_ ?]%andb_true_iff. done. }
  destruct (Hacc a eq_refl) as (w & Hw & Hcw). pose proof (ext_deref _ _ _ _ He Hw) as Hw1.
  pose proof (ext_inv _ _ He) as Hi1. destruct a as [bm|i].
  - injection Hw as ->. rewrite Hv. cbn [mbind result_bind]. eexists _, _. split; [done|].
    split; [apply ext_grows; eapply ext_trans; [done|by apply ext_pooled]|].
    exists (r_and w v). split; [apply deref_pooled|]. cbn [pool snd bm_status].
    apply good_and; [|done]. eapply good_status; [apply (ext_status _ _ He)|done].
  - rewrite Hw1. cbn [mbind result_bind]. rewrite Hv. cbn [mbind result_bind].
    assert (bitmap_pool_ s1 !! i = Some w) as Hpi.
    { cbn in Hw1. destruct (bitmap_pool_ s1 !! i); by simplify_eq/=. }
    destruct (assign_ok i w (r_and w v) s1 Hi1 Hpi) as (s2 & E & Hst & Hinv & Hp). rewrite E.
    cbn [mbind result_bind]. eexists _, s2. split; [done|].
    split; [split; [rewrite Hst; by apply (ext_status _ _ He)|done]|].
    exists (r_and w v). cbn [deref]. rewrite Hp, list_lookup_insert_eq by (by eapply lookup_lt_Some).
    split; [done|]. rewrite Hst. apply good_and; [|done].
    eapply good_status; [apply (ext_status _ _ He)|done].
Qed.

Lemma and_clauses_ok cs acc s P :
  inv (bm_bins s) -> Forall (Forall cond_ok) cs -> (forall a, acc = Some a -> acc_ok P s a) ->
  exists o s', and_clauses r cs acc s = Ok (o, s') /\ grows s s' /\
    match o with
    | None => bm_status s' = OK ->
        forall j enc, rows !! j = Some (Some enc) -> P enc && forallb (clause_sat types enc) cs = false
    | Some None => acc = None /\ cs = []
    | Some (Some a) => acc_ok (fun enc => P enc && forallb (clause_sat types enc) cs) s' a
    end.
Proof.
  intros Hi Hcs. revert acc s P Hi. induction Hcs as [|cl cs Hcl _ IH]; intros acc s P Hi Hacc;
    cbn [and_clauses].
  { exists (Some acc), s. split_and!; [done|by split|]. destruct acc as [a|]; [|done].
    destruct (Hacc a eq_refl) as (v & Hv & Hcov). exists v. split; [done|].
    eapply good_weaken; [|exact Hcov]. intros enc. cbn. by rewrite andb_true_r. }
  destruct (clause_bitmap_ok cl s Hi Hcl) as (c & s1 & E & Hev). rewrite E. cbn [mbind result_bind].
  destruct (and_step P cl acc c s s1 Hev Hacc) as (a & s2 & E2 & Hgr & Ha). rewrite E2.
  cbn [mbind result_bind]. pose proof Ha as (v & Hv & Hcov). rewrite Hv. cbn [mbind result_bind].
  destruct (r_isEmpty v) eqn:Ee.
  - exists None, s2. split_and!; [done|done|]. intros Ho j enc Hj. apply not_true_iff_false.
    intros [HP [Hcl' _]%andb_true_iff]%andb_true_iff. destruct Hcov as [_ Hin].
    specialize (Hin Ho j enc Hj). cbv beta in Hin. rewrite HP, Hcl' in Hin.
    by rewrite (proj1 (isEmpty_contains v) Ee) in Hin; specialize (Hin eq_refl).
  - destruct (IH (Some a) s2 (fun enc => P enc && clause_sat types enc cl) (gr_inv _ _ Hgr)) as (o & s' & E' & Hgr' & Ho).
    { intros ? [= <-]. exact Ha. }
    exists o, s'. split; [done|]. split.
    { destruct Hgr as [Hg1 _], Hgr' as [Hg2 Hg3]. split; auto. }
    cbn [forallb]. destruct o as [[a'|]|].
    + destruct Ho as (v' & Hv' & Hc'). exists v'. split; [done|].
      eapply good_weaken; [|exact Hc']. intros enc. cbn. by rewrite andb_assoc.
    + by destruct Ho.
    + intros Hok j enc Hj. rewrite andb_assoc. by apply (Ho Hok j).
Qed.

(** *** Tombstones and the whole bitmap *)
Lemma filter_tombstones_ok P a t s :
  inv (bm_bins s) -> acc_ok P s a ->
  exists p s' v, filter_tombstones a t s = Ok (p, s') /\ deref p s' = Ok v /\ grows s s' /\
    exists w, good P (bm_status s') w /\
      forall x, r_contains v x = r_contains w x && negb (r_contains t x).
Proof.
  intros Hi (w & Hw & Hcov). unfold filter_tombstones. destruct (r_isEmpty t) eqn:Et.
  { exists a, s, w. split_and!; [done|done|by split|]. exists w. split; [done|].
    intros x. by rewrite (proj1 (isEmpty_contains t) Et), andb_true_r. }
  rewrite Hw. cbn [mbind result_bind]. destruct a as [bm|i].
  - eexists _, _, _. split; [done|]. split; [apply deref_pooled|].
    split; [by apply ext_grows, ext_pooled|]. exists w. split; [done|].
    intros x. apply contains_andnot.
  - assert (bitmap_pool_ s !! i = Some w) as Hpi.
    { cbn in Hw. destruct (bitmap_pool_ s !! i); by simplify_eq/=. }
    destruct (assign_ok i w (r_andnot w t) s Hi Hpi) as (s2 & E & Hst & Hinv & Hp). rewrite E.
    cbn [mbind result_bind]. eexists _, s2, (r_andnot w t). split; [done|]. cbn [deref].
    rewrite Hp, list_lookup_insert_eq by (by eapply lookup_lt_Some). split; [done|].
    split; [by split; [rewrite Hst|]|]. rewrite Hst. exists w. split; [done|].
    intros x. apply contains_andnot.
Qed.

(** What the reader says of tombstones and row count, besides the bins. *)
Record reads_counts : Prop := {
  rc_total : TotalBins r = zlen (bitmaps bi);
  rc_tombstones : exists k, TombstoneCardinality r = Ok k /\
    (k = 0 -> forall x, r_contains (tombstone_bitmap bi) x = false);
  rc_rows : default 0 (last (data_entries_cnt_psum r)) = zlen rows;
  rc_range : zlen rows < 2 ^ 32;
}.

Lemma tombstone_loaded s :
  reads_counts -> inv (bm_bins s) ->
  exists k t s0, TombstoneCardinality r = Ok k /\
    (if k =? 0 then Ok (EmptyBitmap, s) else Tombstone r s) = Ok (t, s0) /\ ext s s0 /\
    (bm_status s0 = OK -> r_equiv t (tombstone_bitmap bi)).
Proof.
  intros [Htot (k & Ek & Hk) _ _] Hi. exists k. destruct (Z.eqb_spec k 0) as [E|_].
  { exists EmptyBitmap, s. split_and!; [done|done|by apply ext_refl|]. intros _ x.
    by rewrite (Hk E), contains_empty. }
  unfold Tombstone. rewrite Htot.
  destruct (iter_Bin_ok (zlen (bitmaps bi)) s Hi) as (v & s' & E & He & _ & Hv).
  { rewrite zlen_snoc. pose proof (zlen_nonneg (bitmaps bi)). lia. }
  exists v, s'. split_and!; try done. intros Ho. destruct (Hv Ho) as (bm & Hbm & Heq).
  unfold zlen in Hbm. rewrite Nat2Z.id, list_lookup_middle in Hbm by done. by injection Hbm as <-.
Qed.

Definition query_ok (q : SABIQuery) : Prop := Forall (Forall cond_ok) (s_clause_groups q).

(** Ids of rows that are not tombstones. *)
Definition data_rows (v : Roaring) : Prop :=
  forall x, r_contains v x = true -> exists enc, rows !! Z.to_nat x = Some (Some enc).

Lemma data_rows_of w v t :
  (forall x, r_contains w x = true -> 0 <= x < zlen rows) ->
  (forall x, r_contains v x = r_contains w x && negb (r_contains t x)) ->
  r_equiv t (tombstone_bitmap bi) -> data_rows v.
Proof.
  intros Hw Hv Ht x Hx. rewrite Hv in Hx. apply andb_true_iff in Hx as [Hx Hnt]. specialize (Hw x Hx).
  destruct (lookup_lt_is_Some_2 rows (Z.to_nat x)) as [[enc|] Hr]; [unfold zlen in Hw; lia|by exists enc|].
  exfalso. rewrite (Ht x) in Hnt. pose proof (ri_index _ _ _ _ Hrd) as Hix.
  by rewrite (proj2 (io_tombstones _ _ _ Hix x)) in Hnt by (split; [lia|done]).
Qed.

Lemma covers_minus P w v t :
  covers P w -> (forall x, r_contains v x = r_contains w x && negb (r_contains t x)) ->
  r_equiv t (tombstone_bitmap bi) -> covers P v.
Proof.
  intros Hw Hv Ht. pose proof (ri_index _ _ _ _ Hrd) as Hix.
  intros j enc Hj Hs. rewrite Hv, (Hw j enc Hj Hs), (Ht _). cbn. apply negb_true_iff, not_true_iff_false.
  intros Hx. apply (io_tombstones _ _ _ Hix) in Hx as [_ Hx]. rewrite Nat2Z.id in Hx. congruence.
Qed.

Lemma BuildQueryBitmap_ok q s :
  reads_counts -> inv (bm_bins s) -> query_ok q ->
  exists v s', BuildQueryBitmap r q s = Ok (v, s') /\ grows s s' /\ row_ids v /\
    (bm_status s' = OK -> covers (fun enc => forallb (clause_sat types enc) (s_clause_groups q)) v /\ data_rows v).
Proof.
  intros Hrc Hi Hq. unfold BuildQueryBitmap.
  destruct (tombstone_loaded s Hrc Hi) as (k & t & s0 & Ek & E0 & He0 & Ht). rewrite Ek. cbn [mbind result_bind].
  rewrite E0. cbn [mbind result_bind]. pose proof (ext_inv _ _ He0) as Hi0.
  assert (forall P a s1, grows s0 s1 -> acc_ok P s1 a -> exists v s',
    ('(p', s2) ← filter_tombstones a t s1; bm ← deref p' s2; Ok (bm, s2)) = Ok (v, s') /\ grows s s' /\
    row_ids v /\ (bm_status s' = OK -> covers P v /\ data_rows v)) as Hfin.
  { intros P a s1 [Hg1 Hg2] Ha. destruct (filter_tombstones_ok P a t s1 Hg2 Ha) as (p & s2 & v & E & Hv & [Hg3 Hg4] & w & [Hw1 Hw2] & Hx).
    rewrite E. cbn [mbind result_bind]. rewrite Hv. cbn [mbind result_bind]. exists v, s2. split; [done|].
    split. { split; [|done]. intros Ho. by apply (ext_status _ _ He0), Hg1, Hg3. }
    split. { intros x Hvx. rewrite Hx in Hvx. apply andb_true_iff in Hvx as [Hvx _]. auto. }
    intros Ho. specialize (Ht (Hg1 (Hg3 Ho))). specialize (Hw2 Ho).
    split; [by eapply covers_minus|]. by eapply data_rows_of. }
  unfold query_ok in Hq. destruct (s_clause_groups q) as [|cl cs] eqn:Eq.
  - cbn [pool]. apply (Hfin (fun _ => true)).
    + split; [done|exact Hi0].
    + exists (r_addRange r_empty 0 (default 0 (last (data_entries_cnt_psum r)))). split.
      { cbn [deref]. rewrite <- (deref_pooled s0). unfold default. done. }
      rewrite (rc_rows Hrc). pose proof (rc_range Hrc). split.
      * intros x. rewrite contains_addRange, contains_empty by lia. cbn. rewrite andb_true_iff, Z.leb_le, Z.ltb_lt. lia.
      * intros _ j enc Hj _. rewrite contains_addRange, contains_empty by lia. cbn. apply lookup_lt_Some in Hj.
        apply andb_true_iff. rewrite Z.leb_le, Z.ltb_lt. unfold zlen. lia.
  - destruct (and_clauses_ok (cl :: cs) None s0 (fun _ => true) Hi0 Hq) as (o & s1 & E1 & Hgr & Ho); [done|].
    rewrite E1. cbn [mbind result_bind]. destruct o as [[a|]|].
    + by apply Hfin.
    + by destruct Ho.
    + exists EmptyBitmap, s1. split; [done|]. destruct Hgr as [Hg1 Hg2].
      split. { split; [|done]. intros Hok. by apply (ext_status _ _ He0), Hg1. }
      split; [apply row_ids_empty|].
      intros Hok. split; [apply covers_nothing; by apply Ho|]. intros x. by rewrite contains_empty.
Qed.
End QueryBitmap.

(** (C13) The query bitmap. For any source of bins and any encoded query whose
    conditions name attributes of the schema, [BuildQueryBitmap] ends with a
    bitmap of row ids of the table; and unless a load failed, it has every row
    that satisfies all the clauses, and no tombstone. *)
Theorem BuildQueryBitmap_covers `{RoaringOps} `{!RoaringLaws _} {S : BinSource} inv types rows bi r q s :
  reads_index types rows bi r -> reads_counts rows bi r ->
  BinSourceLaws S (bitmaps bi ++ [tombstone_bitmap bi]) inv ->
  inv (bm_bins s) -> query_ok types q ->
  exists v s', BuildQueryBitmap r q s = Ok (v, s') /\ row_ids rows v /\
    (bm_status s' = OK ->
     covers rows (fun enc => forallb (clause_sat types enc) (s_clause_groups q)) v /\ data_rows rows v).
Proof.
  intros Hri Hrc Hl Hi Hq.
  destruct (BuildQueryBitmap_ok types rows bi r Hri inv q s Hrc Hi Hq) as (v & s' & E & _ & Hv & Hc).
  by exists v, s'.
Qed.
