(* ===== verification/TableScan.v ===== *)
(** * A table scan returns exactly the matching rows

    The target blocks are the ones with candidates, the walk picks the entries
    asked for, the verification keeps the visible matches, and a whole scan
    returns them in file order, or stops with a non-OK status. *)
From Stdlib Require Import ZArith Lia Strings.Byte Strings.String Sorting.Sorted.
From stdpp Require Import base numbers strings list sets sorting.
From S2P Require Import Prelude Options Row Okey BytesList Query QuerySpec Externals Intern.
From S2P Require Import RangeBuf Binning Builder Reader Index ReaderSpec BinSource TableIter.
From S2P Require Import BlobSpec SstIndex QueryBitmap.

(** ** The blocks of a file *)
Section Blocks.
Context {A : Type} (blocks : list (list A)).

(** The id of a block's first entry. *)
Definition start (b : nat) : Z := zlen (concat (take b blocks)).

Lemma start_S b es : blocks !! b = Some es -> start (S b) = start b + zlen es.
Proof.
  intros Hb. unfold start. rewrite (take_S_r _ _ _ Hb), concat_app, zlen_app. cbn [concat].
  by rewrite app_nil_r.
Qed.
Lemma start_mono a b : (a <= b)%nat -> start a <= start b.
Proof.
  intros Hab. unfold start. replace b with (a + (b - a))%nat by lia.
  rewrite <- take_take_drop, concat_app, zlen_app. pose proof (zlen_nonneg (concat (take (b - a) (drop a blocks)))).
  lia.
Qed.
Lemma start_all : start (length blocks) = zlen (concat blocks).
Proof. unfold start. by rewrite take_ge. Qed.

(** Where the entries of a block are in the file. *)
Lemma concat_lookup b es i :
  blocks !! b = Some es -> (i < length es)%nat ->
  concat blocks !! (Z.to_nat (start b) + i)%nat = es !! i.
Proof.
  intros Hb Hi. rewrite <- (take_drop_middle _ _ _ Hb) at 1. rewrite concat_app. cbn [concat].
  unfold start, zlen. rewrite Nat2Z.id. rewrite lookup_app_r by lia.
  rewrite lookup_app_l by lia. f_equal. lia.
Qed.

(** Every id is in a block. *)
Lemma block_of id : 0 <= id < zlen (concat blocks) ->
  exists b, (b < length blocks)%nat /\ start b <= id < start (S b).
Proof.
  rewrite <- start_all. intros [H0 Hid].
  assert (forall n, id < start n -> exists b, (b < n)%nat /\ start b <= id < start (S b)) as Hn.
  { induction n as [|n IH]; intros Hlt.
    - change (id < 0) in Hlt. lia.
    - destruct (Z.lt_ge_cases id (start n)) as [Hl|Hg].
      + destruct (IH Hl) as (b & ? & ?). exists b. split; [lia|done].
      + exists n. split; [lia|done]. }
  by apply Hn.
Qed.
Lemma block_unique a b id : start a <= id < start (S a) -> start b <= id < start (S b) -> a = b.
Proof.
  intros Ha Hb. destruct (Nat.lt_total a b) as [Hlt|[?|Hlt]]; [|done|].
  - pose proof (start_mono (S a) b ltac:(lia)). lia.
  - pose proof (start_mono (S b) a ltac:(lia)). lia.
Qed.

(** ** Target blocks *)
Definition psum_ok (psum : list Z) : Prop :=
  length psum = length blocks /\ forall b, (b < length blocks)%nat -> psum !! b = Some (start (S b)).

Lemma upper_bound_spec psum fuel first len target k :
  0 <= first <= k -> k <= first + len -> first + len <= zlen psum -> (Z.to_nat len <= fuel)%nat ->
  (forall i x, first <= i < first + len -> psum !! Z.to_nat i = Some x -> (target <? x) = (k <=? i)) ->
  upper_bound_loop fuel psum first len target = Ok k.
Proof.
  revert first len. induction fuel as [|fuel IH]; intros first len Hk Hk' Hlen Hf Hp; cbn [upper_bound_loop].
  all: destruct (Z.ltb_spec 0 len) as [Hl|Hl]; [try lia|f_equal; lia].
  rewrite Z.shiftr_div_pow2, Z.pow_1_r by lia.
  pose proof (Z.div_mod len 2 ltac:(lia)). pose proof (Z.mod_pos_bound len 2 ltac:(lia)).
  set (half := len / 2) in *.
  destruct (lookup_lt_is_Some_2 psum (Z.to_nat (first + half))) as [x Hx]; [unfold zlen in Hlen; lia|].
  rewrite (proj2 (zget_lookup psum (first + half) x)) by (split; [lia|done]). cbn [mbind result_bind].
  rewrite (Hp (first + half) x) by (lia || exact Hx). destruct (Z.leb_spec k (first + half)).
  - apply IH; try lia. intros i y Hi. apply Hp. lia.
  - apply IH; try lia. intros i y Hi. apply Hp. lia.
Qed.

Lemma psum_upper_bound_spec psum begin target b :
  psum_ok psum -> (begin <= b)%nat -> (b < length blocks)%nat -> start b <= target < start (S b) ->
  psum_upper_bound psum (Z.of_nat begin) target = Ok (Z.of_nat b).
Proof.
  intros [Hl Hp] Hb Hlt Ht. unfold psum_upper_bound.
  assert (zlen psum = Z.of_nat (length blocks)) as Hz by (unfold zlen; congruence).
  apply upper_bound_spec; try lia. intros i x Hi Hx. rewrite Hp in Hx by lia. injection Hx as <-.
  destruct (Z.leb_spec (Z.of_nat b) i) as [Hle|Hgt].
  - apply Z.ltb_lt. pose proof (start_mono (S b) (S (Z.to_nat i)) ltac:(lia)). lia.
  - apply Z.ltb_ge. pose proof (start_mono (S (Z.to_nat i)) b ltac:(lia)). lia.
Qed.

(** A target of the scan: block [b] of the file with its handle. *)
Definition target_of (handles : list BlockHandle) (t : Z * BlockHandle) (b : nat) : Prop :=
  t = (Z.of_nat b, snd t) /\ (b < length blocks)%nat /\ handles !! b = Some (snd t).
Definition in_target (t : Z * BlockHandle) (id : Z) : Prop :=
  start (Z.to_nat (fst t)) <= id < start (S (Z.to_nat (fst t))).

(** The ids still to be placed, all in block [n] or later. *)
Record ids_from (n : nat) (ids : list Z) : Prop := {
  if_sorted : StronglySorted Z.lt ids;
  if_bound : Forall (fun id => start n <= id < zlen (concat blocks)) ids;
}.
Lemma ids_from_tail n m id ids :
  ids_from n (id :: ids) -> start m <= id -> ids_from m ids.
Proof.
  intros [Hs Hb] Hm. apply StronglySorted_inv in Hs as [Hs Hlt]. apply Forall_cons in Hb as [_ Hb].
  split; [done|]. rewrite Forall_forall in Hlt, Hb |- *. intros x Hx.
  specialize (Hlt x Hx). specialize (Hb x Hx). lia.
Qed.

(** The targets of the scan after block [last] (none yet: -1): in increasing
    order, each a block of the file, and together with [last] holding every id. *)
Record targets_ok (handles : list BlockHandle) (last : Z) (ids : list Z) (ts : list (Z * BlockHandle)) : Prop := {
  tg_sorted : StronglySorted (fun t u => fst t < fst u) ts;
  tg_after : Forall (fun t => last < fst t) ts;
  tg_blocks : Forall (fun t => exists b, target_of handles t b) ts;
  tg_cover : Forall (fun id => (0 <= last /\ start (Z.to_nat last) <= id < start (S (Z.to_nat last))) \/
    Exists (fun t => in_target t id) ts) ids;
}.

Lemma target_loop_spec `{RoaringOps} r ids last begin :
  psum_ok (data_entries_cnt_psum r) -> length (block_handles r) = length blocks ->
  ids_from begin ids -> (last = -1 \/ last = Z.of_nat begin) ->
  exists ts, target_loop r ids last (Z.of_nat begin) = Ok ts /\ targets_ok (block_handles r) last ids ts.
Proof.
  intros Hp Hh. revert last begin. induction ids as [|id ids IH]; intros last begin Hids Hlast; cbn [target_loop].
  { exists []. split; [done|]. split; constructor. }
  pose proof (if_bound _ _ Hids) as [Hid _]%Forall_cons.
  destruct (block_of id) as (b & Hb & Hin); [pose proof (zlen_nonneg (concat (take begin blocks))); unfold start in Hid; lia|].
  assert (begin <= b)%nat as Hle.
  { destruct (Nat.le_gt_cases begin b); [done|]. pose proof (start_mono (S b) begin ltac:(lia)). lia. }
  rewrite (psum_upper_bound_spec _ _ _ b) by done. cbn [mbind result_bind].
  rewrite (proj2 (Z.eqb_neq _ _)) by (unfold zlen; destruct Hp; lia).
  pose proof (ids_from_tail _ b _ _ Hids ltac:(lia)) as Htail.
  destruct (Z.eqb_spec (Z.of_nat b) last) as [E|Hne].
  - assert (b = begin) as -> by lia. subst last.
    destruct (IH (Z.of_nat begin) begin Htail (or_intror eq_refl)) as (ts & E' & [H1 H2 H3 H4]).
    exists ts. split; [done|]. split; [done|done|done|]. constructor; [|done]. left.
    rewrite Nat2Z.id. split; [lia|done].
  - destruct (lookup_lt_is_Some_2 (block_handles r) b) as [bh Hbh]; [lia|].
    rewrite (zget_nat _ _ _ Hbh). cbn [mbind result_bind].
    destruct (IH (Z.of_nat b) b Htail (or_intror eq_refl)) as (ts & E' & [H1 H2 H3 H4]). rewrite E'.
    cbn [mbind result_bind]. eexists. split; [done|]. split.
    + by constructor.
    + constructor; [cbn; lia|]. eapply Forall_impl; [exact H2|]. intros t Ht. cbv beta in *. lia.
    + constructor; [|done]. exists b. by split_and!.
    + constructor; [right; left; unfold in_target; cbn; by rewrite Nat2Z.id|].
      eapply Forall_impl; [exact H4|]. intros x [[_ Hx]|Hx]; right; [by left|by right].
Qed.
End Blocks.

(** The rows of a list at some ids. *)
Definition rows_at {A} (l : list A) (ids : list Z) : list A := omap (fun i => l !! Z.to_nat i) ids.

(** ** The walk through a block *)
Section Walk.
Context (track : bool) (R : Z) (user_key_of : bytes -> bytes).
Context (HR : 0 < R).

(** The newer-version flag of entry [i]: at a restart point the walk does not
    know the entry before, elsewhere it compares the user keys. *)
Definition shadow_flag (entries : list (bytes * bytes)) (i : nat) (key : bytes) : bool :=
  track && ((Z.of_nat i mod R =? 0) ||
    match entries !! (i - 1)%nat with
    | Some e => beqb (user_key_of key) (user_key_of (fst e))
    | None => true
    end).
Definition block_rows (entries : list (bytes * bytes)) : list buf_row :=
  imap (fun i e => mkBufRow (fst e) (snd e) (shadow_flag entries i (fst e))) entries.

(** A cursor that has not passed entry [i] yet. *)
Definition walk_at (w : walk) (i : Z) : Prop :=
  forall c, wk_checkpoint w = Some c ->
    wk_pos w = c * R + wk_offset w /\ 0 <= wk_offset w < R /\ wk_pos w < i.

Lemma hop_spec entries fuel target offset pos prev :
  0 <= pos -> offset <= target -> pos + (target - offset) < zlen entries ->
  (Z.to_nat (target - offset) <= fuel)%nat ->
  exists prev', hop track user_key_of fuel entries target offset pos prev =
      Ok (target, pos + (target - offset), prev') /\
    (offset = target -> prev' = prev) /\
    (offset < target -> track = true -> exists e,
       entries !! Z.to_nat (pos + (target - offset) - 1) = Some e /\ prev' = Some (user_key_of (fst e))).
Proof.
  revert offset pos prev. induction fuel as [|fuel IH]; intros offset pos prev Hp Ho Hlt Hf; cbn [hop].
  all: destruct (Z.ltb_spec offset target) as [Hl|Hl]; cbn [andb].
  1: lia.
  2: { rewrite (proj2 (Z.ltb_lt _ _)) by lia.
    destruct (lookup_lt_is_Some_2 entries (Z.to_nat pos)) as [e He]; [unfold zlen in Hlt; lia|].
    rewrite (proj2 (zget_lookup entries pos e)) by (split; [lia|done]). cbn [mbind result_bind].
    set (prev1 := if track && _ then _ else _).
    destruct (IH (offset + 1) (pos + 1) prev1) as (prev' & E & H1 & H2); [lia..|].
    exists prev'. rewrite E. split; [do 2 f_equal; f_equal; lia|]. split; [lia|]. intros _ Ht.
    destruct (Z.eq_dec (offset + 1) target) as [E1|Hne].
    - exists e. split; [by replace (pos + (target - offset) - 1) with pos by lia|].
      rewrite (H1 E1). unfold prev1. by rewrite Ht, (proj2 (Z.eqb_eq _ _) E1).
    - destruct H2 as (e' & He' & ->); [lia|done|]. exists e'. split; [|done].
      by replace (pos + (target - offset) - 1) with (pos + 1 + (target - (offset + 1)) - 1) by lia. }
  all: exists prev; split; [do 2 f_equal; f_equal; lia|]; split; [done|lia].
Qed.

Lemma pick_spec entries i w :
  0 <= i < zlen entries -> walk_at w i ->
  exists row w', pick track R user_key_of entries i w = Ok (row, w') /\
    block_rows entries !! Z.to_nat i = Some row /\ forall j, i < j -> walk_at w' j.
Proof.
  intros Hi Hw. unfold pick.
  pose proof (Z.div_mod i R ltac:(lia)) as Hdm. pose proof (Z.mod_pos_bound i R HR) as Hm.
  assert (0 <= i / R) as Hq by (apply Z.div_pos; lia).
  set (w1 := if bool_decide _ then w else _).
  assert (wk_checkpoint w1 = Some (i / R) /\ wk_pos w1 = i / R * R + wk_offset w1 /\
    0 <= wk_offset w1 <= i mod R /\ (wk_offset w1 = i mod R -> i mod R = 0)) as (Hc & Hpos & Ho & Hz).
  { unfold w1. case_bool_decide as Hb.
    - destruct (Hw _ Hb) as (? & ? & ?). split_and!; (done || lia).
    - cbn. split_and!; (done || lia). }
  clearbody w1. cbv zeta. rewrite (Z.mul_comm R) in Hdm.
  destruct (hop_spec entries (Z.to_nat (i mod R)) (i mod R) (wk_offset w1) (wk_pos w1) None)
    as (prev & E & H1 & H2); [lia..|]. rewrite E. cbn [mbind result_bind].
  replace (wk_pos w1 + (i mod R - wk_offset w1)) with i in * by lia.
  rewrite (proj2 (Z.ltb_lt _ _)) by lia.
  destruct (lookup_lt_is_Some_2 entries (Z.to_nat i)) as [e He]; [unfold zlen in Hi; lia|].
  rewrite (proj2 (zget_lookup entries i e)) by (split; [lia|done]). cbn [mbind result_bind].
  eexists _, _. split; [done|]. split.
  - unfold block_rows. rewrite list_lookup_imap, He. cbn [fmap option_fmap option_map]. do 2 f_equal.
    unfold shadow_flag. destruct track; [|done]. cbn [andb]. rewrite Z2Nat.id by lia.
    destruct (Z.eq_dec (wk_offset w1) (i mod R)) as [Eo|Hne].
    + rewrite (H1 Eo), (Hz Eo). done.
    + destruct H2 as (e' & He' & ->); [lia|done|].
      rewrite (proj2 (Z.eqb_neq _ _)) by lia. cbn [orb].
      replace (Z.to_nat i - 1)%nat with (Z.to_nat (i - 1)) by lia. by rewrite He'.
  - intros j Hj c. cbn. rewrite Hc. intros [= <-]. lia.
Qed.

Lemma pick_all_spec entries ids w :
  StronglySorted Z.lt ids -> Forall (fun i => 0 <= i < zlen entries) ids ->
  Forall (walk_at w) ids ->
  pick_all track R user_key_of entries ids w = Ok (rows_at (block_rows entries) ids).
Proof.
  intros Hs. revert w. induction Hs as [|i ids Hs IH Hlt]; intros w Hb Hw; cbn [pick_all]; [done|].
  apply Forall_cons in Hb as [Hi Hb]. apply Forall_cons in Hw as [Hwi _].
  destruct (pick_spec entries i w Hi Hwi) as (row & w' & E & Hrow & Hw'). rewrite E.
  cbn [mbind result_bind]. rewrite IH.
  - unfold rows_at. cbn [omap list_omap mbind result_bind]. by rewrite Hrow.
  - done.
  - eapply Forall_impl; [exact Hlt|]. apply Hw'.
Qed.
End Walk.

Lemma rows_at_app {A} (l : list A) ids ids' : rows_at l (ids ++ ids') = rows_at l ids ++ rows_at l ids'.
Proof. apply omap_app. Qed.
Lemma rows_at_length {A} (l : list A) ids : (length (rows_at l ids) <= length ids)%nat.
Proof. unfold rows_at. induction ids as [|i ids IH]; cbn; [done|]. destruct (l !! Z.to_nat i); cbn; lia. Qed.

(** ** A scan *)
Section Scan.
Context `{RoaringOps} `{!RoaringLaws _} {S : BinSource}.
Context (read_seqno : Z) (compiled_ : option CompiledQuery) (track : bool) (R : Z).
Context (load_block : BlockHandle -> list (bytes * bytes) + Status).
Context (parse_key : bytes -> option ParsedInternalKey) (user_key_of : bytes -> bytes).
Context (HR : 0 < R).
Context (r : SABIReader) (blocks : list (list (bytes * bytes))).

(** The rows of the file in order, flags included. *)
Definition file_rows : list buf_row := concat (map (block_rows track R user_key_of) blocks).

(** What the file gives when it is read: the blocks the index speaks of, or a
    failure. *)
Record reads_blocks : Prop := {
  rb_psum : psum_ok blocks (data_entries_cnt_psum r);
  rb_handles : length (block_handles r) = length blocks;
  rb_loads b bh es : block_handles r !! b = Some bh -> blocks !! b = Some es ->
    load_block bh = inl es \/ exists st, load_block bh = inr st /\ ok st = false;
}.
Context (Hrb : reads_blocks).

(** The verdict of the verification, where it has one. *)
Context (keeps : buf_row -> bool).
Context (Hkeeps : forall row, row ∈ file_rows -> keep_row read_seqno compiled_ parse_key row = Ok (keeps row)).
Local Abbreviation kept l := (filter (fun row => keeps row = true) l).

Lemma compact_spec front junk rest :
  Forall (fun row => keep_row read_seqno compiled_ parse_key row = Ok (keeps row)) rest ->
  exists tail, compact read_seqno compiled_ parse_key (length rest) (zlen (front ++ junk)) (zlen front)
      (front ++ junk ++ rest) = Ok (zlen (front ++ kept rest), (front ++ kept rest) ++ tail).
Proof.
  intros Hk. revert front junk. induction Hk as [|row rest Hrow _ IH]; intros front junk; cbn [length compact].
  { exists junk. by rewrite filter_nil, !app_nil_r. }
  assert (zget (front ++ junk ++ row :: rest) (zlen (front ++ junk)) = Ok row) as ->.
  { apply zget_nat. by rewrite app_assoc, list_lookup_middle. }
  cbn [mbind result_bind]. rewrite Hrow. cbn [mbind result_bind]. rewrite filter_cons.
  destruct (keeps row) eqn:Ek; cbn [decide].
  - rewrite decide_True by done.
    replace (front ++ row :: kept rest) with ((front ++ [row]) ++ kept rest) by by rewrite <- app_assoc.
    replace (zlen front + 1) with (zlen (front ++ [row])) by apply zlen_snoc.
    replace (zlen (front ++ junk) + 1) with (zlen ((front ++ junk) ++ [row])) by apply zlen_snoc.
    destruct junk as [|j junk].
    + rewrite app_nil_r, Z.eqb_refl. cbn [mbind result_bind app].
      destruct (IH (front ++ [row]) []) as [tail E]. rewrite app_nil_r in E. cbn [app] in E.
      rewrite <- (app_assoc front [row] rest) in E. cbn [app] in E. rewrite E. by exists tail.
    + rewrite (proj2 (Z.eqb_neq _ _)) by (rewrite zlen_app, zlen_cons; pose proof (zlen_nonneg junk); lia).
      change (zset ?l (zlen front) row) with (zset l (Z.of_nat (length front)) row).
      rewrite zset_ok by (rewrite length_app; cbn; lia). cbn [mbind result_bind app].
      replace (<[length front:=row]> (front ++ j :: junk ++ row :: rest))
        with ((front ++ [row]) ++ (junk ++ [row]) ++ rest).
      2: { rewrite insert_app_r_alt, Nat.sub_diag by lia. cbn. by rewrite <- !app_assoc. }
      destruct (IH (front ++ [row]) (junk ++ [row])) as [tail E]. exists tail. rewrite <- E. f_equal.
      unfold zlen. rewrite !length_app. cbn. lia.
  - rewrite decide_False by done. replace (zlen (front ++ junk) + 1) with (zlen (front ++ (junk ++ [row]))).
    2: { rewrite app_assoc. apply zlen_snoc. }
    destruct (IH front (junk ++ [row])) as [tail E]. exists tail. rewrite <- E. by rewrite <- !app_assoc.
Qed.

Lemma local_indexes_spec gs ge ids :
  StronglySorted Z.lt ids -> Forall (fun id => gs <= id) ids ->
  exists pre post, ids = pre ++ post /\ Forall (fun id => gs <= id < ge) pre /\
    Forall (fun id => ge <= id) post /\
    local_indexes gs ge ids = (map (fun id => id - gs) pre, post).
Proof.
  intros Hs. induction Hs as [|id ids Hs IH Hlt]; intros Hb; cbn [local_indexes].
  { exists [], []. split_and!; try done; constructor. }
  apply Forall_cons in Hb as [Hid Hb]. destruct (Z.leb_spec ge id) as [Hge|Hl].
  - exists [], (id :: ids). split_and!; try done. constructor; [done|].
    eapply Forall_impl; [exact Hlt|]. intros x Hx. cbv beta in *. lia.
  - destruct (IH Hb) as (pre & post & -> & H1 & H2 & E). rewrite E.
    rewrite (proj2 (Z.leb_le _ _)) by done. exists (id :: pre), post. split_and!; try done. by constructor.
Qed.

Lemma start_rows b : start (map (block_rows track R user_key_of) blocks) b = start blocks b.
Proof.
  unfold start, zlen. f_equal. revert b. induction blocks as [|es bs IH]; intros [|b]; try done.
  cbn [map take concat]. rewrite !length_app. unfold block_rows at 1. by rewrite length_imap, IH.
Qed.

(** The rows of a block are rows of the file. *)
Lemma block_rows_at b es pre :
  blocks !! b = Some es -> Forall (fun id => start blocks b <= id < start blocks (Datatypes.S b)) pre ->
  rows_at (block_rows track R user_key_of es) (map (fun id => id - start blocks b) pre) = rows_at file_rows pre.
Proof.
  intros Hb. induction 1 as [|id pre Hid _ IH]; [done|]. unfold rows_at in *. cbn [map omap list_omap].
  rewrite IH. assert (0 <= start blocks b) as H0 by apply zlen_nonneg.
  rewrite (start_S _ _ _ Hb) in Hid. pose proof (concat_lookup (map (block_rows track R user_key_of) blocks) b
    (block_rows track R user_key_of es) (Z.to_nat (id - start blocks b))) as Hc.
  rewrite start_rows in Hc. unfold file_rows.
  replace (Z.to_nat id) with (Z.to_nat (start blocks b) + Z.to_nat (id - start blocks b))%nat by lia.
  rewrite Hc; [done|by rewrite list_lookup_fmap, Hb|]. unfold block_rows. rewrite length_imap. unfold zlen in Hid. lia.
Qed.

(** *** Loading the next block *)

(** Between two loads: every id not consumed yet is in a target not reached
    yet. *)
Record scan_inv (it : table_iter) : Prop := {
  si_reader : ti_reader it = Some r;
  si_status : ok (ti_status it) = true;
  si_cur : -1 <= cur_target_block_idx_ it;
  si_sorted : StronglySorted (fun t u : Z * BlockHandle => fst t < fst u) (target_blocks_ it);
  si_blocks : Forall (fun t => exists b, target_of blocks (block_handles r) t b) (target_blocks_ it);
  si_ids : StronglySorted Z.lt (bitmap_iter_ it);
  si_cover : Forall (fun id => Exists (fun t => in_target blocks t id)
    (drop (Z.to_nat (cur_target_block_idx_ it + 1)) (target_blocks_ it))) (bitmap_iter_ it);
}.
Definition todo (it : table_iter) : list buf_row := kept (rows_at file_rows (bitmap_iter_ it)).

Lemma later_target t u ts b c :
  StronglySorted (fun t u : Z * BlockHandle => fst t < fst u) (t :: ts) -> u ∈ ts ->
  target_of blocks (block_handles r) t b -> target_of blocks (block_handles r) u c ->
  start blocks (Datatypes.S b) <= start blocks c.
Proof.
  intros [_ Hs]%StronglySorted_inv Hu (Et & _) (Eu & _). rewrite Forall_forall in Hs.
  specialize (Hs u Hu). rewrite Et, Eu in Hs. cbn in Hs. apply start_mono. lia.
Qed.

(** The ids of the next target come first; the others are in later targets. *)
Lemma next_ids t ts b ids :
  StronglySorted (fun t u : Z * BlockHandle => fst t < fst u) (t :: ts) ->
  Forall (fun t => exists b, target_of blocks (block_handles r) t b) (t :: ts) ->
  target_of blocks (block_handles r) t b -> StronglySorted Z.lt ids ->
  Forall (fun id => Exists (fun t => in_target blocks t id) (t :: ts)) ids ->
  exists pre post, ids = pre ++ post /\
    local_indexes (start blocks b) (start blocks (Datatypes.S b)) ids = (map (fun id => id - start blocks b) pre, post) /\
    Forall (fun id => start blocks b <= id < start blocks (Datatypes.S b)) pre /\
    Forall (fun id => Exists (fun t => in_target blocks t id) ts) post.
Proof.
  intros Hs Hts Ht Hids Hcov. apply Forall_cons in Hts as [_ Hts].
  assert (forall id, in_target blocks t id -> start blocks b <= id < start blocks (Datatypes.S b)) as Hhere.
  { intros id. unfold in_target. destruct Ht as (-> & _). cbn. by rewrite Nat2Z.id. }
  assert (forall id, Exists (fun t => in_target blocks t id) ts -> start blocks (Datatypes.S b) <= id) as Hlater.
  { intros id (u & Hu & Hin)%Exists_exists. rewrite Forall_forall in Hts. destruct (Hts u Hu) as [c Hc].
    pose proof (later_target t u ts b c Hs Hu Ht Hc). destruct Hc as (Eu & _). unfold in_target in Hin.
    rewrite Eu in Hin. cbn in Hin. rewrite Nat2Z.id in Hin. lia. }
  pose proof (start_mono blocks b (Datatypes.S b) ltac:(lia)) as Hm.
  destruct (local_indexes_spec (start blocks b) (start blocks (Datatypes.S b)) ids Hids)
    as (pre & post & -> & H1 & H2 & E).
  { eapply Forall_impl; [exact Hcov|]. intros id [Hin|Hin]%Exists_cons; [by apply Hhere|].
    pose proof (Hlater id Hin). lia. }
  exists pre, post. split_and!; try done. apply Forall_app in Hcov as [_ Hcov].
  rewrite Forall_forall in H2, Hcov |- *. intros id Hid. specialize (H2 id Hid).
  destruct (proj1 (Exists_cons _ _ _) (Hcov id Hid)) as [Hin|Hin]; [|done]. specialize (Hhere id Hin). lia.
Qed.

(** The bounds of a target in the prefix sums. *)
Lemma target_bounds b : (b < length blocks)%nat ->
  (if Z.of_nat b =? 0 then Ok 0 else zget (data_entries_cnt_psum r) (Z.of_nat b - 1)) = Ok (start blocks b) /\
  zget (data_entries_cnt_psum r) (Z.of_nat b) = Ok (start blocks (Datatypes.S b)).
Proof.
  destruct (rb_psum Hrb) as [_ Hp]. intros Hb. split; [|by apply zget_nat, Hp].
  destruct b as [|b]; [done|]. rewrite (proj2 (Z.eqb_neq _ _)) by lia.
  replace (Z.of_nat (Datatypes.S b) - 1) with (Z.of_nat b) by lia. apply zget_nat, Hp. lia.
Qed.

(** What a target's block gives. *)
Lemma block_read t b pre :
  target_of blocks (block_handles r) t b -> StronglySorted Z.lt pre ->
  Forall (fun id => start blocks b <= id < start blocks (Datatypes.S b)) pre ->
  GetAllByIndexesFromDataBlock track R load_block user_key_of (snd t) (map (fun id => id - start blocks b) pre) =
    Ok (inl (rows_at file_rows pre)) \/
  exists st, ok st = false /\
    GetAllByIndexesFromDataBlock track R load_block user_key_of (snd t) (map (fun id => id - start blocks b) pre) =
      Ok (inr st).
Proof.
  intros (_ & Hb & Hh) Hs Hpre. destruct (lookup_lt_is_Some_2 blocks b Hb) as [es Hes].
  unfold GetAllByIndexesFromDataBlock. destruct (rb_loads Hrb b _ es Hh Hes) as [->|(st & -> & Hst)]; [left|right; eauto].
  rewrite (pick_all_spec track R user_key_of HR); cbn [mbind result_bind].
  - by rewrite (block_rows_at b es).
  - clear Hpre. induction Hs as [|x l _ IH Hall]; [constructor|]. cbn [map]. constructor; [done|].
    rewrite Forall_map. eapply Forall_impl; [exact Hall|]. intros y Hy. cbv beta in *. lia.
  - rewrite Forall_map. eapply Forall_impl; [exact Hpre|]. intros x Hx. cbv beta in *.
    rewrite (start_S _ _ _ Hes) in Hx. lia.
  - rewrite Forall_map. apply Forall_true. intros x c. by cbn.
Qed.

Local Abbreviation load := (LoadNextBlock read_seqno compiled_ track R load_block parse_key user_key_of).

(** A load ends the scan, or leaves a non-empty buffer of kept rows. *)
Definition loaded (it it' : table_iter) : Prop :=
  if valid_ it' then
    scan_inv it' /\ buffer_idx_ it' = 0 /\ exists front tail, front <> [] /\
      buffer_ it' = front ++ tail /\ buffer_count_ it' = zlen front /\ todo it = front ++ todo it'
  else ok (ti_status it') = true -> todo it = [].

Lemma loaded_skip it it1 it' : todo it = todo it1 -> loaded it1 it' -> loaded it it'.
Proof. unfold loaded. by intros ->. Qed.

Lemma todo_split it pre post :
  bitmap_iter_ it = pre ++ post ->
  todo it = kept (rows_at file_rows pre) ++ kept (rows_at file_rows post).
Proof. intros E. unfold todo. by rewrite E, rows_at_app, filter_app. Qed.

Lemma rows_at_elem {A} (l : list A) ids : Forall (fun x => x ∈ l) (rows_at l ids).
Proof.
  apply Forall_forall. intros x (i & _ & Hx)%list_elem_of_omap. by eapply list_elem_of_lookup_2.
Qed.

(** The invariant when target [cur] was just consumed. *)
Lemma scan_inv_step it t ts it1 pre post :
  scan_inv it -> drop (Z.to_nat (cur_target_block_idx_ it + 1)) (target_blocks_ it) = t :: ts ->
  bitmap_iter_ it = pre ++ post -> Forall (fun id => Exists (fun t => in_target blocks t id) ts) post ->
  ti_reader it1 = ti_reader it -> ti_status it1 = ti_status it -> target_blocks_ it1 = target_blocks_ it ->
  cur_target_block_idx_ it1 = cur_target_block_idx_ it + 1 -> bitmap_iter_ it1 = post ->
  scan_inv it1.
Proof.
  intros [] Hd Eids Hpost Er Es Et Ec Ei. split; rewrite ?Er, ?Es, ?Et, ?Ec, ?Ei; try done; [lia| |].
  - rewrite Eids in si_ids0. by apply StronglySorted_app_1_r in si_ids0.
  - replace (Z.to_nat (cur_target_block_idx_ it + 1 + 1)) with (Z.to_nat (cur_target_block_idx_ it + 1) + 1)%nat by lia.
    by rewrite <- drop_drop, Hd.
Qed.

Lemma LoadNextBlock_spec fuel it :
  scan_inv it -> (length (target_blocks_ it) - Z.to_nat (cur_target_block_idx_ it + 1) < fuel)%nat ->
  exists it', load fuel r it = Ok it' /\ loaded it it'.
Proof.
  revert it. induction fuel as [|fuel IH]; intros it Hinv Hf; [lia|]. cbn [LoadNextBlock].
  pose proof (si_cur _ Hinv) as Hcur. destruct (Z.leb_spec (zlen (target_blocks_ it)) (cur_target_block_idx_ it + 1)) as [Hend|Hmore].
  { eexists. split; [done|]. intros _. pose proof (si_cover _ Hinv) as Hc.
    rewrite drop_ge in Hc by (unfold zlen in Hend; lia). unfold todo.
    destruct (bitmap_iter_ it) as [|id ids]; [done|]. apply Forall_cons in Hc as [Hc _]. by apply Exists_nil in Hc. }
  destruct (lookup_lt_is_Some_2 (target_blocks_ it) (Z.to_nat (cur_target_block_idx_ it + 1))) as [t Ht];
    [unfold zlen in Hmore; lia|].
  rewrite (proj2 (zget_lookup _ (cur_target_block_idx_ it + 1) t)) by (split; [lia|done]).
  pose proof (drop_S _ _ _ Ht) as Hd. set (ts := drop (Datatypes.S _) _) in Hd.
  destruct (proj1 (Forall_lookup _ _) (si_blocks _ Hinv) _ t Ht) as [b Hb].
  destruct (next_ids t ts b (bitmap_iter_ it)) as (pre & post & Eids & El & Hpre & Hpost); try done.
  { rewrite <- Hd. eapply StronglySorted_app_1_r. rewrite take_drop. apply Hinv. }
  { rewrite <- Hd. apply Forall_drop, Hinv. }
  { apply Hinv. }
  { rewrite <- Hd. apply Hinv. }
  destruct (target_bounds b (proj1 (proj2 Hb))) as [Eg1 Eg2]. pose proof Hb as (Et & _).
  rewrite Et. cbn [mbind result_bind]. rewrite Eg1. cbn [mbind result_bind]. rewrite Eg2.
  cbn [mbind result_bind]. rewrite El.
  assert (forall it1, ti_reader it1 = ti_reader it -> ti_status it1 = ti_status it ->
    target_blocks_ it1 = target_blocks_ it -> cur_target_block_idx_ it1 = cur_target_block_idx_ it + 1 ->
    bitmap_iter_ it1 = post -> scan_inv it1) as Hstep by (intros; by eapply scan_inv_step).
  assert (forall it1, scan_inv it1 -> target_blocks_ it1 = target_blocks_ it ->
    cur_target_block_idx_ it1 = cur_target_block_idx_ it + 1 -> bitmap_iter_ it1 = post ->
    kept (rows_at file_rows pre) = [] -> exists it', load fuel r it1 = Ok it' /\ loaded it it') as Hnext.
  { intros it1 Hi1 Ht1 Hc1 Hp1 Hk. destruct (IH it1 Hi1) as (it' & E' & Hl); [rewrite Ht1, Hc1; unfold zlen in Hmore; lia|].
    exists it'. split; [done|]. eapply loaded_skip; [|done].
    rewrite (todo_split it pre post Eids), Hk. unfold todo. by rewrite Hp1. }
  destruct pre as [|p pre]; cbn [map].
  { apply Hnext; try done. by apply Hstep. }
  assert (StronglySorted Z.lt (p :: pre)) as Hsp.
  { eapply StronglySorted_app_1_l. rewrite <- Eids. apply Hinv. }
  cbn [mbind result_bind]. destruct (block_read t b (p :: pre) Hb Hsp Hpre) as [E|(st & Hst & E)];
    cbn [map] in E; rewrite E; cbn [mbind result_bind].
  2: { eexists. split; [done|]. unfold loaded. cbn. by rewrite Hst. }
  rewrite (si_status _ Hinv). cbn [negb].
  set (rows := rows_at file_rows (p :: pre)) in *.
  destruct (compact_spec [] [] rows) as [tail Ec].
  { eapply Forall_impl; [apply rows_at_elem|]. exact Hkeeps. }
  cbn [app] in Ec. change (zlen []) with 0 in Ec. rewrite Ec. cbn [mbind result_bind].
  destruct (Z.ltb_spec 0 (zlen (kept rows))) as [Hpos|Hzero].
  - eexists. split; [done|]. unfold loaded. cbn [valid_]. split; [by apply Hstep|]. split; [done|].
    exists (kept rows), tail. split_and!; try done; [intros E0; by rewrite E0 in Hpos|]. by apply todo_split.
  - apply Hnext; try done; [by apply Hstep|]. fold rows. destruct (kept rows); [done|].
    rewrite zlen_cons in Hzero. pose proof (zlen_nonneg l). lia.
Qed.

(** *** A whole scan *)
Local Abbreviation draining := (drain read_seqno compiled_ track R load_block parse_key user_key_of).
Local Abbreviation scanning := (scan read_seqno compiled_ track R load_block parse_key user_key_of).

(** On a row: what is left of the buffer, then the ids left. *)
Record on_row (it : table_iter) (rows : list buf_row) : Prop := {
  or_valid : valid_ it = true;
  or_inv : scan_inv it;
  or_rows : exists front rest tail, buffer_ it = front ++ rest ++ tail /\ rest <> [] /\
    buffer_idx_ it = zlen front /\ buffer_count_ it = zlen (front ++ rest) /\ rows = rest ++ todo it;
}.

(** How a scan that should still give [rows] ends. *)
Definition ends_with (rows : list buf_row) (res : result (list buf_row * table_iter)) : Prop :=
  exists out last, res = Ok (out, last) /\ valid_ last = false /\ out `prefix_of` rows /\
    (ok (ti_status last) = true -> out = rows).

Lemma loaded_cases it it' :
  loaded it it' -> (valid_ it' = false /\ (ok (ti_status it') = true -> todo it = [])) \/
                   on_row it' (todo it).
Proof.
  unfold loaded. intros Hl. destruct (valid_ it') eqn:Ev; [right|by left].
  destruct Hl as (Hi & Hidx & front & tail & Hne & Hb & Hc & Ht). split; [done|done|].
  by exists [], front, tail.
Qed.

Lemma Next_spec it rows :
  on_row it rows ->
  exists row rows' it', rows = row :: rows' /\ current it = Ok row /\
    Next read_seqno compiled_ track R load_block parse_key user_key_of it = Ok it' /\
    ((valid_ it' = false /\ (ok (ti_status it') = true -> rows' = [])) \/ on_row it' rows').
Proof.
  intros [Hv Hinv (front & rest & tail & Hb & Hne & Hidx & Hcnt & ->)].
  destruct rest as [|row rest]; [done|]. exists row, (rest ++ todo it).
  assert (current it = Ok row) as Hcur.
  { unfold current. rewrite Hb, Hidx. apply zget_nat. cbn [app]. by rewrite list_lookup_middle. }
  unfold Next. rewrite Hv. cbn [negb]. destruct rest as [|row' rest].
  - rewrite (proj2 (Z.leb_le _ _)) by (rewrite Hcnt, Hidx, zlen_snoc; lia). rewrite (si_reader _ Hinv).
    set (it1 := invalid _). assert (scan_inv it1) as Hi1 by by destruct Hinv.
    destruct (LoadNextBlock_spec (load_fuel it) it1 Hi1) as (it' & E & Hl).
    { unfold load_fuel. cbn. lia. }
    exists it'. split_and!; try done. by apply loaded_cases in Hl.
  - rewrite (proj2 (Z.leb_gt _ _)).
    2: { rewrite Hcnt, Hidx, zlen_app, !zlen_cons. pose proof (zlen_nonneg rest). lia. }
    eexists. split_and!; [done|done|done|]. right. split; [done|by destruct Hinv|].
    exists (front ++ [row]), (row' :: rest), tail. cbn [buffer_ buffer_idx_ buffer_count_].
    rewrite Hb, Hidx, Hcnt, zlen_snoc, <- !app_assoc. by split_and!.
Qed.

Lemma drain_spec rows fuel it :
  (length rows < fuel)%nat -> on_row it rows -> ends_with rows (draining fuel it).
Proof.
  revert rows it. induction fuel as [|fuel IH]; intros rows it Hf Hon; [lia|].
  destruct (Next_spec it rows Hon) as (row & rows' & it' & -> & Ec & En & Hcases).
  cbn [drain]. rewrite (or_valid _ _ Hon), Ec. cbn [mbind result_bind]. rewrite En. cbn [mbind result_bind].
  cbn [length] in Hf. destruct Hcases as [[Hv Hs]|Hon'].
  - replace (draining fuel it') with (Ok ([] : list buf_row, it')) by (by destruct fuel; cbn; rewrite Hv).
    cbn [mbind result_bind]. exists [row], it'. split_and!; [done|done| |].
    + by apply prefix_cons, prefix_nil.
    + intros Ho. by rewrite (Hs Ho).
  - destruct (IH rows' it' ltac:(lia) Hon') as (out & last & E & Hv & Hp & Ho). rewrite E. cbn [mbind result_bind].
    exists (row :: out), last. split_and!; [done|done|by apply prefix_cons|]. intros Hok. by rewrite (Ho Hok).
Qed.

(** A scan from the start. *)
Lemma scan_spec fuel it :
  scan_inv (mkTableIter (ti_status it) (ti_reader it) (query_bitmap_ it) (ti_bins it) (target_blocks_ it)
    (-1) (r_toUint32Array (query_bitmap_ it)) (buffer_ it) 0 0 (valid_ it)) ->
  (length (r_toUint32Array (query_bitmap_ it)) < fuel)%nat ->
  ends_with (kept (rows_at file_rows (r_toUint32Array (query_bitmap_ it)))) (scanning fuel it).
Proof.
  set (it1 := mkTableIter _ _ _ _ _ _ _ _ _ _ _). intros Hinv Hf. unfold scan, SeekToFirst. fold it1.
  change (ti_status it) with (ti_status it1). change (ti_reader it) with (ti_reader it1).
  rewrite (si_status _ Hinv), (si_reader _ Hinv). cbn [negb].
  destruct (LoadNextBlock_spec (load_fuel it) it1 Hinv) as (it' & E & Hl); [unfold load_fuel; cbn; lia|].
  rewrite E. cbn [mbind result_bind]. apply loaded_cases in Hl as [[Hv Hs]|Hon].
  - replace (draining fuel it') with (Ok ([] : list buf_row, it')) by (by destruct fuel; cbn; rewrite Hv).
    exists [], it'. split_and!; [done|done|apply prefix_nil|]. intros Ho. by rewrite <- (Hs Ho).
  - apply drain_spec; [|done]. unfold todo. eapply Nat.le_lt_trans; [|exact Hf]. cbn [bitmap_iter_].
    etrans; [apply length_filter|]. apply rows_at_length.
Qed.
End Scan.

(** ** From the query to the rows *)

Lemma sorted_filter {A} (P : A -> A -> Prop) (f : A -> bool) l :
  StronglySorted P l -> StronglySorted P (filter (fun i => f i = true) l).
Proof.
  induction 1 as [|x l Hs IH Hall]; [constructor|]. rewrite filter_cons. destruct (decide _); [|done].
  constructor; [done|]. rewrite Forall_forall in Hall |- *. intros y [_ Hy]%list_elem_of_filter. by apply Hall.
Qed.
Lemma sorted_seqZ k n : StronglySorted Z.lt (seqZ k n).
Proof.
  destruct (Z.le_ge_cases n 0); [rewrite seqZ_nil by lia; constructor|].
  replace n with (Z.of_nat (Z.to_nat n)) by lia. generalize (Z.to_nat n). intros m. clear. revert k.
  induction m as [|m IH]; intros k; [constructor|]. rewrite seqZ_cons by lia.
  replace (Z.pred (Z.of_nat (S m))) with (Z.of_nat m) by lia. constructor; [done|].
  apply Forall_forall. intros x Hx%elem_of_seqZ. lia.
Qed.
Lemma sorted_bounded_length l k n :
  StronglySorted Z.lt l -> Forall (fun i => k <= i < k + Z.of_nat n) l -> (length l <= n)%nat.
Proof.
  intros Hs. revert k n. induction Hs as [|x l Hs IH Hall]; intros k n Hb; cbn; [lia|].
  apply Forall_cons in Hb as [Hx Hb]. destruct n as [|n]; [lia|]. enough (length l <= n)%nat by lia.
  apply (IH (k + 1)). rewrite Forall_forall in Hall, Hb |- *. intros i Hi.
  specialize (Hall i Hi). specialize (Hb i Hi). lia.
Qed.
Lemma file_rows_length track R user_key_of blocks :
  zlen (file_rows track R user_key_of blocks) = zlen (concat blocks).
Proof.
  unfold file_rows. rewrite <- !start_all, length_map. apply start_rows.
Qed.

(** Picking by a sorted list of ids that misses only rejected rows. *)
Lemma filter_rows_at {A} (f : A -> bool) (l : list A) (k : Z) (ids : list Z) :
  StronglySorted Z.lt ids -> Forall (fun id => k <= id < k + zlen l) ids ->
  (forall j x, l !! j = Some x -> f x = true -> k + Z.of_nat j ∈ ids) ->
  filter (fun x => f x = true) (omap (fun id => l !! Z.to_nat (id - k)) ids) = filter (fun x => f x = true) l.
Proof.
  revert k ids. induction l as [|x l IH]; intros k ids Hs Hb Hin.
  { destruct ids as [|id ids]; [done|]. apply Forall_cons in Hb as [Hb _]. change (zlen []) with 0 in Hb. lia. }
  rewrite zlen_cons in Hb.
  assert (forall rest, StronglySorted Z.lt rest -> Forall (fun id => k < id < k + zlen l + 1) rest ->
    (forall j y, l !! j = Some y -> f y = true -> k + 1 + Z.of_nat j ∈ rest) ->
    filter (fun x => f x = true) (omap (fun id => (x :: l) !! Z.to_nat (id - k)) rest) =
    filter (fun x => f x = true) l) as Hrest.
  { intros rest Hs' Hb' Hin'. rewrite <- (IH (k + 1) rest Hs'); [|eapply Forall_impl; [exact Hb'|]; cbn; intros; lia|done].
    f_equal. clear -Hb'. induction Hb' as [|id rest Hid _ IH']; [done|]. cbn [omap list_omap]. rewrite IH'.
    by replace (Z.to_nat (id - k)) with (Datatypes.S (Z.to_nat (id - (k + 1)))) by lia. }
  destruct ids as [|id ids].
  - rewrite filter_cons. destruct (decide (f x = true)) as [Hx|_].
    + by specialize (Hin 0%nat x eq_refl Hx) as ?%not_elem_of_nil.
    + apply (Hrest []); [constructor|constructor|]. intros j y Hj Hy.
      by specialize (Hin (Datatypes.S j) y Hj Hy) as ?%not_elem_of_nil.
  - apply Forall_cons in Hb as [Hid Hb]. apply StronglySorted_inv in Hs as [Hs Hlt].
    assert (forall j y, (x :: l) !! j = Some y -> f y = true -> k + Z.of_nat j = id \/ k + Z.of_nat j ∈ ids) as Hin'.
    { intros j y Hj Hy. by apply elem_of_cons, (Hin j y). }
    assert (Forall (fun i => id < i < k + zlen l + 1) ids) as Hgt.
    { rewrite Forall_forall in Hb, Hlt |- *. intros i Hi. specialize (Hb i Hi). specialize (Hlt i Hi). lia. }
    destruct (Z.eq_dec id k) as [->|Hne].
    + assert ((x :: l) !! Z.to_nat (k - k) = Some x) as Hx by by rewrite Z.sub_diag.
      rewrite omap_step, Hx.
      rewrite !filter_cons, Hrest; [done|done|done|].
      intros j y Hj Hy. destruct (Hin' (Datatypes.S j) y Hj Hy) as [?|Hi]; [lia|].
      by replace (k + 1 + Z.of_nat j) with (k + Z.of_nat (Datatypes.S j)) by lia.
    + rewrite (filter_cons _ x l), decide_False.
      * apply Hrest; [by constructor|constructor; [lia|]; eapply Forall_impl; [exact Hgt|]; cbn; intros; lia|].
        intros j y Hj Hy. apply elem_of_cons. destruct (Hin' (Datatypes.S j) y Hj Hy) as [?|Hi]; [left; lia|right].
        by replace (k + 1 + Z.of_nat j) with (k + Z.of_nat (Datatypes.S j)) by lia.
      * intros Hx. destruct (Hin' 0%nat x eq_refl Hx) as [?|Hi]; [lia|].
        rewrite Forall_forall in Hgt. specialize (Hgt _ Hi). lia.
Qed.

Section Whole.
Context `{RoaringOps} `{!RoaringLaws _}.
Context (read_seqno : Z) (compiled_ : option CompiledQuery) (track : bool) (R : Z).
Context (load_block : BlockHandle -> list (bytes * bytes) + Status).
Context (parse_key : bytes -> option ParsedInternalKey) (user_key_of : bytes -> bytes).
Context (HR : 0 < R).
Context (types : list IndexType) (rows : list sst_row) (bi : BitmapIndex) (r : SABIReader).
Context (Hrd : reads_index types rows bi r) (Hrc : reads_counts rows bi r).
Local Abbreviation bms := (bitmaps bi ++ [tombstone_bitmap bi]).
Context {S : BinSource} (inv : bin_state -> Prop) `{!BinSourceLaws S bms inv}.
Context (blocks : list (list (bytes * bytes))).
Context (Hrb : reads_blocks load_block r blocks) (Hlen : zlen rows = zlen (concat blocks)).
Context (q : SABIQuery) (Hq : query_ok types q).

Lemma planned_ok conds :
  Forall (cond_ok types) conds ->
  exists sels, planned r conds = Ok sels /\ Forall (sel_ok (zlen bms)) sels.
Proof.
  induction 1 as [|c conds Hc _ IH]; cbn [planned]; [by exists []|].
  destruct (condition_selects types rows bi r Hrd c Hc) as (o & E & Hsel & _). rewrite E.
  cbn [mbind result_bind]. destruct IH as (sels & E' & Hs). rewrite E'. cbn [mbind result_bind].
  eexists. split; [done|]. destruct o as [sel|]; [|done]. constructor; [|done].
  destruct (Hsel sel eq_refl). split; [done|]. rewrite zlen_snoc. lia.
Qed.

Lemma plan_reads_ok b : inv b -> exists b', plan_reads r q b = Ok b' /\ inv b'.
Proof.
  intros Hi. unfold plan_reads. destruct (mode_ r); [by exists b|].
  destruct (planned_ok (concat (s_clause_groups q))) as (sels & E & Hs); [by apply Forall_concat|].
  rewrite E. cbn [mbind result_bind]. destruct (rc_tombstones _ _ _ Hrc) as (k & Ek & _). rewrite Ek.
  cbn [mbind result_bind]. apply bs_plan_ok; [done|]. apply Forall_app. split; [done|].
  destruct (k =? 0); constructor; [|constructor]. unfold sel_ok. cbn.
  rewrite (rc_total _ _ _ Hrc), zlen_snoc. pose proof (zlen_nonneg (bitmaps bi)). lia.
Qed.

(** A fresh iterator, rewound. *)
Definition rewound (it : table_iter) : table_iter :=
  mkTableIter (ti_status it) (ti_reader it) (query_bitmap_ it) (ti_bins it) (target_blocks_ it)
    (-1) (r_toUint32Array (query_bitmap_ it)) (buffer_ it) 0 0 (valid_ it).

(** The candidate ids: sorted, of data rows only, and with every row that
    satisfies the query. *)
Record candidates (ids : list Z) : Prop := {
  cd_sorted : StronglySorted Z.lt ids;
  cd_rows id : id ∈ ids -> 0 <= id < zlen rows /\ exists enc, rows !! Z.to_nat id = Some (Some enc);
  cd_all j enc : rows !! j = Some (Some enc) -> query_sat types enc q = true -> Z.of_nat j ∈ ids;
}.

Lemma array_empty : r_toUint32Array r_empty = [].
Proof.
  destruct (r_toUint32Array r_empty) as [|x l] eqn:E; [done|].
  assert (x ∈ r_toUint32Array r_empty) as Hx by (rewrite E; constructor).
  apply array_contains in Hx. by rewrite contains_empty in Hx.
Qed.

Lemma idle_candidates b :
  (forall j enc, rows !! j = Some (Some enc) -> query_sat types enc q = false) ->
  scan_inv r blocks (rewound (idle OK (Some r) b)) /\ candidates (r_toUint32Array EmptyBitmap).
Proof.
  intros Hno. unfold rewound. cbn [idle query_bitmap_]. unfold EmptyBitmap. rewrite array_empty. split.
  - split; cbn; done || constructor.
  - split; [constructor|by intros id ?%not_elem_of_nil|]. intros j enc Hj Hs. by rewrite (Hno j enc Hj) in Hs.
Qed.

(** The constructor always gives an iterator; one with an OK status is ready
    to scan and has the right candidates. *)
Lemma new_table_iter_ok b :
  inv b -> exists it, new_table_iter (inl r) q b = Ok it /\ ti_reader it = Some r /\
    (ok (ti_status it) = true ->
     scan_inv r blocks (rewound it) /\ candidates (r_toUint32Array (query_bitmap_ it))).
Proof.
  intros Hi. unfold new_table_iter. destruct (unsat q) eqn:Eu.
  { eexists. split; [done|]. split; [done|]. intros _. apply idle_candidates. intros j enc _.
    unfold query_sat. by rewrite Eu. }
  destruct (QueryCanMatch_ok types rows bi r q Hrd) as (can & Ecan & Hcan). rewrite Ecan. cbn [mbind result_bind].
  destruct can; cbn [negb].
  2: { eexists. split; [done|]. split; [done|]. intros _. apply idle_candidates. by apply Hcan. }
  destruct (plan_reads_ok b Hi) as (b1 & E1 & Hi1). rewrite E1. cbn [mbind result_bind].
  destruct (BuildQueryBitmap_ok types rows bi r Hrd inv q (mkBmState OK [] b1) Hrc Hi1 Hq)
    as (v & s & E2 & _ & Hv & Hgood). rewrite E2. cbn [mbind result_bind].
  assert (forall id, id ∈ r_toUint32Array v -> 0 <= id < zlen rows) as Hids.
  { intros id Hid%array_contains. by apply Hv. }
  destruct (target_loop_spec blocks r (r_toUint32Array v) (-1) 0) as (ts & E3 & [Ht1 _ Ht2 Ht3]);
    [apply Hrb|apply Hrb| |by left|].
  { split; [apply array_sorted|]. apply Forall_forall. intros id Hid. rewrite <- Hlen. by apply Hids. }
  change (Z.of_nat 0) with 0 in E3. rewrite E3. cbn [mbind result_bind]. eexists. split; [done|]. split; [done|].
  cbn [ti_status query_bitmap_]. intros Hok. split.
  - split; cbn; try done; [apply array_sorted|]. eapply Forall_impl; [exact Ht3|].
    intros id [[? _]|Hex]; [lia|done].
  - destruct Hgood as [Hcov Hdata]; [by destruct (bm_status s)|]. split; [apply array_sorted| |].
    + intros id Hid. split; [by apply Hids|]. apply Hdata. by apply array_contains.
    + intros j enc Hj Hs. apply array_contains. apply (Hcov j enc Hj). unfold query_sat in Hs.
      by apply andb_true_iff in Hs as [_ Hs].
Qed.

Context (keeps : buf_row -> bool).
Local Abbreviation frows := (file_rows track R user_key_of blocks).
Context (Hkeeps : forall row, row ∈ frows -> keep_row read_seqno compiled_ parse_key row = Ok (keeps row)).
Local Abbreviation kept l := (filter (fun row => keeps row = true) l).

(** Candidates there always are: the data rows. *)
Definition is_data (i : Z) : bool := match rows !! Z.to_nat i with Some (Some _) => true | _ => false end.
Lemma data_candidates : candidates (filter (fun i => is_data i = true) (seqZ 0 (zlen rows))).
Proof.
  split.
  - apply sorted_filter, sorted_seqZ.
  - intros id. rewrite list_elem_of_filter, elem_of_seqZ. unfold is_data. intros [Hd Hid]. split; [lia|].
    destruct (rows !! Z.to_nat id) as [[enc|]|]; try done. by exists enc.
  - intros j enc Hj _. rewrite list_elem_of_filter, elem_of_seqZ. unfold is_data. rewrite Nat2Z.id, Hj.
    split; [done|]. apply lookup_lt_Some in Hj. unfold zlen. lia.
Qed.

(** What a scan gives: the kept rows among candidates. *)
Lemma scan_candidates b fuel :
  inv b -> (length rows < fuel)%nat ->
  exists it ids, new_table_iter (inl r) q b = Ok it /\ candidates ids /\
    ends_with (kept (rows_at frows ids))
      (scan read_seqno compiled_ track R load_block parse_key user_key_of fuel it).
Proof.
  intros Hi Hf. destruct (new_table_iter_ok b Hi) as (it & E & Hrd' & Hok). exists it.
  destruct (ok (ti_status it)) eqn:Est.
  - destruct (Hok eq_refl) as [Hinv Hc]. eexists. split; [done|]. split; [exact Hc|].
    apply (scan_spec _ _ _ _ _ _ _ HR r blocks Hrb keeps Hkeeps); [exact Hinv|].
    eapply Nat.le_lt_trans; [|exact Hf]. apply (sorted_bounded_length _ 0 (length rows)); [apply Hc|].
    apply Forall_forall. intros id Hid. destruct (cd_rows _ Hc id Hid) as [? _]. unfold zlen in *. lia.
  - eexists. split; [done|]. split; [exact data_candidates|]. unfold scan, SeekToFirst. rewrite Est. cbn [negb mbind result_bind].
    exists [], (invalid it). split; [by destruct fuel|]. split; [done|]. split; [apply prefix_nil|].
    cbn. by rewrite Est.
Qed.

(** When every kept row satisfies the query, candidates lose none of them. *)
Lemma kept_candidates ids :
  (forall j row, frows !! j = Some row -> keeps row = true ->
     exists enc, rows !! j = Some (Some enc) /\ query_sat types enc q = true) ->
  candidates ids -> kept (rows_at frows ids) = kept frows.
Proof.
  intros Hsound [Hs Hr Ha]. rewrite <- (filter_rows_at keeps frows 0 ids Hs).
  - f_equal. unfold rows_at. clear. induction ids as [|i ids IH]; [done|]. rewrite !omap_step, IH.
    by rewrite Z.sub_0_r.
  - apply Forall_forall. intros id Hid. destruct (Hr id Hid) as [Hid' _]. rewrite Hlen in Hid'.
    rewrite file_rows_length. lia.
  - intros j row Hj Hk. destruct (Hsound j row Hj Hk) as (enc & Hj' & Hsat). by apply (Ha j enc).
Qed.
Lemma scan_exact b fuel :
  (forall j row, frows !! j = Some row -> keeps row = true ->
     exists enc, rows !! j = Some (Some enc) /\ query_sat types enc q = true) ->
  inv b -> (length rows < fuel)%nat ->
  exists it, new_table_iter (inl r) q b = Ok it /\
    ends_with (kept frows) (scan read_seqno compiled_ track R load_block parse_key user_key_of fuel it).
Proof.
  intros Hsound Hi Hf. destruct (scan_candidates b fuel Hi Hf) as (it & ids & E & Hc & Hend).
  exists it. split; [done|]. by rewrite <- (kept_candidates ids).
Qed.
End Whole.
