(* ===== verification/TableSpec.v ===== *)
(** * A table, from its rows to a scan

    The entries RocksDB wrote to a file's data blocks are the ones it showed
    the index builder. Together with the round trip of the index ([SstIndex])
    and the meaning of queries ([QuerySpec]) this says what a whole
    [SABITableIterator] scan returns. *)
From Stdlib Require Import ZArith Lia Strings.Byte Strings.String Sorting.Sorted.
From stdpp Require Import base numbers strings list sets sorting.
From S2P Require Import Prelude Options Row Okey BytesList Query QuerySpec Externals Intern.
From S2P Require Import RangeBuf Binning Builder Reader Index ReaderSpec BuilderSpec BlobSpec.
From S2P Require Import SstIndex BinSource TableIter QueryBitmap TableScan.

(** ** The file *)
Section File.
Context (parse_key : bytes -> option ParsedInternalKey).

(** The callback for an entry carries its user key, type and value. *)
Definition event_of (ev : table_event) (e : bytes * bytes) : Prop :=
  exists p, parse_key (fst e) = Some p /\ ev = KeyAdded (pk_user_key p) (pk_type p) (snd e).

(** The callbacks of a build, with the blocks it wrote. *)
Inductive wrote : list table_event -> list (list (bytes * bytes)) -> list BlockHandle -> Prop :=
  | wrote_nil : wrote [] [] []
  | wrote_block evs es last_key h rest blocks handles :
      Forall2 event_of evs es -> wrote rest blocks handles ->
      wrote (evs ++ BlockDone last_key h :: rest) (es :: blocks) (h :: handles).

Context (extract : bytes -> bytes -> result (list EncodedAttr)).

(** The row of an entry. *)
Definition entry_row (e : bytes * bytes) (row : sst_row) : Prop :=
  exists p, parse_key (fst e) = Some p /\ added_row extract (pk_user_key p) (pk_type p) (snd e) = Ok row.

Lemma rows_of_block evs es rest rows :
  Forall2 event_of evs es -> rows_of extract (evs ++ rest) = Ok rows ->
  exists front back, rows = front ++ back /\ Forall2 entry_row es front /\ rows_of extract rest = Ok back.
Proof.
  intros Hev. revert rows. induction Hev as [|ev e evs es (p & Hp & ->) _ IH]; intros rows E; cbn [app rows_of] in E.
  { exists [], rows. split_and!; [done|constructor|done]. }
  apply result_bind_ok in E as (row & Er & E). apply result_bind_ok in E as (more & Em & [= <-]).
  destruct (IH more Em) as (front & back & -> & Hf & Hb). exists (row :: front), back. split_and!; try done.
  constructor; [|done]. by exists p.
Qed.

Lemma wrote_rows evs blocks handles rows :
  wrote evs blocks handles -> rows_of extract evs = Ok rows -> Forall2 entry_row (concat blocks) rows.
Proof.
  intros Hw. revert rows. induction Hw as [|evs es last_key h rest blocks handles Hev _ IH]; intros rows E.
  { injection E as <-. constructor. }
  destruct (rows_of_block _ _ _ _ Hev E) as (front & back & -> & Hf & Hb). cbn [concat].
  apply Forall2_app; [done|]. by apply IH.
Qed.

Lemma entries_of_block n evs es rest :
  Forall2 event_of evs es -> entries_of n (evs ++ rest) = entries_of (n + zlen es) rest.
Proof.
  intros Hev. revert n. induction Hev as [|ev e evs es (p & _ & ->) _ IH]; intros n; cbn [app entries_of].
  - by rewrite Z.add_0_r.
  - rewrite IH, zlen_cons. f_equal. lia.
Qed.

Lemma wrote_entries evs blocks handles n :
  wrote evs blocks handles ->
  map snd (entries_of n evs) = handles /\ length handles = length blocks /\
  forall b, (b < length blocks)%nat -> map fst (entries_of n evs) !! b = Some (n + start blocks (S b)).
Proof.
  intros Hw. revert n. induction Hw as [|evs es last_key h rest blocks handles Hev _ IH]; intros n.
  { split_and!; try done. cbn. lia. }
  rewrite (entries_of_block _ _ _ _ Hev). cbn [entries_of map fst snd]. destruct (IH (n + zlen es)) as (IH1 & IH2 & IH3).
  split_and!; [by rewrite IH1|cbn; congruence|]. intros [|b] Hb.
  - cbn. unfold start. cbn. by rewrite app_nil_r.
  - change ((?x :: ?l) !! S b) with (l !! b). rewrite IH3 by (cbn in Hb; lia). f_equal.
    unfold start. change (take (S (S b)) (es :: blocks)) with (es :: take (S b) blocks). cbn [concat].
    rewrite zlen_app. lia.
Qed.

(** Reading a block gives what was written, or fails. *)
Definition loads (load_block : BlockHandle -> list (bytes * bytes) + Status) (h : BlockHandle)
    (es : list (bytes * bytes)) : Prop :=
  load_block h = inl es \/ exists st, load_block h = inr st /\ ok st = false.

Section Opened.
Context `{RoaringOps} `{!RoaringLaws _}.
Context (schema : SABISchema) (evs : list table_event) (rows : list sst_row) (r : SABIReader).
Context (blocks : list (list (bytes * bytes))) (handles : list BlockHandle).
Context (Hw : wrote evs blocks handles) (Hrows : rows_of extract evs = Ok rows).
Context (Hrt : reads_table schema evs rows r).

Lemma opened_psum : psum_ok blocks (data_entries_cnt_psum r).
Proof.
  destruct (rt_blocks _ _ _ _ Hrt) as [E _]. destruct (wrote_entries evs blocks handles 0 Hw) as (Eh & Hl & Hp).
  rewrite E. split; [|exact Hp]. rewrite <- Hl, <- Eh, !length_map. done.
Qed.

Lemma opened_blocks load_block :
  Forall2 (loads load_block) handles blocks -> reads_blocks load_block r blocks.
Proof.
  intros Hld. destruct (rt_blocks _ _ _ _ Hrt) as [_ E].
  destruct (wrote_entries evs blocks handles 0 Hw) as (Eh & Hl & _).
  split; [apply opened_psum|by rewrite E, Eh|]. intros b bh es Hb Hes. rewrite E, Eh in Hb.
  by apply (Forall2_lookup_lr _ _ _ _ _ _ Hld Hb Hes).
Qed.

Lemma opened_length : zlen rows = zlen (concat blocks).
Proof. unfold zlen. f_equal. symmetry. eapply Forall2_length, wrote_rows; eauto. Qed.

Lemma opened_counts bi :
  reads_index (index_types schema) rows bi r -> reads_counts rows bi r.
Proof.
  intros Hri. destruct (rt_metadata _ _ _ _ Hrt) as (bi' & Hix' & Hn & _ & Hcards).
  pose proof (ri_index _ _ _ _ Hri) as Hix.
  assert (TotalBins r = zlen (bitmaps bi')) as Htot by by rewrite (rt_bins _ _ _ _ Hrt), Hn, (io_bitmaps _ _ _ Hix').
  split.
  - by rewrite (rt_bins _ _ _ _ Hrt), (io_bitmaps _ _ _ Hix), (ri_nums _ _ _ _ Hri).
  - exists (rows_in (tombstone_bitmap bi') (zlen rows)). split.
    + unfold TombstoneCardinality, BinCardinality. rewrite Htot. apply zget_nat, Hcards. by apply list_lookup_middle.
    + intros Hz x. apply not_true_iff_false. intros Hx. apply (io_tombstones _ _ _ Hix) in Hx as [Hx0 Hx].
      pose proof (lookup_lt_Some _ _ _ Hx) as Hlt. unfold rows_in in Hz.
      assert (x ∈ filter (fun x => r_contains (tombstone_bitmap bi') x = true) (seqZ 0 (zlen rows))) as Hin.
      { apply list_elem_of_filter. rewrite elem_of_seqZ. split; [|unfold zlen; lia]. by apply (io_tombstones _ _ _ Hix'). }
      destruct (filter _ _) as [|y ys]; [by apply not_elem_of_nil in Hin|]. rewrite zlen_cons in Hz.
      pose proof (zlen_nonneg ys). lia.
  - rewrite opened_length, <- start_all. destruct opened_psum as [Hl Hp]. rewrite last_lookup, Hl.
    destruct (length blocks) as [|n] eqn:En; [by rewrite (nil_length_inv _ Hl)|].
    cbn [Nat.pred]. by rewrite Hp by lia.
  - apply (rt_rows _ _ _ _ Hrt).
Qed.
End Opened.
End File.

(** ** What a scan should return *)
Section Expected.
Context (read_seqno : Z) (parse_key : bytes -> option ParsedInternalKey) (lay : ValueLayout) (q : BitLSMQuery).

(** A value written at or before the snapshot. *)
Definition visible (row : buf_row) : bool :=
  match parse_key (br_key row) with
  | Some p => (pk_sequence p <=? read_seqno) && is_value (pk_type p)
  | None => false
  end.
(** The reference evaluation of the query on the stored value. *)
Definition matches (row : buf_row) : bool :=
  match CheckCondition q (br_value row) lay with Ok b => b | Fault _ => false end.

Lemma file_rows_lookup track R user_key_of blocks j row :
  file_rows track R user_key_of blocks !! j = Some row ->
  concat blocks !! j = Some (br_key row, br_value row).
Proof.
  intros Hj.
  assert (map (fun row => (br_key row, br_value row)) (file_rows track R user_key_of blocks) = concat blocks) as <-.
  { unfold file_rows. rewrite concat_map, map_map. f_equal. rewrite <- (list_fmap_id blocks) at 2.
    apply list_fmap_ext. intros i es _. unfold block_rows. apply list_eq. intros k.
    rewrite list_lookup_fmap, list_lookup_imap. by destruct (es !! k) as [[key v]|] eqn:E; cbn; rewrite E. }
  by rewrite list_lookup_fmap, Hj.
Qed.

(** *** Verification decides as the reference does *)
Context (o : BitLSMOptions) (sq : SABIQuery) (cq : CompiledQuery).
Context (Hok : schema_ok o) (Hfit : schema_fits (attr_specs o)) (Hnum : is_u32 (attr_num o)).
Context (Hlay : mkLayout o = Ok lay) (Hwf : query_wf q) (Hval : Validate q o = OK) (Hqf : query_fits q).
Context (Esq : EncodeQuery q o = Ok sq) (Ecq : CompileQuery q o = Ok cq).
Local Abbreviation types := (index_types (FromOptions o)).

Lemma Eval_reference value : Eval cq value = CheckCondition q value lay.
Proof.
  destruct (compiled_agrees q o Hok Hfit Hnum Hwf Hval Hqf) as (lay' & cq' & E1 & E2 & H).
  rewrite Hlay in E1. rewrite Ecq in E2. injection E1 as <-. injection E2 as <-. apply H.
Qed.

(** A kept row of the table, and what the index knows of it. *)
Lemma verdict row e :
  entry_row parse_key (ExtractAll lay) (br_key row, br_value row) e ->
  keep_row read_seqno (Some cq) parse_key row = Ok (visible row && matches row) /\
  (visible row && matches row = true -> exists enc, e = Some enc /\ query_sat types enc sq = true).
Proof.
  intros (p & Hp & He). cbn [fst snd] in Hp, He. unfold keep_row, visible, matches, added_row in *. rewrite Hp.
  destruct (is_value (pk_type p)) eqn:Ev.
  2: { rewrite andb_false_r. split; [|done]. by destruct (read_seqno <? pk_sequence p). }
  apply result_bind_ok in He as (enc & He & [= <-]).
  destruct (encoded_meaning o lay q (pk_user_key p) (br_value row) enc Hok Hfit Hnum Hlay Hwf Hval He)
    as (sq' & b & Es & Eb & Hsat & _). rewrite Esq in Es. injection Es as <-. rewrite Eb, andb_true_r.
  split.
  - rewrite Z.ltb_antisym. destruct (pk_sequence p <=? read_seqno); [|done]. cbn [negb andb].
    by rewrite Eval_reference.
  - intros [_ Hb]%andb_true_iff. exists enc. auto.
Qed.

Lemma encoded_query_ok : query_ok types sq.
Proof.
  pose proof (EncodeQuery_attrs o q sq (Validate_conds q o Hwf Hval) Esq) as Hin.
  unfold query_ok, cond_ok. replace (zlen types) with (zlen (attr_specs o)); [exact Hin|].
  unfold FromOptions. cbn. unfold zlen. by rewrite length_map.
Qed.
End Expected.

Section ScanTable.
Context `{RoaringOps} `{!RoaringLaws _}.
Context (read_seqno : Z) (track : bool) (R : Z) (HR : 0 < R).
Context (load_block : BlockHandle -> list (bytes * bytes) + Status).
Context (parse_key : bytes -> option ParsedInternalKey) (user_key_of : bytes -> bytes).
Context (o : BitLSMOptions) (lay : ValueLayout) (q : BitLSMQuery) (sq : SABIQuery) (cq : CompiledQuery).
Context (Hok : schema_ok o) (Hfit : schema_fits (attr_specs o)) (Hnum : is_u32 (attr_num o)).
Context (Hlay : mkLayout o = Ok lay) (Hwf : query_wf q) (Hval : Validate q o = OK) (Hqf : query_fits q).
Context (Esq : EncodeQuery q o = Ok sq) (Ecq : CompileQuery q o = Ok cq).
Context (evs : list table_event) (blocks : list (list (bytes * bytes))) (handles : list BlockHandle).
Context (rows : list sst_row) (bi : BitmapIndex) (r : SABIReader).
Context (Hw : wrote parse_key evs blocks handles) (Hrows : rows_of (ExtractAll lay) evs = Ok rows).
Context (Hrt : reads_table (FromOptions o) evs rows r).
Context (Hri : reads_index (index_types (FromOptions o)) rows bi r).
Context (Hld : Forall2 (loads load_block) handles blocks).
Context {S : BinSource} (inv : bin_state -> Prop).
Context `{!BinSourceLaws S (bitmaps bi ++ [tombstone_bitmap bi]) inv}.

Local Abbreviation frows := (file_rows track R user_key_of blocks).
Local Abbreviation keeps := (fun row => visible read_seqno parse_key row && matches lay q row).

Lemma row_verdict j row :
  frows !! j = Some row -> exists e, rows !! j = Some e /\
    keep_row read_seqno (Some cq) parse_key row = Ok (keeps row) /\
    (keeps row = true -> exists enc, e = Some enc /\ query_sat (index_types (FromOptions o)) enc sq = true).
Proof.
  intros Hj%file_rows_lookup.
  pose proof (wrote_rows parse_key (ExtractAll lay) evs blocks handles rows Hw Hrows) as Hall.
  destruct (Forall2_lookup_l _ _ _ _ _ Hall Hj) as (e & He & Hrow). exists e. split; [done|].
  by apply (verdict read_seqno parse_key lay q o sq cq).
Qed.

Lemma scan_table b fuel :
  inv b -> (length rows < fuel)%nat ->
  exists it, new_table_iter (inl r) sq b = Ok it /\
    ends_with (filter (fun row => visible read_seqno parse_key row && matches lay q row = true) frows)
      (scan read_seqno (Some cq) track R load_block parse_key user_key_of fuel it).
Proof.
  intros Hi Hf.
  apply (scan_exact read_seqno (Some cq) track R load_block parse_key user_key_of HR
    (index_types (FromOptions o)) rows bi r Hri) with (inv := inv) (q := sq) (keeps := keeps); try done.
  - by eapply opened_counts.
  - by eapply opened_blocks.
  - by eapply opened_length.
  - by eapply encoded_query_ok.
  - intros row (j & Hj)%list_elem_of_lookup. by destruct (row_verdict j row Hj) as (e & _ & Hk & _).
  - intros j row Hj Hk. destruct (row_verdict j row Hj) as (e & He & _ & Hs). rewrite He.
    destruct (Hs Hk) as (enc & -> & ?). by exists enc.
Qed.
End ScanTable.

(** ** Rows without a newer version *)
Lemma concat_locate {A} (blocks : list (list A)) j x :
  concat blocks !! j = Some x -> exists b es i, blocks !! b = Some es /\ es !! i = Some x /\
    Z.of_nat j = start blocks b + Z.of_nat i.
Proof.
  intros Hj. pose proof (lookup_lt_Some _ _ _ Hj) as Hlt.
  destruct (block_of blocks (Z.of_nat j)) as (b & Hb & Hin); [unfold zlen; lia|].
  destruct (lookup_lt_is_Some_2 blocks b Hb) as [es Hes]. rewrite (start_S _ _ _ Hes) in Hin.
  pose proof (zlen_nonneg (concat (take b blocks))) as H0. fold (start blocks b) in H0.
  exists b, es, (Z.to_nat (Z.of_nat j - start blocks b)). split; [done|]. split; [|lia].
  rewrite <- (concat_lookup blocks b es) by (done || unfold zlen in Hin; lia). rewrite <- Hj. f_equal. lia.
Qed.

Lemma unflagged_newest R user_key_of blocks i j row e :
  0 < R -> StronglySorted ble (map (fun e => user_key_of (fst e)) (concat blocks)) ->
  file_rows true R user_key_of blocks !! j = Some row -> br_shadowed row = false ->
  (i < j)%nat -> concat blocks !! i = Some e -> user_key_of (fst e) <> user_key_of (br_key row).
Proof.
  intros HR Hs Hj Hf Hij Hi. pose proof (file_rows_lookup _ _ _ _ _ _ Hj) as Hcj. unfold file_rows in Hj.
  destruct (concat_locate _ _ _ Hj) as (b & rs & k & Hb & Hk & Ejk). rewrite start_rows in Ejk.
  rewrite list_lookup_fmap in Hb. destruct (blocks !! b) as [es|] eqn:Hes; [|done]. injection Hb as <-.
  unfold block_rows in Hk. rewrite list_lookup_imap in Hk. destruct (es !! k) as [ek|] eqn:Ek; [|done].
  injection Hk as <-. cbn [br_shadowed br_key] in *. unfold shadow_flag in Hf. cbn [andb] in Hf.
  apply orb_false_iff in Hf as [Hm Hf]. destruct k as [|k]; [by rewrite Z.mod_0_l in Hm by lia|].
  replace (S k - 1)%nat with k in Hf by lia. destruct (es !! k) as [ep|] eqn:Ep; [|done].
  assert (concat blocks !! (j - 1)%nat = Some ep) as Hprev.
  { rewrite <- Ep, <- (concat_lookup blocks b es) by (done || by eapply lookup_lt_Some). f_equal.
    pose proof (zlen_nonneg (concat (take b blocks))) as H0. fold (start blocks b) in H0. lia. }
  assert (forall a c x y, (a < c)%nat -> concat blocks !! a = Some x -> concat blocks !! c = Some y ->
    ble (user_key_of (fst x)) (user_key_of (fst y))) as Hle.
  { intros a c x y Hac Hx Hy. eapply (StronglySorted_lookup _ _ a c); [exact Hs|lia|..];
      rewrite list_lookup_fmap; [by rewrite Hx|by rewrite Hy]. }
  assert (blt (user_key_of (fst ep)) (user_key_of (fst ek))) as Hlt.
  { pose proof (Hle (j - 1)%nat j _ _ ltac:(lia) Hprev Hcj) as [?|E]%ble_lteq; [done|].
    cbn [fst] in E. by rewrite <- E, (proj2 (beqb_eq _ _) eq_refl) in Hf. }
  intros E. destruct (Nat.eq_dec i (j - 1)%nat) as [->|Hne].
  - rewrite Hprev in Hi. injection Hi as <-. rewrite E in Hlt. by apply blt_irrefl in Hlt.
  - pose proof (Hle i (j - 1)%nat _ _ ltac:(lia) Hi Hprev) as [Hl|El]%ble_lteq.
    + rewrite E in Hl. apply (blt_irrefl (user_key_of (fst ek))). by eapply blt_trans.
    + rewrite <- El, E in Hlt. by apply blt_irrefl in Hlt.
Qed.

(** ** A table of six rows

    Two blocks, two versions of one key, a NULL, a tombstone, a row newer than
    the snapshot. *)
Module TableDemo.
Definition parse_key (k : bytes) : option ParsedInternalKey :=
  match reverse k with
  | t :: s :: u => Some (mkParsedInternalKey (reverse u) (b2z s)
                     (if Byte.eqb t x00 then kTypeDeletion else kTypeOther 1))
  | _ => None
  end.
Definition user_key_of (k : bytes) : bytes := take (length k - 2) k.
Definition lay : ValueLayout := Eval vm_compute in
  match mkLayout demo_options with Ok l => l | Fault _ => mkValueLayout 0 0 0 0 [] [] [] [] end.
Definition value (attrs : list Attr) : bytes :=
  match EncodeValue lay attrs [x70] [] with Ok v => v | Fault _ => [] end.
Definition blocks : list (list (bytes * bytes)) := Eval vm_compute in
  [[([x61; x09; x01], value [AInt (-5); AString [x61; x62]]);
    ([x61; x03; x01], value [AInt 20; AString [x7a; x7a]]);
    ([x62; x05; x01], value [ANull; AString [x61; x62]])];
   [([x63; x04; x00], []);
    ([x64; x14; x01], value [AInt (-1); AString [x71]]);
    ([x65; x01; x01], value [AInt 0; AString [x78]])]].
Definition handles : list BlockHandle := [mkBlockHandle 0 100; mkBlockHandle 100 90].
Definition load_block (h : BlockHandle) : list (bytes * bytes) + Status :=
  if bh_offset h =? 0 then inl (nth 0 blocks []) else inl (nth 1 blocks []).
Definition event (e : bytes * bytes) : table_event :=
  match parse_key (fst e) with
  | Some p => KeyAdded (pk_user_key p) (pk_type p) (snd e)
  | None => KeyAdded [] kTypeDeletion []
  end.
Definition events : list table_event := Eval vm_compute in
  map event (nth 0 blocks []) ++ [BlockDone [x62] (mkBlockHandle 0 100)] ++
  map event (nth 1 blocks []) ++ [BlockDone [x65] (mkBlockHandle 100 90)].
Definition rows : list sst_row := Eval vm_compute in
  match rows_of (ExtractAll lay) events with Ok l => l | Fault _ => [] end.
Definition sq : SABIQuery := Eval vm_compute in
  match EncodeQuery demo_query demo_options with Ok x => x | Fault _ => mkSABIQuery [] true end.
Definition cq : CompiledQuery := Eval vm_compute in
  match CompileQuery demo_query demo_options with Ok x => x | Fault _ => mkCompiledQuery [] [] 0 0 [] end.

Lemma lay_ok : mkLayout demo_options = Ok lay.
Proof. vm_compute. reflexivity. Qed.
Lemma rows_ok : rows_of (ExtractAll lay) events = Ok rows.
Proof. vm_compute. reflexivity. Qed.
Lemma sq_ok : EncodeQuery demo_query demo_options = Ok sq.
Proof. vm_compute. reflexivity. Qed.
Lemma cq_ok : CompileQuery demo_query demo_options = Ok cq.
Proof. vm_compute. reflexivity. Qed.
Lemma table_fits : build_fits (FromOptions demo_options) rows 4 8.
Proof. split; [by apply rows_fitb_sound|by vm_compute|lia|by vm_compute|by vm_compute]. Qed.
Lemma wrote_ok : wrote parse_key events blocks handles.
Proof.
  change events with (map event (nth 0 blocks []) ++ BlockDone [x62] (mkBlockHandle 0 100) ::
    (map event (nth 1 blocks []) ++ BlockDone [x65] (mkBlockHandle 100 90) :: [])).
  constructor; [|constructor; [|constructor]]; repeat (constructor; [by eexists|]); constructor.
Qed.
Lemma events_ok : events_fit events.
Proof. split; [|done]. repeat constructor; unfold is_u32; cbn; lia. Qed.
Lemma loads_ok : Forall2 (loads load_block) handles blocks.
Proof. repeat constructor. Qed.

Definition room_checked : bool :=
  match drive le_dec (ExtractAll lay) events (new_builder (FromOptions demo_options)) with
  | Ok b => match SetBinningPolicy b with
            | Ok b1 => match CalculateBitmapIndex b1 with
                       | Ok b2 => body_room b2 (entries_of 0 events) <? 2 ^ 32
                       | Fault _ => false
                       end
            | Fault _ => false
            end
  | Fault _ => false
  end.
Lemma table_room_ok : room_checked = true.
Proof. vm_compute. reflexivity. Qed.

(** A resident reader of the table. *)
Lemma demo_reader : exists r, mode_ r = kResident /\ reads_table (FromOptions demo_options) events rows r.
Proof.
  pose proof table_room_ok as Hr. unfold room_checked in Hr.
  destruct (drive le_dec (ExtractAll lay) events (new_builder (FromOptions demo_options))) as [b|] eqn:E0; [|discriminate].
  destruct (SetBinningPolicy b) as [b1|] eqn:E1; [|discriminate].
  destruct (CalculateBitmapIndex b1) as [b2|] eqn:E2; [|discriminate].
  apply Z.ltb_lt in Hr.
  destruct (table_opened le_dec (ExtractAll lay) (FromOptions demo_options) events rows 4 8 b b1 b2
    rows_ok table_fits events_ok E0 E1 E2 Hr) as (b' & blob & _ & Hf & _).
  destruct (Hf (mkSABIFactory [] false) (or_introl eq_refl)) as (r & _ & Hm & Ht). exists r. exact (conj Hm Ht).
Qed.
End TableDemo.

(** (C7) A table scan. Take a table written by RocksDB's table builder with the
    index built beside it, and a reader of that index with any source of bins
    that meets [BinSource]'s contract (resident bitmaps, or on-demand loads that
    may fail). For every query [Validate] accepts, the iterator is constructed,
    and a scan to the end stops and returns, in file order and without
    duplicates, a prefix of the rows that are visible at the snapshot and match
    under the reference evaluation; when the final status is OK, exactly those
    rows. Each carries its flag for a newer version in the file. *)
Theorem table_scan_exact `{RoaringOps} `{!RoaringLaws _} {S : BinSource} inv b bi
    read_seqno track R load_block parse_key user_key_of o lay q sq cq evs blocks handles rows r fuel :
  schema_ok o -> schema_fits (attr_specs o) -> is_u32 (attr_num o) -> mkLayout o = Ok lay ->
  query_wf q -> Validate q o = OK -> query_fits q ->
  EncodeQuery q o = Ok sq -> CompileQuery q o = Ok cq -> 0 < R ->
  wrote parse_key evs blocks handles -> rows_of (ExtractAll lay) evs = Ok rows ->
  reads_table (FromOptions o) evs rows r -> reads_index (index_types (FromOptions o)) rows bi r ->
  BinSourceLaws S (bitmaps bi ++ [tombstone_bitmap bi]) inv -> inv b ->
  Forall2 (loads load_block) handles blocks -> (length rows < fuel)%nat ->
  exists it, new_table_iter (inl r) sq b = Ok it /\
    exists out last, scan read_seqno (Some cq) track R load_block parse_key user_key_of fuel it = Ok (out, last) /\
      valid_ last = false /\
      let expected := filter (fun row => visible read_seqno parse_key row && matches lay q row = true)
                        (file_rows track R user_key_of blocks) in
      out `prefix_of` expected /\ (ok (ti_status last) = true -> out = expected).
Proof. intros. by eapply scan_table. Qed.

Lemma table_scan_exact_witness : exists r it out last,
  @new_table_iter _ resident_source (inl r) TableDemo.sq r = Ok it /\
  @scan _ resident_source 10 (Some TableDemo.cq) true 16 TableDemo.load_block TableDemo.parse_key
    TableDemo.user_key_of 7 it = Ok (out, last) /\
  out `prefix_of` filter (fun row => visible 10 TableDemo.parse_key row && matches TableDemo.lay demo_query row = true)
    (file_rows true 16 TableDemo.user_key_of TableDemo.blocks).
Proof.
  destruct TableDemo.demo_reader as (r & Hm & Hr).
  pose proof (resident_reads_index _ _ _ _ Hr Hm) as Hri.
  assert (TotalBins r = zlen (bitmaps (rd_index r))) as Htot.
  { rewrite (rt_bins _ _ _ _ Hr). symmetry. exact (io_bitmaps _ _ _ (ri_index _ _ _ _ Hri)). }
  destruct (@table_scan_exact _ _ resident_source (fun s => s = r) r (rd_index r) 10 true 16
    TableDemo.load_block TableDemo.parse_key TableDemo.user_key_of demo_options TableDemo.lay demo_query
    TableDemo.sq TableDemo.cq TableDemo.events TableDemo.blocks TableDemo.handles TableDemo.rows r 7
    demo_schema_ok demo_schema_fits demo_attr_num TableDemo.lay_ok demo_query_wf eq_refl demo_query_fits
    TableDemo.sq_ok TableDemo.cq_ok eq_refl TableDemo.wrote_ok TableDemo.rows_ok Hr Hri
    (resident_laws r Htot) eq_refl TableDemo.loads_ok ltac:(cbn; lia)) as (it & E & out & last & Es & _ & Hp & _).
  exists r, it, out, last. exact (conj E (conj Es Hp)).
Defined.

(** The newer-version flag is safe: in a file whose entries are sorted by
    user key, with newer versions first, a row that a scan reports without the
    flag is the newest version of its key in the file, also across block and
    restart boundaries. *)
Theorem unflagged_row_is_newest R user_key_of blocks i j row e :
  0 < R -> StronglySorted ble (map (fun e => user_key_of (fst e)) (concat blocks)) ->
  file_rows true R user_key_of blocks !! j = Some row -> br_shadowed row = false ->
  (i < j)%nat -> concat blocks !! i = Some e -> user_key_of (fst e) <> user_key_of (br_key row).
Proof. apply unflagged_newest. Qed.
Lemma unflagged_row_is_newest_witness : exists row e,
  file_rows true 16 TableDemo.user_key_of TableDemo.blocks !! 2%nat = Some row /\
  concat TableDemo.blocks !! 0%nat = Some e /\
  TableDemo.user_key_of (fst e) <> TableDemo.user_key_of (br_key row).
Proof.
  eexists _, _. split; [reflexivity|]. split; [reflexivity|].
  eapply (unflagged_row_is_newest 16 TableDemo.user_key_of TableDemo.blocks 0 2); try reflexivity; [|lia].
  cbn. repeat constructor; done.
Defined.

Lemma BuildQueryBitmap_covers_witness : exists r v s',
  @BuildQueryBitmap _ resident_source r TableDemo.sq (@mkBmState _ resident_source OK [] r) = Ok (v, s') /\
  row_ids TableDemo.rows v.
Proof.
  destruct TableDemo.demo_reader as (r & Hm & Hr).
  pose proof (resident_reads_index _ _ _ _ Hr Hm) as Hri.
  assert (TotalBins r = zlen (bitmaps (rd_index r))) as Htot.
  { rewrite (rt_bins _ _ _ _ Hr). symmetry. exact (io_bitmaps _ _ _ (ri_index _ _ _ _ Hri)). }
  pose proof (opened_counts _ _ _ _ _ _ _ _ TableDemo.wrote_ok TableDemo.rows_ok Hr _ Hri) as Hrc.
  assert (query_ok (index_types (FromOptions demo_options)) TableDemo.sq) as Hq.
  { repeat constructor; cbn; lia. }
  destruct (@BuildQueryBitmap_covers _ _ resident_source (fun s => s = r) _ _ _ r TableDemo.sq
    (@mkBmState _ resident_source OK [] r) Hri Hrc (resident_laws r Htot) eq_refl Hq) as (v & s' & E & Hv & _).
  exists r, v, s'. exact (conj E Hv).
Defined.
