(* ===== verification/Iterators.v ===== *)
(** * The iterators of a scan: interface, memtable, table and level

    Models the abstract class [SABIInternalIterator] ([bit_lsm_iterator.h]) and
    three of its classes: [BitLSMMemTableIterator]
    ([bit_lsm_memtable_iterator.cpp]), [SABITableIterator] as an instance of the
    interface, and [BitLSMLevelIterator] ([bit_lsm_level_iterator.cpp]), which
    walks the files of one level.

    [streams] is what one iterator promises to the next: from here on it gives
    these rows and then ends with an OK status, or it stops early with a
    non-OK one. *)
From Stdlib Require Import ZArith Lia Strings.Byte Strings.String Sorting.Sorted.
From stdpp Require Import base numbers strings list sets sorting.
From S2P Require Import Prelude Options Query Externals Binning Builder Reader Index.
From S2P Require Import BinSource TableIter TableScan.

(** ** The interface *)

(** What the current position of an iterator shows. *)
Record scan_row := mkScanRow {
  sr_key : bytes;      (** internal key *)
  sr_value : bytes;
  sr_level : Z;        (** [SourceLevel] *)
  sr_file : Z;         (** [SourceFileNumber] *)
  sr_newer : bool;     (** [SourceHasNewerVersion] *)
}.

Class InternalIterator (A : Type) := {
  ii_SeekToFirst : A -> result A;
  ii_Next : A -> result A;
  ii_Valid : A -> bool;
  ii_status : A -> Status;
  ii_row : A -> result scan_row;
}.

(** The rows an iterator gives from its current position on; after a failure
    anything may be missing. *)
Inductive streams `{InternalIterator A} : A -> list scan_row -> Prop :=
  | streams_end c : ii_Valid c = false -> ok (ii_status c) = true -> streams c []
  | streams_failed c rows : ii_Valid c = false -> ok (ii_status c) = false -> streams c rows
  | streams_row c row c' rows :
      ii_Valid c = true -> ii_row c = Ok row -> ii_Next c = Ok c' -> streams c' rows ->
      streams c (row :: rows).
(** And after [SeekToFirst]. *)
Definition seeks `{InternalIterator A} (c : A) (rows : list scan_row) : Prop :=
  exists c', ii_SeekToFirst c = Ok c' /\ streams c' rows.

(** An object behind a base-class pointer: calls go to its own class. *)
Record child := mkChild { ch_type : Type; ch_class : InternalIterator ch_type; ch_state : ch_type }.
Arguments mkChild {_ _} _.
#[export] Instance child_iterator : InternalIterator child := {|
  ii_SeekToFirst c := s ← @ii_SeekToFirst _ (ch_class c) (ch_state c); Ok (@mkChild _ (ch_class c) s);
  ii_Next c := s ← @ii_Next _ (ch_class c) (ch_state c); Ok (@mkChild _ (ch_class c) s);
  ii_Valid c := @ii_Valid _ (ch_class c) (ch_state c);
  ii_status c := @ii_status _ (ch_class c) (ch_state c);
  ii_row c := @ii_row _ (ch_class c) (ch_state c);
|}.

Lemma streams_child `{InternalIterator A} (c : A) rows : streams c rows -> streams (mkChild c) rows.
Proof.
  induction 1 as [c Hv Ho|c rows Hv Ho|c row c' rows Hv Hr Hn Hs IH].
  - by apply streams_end.
  - by apply streams_failed.
  - apply (streams_row _ _ (mkChild c')); [done|done| |done]. cbn. by rewrite Hn.
Qed.
Lemma seeks_child `{InternalIterator A} (c : A) rows : seeks c rows -> seeks (mkChild c) rows.
Proof.
  intros (c' & E & Hs). exists (mkChild c'). split; [cbn; by rewrite E|by apply streams_child].
Qed.

Create HintDb iters.
#[export] Hint Constructors streams : iters.

Section Streams.
Context `{InternalIterator A}.

Lemma streams_none (c : A) rows : streams c rows -> ii_Valid c = false -> ok (ii_status c) = true -> rows = [].
Proof. destruct 1; intros; congruence. Qed.
Lemma streams_valid (c : A) rows : streams c rows -> ii_Valid c = true ->
  exists row c' rest, rows = row :: rest /\ ii_row c = Ok row /\ ii_Next c = Ok c' /\ streams c' rest.
Proof. destruct 1; intros; [congruence|congruence|eauto 10]. Qed.

(** A consumer that drains an iterator. *)
Fixpoint drain_iter (fuel : nat) (c : A) : result (list scan_row * A) :=
  if ii_Valid c then
    match fuel with
    | O => Fault OutOfFuel
    | S f =>
        row ← ii_row c; c' ← ii_Next c; '(rows, last) ← drain_iter f c'; Ok (row :: rows, last)
    end
  else Ok ([], c).

Lemma streams_drain (c : A) rows fuel :
  streams c rows -> (length rows <= fuel)%nat ->
  exists out last, drain_iter fuel c = Ok (out, last) /\ ii_Valid last = false /\
    out `prefix_of` rows /\ (ok (ii_status last) = true -> out = rows).
Proof.
  intros Hs. revert fuel. induction Hs as [c Hv Ho|c rows Hv Ho|c row c' rows Hv Hr Hn Hs IH]; intros fuel Hf.
  - exists [], c. split_and!; try done. by destruct fuel; cbn [drain_iter]; rewrite Hv.
  - exists [], c. split_and!; [by destruct fuel; cbn [drain_iter]; rewrite Hv|done|apply prefix_nil|by rewrite Ho].
  - destruct fuel as [|fuel]; [cbn in Hf; lia|]. cbn [length] in Hf.
    destruct (IH fuel ltac:(lia)) as (out & last & E & Hv' & Hp & Hok). cbn [drain_iter]. rewrite Hv, Hr.
    cbn [mbind result_bind]. rewrite Hn. cbn [mbind result_bind]. rewrite E. cbn [mbind result_bind].
    exists (row :: out), last. split_and!; try done; [by apply prefix_cons|]. intros Ho. by rewrite Hok.
Qed.
End Streams.

(** ** Memtables *)
Section MemTable.
Context (read_seqno : Z) (compiled_ : option CompiledQuery) (parse_key : bytes -> option ParsedInternalKey).

(** RocksDB's iterator over a memtable: its entries in internal key order, and
    the status it has when they are consumed. *)
Record memtable := mkMemtable { mt_entries : list (bytes * bytes); mt_end : Status }.
Record mem_iter := mkMemIter {
  mi_mem : memtable;
  mi_rest : list (bytes * bytes);  (** from [iter_] to its end *)
  mi_valid : bool;
  mi_status : Status;
}.
Definition new_mem_iter (m : memtable) : mem_iter := mkMemIter m [] false OK.

(** The checks of one entry, shared with the table iterator's. *)
Fixpoint find_valid (rest : list (bytes * bytes)) : result (option (list (bytes * bytes))) :=
  match rest with
  | [] => Ok None
  | e :: more =>
      k ← keep_row read_seqno compiled_ parse_key (mkBufRow (fst e) (snd e) false);
      if k : bool then Ok (Some rest) else find_valid more
  end.
Definition FindNextValidEntry (it : mem_iter) : result mem_iter :=
  found ← find_valid (mi_rest it);
  Ok (match found with
      | Some rest => mkMemIter (mi_mem it) rest true (mi_status it)
      | None => mkMemIter (mi_mem it) [] false
                  (if ok (mt_end (mi_mem it)) then mi_status it else mt_end (mi_mem it))
      end).
Definition mem_SeekToFirst (it : mem_iter) : result mem_iter :=
  FindNextValidEntry (mkMemIter (mi_mem it) (mt_entries (mi_mem it)) (mi_valid it) (mi_status it)).
Definition mem_Next (it : mem_iter) : result mem_iter :=
  if negb (mi_valid it) then Fault OutOfBounds else
  FindNextValidEntry (mkMemIter (mi_mem it) (drop 1 (mi_rest it)) (mi_valid it) (mi_status it)).

(** [kMemtableSourceLevel] *)
Definition kMemtableSourceLevel : Z := -1.
Definition mem_row (it : mem_iter) : result scan_row :=
  match mi_rest it with
  | e :: _ => Ok (mkScanRow (fst e) (snd e) kMemtableSourceLevel 0 false)
  | [] => Fault OutOfBounds
  end.

#[local] Instance memtable_iterator : InternalIterator mem_iter := {|
  ii_SeekToFirst := mem_SeekToFirst; ii_Next := mem_Next;
  ii_Valid := mi_valid; ii_status := mi_status; ii_row := mem_row;
|}.
Definition mem_child (m : memtable) : child := mkChild (new_mem_iter m).

(** The rows of a memtable that pass the checks. *)
Context (keeps : bytes * bytes -> bool).
Definition mem_rows (entries : list (bytes * bytes)) : list scan_row :=
  map (fun e => mkScanRow (fst e) (snd e) kMemtableSourceLevel 0 false) (filter (fun e => keeps e = true) entries).
Definition mem_checked (entries : list (bytes * bytes)) : Prop :=
  Forall (fun e => keep_row read_seqno compiled_ parse_key (mkBufRow (fst e) (snd e) false) = Ok (keeps e)) entries.

Lemma find_valid_spec rest :
  mem_checked rest ->
  (find_valid rest = Ok None /\ mem_rows rest = []) \/
  exists e more, find_valid rest = Ok (Some (e :: more)) /\ mem_checked more /\
    mem_rows rest = mkScanRow (fst e) (snd e) kMemtableSourceLevel 0 false :: mem_rows more.
Proof.
  unfold mem_rows. induction 1 as [|e rest He Hrest IH]; cbn [find_valid]; [by left|]. rewrite He.
  cbn [mbind result_bind]. rewrite filter_cons. destruct (keeps e) eqn:Ek.
  - right. exists e, rest. rewrite decide_True by done. done.
  - rewrite decide_False by done. exact IH.
Qed.

Lemma mem_find_streams m rest v st :
  mem_checked rest -> ok st = true ->
  exists it, FindNextValidEntry (mkMemIter m rest v st) = Ok it /\ streams it (mem_rows rest).
Proof.
  revert v. remember (length rest) as n eqn:Hn. revert rest Hn. induction (lt_wf n) as [n _ IH]. intros rest Hn v Hc Hst.
  unfold FindNextValidEntry. cbn [mi_rest mi_mem mi_status].
  assert (forall e more, find_valid rest = Ok (Some (e :: more)) -> (length more < length rest)%nat) as Hlen.
  { clear. induction rest as [|e0 rest IH]; intros e more E; [done|]. cbn [find_valid] in E.
    apply result_bind_ok in E as ([] & _ & E); [injection E as -> ->; cbn; lia|].
    specialize (IH _ _ E). cbn. lia. }
  destruct (find_valid_spec rest Hc) as [[E Hr]|(e & more & E & Hm & Hr)]; rewrite E; cbn [mbind result_bind]; rewrite Hr.
  - eexists. split; [done|]. destruct (ok (mt_end m)) eqn:Eo; [by apply streams_end|by apply streams_failed].
  - eexists. split; [done|]. specialize (Hlen e more E).
    destruct (IH (length more) ltac:(lia) more eq_refl true Hm Hst) as (it' & E' & Hs').
    apply (streams_row _ _ it'); [done|done| |done]. cbn [ii_Next memtable_iterator]. unfold mem_Next.
    cbn [mi_valid negb mi_mem mi_rest mi_status skipn]. by rewrite drop_0, E'.
Qed.

Lemma mem_seeks m : mem_checked (mt_entries m) -> seeks (new_mem_iter m) (mem_rows (mt_entries m)).
Proof.
  intros Hc. destruct (mem_find_streams m (mt_entries m) false OK Hc eq_refl) as (it & E & Hs).
  eexists. split; [|exact Hs]. cbn [ii_SeekToFirst memtable_iterator].
  unfold mem_SeekToFirst, new_mem_iter. cbn [mi_mem mi_valid mi_status]. by rewrite E.
Qed.
Lemma mem_child_seeks m : mem_checked (mt_entries m) -> seeks (mem_child m) (mem_rows (mt_entries m)).
Proof. intros Hc. by apply seeks_child, mem_seeks. Qed.
End MemTable.

(** ** Tables

    A [SABITableIterator] object: the level and number of its file, the file's
    blocks, and the state the table iterator keeps. *)
Section Table.
Context `{RoaringOps} {Src : BinSource}.
Context (read_seqno : Z) (compiled_ : option CompiledQuery) (track : bool) (R : Z).
Context (parse_key : bytes -> option ParsedInternalKey) (user_key_of : bytes -> bytes).

Record sti := mkSti {
  source_level_ : Z;
  file_number_ : Z;
  sti_load : BlockHandle -> list (bytes * bytes) + Status;
  sti_it : table_iter;
}.
Definition with_it (s : sti) (it : table_iter) : sti :=
  mkSti (source_level_ s) (file_number_ s) (sti_load s) it.
Definition table_row (level file : Z) (row : buf_row) : scan_row :=
  mkScanRow (br_key row) (br_value row) level file (br_shadowed row).
#[local] Instance table_iterator : InternalIterator sti := {|
  ii_SeekToFirst s :=
    it ← SeekToFirst read_seqno compiled_ track R (sti_load s) parse_key user_key_of (sti_it s); Ok (with_it s it);
  ii_Next s :=
    it ← Next read_seqno compiled_ track R (sti_load s) parse_key user_key_of (sti_it s); Ok (with_it s it);
  ii_Valid s := valid_ (sti_it s); ii_status s := ti_status (sti_it s);
  ii_row s := row ← current (sti_it s); Ok (table_row (source_level_ s) (file_number_ s) row);
|}.

Context (HR : 0 < R) (level file : Z) (load_block : BlockHandle -> list (bytes * bytes) + Status).
Context (r : SABIReader) (blocks : list (list (bytes * bytes))).
Context (Hrb : reads_blocks load_block r blocks) (keeps : buf_row -> bool).
Context (Hkeeps : forall row, row ∈ file_rows track R user_key_of blocks ->
  keep_row read_seqno compiled_ parse_key row = Ok (keeps row)).
Local Abbreviation obj it := (mkSti level file load_block it).

Lemma table_streams rows it :
  on_row track R user_key_of r blocks keeps it rows -> streams (obj it) (map (table_row level file) rows).
Proof.
  revert it. remember (length rows) as n eqn:Hn. revert rows Hn. induction (lt_wf n) as [n _ IH].
  intros rows Hn it Hon.
  destruct (Next_spec read_seqno compiled_ track R load_block parse_key user_key_of HR r blocks Hrb keeps Hkeeps it rows Hon)
    as (row & rows' & it' & -> & Ec & En & Hcases).
  apply (streams_row _ _ (obj it')); [exact (or_valid _ _ _ _ _ _ _ _ Hon)| | |].
  - cbn [ii_row table_iterator sti_it]. by rewrite Ec.
  - cbn [ii_Next table_iterator sti_it sti_load]. by rewrite En.
  - destruct Hcases as [[Hv Hs]|Hon']; [|by eapply IH; [|reflexivity|]; [cbn in Hn; lia|]].
    destruct (ok (ti_status it')) eqn:Eo; [rewrite (Hs eq_refl); by apply streams_end|by apply streams_failed].
Qed.

(** A rewound iterator gives the kept rows among its bitmap's ids. *)
Lemma table_seeks it :
  scan_inv r blocks (rewound it) ->
  seeks (obj it)
    (map (table_row level file) (filter (fun row => keeps row = true)
       (rows_at (file_rows track R user_key_of blocks) (r_toUint32Array (query_bitmap_ it))))).
Proof.
  intros Hinv. pose proof (si_status _ _ _ Hinv) as Hst. pose proof (si_reader _ _ _ Hinv) as Hr.
  cbn [rewound ti_status ti_reader] in Hst, Hr.
  destruct (LoadNextBlock_spec read_seqno compiled_ track R load_block parse_key user_key_of HR r blocks Hrb keeps Hkeeps
    (load_fuel it) (rewound it) Hinv) as (it' & E & Hl); [unfold load_fuel; cbn; lia|].
  exists (obj it'). split.
  { cbn [ii_SeekToFirst table_iterator sti_it sti_load]. unfold SeekToFirst. rewrite Hst, Hr. cbn [negb]. unfold rewound in E. rewrite Hr in E. by rewrite E. }
  apply loaded_cases in Hl as [[Hv Hs]|Hon].
  - destruct (ok (ti_status it')) eqn:Eo; [|by apply streams_failed]. specialize (Hs eq_refl).
    unfold todo in Hs. cbn [rewound bitmap_iter_] in Hs. rewrite Hs. by apply streams_end.
  - apply (table_streams _ _ Hon).
Qed.
Lemma table_seek_failed it rows : ok (ti_status it) = false -> seeks (obj it) rows.
Proof.
  intros Hst. exists (obj (invalid it)). split; [|by apply streams_failed].
  cbn [ii_SeekToFirst table_iterator sti_it sti_load]. unfold SeekToFirst. by rewrite Hst.
Qed.
End Table.

(** ** Levels *)

(** What a version says of an SSTable. *)
Record FileMetaData := mkFileMetaData {
  fm_number : Z;
  fm_smallest : bytes;  (** internal keys *)
  fm_largest : bytes;
  fm_largest_seqno : Z;
  fm_range_deletions : Z;
}.
#[export] Instance FileMetaData_eq_dec : EqDecision FileMetaData.
Proof. solve_decision. Defined.

Section Level.
(** [FindTable] gives a table reader or a status; [STI] is the class
    [SABITableIterator] and [new_sti] its constructor. *)
Context `{InternalIterator STI} {table : Type} (FindTable : FileMetaData -> table + Status).
Context (new_sti : table -> Z -> Z -> result STI).
Context (level_ : Z) (files_ : list FileMetaData).

Record level_iter := mkLevelIter {
  lv_valid : bool;
  lv_status : Status;
  cur_file_idx_ : nat;
  cur_sti_ : option STI;
}.
Definition new_level_iter : level_iter := mkLevelIter false OK 0 None.

Definition LoadFile (idx : nat) (it : level_iter) : result level_iter :=
  match files_ !! idx with
  | None => Ok (mkLevelIter false (lv_status it) (cur_file_idx_ it) None)
  | Some file_meta =>
      match FindTable file_meta with
      | inr s => Ok (mkLevelIter false s (cur_file_idx_ it) None)
      | inl t =>
          sti ← new_sti t level_ (fm_number file_meta);
          Ok (mkLevelIter false (lv_status it) (cur_file_idx_ it) (Some sti))
      end
  end.

(** Files from [cur_file_idx_] on, until one has a row: the loop of
    [SeekToFirst], and the one of [Next] after its increment. *)
Fixpoint load_files (n : nat) (it : level_iter) : result level_iter :=
  match n with
  | O => Ok it
  | S n' =>
      it1 ← LoadFile (cur_file_idx_ it) it;
      if negb (ok (lv_status it1)) then Ok it1 else
      match cur_sti_ it1 with
      | None => load_files n' (mkLevelIter (lv_valid it1) (lv_status it1) (S (cur_file_idx_ it1)) (cur_sti_ it1))
      | Some sti =>
          sti' ← ii_SeekToFirst sti;
          if ii_Valid sti' then Ok (mkLevelIter true (lv_status it1) (cur_file_idx_ it1) (Some sti'))
          else if negb (ok (ii_status sti')) then
            Ok (mkLevelIter (lv_valid it1) (ii_status sti') (cur_file_idx_ it1) (Some sti'))
          else load_files n' (mkLevelIter (lv_valid it1) (lv_status it1) (S (cur_file_idx_ it1)) (Some sti'))
      end
  end.

Definition level_SeekToFirst (it : level_iter) : result level_iter :=
  if negb (ok (lv_status it)) then Ok (mkLevelIter false (lv_status it) (cur_file_idx_ it) (cur_sti_ it)) else
  load_files (length files_) (mkLevelIter (lv_valid it) (lv_status it) 0 (cur_sti_ it)).

Definition level_Next (it : level_iter) : result level_iter :=
  if negb (lv_valid it) then Fault AssertionFailed else
  match cur_sti_ it with
  | None => Fault OutOfBounds
  | Some sti =>
      sti' ← ii_Next sti;
      if ii_Valid sti' then Ok (mkLevelIter (lv_valid it) (lv_status it) (cur_file_idx_ it) (Some sti'))
      else if negb (ok (ii_status sti')) then
        Ok (mkLevelIter false (ii_status sti') (cur_file_idx_ it) (Some sti'))
      else
        load_files (length files_ - S (cur_file_idx_ it))
          (mkLevelIter false (lv_status it) (S (cur_file_idx_ it)) (Some sti'))
  end.

Definition level_row (it : level_iter) : result scan_row :=
  if negb (lv_valid it) then Fault AssertionFailed else
  match cur_sti_ it with Some sti => ii_row sti | None => Fault OutOfBounds end.

#[local] Instance level_iterator : InternalIterator level_iter := {|
  ii_SeekToFirst := level_SeekToFirst; ii_Next := level_Next;
  ii_Valid := lv_valid; ii_status := lv_status; ii_row := level_row;
|}.
Definition level_child : child := mkChild new_level_iter.

(** What the tables promise: the iterator of a file gives the file's rows, and
    a file that does not open says so. *)
Definition opens (f : FileMetaData) (rows : list scan_row) : Prop :=
  match FindTable f with
  | inl t => exists sti, new_sti t level_ (fm_number f) = Ok sti /\ seeks sti rows
  | inr s => ok s = false
  end.
Context (rows_ : list (list scan_row)) (Hopens : Forall2 opens files_ rows_).

(** Positioned on a row of the current file. *)
Lemma level_sti_streams n it sti rows rest :
  lv_valid it = true -> ok (lv_status it) = true -> cur_sti_ it = Some sti -> ii_Valid sti = true ->
  streams sti rows ->
  (forall sti', exists it',
     load_files n (mkLevelIter false (lv_status it) (S (cur_file_idx_ it)) (Some sti')) = Ok it' /\
     streams it' rest) ->
  n = (length files_ - S (cur_file_idx_ it))%nat ->
  streams it (rows ++ rest).
Proof.
  intros Hv Hst Hcur Hvs Hs Hrest Hn. revert it Hv Hst Hcur Hvs Hrest Hn.
  induction Hs as [c Hv' _|c rows Hv' _|sti row sti' rows Hv' Hr Hnx Hs IH]; intros it Hv Hst Hcur Hvs Hrest Hn;
    [congruence..|].
  assert (ii_row it = Ok row) as Erow by (cbn; unfold level_row; by rewrite Hv, Hcur).
  assert (forall it', level_Next it = Ok it' -> ii_Next it = Ok it') as En by done.
  unfold level_Next in En. rewrite Hv, Hcur, Hnx in En. cbn [negb mbind result_bind] in En. cbn [app].
  destruct (ii_Valid sti') eqn:Ev.
  - eapply streams_row; [exact Hv|exact Erow|by apply En|]. by eapply IH.
  - destruct (ok (ii_status sti')) eqn:Eo; cbn [negb] in En.
    + destruct (Hrest sti') as (it' & E' & Hs'). rewrite Hn in E'.
      eapply streams_row; [exact Hv|exact Erow|by apply En|].
      by rewrite (streams_none _ _ Hs Ev Eo).
    + eapply streams_row; [exact Hv|exact Erow|by apply En|]. by apply streams_failed.
Qed.

Lemma load_files_streams n it :
  lv_valid it = false -> ok (lv_status it) = true -> (n + cur_file_idx_ it)%nat = length files_ ->
  exists it', load_files n it = Ok it' /\
    streams it' (concat (drop (cur_file_idx_ it) rows_)).
Proof.
  revert it. induction n as [|n IH]; intros it Hv Hst Hn; cbn [load_files].
  { exists it. split; [done|]. rewrite drop_ge by (rewrite <- (Forall2_length _ _ _ Hopens); lia). by apply streams_end. }
  destruct (lookup_lt_is_Some_2 files_ (cur_file_idx_ it)) as [f Hf]; [lia|].
  destruct (Forall2_lookup_l _ _ _ _ _ Hopens Hf) as (rows & Hr & Hop). rewrite (drop_S _ _ _ Hr). cbn [concat]. unfold opens in Hop. unfold LoadFile. rewrite Hf.
  destruct (FindTable f) as [t|s].
  2: { cbn [mbind result_bind lv_status]. rewrite Hop. eexists. split; [done|]. by apply streams_failed. }
  destruct Hop as (sti & E & sti' & E' & Hs). rewrite E. cbn [mbind result_bind lv_status cur_sti_]. rewrite Hst.
  cbn [negb]. rewrite E'. cbn [mbind result_bind cur_file_idx_ lv_valid].
  assert (forall c, exists it', load_files n (mkLevelIter false (lv_status it) (S (cur_file_idx_ it)) (Some c)) = Ok it' /\
    streams it' (concat (drop (S (cur_file_idx_ it)) rows_))) as Hmore.
  { intros c. apply IH; cbn; try done. lia. }
  destruct (ii_Valid sti') eqn:Ev.
  - eexists. split; [done|]. eapply level_sti_streams; try done. cbn. lia.
  - destruct (ok (ii_status sti')) eqn:Eo; cbn [negb].
    + destruct (Hmore sti') as (it' & Em & Hm). exists it'. split; [done|].
      by rewrite (streams_none _ _ Hs Ev Eo).
    + eexists. split; [done|]. by apply streams_failed.
Qed.

Lemma level_child_seeks : seeks level_child (concat rows_).
Proof.
  destruct (load_files_streams (length files_) (mkLevelIter false OK 0 None)) as (it & E & Hs);
    [done|done|cbn; lia|].
  apply seeks_child. exists it. split; [|exact Hs]. cbn [ii_SeekToFirst level_iterator].
  unfold level_SeekToFirst, new_level_iter. cbn [lv_status lv_valid cur_sti_ negb ok]. by rewrite E.
Qed.
End Level.

(** (C15) The level iterator concatenates its files. When each file of a level
    opens with an iterator that gives [rows_] (or fails with a non-OK status),
    [SeekToFirst] on a new level iterator returns, and draining it stops after at
    most the rows of all files: what it gave is a prefix of the files' rows in
    file order, empty files passed over, and all of them when the final status
    is OK. A file that fails is never skipped. *)
Theorem level_scan_concatenates `{InternalIterator STI} {table} (FindTable : FileMetaData -> table + Status)
    (new_sti : table -> Z -> Z -> result STI) level files rows fuel :
  Forall2 (opens FindTable new_sti level) files rows -> (length (concat rows) <= fuel)%nat ->
  exists it out last, ii_SeekToFirst (level_child FindTable new_sti level files) = Ok it /\
    drain_iter fuel it = Ok (out, last) /\ ii_Valid last = false /\
    out `prefix_of` concat rows /\ (ok (ii_status last) = true -> out = concat rows).
Proof.
  intros Hopens Hf. destruct (level_child_seeks FindTable new_sti level files rows Hopens) as (it & E & Hs).
  destruct (streams_drain it (concat rows) fuel Hs Hf) as (out & last & Ed & Hv & Hp & Ho). by exists it, out, last.
Qed.

(** Two files of one row with an empty one between them. *)
Module LevelDemo.
Definition entries (f : FileMetaData) : list (bytes * bytes) :=
  if fm_number f =? 5 then [] else [([x61], [x00])].
Definition FindTable (f : FileMetaData) : memtable + Status := inl (mkMemtable (entries f) OK).
Definition parse_key (k : bytes) : option ParsedInternalKey := Some (mkParsedInternalKey k 1 (kTypeOther 1)).
#[local] Instance reader_iterator : InternalIterator mem_iter := memtable_iterator 10 None parse_key.
Definition open_reader (m : memtable) (level file : Z) : result mem_iter := Ok (new_mem_iter m).
Definition files : list FileMetaData := map (fun n => mkFileMetaData n [] [] 0 0) [4; 5; 6].
Definition rows : list (list scan_row) := map (fun f => mem_rows (fun _ => true) (entries f)) files.
Lemma opens_ok : Forall2 (opens FindTable open_reader 1) files rows.
Proof.
  repeat constructor; eexists; (split; [reflexivity|]); apply mem_seeks; repeat constructor.
Qed.
End LevelDemo.
Lemma level_scan_concatenates_witness : exists it out last,
  ii_SeekToFirst (@level_child _ LevelDemo.reader_iterator _ LevelDemo.FindTable LevelDemo.open_reader 1 LevelDemo.files) = Ok it /\
  drain_iter 2 it = Ok (out, last) /\ out `prefix_of` concat LevelDemo.rows.
Proof.
  destruct (@level_scan_concatenates _ LevelDemo.reader_iterator _ LevelDemo.FindTable LevelDemo.open_reader 1 LevelDemo.files LevelDemo.rows 2
    LevelDemo.opens_ok ltac:(vm_compute; lia)) as (it & out & last & E & Ed & _ & Hp & _).
  exists it, out, last. exact (conj E (conj Ed Hp)).
Defined.
