(* ===== verification/Merging.v ===== *)
(** * The merging iterator

    Models [BitLSMMergingIterator] ([bit_lsm_merging_iterator.cpp]): one child
    per memtable, per L0 file and per deeper level, and a priority queue of the
    children that have a row, the smallest internal key on top. The queue holds
    pointers, modelled as positions in [ch_iters_], beside the key the child
    shows, which does not change while it is queued. *)
From Stdlib Require Import ZArith Lia Strings.Byte Strings.String Sorting.Sorted.
From stdpp Require Import base numbers strings list sets sorting.
From S2P Require Import Prelude Options Query Externals Binning Builder Reader Index.
From S2P Require Import BinSource TableIter Iterators.

Section Merging.
(** [InternalKeyComparator::Compare] *)
Context (icmp : bytes -> bytes -> comparison).

Record merging := mkMerging {
  mg_valid : bool;
  mg_status : Status;
  ch_iters_ : list child;
  heap_ : list (bytes * nat);
}.

(** [IteratorComparator]: the queue's top is the smallest key. *)
Definition heap_less (a b : bytes * nat) : bool :=
  match icmp (fst a) (fst b) with Gt => true | _ => false end.

(** *** The constructor *)
Section New.
Context `{InternalIterator STI} {table : Type} (FindTable : FileMetaData -> table + Status).
Context (new_sti : table -> Z -> Z -> result STI).

(** L0 files: the iterators, and the first failure. *)
Fixpoint open_l0 (l0 : list FileMetaData) (st : Status) : result (list child * Status) :=
  match l0 with
  | [] => Ok ([], st)
  | meta :: rest =>
      match FindTable meta with
      | inr s => open_l0 rest (if ok st then s else st)
      | inl t =>
          c ← new_sti t 0 (fm_number meta);
          '(cs, st') ← open_l0 rest st;
          Ok (mkChild c :: cs, st')
      end
  end.
(** Levels 1, 2, ...: one iterator each, empty levels skipped. *)
Fixpoint open_levels (level : Z) (levels : list (list FileMetaData)) : list child :=
  match levels with
  | [] => []
  | files :: rest =>
      match files with
      | [] => open_levels (level + 1) rest
      | _ => level_child FindTable new_sti level files :: open_levels (level + 1) rest
      end
  end.
Definition new_merging (mem_children : list child) (levels : list (list FileMetaData)) : result merging :=
  '(l0, st) ← open_l0 (hd [] levels) OK;
  Ok (mkMerging false st (mem_children ++ l0 ++ open_levels 1 (tl levels)) []).
End New.

(** *** SeekToFirst and Next *)

(** The loop over the children: the children after it, and the queue, or the
    status of the child that failed. *)
Fixpoint seek_children (i : nat) (cs : list child) (heap : list (bytes * nat))
    : result (list child * (list (bytes * nat) + Status)) :=
  match cs with
  | [] => Ok ([], inl heap)
  | c :: rest =>
      c' ← ii_SeekToFirst c;
      if ii_Valid c' then
        row ← ii_row c';
        '(cs', h) ← seek_children (S i) rest (heap ++ [(sr_key row, i)]);
        Ok (c' :: cs', h)
      else if negb (ok (ii_status c')) then Ok (c' :: rest, inr (ii_status c'))
      else
        '(cs', h) ← seek_children (S i) rest heap;
        Ok (c' :: cs', h)
  end.

Definition merging_SeekToFirst (m : merging) : result merging :=
  if negb (ok (mg_status m)) then Ok (mkMerging false (mg_status m) (ch_iters_ m) []) else
  '(cs, h) ← seek_children 0 (ch_iters_ m) [];
  Ok (match h with
      | inl heap => mkMerging (match heap with [] => false | _ => true end) (mg_status m) cs heap
      | inr s => mkMerging false s cs []
      end).

Definition set_child (i : nat) (c : child) (m : merging) : result (list child) :=
  zset (ch_iters_ m) (Z.of_nat i) c.

Definition merging_Next (m : merging) : result merging :=
  match heap_ m with
  | [] => Fault OutOfBounds
  | e :: others =>
      let '((_, i), heap) := pop_max heap_less e others in
      c ← get_or OutOfBounds (ch_iters_ m !! i);
      c' ← ii_Next c;
      cs ← set_child i c' m;
      if ii_Valid c' then
        row ← ii_row c'; Ok (mkMerging true (mg_status m) cs (heap ++ [(sr_key row, i)]))
      else if negb (ok (ii_status c')) then Ok (mkMerging false (ii_status c') cs [])
      else Ok (mkMerging (match heap with [] => false | _ => true end) (mg_status m) cs heap)
  end.

(** [key()], [value()] and the source of the child on top. *)
Definition merging_row (m : merging) : result scan_row :=
  match heap_ m with
  | [] => Fault OutOfBounds
  | e :: others =>
      let '((_, i), _) := pop_max heap_less e others in
      c ← get_or OutOfBounds (ch_iters_ m !! i); ii_row c
  end.

#[local] Instance merging_iterator : InternalIterator merging := {|
  ii_SeekToFirst := merging_SeekToFirst; ii_Next := merging_Next;
  ii_Valid := mg_valid; ii_status := mg_status; ii_row := merging_row;
|}.

(** ** What a merge gives *)
Context (Hicmp : StrictWeak (fun a b : bytes => match icmp a b with Gt => true | _ => false end)).

Definition key_le (a b : scan_row) : Prop := icmp (sr_key a) (sr_key b) <> Gt.

Lemma icmp_le_trans a b c : icmp a b <> Gt -> icmp b c <> Gt -> icmp a c <> Gt.
Proof.
  intros H1 H2. pose proof (sw_incomp a b c) as Hi. cbv beta in Hi.
  destruct (icmp a b), (icmp b c), (icmp a c); try done; by specialize (Hi eq_refl eq_refl).
Qed.
#[local] Instance heap_less_weak : StrictWeak heap_less.
Proof.
  destruct Hicmp as [H1 H2 H3]. split; unfold heap_less; [intros x; apply H1|..].
  - intros x y z. apply H2.
  - intros x y z. apply H3.
Qed.
(** The rows of any list in key order; what a failed merge did not give. *)
Lemma sorted_rows (l : list scan_row) : exists rows, rows ≡ₚ l /\ StronglySorted key_le rows.
Proof.
  set (less := fun a b : scan_row => match icmp (sr_key b) (sr_key a) with Gt => true | _ => false end).
  assert (StrictWeak less) as Hw.
  { destruct Hicmp as [H1 H2 H3]. split; unfold less.
    - intros x. apply H1.
    - intros x y z Hxy Hyz. by eapply H2.
    - intros x y z Hxy Hyz. by eapply H3. }
  exists (std_sort less l). split; [by apply std_sort_perm|].
  pose proof (std_sort_sorted less l Hw) as Hs. induction Hs as [|x l' _ IH Hall]; constructor; [done|].
  eapply Forall_impl; [exact Hall|]. intros y Hy. unfold less in Hy. unfold key_le. by destruct (icmp _ _).
Qed.

(** The queue against what each child still gives. *)
Definition queued (cs : list child) (ls : list (list scan_row)) (e : bytes * nat) : Prop :=
  exists c row rest, cs !! snd e = Some c /\ ls !! snd e = Some (row :: rest) /\ ii_Valid c = true /\
    streams c (row :: rest) /\ sr_key row = fst e.
Record merge_inv (m : merging) (ls : list (list scan_row)) : Prop := {
  mv_status : ok (mg_status m) = true;
  mv_valid : mg_valid m = match heap_ m with [] => false | _ => true end;
  mv_len : length ls = length (ch_iters_ m);
  mv_queued : Forall (queued (ch_iters_ m) ls) (heap_ m);
  mv_nodup : NoDup (map snd (heap_ m));
  mv_done i l : ls !! i = Some l -> i ∉ map snd (heap_ m) -> l = [];
}.

Lemma concat_take_one {A} (ls : list (list A)) i x l :
  ls !! i = Some (x :: l) -> concat ls ≡ₚ x :: concat (<[i := l]> ls).
Proof.
  intros Hi. rewrite <- (take_drop_middle _ _ _ Hi) at 1.
  rewrite (insert_take_drop ls i l) by (by eapply lookup_lt_Some). rewrite !concat_app. cbn [concat].
  rewrite <- app_comm_cons. by rewrite <- Permutation_middle.
Qed.

(** The top of the queue is the smallest key left. *)
Lemma top_smallest m ls e others k i heap row rest :
  merge_inv m ls -> Forall (StronglySorted key_le) ls -> heap_ m = e :: others ->
  pop_max heap_less e others = ((k, i), heap) -> ls !! i = Some (row :: rest) -> sr_key row = k ->
  Forall (key_le row) (concat (<[i := rest]> ls)).
Proof.
  intros Hinv Hs Hh Hp Hi Hk. pose proof (pop_max_top _ _ _ _ _ heap_less_weak Hp) as Htop. rewrite <- Hh in Htop.
  apply Forall_concat, Forall_lookup. intros j l Hl. rewrite Forall_lookup in Hs.
  assert (forall x l', ls !! j = Some (x :: l') -> key_le row x -> Forall (key_le row) (x :: l')) as Hall.
  { intros x l' Hj Hx. specialize (Hs _ _ Hj). apply StronglySorted_inv in Hs as [_ Hall]. constructor; [done|].
    eapply Forall_impl; [exact Hall|]. intros y Hy. by eapply icmp_le_trans. }
  apply list_lookup_insert_Some in Hl as [(-> & -> & _)|[Hne Hl]].
  - assert (key_le row row) as Hrr.
    { unfold key_le. pose proof (sw_irrefl (sr_key row)) as Hirr. cbv beta in Hirr. by destruct (icmp _ _). }
    by apply (Hall _ _ Hi) in Hrr as [_ ?]%Forall_cons.
  - destruct l as [|x l]; [constructor|]. apply Hall; [done|].
    destruct (decide (j ∈ map snd (heap_ m))) as [Hin|Hout]; [|by apply (mv_done _ _ Hinv j) in Hl].
    apply list_elem_of_fmap in Hin as ([k' j'] & -> & Hin). cbn in *.
    pose proof (proj1 (Forall_forall _ _) (mv_queued _ _ Hinv) _ Hin) as (c & x' & l' & _ & Hl' & _ & _ & Hk').
    cbn in *. rewrite Hl in Hl'. injection Hl' as <- <-.
    pose proof (proj1 (Forall_forall _ _) Htop _ Hin) as Hlt. unfold heap_less in Hlt. cbn in Hlt.
    unfold key_le. rewrite Hk, Hk'. by destruct (icmp k k').
Qed.

(** The queue after its top was popped, with the popped child's rows gone. *)
Lemma queued_after m ls e others k i heap c' rest :
  merge_inv m ls -> heap_ m = e :: others -> pop_max heap_less e others = ((k, i), heap) ->
  Forall (queued (<[i := c']> (ch_iters_ m)) (<[i := rest]> ls)) heap /\ NoDup (i :: map snd heap) /\
  forall j l, <[i := rest]> ls !! j = Some l -> j ∉ i :: map snd heap -> l = [].
Proof.
  intros Hinv Hh Hp. pose proof (pop_max_perm _ _ _ _ _ Hp) as Hperm. rewrite <- Hh in Hperm.
  pose proof (mv_nodup _ _ Hinv) as Hnd. rewrite <- Hperm in Hnd. cbn [map snd] in Hnd.
  split_and!; [|done|].
  - pose proof (mv_queued _ _ Hinv) as Hq. rewrite <- Hperm in Hq. apply Forall_cons in Hq as [_ Hq].
    rewrite Forall_forall in Hq |- *. intros [k' j] Hin. destruct (Hq _ Hin) as (c & row & l & Hc & Hl & Hrest).
    assert (j <> i).
    { intros ->. apply NoDup_cons in Hnd as [Hni _]. apply Hni. apply list_elem_of_fmap. by exists (k', i). }
    exists c, row, l. cbn in *. by rewrite !list_lookup_insert_ne.
  - intros j l Hj Hout. apply not_elem_of_cons in Hout as [Hne Hout]. rewrite list_lookup_insert_ne in Hj by done.
    apply (mv_done _ _ Hinv j l Hj). rewrite <- Hperm. cbn. by apply not_elem_of_cons.
Qed.

(** One [Next]: the smallest row left is taken from its child, and the merge
    goes on with what remains, or has failed. *)
Lemma merging_step m ls e others :
  merge_inv m ls -> Forall (StronglySorted key_le) ls -> heap_ m = e :: others ->
  exists i row rest m', ls !! i = Some (row :: rest) /\ merging_row m = Ok row /\ merging_Next m = Ok m' /\
    Forall (key_le row) (concat (<[i := rest]> ls)) /\
    (merge_inv m' (<[i := rest]> ls) \/ mg_valid m' = false /\ ok (mg_status m') = false).
Proof.
  intros Hinv Hs Hh. destruct (pop_max heap_less e others) as [[k i] heap] eqn:Hp.
  pose proof (pop_max_perm _ _ _ _ _ Hp) as Hperm. rewrite <- Hh in Hperm.
  pose proof (mv_queued _ _ Hinv) as Hq. rewrite <- Hperm in Hq.
  apply Forall_cons in Hq as [(c & row & rest & Hc & Hl & Hvc & Hstr & Hk) _]. cbn in Hc, Hl, Hk.
  destruct (streams_valid _ _ Hstr Hvc) as (row' & c' & rest' & [= <- <-] & Hrow & Hnext & Hstr').
  destruct (queued_after m ls e others k i heap c' rest Hinv Hh Hp) as (Hq' & Hnd' & Hdone').
  pose proof (mv_len _ _ Hinv) as Hlen. pose proof (lookup_lt_Some _ _ _ Hc) as Hi.
  exists i, row, rest. unfold merging_Next, merging_row, set_child. rewrite Hh, Hp, Hc. cbn [get_or mbind result_bind].
  rewrite Hnext. cbn [mbind result_bind]. rewrite zset_ok by done. cbn [mbind result_bind].
  assert (forall h, length (<[i := rest]> ls) = length (ch_iters_ (mkMerging h (mg_status m) (<[i := c']> (ch_iters_ m)) heap))) as Hlen'.
  { intros h. cbn. by rewrite !length_insert. }
  destruct (ii_Valid c') eqn:Ev.
  - destruct (streams_valid _ _ Hstr' Ev) as (row2 & c2 & rest2 & -> & Er2 & _ & _). rewrite Er2. cbn [mbind result_bind].
    eexists. split_and!; try done; [by eapply top_smallest|]. left. split; cbn; [apply Hinv|by destruct heap|by rewrite !length_insert| | |].
    + apply Forall_app. split; [done|]. constructor; [|done]. exists c', row2, rest2. cbn.
      rewrite !list_lookup_insert_eq by congruence. done.
    + rewrite map_app. cbn. by rewrite <- Permutation_cons_append.
    + intros j l Hj Hout. apply (Hdone' j l Hj). rewrite map_app in Hout. cbn in Hout. by rewrite Permutation_cons_append.
  - destruct (ok (ii_status c')) eqn:Eo; cbn [negb]; eexists; split_and!; try done; try (by eapply top_smallest);
      [left|by right]. pose proof (streams_none _ _ Hstr' Ev Eo) as ->. apply NoDup_cons in Hnd' as [Hni Hnd'].
    split; cbn; try done; [apply Hinv|by rewrite !length_insert|]. intros j l Hj Hout.
    destruct (decide (j = i)) as [->|Hne]; [|by apply (Hdone' j l Hj), not_elem_of_cons].
    rewrite list_lookup_insert_eq in Hj by congruence. by injection Hj.
Qed.

Lemma merge_streams n m ls :
  length (concat ls) = n -> merge_inv m ls -> Forall (StronglySorted key_le) ls ->
  exists rows, rows ≡ₚ concat ls /\ StronglySorted key_le rows /\ streams m rows.
Proof.
  revert m ls. induction n as [n IH] using lt_wf_ind. intros m ls Hn Hinv Hs. pose proof (mv_valid _ _ Hinv) as Hv.
  destruct (heap_ m) as [|e others] eqn:Hh.
  { exists []. assert (concat ls = []) as ->.
    { apply concat_nil_Forall, Forall_lookup. intros i l Hl. apply (mv_done _ _ Hinv i l Hl). rewrite Hh. apply not_elem_of_nil. }
    split_and!; [done|constructor|]. apply streams_end; [exact Hv|apply Hinv]. }
  destruct (merging_step m ls e others Hinv Hs Hh) as (i & row & rest & m' & Hl & Hrow & Hnext & Hmin & Hcase).
  pose proof (concat_take_one _ _ _ _ Hl) as Hcat.
  assert (exists rows', rows' ≡ₚ concat (<[i := rest]> ls) /\ StronglySorted key_le rows' /\ streams m' rows')
    as (rows' & Hp' & Hs' & Hstr).
  { destruct Hcase as [Hinv'|[Hv' Ho']].
    - eapply IH; [|reflexivity|done|].
      + apply Permutation_length in Hcat. cbn in Hcat. lia.
      + apply Forall_insert; [done|]. rewrite Forall_lookup in Hs. by specialize (Hs _ _ Hl) as [? _]%StronglySorted_inv.
    - destruct (sorted_rows (concat (<[i := rest]> ls))) as (rows' & ? & ?). exists rows'. split_and!; try done.
      by apply streams_failed. }
  exists (row :: rows'). split_and!.
  - by rewrite Hcat, Hp'.
  - constructor; [done|]. by rewrite Hp'.
  - by apply (streams_row _ _ m').
Qed.

(** *** From the start *)
Lemma seek_children_ok cs ls i heap :
  Forall2 seeks cs ls ->
  exists cs' h, seek_children i cs heap = Ok (cs', h) /\
    match h with
    | inr st => ok st = false
    | inl heap' => length cs' = length ls /\ exists new, heap' = heap ++ map (fun e => (fst e, (i + snd e)%nat)) new /\
        Forall (queued cs' ls) new /\ NoDup (map snd new) /\
        forall j l, ls !! j = Some l -> j ∉ map snd new -> l = []
    end.
Proof.
  intros Hall. revert i heap. induction Hall as [|c l cs ls (c' & Ec & Hs) _ IH]; intros i heap; cbn [seek_children].
  { eexists _, _. split; [done|]. split; [done|]. exists []. split_and!; [by rewrite app_nil_r|constructor|constructor|done]. }
  rewrite Ec. cbn [mbind result_bind]. destruct (ii_Valid c') eqn:Ev.
  - destruct (streams_valid _ _ Hs Ev) as (row & c2 & rest & -> & Er & _ & _). rewrite Er. cbn [mbind result_bind].
    destruct (IH (S i) (heap ++ [(sr_key row, i)])) as (cs' & h & E & Hh). rewrite E. cbn [mbind result_bind].
    eexists _, h. split; [done|]. destruct h as [heap'|st]; [|done].
    destruct Hh as (Hlen & new & -> & Hq & Hnd & Hd). split; [cbn; congruence|].
    exists ((sr_key row, 0%nat) :: map (fun e => (fst e, S (snd e))) new). split_and!.
    + rewrite <- app_assoc. cbn. f_equal. f_equal; [f_equal; lia|]. rewrite map_map. apply map_ext. intros e. cbn. f_equal. lia.
    + constructor; [by exists c', row, rest|]. rewrite Forall_map. eapply Forall_impl; [exact Hq|]. by intros e.
    + cbn. rewrite map_map. cbn. constructor.
      * intros (e & ? & _)%list_elem_of_fmap. done.
      * rewrite <- (map_map snd S). by apply (NoDup_fmap_2 S).
    + intros [|j] l' Hj Hout; cbn in Hout; [by apply not_elem_of_cons in Hout as [? _]|]. apply (Hd j l' Hj).
      intros Hin. apply Hout. right. rewrite map_map. cbn. rewrite <- (map_map snd S). by apply list_elem_of_fmap_2.
  - destruct (ok (ii_status c')) eqn:Eo; cbn [negb].
    2: { eexists _, (inr _). split; [done|]. exact Eo. }
    destruct (IH (S i) heap) as (cs' & h & E & Hh). rewrite E. cbn [mbind result_bind].
    eexists _, h. split; [done|]. destruct h as [heap'|st]; [|done].
    destruct Hh as (Hlen & new & -> & Hq & Hnd & Hd). split; [cbn; congruence|].
    exists (map (fun e => (fst e, S (snd e))) new). split_and!.
    + f_equal. rewrite map_map. apply map_ext. intros e. cbn. f_equal. lia.
    + rewrite Forall_map. eapply Forall_impl; [exact Hq|]. by intros e.
    + rewrite map_map. cbn. rewrite <- (map_map snd S). by apply (NoDup_fmap_2 S).
    + intros [|j] l' Hj Hout; [injection Hj as <-; exact (streams_none _ _ Hs Ev Eo)|]. apply (Hd j l' Hj).
      intros Hin. apply Hout. rewrite map_map. cbn. rewrite <- (map_map snd S). by apply list_elem_of_fmap_2.
Qed.

(** The merge of its children. *)
Lemma merging_seeks m ls :
  (ok (mg_status m) = true -> Forall2 seeks (ch_iters_ m) ls) -> Forall (StronglySorted key_le) ls ->
  exists rows, rows ≡ₚ concat ls /\ StronglySorted key_le rows /\ seeks m rows.
Proof.
  intros Hcs Hs. unfold seeks. cbn [ii_SeekToFirst merging_iterator]. unfold merging_SeekToFirst.
  assert (forall m', mg_valid m' = false -> ok (mg_status m') = false ->
    exists rows, rows ≡ₚ concat ls /\ StronglySorted key_le rows /\ exists c', Ok m' = Ok c' /\ streams c' rows) as Hfail.
  { intros m' Hv Ho. destruct (sorted_rows (concat ls)) as (rows & ? & ?). exists rows. split_and!; try done.
    exists m'. split; [done|]. by apply streams_failed. }
  destruct (ok (mg_status m)) eqn:Est; cbn [negb]; [|by apply Hfail].
  destruct (seek_children_ok _ _ 0 [] (Hcs eq_refl)) as (cs' & h & E & Hh). rewrite E. cbn [mbind result_bind].
  destruct h as [heap'|st]; [|by apply Hfail]. destruct Hh as (Hlen & new & -> & Hq & Hnd & Hd).
  assert (map (fun e : bytes * nat => (fst e, (0 + snd e)%nat)) new = new) as ->.
  { rewrite <- (map_id new) at 2. apply map_ext. by intros []. }
  cbn [app]. edestruct (merge_streams _ (mkMerging (match new with [] => false | _ => true end) (mg_status m) cs' new) ls eq_refl)
    as (rows & Hp & Hsr & Hstr); [by split|done|]. exists rows. split_and!; try done. by eexists.
Qed.
End Merging.

(** (C14) The merge. Over children that, sought to the first row, give [ls] in
    key order (or fail with a non-OK status), [SeekToFirst] returns, and draining
    the merge stops after at most all of their rows: what it gave is a prefix of
    a key-sorted permutation of them, and all of it when the final status is OK.
    One failed child, or a file that could not be opened, fails the merge. *)
Theorem merging_is_sorted_merge icmp m ls fuel :
  StrictWeak (fun a b : bytes => match icmp a b with Gt => true | _ => false end) ->
  (ok (mg_status m) = true -> Forall2 seeks (ch_iters_ m) ls) ->
  Forall (StronglySorted (key_le icmp)) ls -> (length (concat ls) <= fuel)%nat ->
  exists rows m' out last, rows ≡ₚ concat ls /\ StronglySorted (key_le icmp) rows /\
    merging_SeekToFirst m = Ok m' /\ @drain_iter _ (merging_iterator icmp) fuel m' = Ok (out, last) /\
    mg_valid last = false /\ out `prefix_of` rows /\ (ok (mg_status last) = true -> out = rows).
Proof.
  intros Hw Hcs Hs Hf. destruct (merging_seeks icmp Hw m ls Hcs Hs) as (rows & Hp & Hsr & m' & E & Hstr).
  destruct (@streams_drain _ (merging_iterator icmp) m' rows fuel Hstr) as (out & last & Ed & Hv & Hpre & Ho);
    [by rewrite Hp|]. by exists rows, m', out, last.
Qed.

(** Two memtables whose keys interleave. *)
Module MergeDemo.
Definition parse_key (k : bytes) : option ParsedInternalKey := Some (mkParsedInternalKey k 1 (kTypeOther 1)).
Definition first : list (bytes * bytes) := [([x61], [x00]); ([x63], [x01])].
Definition second : list (bytes * bytes) := [([x62], [x02]); ([x64], [x03])].
Definition merge : merging :=
  mkMerging false OK (map (fun es => mem_child 10 None parse_key (mkMemtable es OK)) [first; second]) [].
Definition rows : list (list scan_row) := map (mem_rows (fun _ => true)) [first; second].
Lemma order : StrictWeak (fun a b : bytes => match bcompare a b with Gt => true | _ => false end).
Proof.
  destruct (strict_weak_bytes (fun b : bytes => b)) as [H1 H2 H3].
  assert (forall a b, match bcompare a b with Gt => true | _ => false end = bltb b a) as E.
  { intros a b. unfold bltb. rewrite (bcompare_antisym a b). by destruct (bcompare a b). }
  split; intros *; rewrite !E; eauto.
Qed.
Lemma children_ok : Forall2 seeks (ch_iters_ merge) rows.
Proof. repeat constructor; apply mem_child_seeks; repeat constructor. Qed.
End MergeDemo.
Lemma merging_is_sorted_merge_witness : exists rows m' out last,
  rows ≡ₚ concat MergeDemo.rows /\ merging_SeekToFirst MergeDemo.merge = Ok m' /\
  @drain_iter _ (merging_iterator bcompare) 4 m' = Ok (out, last) /\ out `prefix_of` rows.
Proof.
  destruct (merging_is_sorted_merge bcompare MergeDemo.merge MergeDemo.rows 4 MergeDemo.order (fun _ => MergeDemo.children_ok)
    ltac:(repeat constructor; done) ltac:(vm_compute; lia)) as (rows & m' & out & last & Hp & _ & E & Ed & _ & Hpre & _).
  exists rows, m', out, last. exact (conj Hp (conj E (conj Ed Hpre))).
Defined.
