(* ===== verification/Lsm.v ===== *)
(** * The LSM tree a scan runs against

    What RocksDB stores, seen through the documented invariants of its
    versions: memtables, the files of each level, their entries and range
    tombstones. [get] is the reference meaning of a read at a snapshot, which
    the scan's answer is compared with. Values are plain: merge operands and
    blob references are outside the model. *)
From Stdlib Require Import ZArith Lia Strings.Byte Strings.String Sorting.Sorted.
From stdpp Require Import base numbers strings list sets sorting.
From S2P Require Import Prelude Options Query Externals Binning Builder Reader Index.
From S2P Require Import BinSource TableIter Iterators.

(** A range tombstone, cut to the boundaries of the file that holds it. *)
Record rdel := mkRdel { rd_seq : Z; rd_covers : bytes -> bool }.

(** A version of the column family: the memtables (active first), the files
    of levels 0, 1, ..., and what each of them holds. *)
Record lsm := mkLsm {
  l_mems : list memtable;
  l_mem_rdels : list rdel;
  l_levels : list (list FileMetaData);
  l_blocks : FileMetaData -> list (list (bytes * bytes));
  l_rdels : FileMetaData -> list rdel;
}.

(** Where an entry is. *)
Inductive source := Memtables | InFile (level : nat) (f : FileMetaData).
#[export] Instance source_eq_dec : EqDecision source.
Proof. solve_decision. Defined.

Section Lsm.
Context (parse_key : bytes -> option ParsedInternalKey) (user_key_of : bytes -> bytes).
Context (icmp : bytes -> bytes -> comparison) (lookup_ikey : bytes -> Z -> bytes).
Context (read_seqno : Z) (db : lsm).

(** ** Sources *)

Definition is_source (s : source) : Prop :=
  match s with
  | Memtables => True
  | InFile level f => exists files, l_levels db !! level = Some files /\ f ∈ files
  end.
Definition entries_in (s : source) : list (bytes * bytes) :=
  match s with Memtables => concat (map mt_entries (l_mems db)) | InFile _ f => concat (l_blocks db f) end.
Definition rdels_in (s : source) : list rdel :=
  match s with Memtables => l_mem_rdels db | InFile _ f => l_rdels db f end.
(** As [SourceLevel] reports it. *)
Definition level_of (s : source) : Z :=
  match s with Memtables => kMemtableSourceLevel | InFile level _ => Z.of_nat level end.

Definition all_sources : list source :=
  Memtables :: concat (imap (fun level files => map (InFile level) files) (l_levels db)).

Lemma all_sources_spec s : s ∈ all_sources <-> is_source s.
Proof.
  unfold all_sources. rewrite elem_of_cons, list_elem_of_concat. split.
  - intros [->|(fs & Hs & Hin)]; [done|]. apply list_elem_of_lookup in Hin as [i Hi].
    rewrite list_lookup_imap in Hi. destruct (l_levels db !! i) as [files|] eqn:El; [|done]. injection Hi as <-.
    apply list_elem_of_fmap in Hs as (f & -> & Hf). by exists files.
  - destruct s as [|level f]; [by left|]. intros (files & El & Hf). right. exists (map (InFile level) files).
    split; [by apply list_elem_of_fmap_2|]. apply (list_elem_of_lookup_2 _ level).
    by rewrite list_lookup_imap, El.
Qed.

(** ** Reads *)
Definition all_entries : list (bytes * bytes) := concat (map entries_in all_sources).
Definition all_rdels : list rdel := concat (map rdels_in all_sources).

(** [e] is the version of [uk] with sequence number [n], visible or not. *)
Definition version (uk : bytes) (n : Z) (e : bytes * bytes) : Prop :=
  exists p, parse_key (fst e) = Some p /\ pk_user_key p = uk /\ pk_sequence p = n.

(** The versions of a key at the snapshot, and the newest of them. *)
Definition seen (uk : bytes) (e : bytes * bytes) : option (ParsedInternalKey * bytes) :=
  match parse_key (fst e) with
  | Some p => if beqb (pk_user_key p) uk && (pk_sequence p <=? read_seqno) then Some (p, snd e) else None
  | None => None
  end.
Definition newer (a b : option (ParsedInternalKey * bytes)) : option (ParsedInternalKey * bytes) :=
  match a, b with
  | Some x, Some y => if pk_sequence (fst x) <? pk_sequence (fst y) then b else a
  | None, _ => b
  | _, None => a
  end.
Definition newest (uk : bytes) : option (ParsedInternalKey * bytes) :=
  fold_right (fun e acc => newer (seen uk e) acc) None all_entries.
Definition covered (uk : bytes) (n : Z) : bool :=
  existsb (fun d => rd_covers d uk && (rd_seq d <=? read_seqno) && (n <? rd_seq d)) all_rdels.

(** What a read of [uk] at the snapshot returns. *)
Definition get (uk : bytes) : option bytes :=
  match newest uk with
  | Some (p, v) => if is_value (pk_type p) && negb (covered uk (pk_sequence p)) then Some v else None
  | None => None
  end.

(** ** RocksDB's invariants *)

(** No entry carries this sequence number; the largest key of a file does when
    it is the end of a range tombstone, cut where the next file starts. *)
Definition kMaxSequenceNumber : Z := 2 ^ 56 - 1.
Definition tombstone_end (k : bytes) : Prop := exists p, parse_key k = Some p /\ kMaxSequenceNumber <= pk_sequence p.
(** The order of the files of a level below 0: a user key has its versions in
    one file, and two files share a boundary user key only where the largest
    key of the first ends a range tombstone. *)
Definition file_before (f g : FileMetaData) : Prop :=
  blt (user_key_of (fm_largest f)) (user_key_of (fm_smallest g)) \/
  user_key_of (fm_largest f) = user_key_of (fm_smallest g) /\ tombstone_end (fm_largest f).

Record lsm_ok : Prop := {
  (** stored keys are well formed *)
  lo_parse e : e ∈ all_entries -> exists p, parse_key (fst e) = Some p /\ user_key_of (fst e) = pk_user_key p;
  lo_sequence uk n e : e ∈ all_entries -> version uk n e -> 0 <= n < kMaxSequenceNumber;
  (** a sequence number belongs to one write *)
  lo_unique uk n e e' : e ∈ all_entries -> e' ∈ all_entries -> version uk n e -> version uk n e' -> e = e';
  (** the version of a key on a shallower level is newer *)
  lo_levels s s' uk n n' e e' : is_source s -> is_source s' -> level_of s < level_of s' ->
    e ∈ entries_in s -> e' ∈ entries_in s' -> version uk n e -> version uk n' e' -> n' <= n;
  lo_rdel_levels s s' uk n e d : is_source s -> is_source s' -> level_of s < level_of s' ->
    e ∈ entries_in s -> version uk n e -> d ∈ rdels_in s' -> rd_covers d uk = true -> rd_seq d <= n;
  (** the metadata of a file bounds what it holds *)
  lo_seqno level f e uk n : is_source (InFile level f) -> e ∈ concat (l_blocks db f) -> version uk n e ->
    n <= fm_largest_seqno f;
  lo_rdel_seqno level f d : is_source (InFile level f) -> d ∈ l_rdels db f -> rd_seq d <= fm_largest_seqno f;
  lo_range level f e : is_source (InFile level f) -> e ∈ concat (l_blocks db f) ->
    ble (user_key_of (fm_smallest f)) (user_key_of (fst e)) /\ icmp (fm_largest f) (fst e) <> Lt;
  lo_rdel_range level f d uk : is_source (InFile level f) -> d ∈ l_rdels db f -> rd_covers d uk = true ->
    ble (user_key_of (fm_smallest f)) uk /\ blt uk (user_key_of (fm_largest f));
  lo_rdel_count level f : is_source (InFile level f) -> fm_range_deletions f <= 0 -> l_rdels db f = [];
  lo_bounds level f : is_source (InFile level f) ->
    exists p, parse_key (fm_largest f) = Some p /\ user_key_of (fm_largest f) = pk_user_key p;
  (** below level 0 the files of a level follow each other *)
  lo_disjoint level files i j f g : (1 <= level)%nat -> l_levels db !! level = Some files ->
    files !! i = Some f -> files !! j = Some g -> (i < j)%nat -> file_before f g;
  (** file numbers are unique *)
  lo_numbers level level' f g : is_source (InFile level f) -> is_source (InFile level' g) ->
    fm_number f = fm_number g -> f = g /\ level = level';
  (** the entries of a memtable and of a file are in key order *)
  lo_mem_sorted m : m ∈ l_mems db -> StronglySorted (fun a b => icmp (fst a) (fst b) = Lt) (mt_entries m);
  lo_sorted level f : is_source (InFile level f) ->
    StronglySorted (fun a b => icmp (fst a) (fst b) = Lt) (concat (l_blocks db f));
}.

(** [InternalKeyComparator] over the bytewise user order: user keys ascending,
    then sequence numbers descending; a lookup key comes before every version
    it can see. *)
Record icmp_ok : Prop := {
  ic_snapshot : read_seqno < kMaxSequenceNumber;
  ic_user a b pa pb : parse_key a = Some pa -> parse_key b = Some pb -> pk_user_key pa <> pk_user_key pb ->
    icmp a b = bcompare (pk_user_key pa) (pk_user_key pb);
  ic_seq a b pa pb : parse_key a = Some pa -> parse_key b = Some pb -> pk_user_key pa = pk_user_key pb ->
    pk_sequence pa <> pk_sequence pb -> icmp a b = Z.compare (pk_sequence pb) (pk_sequence pa);
  ic_lookup uk : exists p, parse_key (lookup_ikey uk read_seqno) = Some p /\ pk_user_key p = uk /\ pk_sequence p = read_seqno;
  ic_lookup_first k p : parse_key k = Some p -> pk_sequence p <= read_seqno ->
    icmp k (lookup_ikey (pk_user_key p) read_seqno) <> Lt;
}.

(** ** Facts about [get] *)
Context (Hdb : lsm_ok).

Lemma seen_some uk e x : seen uk e = Some x <->
  parse_key (fst e) = Some (fst x) /\ pk_user_key (fst x) = uk /\ pk_sequence (fst x) <= read_seqno /\ snd x = snd e.
Proof.
  unfold seen. destruct (parse_key (fst e)) as [p|]; [|split; [done|intros (? & _); done]].
  destruct (beqb (pk_user_key p) uk && (pk_sequence p <=? read_seqno)) eqn:E.
  - apply andb_true_iff in E as [Eu Es]. apply beqb_eq in Eu. apply Z.leb_le in Es. split.
    + intros [= <-]. done.
    + destruct x as [p' v]. cbn. intros ([= <-] & _ & _ & ->). done.
  - split; [done|]. destruct x as [p' v]. cbn. intros ([= <-] & Hu & Hs & _).
    apply beqb_eq in Hu. apply Z.leb_le in Hs. by rewrite Hu, Hs in E.
Qed.

Lemma newest_max l uk :
  match fold_right (fun e acc => newer (seen uk e) acc) None l with
  | Some x => (exists e, e ∈ l /\ seen uk e = Some x) /\
      forall e y, e ∈ l -> seen uk e = Some y -> pk_sequence (fst y) <= pk_sequence (fst x)
  | None => forall e, e ∈ l -> seen uk e = None
  end.
Proof.
  induction l as [|e l IH]; cbn [fold_right]; [by intros e ?%not_elem_of_nil|].
  destruct (fold_right _ None l) as [y|], (seen uk e) as [x|] eqn:Es; cbn [newer].
  - destruct IH as [(e0 & He0 & Ee0) Hmax]. destruct (Z.ltb_spec (pk_sequence (fst x)) (pk_sequence (fst y))).
    + split; [exists e0; split; [by right|done]|]. intros e' z [->|Hin]%elem_of_cons Ez; [|by eapply Hmax].
      rewrite Es in Ez. injection Ez as <-. lia.
    + split; [exists e; split; [by left|done]|]. intros e' z [->|Hin]%elem_of_cons Ez.
      * rewrite Es in Ez. by injection Ez as <-.
      * specialize (Hmax _ _ Hin Ez). lia.
  - destruct IH as [(e0 & He0 & Ee0) Hmax]. split; [exists e0; split; [by right|done]|].
    intros e' z [->|Hin]%elem_of_cons Ez; [congruence|by eapply Hmax].
  - split; [exists e; split; [by left|done]|]. intros e' z [->|Hin]%elem_of_cons Ez.
    + rewrite Es in Ez. by injection Ez as <-.
    + by rewrite (IH _ Hin) in Ez.
  - by intros e' [->|Hin]%elem_of_cons; [|apply IH].
Qed.

Lemma elem_of_entries e : e ∈ all_entries <-> exists s, is_source s /\ e ∈ entries_in s.
Proof.
  unfold all_entries. rewrite list_elem_of_concat. split.
  - intros (l & He & Hl). apply list_elem_of_fmap in Hl as (s & -> & Hs). exists s. by rewrite <- all_sources_spec.
  - intros (s & Hs & He). exists (entries_in s). split; [done|]. apply list_elem_of_fmap_2. by apply all_sources_spec.
Qed.
Lemma elem_of_rdels d : d ∈ all_rdels <-> exists s, is_source s /\ d ∈ rdels_in s.
Proof.
  unfold all_rdels. rewrite list_elem_of_concat. split.
  - intros (l & He & Hl). apply list_elem_of_fmap in Hl as (s & -> & Hs). exists s. by rewrite <- all_sources_spec.
  - intros (s & Hs & He). exists (rdels_in s). split; [done|]. apply list_elem_of_fmap_2. by apply all_sources_spec.
Qed.

(** A value nothing visible is newer than is what a read returns. *)
Lemma get_newest uk n e p :
  e ∈ all_entries -> parse_key (fst e) = Some p -> pk_user_key p = uk -> pk_sequence p = n -> n <= read_seqno ->
  is_value (pk_type p) = true ->
  (forall e' n', e' ∈ all_entries -> version uk n' e' -> n' <= read_seqno -> n' <= n) ->
  (forall d, d ∈ all_rdels -> rd_covers d uk = true -> rd_seq d <= read_seqno -> rd_seq d <= n) ->
  get uk = Some (snd e).
Proof.
  intros He Hp Hu Hn Hvis Hval Hmax Hcov. unfold get, newest. pose proof (newest_max all_entries uk) as Hnew.
  assert (seen uk e = Some (p, snd e)) as Hse by (apply seen_some; cbn; split_and!; done || lia).
  destruct (fold_right _ None all_entries) as [[p' v]|]; [|by rewrite (Hnew _ He) in Hse].
  destruct Hnew as [(e0 & He0 & Ee0) Hm]. specialize (Hm _ _ He Hse). cbn in Hm.
  apply seen_some in Ee0 as (Hp0 & Hu0 & Hs0 & Hv0). cbn [fst snd] in Hp0, Hu0, Hs0, Hv0.
  assert (version uk (pk_sequence p') e0) as Hver by by exists p'.
  specialize (Hmax _ _ He0 Hver Hs0). assert (pk_sequence p' = n) as En by lia.
  assert (e0 = e) as ->.
  { apply (lo_unique Hdb uk n); try done; [by rewrite <- En|by exists p]. }
  rewrite Hp in Hp0. injection Hp0 as <-. rewrite Hval, Hv0. cbn [andb].
  destruct (covered uk (pk_sequence p)) eqn:Ec; cbn [negb]; [|done]. apply existsb_exists in Ec as (d & Hd & Hc).
  apply list_elem_of_In in Hd. rewrite !andb_true_iff, Z.leb_le, Z.ltb_lt in Hc. destruct Hc as [[H1 H2] H3].
  specialize (Hcov _ Hd H1 H2). lia.
Qed.

(** What a read returns is a stored value, visible, and the newest version. *)
Lemma get_stored uk v :
  get uk = Some v -> exists e p, e ∈ all_entries /\ parse_key (fst e) = Some p /\ pk_user_key p = uk /\
    pk_sequence p <= read_seqno /\ is_value (pk_type p) = true /\ snd e = v /\
    forall e' n', e' ∈ all_entries -> version uk n' e' -> n' <= read_seqno -> n' <= pk_sequence p.
Proof.
  unfold get, newest. pose proof (newest_max all_entries uk) as Hnew.
  destruct (fold_right _ None all_entries) as [[p v']|]; [|done]. destruct Hnew as [(e & He & Ee) Hm].
  destruct (is_value (pk_type p)) eqn:Ev; cbn [andb]; [|done]. destruct (covered _ _); cbn [negb]; [done|].
  intros [= <-]. apply seen_some in Ee as (Hp & Hu & Hs & Hv). cbn in *. exists e, p. split_and!; try done.
  intros e' n' He' (p' & Hp' & Hu' & <-) Hs'.
  apply (Hm e' (p', snd e') He'). apply seen_some. done.
Qed.

(** *** Deletions only the file of the version knows of *)

(** A deleted version: it is the newest one of its key, and the newer range
    tombstones over it are all in the file that holds it. *)
Definition own_file_deleted (uk v : bytes) : Prop :=
  exists level f e p d, is_source (InFile level f) /\ e ∈ concat (l_blocks db f) /\
    parse_key (fst e) = Some p /\ pk_user_key p = uk /\ pk_sequence p <= read_seqno /\ is_value (pk_type p) = true /\ snd e = v /\
    (forall e' n', e' ∈ all_entries -> version uk n' e' -> n' <= read_seqno -> n' <= pk_sequence p) /\
    d ∈ l_rdels db f /\ rd_covers d uk = true /\ pk_sequence p < rd_seq d <= read_seqno /\
    (forall s d', is_source s -> s <> InFile level f -> d' ∈ rdels_in s -> rd_covers d' uk = true -> rd_seq d' <= read_seqno ->
       rd_seq d' <= pk_sequence p).
(** No file holds a version together with a newer visible tombstone over it. *)
Definition no_own_tombstones : Prop := forall level f d e uk n,
  is_source (InFile level f) -> d ∈ l_rdels db f -> e ∈ concat (l_blocks db f) -> version uk n e ->
  rd_covers d uk = true -> rd_seq d <= read_seqno -> rd_seq d <= n.

Lemma own_file_deleted_none uk v : own_file_deleted uk v -> get uk = None.
Proof.
  intros (level & f & e & p & d & Hs & He & Hp & Hu & Hsq & _ & _ & Hmax & Hd & Hc & Hn & _). unfold get, newest.
  pose proof (newest_max all_entries uk) as Hnew. destruct (fold_right _ None all_entries) as [[p' v']|]; [|done].
  destruct Hnew as [(e0 & He0 & Ee0) _]. apply seen_some in Ee0 as (Hp0 & Hu0 & Hs0 & _). cbn [fst] in *.
  assert (pk_sequence p' <= pk_sequence p) as Hle by (apply (Hmax e0); try done; by exists p').
  assert (covered uk (pk_sequence p') = true) as ->; [|by rewrite andb_false_r].
  apply existsb_exists. exists d. split.
  - apply list_elem_of_In, elem_of_rdels. by exists (InFile level f).
  - rewrite Hc. cbn [andb]. apply andb_true_iff. rewrite Z.leb_le, Z.ltb_lt. lia.
Qed.
Lemma own_file_deleted_never uk v : no_own_tombstones -> ~ own_file_deleted uk v.
Proof.
  intros Hno (level & f & e & p & d & Hs & He & Hp & Hu & _ & _ & _ & _ & Hd & Hc & Hn & _).
  assert (rd_seq d <= pk_sequence p); [|lia]. apply (Hno level f d e uk); try done; [by exists p|lia].
Qed.
Lemma own_file_deleted_stored uk v :
  own_file_deleted uk v -> exists e p, e ∈ all_entries /\ parse_key (fst e) = Some p /\ is_value (pk_type p) = true /\ snd e = v.
Proof.
  intros (level & f & e & p & d & Hs & He & Hp & _ & _ & Hty & Hv & _). exists e, p. split_and!; try done.
  apply elem_of_entries. by exists (InFile level f).
Qed.
(** A value of a file with nothing newer elsewhere. *)
Lemma newest_in_file level f uk e p :
  is_source (InFile level f) -> e ∈ concat (l_blocks db f) -> parse_key (fst e) = Some p -> pk_user_key p = uk ->
  pk_sequence p <= read_seqno -> is_value (pk_type p) = true ->
  (forall e' n', e' ∈ all_entries -> version uk n' e' -> n' <= read_seqno -> n' <= pk_sequence p) ->
  (forall s d', is_source s -> s <> InFile level f -> d' ∈ rdels_in s -> rd_covers d' uk = true -> rd_seq d' <= read_seqno ->
     rd_seq d' <= pk_sequence p) ->
  get uk = Some (snd e) \/ own_file_deleted uk (snd e).
Proof.
  intros Hs He Hp Hu Hsq Hty Hmax Hrd.
  destruct (decide (Exists (fun d => rd_covers d uk = true /\ rd_seq d <= read_seqno /\ pk_sequence p < rd_seq d) (l_rdels db f)))
    as [(d & Hd & Hc & Hv & Hn)%Exists_exists|Hnone].
  - right. exists level, f, e, p, d. split_and!; done || lia.
  - left. apply (get_newest uk (pk_sequence p) e p); try done; [apply elem_of_entries; by exists (InFile level f)|].
    intros d (s & Hs' & Hd)%elem_of_rdels Hc Hv. destruct (decide (s = InFile level f)) as [->|Hne]; [|by eapply Hrd].
    apply Z.le_ngt. intros Hlt. apply Hnone, Exists_exists. by exists d.
Qed.

(** ** Where the versions of a key are *)
Context (Hic : icmp_ok).

Lemma version_key e uk n :
  e ∈ all_entries -> version uk n e -> user_key_of (fst e) = uk.
Proof.
  intros He (p & Hp & Hu & _). destruct (lo_parse Hdb e He) as (p' & Hp' & Hk). congruence.
Qed.
Lemma in_file_stored level f e :
  is_source (InFile level f) -> e ∈ concat (l_blocks db f) -> e ∈ all_entries.
Proof. intros Hs He. apply elem_of_entries. by exists (InFile level f). Qed.

(** The user key bounds of a file with a version of the key. *)
Lemma version_in_range level f e uk n :
  is_source (InFile level f) -> e ∈ concat (l_blocks db f) -> version uk n e ->
  ble (user_key_of (fm_smallest f)) uk /\ ble uk (user_key_of (fm_largest f)).
Proof.
  intros Hs He Hv. destruct (lo_range Hdb level f e Hs He) as [Hlo Hhi].
  rewrite (version_key e uk n) in Hlo by (done || by eapply in_file_stored). split; [done|].
  destruct (lo_bounds Hdb level f Hs) as (p & Hp & Ek). rewrite Ek. destruct Hv as (pe & Hpe & <- & _).
  destruct (decide (pk_user_key p = pk_user_key pe)) as [->|Hne]; [reflexivity|].
  rewrite (ic_user Hic _ _ _ _ Hp Hpe Hne) in Hhi. unfold ble. rewrite (bcompare_antisym (pk_user_key p)).
  by destruct (bcompare _ _).
Qed.
(** A file that precedes another one holds versions of smaller keys only. *)
Lemma version_before level f g e uk n :
  is_source (InFile level f) -> file_before f g -> e ∈ concat (l_blocks db f) -> version uk n e ->
  blt uk (user_key_of (fm_smallest g)).
Proof.
  intros Hs Hb He Hv. destruct (version_in_range level f e uk n Hs He Hv) as [_ Hle].
  destruct Hb as [Hlt|[<- (p & Hp & Hmax)]]; [border|]. apply ble_lteq in Hle as [?|Heq]; [done|]. exfalso.
  destruct (lo_range Hdb level f e Hs He) as [_ Hhi]. destruct (lo_bounds Hdb level f Hs) as (p' & Hp' & Ek).
  pose proof (lo_sequence Hdb uk n e (in_file_stored level f e Hs He) Hv) as Hn. destruct Hv as (pe & Hpe & Hu & Hsn).
  assert (p' = p) as -> by congruence. rewrite (ic_seq Hic _ _ _ _ Hp Hpe) in Hhi by (congruence || lia).
  rewrite Z.compare_lt_iff in Hhi. lia.
Qed.
(** Its largest key sorts before a lookup of any key from the other one on. *)
Lemma largest_before level f g uk :
  is_source (InFile level f) -> file_before f g -> ble (user_key_of (fm_smallest g)) uk ->
  icmp (fm_largest f) (lookup_ikey uk read_seqno) = Lt.
Proof.
  intros Hs Hb Hle. destruct (lo_bounds Hdb level f Hs) as (p & Hp & Ek). destruct (ic_lookup Hic uk) as (q & Hq & Hqu & Hqs).
  unfold file_before in Hb. rewrite Ek in Hb. destruct (decide (pk_user_key p = uk)) as [Eu|Hne].
  - destruct Hb as [Hlt|[_ (p' & Hp' & Hmax)]]; [exfalso; rewrite Eu in Hlt; border|]. assert (p' = p) as -> by congruence.
    pose proof (ic_snapshot Hic). rewrite (ic_seq Hic _ _ _ _ Hp Hq) by (congruence || lia). apply Z.compare_lt_iff. lia.
  - rewrite (ic_user Hic _ _ _ _ Hp Hq) by congruence. rewrite Hqu. destruct Hb as [Hlt|[E _]]; [change (blt (pk_user_key p) uk); border|].
    rewrite <- E in Hle. by apply ble_lteq in Hle as [?|?].
Qed.
End Lsm.
