(* ===== verification/Shadow.v ===== *)
(** * The shadow check

    Models [ShadowChecker] ([bit_lsm_shadow_check.h], [.cpp]): whether a newer
    version of a candidate may exist outside the candidate's own file, from
    memtable probes and per-file range, sequence number and bloom filter
    checks. The answer "no" is proved to mean no, under RocksDB's invariants
    and documented laws. *)
From Stdlib Require Import ZArith Lia Strings.Byte Strings.String Sorting.Sorted.
From stdpp Require Import base numbers strings list sets sorting gmap.
From S2P Require Import Prelude Options Query Externals Binning Builder Reader Index.
From S2P Require Import BinSource TableIter Iterators Lsm.

(** What the top-level iterator asks of a checker. *)
Class ShadowCheck := {
  checker : Type;
  may_have_newer : bytes -> Z -> Z -> Z -> checker -> bool * checker;
}.
(** A "no" is a proof; [unshadowed] is what it proves of a row. *)
Class ShadowCheckLaws (C : ShadowCheck) (inv : checker -> Prop) (unshadowed : bytes -> Z -> Z -> Z -> Prop) : Prop := {
  check_sound uk n level file c b c' : inv c -> may_have_newer uk n level file c = (b, c') ->
    inv c' /\ (b = false -> unshadowed uk n level file);
}.

Section ShadowChecker.
(** The table cache, and what a table reader knows of its filter:
    [rep->filter]'s [KeyMayMatch] and [rep->whole_key_filtering]. *)
Context {table : Type} (FindTable : FileMetaData -> table + Status).
Context (filter_of : table -> option (bytes -> bytes -> bool)) (whole_key_filtering : table -> bool).
(** [MemTable::Get] and [MemTableListVersion::Get] at a lookup key: whether
    there was a hit, [max_covering_tombstone_seq] and [seq]. *)
Record mem_answer := mkMemAnswer { ma_found : bool; ma_mcts : Z; ma_seq : Z }.
Context (mem_Get imm_Get : bytes -> mem_answer).
Context (lookup_ikey : bytes -> Z -> bytes) (user_key_of : bytes -> bytes).
Context (FindFile : list FileMetaData -> bytes -> nat) (ucmp : bytes -> bytes -> comparison).
Context (levels : list (list FileMetaData)) (read_seqno_ : Z).

(** File number to pinned table handle. *)
Local Abbreviation handle_map := (gmap Z table).
Definition kMaxPinnedHandles : nat := 64.
Definition ReleaseHandles (handles_ : handle_map) : handle_map := ∅.

Definition MemtablesHaveNewer (lk : bytes) (cand_seqno : Z) : bool :=
  let a := mem_Get lk in
  if cand_seqno <? ma_mcts a then true else
  if ma_found a && (cand_seqno <? ma_seq a) then true else
  let b := imm_Get lk in
  if cand_seqno <? ma_mcts b then true else
  ma_found b && (cand_seqno <? ma_seq b).

(** The cached handle of a file, opened first when it is not cached. *)
Definition pinned (f : FileMetaData) (handles_ : handle_map) : option table * handle_map :=
  match handles_ !! fm_number f with
  | Some h => (Some h, handles_)
  | None =>
      let handles_ := if (kMaxPinnedHandles <=? size handles_)%nat then ReleaseHandles handles_ else handles_ in
      match FindTable f with
      | inr _ => (None, handles_)
      | inl h => (Some h, <[fm_number f := h]> handles_)
      end
  end.

Definition FilterSaysNo (f : FileMetaData) (user_key internal_key : bytes) (handles_ : handle_map)
    : bool * handle_map :=
  match pinned f handles_ with
  | (None, handles_) => (false, handles_)
  | (Some h, handles_) =>
      (match filter_of h with
       | None => false
       | Some KeyMayMatch => if negb (whole_key_filtering h) then false else negb (KeyMayMatch user_key internal_key)
       end, handles_)
  end.

(** The checks both loops end with: a range deletion counts as a version. *)
Definition probe_file (f : FileMetaData) (user_key ikey : bytes) (handles_ : handle_map) : bool * handle_map :=
  if 0 <? fm_range_deletions f then (true, handles_) else
  let '(no, handles_) := FilterSaysNo f user_key ikey handles_ in (negb no, handles_).

(** The loop over L0. *)
Fixpoint probe_l0 (l0 : list FileMetaData) (user_key ikey : bytes) (cand_seqno src_file_no : Z) (handles_ : handle_map)
    : bool * handle_map :=
  match l0 with
  | [] => (false, handles_)
  | f :: rest =>
      if fm_largest_seqno f <=? cand_seqno then probe_l0 rest user_key ikey cand_seqno src_file_no handles_ else
      if fm_number f =? src_file_no then probe_l0 rest user_key ikey cand_seqno src_file_no handles_ else
      if match ucmp user_key (user_key_of (fm_smallest f)) with Lt => true | _ => false end ||
         match ucmp user_key (user_key_of (fm_largest f)) with Gt => true | _ => false end
      then probe_l0 rest user_key ikey cand_seqno src_file_no handles_ else
      let '(hit, handles_) := probe_file f user_key ikey handles_ in
      if hit : bool then (true, handles_)
      else probe_l0 rest user_key ikey cand_seqno src_file_no handles_
  end.

(** The loop over levels [level], [level + 1], ... up to [src_level]. *)
Fixpoint probe_levels (level src_level : Z) (ls : list (list FileMetaData)) (user_key ikey : bytes)
    (cand_seqno src_file_no : Z) (handles_ : handle_map) : bool * handle_map :=
  match ls with
  | [] => (false, handles_)
  | brief :: rest =>
      let continue h := probe_levels (level + 1) src_level rest user_key ikey cand_seqno src_file_no h in
      if src_level <? level then (false, handles_) else
      if (length brief =? 0)%nat then continue handles_ else
      match brief !! FindFile brief ikey with
      | None => continue handles_
      | Some f =>
          if match ucmp user_key (user_key_of (fm_smallest f)) with Lt => true | _ => false end
          then continue handles_ else
          if fm_largest_seqno f <=? cand_seqno then continue handles_ else
          if fm_number f =? src_file_no then continue handles_ else
          let '(hit, handles_) := probe_file f user_key ikey handles_ in
          if hit : bool then (true, handles_) else continue handles_
      end
  end.

Definition MayHaveNewerVersion (user_key : bytes) (cand_seqno src_level src_file_no : Z) (handles_ : handle_map)
    : bool * handle_map :=
  let ikey := lookup_ikey user_key read_seqno_ in
  if MemtablesHaveNewer ikey cand_seqno then (true, handles_) else
  if src_level =? kMemtableSourceLevel then (false, handles_) else
  let '(hit, handles_) := probe_l0 (hd [] levels) user_key ikey cand_seqno src_file_no handles_ in
  if hit : bool then (true, handles_) else
  probe_levels 1 src_level (tl levels) user_key ikey cand_seqno src_file_no handles_.

#[local] Instance shadow_checker : ShadowCheck := {|
  checker := handle_map; may_have_newer := MayHaveNewerVersion;
|}.

(** ** Pinned handles *)
Local Abbreviation few h := (size h <= kMaxPinnedHandles)%nat.
Lemma pinned_few f h : few h -> few (snd (pinned f h)).
Proof.
  intros Hh. unfold pinned. destruct (h !! fm_number f) eqn:E; [done|].
  set (h0 := if (kMaxPinnedHandles <=? size h)%nat then _ else _).
  assert (h0 !! fm_number f = None /\ (size h0 < kMaxPinnedHandles)%nat) as [Hn Hlt].
  { unfold h0. destruct (Nat.leb_spec kMaxPinnedHandles (size h)); [|done].
    unfold ReleaseHandles. rewrite map_size_empty. unfold kMaxPinnedHandles. split; [apply lookup_empty|lia]. }
  destruct (FindTable f); cbn [snd]; [|lia]. rewrite map_size_insert_None by done. lia.
Qed.
Lemma probe_file_few f uk ik h : few h -> few (snd (probe_file f uk ik h)).
Proof.
  intros Hh. unfold probe_file, FilterSaysNo. destruct (0 <? _); [done|]. pose proof (pinned_few f h Hh) as Hp.
  by destruct (pinned f h) as [[t|] h'].
Qed.
Lemma probe_l0_few l0 uk ik n src h : few h -> few (snd (probe_l0 l0 uk ik n src h)).
Proof.
  revert h. induction l0 as [|f l0 IH]; intros h Hh; cbn [probe_l0]; [done|].
  destruct (_ <=? _); [by apply IH|]. destruct (_ =? _); [by apply IH|]. destruct (_ || _); [by apply IH|].
  pose proof (probe_file_few f uk ik h Hh). destruct (probe_file f uk ik h) as [[] h']; [done|by apply IH].
Qed.
Lemma probe_levels_few ls level src_level uk ik n src h : few h -> few (snd (probe_levels level src_level ls uk ik n src h)).
Proof.
  revert level h. induction ls as [|brief ls IH]; intros level h Hh; cbn [probe_levels]; [done|].
  destruct (_ <? _); [done|]. destruct (_ =? _)%nat; [by apply IH|]. destruct (brief !! _) as [f|]; [|by apply IH].
  pose proof (probe_file_few f uk ik h Hh).
  destruct (ucmp _ _); try (by apply IH); (destruct (_ <=? _); [by apply IH|]; destruct (_ =? _); [by apply IH|];
    destruct (probe_file f uk ik h) as [[] h']; [done|by apply IH]).
Qed.
Lemma check_few uk n level file h : few h -> few (snd (MayHaveNewerVersion uk n level file h)).
Proof.
  intros Hh. unfold MayHaveNewerVersion. destruct (MemtablesHaveNewer _ _); [done|]. destruct (_ =? _); [done|].
  pose proof (probe_l0_few (hd [] levels) uk (lookup_ikey uk read_seqno_) n file h Hh).
  destruct (probe_l0 _ _ _ _ _ _) as [[] h']; [done|by apply probe_levels_few].
Qed.

(** ** Laws of RocksDB the check relies on *)
Context (parse_key : bytes -> option ParsedInternalKey) (icmp : bytes -> bytes -> comparison) (db : lsm).

(** An answer that shows a version with sequence number [n]. *)
Definition shows (a : mem_answer) (n : Z) : Prop := ma_found a = true /\ n <= ma_seq a \/ n <= ma_mcts a.

Record lookup_laws : Prop := {
  (** memtable reads show the newest visible version, or a newer covering
      range tombstone *)
  lk_mem uk n e : e ∈ entries_in db Memtables -> version parse_key uk n e -> n <= read_seqno_ ->
    shows (mem_Get (lookup_ikey uk read_seqno_)) n \/ shows (imm_Get (lookup_ikey uk read_seqno_)) n;
  lk_mem_rdel uk d : d ∈ rdels_in db Memtables -> rd_covers d uk = true -> rd_seq d <= read_seqno_ ->
    shows (mem_Get (lookup_ikey uk read_seqno_)) (rd_seq d) \/ shows (imm_Get (lookup_ikey uk read_seqno_)) (rd_seq d);
  (** [FindFile]: the first file whose largest key is not below the key *)
  lk_before files i f k : files !! i = Some f -> (i < FindFile files k)%nat -> icmp (fm_largest f) k = Lt;
  lk_at files f k : files !! FindFile files k = Some f -> icmp (fm_largest f) k <> Lt;
  lk_bound files k : (FindFile files k <= length files)%nat;
  (** filters have no false negatives *)
  lk_filter level f t may uk n e ik : is_source db (InFile level f) -> FindTable f = inl t ->
    filter_of t = Some may -> whole_key_filtering t = true -> e ∈ concat (l_blocks db f) ->
    version parse_key uk n e -> may uk ik = true;
}.

Context (Hdb : lsm_ok parse_key user_key_of icmp db) (Hic : icmp_ok parse_key icmp lookup_ikey read_seqno_).
Context (Hlk : lookup_laws) (Hlevels : levels = l_levels db) (Hucmp : ucmp = bcompare).

(** The handles are tables of the version. *)
Definition handles_ok (h : handle_map) : Prop :=
  forall n t, h !! n = Some t -> exists level f, is_source db (InFile level f) /\ fm_number f = n /\ FindTable f = inl t.

Lemma handles_empty : handles_ok ∅.
Proof. intros n t Hn. by rewrite lookup_empty in Hn. Qed.

Lemma pinned_ok level f h o h' :
  is_source db (InFile level f) -> handles_ok h -> pinned f h = (o, h') ->
  handles_ok h' /\ forall t, o = Some t -> FindTable f = inl t.
Proof.
  intros Hs Hh. unfold pinned. destruct (h !! fm_number f) as [t|] eqn:E.
  { intros [= <- <-]. split; [done|]. intros t' [= <-]. destruct (Hh _ _ E) as (lv & g & Hg & Hn & Et).
    by destruct (lo_numbers _ _ _ _ Hdb _ _ _ _ Hg Hs Hn) as [-> _]. }
  set (h0 := if (kMaxPinnedHandles <=? size h)%nat then _ else _).
  assert (handles_ok h0) as Hh0 by (unfold h0; destruct (_ <=? _)%nat; [apply handles_empty|done]).
  destruct (FindTable f) as [t|st] eqn:Ef; intros [= <- <-]; [|done]. split; [|congruence].
  intros n t' [[<- <-]|[_ Hl]]%lookup_insert_Some; [by exists level, f|by apply Hh0].
Qed.

Lemma FilterSaysNo_ok level f uk ik h b h' :
  is_source db (InFile level f) -> handles_ok h -> FilterSaysNo f uk ik h = (b, h') ->
  handles_ok h' /\ (b = true -> forall e n, e ∈ concat (l_blocks db f) -> ~ version parse_key uk n e).
Proof.
  intros Hs Hh. unfold FilterSaysNo. destruct (pinned f h) as [o h0] eqn:Ep.
  destruct (pinned_ok _ _ _ _ _ Hs Hh Ep) as [Hh0 Ht]. destruct o as [t|]; intros [= <- <-]; [|done].
  split; [done|]. destruct (filter_of t) as [may|] eqn:Em; [|done].
  destruct (whole_key_filtering t) eqn:Ew; [|done]. cbn [negb]. intros Hno e n He Hv.
  rewrite (lk_filter Hlk level f t may uk n e ik) in Hno; auto. done.
Qed.

(** A file the checks pass by holds nothing newer for the key. *)
Definition quiet (uk : bytes) (cand : Z) (s : source) : Prop :=
  (forall e n, e ∈ entries_in db s -> version parse_key uk n e -> n <= read_seqno_ -> n <= cand) /\
  (forall d, d ∈ rdels_in db s -> rd_covers d uk = true -> rd_seq d <= read_seqno_ -> rd_seq d <= cand).

Lemma quiet_old level f uk cand :
  is_source db (InFile level f) -> fm_largest_seqno f <= cand -> quiet uk cand (InFile level f).
Proof.
  intros Hs Hle. split.
  - intros e n He Hv _. pose proof (lo_seqno _ _ _ _ Hdb level f e uk n Hs He Hv). lia.
  - intros d Hd _ _. pose proof (lo_rdel_seqno _ _ _ _ Hdb level f d Hs Hd). lia.
Qed.

Lemma probe_file_ok level f uk ik h b h' cand :
  is_source db (InFile level f) -> handles_ok h -> probe_file f uk ik h = (b, h') ->
  handles_ok h' /\ (b = false -> quiet uk cand (InFile level f)).
Proof.
  intros Hs Hh. unfold probe_file. destruct (Z.ltb_spec 0 (fm_range_deletions f)) as [_|Hrd]; [by intros [= <- <-]|].
  destruct (FilterSaysNo f uk ik h) as [no h0] eqn:Ef. destruct (FilterSaysNo_ok _ _ _ _ _ _ _ Hs Hh Ef) as [Hh0 Hno].
  intros [= <- <-]. split; [done|]. intros En%negb_false_iff. split.
  - intros e n He Hv. by destruct (Hno En e n He).
  - cbn. rewrite (lo_rdel_count _ _ _ _ Hdb level f Hs Hrd). by intros d ?%not_elem_of_nil.
Qed.

Lemma quiet_outside level f uk cand :
  is_source db (InFile level f) -> blt uk (user_key_of (fm_smallest f)) \/ blt (user_key_of (fm_largest f)) uk ->
  quiet uk cand (InFile level f).
Proof.
  intros Hs Hout. split.
  - intros e n He Hv. destruct (version_in_range _ _ _ _ _ _ Hdb Hic _ _ _ _ _ Hs He Hv). exfalso. destruct Hout; border.
  - intros d Hd Hc. destruct (lo_rdel_range _ _ _ _ Hdb level f d uk Hs Hd Hc). exfalso. destruct Hout; border.
Qed.

Lemma probe_l0_ok l0 uk ik cand src h b h' :
  (forall f, f ∈ l0 -> is_source db (InFile 0 f)) -> handles_ok h -> probe_l0 l0 uk ik cand src h = (b, h') ->
  handles_ok h' /\ (b = false -> forall f, f ∈ l0 -> fm_number f <> src -> quiet uk cand (InFile 0 f)).
Proof.
  intros Hs. revert h. induction l0 as [|f l0 IH]; intros h Hh; cbn [probe_l0].
  { intros [= <- <-]. split; [done|]. by intros _ f ?%not_elem_of_nil. }
  assert (is_source db (InFile 0 f)) as Hf by (apply Hs; by left).
  specialize (IH ltac:(intros g Hg; apply Hs; by right)).
  assert (forall h, (fm_number f <> src -> quiet uk cand (InFile 0 f)) -> handles_ok h ->
    probe_l0 l0 uk ik cand src h = (b, h') -> handles_ok h' /\
    (b = false -> forall g, g ∈ f :: l0 -> fm_number g <> src -> quiet uk cand (InFile 0 g))) as Hskip.
  { intros h1 Hq Hh1 E. destruct (IH _ Hh1 E) as [? Hall]. split; [done|].
    intros Hb g [->|Hg]%elem_of_cons Hn; auto. }
  destruct (Z.leb_spec (fm_largest_seqno f) cand); [apply Hskip; [by intros _; apply quiet_old|done]|].
  destruct (Z.eqb_spec (fm_number f) src); [by apply Hskip|]. rewrite Hucmp.
  destruct (match bcompare uk (user_key_of (fm_smallest f)) with Lt => true | _ => false end ||
    match bcompare uk (user_key_of (fm_largest f)) with Gt => true | _ => false end) eqn:Er.
  { apply Hskip; [|done]. intros _. apply quiet_outside; [done|]. unfold blt.
    rewrite (bcompare_antisym uk (user_key_of (fm_largest f))).
    apply orb_true_iff in Er as [Er|Er]; [left|right]; by destruct (bcompare _ _). }
  destruct (probe_file f uk ik h) as [hit h0] eqn:Ep. destruct (probe_file_ok _ _ _ _ _ _ _ cand Hf Hh Ep) as [Hh0 Hq].
  destruct hit; [by intros [= <- <-]|]. apply Hskip; auto.
Qed.

(** Below level 0 the file [FindFile] gives is the only one with the key. *)
Lemma found_file level files f uk :
  (1 <= level)%nat -> l_levels db !! level = Some files -> f ∈ files ->
  ble (user_key_of (fm_smallest f)) uk -> icmp (fm_largest f) (lookup_ikey uk read_seqno_) <> Lt ->
  files !! FindFile files (lookup_ikey uk read_seqno_) = Some f.
Proof.
  intros Hlv El Hf Hlo Hhi. apply list_elem_of_lookup in Hf as [j Hj]. set (k := lookup_ikey uk read_seqno_) in *.
  destruct (Nat.lt_trichotomy (FindFile files k) j) as [Hlt|[<-|Hgt]]; [|done|].
  - exfalso. destruct (lookup_lt_is_Some_2 files (FindFile files k)) as [g Hg]; [apply lookup_lt_Some in Hj; lia|].
    pose proof (lo_disjoint _ _ _ _ Hdb level files _ _ _ _ Hlv El Hg Hj Hlt) as Hd.
    assert (is_source db (InFile level g)) as Hgs by (exists files; split; [done|by eapply list_elem_of_lookup_2]).
    by destruct (lk_at Hlk _ _ _ Hg), (largest_before _ _ _ _ _ _ Hdb Hic level g f uk Hgs Hd Hlo).
  - by rewrite (lk_before Hlk _ _ _ _ Hj Hgt) in Hhi.
Qed.

Lemma quiet_elsewhere level files f uk cand :
  (1 <= level)%nat -> l_levels db !! level = Some files -> f ∈ files ->
  files !! FindFile files (lookup_ikey uk read_seqno_) <> Some f -> quiet uk cand (InFile level f).
Proof.
  intros Hlv El Hf Hne. assert (is_source db (InFile level f)) as Hs by by exists files.
  destruct (lo_bounds _ _ _ _ Hdb level f Hs) as (p & Hp & Ek).
  destruct (ic_lookup _ _ _ _ Hic uk) as (q & Hq & Hqu & _). split.
  - intros e n He Hv Hvis. exfalso. apply Hne. destruct (version_in_range _ _ _ _ _ _ Hdb Hic _ _ _ _ _ Hs He Hv) as [Hlo Hhi].
    apply (found_file level); try done. destruct (lo_range _ _ _ _ Hdb level f e Hs He) as [_ Hcmp].
    destruct Hv as (pe & Hpe & Heu & Hen). rewrite Ek in Hhi.
    destruct (decide (pk_user_key p = uk)) as [Eu|Hu].
    + rewrite <- Eu. apply (ic_lookup_first _ _ _ _ Hic _ p); [done|].
      destruct (decide (pk_sequence p = pk_sequence pe)) as [->|Hsn]; [lia|].
      rewrite (ic_seq _ _ _ _ Hic _ _ _ _ Hp Hpe) in Hcmp by congruence. rewrite Z.compare_lt_iff in Hcmp. lia.
    + rewrite (ic_user _ _ _ _ Hic _ _ _ _ Hp Hq) by congruence. rewrite Hqu. unfold ble in Hhi.
      rewrite (bcompare_antisym (pk_user_key p)) in Hhi. by destruct (bcompare (pk_user_key p) uk).
  - intros d Hd Hc _. exfalso. apply Hne. destruct (lo_rdel_range _ _ _ _ Hdb level f d uk Hs Hd Hc) as [Hlo Hhi].
    apply (found_file level); try done. rewrite Ek in Hhi.
    rewrite (ic_user _ _ _ _ Hic _ _ _ _ Hp Hq) by (rewrite Hqu; intros E; rewrite E in Hhi; by apply blt_irrefl in Hhi).
    rewrite Hqu. unfold blt in Hhi. rewrite (bcompare_antisym (pk_user_key p)) in Hhi. by destruct (bcompare (pk_user_key p) uk).
Qed.

(** The files of levels [level] to [src_level], the candidate's own left out. *)
Definition levels_quiet (level : nat) (src_level : Z) (uk : bytes) (cand src : Z) : Prop :=
  forall i f, (level <= i)%nat -> Z.of_nat i <= src_level -> is_source db (InFile i f) ->
    fm_number f <> src -> quiet uk cand (InFile i f).

Lemma probe_levels_ok level ls src_level uk cand src h b h' :
  (1 <= level)%nat -> (forall i, ls !! i = l_levels db !! (level + i)%nat) -> handles_ok h ->
  probe_levels (Z.of_nat level) src_level ls uk (lookup_ikey uk read_seqno_) cand src h = (b, h') ->
  handles_ok h' /\ (b = false -> levels_quiet level src_level uk cand src).
Proof.
  revert level h. induction ls as [|brief ls IH]; intros level h Hlv Hls Hh; cbn [probe_levels].
  { intros [= <- <-]. split; [done|]. intros _ i f Hi _ (files & El & _). specialize (Hls (i - level)%nat).
    replace (level + (i - level))%nat with i in Hls by lia. by rewrite El in Hls. }
  destruct (Z.ltb_spec src_level (Z.of_nat level)) as [Hd|_]; [intros [= <- <-]; split; [done|intros _ i f; lia]|].
  pose proof (Hls 0%nat) as El. rewrite Nat.add_0_r in El. cbn in El.
  replace (Z.of_nat level + 1) with (Z.of_nat (S level)) by lia. set (ik := lookup_ikey uk read_seqno_) in *.
  specialize (IH (S level)). fold ik in IH.
  assert (forall h, (forall f, f ∈ brief -> fm_number f <> src -> quiet uk cand (InFile level f)) -> handles_ok h ->
    probe_levels (Z.of_nat (S level)) src_level ls uk ik cand src h = (b, h') -> handles_ok h' /\
    (b = false -> levels_quiet level src_level uk cand src)) as Hnext.
  { intros h1 Hq Hh1 E. destruct (IH h1) as [? Hall]; [lia| |done|done|].
    { intros i. specialize (Hls (S i)). change ((brief :: ls) !! S i) with (ls !! i) in Hls. rewrite Hls. f_equal. lia. }
    split; [done|]. intros Hb i f Hi Hil Hs Hn. destruct (decide (i = level)) as [->|]; [|apply Hall; done || lia].
    destruct Hs as (files & Ef & Hf). rewrite <- El in Ef. injection Ef as <-. auto. }
  destruct (Nat.eqb_spec (length brief) 0) as [Hb0|_].
  { apply Hnext; [|done]. intros f Hf. destruct brief; [by apply not_elem_of_nil in Hf|done]. }
  assert (forall f, f ∈ brief -> brief !! FindFile brief ik <> Some f -> quiet uk cand (InFile level f)) as Helse.
  { intros f Hf. by apply (quiet_elsewhere level brief). }
  destruct (brief !! FindFile brief ik) as [f|] eqn:Ef.
  2: { apply Hnext; [|done]. intros f Hf _. by apply Helse. }
  assert (is_source db (InFile level f)) as Hs by (exists brief; split; [done|by eapply list_elem_of_lookup_2]).
  assert (forall h, (fm_number f <> src -> quiet uk cand (InFile level f)) -> handles_ok h ->
    probe_levels (Z.of_nat (S level)) src_level ls uk ik cand src h = (b, h') -> handles_ok h' /\
    (b = false -> levels_quiet level src_level uk cand src)) as Hskip.
  { intros h1 Hq. apply Hnext. intros g Hg Hn. destruct (decide (brief !! FindFile brief ik = Some g)) as [Eg|Hne].
    - rewrite Ef in Eg. injection Eg as <-. auto.
    - apply Helse; [done|]. congruence. }
  rewrite Hucmp. destruct (bcompare uk (user_key_of (fm_smallest f))) eqn:Ec.
  2: { apply Hskip; [|done]. intros _. apply quiet_outside; [done|]. by left. }
  all: destruct (Z.leb_spec (fm_largest_seqno f) cand); [apply Hskip; [by intros _; apply quiet_old|done]|];
    destruct (Z.eqb_spec (fm_number f) src); [by apply Hskip|];
    destruct (probe_file f uk ik h) as [hit h0] eqn:Ep; destruct (probe_file_ok _ _ _ _ _ _ _ cand Hs Hh Ep) as [Hh0 Hq];
    destruct hit; [by intros [= <- <-]|]; apply Hskip; auto.
Qed.

Lemma memtables_quiet uk cand :
  MemtablesHaveNewer (lookup_ikey uk read_seqno_) cand = false -> quiet uk cand Memtables.
Proof.
  unfold MemtablesHaveNewer. set (lk := lookup_ikey uk read_seqno_).
  destruct (Z.ltb_spec cand (ma_mcts (mem_Get lk))); [done|].
  destruct (ma_found (mem_Get lk) && (cand <? ma_seq (mem_Get lk))) eqn:E1; [done|].
  destruct (Z.ltb_spec cand (ma_mcts (imm_Get lk))); [done|]. intros E2.
  apply andb_false_iff in E1, E2. rewrite Z.ltb_ge in E1, E2.
  assert (forall n, shows (mem_Get lk) n \/ shows (imm_Get lk) n -> n <= cand) as Hle.
  { unfold shows. intros n [[[Hf Hn]|Hn]|[[Hf Hn]|Hn]]; [destruct E1; [congruence|lia]|lia|destruct E2; [congruence|lia]|lia]. }
  split.
  - intros e n He Hv Hn. by apply Hle, (lk_mem Hlk uk n e).
  - intros d Hd Hc Hn. by apply Hle, (lk_mem_rdel Hlk uk d).
Qed.

(** ** A "no" is a proof *)

(** The candidate: a stored version, in the source the row reports. *)
Definition candidate_of (uk : bytes) (n level file : Z) (own : source) (e : bytes * bytes) : Prop :=
  is_source db own /\ level_of own = level /\ e ∈ entries_in db own /\ version parse_key uk n e /\
  match own with InFile _ f => fm_number f = file | Memtables => True end.

(** Nothing visible is newer outside the candidate's own file. *)
Definition unshadowed (uk : bytes) (n level file : Z) : Prop :=
  forall own e, candidate_of uk n level file own e ->
  forall s, is_source db s -> own = Memtables \/ s <> own -> quiet uk n s.

(** Every source deeper than the candidate's. *)
Lemma deeper_quiet uk n level file own e s :
  candidate_of uk n level file own e -> is_source db s -> level_of own < level_of s -> quiet uk n s.
Proof.
  intros (Ho & _ & He & Hv & _) Hs Hlt. split.
  - intros e' n' He' Hv' _. by eapply (lo_levels _ _ _ _ Hdb own s).
  - intros d Hd Hc _. by eapply (lo_rdel_levels _ _ _ _ Hdb own s).
Qed.

Lemma MayHaveNewerVersion_ok uk n level file h b h' :
  handles_ok h -> MayHaveNewerVersion uk n level file h = (b, h') ->
  handles_ok h' /\ (b = false -> unshadowed uk n level file).
Proof.
  intros Hh. unfold MayHaveNewerVersion.
  destruct (MemtablesHaveNewer _ n) eqn:Em; [by intros [= <- <-]|]. apply memtables_quiet in Em.
  destruct (Z.eqb_spec level kMemtableSourceLevel) as [->|Hlv].
  { intros [= <- <-]. split; [done|]. intros _ own e Hc [|i f] Hs Hown; [done|]. eapply deeper_quiet; [done..|].
    destruct Hc as (_ & -> & _). cbn. unfold kMemtableSourceLevel. lia. }
  destruct (probe_l0 _ _ _ _ _ _) as [hit h0] eqn:E0. rewrite Hlevels in *.
  apply probe_l0_ok in E0 as [Hh0 Hq0]; [|intros f Hf|done].
  2: { destruct (l_levels db) as [|l0 ls] eqn:El; [by apply not_elem_of_nil in Hf|]. exists l0. by rewrite El. }
  destruct hit; [by intros [= <- <-]|]. specialize (Hq0 eq_refl). intros E1.
  apply (probe_levels_ok 1) in E1 as [Hh1 Hq1]; [|lia| |done].
  2: { intros i. by destruct (l_levels db). }
  split; [done|]. intros Hb own e Hc s Hs Hown. specialize (Hq1 Hb).
  pose proof Hc as (Ho & Hol & _ & _ & Hnum). destruct own as [|lo fo]; [by subst level|].
  destruct s as [|i f]; [done|]. destruct Hown as [?|Hne]; [done|].
  assert (fm_number f <> file) as Hnf.
  { intros E. apply Hne. rewrite <- Hnum in E. by destruct (lo_numbers _ _ _ _ Hdb _ _ _ _ Hs Ho E) as [-> ->]. }
  destruct (Z.lt_ge_cases level (Z.of_nat i)); [eapply deeper_quiet; [done..|cbn in *; lia]|].
  destruct i as [|i]; [|apply Hq1; done || lia]. apply Hq0; [|done]. destruct Hs as (files & El & Hf).
  by destruct (l_levels db); [|injection El as ->].
Qed.

#[local] Instance shadow_checker_laws : ShadowCheckLaws shadow_checker handles_ok unshadowed.
Proof. split. intros uk n level file c b c'. apply MayHaveNewerVersion_ok. Qed.
End ShadowChecker.

(** (C5) A negative answer of the shadow check is a proof. Under RocksDB's
    invariants and laws, with handles of the version's own tables, when
    [MayHaveNewerVersion] answers no for a candidate stored in some source, no
    other source (for a memtable candidate: no source at all) has a visible
    version or covering range tombstone newer than the candidate, and the
    handles stay tables of the version. Bloom filters and file ranges may only
    cause needless positive answers. *)
Theorem shadow_check_sound {table} FindTable (filter_of : table -> _) whole mem_Get imm_Get lookup_ikey user_key_of FindFile
    read_seqno parse_key icmp db uk n level file own e h h' s :
  lsm_ok parse_key user_key_of icmp db -> icmp_ok parse_key icmp lookup_ikey read_seqno ->
  lookup_laws FindTable filter_of whole mem_Get imm_Get lookup_ikey FindFile read_seqno parse_key icmp db ->
  handles_ok FindTable db h ->
  MayHaveNewerVersion FindTable filter_of whole mem_Get imm_Get lookup_ikey user_key_of FindFile bcompare (l_levels db) read_seqno
    uk n level file h = (false, h') ->
  candidate_of parse_key db uk n level file own e -> is_source db s -> own = Memtables \/ s <> own ->
  handles_ok FindTable db h' /\
  (forall e' n', e' ∈ entries_in db s -> version parse_key uk n' e' -> n' <= read_seqno -> n' <= n) /\
  (forall d, d ∈ rdels_in db s -> rd_covers d uk = true -> rd_seq d <= read_seqno -> rd_seq d <= n).
Proof.
  intros Hdb Hic Hlk Hh E Hc Hs Hown.
  destruct (MayHaveNewerVersion_ok FindTable filter_of whole mem_Get imm_Get lookup_ikey user_key_of FindFile bcompare (l_levels db)
    read_seqno parse_key icmp db Hdb Hic Hlk eq_refl eq_refl uk n level file h false h' Hh E) as [Hh' Hun].
  split; [done|]. by apply (Hun eq_refl own e).
Qed.

(** ** The candidate's own file *)
Section OwnFile.
Context {table : Type} (filter_of : table -> option (bytes -> bytes -> bool)) (whole_key_filtering : table -> bool).
Context (user_key_of : bytes -> bytes) (FindFile : list FileMetaData -> bytes -> nat) (ucmp : bytes -> bytes -> comparison).
Context (src_file_no : Z).
(** Another table cache and other metadata, the same for every other file. *)
Context (FindTable FindTable' : FileMetaData -> table + Status) (retouch : FileMetaData -> FileMetaData).
Context (Htables : forall f, fm_number f <> src_file_no -> FindTable' f = FindTable f).
Context (Hnumber : forall f, fm_number (retouch f) = fm_number f) (Hothers : forall f, fm_number f <> src_file_no -> retouch f = f).
Context (Hfind : forall files k, FindFile (map retouch files) k = FindFile files k).
Local Abbreviation probe := (probe_file FindTable filter_of whole_key_filtering).
Local Abbreviation probe' := (probe_file FindTable' filter_of whole_key_filtering).

Lemma probe_file_other f uk ik h : fm_number f <> src_file_no -> probe' f uk ik h = probe f uk ik h.
Proof. intros Hn. unfold probe_file, FilterSaysNo, pinned. by rewrite (Htables f Hn). Qed.

Lemma probe_l0_other l0 uk ik cand h :
  probe_l0 FindTable' filter_of whole_key_filtering user_key_of ucmp (map retouch l0) uk ik cand src_file_no h =
  probe_l0 FindTable filter_of whole_key_filtering user_key_of ucmp l0 uk ik cand src_file_no h.
Proof.
  revert h. induction l0 as [|f l0 IH]; intros h; cbn [map probe_l0]; [done|].
  destruct (decide (fm_number f = src_file_no)) as [Hf|Hf].
  - rewrite Hnumber, Hf, Z.eqb_refl, !IH. by destruct (_ <=? _), (_ <=? _).
  - rewrite (Hothers f Hf), (probe_file_other f uk ik h Hf). destruct (_ <=? _); [done|]. destruct (_ =? _); [done|].
    destruct (_ || _); [done|]. by destruct (probe f uk ik h) as [[] h'].
Qed.
Lemma probe_levels_other ls level src_level uk ik cand h :
  probe_levels FindTable' filter_of whole_key_filtering user_key_of FindFile ucmp level src_level (map (map retouch) ls) uk ik cand src_file_no h =
  probe_levels FindTable filter_of whole_key_filtering user_key_of FindFile ucmp level src_level ls uk ik cand src_file_no h.
Proof.
  revert level h. induction ls as [|brief ls IH]; intros level h; cbn [map probe_levels]; [done|].
  destruct (_ <? _); [done|]. rewrite length_map. destruct (_ =? _)%nat; [done|]. rewrite Hfind, list_lookup_fmap.
  destruct (brief !! FindFile brief ik) as [f|]; cbn [fmap option_fmap option_map]; [|done].
  destruct (decide (fm_number f = src_file_no)) as [Hf|Hf].
  - rewrite Hnumber, Hf, Z.eqb_refl, !IH. by repeat case_match.
  - rewrite (Hothers f Hf), (probe_file_other f uk ik h Hf). destruct (ucmp _ _); [|done|];
      (destruct (_ <=? _); [done|]; destruct (_ =? _); [done|]; by destruct (probe f uk ik h) as [[] h']).
Qed.
End OwnFile.

(** (C39) The check never consults the candidate's own file. Replace what the
    table cache holds for that file (its entries and filter) and its metadata
    (key range, largest sequence number, number of range deletions) by anything,
    as long as [FindFile] stops where it did: the verdict and the pinned handles
    are the same. So a row is never taken for its own newer version, and a
    newer range tombstone in its file never makes the check answer yes. *)
Theorem own_file_ignored {table} FindTable FindTable' (filter_of : table -> _) whole mem_Get imm_Get lookup_ikey user_key_of FindFile
    ucmp levels read_seqno retouch uk n level file h :
  (forall f, fm_number f <> file -> FindTable' f = FindTable f) ->
  (forall f, fm_number (retouch f) = fm_number f) -> (forall f, fm_number f <> file -> retouch f = f) ->
  (forall files k, FindFile (map retouch files) k = FindFile files k) ->
  MayHaveNewerVersion FindTable' filter_of whole mem_Get imm_Get lookup_ikey user_key_of FindFile ucmp (map (map retouch) levels) read_seqno
    uk n level file h =
  MayHaveNewerVersion FindTable filter_of whole mem_Get imm_Get lookup_ikey user_key_of FindFile ucmp levels read_seqno
    uk n level file h.
Proof.
  intros Ht Hn Ho Hf. unfold MayHaveNewerVersion. destruct (MemtablesHaveNewer _ _ _ _); [done|]. destruct (_ =? _); [done|].
  assert (hd [] (map (map retouch) levels) = map retouch (hd [] levels)) as -> by (by destruct levels).
  assert (tl (map (map retouch) levels) = map (map retouch) (tl levels)) as -> by (by destruct levels).
  rewrite (probe_l0_other filter_of whole user_key_of ucmp file FindTable FindTable' retouch Ht Hn Ho).
  destruct (probe_l0 _ _ _ _ _ _ _ _ _ _ _) as [[] h']; [done|]. by apply probe_levels_other.
Qed.

(** The handle cache is bounded: from at most [kMaxPinnedHandles] pinned
    handles a check leaves at most that many, whatever files it opens and
    whether or not opening them fails. *)
Theorem pinned_handles_bounded {table} FindTable (filter_of : table -> _) whole mem_Get imm_Get lookup_ikey user_key_of FindFile ucmp
    levels read_seqno uk n level file h :
  (size h <= kMaxPinnedHandles)%nat ->
  (size (snd (MayHaveNewerVersion FindTable filter_of whole mem_Get imm_Get lookup_ikey user_key_of FindFile ucmp levels read_seqno
    uk n level file h)) <= kMaxPinnedHandles)%nat.
Proof. apply check_few. Qed.
Lemma pinned_handles_bounded_witness : exists h : gmap Z unit,
  (size (snd (MayHaveNewerVersion (fun _ => inl tt) (fun _ => None) (fun _ => false) (fun _ => mkMemAnswer false 0 0)
    (fun _ => mkMemAnswer false 0 0) (fun uk _ => uk) (fun k => k) (fun _ _ => 0%nat) bcompare
    [[mkFileMetaData 1 [x61] [x62] 9 0]] 10 [x61] 3 1 7 h)) <= kMaxPinnedHandles)%nat /\ size h = 64%nat.
Proof.
  exists (list_to_map (map (fun i => (i, tt)) (seqZ 100 64))). split; [|vm_compute; reflexivity].
  apply pinned_handles_bounded. vm_compute. lia.
Defined.
