(* ===== verification/ScanHandles.v ===== *)
(** * What a scan holds in RocksDB

    A scan borrows table readers through references into the table cache, keeps
    a SuperVersion referenced and may own a snapshot. Models who takes and who
    returns these, and in which order: the constructors and destructors of
    [BitLSMIterator], [BitLSMMergingIterator] and [BitLSMLevelIterator], with
    [LoadFile], and the handles of [ShadowChecker]. The table cache belongs to
    the column family, which lives while it is registered or a SuperVersion of
    it is referenced; a reference that is used or returned after that, or
    returned twice, is the fault [UseAfterFree]. *)
From Stdlib Require Import ZArith Lia.
From stdpp Require Import base numbers gmap gmultiset sets list.
From S2P Require Import Prelude Shadow.

(** ** RocksDB's side

    Files are named by their number; [table_refs] are the references taken into
    the table cache. *)
Record rocks := mkRocks {
  cf_open : bool;
  sv_refs : nat;
  table_refs : gmultiset Z;
  snapshots : nat;
}.
Definition tables_alive (w : rocks) : bool := cf_open w || (0 <? sv_refs w)%nat.
Definition with_refs (r : gmultiset Z) (w : rocks) : rocks := mkRocks (cf_open w) (sv_refs w) r (snapshots w).

(** [TableCache::FindTable], which may fail; [Value] of a handle and what is
    reached through it; [Release]. *)
Definition find_table (opened : bool) (f : Z) (w : rocks) : result rocks :=
  if tables_alive w then Ok (if opened then with_refs (table_refs w ⊎ {[+ f +]}) w else w) else Fault UseAfterFree.
Definition use_table (f : Z) (w : rocks) : result rocks :=
  if tables_alive w && bool_decide (f ∈ table_refs w) then Ok w else Fault UseAfterFree.
Definition release_table (f : Z) (w : rocks) : result rocks :=
  if tables_alive w && bool_decide (f ∈ table_refs w) then Ok (with_refs (table_refs w ∖ {[+ f +]}) w) else Fault UseAfterFree.
Fixpoint release_tables (fs : list Z) (w : rocks) : result rocks :=
  match fs with [] => Ok w | f :: rest => w' ← release_table f w; release_tables rest w' end.

(** The last [Unref] deletes the SuperVersion. *)
Definition unref_sv (w : rocks) : result rocks :=
  match sv_refs w with
  | O => Fault UseAfterFree
  | S n => Ok (mkRocks (cf_open w) n (table_refs w) (snapshots w))
  end.

(** ** The level iterator

    [lv_sti] is the file of the table iterator [cur_sti_], which borrows the
    table reader behind [cur_table_handle_]. *)
Record level_handles := mkLevelHandles {
  lv_files : list Z;
  lv_handle : option Z;
  lv_sti : option Z;
}.
Definition on_some {A} (f : A -> rocks -> result rocks) (o : option A) (w : rocks) : result rocks :=
  match o with Some a => f a w | None => Ok w end.
(** The destructor: the iterator first, then the handle. *)
Definition level_destroy (it : level_handles) (w : rocks) : result rocks :=
  w1 ← on_some use_table (lv_sti it) w;
  on_some release_table (lv_handle it) w1.
Definition level_load (idx : nat) (opened : bool) (it : level_handles) (w : rocks) : result (level_handles * rocks) :=
  w1 ← on_some use_table (lv_sti it) w;
  w2 ← on_some release_table (lv_handle it) w1;
  let cleared := mkLevelHandles (lv_files it) None None in
  match lv_files it !! idx with
  | None => Ok (cleared, w2)
  | Some f =>
      w3 ← find_table opened f w2;
      if opened then w4 ← use_table f w3; Ok (mkLevelHandles (lv_files it) (Some f) (Some f), w4)
      else Ok (cleared, w3)
  end.

(** ** The merging iterator *)
Inductive child := MemChild | TableChild (f : Z) | LevelChild (it : level_handles).
Record merging_handles := mkMergingHandles { ch_iters_ : list child; l0_handles_ : list Z }.

Definition destroy_child (c : child) (w : rocks) : result rocks :=
  match c with
  | MemChild => Ok w
  | TableChild f => use_table f w
  | LevelChild it => level_destroy it w
  end.
Fixpoint destroy_children (cs : list child) (w : rocks) : result rocks :=
  match cs with [] => Ok w | c :: rest => w' ← destroy_child c w; destroy_children rest w' end.
Definition merging_destroy (m : merging_handles) (w : rocks) : result rocks :=
  w1 ← destroy_children (ch_iters_ m) w;
  release_tables (l0_handles_ m) w1.

(** The loop over the files of level 0; an unreadable one is skipped. *)
Fixpoint hold_l0 (opens : Z -> bool) (fs : list Z) (w : rocks) : result (list Z * rocks) :=
  match fs with
  | [] => Ok ([], w)
  | f :: rest =>
      w1 ← find_table (opens f) f w;
      if opens f then
        w2 ← use_table f w1;
        '(hs, w3) ← hold_l0 opens rest w2; Ok (f :: hs, w3)
      else hold_l0 opens rest w1
  end.
Definition merging_new (opens : Z -> bool) (mems : nat) (l0 : list Z) (levels : list (list Z)) (w : rocks)
    : result (merging_handles * rocks) :=
  '(hs, w') ← hold_l0 opens l0 w;
  Ok (mkMergingHandles (replicate mems MemChild ++ map TableChild hs ++
        map (fun fs => LevelChild (mkLevelHandles fs None None)) (filter (fun fs => fs <> []) levels)) hs, w').

(** ** The shadow checker's handles *)
Definition checker_find (f : Z) (opened : bool) (handles_ : list Z) (w : rocks) : result (list Z * rocks) :=
  if decide (f ∈ handles_) then w1 ← use_table f w; Ok (handles_, w1)
  else
    '(handles_, w1) ← (if (kMaxPinnedHandles <=? length handles_)%nat
                       then w1 ← release_tables handles_ w; Ok ([], w1) else Ok (handles_, w));
    w2 ← find_table opened f w1;
    if opened then w3 ← use_table f w2; Ok (f :: handles_, w3) else Ok (handles_, w2).

(** ** The iterator *)
Record scan_handles := mkScanHandles {
  snapshot_owned_ : bool;
  smi_ : merging_handles;
  checker_ : option (list Z);
}.
(** [injected]: the caller passed its own snapshot. *)
Definition scan_new (injected check_enabled : bool) (opens : Z -> bool) (mems : nat) (l0 : list Z) (levels : list (list Z)) (w : rocks)
    : result (scan_handles * rocks) :=
  if negb (tables_alive w) then Fault UseAfterFree else
  let w1 := mkRocks (cf_open w) (S (sv_refs w)) (table_refs w) (if injected then snapshots w else S (snapshots w)) in
  '(m, w2) ← merging_new opens mems l0 levels w1;
  Ok (mkScanHandles (negb injected) m (if check_enabled then Some [] else None), w2).

(** The body of the destructor, then the member [checker_]. *)
Definition scan_destroy (s : scan_handles) (w : rocks) : result rocks :=
  w1 ← merging_destroy (smi_ s) w;
  w2 ← unref_sv w1;
  let w3 := if snapshot_owned_ s then mkRocks (cf_open w2) (sv_refs w2) (table_refs w2) (pred (snapshots w2)) else w2 in
  on_some release_tables (checker_ s) w3.

(** What happens while it lives: a level moves to a file, a leaf is read, the
    checker consults a file, the column family is dropped. *)
Inductive scan_action :=
  | ALoadFile (j idx : nat) (opened : bool)
  | ARead (j : nat)
  | ACheck (f : Z) (opened : bool)
  | ADropColumnFamily.
Definition scan_act (a : scan_action) (s : scan_handles) (w : rocks) : result (scan_handles * rocks) :=
  match a with
  | ALoadFile j idx opened =>
      match ch_iters_ (smi_ s) !! j with
      | Some (LevelChild it) =>
          '(it', w') ← level_load idx opened it w;
          Ok (mkScanHandles (snapshot_owned_ s)
                (mkMergingHandles (<[j := LevelChild it']> (ch_iters_ (smi_ s))) (l0_handles_ (smi_ s))) (checker_ s), w')
      | _ => Ok (s, w)
      end
  | ARead j =>
      match ch_iters_ (smi_ s) !! j with
      | Some (TableChild f) => w' ← use_table f w; Ok (s, w')
      | Some (LevelChild it) => w' ← on_some use_table (lv_sti it) w; Ok (s, w')
      | _ => Ok (s, w)
      end
  | ACheck f opened =>
      match checker_ s with
      | Some hs => '(hs', w') ← checker_find f opened hs w; Ok (mkScanHandles (snapshot_owned_ s) (smi_ s) (Some hs'), w')
      | None => Ok (s, w)
      end
  | ADropColumnFamily => Ok (s, mkRocks false (sv_refs w) (table_refs w) (snapshots w))
  end.
Fixpoint scan_acts (acts : list scan_action) (s : scan_handles) (w : rocks) : result (scan_handles * rocks) :=
  match acts with [] => Ok (s, w) | a :: rest => '(s', w') ← scan_act a s w; scan_acts rest s' w' end.

(** ** What is held *)
Definition child_handles (c : child) : list Z :=
  match c with LevelChild it => option_list (lv_handle it) | _ => [] end.
Definition held (s : scan_handles) : list Z :=
  concat (map child_handles (ch_iters_ (smi_ s))) ++ l0_handles_ (smi_ s) ++ default [] (checker_ s).

(** Every leaf's table is referenced: a level's by its own handle, one of level
    0 by the merging iterator's. *)
Definition child_ok (l0 : list Z) (c : child) : Prop :=
  match c with
  | MemChild => True
  | TableChild f => f ∈ l0
  | LevelChild it => lv_sti it = lv_handle it
  end.
Definition refs_are (R : gmultiset Z) (l : list Z) (w : rocks) : Prop := table_refs w = R ⊎ list_to_set_disj l.

Lemma refs_perm R l l' w : l ≡ₚ l' -> refs_are R l w -> refs_are R l' w.
Proof. intros Hp. unfold refs_are. by rewrite Hp. Qed.
Lemma refs_in R l w f : refs_are R l w -> f ∈ l -> f ∈ table_refs w.
Proof. intros -> Hf. apply gmultiset_elem_of_disj_union. right. by apply elem_of_list_to_set_disj. Qed.

Lemma find_ok R l w f opened : tables_alive w = true -> refs_are R l w ->
  exists w', find_table opened f w = Ok w' /\ w' = with_refs (table_refs w') w /\ refs_are R (if opened then f :: l else l) w'.
Proof.
  intros Ha Hr. unfold find_table. rewrite Ha. eexists. split; [done|]. destruct opened; [|by destruct w].
  split; [done|]. unfold refs_are in *. cbn [with_refs table_refs]. rewrite Hr, list_to_set_disj_cons. multiset_solver.
Qed.
Lemma use_ok R l w f : tables_alive w = true -> refs_are R l w -> f ∈ l -> use_table f w = Ok w.
Proof. intros Ha Hr Hf. unfold use_table. by rewrite Ha, bool_decide_eq_true_2 by by eapply refs_in. Qed.
Lemma release_table_ok R l w f : tables_alive w = true -> refs_are R (f :: l) w ->
  exists w', release_table f w = Ok w' /\ w' = with_refs (table_refs w') w /\ refs_are R l w'.
Proof.
  intros Ha Hr. unfold release_table. rewrite Ha, bool_decide_eq_true_2 by (eapply refs_in; [done|set_solver]).
  eexists. split; [done|]. split; [done|]. unfold refs_are in *. cbn [with_refs table_refs]. rewrite Hr, list_to_set_disj_cons. multiset_solver.
Qed.
Lemma releases_ok R l fs w : tables_alive w = true -> refs_are R (fs ++ l) w ->
  exists w', release_tables fs w = Ok w' /\ w' = with_refs (table_refs w') w /\ refs_are R l w'.
Proof.
  intros Ha. revert w Ha. induction fs as [|f fs IH]; intros w Ha Hr; [exists w; by destruct w|]. cbn [release_tables].
  destruct (release_table_ok R (fs ++ l) w f Ha Hr) as (w1 & -> & E1 & H1). cbn [mbind result_bind].
  destruct (IH w1) as (w2 & -> & E2 & H2); [by rewrite E1|done|]. exists w2. split; [done|]. split; [|done]. rewrite E2, E1. by destruct w.
Qed.

(** ** Every step keeps the books *)

(** The step changed the references only, to those of [l]. *)
Definition now_holds (R : gmultiset Z) (l : list Z) (w w' : rocks) : Prop := w' = with_refs (table_refs w') w /\ refs_are R l w'.
Lemma holds_alive R l w w' : now_holds R l w w' -> tables_alive w' = tables_alive w.
Proof. by intros [-> _]. Qed.
Lemma holds_trans R l l' w w1 w2 : now_holds R l w w1 -> now_holds R l' w1 w2 -> now_holds R l' w w2.
Proof. intros [E1 _] [E2 H2]. split; [|done]. rewrite E2, E1. by destruct w. Qed.
Lemma holds_refl R l w : refs_are R l w -> now_holds R l w w.
Proof. intros H. split; [by destruct w|done]. Qed.

Lemma level_destroy_ok R l it w : tables_alive w = true -> lv_sti it = lv_handle it ->
  refs_are R (option_list (lv_handle it) ++ l) w -> exists w', level_destroy it w = Ok w' /\ now_holds R l w w'.
Proof.
  intros Ha Hs Hr. unfold level_destroy. rewrite Hs. destruct (lv_handle it) as [f|]; cbn [on_some option_list app] in *.
  - rewrite (use_ok R (f :: l)) by (done || set_solver). cbn [mbind result_bind].
    destruct (release_table_ok R l w f Ha Hr) as (w' & -> & H). by exists w'.
  - exists w. split; [done|by apply holds_refl].
Qed.
Lemma level_load_split idx opened it w : level_load idx opened it w =
  (w2 ← level_destroy it w;
   match lv_files it !! idx with
   | None => Ok (mkLevelHandles (lv_files it) None None, w2)
   | Some f => w3 ← find_table opened f w2;
               if opened then w4 ← use_table f w3; Ok (mkLevelHandles (lv_files it) (Some f) (Some f), w4)
               else Ok (mkLevelHandles (lv_files it) None None, w3)
   end).
Proof. unfold level_load, level_destroy. by destruct (on_some use_table (lv_sti it) w). Qed.
Lemma level_load_ok R l idx opened it w : tables_alive w = true -> lv_sti it = lv_handle it ->
  refs_are R (option_list (lv_handle it) ++ l) w ->
  exists it' w', level_load idx opened it w = Ok (it', w') /\ lv_sti it' = lv_handle it' /\ now_holds R (option_list (lv_handle it') ++ l) w w'.
Proof.
  intros Ha Hs Hr. rewrite level_load_split. destruct (level_destroy_ok R l it w Ha Hs Hr) as (w1 & -> & H1). cbn [mbind result_bind].
  destruct (lv_files it !! idx) as [f|]; [|by eexists _, w1].
  assert (tables_alive w1 = true) as Ha1 by by rewrite (holds_alive _ _ _ _ H1).
  destruct (find_ok R l w1 f opened Ha1 (proj2 H1)) as (w2 & -> & H2). cbn [mbind result_bind].
  pose proof (holds_trans _ _ _ _ _ _ H1 H2) as H12. destruct opened; [|by eexists _, w2].
  rewrite (use_ok R (f :: l)); [|by rewrite (holds_alive _ _ _ _ H2)|by apply H2|set_solver]. cbn [mbind result_bind]. by eexists _, w2.
Qed.

Lemma hold_l0_ok R l opens fs w : tables_alive w = true -> refs_are R l w ->
  exists hs w', hold_l0 opens fs w = Ok (hs, w') /\ now_holds R (hs ++ l) w w'.
Proof.
  revert l w. induction fs as [|f fs IH]; intros l w Ha Hr; cbn [hold_l0].
  { exists [], w. split; [done|by apply holds_refl]. }
  destruct (find_ok R l w f (opens f) Ha Hr) as (w1 & -> & H1). cbn [mbind result_bind].
  assert (tables_alive w1 = true) as Ha1 by by rewrite (holds_alive _ _ _ _ H1). destruct (opens f).
  - rewrite (use_ok R (f :: l)); [|done|by apply H1|set_solver]. cbn [mbind result_bind].
    destruct (IH (f :: l) w1 Ha1 (proj2 H1)) as (hs & w2 & -> & H2). cbn [mbind result_bind]. exists (f :: hs), w2. split; [done|].
    pose proof (holds_trans _ _ _ _ _ _ H1 H2) as [E Hr2]. split; [done|]. eapply refs_perm; [|exact Hr2]. cbn. by rewrite <- Permutation_middle.
  - destruct (IH l w1 Ha1 (proj2 H1)) as (hs & w2 & -> & H2). exists hs, w2. split; [done|]. by eapply holds_trans.
Qed.

Lemma destroy_children_ok R l l0 cs w : tables_alive w = true -> Forall (child_ok l0) cs -> (forall f, f ∈ l0 -> f ∈ l) ->
  refs_are R (concat (map child_handles cs) ++ l) w -> exists w', destroy_children cs w = Ok w' /\ now_holds R l w w'.
Proof.
  intros Ha Hc Hin. revert w Ha. induction Hc as [|c cs Hc _ IH]; intros w Ha Hr; cbn [destroy_children].
  { exists w. split; [done|by apply holds_refl]. }
  cbn [map concat] in Hr. rewrite <- app_assoc in Hr.
  assert (exists w1, destroy_child c w = Ok w1 /\ now_holds R (concat (map child_handles cs) ++ l) w w1) as (w1 & -> & H1).
  { destruct c as [|f|it]; cbn [destroy_child child_handles app] in *.
    - exists w. split; [done|by apply holds_refl].
    - rewrite (use_ok R _ w f Ha Hr); [|apply elem_of_app; right; by apply Hin]. exists w. split; [done|by apply holds_refl].
    - by apply level_destroy_ok. }
  cbn [mbind result_bind]. destruct (IH w1) as (w2 & -> & H2); [by rewrite (holds_alive _ _ _ _ H1)|by apply H1|].
  exists w2. split; [done|]. by eapply holds_trans.
Qed.

Lemma checker_find_ok R l f opened hs w : tables_alive w = true -> refs_are R (hs ++ l) w ->
  exists hs' w', checker_find f opened hs w = Ok (hs', w') /\ now_holds R (hs' ++ l) w w'.
Proof.
  intros Ha Hr. unfold checker_find. destruct (decide (f ∈ hs)) as [Hin|_].
  { rewrite (use_ok R (hs ++ l)) by (done || set_solver). exists hs, w. split; [done|by apply holds_refl]. }
  set (r := if (_ <=? _)%nat then _ else _).
  assert (exists hs1 w1, r = Ok (hs1, w1) /\ now_holds R (hs1 ++ l) w w1) as (hs1 & w1 & -> & H1).
  { unfold r. destruct (_ <=? _)%nat; [|exists hs, w; split; [done|by apply holds_refl]].
    destruct (releases_ok R l hs w Ha Hr) as (w1 & -> & H1). by exists [], w1. }
  cbn [mbind result_bind]. assert (tables_alive w1 = true) as Ha1 by by rewrite (holds_alive _ _ _ _ H1).
  destruct (find_ok R (hs1 ++ l) w1 f opened Ha1 (proj2 H1)) as (w2 & -> & H2). cbn [mbind result_bind].
  pose proof (holds_trans _ _ _ _ _ _ H1 H2) as H12. destruct opened; [|by exists hs1, w2].
  rewrite (use_ok R (f :: hs1 ++ l)); [|by rewrite (holds_alive _ _ _ _ H2)|by apply H2|set_solver]. by exists (f :: hs1), w2.
Qed.

(** The invariant of a living scan, over what the world had before it: the
    references [R], [n] other references to the SuperVersion, [k] snapshots. *)
Record scan_ok (R : gmultiset Z) (n k : nat) (s : scan_handles) (w : rocks) : Prop := {
  so_refs : refs_are R (held s) w;
  so_sv : sv_refs w = S n;
  so_snap : snapshots w = if snapshot_owned_ s then S k else k;
  so_children : Forall (child_ok (l0_handles_ (smi_ s))) (ch_iters_ (smi_ s));
}.
Lemma scan_ok_alive R n k s w : scan_ok R n k s w -> tables_alive w = true.
Proof. intros [_ Hs _ _]. unfold tables_alive. rewrite Hs. apply orb_true_r. Qed.

Lemma scan_new_ok injected check_enabled opens mems l0 levels w : tables_alive w = true ->
  exists s w', scan_new injected check_enabled opens mems l0 levels w = Ok (s, w') /\
    scan_ok (table_refs w) (sv_refs w) (snapshots w) s w' /\ cf_open w' = cf_open w.
Proof.
  intros Ha. unfold scan_new, merging_new. rewrite Ha. cbn [negb]. set (w1 := mkRocks _ _ _ _).
  destruct (hold_l0_ok (table_refs w) [] opens l0 w1) as (hs & w2 & -> & E2 & H2).
  { unfold tables_alive. apply orb_true_r. }
  { unfold refs_are, w1. cbn [table_refs]. change (list_to_set_disj []) with (∅ : gmultiset Z). multiset_solver. }
  cbn [mbind result_bind]. eexists _, w2. split; [done|]. split; [|by rewrite E2].
  split; cbn [smi_ ch_iters_ l0_handles_ checker_ snapshot_owned_]; [|by rewrite E2|rewrite E2; by destruct injected|].
  - eapply refs_perm; [|exact H2]. rewrite app_nil_r. unfold held. cbn [smi_ ch_iters_ l0_handles_ checker_].
    assert (concat (map child_handles (replicate mems MemChild ++ map TableChild hs ++
      map (fun fs => LevelChild (mkLevelHandles fs None None)) (filter (fun fs => fs <> []) levels))) = []) as ->.
    { rewrite !map_app, !concat_app. repeat (rewrite (proj2 (concat_nil_Forall _)); [|
        apply Forall_fmap; first [by apply Forall_replicate|apply Forall_fmap, Forall_true; done]]). done. }
    destruct check_enabled; cbn; by rewrite app_nil_r.
  - apply Forall_app. split; [by apply Forall_replicate|]. apply Forall_app. split; apply Forall_fmap, Forall_forall; [by intros f Hf|done].
Qed.

Lemma held_at s l1 c l2 : ch_iters_ (smi_ s) = l1 ++ c :: l2 ->
  held s ≡ₚ child_handles c ++ concat (map child_handles (l1 ++ l2)) ++ l0_handles_ (smi_ s) ++ default [] (checker_ s).
Proof.
  intros E. unfold held. rewrite E, !map_app, !concat_app. cbn [map concat].
  rewrite !app_assoc. do 2 apply Permutation_app_tail. apply Permutation_app_tail. apply Permutation_app_comm.
Qed.

Lemma scan_act_ok R n k a s w : scan_ok R n k s w -> exists s' w', scan_act a s w = Ok (s', w') /\ scan_ok R n k s' w'.
Proof.
  intros Hok. pose proof (scan_ok_alive _ _ _ _ _ Hok) as Ha. destruct Hok as [Hr Hsv Hsn Hch].
  destruct a as [j idx opened|j|f opened|]; cbn [scan_act].
  - destruct (ch_iters_ (smi_ s) !! j) as [[|f|it]|] eqn:Ej; [by exists s, w|by exists s, w| |by exists s, w].
    pose proof (take_drop_middle _ _ _ Ej) as Es. symmetry in Es. set (l1 := take j _) in *. set (l2 := drop (S j) _) in *.
    pose proof (Forall_lookup_1 _ _ _ _ Hch Ej) as Hit. cbn [child_ok] in Hit.
    destruct (level_load_ok R _ idx opened it w Ha Hit (refs_perm _ _ _ _ (held_at s l1 _ l2 Es) Hr)) as (it' & w' & -> & Hit' & E & Hr').
    cbn [mbind result_bind]. eexists _, w'. split; [done|]. split; cbn [smi_ ch_iters_ l0_handles_ checker_ snapshot_owned_].
    + eapply refs_perm; [symmetry; apply (held_at _ l1 (LevelChild it') l2)|exact Hr']. cbn [smi_ ch_iters_].
      unfold l1, l2. apply insert_take_drop. by eapply lookup_lt_Some.
    + by rewrite E.
    + by rewrite E.
    + by apply Forall_insert.
  - destruct (ch_iters_ (smi_ s) !! j) as [[|f|it]|] eqn:Ej; [by exists s, w| | |by exists s, w];
      pose proof (Forall_lookup_1 _ _ _ _ Hch Ej) as Hc; cbn [child_ok] in Hc.
    + rewrite (use_ok R (held s)); [by exists s, w|done|done|]. unfold held. set_solver.
    + rewrite Hc. destruct (lv_handle it) as [f|] eqn:Eh; [|by exists s, w]. cbn [on_some].
      rewrite (use_ok R (held s)); [by exists s, w|done|done|]. unfold held. apply elem_of_app. left.
      apply list_elem_of_In, in_concat. exists [f]. split; [|by left]. apply list_elem_of_In, list_elem_of_fmap. exists (LevelChild it).
      split; [cbn; by rewrite Eh|by eapply list_elem_of_lookup_2].
  - destruct (checker_ s) as [hs|] eqn:Ec; [|by exists s, w].
    assert (refs_are R (hs ++ concat (map child_handles (ch_iters_ (smi_ s))) ++ l0_handles_ (smi_ s)) w) as Hr1.
    { eapply refs_perm; [|exact Hr]. unfold held. rewrite Ec. cbn. rewrite app_assoc. apply Permutation_app_comm. }
    destruct (checker_find_ok R _ f opened hs w Ha Hr1) as (hs' & w' & -> & E & Hr'). cbn [mbind result_bind].
    eexists _, w'. split; [done|]. split; cbn [smi_ ch_iters_ l0_handles_ checker_ snapshot_owned_]; [|by rewrite E|by rewrite E|done].
    eapply refs_perm; [|exact Hr']. unfold held. cbn. rewrite (Permutation_app_comm hs'). by rewrite <- app_assoc.
  - eexists s, _. split; [done|]. by split.
Qed.
Lemma scan_acts_ok R n k acts s w : scan_ok R n k s w -> exists s' w', scan_acts acts s w = Ok (s', w') /\ scan_ok R n k s' w'.
Proof.
  revert s w. induction acts as [|a acts IH]; intros s w Hok; [by exists s, w|]. cbn [scan_acts].
  destruct (scan_act_ok R n k a s w Hok) as (s1 & w1 & -> & Hok1). by apply IH.
Qed.

(** The destructor: the handles of the checker come last, after the reference to
    the SuperVersion is gone. *)
Lemma scan_destroy_ok R n k s w : scan_ok R n k s w ->
  if cf_open w || (0 <? n)%nat || bool_decide (default [] (checker_ s) = []) then
    scan_destroy s w = Ok (mkRocks (cf_open w) n R k)
  else scan_destroy s w = Fault UseAfterFree.
Proof.
  intros Hok. pose proof (scan_ok_alive _ _ _ _ _ Hok) as Ha. destruct Hok as [Hr Hsv Hsn Hch].
  unfold scan_destroy, merging_destroy.
  destruct (destroy_children_ok R (l0_handles_ (smi_ s) ++ default [] (checker_ s)) _ _ w Ha Hch ltac:(set_solver) Hr) as (w1 & -> & H1).
  cbn [mbind result_bind]. destruct (releases_ok R (default [] (checker_ s)) (l0_handles_ (smi_ s)) w1) as (w2 & -> & H2);
    [by rewrite (holds_alive _ _ _ _ H1)|by apply H1|]. pose proof (holds_trans _ _ _ _ _ _ H1 H2) as [E Hr2]. cbn [mbind result_bind].
  assert (sv_refs w2 = S n) as Hsv2 by by rewrite E. assert (snapshots w2 = snapshots w) as Hsn2 by by rewrite E.
  assert (cf_open w2 = cf_open w) as Hcf2 by by rewrite E. clear E H1 H2 w1.
  unfold unref_sv. rewrite Hsv2. cbn [mbind result_bind cf_open sv_refs table_refs snapshots]. rewrite Hsn2, Hcf2, Hsn.
  set (w3 := if snapshot_owned_ s then _ else _).
  assert (w3 = mkRocks (cf_open w) n (table_refs w2) k) as ->.
  { unfold w3. by destruct (snapshot_owned_ s). }
  unfold refs_are in Hr2. destruct (checker_ s) as [[|f hs]|]; cbn [on_some default] in *.
  1, 3: rewrite orb_true_r; cbn [release_tables]; f_equal; f_equal; rewrite Hr2; change (list_to_set_disj []) with (∅ : gmultiset Z); multiset_solver.
  rewrite bool_decide_eq_false_2 by done. rewrite orb_false_r. destruct (cf_open w || (0 <? n)%nat) eqn:Eo.
  - destruct (releases_ok R [] (f :: hs) (mkRocks (cf_open w) n (table_refs w2) k)) as (w4 & -> & E4 & H4); [done|by rewrite app_nil_r|].
    f_equal. rewrite E4. unfold with_refs. cbn. f_equal. unfold refs_are in H4. rewrite H4.
    change (list_to_set_disj []) with (∅ : gmultiset Z). multiset_solver.
  - cbn [release_tables]. unfold release_table, tables_alive. cbn [cf_open sv_refs]. by rewrite Eo.
Qed.

(** (C8) A scan's references. While the column family is registered, an iterator
    of any shape is built, whichever files fail to open; every sequence of file
    changes, reads, shadow checks and drops of the column family runs without
    touching a table that is not referenced; and its destructor returns exactly
    what it took: every table reference, the SuperVersion, its own snapshot and
    no injected one. It does so whenever the column family is still registered,
    another reference keeps its SuperVersion, or the checker holds no handle;
    otherwise the checker returns its handles to a table cache that is gone. *)
Theorem scan_references injected check_enabled opens mems l0 levels w acts :
  cf_open w = true ->
  exists s w1 s' w2,
    scan_new injected check_enabled opens mems l0 levels w = Ok (s, w1) /\
    scan_acts acts s w1 = Ok (s', w2) /\
    if cf_open w2 || (0 <? sv_refs w)%nat || bool_decide (default [] (checker_ s') = [])
    then scan_destroy s' w2 = Ok (mkRocks (cf_open w2) (sv_refs w) (table_refs w) (snapshots w))
    else scan_destroy s' w2 = Fault UseAfterFree.
Proof.
  intros Hopen. destruct (scan_new_ok injected check_enabled opens mems l0 levels w) as (s & w1 & E & Hok & _).
  { unfold tables_alive. by rewrite Hopen. }
  destruct (scan_acts_ok _ _ _ acts s w1 Hok) as (s' & w2 & E2 & Hok2).
  exists s, w1, s', w2. split; [done|]. split; [done|]. by apply scan_destroy_ok.
Qed.
Definition demo_rocks : rocks := mkRocks true 0 ∅ 0.
Definition demo_acts : list scan_action := [ALoadFile 3 0 true; ARead 3; ARead 1; ACheck 7 true; ALoadFile 3 1 false; ACheck 8 false; ACheck 7 true].
Lemma scan_references_witness : exists s w1 s' w2,
  scan_new false true (fun f => negb (f =? 6)) 1 [5; 6; 7] [[]; [8; 9]] demo_rocks = Ok (s, w1) /\
  scan_acts demo_acts s w1 = Ok (s', w2) /\ checker_ s' = Some [7] /\ scan_destroy s' w2 = Ok demo_rocks.
Proof.
  destruct (scan_references false true (fun f => negb (f =? 6)) 1 [5; 6; 7] [[]; [8; 9]] demo_rocks demo_acts eq_refl) as (s & w1 & s' & w2 & E1 & E2 & E3).
  exists s, w1, s', w2. split; [exact E1|]. split; [exact E2|].
  vm_compute in E1. injection E1 as <- <-. vm_compute in E2. injection E2 as <- <-. split; [reflexivity|exact E3].
Defined.

(** A column family dropped while a scan lives, the scan destroyed after it: the
    checker's handles are returned to a table cache that is gone. *)
Lemma late_checker_release : exists s w1 s' w2,
  scan_new false true (fun _ => true) 1 [5] [] demo_rocks = Ok (s, w1) /\
  scan_acts [ACheck 5 true; ADropColumnFamily] s w1 = Ok (s', w2) /\ scan_destroy s' w2 = Fault UseAfterFree.
Proof. eexists _, _, _, _. split; [vm_compute; reflexivity|]. split; vm_compute; reflexivity. Qed.
