(* ===== verification/TopIterator.v ===== *)
(** * The top-level iterator

    Models [BitLSMIterator] ([bit_lsm_iterator.h], [bit_lsm_iterator.cpp]): the
    constructor's choice of path, the batches of candidates taken from the
    merge, and what each batch answers: the candidates themselves, the scanned
    rows, or the verdict of a re-fetch for those a shadow check cannot clear.

    The merge and the checker are used through their interfaces; [MultiGet] is
    RocksDB's. The parallel vectors of a batch ([candidate_keys_],
    [candidate_values_], ...) are one list of records, a field that is filled
    only on some path an [option]. *)
From Stdlib Require Import ZArith Lia Strings.Byte Strings.String Sorting.Sorted.
From stdpp Require Import base numbers strings list sets sorting.
From S2P Require Import Prelude Options Query Externals Binning Builder Reader Index.
From S2P Require Import BinSource TableIter Iterators Shadow.

Inductive ResultMode := Verified | Candidate.
#[export] Instance ResultMode_eq_dec : EqDecision ResultMode.
Proof. solve_decision. Defined.

Definition IsNotFound (s : Status) : bool := match s with NotFound _ => true | _ => false end.

(** A candidate: its key, the value the scan read, and what the shadow check
    takes: sequence number, source level, source file, in-file shadowing. *)
Record cand := mkCand {
  cd_key : bytes;
  cd_value : option bytes;
  cd_check : option (Z * Z * Z * bool);
}.

Section TopIterator.
Context `{InternalIterator SMI} `{ShadowCheck}.
Context (parse_key : bytes -> option ParsedInternalKey).
(** [MultiGet] at the iterator's snapshot: a value or a status per key. *)
Context (MultiGet : list bytes -> list (bytes + Status)).

Record bit_iter := mkBitIter {
  bi_valid : bool;
  bi_status : Status;
  smi_ : SMI;
  result_mode_ : ResultMode;
  bi_compiled : option CompiledQuery;
  batch_keys_ : list bytes;
  batch_values_ : list bytes;
  batch_cur_idx_ : Z;
  latest_user_key_added : bytes;
  authoritative_scan_ : bool;
  skipped_batches_ : Z;
  checker_ : option checker;
  check_enabled_ : bool;
  checked_keys_ : Z;
  skipped_keys_ : Z;
}.

(** ** The constructor *)

(** What the constructor reads off the version. *)
Record lsm_shape := mkLsmShape {
  sh_mem_entries : Z;            (** [sv_->mem->NumEntries()] *)
  sh_imm_not_flushed : Z;        (** [sv_->imm->NumNotFlushed()] *)
  sh_levels : list (list FileMetaData);
  sh_merge_operator : bool;
  sh_blob_files : bool;
}.
Definition skippable_value_format (sh : lsm_shape) : bool := negb (sh_merge_operator sh) && negb (sh_blob_files sh).

(** The loop over levels 1, 2, ...: [single_level] and the files of
    [non_empty_level], [None] for -1. *)
Fixpoint find_single (ls : list (list FileMetaData)) (single_level : bool) (non_empty : option (list FileMetaData))
    : bool * option (list FileMetaData) :=
  match ls with
  | [] => (single_level, non_empty)
  | files :: rest =>
      if negb single_level then (single_level, non_empty)
      else if (length files =? 0)%nat then find_single rest single_level non_empty
      else find_single rest (match non_empty with Some _ => false | None => single_level end) (Some files)
  end.
Definition above_empty (sh : lsm_shape) : bool :=
  (sh_mem_entries sh =? 0) && (sh_imm_not_flushed sh =? 0) && (length (hd [] (sh_levels sh)) =? 0)%nat.
Definition whole_scan_authority (sh : lsm_shape) : bool :=
  let '(single_level, non_empty) := find_single (tl (sh_levels sh)) (above_empty sh) None in
  match non_empty with
  | Some files => single_level && forallb (fun f => fm_largest_seqno f =? 0) files
  | None => false
  end.

Context (new_checker : checker).
(** The merging iterator's constructor: snapshot, queries, and whether the
    leaves report in-file shadowing. *)
Context (new_smi : Z -> SABIQuery -> option CompiledQuery -> bool -> result SMI).

Definition new_bit_iter (options : BitLSMOptions) (query : BitLSMQuery) (mode : ResultMode)
    (snapshot : option Z) (fresh_snapshot : Z) (sh : lsm_shape) : result bit_iter :=
  if bool_decide (mode = Candidate) && bool_decide (snapshot = None) then Fault InvalidArgumentError else
  let read_seqno := default fresh_snapshot snapshot in
  compiled ← match mode with Candidate => Ok None | Verified => cq ← CompileQuery query options; Ok (Some cq) end;
  sabi_query ← EncodeQuery query options;
  let verified_plain := bool_decide (mode = Verified) && skippable_value_format sh in
  let authoritative := verified_plain && whole_scan_authority sh in
  let check := verified_plain && negb authoritative in
  smi ← new_smi read_seqno sabi_query compiled check;
  Ok (mkBitIter false OK smi mode compiled [] [] 0 [] authoritative 0
        (if check then Some new_checker else None) check 0 0).

(** ** A batch of candidates *)

(** The inner loop; [n] candidates are taken. *)
Fixpoint take_candidates (fuel : nat) (batch_size n : Z) (values check : bool) (smi : SMI) (latest : bytes)
    : result (list cand * SMI * bytes) :=
  if ii_Valid smi && (n <? batch_size) then
    match fuel with
    | O => Fault OutOfFuel
    | S f =>
        row ← ii_row smi;
        let '(new, latest') :=
          match parse_key (sr_key row) with
          | None => ([], latest)
          | Some ikey =>
              if beqb (pk_user_key ikey) latest then ([], latest)
              else ([mkCand (pk_user_key ikey) (if values then Some (sr_value row) else None)
                       (if check then Some (pk_sequence ikey, sr_level row, sr_file row, sr_newer row) else None)],
                    pk_user_key ikey)
          end in
        smi' ← ii_Next smi;
        '(cs, smi'', latest'') ← take_candidates f batch_size (n + zlen new) values check smi' latest';
        Ok (new ++ cs, smi'', latest'')
    end
  else Ok ([], smi, latest).

(** [dirty_idx_]: the candidates the check cannot clear. *)
Fixpoint find_dirty (i : Z) (cs : list cand) (ck : checker) : result (list Z * checker) :=
  match cs with
  | [] => Ok ([], ck)
  | c :: rest =>
      '(seqno, level, file, shadowed) ← get_or OutOfBounds (cd_check c);
      let '(dirty, ck') := if shadowed : bool then (true, ck) else may_have_newer (cd_key c) seqno level file ck in
      '(ds, ck'') ← find_dirty (i + 1) rest ck';
      Ok (if dirty : bool then i :: ds else ds, ck'')
  end.

(** [query_ctx_.compiled->Eval]; null keeps every row. *)
Definition passes (compiled : option CompiledQuery) (value : bytes) : result bool :=
  match compiled with None => Ok true | Some cq => Eval cq value end.

(** The ordered merge of clean and re-fetched candidates: [i] and [d] are the
    loop's cursors; a status ends it. *)
Fixpoint merge_batch (compiled : option CompiledQuery) (i d : Z) (cs : list cand) (dirty : list Z)
    (got : list (bytes + Status)) (keys values : list bytes) : result ((list bytes * list bytes) + Status) :=
  match cs with
  | [] => Ok (inl (keys, values))
  | c :: rest =>
      if match dirty !! Z.to_nat d with Some x => negb (x =? i) | None => true end then
        v ← get_or OutOfBounds (cd_value c);
        merge_batch compiled (i + 1) d rest dirty got (keys ++ [cd_key c]) (values ++ [v])
      else
        g ← get_or OutOfBounds (got !! Z.to_nat d);
        match g with
        | inr st =>
            if IsNotFound st then merge_batch compiled (i + 1) (d + 1) rest dirty got keys values
            else Ok (inr st)
        | inl value =>
            keep ← passes compiled value;
            if keep : bool then
              merge_batch compiled (i + 1) (d + 1) rest dirty got (keys ++ [cd_key c]) (values ++ [value])
            else merge_batch compiled (i + 1) (d + 1) rest dirty got keys values
        end
  end.

Definition kCheckSampleKeys : Z := 4096.
Definition kMinSkipRatePct : Z := 25.

(** [dirty_idx_] of a batch, and the iterator with the checker's counters. *)
Definition judge (cs : list cand) (it : bit_iter) : result (list Z * bit_iter) :=
  if check_enabled_ it then
    ck ← get_or OutOfBounds (checker_ it);
    '(ds, ck') ← find_dirty 0 cs ck;
    let checked := u64 (checked_keys_ it + zlen cs) in
    let skipped := u64 (skipped_keys_ it + u64 (zlen cs - zlen ds)) in
    let off := (kCheckSampleKeys <=? checked) && (u64 (skipped * 100) <? u64 (checked * kMinSkipRatePct)) in
    Ok (ds, mkBitIter (bi_valid it) (bi_status it) (smi_ it) (result_mode_ it) (bi_compiled it) (batch_keys_ it)
              (batch_values_ it) (batch_cur_idx_ it) (latest_user_key_added it) (authoritative_scan_ it)
              (skipped_batches_ it) (Some ck') (negb off) checked skipped)
  else Ok (seqZ 0 (zlen cs), it).

Definition set_batch (keys values : list bytes) (it : bit_iter) : bit_iter :=
  mkBitIter (bi_valid it) (bi_status it) (smi_ it) (result_mode_ it) (bi_compiled it) keys values
    (batch_cur_idx_ it) (latest_user_key_added it) (authoritative_scan_ it) (skipped_batches_ it)
    (checker_ it) (check_enabled_ it) (checked_keys_ it) (skipped_keys_ it).
Definition set_bi_status (st : Status) (it : bit_iter) : bit_iter :=
  mkBitIter (bi_valid it) st (smi_ it) (result_mode_ it) (bi_compiled it) (batch_keys_ it) (batch_values_ it)
    (batch_cur_idx_ it) (latest_user_key_added it) (authoritative_scan_ it) (skipped_batches_ it)
    (checker_ it) (check_enabled_ it) (checked_keys_ it) (skipped_keys_ it).
Definition set_bi_valid (v : bool) (it : bit_iter) : bit_iter :=
  mkBitIter v (bi_status it) (smi_ it) (result_mode_ it) (bi_compiled it) (batch_keys_ it) (batch_values_ it)
    (batch_cur_idx_ it) (latest_user_key_added it) (authoritative_scan_ it) (skipped_batches_ it)
    (checker_ it) (check_enabled_ it) (checked_keys_ it) (skipped_keys_ it).
Definition set_scan (smi : SMI) (latest : bytes) (it : bit_iter) : bit_iter :=
  mkBitIter (bi_valid it) (bi_status it) smi (result_mode_ it) (bi_compiled it) (batch_keys_ it) (batch_values_ it)
    (batch_cur_idx_ it) latest (authoritative_scan_ it) (skipped_batches_ it)
    (checker_ it) (check_enabled_ it) (checked_keys_ it) (skipped_keys_ it).
Definition set_idx (i : Z) (it : bit_iter) : bit_iter :=
  mkBitIter (bi_valid it) (bi_status it) (smi_ it) (result_mode_ it) (bi_compiled it) (batch_keys_ it) (batch_values_ it)
    i (latest_user_key_added it) (authoritative_scan_ it) (skipped_batches_ it)
    (checker_ it) (check_enabled_ it) (checked_keys_ it) (skipped_keys_ it).
Definition count_skip (it : bit_iter) : bit_iter :=
  mkBitIter (bi_valid it) (bi_status it) (smi_ it) (result_mode_ it) (bi_compiled it) (batch_keys_ it) (batch_values_ it)
    (batch_cur_idx_ it) (latest_user_key_added it) (authoritative_scan_ it) (u64 (skipped_batches_ it + 1))
    (checker_ it) (check_enabled_ it) (checked_keys_ it) (skipped_keys_ it).

(** What the candidates of one turn answer: the iterator with the batch, or
    with a failed one. *)
Definition answer_batch (cs : list cand) (it : bit_iter) : result (bit_iter + bit_iter) :=
  match result_mode_ it with
  | Candidate => Ok (inl (set_batch (map cd_key cs) (batch_values_ it) it))
  | Verified =>
      if authoritative_scan_ it then
        vs ← mapM (fun c => get_or OutOfBounds (cd_value c)) cs;
        Ok (inl (count_skip (set_batch (map cd_key cs) vs it)))
      else
        '(dirty, it') ← judge cs it;
        slices ← mapM (fun i => c ← zget cs i; Ok (cd_key c)) dirty;
        let got := match dirty with [] => [] | _ => MultiGet slices end in
        out ← merge_batch (bi_compiled it') 0 0 cs dirty got (batch_keys_ it') (batch_values_ it');
        Ok (match out with
            | inl (keys, values) => inl (set_batch keys values it')
            | inr st => inr (set_bi_status st (set_batch [] [] it'))
            end)
  end.

(** The outer loop, up to and including the last assignment of [valid_]. *)
Fixpoint fetch_loop (fuel : nat) (batch_size : Z) (it : bit_iter) : result bit_iter :=
  match batch_keys_ it with
  | _ :: _ => Ok (set_bi_valid true it)
  | [] =>
      if negb (ii_Valid (smi_ it)) then Ok it else
      match fuel with
      | O => Fault OutOfFuel
      | S f =>
          '(cs, smi, latest) ← take_candidates fuel batch_size 0 (authoritative_scan_ it || check_enabled_ it)
                                 (check_enabled_ it) (smi_ it) (latest_user_key_added it);
          let it1 := set_scan smi latest it in
          if negb (ok (ii_status smi)) then Ok (set_bi_status (ii_status smi) (set_batch [] [] it1)) else
          match cs with
          | [] => Ok it1
          | _ =>
              r ← answer_batch cs it1;
              match r with inl it2 => fetch_loop f batch_size it2 | inr failed => Ok failed end
          end
      end
  end.

Definition FetchNextBatch (fuel : nat) (batch_size : Z) (it : bit_iter) : result bit_iter :=
  let it := set_bi_valid false (set_idx 0 (set_batch [] [] it)) in
  if negb (ok (ii_status (smi_ it))) then Ok (set_bi_status (ii_status (smi_ it)) it)
  else fetch_loop fuel batch_size it.

Definition bit_SeekToFirst (fuel : nat) (it : bit_iter) : result bit_iter :=
  smi ← ii_SeekToFirst (smi_ it); FetchNextBatch fuel 1024 (set_scan smi [] it).

Definition bit_Next (fuel : nat) (it : bit_iter) : result bit_iter :=
  if negb (bi_valid it) then Fault AssertionFailed else
  let idx := u32 (batch_cur_idx_ it + 1) in
  if zlen (batch_keys_ it) <=? idx then FetchNextBatch fuel 1024 (set_idx idx it) else Ok (set_idx idx it).

Definition bit_key (it : bit_iter) : result bytes :=
  if negb (bi_valid it) then Fault AssertionFailed else zget (batch_keys_ it) (batch_cur_idx_ it).
Definition bit_value (it : bit_iter) : result bytes :=
  if negb (bi_valid it) then Fault AssertionFailed else
  match result_mode_ it with
  | Candidate => Fault LogicError
  | Verified => zget (batch_values_ it) (batch_cur_idx_ it)
  end.

(** A consumer that reads every position until [!Valid()]. *)
Fixpoint consume {B} (read : bit_iter -> result B) (fuel : nat) (it : bit_iter) : result (list B * bit_iter) :=
  if bi_valid it then
    match fuel with
    | O => Fault OutOfFuel
    | S f => x ← read it; it' ← bit_Next fuel it; '(xs, last) ← consume read f it'; Ok (x :: xs, last)
    end
  else Ok ([], it).
Definition read_row (it : bit_iter) : result (bytes * bytes) :=
  k ← bit_key it; v ← bit_value it; Ok (k, v).
Definition run {B} (read : bit_iter -> result B) (fuel : nat) (it : bit_iter) : result (list B * bit_iter) :=
  it' ← bit_SeekToFirst fuel it; consume read fuel it'.
End TopIterator.
