(* ===== verification/BatchSpec.v ===== *)
(** * What the top-level iterator returns, batch by batch

    Against the interfaces of the merge ([streams]) and of the shadow check
    ([ShadowCheckLaws]): the first row of each user key is its candidate, each
    candidate is answered as a read of its key would be or, once the iterator
    trusts its row, by that row, and the batches join to one answer. *)
From Stdlib Require Import ZArith Lia Strings.Byte Strings.String Sorting.Sorted.
From stdpp Require Import base numbers strings list sets sorting.
From S2P Require Import Prelude Options Query Externals Binning Builder Reader Index.
From S2P Require Import BinSource TableIter Iterators Shadow TopIterator.

(** ** Flags and positions *)

(** The positions of the set flags, counted from [i]. *)
Fixpoint true_at (i : Z) (flags : list bool) : list Z :=
  match flags with
  | [] => []
  | b :: rest => if b then i :: true_at (i + 1) rest else true_at (i + 1) rest
  end.
Fixpoint picked {A} (l : list A) (flags : list bool) : list A :=
  match l, flags with
  | x :: l', b :: flags' => if b then x :: picked l' flags' else picked l' flags'
  | _, _ => []
  end.

Lemma true_at_all i n : true_at i (replicate n true) = seqZ i (Z.of_nat n).
Proof.
  revert i. induction n as [|n IH]; intros i; cbn [replicate true_at]; [done|].
  rewrite IH, (seqZ_cons i (Z.of_nat (S n))) by lia. f_equal. f_equal; lia.
Qed.
Lemma true_at_ge i flags x : x ∈ true_at i flags -> i <= x.
Proof.
  revert i. induction flags as [|[] flags IH]; intros i; cbn [true_at]; [by intros ?%not_elem_of_nil|..].
  - intros [->|Hx%IH]%elem_of_cons; lia.
  - intros Hx%IH. lia.
Qed.
Lemma true_at_picked {A B} (f : A -> B) pre l flags :
  length l = length flags ->
  mapM (fun i => c ← zget (pre ++ l) i; Ok (f c)) (true_at (zlen pre) flags) = Ok (map f (picked l flags)).
Proof.
  revert pre flags. induction l as [|x l IH]; intros pre [|b flags] Hl; try done. injection Hl as Hl. cbn [true_at picked].
  assert (mapM (fun i => c ← zget (pre ++ x :: l) i; Ok (f c)) (true_at (zlen pre + 1) flags) = Ok (map f (picked l flags))) as Hrest.
  { specialize (IH (pre ++ [x]) flags Hl). rewrite <- app_assoc, zlen_app in IH. exact IH. }
  assert (zget (pre ++ x :: l) (zlen pre) = Ok x) as Hz by (apply zget_nat; by apply list_lookup_middle).
  destruct b; [|exact Hrest]. cbn [mapM]. rewrite Hz. cbn [mbind result_bind]. by rewrite Hrest.
Qed.

Section Batches.
Context `{InternalIterator SMI} {Chk : ShadowCheck}.
Context (parse_key : bytes -> option ParsedInternalKey) (MultiGet : list bytes -> list (bytes + Status)).
Context (mode : ResultMode) (compiled : option CompiledQuery) (auth track : bool).

Local Abbreviation biter := (@bit_iter SMI Chk).

(** ** Candidates *)
Definition row_key (row : scan_row) : bytes :=
  match parse_key (sr_key row) with Some p => pk_user_key p | None => [] end.
Definition row_seqno (row : scan_row) : Z :=
  match parse_key (sr_key row) with Some p => pk_sequence p | None => 0 end.

(** The rows that become candidates: those whose key differs from the one
    added last. *)
Fixpoint fresh (latest : bytes) (rows : list scan_row) : list scan_row :=
  match rows with
  | [] => []
  | row :: rest =>
      match parse_key (sr_key row) with
      | None => fresh latest rest
      | Some p => if beqb (pk_user_key p) latest then fresh latest rest else row :: fresh (pk_user_key p) rest
      end
  end.
Definition cand_of (values check : bool) (row : scan_row) : cand :=
  mkCand (row_key row) (if values then Some (sr_value row) else None)
    (if check then Some (row_seqno row, sr_level row, sr_file row, sr_newer row) else None).

Lemma fresh_incl latest rows row : row ∈ fresh latest rows -> row ∈ rows.
Proof.
  revert latest. induction rows as [|r rows IH]; intros latest; cbn [fresh]; [done|].
  destruct (parse_key (sr_key r)) as [p|]; [|intros ?; right; by eapply IH].
  destruct (beqb _ _); [intros ?; right; by eapply IH|]. intros [->|Hin]%elem_of_cons; [by left|right; by eapply IH].
Qed.
Lemma fresh_length latest rows : (length (fresh latest rows) <= length rows)%nat.
Proof.
  revert latest. induction rows as [|r rows IH]; intros latest; cbn [fresh]; [done|].
  destruct (parse_key (sr_key r)) as [p|]; [destruct (beqb _ _)|]; cbn [length]; [specialize (IH latest)|specialize (IH (pk_user_key p))|specialize (IH latest)]; lia.
Qed.

(** The candidates of a turn are the next fresh rows. *)
Lemma take_candidates_ok values check fuel batch_size n smi latest rows :
  streams smi rows -> (length rows <= fuel)%nat ->
  exists front smi' latest' rest,
    take_candidates parse_key fuel batch_size n values check smi latest = Ok (map (cand_of values check) front, smi', latest') /\
    fresh latest rows = front ++ fresh latest' rest /\ streams smi' rest /\ rest `suffix_of` rows /\
    (length front + length rest <= length rows)%nat /\
    (ii_Valid smi = true -> n < batch_size -> (length rest < length rows)%nat) /\
    (ii_Valid smi' = true -> batch_size <= n + zlen front) /\ (n <= batch_size -> n + zlen front <= batch_size).
Proof.
  intros Hs. revert fuel n latest. induction Hs as [c Hv Ho|c rows Hv Ho|c row c' rows Hv Hr Hn Hs IH]; intros fuel n latest Hf.
  1-2: eexists [], c, latest, _; destruct fuel; cbn [take_candidates]; rewrite Hv; cbn [andb];
    rewrite ?zlen_nil; split_and!; try done; try congruence; try (by auto with iters); cbn; lia.
  destruct (Z.ltb_spec n batch_size) as [Hlt|Hge].
  2: { exists [], c, latest, (row :: rows). destruct fuel; cbn [take_candidates]; rewrite Hv, (proj2 (Z.ltb_ge _ _) Hge);
       cbn [andb]; split_and!; try done; try lia; try (by econstructor); rewrite ?zlen_nil; lia. }
  destruct fuel as [|fuel]; [cbn in Hf; lia|]. cbn [length] in Hf. cbn [take_candidates fresh].
  rewrite Hv, (proj2 (Z.ltb_lt _ _) Hlt), Hr. cbn [andb mbind result_bind].
  assert (forall new latest' front0, new = map (cand_of values check) front0 -> (length front0 <= 1)%nat ->
    exists front smi' latest'' rest,
    ('(cs, smi'', l) ← take_candidates parse_key fuel batch_size (n + zlen new) values check c' latest'; Ok (new ++ cs, smi'', l))
      = Ok (map (cand_of values check) (front0 ++ front), smi', latest'') /\
    fresh latest' rows = front ++ fresh latest'' rest /\ streams smi' rest /\ rest `suffix_of` rows /\
    (length (front0 ++ front) + length rest <= S (length rows))%nat /\
    (ii_Valid smi' = true -> batch_size <= n + zlen (front0 ++ front)) /\
    n + zlen (front0 ++ front) <= batch_size) as Hgo.
  { intros new latest' front0 -> Hf0. destruct (IH fuel (n + zlen (map (cand_of values check) front0)) latest' ltac:(lia))
      as (front & smi' & latest'' & rest & E & Hfr & Hs' & Hsuf & Hlen & _ & Hb & Hc).
    exists front, smi', latest'', rest. rewrite E. cbn [mbind result_bind]. rewrite map_app.
    unfold zlen in *. rewrite length_map in *. rewrite length_app. split_and!; try done; [lia| |lia].
    intros Hv'. specialize (Hb Hv'). lia. }
  assert (forall rest, rest `suffix_of` rows -> rest `suffix_of` row :: rows /\ (length rest < length (row :: rows))%nat) as Hsuf'.
  { intros rest Hsf. split; [by apply suffix_cons_r|]. apply suffix_length in Hsf. cbn. lia. }
  destruct (parse_key (sr_key row)) as [p|] eqn:Ep; [destruct (beqb (pk_user_key p) latest)|];
    rewrite Hn; cbn [mbind result_bind].
  - destruct (Hgo [] latest [] eq_refl ltac:(cbn; lia)) as (front & smi' & l' & rest & E & Hfr & Hs' & Hsf & Hlen & Hb & Hc).
    destruct (Hsuf' rest Hsf). exists front, smi', l', rest. by split_and!.
  - destruct (Hgo [mkCand (pk_user_key p) (if values then Some (sr_value row) else None)
      (if check then Some (pk_sequence p, sr_level row, sr_file row, sr_newer row) else None)] (pk_user_key p) [row])
      as (front & smi' & l' & rest & E & Hfr & Hs' & Hsf & Hlen & Hb & Hc); [by cbn; unfold cand_of, row_key, row_seqno; rewrite Ep|cbn; lia|].
    destruct (Hsuf' rest Hsf). exists (row :: front), smi', l', rest. rewrite Hfr. by split_and!.
  - destruct (Hgo [] latest [] eq_refl ltac:(cbn; lia)) as (front & smi' & l' & rest & E & Hfr & Hs' & Hsf & Hlen & Hb & Hc).
    destruct (Hsuf' rest Hsf). exists front, smi', l', rest. by split_and!.
Qed.

(** ** Answers *)

(** A read at the snapshot, and the query's verdict on a value. *)
Context (get : bytes -> option bytes) (matches : bytes -> bool).
Definition answer (uk : bytes) : option (bytes * bytes) :=
  match get uk with Some v => if matches v then Some (uk, v) else None | None => None end.

Context (inv : checker -> Prop) (unshadowed : bytes -> Z -> Z -> Z -> Prop) `{!ShadowCheckLaws Chk inv unshadowed}.
(** What [MultiGet] promises: values and [NotFound] as a read says; any other
    status is a failure. *)
Definition fetched (k : bytes) (r : bytes + Status) : Prop :=
  match r with inl v => get k = Some v | inr st => ok st = false /\ (IsNotFound st = true -> get k = None) end.
Context (HMultiGet : forall ks, Forall2 fetched ks (MultiGet ks)).
Context (Hpasses : forall k v, get k = Some v -> passes compiled v = Ok (matches v)).

(** What the iterator may conclude from a row it trusts: one of an
    authoritative scan, or one its source and the shadow check clear. *)
Context (served : scan_row -> Prop).
Definition row_good (row : scan_row) : Prop :=
  (auth = true -> served row) /\
  (track = true -> sr_newer row = false -> unshadowed (row_key row) (row_seqno row) (sr_level row) (sr_file row) -> served row).

(** What a candidate contributes to the batches: its key alone in Candidate
    mode, where values are not read; in Verified mode what a read of the key
    answers, or the row itself when it is trusted. *)
Definition emitted (m : ResultMode) (row : scan_row) (x : option (bytes * bytes)) : Prop :=
  match m with
  | Candidate => x = Some (row_key row, [])
  | Verified => x = answer (row_key row) \/ served row /\ x = Some (row_key row, sr_value row)
  end.
Inductive emits (m : ResultMode) : list scan_row -> list (bytes * bytes) -> Prop :=
  | emits_nil : emits m [] []
  | emits_cons row x rows out : emitted m row x -> emits m rows out -> emits m (row :: rows) (option_list x ++ out).

Lemma emits_app m rows rows' out out' : emits m rows out -> emits m rows' out' -> emits m (rows ++ rows') (out ++ out').
Proof. induction 1 as [|row x rows out Hx _ IH]; [done|]. intros Hr. rewrite <- app_assoc. constructor; auto. Qed.
Lemma emits_length m rows out : emits m rows out -> (length out <= length rows)%nat.
Proof. induction 1 as [|row [x|] rows out _ _ IH]; cbn; lia. Qed.
Lemma emits_total m rows : exists out, emits m rows out.
Proof.
  induction rows as [|row rows [out IH]]; [eexists; constructor|].
  destruct m; eexists; (econstructor; [cbn; by eauto|exact IH]).
Qed.
Lemma emits_map m (f : scan_row -> bytes * bytes) rows : Forall (fun row => emitted m row (Some (f row))) rows -> emits m rows (map f rows).
Proof. induction 1; [constructor|]. by apply (emits_cons _ _ (Some _)). Qed.
Lemma emits_candidates rows out : emits Candidate rows out -> map fst out = map row_key rows.
Proof. induction 1 as [|row x rows out -> _ IH]; [done|]. cbn. by rewrite IH. Qed.
Lemma emits_elem m rows out x : emits m rows out -> x ∈ out -> exists row, row ∈ rows /\ emitted m row (Some x).
Proof.
  induction 1 as [|row y rows out Hy _ IH]; [by intros ?%not_elem_of_nil|]. intros [Hx|Hx]%elem_of_app.
  - exists row. split; [by left|]. destruct y as [y|]; [|by apply not_elem_of_nil in Hx]. by apply list_elem_of_singleton in Hx as ->.
  - destruct (IH Hx) as (r & ? & ?). exists r. split; [by right|done].
Qed.
Lemma emits_contain m rows out row : emits m rows out -> row ∈ rows -> exists x, emitted m row x /\ option_list x ⊆ out.
Proof.
  induction 1 as [|r y rows out Hy _ IH]; [by intros ?%not_elem_of_nil|]. intros [->|Hr]%elem_of_cons.
  - exists y. split; [done|]. intros z Hz. apply elem_of_app. by left.
  - destruct (IH Hr) as (x & ? & Hx). exists x. split; [done|]. intros z Hz. apply elem_of_app. auto.
Qed.

Lemma find_dirty_ok i values front ck :
  track = true -> Forall row_good front -> inv ck ->
  exists flags ck', find_dirty i (map (cand_of values true) front) ck = Ok (true_at i flags, ck') /\ inv ck' /\
    Forall2 (fun row b => b = false -> served row) front flags.
Proof.
  intros Ht Hg. revert i ck. induction Hg as [|row front [_ Hrow] _ IH]; intros i ck Hck; cbn [map find_dirty cand_of cd_check get_or mbind result_bind].
  { by exists [], ck. }
  set (d := if sr_newer row then _ else _). destruct d as [b ck1] eqn:Ed. unfold d in Ed.
  assert (inv ck1 /\ (b = false -> served row)) as [Hck1 Hb].
  { destruct (sr_newer row); [by injection Ed as <- <-|]. destruct (check_sound _ _ _ _ _ _ _ Hck Ed) as [? Hun]. auto. }
  destruct (IH (i + 1) ck1 Hck1) as (flags & ck' & E & Hck' & Hfl). rewrite E. cbn [mbind result_bind].
  exists (b :: flags), ck'. split_and!; [by destruct b|done|by constructor].
Qed.

(** The ordered merge answers every candidate, or reports a failed fetch. *)
Definition merged (front : list scan_row) (keys vals : list bytes) (r : result ((list bytes * list bytes) + Status)) : Prop :=
  (exists st, r = Ok (inr st) /\ ok st = false) \/
  exists out, emits Verified front out /\ r = Ok (inl (keys ++ map fst out, vals ++ map snd out)).

Lemma merged_step row x front keys vals r :
  emitted Verified row (Some x) -> merged front (keys ++ [fst x]) (vals ++ [snd x]) r -> merged (row :: front) keys vals r.
Proof.
  intros Ha [Hf|(out & Ho & ->)]; [by left|]. right. exists (x :: out).
  split; [by apply (emits_cons _ row (Some x))|]. cbn [map]. by rewrite <- !app_assoc.
Qed.
Lemma merged_none row front keys vals r :
  answer (row_key row) = None -> merged front keys vals r -> merged (row :: front) keys vals r.
Proof.
  intros Ha [Hf|(out & Ho & ->)]; [by left|]. right. exists out. split; [|done].
  apply (emits_cons _ row None); [left; by rewrite Ha|done].
Qed.

Lemma merge_batch_ok check i (d : nat) front flags dirty got keys vals :
  Forall2 (fun row b => b = false -> served row) front flags -> (check = false -> Forall (fun b => b = true) flags) ->
  drop d dirty = true_at i flags ->
  Forall2 fetched (map row_key (picked front flags)) (drop d got) ->
  merged front keys vals
    (merge_batch compiled i (Z.of_nat d) (map (cand_of check check) front) dirty got keys vals).
Proof.
  intros Hfl. revert i d keys vals. induction Hfl as [|row b front flags Hb Hfl IH]; intros i d keys vals Hall Hd Hg;
    cbn [map merge_batch].
  { right. exists []. rewrite !app_nil_r. split; [constructor|done]. }
  assert (check = false -> Forall (fun b => b = true) flags) as Hall' by (by intros [_ ?]%Hall%Forall_cons).
  rewrite Nat2Z.id. cbn [true_at picked] in Hd, Hg. destruct b.
  - assert (dirty !! d = Some i) as Hi by (rewrite <- (Nat.add_0_r d), <- lookup_drop, Hd; done).
    rewrite (drop_S _ _ _ Hi) in Hd. injection Hd as Hd. rewrite Hi, Z.eqb_refl. cbn [negb].
    cbn [map] in Hg. inversion Hg as [|k g ks gs Hf Hgs E1 E2]; subst k ks.
    assert (got !! d = Some g) as Hgd by (rewrite <- (Nat.add_0_r d), <- lookup_drop, <- E2; done).
    rewrite (drop_S _ _ _ Hgd) in E2. injection E2 as ->. rewrite Hgd. cbn [get_or mbind result_bind].
    replace (Z.of_nat d + 1) with (Z.of_nat (S d)) by lia.
    assert (forall keys vals, merged front keys vals (merge_batch compiled (i + 1) (Z.of_nat (S d))
      (map (cand_of check check) front) dirty got keys vals)) as Hnext by (intros; by apply IH).
    destruct g as [v|st]; cbn [fetched] in Hf.
    + rewrite (Hpasses _ _ Hf). cbn [mbind result_bind]. destruct (matches v) eqn:Em.
      * eapply (merged_step row (row_key row, v)); [left; unfold answer; by rewrite Hf, Em|apply Hnext].
      * apply merged_none; [unfold answer; by rewrite Hf, Em|apply Hnext].
    + destruct Hf as [Hok Hnf]. destruct (IsNotFound st); [|left; by exists st].
      apply merged_none; [unfold answer; by rewrite (Hnf eq_refl)|apply Hnext].
  - assert (match dirty !! d with Some x => negb (x =? i) | None => true end = true) as ->.
    { destruct (dirty !! d) as [x|] eqn:Hx; [|done]. apply negb_true_iff, Z.eqb_neq.
      rewrite (drop_S _ _ _ Hx) in Hd. assert (x ∈ true_at (i + 1) flags) as Hin by (rewrite <- Hd; by left).
      apply true_at_ge in Hin. lia. }
    destruct check; [|by specialize (Hall eq_refl) as [? _]%Forall_cons].
    cbn [cand_of cd_value get_or mbind result_bind cd_key].
    eapply (merged_step row (row_key row, sr_value row)); [right; split; [by apply Hb|done]|]. by apply IH.
Qed.

(** ** One turn of the outer loop *)

Record iter_inv (it : biter) (rest : list scan_row) : Prop := {
  iv_mode : result_mode_ it = mode;
  iv_compiled : bi_compiled it = compiled;
  iv_auth : authoritative_scan_ it = auth;
  iv_status : ok (bi_status it) = true;
  iv_streams : streams (smi_ it) rest;
  iv_rows : Forall row_good rest;
  iv_check : check_enabled_ it = true -> track = true /\ exists ck, checker_ it = Some ck /\ inv ck;
}.
Definition has_batch (it : biter) (out : list (bytes * bytes)) : Prop :=
  batch_keys_ it = map fst out /\ (mode = Verified -> batch_values_ it = map snd out).

Lemma judge_ok front it rest :
  iter_inv it rest -> Forall row_good front -> auth = false ->
  exists flags it', judge (map (cand_of (auth || check_enabled_ it) (check_enabled_ it)) front) it = Ok (true_at 0 flags, it') /\
    iter_inv it' rest /\ Forall2 (fun row b => b = false -> served row) front flags /\
    (check_enabled_ it = false -> Forall (fun b => b = true) flags) /\
    batch_keys_ it' = batch_keys_ it /\ batch_values_ it' = batch_values_ it /\
    latest_user_key_added it' = latest_user_key_added it /\ smi_ it' = smi_ it /\ bi_valid it' = bi_valid it /\
    batch_cur_idx_ it' = batch_cur_idx_ it.
Proof.
  intros Hinv Hg ->. unfold judge. cbn [orb]. destruct (check_enabled_ it) eqn:Ec.
  - destruct (iv_check _ _ Hinv Ec) as [Ht (ck & -> & Hck)]. cbn [get_or mbind result_bind].
    destruct (find_dirty_ok 0 true front ck Ht Hg Hck) as (flags & ck' & E & Hck' & Hfl). rewrite E. cbn [mbind result_bind].
    eexists flags, _. split; [done|]. destruct Hinv. split_and!; try done. split; try done. intros _. split; [done|]. by exists ck'.
  - exists (replicate (length front) true), it. split_and!; try done.
    + rewrite true_at_all. unfold zlen. by rewrite length_map.
    + apply Forall2_replicate_r; [done|]. apply Forall_forall. done.
    + intros _. by apply Forall_replicate.
Qed.

(** The candidates of a turn, answered into an empty batch. *)
Lemma answer_batch_ok front it rest :
  iter_inv it rest -> Forall row_good front -> batch_keys_ it = [] -> batch_values_ it = [] ->
  (exists failed, answer_batch MultiGet (map (cand_of (auth || check_enabled_ it) (check_enabled_ it)) front) it = Ok (inr failed) /\
     bi_valid failed = bi_valid it /\ ok (bi_status failed) = false) \/
  exists it', answer_batch MultiGet (map (cand_of (auth || check_enabled_ it) (check_enabled_ it)) front) it = Ok (inl it') /\
    iter_inv it' rest /\ (exists out, emits mode front out /\ has_batch it' out) /\ (batch_keys_ it' = [] -> batch_values_ it' = []) /\
    latest_user_key_added it' = latest_user_key_added it /\ bi_valid it' = bi_valid it /\
    batch_cur_idx_ it' = batch_cur_idx_ it /\ smi_ it' = smi_ it.
Proof.
  intros Hinv Hg Hk Hv. pose proof (iv_mode _ _ Hinv) as Hm. unfold answer_batch, has_batch. rewrite Hm.
  destruct mode.
  2: { right. eexists. split; [done|]. split_and!; try done; [destruct Hinv; by split|].
       exists (map (fun row => (row_key row, [])) front). split; [apply emits_map, Forall_forall; done|].
       cbn [set_batch batch_keys_]. by rewrite !map_map. }
  rewrite (iv_auth _ _ Hinv). destruct auth eqn:Ea.
  - right. cbn [orb]. assert (mapM (fun c => get_or OutOfBounds (cd_value c)) (map (cand_of true (check_enabled_ it)) front)
      = Ok (map sr_value front)) as ->.
    { apply mapM_Ok. rewrite Forall2_fmap. apply Forall_Forall2_diag, Forall_forall. done. }
    cbn [mbind result_bind]. eexists. split; [done|].
    split_and!; try done; [destruct Hinv; by split| |cbn [count_skip set_batch batch_keys_ batch_values_]; by destruct front].
    exists (map (fun row => (row_key row, sr_value row)) front). split.
    + apply emits_map. eapply Forall_impl; [exact Hg|]. intros row [Hc _]. right. split; [by apply Hc|done].
    + cbn [count_skip set_batch batch_keys_ batch_values_]. by rewrite !map_map.
  - destruct (judge_ok front it rest Hinv Hg Ea) as (flags & it' & E & Hinv' & Hfl & Hall & Ek & Evs & El & Es & Ev & Ei).
    rewrite Ea in E. cbn [orb] in E |- *. rewrite E. cbn [mbind result_bind].
    pose proof (Forall2_length _ _ _ Hfl) as Hlen.
    pose proof (true_at_picked cd_key [] (map (cand_of (check_enabled_ it) (check_enabled_ it)) front) flags) as Hsl.
    rewrite length_map in Hsl. specialize (Hsl Hlen). cbn [app] in Hsl. change (zlen []) with 0 in Hsl. rewrite Hsl.
    cbn [mbind result_bind]. rewrite (iv_compiled _ _ Hinv'), Ek, Hk, Evs, Hv.
    assert (map cd_key (picked (map (cand_of (check_enabled_ it) (check_enabled_ it)) front) flags) = map row_key (picked front flags)) as ->.
    { clear. revert flags. induction front as [|row front IH]; intros [|[] flags]; cbn; try done; by rewrite IH. }
    destruct (merge_batch_ok (check_enabled_ it) 0 0 front flags (true_at 0 flags)
      (match true_at 0 flags with [] => [] | _ => MultiGet (map row_key (picked front flags)) end) [] [] Hfl Hall)
      as [(st & Em & Hst)|(out & Hout & Em)]; [by rewrite drop_0| | |].
    { rewrite drop_0. destruct (true_at 0 flags) eqn:Et; [|apply HMultiGet].
      pose proof (true_at_picked row_key [] front flags ltac:(lia)) as Hp. cbn [app] in Hp. change (zlen []) with 0 in Hp.
      rewrite Et in Hp. injection Hp as <-. constructor. }
    + left. change (Z.of_nat 0) with 0 in Em. rewrite Em. cbn [mbind result_bind]. eexists. split; [done|]. done.
    + right. change (Z.of_nat 0) with 0 in Em. rewrite Em. cbn [mbind result_bind]. eexists. split; [done|].
      split_and!; try done; [destruct Hinv'; by split|by exists out|]. cbn [set_batch batch_keys_ batch_values_ app].
      by destruct out.
Qed.

(** The batch a fetch leaves: what the next rows emit. *)
Definition fetched_batch (batch_size : Z) (it : biter) (rest : list scan_row) (it' : biter) : Prop :=
  (bi_valid it' = false /\ ok (bi_status it') = false) \/
  exists front out rest', fresh (latest_user_key_added it) rest = front ++ fresh (latest_user_key_added it') rest' /\
    emits mode front out /\ has_batch it' out /\ iter_inv it' rest' /\ batch_cur_idx_ it' = 0 /\
    bi_valid it' = (match out with [] => false | _ => true end) /\
    (out = [] -> fresh (latest_user_key_added it') rest' = []) /\ (length out + length rest' <= length rest)%nat /\ zlen out <= batch_size.

Lemma iter_inv_scan it rest smi latest rest' :
  iter_inv it rest -> streams smi rest' -> rest' `suffix_of` rest -> iter_inv (set_scan smi latest it) rest'.
Proof.
  intros [] Hs [pre ->]. apply Forall_app in iv_rows0 as [_ ?]. by split.
Qed.

Lemma fetch_loop_ok fuel batch_size it rest :
  0 < batch_size -> iter_inv it rest -> ok (ii_status (smi_ it)) = true -> batch_keys_ it = [] -> batch_values_ it = [] -> bi_valid it = false ->
  batch_cur_idx_ it = 0 -> (length rest < fuel)%nat ->
  exists it', fetch_loop parse_key MultiGet fuel batch_size it = Ok it' /\ fetched_batch batch_size it rest it'.
Proof.
  intros Hbs. revert it rest. induction fuel as [|fuel IH]; intros it rest Hinv Ho Hk Hv Hva Hi Hf; [lia|].
  cbn [fetch_loop]. rewrite Hk. pose proof (iv_streams _ _ Hinv) as Hs.
  assert (forall it2 rest2, iter_inv it2 rest2 -> batch_keys_ it2 = [] -> batch_values_ it2 = [] -> bi_valid it2 = false ->
    batch_cur_idx_ it2 = 0 -> fresh (latest_user_key_added it2) rest2 = [] -> fresh (latest_user_key_added it) rest = [] ->
    (length rest2 <= length rest)%nat -> fetched_batch batch_size it rest it2) as Hend.
  { intros it2 rest2 H1 H2 H3 H4 H5 H6 H7 H8. right. exists [], [], rest2. rewrite H6, H7.
    split_and!; try done; [constructor|]. unfold zlen. cbn. lia. }
  destruct (ii_Valid (smi_ it)) eqn:Ev; cbn [negb].
  2: { exists it. split; [done|]. rewrite (streams_none _ _ Hs Ev Ho) in *. by eapply Hend. }
  destruct (take_candidates_ok (authoritative_scan_ it || check_enabled_ it) (check_enabled_ it) (S fuel) batch_size 0
    (smi_ it) (latest_user_key_added it) rest Hs ltac:(lia))
    as (front & smi & latest & rest1 & E & Hfr & Hs1 & Hsuf & Hlen & Hless & Hfull & Hcap). rewrite E. cbn [mbind result_bind].
  specialize (Hless Ev Hbs). destruct (ok (ii_status smi)) eqn:Eo; cbn [negb].
  2: { eexists. split; [done|]. left. done. }
  pose proof (iter_inv_scan it rest smi latest rest1 Hinv Hs1 Hsuf) as Hinv1.
  destruct front as [|row front0] eqn:Efr; cbn [map].
  { eexists. split; [done|]. assert (rest1 = []) as ->.
    { apply (streams_none _ _ Hs1); [|done]. apply not_true_iff_false. intros Hv1. specialize (Hfull Hv1). unfold zlen in Hfull. cbn in Hfull. lia. }
    by apply (Hend _ []); try done; cbn in *; lia. }
  rewrite <- Efr in *. assert (Forall row_good front) as Hgf.
  { apply Forall_forall. intros r Hr. apply (proj1 (Forall_forall _ _) (iv_rows _ _ Hinv)).
    apply (fresh_incl (latest_user_key_added it)). rewrite Hfr. apply elem_of_app. by left. }
  change (cand_of _ _ row :: map _ front0) with (map (cand_of (authoritative_scan_ it || check_enabled_ it) (check_enabled_ it)) (row :: front0)).
  rewrite <- Efr, (iv_auth _ _ Hinv).
  destruct (answer_batch_ok front (set_scan smi latest it) rest1 Hinv1 Hgf Hk Hv) as
    [(failed & E2 & Hfv & Hfs)|(it2 & E2 & Hinv2 & (out & Hem & Hb2) & Hbv2 & Hl2 & Hv2 & Hi2 & Hsm2)]; cbn [check_enabled_ set_scan] in E2;
    rewrite E2; cbn [mbind result_bind].
  { eexists. split; [done|]. left. by rewrite Hfv. }
  cbn in Hl2, Hv2, Hi2, Hsm2. pose proof (emits_length _ _ _ Hem) as Hle. destruct out as [|x out].
  - destruct (IH it2 rest1) as (it' & E3 & Hfb); try done; try congruence; [apply Hb2|apply Hbv2, Hb2|lia|].
    exists it'. split; [done|]. destruct Hfb as [?|(front2 & out & rest' & He & Hem2 & Hb & Hiv & Hix & Hvl & Hz & Hln & Hc)]; [by left|].
    right. exists (front ++ front2), out, rest'. split_and!; try done; [|by apply (emits_app _ _ _ [] out)|lia].
    by rewrite Hfr, <- Hl2, He, app_assoc.
  - exists (set_bi_valid true it2). split; [destruct fuel; cbn [fetch_loop]; by rewrite (proj1 Hb2)|]. right.
    exists front, (x :: out), rest1. split_and!; try done; [|destruct Hinv2; by split|by rewrite <- Hi|lia|specialize (Hcap ltac:(lia)); unfold zlen in *; lia].
    cbn [set_bi_valid latest_user_key_added]. by rewrite Hfr, Hl2.
Qed.

Lemma FetchNextBatch_ok fuel it rest :
  iter_inv it rest -> (length rest < fuel)%nat ->
  exists it', FetchNextBatch parse_key MultiGet fuel 1024 it = Ok it' /\ fetched_batch 1024 it rest it'.
Proof.
  intros Hinv Hf. unfold FetchNextBatch.
  destruct (ok (ii_status _)) eqn:Eo; cbn [negb].
  2: { eexists. split; [done|]. by left. }
  destruct (fetch_loop_ok fuel 1024 (set_bi_valid false (set_idx 0 (set_batch [] [] it))) rest) as (it' & E & Hfb);
    try done; [destruct Hinv; by split|]. by exists it'.
Qed.

(** ** The whole run *)

(** Positioned on [items], the batch's rest, with the candidates [todo] to come. *)
Definition serving (it : biter) (items : list (bytes * bytes)) (todo : list scan_row) (budget : nat) : Prop :=
  exists out rest, has_batch it out /\ iter_inv it rest /\ bi_valid it = true /\
    0 <= batch_cur_idx_ it < zlen out /\ zlen out <= 1024 /\
    items = drop (Z.to_nat (batch_cur_idx_ it)) out /\ todo = fresh (latest_user_key_added it) rest /\
    (length items + length rest <= budget)%nat.

(** What a consumer reads at a position. *)
Context {B : Type} (read : biter -> result B) (shown : bytes * bytes -> B).
Definition reads : Prop := forall it out x, has_batch it out -> result_mode_ it = mode -> bi_valid it = true ->
  0 <= batch_cur_idx_ it -> out !! Z.to_nat (batch_cur_idx_ it) = Some x -> read it = Ok (shown x).
Context (Hreads : reads).

Lemma fetched_serving it rest it' :
  fetched_batch 1024 it rest it' ->
  (bi_valid it' = false /\ (ok (bi_status it') = true -> emits mode (fresh (latest_user_key_added it) rest) [])) \/
  exists front out todo, fresh (latest_user_key_added it) rest = front ++ todo /\ emits mode front out /\ serving it' out todo (length rest).
Proof.
  intros [[Hv Hs]|(front & out & rest' & He & Hem & Hb & Hinv & Hi & Hv & Hz & Hlen & Hc)]; [left; by rewrite Hs|].
  destruct out as [|x out]; [left; split; [done|]; intros _; by rewrite He, (Hz eq_refl), app_nil_r|right].
  exists front, (x :: out), (fresh (latest_user_key_added it') rest'). split; [done|]. split; [done|].
  exists (x :: out), rest'. rewrite Hi. split_and!; done.
Qed.

(** What the consumption of a position gives: the batch's rest and, as far as
    no failure stops it, what the candidates to come emit. *)
Definition consumed (items : list (bytes * bytes)) (todo : list scan_row) (r : result (list B * biter)) : Prop :=
  exists more out last, emits mode todo more /\ r = Ok (out, last) /\ bi_valid last = false /\
    out `prefix_of` map shown (items ++ more) /\ (ok (bi_status last) = true -> out = map shown (items ++ more)).

Lemma consumed_cons x items todo r :
  consumed items todo r -> consumed (x :: items) todo ('(xs, last) ← r; Ok (shown x :: xs, last)).
Proof.
  intros (more & out & last & Hem & -> & Hv & Hp & Hok). exists more, (shown x :: out), last. cbn [mbind result_bind app map].
  split_and!; try done; [by apply prefix_cons|]. intros Ho. by rewrite Hok.
Qed.
Lemma consumed_app front items todo r : emits mode front items -> consumed items todo r -> consumed [] (front ++ todo) r.
Proof.
  intros Hf (more & out & last & Hem & -> & Hv & Hp & Hok). exists (items ++ more), out, last. split_and!; try done. by apply emits_app.
Qed.
Lemma consumed_stop fuel it todo :
  bi_valid it = false -> (ok (bi_status it) = true -> emits mode todo []) -> consumed [] todo (consume parse_key MultiGet read fuel it).
Proof.
  intros Hv Hok. assert (consume parse_key MultiGet read fuel it = Ok ([], it)) as -> by (destruct fuel; cbn [consume]; by rewrite Hv).
  destruct (ok (bi_status it)) eqn:Eo.
  - exists [], [], it. split_and!; [by apply Hok|done..|apply prefix_nil|done].
  - destruct (emits_total mode todo) as [more Hm]. exists more, [], it. split_and!; [done..|apply prefix_nil|intros Eo2; congruence].
Qed.

Lemma consume_ok fuel it items todo budget :
  serving it items todo budget -> (budget < fuel)%nat -> consumed items todo (consume parse_key MultiGet read fuel it).
Proof.
  revert it items todo budget. induction fuel as [|fuel IH]; intros it items todo budget Hs Hf; [lia|].
  destruct Hs as (out & rest & Hb & Hinv & Hv & Hi & Hc & -> & -> & Hbud). cbn [consume]. rewrite Hv.
  destruct (lookup_lt_is_Some_2 out (Z.to_nat (batch_cur_idx_ it))) as [x Hx]; [unfold zlen in Hi; lia|].
  rewrite (Hreads it out x Hb (iv_mode _ _ Hinv) Hv ltac:(lia) Hx). cbn [mbind result_bind].
  rewrite (drop_S _ _ _ Hx) in Hbud |- *. cbn [length] in Hbud.
  unfold bit_Next. rewrite Hv. cbn [negb]. rewrite u32_small by (unfold is_u32; lia).
  assert (zlen (batch_keys_ it) = zlen out) as -> by (rewrite (proj1 Hb); unfold zlen; by rewrite length_map).
  destruct (Z.leb_spec (zlen out) (batch_cur_idx_ it + 1)) as [Hend|Hmore].
  - rewrite drop_ge in Hbud |- * by (unfold zlen in Hend; lia). cbn [length] in Hbud.
    destruct (FetchNextBatch_ok (S fuel) (set_idx (batch_cur_idx_ it + 1) it) rest) as (it' & E & Hfb);
      [destruct Hinv; by split|lia|]. rewrite E. cbn [mbind result_bind]. apply consumed_cons.
    apply fetched_serving in Hfb as [[Hv' Hok]|(front & out' & todo & Hfr & Hem & Hserve)]; cbn [set_idx latest_user_key_added] in *.
    + by apply consumed_stop.
    + rewrite Hfr. eapply consumed_app; [done|]. eapply IH; [done|lia].
  - cbn [mbind result_bind]. apply consumed_cons. apply (IH _ _ _ (budget - 1)%nat); [|lia].
    exists out, rest. cbn [set_idx batch_cur_idx_]. replace (Z.to_nat (batch_cur_idx_ it + 1)) with (S (Z.to_nat (batch_cur_idx_ it))) by lia.
    split_and!; try done; try lia. destruct Hinv; by split.
Qed.

(** The run of a fresh iterator over a merge of [rows]. *)
Lemma run_ok fuel it rows :
  seeks (smi_ it) rows -> result_mode_ it = mode -> bi_compiled it = compiled -> authoritative_scan_ it = auth ->
  ok (bi_status it) = true -> (check_enabled_ it = true -> track = true /\ exists ck, checker_ it = Some ck /\ inv ck) ->
  Forall row_good rows -> (length rows < fuel)%nat ->
  exists all out last, emits mode (fresh [] rows) all /\ run parse_key MultiGet read fuel it = Ok (out, last) /\ bi_valid last = false /\
    out `prefix_of` map shown all /\ (ok (bi_status last) = true -> out = map shown all).
Proof.
  intros (smi & Es & Hs) Hm Hcq Ha Hst Hck Hg Hf. unfold run, bit_SeekToFirst. rewrite Es. cbn [mbind result_bind].
  destruct (FetchNextBatch_ok fuel (set_scan smi [] it) rows) as (it' & E & Hfb); [by split|done|].
  rewrite E. cbn [mbind result_bind]. change (consumed [] (fresh [] rows) (consume parse_key MultiGet read fuel it')).
  apply fetched_serving in Hfb as [[Hv Hok]|(front & out & todo & Hfr & Hem & Hserve)]; cbn [set_scan latest_user_key_added] in *.
  - by apply consumed_stop.
  - rewrite Hfr. eapply consumed_app; [done|]. by eapply consume_ok.
Qed.
End Batches.

Lemma reads_row {SMI} `{ShadowCheck} : reads Verified (SMI := SMI) read_row (fun x => x).
Proof.
  intros it out x [Hk Hv] Hm Hva Hi Hx. unfold read_row, bit_key, bit_value. rewrite Hva, Hm, Hk, (Hv eq_refl). cbn [negb].
  rewrite (proj2 (zget_lookup (map fst out) _ (fst x))) by (rewrite list_lookup_fmap, Hx; done).
  rewrite (proj2 (zget_lookup (map snd out) _ (snd x))) by (rewrite list_lookup_fmap, Hx; done). by destruct x.
Qed.
Lemma reads_key {SMI} `{ShadowCheck} : reads Candidate (SMI := SMI) bit_key fst.
Proof.
  intros it out x [Hk _] Hm Hva Hi Hx. unfold bit_key. rewrite Hva, Hk. cbn [negb].
  by apply zget_lookup; rewrite list_lookup_fmap, Hx.
Qed.
