(* ===== verification/LsmScan.v ===== *)
(** * A scan of the whole tree

    The merging iterator over memtables, level-0 files and deeper levels, put
    together from the leaves: which rows it gives, in which order, and what
    each row tells about its source. *)
From Stdlib Require Import ZArith Lia Strings.Byte Strings.String Sorting.Sorted.
From stdpp Require Import base numbers strings list sets sorting.
From S2P Require Import Prelude Options Row Okey BytesList Query QuerySpec Externals Intern.
From S2P Require Import RangeBuf Binning Builder Reader Index ReaderSpec BuilderSpec BlobSpec.
From S2P Require Import SstIndex BinSource TableIter QueryBitmap TableScan TableSpec.
From S2P Require Import Iterators Merging Lsm.

Section LsmScan.
Context `{RoaringOps} `{!RoaringLaws _} {Src : BinSource}.

(** What the scan uses of an opened [BlockBasedTable]: its index entry, where
    the index's bins come from, its data blocks and its filter. *)
Record table_reader := mkTableReader {
  tb_udi : SABIReader + Status;
  tb_bins : bin_state;
  tb_load : BlockHandle -> list (bytes * bytes) + Status;
  tb_filter : option (bytes -> bytes -> bool);
  tb_whole_key : bool;
}.

Context (parse_key : bytes -> option ParsedInternalKey) (user_key_of : bytes -> bytes).
Context (icmp : bytes -> bytes -> comparison) (lookup_ikey : bytes -> Z -> bytes).
Context (R : Z) (db : lsm) (FindTable : FileMetaData -> table_reader + Status).

(** The constructors of the leaves and of the merge, for one query. *)
Section New.
Context (read_seqno : Z) (sq : SABIQuery) (compiled : option CompiledQuery) (track : bool).
Definition new_sti (t : table_reader) (level file : Z) : result sti :=
  it ← new_table_iter (tb_udi t) sq (tb_bins t); Ok (mkSti level file (tb_load t) it).
#[local] Instance sti_iterator : InternalIterator sti :=
  table_iterator read_seqno compiled track R parse_key user_key_of.
Definition scan_merging : result merging :=
  new_merging FindTable new_sti (map (mem_child read_seqno compiled parse_key) (l_mems db)) (l_levels db).
End New.

(** ** What the leaves give *)
Context (HR : 0 < R) (read_seqno : Z).
Context (o : BitLSMOptions) (lay : ValueLayout) (q : BitLSMQuery) (sq : SABIQuery) (cq : CompiledQuery).
Context (Hok : schema_ok o) (Hfit : schema_fits (attr_specs o)) (Hnum : is_u32 (attr_num o)).
Context (Hlay : mkLayout o = Ok lay) (Hwf : query_wf q) (Hval : Validate q o = OK) (Hqf : query_fits q).
Context (Esq : EncodeQuery q o = Ok sq) (Ecq : CompileQuery q o = Ok cq).
Context (Hdb : lsm_ok parse_key user_key_of icmp db) (Hic : icmp_ok parse_key icmp lookup_ikey read_seqno).
Context (Hicmp : StrictWeak (fun a b : bytes => match icmp a b with Gt => true | _ => false end)).
Context (verify track : bool).
Local Abbreviation compiled := (if verify then Some cq else None).
Local Abbreviation Sti := (sti_iterator read_seqno compiled track).
Local Abbreviation le := (key_le icmp).

(** Stored values are rows of the schema. *)
Definition values_ok : Prop := forall e, e ∈ all_entries db -> exists r, entry_row parse_key (ExtractAll lay) e r.
Context (Hvalues : values_ok).

(** The index a table was written with answers for the table's rows. *)
Definition index_of (blocks : list (list (bytes * bytes))) (t : table_reader) : Prop :=
  match tb_udi t with
  | inr s => ok s = false
  | inl r => exists evs handles rows bi inv,
      wrote parse_key evs blocks handles /\ rows_of (ExtractAll lay) evs = Ok rows /\
      reads_table (FromOptions o) evs rows r /\ reads_index (index_types (FromOptions o)) rows bi r /\
      Forall2 (loads (tb_load t)) handles blocks /\
      BinSourceLaws Src (bitmaps bi ++ [tombstone_bitmap bi]) inv /\ inv (tb_bins t)
  end.
Definition tables_ok : Prop := forall level f, is_source db (InFile level f) ->
  match FindTable f with inl t => index_of (l_blocks db f) t | inr s => ok s = false end.
Context (Htables : tables_ok).

Definition as_row (e : bytes * bytes) : buf_row := mkBufRow (fst e) (snd e) false.
(** A visible value, and one the query selects. *)
Definition entry_visible (e : bytes * bytes) : bool := visible read_seqno parse_key (as_row e).
Definition wanted (e : bytes * bytes) : bool := entry_visible e && matches lay q (as_row e).
Definition kept_entry (e : bytes * bytes) : bool := entry_visible e && (negb verify || matches lay q (as_row e)).
Local Abbreviation keeps := (fun row => kept_entry (br_key row, br_value row)).

Lemma keep_row_entry row :
  (br_key row, br_value row) ∈ all_entries db -> keep_row read_seqno compiled parse_key row = Ok (keeps row).
Proof.
  intros He. destruct (Hvalues _ He) as (r & Hr).
  destruct (verdict read_seqno parse_key lay q o sq cq Hok Hfit Hnum Hlay Hwf Hval Hqf Esq Ecq row r Hr) as [Hk _].
  unfold kept_entry, entry_visible, as_row, visible, TableSpec.matches in *. cbn [br_key br_value fst snd] in *.
  destruct verify; [exact Hk|]. cbn [negb orb]. rewrite andb_true_r. unfold keep_row.
  destruct (parse_key (br_key row)) as [p|]; [|done]. rewrite Z.ltb_antisym.
  destruct (pk_sequence p <=? read_seqno); [|done]. by destruct (is_value (pk_type p)).
Qed.

(** What a row of the scan says of the entry it shows. *)
Definition shows_entry (s : source) (row : scan_row) : Prop :=
  exists e, e ∈ entries_in db s /\ sr_key row = fst e /\ sr_value row = snd e /\ kept_entry e = true /\
    sr_level row = level_of s /\ (forall level f, s = InFile level f -> sr_file row = fm_number f /\
      (track = true -> sr_newer row = false -> forall uk n e' n', version parse_key uk n e ->
        e' ∈ entries_in db s -> version parse_key uk n' e' -> n' <= n)).

(** The rows of one leaf: in order, each from the leaf's entries, and all the
    wanted entries among them. *)
Record leaf (s : source) (es : list (bytes * bytes)) (l : list scan_row) : Prop := {
  lf_sorted : StronglySorted le l;
  lf_rows row : row ∈ l -> shows_entry s row /\ exists e, e ∈ es /\ sr_key row = fst e;
  lf_all e : e ∈ es -> wanted e = true -> exists row, row ∈ l /\ sr_key row = fst e;
}.

Lemma wanted_kept e : wanted e = true -> kept_entry e = true.
Proof. unfold wanted, kept_entry. intros [-> ->]%andb_true_iff. by destruct verify. Qed.

Lemma sorted_keys {A} (f : A -> bytes) (g : A -> scan_row) l :
  (forall a, sr_key (g a) = f a) -> StronglySorted (fun a b => icmp (f a) (f b) = Lt) l -> StronglySorted le (map g l).
Proof.
  intros Hf. induction 1 as [|a l _ IH Hall]; cbn; constructor; [done|]. apply Forall_map.
  eapply Forall_impl; [exact Hall|]. intros b Hb. unfold key_le. cbn. by rewrite !Hf, Hb.
Qed.

Lemma rows_at_sorted {A} (P : A -> A -> Prop) (l : list A) ids :
  StronglySorted P l -> StronglySorted Z.lt ids -> Forall (fun i => 0 <= i) ids -> StronglySorted P (rows_at l ids).
Proof.
  intros Hl. induction 1 as [|i ids _ IH Hall]; intros Hn; [constructor|].
  apply Forall_cons in Hn as [Hi Hn].
  unfold rows_at. rewrite omap_step. destruct (l !! Z.to_nat i) as [x|] eqn:Hx; [|by apply IH].
  constructor; [by apply IH|]. apply Forall_forall. intros y (j & Hj & Hy)%list_elem_of_omap.
  pose proof (proj1 (Forall_forall _ _) Hall j Hj). pose proof (proj1 (Forall_forall _ _) Hn j Hj).
  eapply (StronglySorted_lookup _ _ (Z.to_nat i) (Z.to_nat j)); eauto. lia.
Qed.

(** *** Memtables *)
Lemma mem_leaf m :
  m ∈ l_mems db -> exists l, seeks (mem_child read_seqno compiled parse_key m) l /\ leaf Memtables (mt_entries m) l.
Proof.
  intros Hm. assert (forall e, e ∈ mt_entries m -> e ∈ entries_in db Memtables) as Hin.
  { intros e He. cbn. apply list_elem_of_concat. exists (mt_entries m). split; [done|]. by apply list_elem_of_fmap_2. }
  exists (mem_rows kept_entry (mt_entries m)). split.
  - apply mem_child_seeks, Forall_forall. intros e He. apply keep_row_entry, elem_of_entries. exists Memtables.
    split; [done|]. cbn [br_key br_value]. rewrite <- surjective_pairing. by apply Hin.
  - unfold mem_rows. split.
    + apply (sorted_keys fst); [done|]. by apply sorted_filter, (lo_mem_sorted _ _ _ _ Hdb).
    + intros row (e & -> & [Hk He]%list_elem_of_filter)%list_elem_of_fmap. split; [|by exists e].
      exists e. split_and!; try done. by apply Hin.
    + intros e He Hw. exists (mkScanRow (fst e) (snd e) kMemtableSourceLevel 0 false). split; [|done]. apply list_elem_of_fmap. exists e. split; [done|].
      apply list_elem_of_filter. split; [by apply wanted_kept|done].
Qed.

(** *** Files *)
Lemma user_keys_sorted level f :
  is_source db (InFile level f) -> StronglySorted ble (map (fun e => user_key_of (fst e)) (concat (l_blocks db f))).
Proof.
  intros Hs. pose proof (lo_sorted _ _ _ _ Hdb level f Hs) as Hsort.
  assert (forall e, e ∈ concat (l_blocks db f) -> exists p, parse_key (fst e) = Some p /\ user_key_of (fst e) = pk_user_key p) as Hp.
  { intros e He. apply (lo_parse _ _ _ _ Hdb), elem_of_entries. by exists (InFile level f). }
  induction Hsort as [|a l _ IH Hall]; cbn; constructor; [apply IH; intros e He; apply Hp; by right|].
  apply Forall_map. rewrite Forall_forall in Hall |- *. intros b Hb. specialize (Hall b Hb).
  destruct (Hp a ltac:(by left)) as (pa & Epa & ->). destruct (Hp b ltac:(by right)) as (pb & Epb & ->).
  destruct (decide (pk_user_key pa = pk_user_key pb)) as [->|Hne]; [reflexivity|].
  rewrite (ic_user _ _ _ _ Hic _ _ _ _ Epa Epb Hne) in Hall. unfold ble. by rewrite Hall.
Qed.

(** An unflagged row of a file is the newest version there. *)
Lemma unflagged_file level f j row uk n e' n' :
  is_source db (InFile level f) -> file_rows track R user_key_of (l_blocks db f) !! j = Some row -> track = true ->
  br_shadowed row = false -> version parse_key uk n (br_key row, br_value row) ->
  e' ∈ concat (l_blocks db f) -> version parse_key uk n' e' -> n' <= n.
Proof.
  intros Hs Hj Ht Hfl Hv He' Hv'. destruct (Z.le_gt_cases n' n) as [|Hgt]; [done|]. exfalso. rewrite Ht in Hj.
  pose proof (file_rows_lookup _ _ _ _ _ _ Hj) as Hcj. apply list_elem_of_lookup in He' as [i Hi].
  destruct Hv as (p & Hp & Hu & Hn), Hv' as (p' & Hp' & Hu' & Hn'). cbn [fst] in Hp.
  assert (forall x, x ∈ concat (l_blocks db f) -> exists p, parse_key (fst x) = Some p /\ user_key_of (fst x) = pk_user_key p) as Hpk.
  { intros x Hx. apply (lo_parse _ _ _ _ Hdb), elem_of_entries. by exists (InFile level f). }
  destruct (Hpk e') as (p1 & E1 & K1); [by eapply list_elem_of_lookup_2|].
  destruct (Hpk (br_key row, br_value row)) as (p2 & E2 & K2); [by eapply list_elem_of_lookup_2|]. cbn [fst] in E2, K2.
  destruct (Nat.lt_trichotomy i j) as [Hlt|[->|Hlt]].
  - apply (unflagged_newest R user_key_of (l_blocks db f) i j row e'); try done; [by eapply user_keys_sorted|congruence].
  - rewrite Hcj in Hi. injection Hi as <-. cbn [fst] in Hp'. rewrite Hp in Hp'. injection Hp' as <-. lia.
  - pose proof (StronglySorted_lookup _ _ j i _ _ (lo_sorted _ _ _ _ Hdb level f Hs) Hlt Hcj Hi) as Hc.
    cbn [fst] in Hc. rewrite (ic_seq _ _ _ _ Hic _ _ _ _ Hp Hp') in Hc by (congruence || lia).
    rewrite Z.compare_lt_iff in Hc. lia.
Qed.

Lemma file_row_shows level f j row :
  is_source db (InFile level f) -> file_rows track R user_key_of (l_blocks db f) !! j = Some row -> keeps row = true ->
  shows_entry (InFile level f) (table_row (Z.of_nat level) (fm_number f) row).
Proof.
  intros Hs Hj Hk. pose proof (file_rows_lookup _ _ _ _ _ _ Hj) as Hcj.
  exists (br_key row, br_value row). split_and!; try done; [by eapply list_elem_of_lookup_2|].
  intros level' f' [= <- <-]. split; [done|]. intros Ht Hfl uk n e' n' Hv He' Hv'. by eapply unflagged_file.
Qed.
Lemma file_rows_sorted level f :
  is_source db (InFile level f) ->
  StronglySorted (fun a b => icmp (br_key a) (br_key b) = Lt) (file_rows track R user_key_of (l_blocks db f)).
Proof.
  intros Hs. apply StronglySorted_of_lookup. intros i j a b Hij Ha Hb.
  apply file_rows_lookup in Ha, Hb. exact (StronglySorted_lookup _ _ i j _ _ (lo_sorted _ _ _ _ Hdb level f Hs) Hij Ha Hb).
Qed.

(** The rows of a file picked by sorted ids that miss no wanted one. *)
Lemma file_leaf level f ids :
  is_source db (InFile level f) -> StronglySorted Z.lt ids -> Forall (fun i => 0 <= i) ids ->
  (forall j row, file_rows track R user_key_of (l_blocks db f) !! j = Some row -> wanted (br_key row, br_value row) = true ->
     Z.of_nat j ∈ ids) ->
  leaf (InFile level f) (concat (l_blocks db f))
    (map (table_row (Z.of_nat level) (fm_number f))
       (filter (fun row => keeps row = true) (rows_at (file_rows track R user_key_of (l_blocks db f)) ids))).
Proof.
  intros Hs Hids H0 Hall. split.
  - apply (sorted_keys br_key); [done|]. apply sorted_filter, rows_at_sorted; try done. by eapply file_rows_sorted.
  - intros sr (row & -> & [Hk Hrow]%list_elem_of_filter)%list_elem_of_fmap.
    apply list_elem_of_omap in Hrow as (i & _ & Hj). split; [by eapply file_row_shows|].
    exists (br_key row, br_value row). split; [|done]. by eapply list_elem_of_lookup_2, file_rows_lookup.
  - intros e (j & Hj)%list_elem_of_lookup Hw.
    assert (exists row, file_rows track R user_key_of (l_blocks db f) !! j = Some row) as [row Hrow].
    { apply lookup_lt_is_Some_2. pose proof (file_rows_length track R user_key_of (l_blocks db f)) as Hl.
      apply lookup_lt_Some in Hj. unfold zlen in Hl. lia. }
    pose proof (file_rows_lookup _ _ _ _ _ _ Hrow) as Hcj. rewrite Hj in Hcj. injection Hcj as ->.
    exists (table_row (Z.of_nat level) (fm_number f) row). split; [|done]. apply list_elem_of_fmap_2, list_elem_of_filter.
    split; [by apply wanted_kept|]. apply list_elem_of_omap. exists (Z.of_nat j). rewrite Nat2Z.id.
    split; [by apply (Hall j row)|done].
Qed.

(** Every file has such rows, opened or not. *)
Lemma some_leaf level f :
  is_source db (InFile level f) -> exists l, leaf (InFile level f) (concat (l_blocks db f)) l.
Proof.
  intros Hs. eexists. apply (file_leaf level f (seqZ 0 (zlen (concat (l_blocks db f)))));
    [done|apply sorted_seqZ|apply Forall_forall; intros x Hx%elem_of_seqZ; lia|].
  intros j row Hj _. apply elem_of_seqZ. apply lookup_lt_Some in Hj.
  pose proof (file_rows_length track R user_key_of (l_blocks db f)) as Hl. unfold zlen in *. lia.
Qed.

Lemma opened_leaf level f t :
  is_source db (InFile level f) -> index_of (l_blocks db f) t ->
  exists s l, new_sti sq t (Z.of_nat level) (fm_number f) = Ok s /\ @seeks _ Sti s l /\
    leaf (InFile level f) (concat (l_blocks db f)) l.
Proof.
  intros Hs Hidx. unfold index_of in Hidx. unfold new_sti.
  destruct (some_leaf level f Hs) as [lall Hall].
  destruct (tb_udi t) as [r|st].
  2: { cbn [new_table_iter mbind result_bind]. eexists _, lall. split; [reflexivity|]. split; [|exact Hall].
       exact (table_seek_failed read_seqno compiled track R parse_key user_key_of _ _ _ (idle st None (tb_bins t)) _ Hidx). }
  destruct Hidx as (evs & handles & rows & bi & inv & Hw & Hrows & Hrt & Hri & Hld & Hlaws & Hinv).
  assert (forall j row, file_rows track R user_key_of (l_blocks db f) !! j = Some row ->
    exists e, rows !! j = Some e /\ (wanted (br_key row, br_value row) = true -> exists enc, e = Some enc /\
      query_sat (index_types (FromOptions o)) enc sq = true)) as Hverdict.
  { intros j row Hj. apply file_rows_lookup in Hj.
    pose proof (wrote_rows parse_key (ExtractAll lay) evs _ handles rows Hw Hrows) as Hent.
    destruct (Forall2_lookup_l _ _ _ _ _ Hent Hj) as (e & He & Hrow). exists e. split; [done|].
    exact (proj2 (verdict read_seqno parse_key lay q o sq cq Hok Hfit Hnum Hlay Hwf Hval Hqf Esq Ecq row e Hrow)). }
  pose proof (opened_blocks parse_key _ evs rows r _ handles Hw Hrt (tb_load t) Hld) as Hrb.
  destruct (new_table_iter_ok (tb_load t) (index_types (FromOptions o)) rows bi r Hri
    (opened_counts parse_key _ _ evs rows r _ handles Hw Hrows Hrt bi Hri) inv (l_blocks db f) Hrb
    (opened_length parse_key _ evs rows _ handles Hw Hrows) sq
    (encoded_query_ok q o sq Hwf Hval Esq) (tb_bins t) Hinv) as (it & E & _ & Hgood).
  rewrite E. cbn [mbind result_bind]. destruct (ok (ti_status it)) eqn:Est.
  2: { eexists _, lall. split; [reflexivity|]. split; [|exact Hall].
       exact (table_seek_failed read_seqno compiled track R parse_key user_key_of _ _ _ _ _ Est). }
  destruct (Hgood eq_refl) as [Hscan [Hc1 Hc2 Hc3]].
  assert (forall row, row ∈ file_rows track R user_key_of (l_blocks db f) ->
    keep_row read_seqno compiled parse_key row = Ok (keeps row)) as Hkeeps.
  { intros row (j & Hj)%list_elem_of_lookup. apply keep_row_entry, elem_of_entries. exists (InFile level f). split; [done|].
    by eapply list_elem_of_lookup_2, file_rows_lookup. }
  eexists _, _. split; [reflexivity|]. split.
  - exact (table_seeks read_seqno compiled track R parse_key user_key_of HR _ _ (tb_load t) r _ Hrb keeps Hkeeps it Hscan).
  - apply file_leaf; [done|done|apply Forall_forall; intros id Hid; by destruct (Hc2 id Hid) as [? _]; lia|].
    intros j row Hj Hwant. destruct (Hverdict j row Hj) as (e & He & Hsat). destruct (Hsat Hwant) as (enc & -> & Hq).
    by apply (Hc3 j enc).
Qed.

Definition file_opens (level : nat) (f : FileMetaData) (l : list scan_row) : Prop :=
  @opens sti Sti table_reader FindTable (new_sti sq) (Z.of_nat level) f l /\
  leaf (InFile level f) (concat (l_blocks db f)) l.
Lemma files_open level files :
  (forall f, f ∈ files -> is_source db (InFile level f)) -> exists ls, Forall2 (file_opens level) files ls.
Proof.
  induction files as [|f files IH]; intros Hs; [by exists []|].
  destruct IH as [ls Hls]; [intros g Hg; apply Hs; by right|]. assert (is_source db (InFile level f)) as Hf by (apply Hs; by left).
  enough (exists l, file_opens level f l) as [l Hl] by (exists (l :: ls); by constructor).
  unfold file_opens, opens. pose proof (Htables level f Hf) as Ht. destruct (FindTable f) as [t|s].
  - destruct (opened_leaf level f t Hf Ht) as (s & l & E & Hseek & Hl). exists l. split; [by exists s|done].
  - destruct (some_leaf level f Hf) as [l Hl]. by exists l.
Qed.

(** *** Levels *)
Lemma sorted_app {A} (P : A -> A -> Prop) l k :
  StronglySorted P l -> StronglySorted P k -> (forall a b, a ∈ l -> b ∈ k -> P a b) -> StronglySorted P (l ++ k).
Proof.
  induction 1 as [|x l _ IH Hall]; intros Hk Hc; [done|]. cbn. constructor.
  - apply IH; [done|]. intros a b Ha. apply Hc. by right.
  - apply Forall_app. split; [done|]. apply Forall_forall. intros b Hb. apply Hc; [by left|done].
Qed.
(** Entries of files that follow each other. *)
Lemma between level f ea g eb :
  is_source db (InFile level f) -> is_source db (InFile level g) -> ea ∈ concat (l_blocks db f) -> eb ∈ concat (l_blocks db g) ->
  file_before parse_key user_key_of f g -> icmp (fst ea) (fst eb) = Lt.
Proof.
  intros Hf Hg Ha Hb Hd.
  assert (forall h e, is_source db (InFile level h) -> e ∈ concat (l_blocks db h) -> exists p, parse_key (fst e) = Some p /\
    user_key_of (fst e) = pk_user_key p /\ ble (user_key_of (fm_smallest h)) (pk_user_key p) /\
    ble (pk_user_key p) (user_key_of (fm_largest h))) as Hr.
  { intros h e Hh He. destruct (lo_parse _ _ _ _ Hdb e) as (p & Hp & Ek); [apply elem_of_entries; by exists (InFile level h)|].
    exists p. split; [done|]. split; [done|]. apply (version_in_range _ _ _ _ _ _ Hdb Hic level h e _ (pk_sequence p)); try done. by exists p. }
  destruct (Hr f ea Hf Ha) as (pa & Epa & _ & _ & _). destruct (Hr g eb Hg Hb) as (pb & Epb & _ & Hlo & _).
  assert (version parse_key (pk_user_key pa) (pk_sequence pa) ea) as Hva by by exists pa.
  pose proof (version_before _ _ _ _ _ _ Hdb Hic level f g ea _ _ Hf Hd Ha Hva) as Hbef.
  assert (blt (pk_user_key pa) (pk_user_key pb)) as Hlt by border.
  rewrite (ic_user _ _ _ _ Hic _ _ _ _ Epa Epb); [done|]. intros E. rewrite E in Hlt. by apply blt_irrefl in Hlt.
Qed.

(** Rows of leaves, whatever their source. *)
Record gathered (es : list (bytes * bytes)) (l : list scan_row) : Prop := {
  ga_sorted : StronglySorted le l;
  ga_rows row : row ∈ l -> exists s, is_source db s /\ shows_entry s row;
  ga_all e : e ∈ es -> wanted e = true -> exists row, row ∈ l /\ sr_key row = fst e;
}.
Lemma leaf_gathered s es l : is_source db s -> leaf s es l -> gathered es l.
Proof.
  intros Hs [H1 H2 H3]. split; [done| |done]. intros row Hr. exists s. split; [done|]. by destruct (H2 row Hr).
Qed.

(** The files of a level below 0 follow each other. *)
Lemma level_gathered level files ls :
  (1 <= level)%nat -> l_levels db !! level = Some files -> Forall2 (file_opens level) files ls ->
  gathered (concat (map (fun f => concat (l_blocks db f)) files)) (concat ls).
Proof.
  intros Hlv El Hls. assert (forall f, f ∈ files -> is_source db (InFile level f)) as Hs by (intros f Hf; by exists files).
  assert (forall i j f g lf lg a b, (i < j)%nat -> files !! i = Some f -> files !! j = Some g -> ls !! i = Some lf -> ls !! j = Some lg ->
    a ∈ lf -> b ∈ lg -> le a b) as Hcross.
  { intros i j f g lf lg a b Hij Hf Hg Hlf Hlg Ha Hb.
    pose proof (lo_disjoint _ _ _ _ Hdb level files i j f g Hlv El Hf Hg Hij) as Hd.
    destruct (Forall2_lookup_lr _ _ _ _ _ _ Hls Hf Hlf) as [_ Hleaf]. destruct (Forall2_lookup_lr _ _ _ _ _ _ Hls Hg Hlg) as [_ Hleag].
    destruct (lf_rows _ _ _ Hleaf a Ha) as [_ (ea & Hea & Ka)]. destruct (lf_rows _ _ _ Hleag b Hb) as [_ (eb & Heb & Kb)].
    apply list_elem_of_lookup_2 in Hf, Hg. apply Hs in Hf, Hg.
    apply (between level f ea g eb Hf Hg Hea Heb) in Hd. unfold key_le. rewrite Ka, Kb, Hd. done. }
  clear Hlv El. revert Hs Hcross. induction Hls as [|f l files ls [_ Hl] Hls IH]; intros Hs Hcross; cbn [concat map].
  { split; [constructor|by intros row ?%not_elem_of_nil|by intros e ?%not_elem_of_nil]. }
  destruct IH as [I1 I2 I3]; [intros g Hg; apply Hs; by right|intros i j f0 g0 lf lg a b Hij; apply (Hcross (S i) (S j)); lia|].
  destruct (leaf_gathered (InFile level f) _ _ ltac:(apply Hs; by left) Hl) as [L1 L2 L3]. split.
  - apply sorted_app; [done|done|]. intros a b Ha Hb%list_elem_of_concat. destruct Hb as (lb & Hb & (j & Hj)%list_elem_of_lookup).
    destruct (Forall2_lookup_r _ _ _ _ _ Hls Hj) as (g & Hg & _).
    by apply (Hcross 0%nat (S j) f g l lb); [lia|..].
  - intros row [Hr|Hr]%elem_of_app; auto.
  - intros e [He|He]%elem_of_app Hw; [destruct (L3 e He Hw) as (row & ? & ?)|destruct (I3 e He Hw) as (row & ? & ?)];
      exists row; rewrite elem_of_app; auto.
Qed.

(** *** The merge *)
Lemma open_l0_ok l0 ls st :
  Forall2 (file_opens 0) l0 ls ->
  exists cs st', @open_l0 sti Sti table_reader FindTable (new_sti sq) l0 st = Ok (cs, st') /\ (ok st = false -> ok st' = false) /\
    (ok st' = true -> Forall2 seeks cs ls).
Proof.
  intros Hall. revert st. induction Hall as [|f l l0 ls [Hop _] _ IH]; intros st; cbn [open_l0].
  { exists [], st. split; [done|]. split; [done|]. constructor. }
  unfold opens in Hop. destruct (FindTable f) as [t|s].
  - destruct Hop as (s & E & Hs). change (Z.of_nat 0) with 0 in E. rewrite E. cbn [mbind result_bind].
    destruct (IH st) as (cs & st' & E' & Hst & Hcs). rewrite E'. cbn [mbind result_bind]. eexists _, st'.
    split; [done|]. split; [done|]. intros Ho. constructor; [by apply (@seeks_child sti Sti)|by apply Hcs].
  - destruct (IH (if ok st then s else st)) as (cs & st' & E' & Hst & Hcs). exists cs, st'. split; [done|].
    assert (ok st' = false) as Hbad by (apply Hst; by destruct (ok st) eqn:Eo). split; [done|]. by rewrite Hbad.
Qed.

Lemma open_levels_ok level ls :
  (1 <= level)%nat -> (forall i, ls !! i = l_levels db !! (level + i)%nat) ->
  exists ess rows, Forall2 seeks (@open_levels sti Sti table_reader FindTable (new_sti sq) (Z.of_nat level) ls) rows /\
    Forall2 gathered ess rows /\
    (forall i files f e, ls !! i = Some files -> f ∈ files -> e ∈ concat (l_blocks db f) -> e ∈ concat ess).
Proof.
  revert level. induction ls as [|files ls IH]; intros level Hlv Hls; cbn [open_levels]; [by exists [], []|].
  destruct (IH (S level)) as (ess & rows & H1 & H2 & H3); [lia| |].
  { intros i. specialize (Hls (S i)). change ((files :: ls) !! S i) with (ls !! i) in Hls. rewrite Hls. f_equal. lia. }
  replace (Z.of_nat level + 1) with (Z.of_nat (S level)) by lia.
  pose proof (Hls 0%nat) as El. rewrite Nat.add_0_r in El. change ((files :: ls) !! 0%nat) with (Some files) in El. symmetry in El.
  destruct (files_open level files) as [fl Hfl]; [intros f Hf; by exists files|].
  destruct files as [|f0 files].
  { exists ess, rows. split_and!; try done. intros [|i] files f e Hi Hf He; [|by eapply (H3 i)].
    injection Hi as <-. by apply not_elem_of_nil in Hf. }
  pose proof (level_gathered level _ fl Hlv El Hfl) as Hg.
  eexists (_ :: ess), (concat fl :: rows). split_and!; [|by constructor|].
  - constructor; [|done]. apply (@level_child_seeks sti Sti). eapply Forall2_impl; [exact Hfl|]. by intros ? ? [? _].
  - intros [|i] files' f e Hi Hf He; cbn [concat]; apply elem_of_app; [left|right; by eapply (H3 i)].
    injection Hi as <-. apply list_elem_of_concat. eexists. split; [done|]. by apply (list_elem_of_fmap_2 (fun f => concat (l_blocks db f))).
Qed.

Lemma mems_gathered ms :
  (forall m, m ∈ ms -> m ∈ l_mems db) ->
  exists rows, Forall2 seeks (map (mem_child read_seqno compiled parse_key) ms) rows /\
    Forall2 gathered (map mt_entries ms) rows.
Proof.
  induction ms as [|m ms IH]; intros Hin; [exists []; split; constructor|].
  destruct IH as (rows & H1 & H2); [intros m' ?; apply Hin; by right|].
  destruct (mem_leaf m) as (l & Hl & Hleaf); [apply Hin; by left|].
  exists (l :: rows). cbn [map]. split; constructor; try done. by eapply (leaf_gathered Memtables).
Qed.
Lemma l0_gathered ls :
  Forall2 (file_opens 0) (hd [] (l_levels db)) ls ->
  Forall2 gathered (map (fun f => concat (l_blocks db f)) (hd [] (l_levels db))) ls.
Proof.
  intros Hls. apply Forall2_fmap_l. apply Forall2_same_length_lookup.
  split; [by eapply Forall2_length|]. intros i f l Hf Hl.
  destruct (Forall2_lookup_lr _ _ _ _ _ _ Hls Hf Hl) as [_ Hleaf]. eapply (leaf_gathered (InFile 0 f)); [|done].
  apply list_elem_of_lookup_2 in Hf. destruct (l_levels db) as [|l0 lv] eqn:El; [by apply not_elem_of_nil in Hf|].
  exists l0. by rewrite El.
Qed.

(** Every entry is in a memtable, in a level-0 file or in a deeper one. *)
Lemma entries_cover less e :
  (forall i files f e, tl (l_levels db) !! i = Some files -> f ∈ files -> e ∈ concat (l_blocks db f) -> e ∈ concat less) ->
  e ∈ all_entries db ->
  e ∈ concat (map mt_entries (l_mems db) ++ map (fun f => concat (l_blocks db f)) (hd [] (l_levels db)) ++ less).
Proof.
  intros Hless ([|level f] & Hs & He)%elem_of_entries; rewrite !concat_app, !elem_of_app; [by left|right].
  destruct Hs as (files & El & Hf). destruct level as [|level].
  - left. destruct (l_levels db); [done|]. injection El as ->. apply list_elem_of_concat. eexists. split; [exact He|].
    by apply (list_elem_of_fmap_2 (fun f => concat (l_blocks db f))).
  - right. eapply (Hless level); [|done|done]. by destruct (l_levels db).
Qed.

(** The merge of the whole tree. *)
Lemma merge_gathered :
  exists m rows, scan_merging read_seqno sq compiled track = Ok m /\
    @seeks merging (merging_iterator icmp) m rows /\ gathered (all_entries db) rows.
Proof.
  unfold scan_merging, new_merging.
  destruct (mems_gathered (l_mems db)) as (mrows & M1 & M2); [done|].
  destruct (files_open 0 (hd [] (l_levels db))) as [ls0 Hls0].
  { intros f Hf. destruct (l_levels db) as [|l0 ls] eqn:El; [by apply not_elem_of_nil in Hf|]. exists l0. by rewrite El. }
  destruct (open_l0_ok _ _ OK Hls0) as (cs0 & st & E0 & _ & Hcs0). rewrite E0. cbn [mbind result_bind].
  destruct (open_levels_ok 1 (tl (l_levels db))) as (less & lrows & L1 & L2 & L3); [lia|intros i; by destruct (l_levels db)|].
  pose proof (Forall2_app M2 (Forall2_app (l0_gathered ls0 Hls0) L2)) as Hgall.
  set (ess := map mt_entries (l_mems db) ++ _) in Hgall. set (ls := mrows ++ ls0 ++ lrows) in *.
  change (Z.of_nat 1) with 1 in L1.
  edestruct (merging_seeks icmp Hicmp (mkMerging false st (map (mem_child read_seqno compiled parse_key) (l_mems db) ++ cs0 ++
    @open_levels sti Sti table_reader FindTable (new_sti sq) 1 (tl (l_levels db))) []) ls) as (rows & Hp & Hsr & Hseek).
  { cbn [mg_status ch_iters_]. intros Ho. apply Forall2_app; [done|]. apply Forall2_app; [by apply Hcs0|done]. }
  { apply Forall_lookup. intros i l Hl. destruct (Forall2_lookup_r _ _ _ _ _ Hgall Hl) as (es & _ & Hg). apply Hg. }
  eexists _, rows. split; [reflexivity|]. split; [exact Hseek|]. split; [done| |].
  - intros row Hr. rewrite Hp in Hr. apply list_elem_of_concat in Hr as (l & Hr & (i & Hl)%list_elem_of_lookup).
    destruct (Forall2_lookup_r _ _ _ _ _ Hgall Hl) as (es & _ & Hg). by apply (ga_rows _ _ Hg).
  - intros e He Hw. apply (entries_cover less e L3) in He. fold ess in He.
    apply list_elem_of_concat in He as (es & He & (i & Hes)%list_elem_of_lookup).
    destruct (Forall2_lookup_l _ _ _ _ _ Hgall Hes) as (l & Hl & Hg). destruct (ga_all _ _ Hg e He Hw) as (row & Hr & Hk).
    exists row. split; [|done]. rewrite Hp. apply list_elem_of_concat. exists l. split; [done|]. by eapply list_elem_of_lookup_2.
Qed.
End LsmScan.
