(* ===== verification/ScanSpec.v ===== *)
(** * What a query returns

    The whole scan, from [BitLSMIterator]'s constructor to the last row. In
    Verified mode: every non-empty key whose newest visible version satisfies
    the query, and beside those at most rows that a range tombstone of their own
    file deletes; none of the latter when no file holds a key together with a
    newer tombstone over it. In Candidate mode: a superset of the keys. *)
From Stdlib Require Import ZArith Lia Strings.Byte Strings.String Sorting.Sorted.
From stdpp Require Import base numbers strings list sets sorting gmap.
From S2P Require Import Prelude Options Row Okey BytesList Query QuerySpec Externals Intern.
From S2P Require Import RangeBuf Binning Builder Reader Index ReaderSpec BuilderSpec BlobSpec.
From S2P Require Import SstIndex BinSource TableIter QueryBitmap TableScan TableSpec.
From S2P Require Import Iterators Merging Lsm Shadow TopIterator BatchSpec LsmScan.

Section ScanSpec.
Context `{RoaringOps} `{!RoaringLaws _} {Src : BinSource}.
Context (parse_key : bytes -> option ParsedInternalKey) (user_key_of : bytes -> bytes).
Context (icmp : bytes -> bytes -> comparison) (lookup_ikey : bytes -> Z -> bytes).
Context (R : Z) (db : lsm) (FindTable : FileMetaData -> table_reader + Status).
Context (mem_Get imm_Get : bytes -> mem_answer) (FindFile : list FileMetaData -> bytes -> nat).
Context (MultiGet : list bytes -> list (bytes + Status)).
Context (read_seqno : Z) (o : BitLSMOptions) (q : BitLSMQuery) (sh : lsm_shape).

(** The parts put together as the constructor does. *)
Local Abbreviation Merge := (merging_iterator icmp).
Definition checker_class : ShadowCheck :=
  shadow_checker FindTable tb_filter tb_whole_key mem_Get imm_Get lookup_ikey user_key_of FindFile bcompare
    (l_levels db) read_seqno.
Definition scan_iter (mode : ResultMode) : result (@bit_iter merging checker_class) :=
  @new_bit_iter merging checker_class ∅ (scan_merging parse_key user_key_of R db FindTable) o q mode (Some read_seqno) 0 sh.
Definition scan_run {B} (read : @bit_iter merging checker_class -> result B) (fuel : nat) (it : @bit_iter merging checker_class)
    : result (list B * @bit_iter merging checker_class) :=
  @run merging Merge checker_class parse_key MultiGet B read fuel it.

(** ** What the scan relies on *)
Context (lay : ValueLayout).
Local Abbreviation read := (get parse_key read_seqno db).
Local Abbreviation deleted_here := (own_file_deleted parse_key read_seqno db).

Record scan_setting : Prop := {
  (** the schema and the query *)
  ss_schema : schema_ok o;
  ss_fits : schema_fits (attr_specs o);
  ss_num : is_u32 (attr_num o);
  ss_layout : mkLayout o = Ok lay;
  ss_query : query_wf q;
  ss_valid : Validate q o = OK;
  ss_query_fits : query_fits q;
  ss_interval : 0 < R;
  (** RocksDB's invariants and laws *)
  ss_db : lsm_ok parse_key user_key_of icmp db;
  ss_icmp : icmp_ok parse_key icmp lookup_ikey read_seqno;
  ss_order : StrictWeak (fun a b : bytes => match icmp a b with Gt => true | _ => false end);
  ss_lookup : lookup_laws FindTable tb_filter tb_whole_key mem_Get imm_Get lookup_ikey FindFile read_seqno parse_key icmp db;
  ss_multiget ks : Forall2 (fetched read) ks (MultiGet ks);
  ss_levels : sh_levels sh = l_levels db;
  ss_empty : sh_mem_entries sh = 0 -> sh_imm_not_flushed sh = 0 -> entries_in db Memtables = [] /\ l_mem_rdels db = [];
  (** what was written through the index *)
  ss_values : values_ok parse_key db lay;
  ss_tables : tables_ok parse_key db FindTable o lay;
}.
Context (Hset : scan_setting).

(** The query's verdict on a stored value. *)
Definition selects (v : bytes) : bool := match CheckCondition q v lay with Ok b => b | Fault _ => false end.
(** The answer to the query. *)
Definition in_answer (k v : bytes) : Prop := read k = Some v /\ selects v = true.

(** *** Rows *)
Lemma shown_entry verify track s row :
  is_source db s -> shows_entry parse_key db read_seqno lay q verify track s row ->
  exists e p, e ∈ entries_in db s /\ e ∈ all_entries db /\ sr_key row = fst e /\ sr_value row = snd e /\
    parse_key (sr_key row) = Some p /\ pk_sequence p <= read_seqno /\ is_value (pk_type p) = true /\
    (verify = true -> selects (sr_value row) = true) /\
    candidate_of parse_key db (pk_user_key p) (pk_sequence p) (sr_level row) (sr_file row) s e.
Proof.
  intros Hs (e & He & Hk & Hv & Hkept & Hl & Hfile). exists e.
  assert (e ∈ all_entries db) as Hall by (apply elem_of_entries; by exists s).
  destruct (lo_parse _ _ _ _ (ss_db Hset) e Hall) as (p & Hp & _). exists p.
  unfold kept_entry, entry_visible, as_row, visible, TableSpec.matches in Hkept. cbn [br_key br_value] in Hkept.
  rewrite Hp in Hkept. apply andb_true_iff in Hkept as [[Hsq Hty]%andb_true_iff Hm]. apply Z.leb_le in Hsq.
  assert (verify = true -> selects (sr_value row) = true) as Hsel by (intros ->; unfold selects; by rewrite Hv).
  assert (candidate_of parse_key db (pk_user_key p) (pk_sequence p) (sr_level row) (sr_file row) s e) as Hc.
  { split_and!; try done; [by exists p|]. destruct s as [|lv f]; [done|]. by destruct (Hfile lv f eq_refl). }
  rewrite Hk. split; [done|]. split; [done|]. split; [done|]. split; [done|]. auto.
Qed.

(** A row its source and the rest of the tree clear is what a read returns,
    unless a range tombstone of its own file deletes it: the check leaves that
    file out, and the table iterator looks at the point entries only. *)
Lemma cleared_row track s row p :
  is_source db s -> shows_entry parse_key db read_seqno lay q true track s row -> track = true -> sr_newer row = false ->
  parse_key (sr_key row) = Some p ->
  unshadowed read_seqno parse_key db (pk_user_key p) (pk_sequence p) (sr_level row) (sr_file row) ->
  read (pk_user_key p) = Some (sr_value row) \/ deleted_here (pk_user_key p) (sr_value row).
Proof.
  intros Hs Hshow Ht Hnew Hp Hun. destruct (shown_entry _ _ _ _ Hs Hshow) as (e0 & p0 & He & Hall & Hk & Hv & Hp0 & Hsq & Hty & _ & Hc).
  rewrite Hp in Hp0. injection Hp0 as <-. rewrite Hv, Hk in *.
  assert (forall e' n', e' ∈ all_entries db -> version parse_key (pk_user_key p) n' e' -> n' <= read_seqno -> n' <= pk_sequence p) as Hmax.
  { intros e' n' (s' & Hs' & He')%elem_of_entries Hver Hn'.
    destruct (decide (s = Memtables \/ s' <> s)) as [Hcase|Hown]; [by apply (proj1 (Hun s e0 Hc s' Hs' Hcase) e')|].
    assert (s' = s) as -> by (apply dec_stable; tauto). destruct s as [|level f]; [tauto|].
    destruct Hshow as (e1 & He1 & Hk1 & Hv1 & _ & _ & Hfile). destruct (Hfile level f eq_refl) as [_ Hfl].
    apply (Hfl Ht Hnew (pk_user_key p) (pk_sequence p) e' n'); try done. exists p. by rewrite <- Hk1, Hk. }
  destruct s as [|level f].
  - left. apply (get_newest _ _ _ _ _ (ss_db Hset) _ (pk_sequence p) e0 p); try done.
    intros d (s' & Hs' & Hd)%elem_of_rdels Hcov Hn'. by apply (proj2 (Hun Memtables e0 Hc s' Hs' (or_introl eq_refl)) d).
  - apply (newest_in_file _ user_key_of icmp _ _ (ss_db Hset) level f _ e0 p); try done.
    intros s' d Hs' Hne Hd Hcov Hn'. by apply (proj2 (Hun (InFile level f) e0 Hc s' Hs' (or_intror Hne)) d).
Qed.

(** With whole-scan authority there is one version per key. *)
Lemma find_single_spec ls sl ne r :
  find_single ls sl ne = (true, r) -> sl = true /\
  match ne, r with
  | Some _, _ => r = ne /\ forall l, l ∈ ls -> l = []
  | None, Some files => forall l, l ∈ ls -> l = [] \/ l = files
  | None, None => forall l, l ∈ ls -> l = []
  end.
Proof.
  revert sl ne. induction ls as [|l ls IH]; intros sl ne; cbn [find_single].
  { intros [= -> ->]. split; [done|]. destruct r; [split; [done|]|]; by intros l' ?%not_elem_of_nil. }
  destruct sl; cbn [negb]; [|done]. destruct (Nat.eqb_spec (length l) 0) as [Hl|Hl].
  - destruct l; [|done]. intros E. destruct (IH _ _ E) as [_ Hr]. split; [done|]. destruct ne as [fs|], r as [gs|].
    + destruct Hr as [-> Hr]. split; [done|]. intros l [->|Hin]%elem_of_cons; auto.
    + by destruct Hr.
    + intros l [->|Hin]%elem_of_cons; auto.
    + intros l [->|Hin]%elem_of_cons; auto.
  - destruct ne as [fs|]; intros E; destruct (IH _ _ E) as [Hsl Hr]; [done|]. split; [done|]. destruct Hr as [-> Hr].
    intros l' [->|Hin]%elem_of_cons; [by right|left; auto].
Qed.
Lemma authority_zeroed :
  whole_scan_authority sh = true -> entries_in db Memtables = [] /\ l_mem_rdels db = [] /\
  forall level f, is_source db (InFile level f) -> fm_largest_seqno f = 0.
Proof.
  unfold whole_scan_authority. destruct (find_single _ _ None) as [sl ne] eqn:E. destruct ne as [files|]; [|done].
  intros [-> Hz]%andb_true_iff. apply find_single_spec in E as [Ha Hls]. unfold above_empty in Ha.
  rewrite !andb_true_iff, !Z.eqb_eq, Nat.eqb_eq in Ha. destruct Ha as [[Hm Hi] Hl0]. rewrite (ss_levels Hset) in *.
  destruct (ss_empty Hset Hm Hi) as [He Hr]. split_and!; try done. intros level f (fs & Hlv & Hf).
  destruct (l_levels db) as [|l0 ls]; [done|]. cbn [hd tl] in *. destruct level as [|level].
  - injection Hlv as ->. destruct fs; [by apply not_elem_of_nil in Hf|done].
  - change (ls !! level = Some fs) in Hlv. apply list_elem_of_lookup_2 in Hlv. destruct (Hls _ Hlv) as [->| ->]; [by apply not_elem_of_nil in Hf|].
    rewrite forallb_forall in Hz. by apply Z.eqb_eq, Hz, list_elem_of_In.
Qed.
Lemma authoritative_row track s row p :
  whole_scan_authority sh = true -> is_source db s -> shows_entry parse_key db read_seqno lay q true track s row ->
  parse_key (sr_key row) = Some p -> read (pk_user_key p) = Some (sr_value row).
Proof.
  intros Ha Hs Hshow Hp. destruct (shown_entry _ _ _ _ Hs Hshow) as (e0 & p0 & He & Hall & Hk & Hv & Hp0 & Hsq & Hty & _ & Hc).
  rewrite Hp in Hp0. injection Hp0 as <-. rewrite Hv. destruct (authority_zeroed Ha) as (Hm & Hr & Hz).
  assert (version parse_key (pk_user_key p) (pk_sequence p) e0) as Hver0 by (exists p; by rewrite <- Hk).
  pose proof (lo_sequence _ _ _ _ (ss_db Hset) _ _ _ Hall Hver0) as H0.
  apply (get_newest _ _ _ _ _ (ss_db Hset) _ (pk_sequence p) e0 p); try done; [by rewrite <- Hk|..].
  - intros e' n' (s' & Hs' & He')%elem_of_entries Hver _. destruct s' as [|level f]; [rewrite Hm in He'; by apply not_elem_of_nil in He'|].
    pose proof (lo_seqno _ _ _ _ (ss_db Hset) level f e' _ _ Hs' He' Hver). rewrite (Hz level f Hs') in *. lia.
  - intros d (s' & Hs' & Hd)%elem_of_rdels _ _. destruct s' as [|level f]; [cbn in Hd; rewrite Hr in Hd; by apply not_elem_of_nil in Hd|].
    pose proof (lo_rdel_seqno _ _ _ _ (ss_db Hset) level f d Hs' Hd). rewrite (Hz level f Hs') in *. lia.
Qed.

(** *** Order *)

(** Candidates have strictly increasing user keys, none of them empty. *)
Lemma fresh_sorted latest rows :
  StronglySorted (key_le icmp) rows -> (forall row, row ∈ rows -> exists p, parse_key (sr_key row) = Some p) ->
  (forall row, row ∈ rows -> ble latest (row_key parse_key row)) ->
  StronglySorted blt (latest :: map (row_key parse_key) (fresh parse_key latest rows)).
Proof.
  intros Hs. revert latest. induction Hs as [|row rows _ IH Hall]; intros latest Hp Hle; cbn [fresh].
  { constructor; constructor. }
  destruct (Hp row ltac:(by left)) as [p Ep]. rewrite Ep.
  assert (pk_user_key p = row_key parse_key row) as Eu by (unfold row_key; by rewrite Ep).
  assert (forall r, r ∈ rows -> exists p, parse_key (sr_key r) = Some p) as Hp' by (intros r Hr; apply Hp; by right).
  destruct (beqb (pk_user_key p) latest) eqn:Eb.
  { apply IH; [done|]. intros r Hr. apply Hle. by right. }
  rewrite Eu in *. assert (blt latest (row_key parse_key row)) as Hlt.
  { specialize (Hle row ltac:(by left)). apply ble_lteq in Hle as [?|E]; [done|]. rewrite <- E in Eb.
    by rewrite (proj2 (beqb_eq _ _) eq_refl) in Eb. }
  assert (StronglySorted blt (row_key parse_key row :: map (row_key parse_key) (fresh parse_key (row_key parse_key row) rows))) as Hrest.
  { apply IH; [done|]. intros r Hr. rewrite Forall_forall in Hall. specialize (Hall r Hr). unfold key_le in Hall.
    destruct (Hp' r Hr) as [p' Ep']. assert (row_key parse_key r = pk_user_key p') as -> by (unfold row_key; by rewrite Ep').
    rewrite <- Eu. destruct (decide (pk_user_key p = pk_user_key p')) as [->|Hne]; [reflexivity|].
    by rewrite (ic_user _ _ _ _ (ss_icmp Hset) _ _ _ _ Ep Ep' Hne) in Hall. }
  cbn [map]. constructor; [done|]. apply StronglySorted_inv in Hrest as [_ Hrest]. constructor; [done|].
  eapply Forall_impl; [exact Hrest|]. intros k Hk. by eapply blt_trans.
Qed.
(** Every key but [latest] has a candidate. *)
Lemma fresh_complete latest rows row p :
  row ∈ rows -> parse_key (sr_key row) = Some p -> pk_user_key p <> latest ->
  exists row', row' ∈ fresh parse_key latest rows /\ row_key parse_key row' = pk_user_key p.
Proof.
  revert latest. induction rows as [|r rows IH]; intros latest Hin Hp Hne; [by apply not_elem_of_nil in Hin|]. cbn [fresh].
  apply elem_of_cons in Hin as [<-|Hin].
  - rewrite Hp. destruct (beqb (pk_user_key p) latest) eqn:Eb; [by apply beqb_eq in Eb|].
    exists row. split; [by left|]. unfold row_key. by rewrite Hp.
  - destruct (parse_key (sr_key r)) as [pr|] eqn:Er; [|by apply IH].
    destruct (beqb (pk_user_key pr) latest); [by apply IH|].
    destruct (decide (pk_user_key p = pk_user_key pr)) as [->|Hne'].
    + exists r. split; [by left|]. unfold row_key. by rewrite Er.
    + destruct (IH (pk_user_key pr) Hin Hp Hne') as (row' & ? & ?). exists row'. split; [by right|done].
Qed.

(** *** The run *)
Lemma queries_compile :
  exists sq cq, EncodeQuery q o = Ok sq /\ CompileQuery q o = Ok cq /\
    forall k v, read k = Some v -> Eval cq v = Ok (selects v).
Proof.
  destruct Hset. destruct (EncodeQuery_bytes o [] q (Validate_conds q o ss_query0 ss_valid0)) as (sq & Es & _).
  destruct (compiled_agrees q o ss_schema0 ss_fits0 ss_num0 ss_query0 ss_valid0 ss_query_fits0) as (lay' & cq & El & Ec & Heval).
  rewrite ss_layout0 in El. injection El as <-. exists sq, cq. split_and!; try done. intros k v Hv. rewrite Heval. unfold selects.
  apply get_stored in Hv as (e & p & He & Hp & _ & _ & Hty & <- & _). destruct (ss_values0 e He) as (r & p' & Hp' & Hr).
  rewrite Hp in Hp'. injection Hp' as <-. unfold added_row in Hr. rewrite Hty in Hr. apply result_bind_ok in Hr as (enc & Hx & _).
  destruct (encoded_meaning o lay q (pk_user_key p) (snd e) enc) as (sq' & b & _ & Eb & _); try done. by rewrite Eb.
Qed.

Definition checked_scan : bool := skippable_value_format sh && negb (skippable_value_format sh && whole_scan_authority sh).

(** The constructor's iterator, over the merge of the whole tree. *)
Lemma scan_iter_ok mode :
  exists it sq cq rows, scan_iter mode = Ok it /\ EncodeQuery q o = Ok sq /\ CompileQuery q o = Ok cq /\
    @seeks merging Merge (smi_ it) rows /\
    gathered parse_key icmp db read_seqno lay q (bool_decide (mode = Verified))
      (bool_decide (mode = Verified) && checked_scan) (all_entries db) rows /\
    result_mode_ it = mode /\ bi_compiled it = (match mode with Verified => Some cq | Candidate => None end) /\
    authoritative_scan_ it = bool_decide (mode = Verified) && (skippable_value_format sh && whole_scan_authority sh) /\
    ok (bi_status it) = true /\
    (check_enabled_ it = true -> bool_decide (mode = Verified) && checked_scan = true /\
       exists ck, checker_ it = Some ck /\ handles_ok FindTable db ck).
Proof.
  destruct queries_compile as (sq & cq & Es & Ec & _). pose proof Hset as [].
  destruct (merge_gathered parse_key user_key_of icmp lookup_ikey R db FindTable ss_interval0 read_seqno o lay q sq cq
    ss_schema0 ss_fits0 ss_num0 ss_layout0 ss_query0 ss_valid0 ss_query_fits0 Es Ec ss_db0 ss_icmp0 ss_order0
    (bool_decide (mode = Verified)) (bool_decide (mode = Verified) && checked_scan) ss_values0 ss_tables0)
    as (m & rows & Em & Hseek & Hg).
  unfold scan_iter, new_bit_iter. rewrite (bool_decide_false (Some read_seqno = None)) by done.
  rewrite andb_false_r. cbn [default]. rewrite Es. unfold checked_scan in *. destruct mode.
  - rewrite Ec. rewrite (bool_decide_true (Verified = Verified)) in Em |- * by done. cbn [mbind result_bind andb] in Em |- *.
    unfold id. rewrite Em. cbn [mbind result_bind]. eexists _, sq, cq, rows. split; [reflexivity|]. cbn [smi_ result_mode_ bi_compiled authoritative_scan_ bi_status check_enabled_ checker_].
    rewrite (bool_decide_true (Verified = Verified)) in Hg by done.
    split_and!; try done. intros ->. split; [done|]. eexists. split; [done|]. apply handles_empty.
  - rewrite (bool_decide_false (Candidate = Verified)) in Em |- * by done. cbn [mbind result_bind andb] in Em |- *.
    unfold id. rewrite Em. cbn [mbind result_bind]. eexists _, sq, cq, rows. split; [reflexivity|].
    rewrite (bool_decide_false (Candidate = Verified)) in Hg by done. split_and!; done.
Qed.

Section Gathered.
Context (verify track : bool) (rows : list scan_row).
Context (Hg : gathered parse_key icmp db read_seqno lay q verify track (all_entries db) rows).

Lemma gathered_row row :
  row ∈ rows -> exists s p, is_source db s /\ shows_entry parse_key db read_seqno lay q verify track s row /\
    parse_key (sr_key row) = Some p.
Proof.
  intros Hr. destruct (ga_rows _ _ _ _ _ _ _ _ _ _ Hg row Hr) as (s & Hs & Hshow).
  destruct (shown_entry _ _ _ _ Hs Hshow) as (e & p & _ & _ & _ & _ & Hp & _). by exists s, p.
Qed.
Lemma gathered_fresh : StronglySorted blt ([] :: map (row_key parse_key) (fresh parse_key [] rows)).
Proof.
  apply fresh_sorted; [apply Hg| |intros; apply nil_ble]. intros row Hr. destruct (gathered_row row Hr) as (s & p & _ & _ & Hp). eauto.
Qed.
(** Every non-empty key of the answer is a candidate. *)
Lemma answer_candidate k v :
  in_answer k v -> k <> [] -> exists row, row ∈ fresh parse_key [] rows /\ row_key parse_key row = k.
Proof.
  intros [Hk Hsel] Hne. apply get_stored in Hk as (e & p & He & Hp & Hu & Hsq & Hty & Hv & _).
  destruct (ga_all _ _ _ _ _ _ _ _ _ _ Hg e He) as (row & Hr & Ek).
  { unfold wanted, entry_visible, as_row, visible, TableSpec.matches. cbn [br_key br_value]. rewrite Hp, Hty.
    apply Z.leb_le in Hsq. unfold selects in Hsel. rewrite Hsq, Hv. by rewrite Hsel. }
  rewrite <- Hu in *. by eapply fresh_complete; rewrite ?Ek.
Qed.
End Gathered.

(** ** Verified mode *)

(** What the rows of a run are: in strictly increasing key order, without the
    empty key, every key of the answer with its value, and beside those only
    rows a range tombstone of their own file deletes. *)
Record query_answers (answers : list (bytes * bytes)) : Prop := {
  qa_sorted : StronglySorted blt (map fst answers);
  qa_sound k v : (k, v) ∈ answers -> k <> [] /\ CheckCondition q v lay = Ok true /\ (read k = Some v \/ deleted_here k v);
  qa_complete k v : read k = Some v -> CheckCondition q v lay = Ok true -> k <> [] -> (k, v) ∈ answers;
}.
Lemma query_answers_exact answers k v :
  query_answers answers -> no_own_tombstones parse_key read_seqno db ->
  (k, v) ∈ answers <-> (read k = Some v /\ CheckCondition q v lay = Ok true) /\ k <> [].
Proof.
  intros Hqa Hno. split; [|intros [[? ?] ?]; by apply (qa_complete _ Hqa)].
  intros (? & ? & [?|Hdel])%(qa_sound _ Hqa); [done|]. by apply own_file_deleted_never in Hdel.
Qed.

Lemma selects_true v : selects v = true <-> CheckCondition q v lay = Ok true.
Proof. unfold selects. destruct (CheckCondition q v lay) as [[]|]; split; congruence. Qed.

(** What the iterator concludes from a row it trusts. *)
Definition trusted (row : scan_row) : Prop :=
  selects (sr_value row) = true /\
  (read (row_key parse_key row) = Some (sr_value row) \/ deleted_here (row_key parse_key row) (sr_value row)).
Local Abbreviation scan_emitted := (emitted parse_key read selects trusted).
Local Abbreviation scan_emits := (emits parse_key read selects trusted).

Lemma emitted_key mode row x : scan_emitted mode row (Some x) -> fst x = row_key parse_key row.
Proof.
  unfold emitted, answer. destruct mode; [|by intros [= ->]]. intros [Hx|[_ [= ->]]]; [|done].
  destruct (read _) as [v|]; [|done]. destruct (selects v); by simplify_eq.
Qed.
Lemma emits_sorted mode rows out :
  scan_emits mode rows out -> StronglySorted blt ([] :: map (row_key parse_key) rows) -> StronglySorted blt ([] :: map fst out).
Proof.
  generalize (@nil byte) as lo. induction 1 as [|row x rows out Hx Hrest IH]; intros Hs; [done|].
  cbn [map] in Hs. apply StronglySorted_inv in Hs as [[Hs1 Hgt]%StronglySorted_inv [Hlt Hlo]%Forall_cons].
  specialize (IH (SSorted_cons _ Hs1 Hlo)). destruct x as [x|]; [|done]. cbn. rewrite (emitted_key _ _ _ Hx).
  apply StronglySorted_inv in IH as [IH Hall].
  assert (Forall (blt (row_key parse_key row)) (map fst out)) as Hmore.
  { apply Forall_map, Forall_forall. intros y Hy. destruct (emits_elem _ _ _ _ _ _ _ _ Hrest Hy) as (r & Hr & Hk).
    rewrite (emitted_key _ _ _ Hk). apply (proj1 (Forall_forall _ _) Hgt). by apply list_elem_of_fmap_2. }
  constructor; [by constructor|]. by constructor.
Qed.

(** The rows a verified run emits. *)
Lemma emits_answers track rows answers :
  gathered parse_key icmp db read_seqno lay q true track (all_entries db) rows ->
  scan_emits Verified (fresh parse_key [] rows) answers -> query_answers answers.
Proof.
  intros Hg Hem. destruct (StronglySorted_inv (emits_sorted _ _ _ Hem (gathered_fresh _ _ _ Hg))) as [Hsort Hne]. split; [done|..].
  - intros k v Hin. split.
    { intros ->. assert (@nil byte ∈ map fst answers) as Hk by (by apply (list_elem_of_fmap_2 fst _ ([], v))).
      apply (proj1 (Forall_forall _ _) Hne) in Hk. by apply blt_irrefl in Hk. }
    destruct (emits_elem _ _ _ _ _ _ _ _ Hem Hin) as (row & _ & [Hx|[[Hsel Hr] [= -> ->]]]); [|by rewrite selects_true in Hsel].
    unfold answer in Hx. destruct (read (row_key parse_key row)) as [v'|] eqn:Er; [|done].
    destruct (selects v') eqn:Ev; [|done]. injection Hx as -> ->. apply selects_true in Ev. auto.
  - intros k v Hr Hv%selects_true Hk. destruct (answer_candidate _ _ _ Hg k v (conj Hr Hv) Hk) as (row & Hrow & <-).
    destruct (emits_contain _ _ _ _ _ _ _ _ Hem Hrow) as (x & Hx & Hsub). apply Hsub. unfold emitted, answer, trusted in Hx.
    rewrite Hr, Hv in Hx. destruct Hx as [->|[[_ [[= ->]|Hdel]] ->]]; [by left..|].
    apply own_file_deleted_none in Hdel. congruence.
Qed.

Lemma verified_scan :
  exists it n, scan_iter Verified = Ok it /\
    forall fuel, (n <= fuel)%nat -> exists answers out last, query_answers answers /\
      scan_run read_row fuel it = Ok (out, last) /\ bi_valid last = false /\
      out `prefix_of` answers /\ (ok (bi_status last) = true -> out = answers).
Proof.
  destruct (scan_iter_ok Verified) as (it & sq & cq & rows & Eit & Es & Ec & Hseek & Hg & Hm & Hcq & Ha & Hst & Hck).
  rewrite (bool_decide_true (Verified = Verified)) in Hg, Ha by done. cbn [andb] in Hg, Ha.
  destruct queries_compile as (sq' & cq' & _ & Ec' & Heval). rewrite Ec in Ec'. injection Ec' as <-.
  exists it, (S (length rows)). split; [done|]. intros fuel Hf. unfold scan_run.
  pose proof (shadow_checker_laws FindTable tb_filter tb_whole_key mem_Get imm_Get lookup_ikey user_key_of FindFile bcompare
    (l_levels db) read_seqno parse_key icmp db (ss_db Hset) (ss_icmp Hset) (ss_lookup Hset) eq_refl eq_refl) as Hlaws.
  edestruct (@run_ok merging Merge checker_class parse_key MultiGet Verified (Some cq) (authoritative_scan_ it) checked_scan read selects
    (handles_ok FindTable db) (unshadowed read_seqno parse_key db) Hlaws (ss_multiget Hset) Heval trusted _ read_row (fun x => x)
    reads_row fuel it rows) as (answers & out & last & Hem & E & Hv & Hp & Hok); try done.
  - apply Forall_forall. intros row Hr. destruct (gathered_row _ _ _ Hg row Hr) as (s & p & Hs & Hshow & Hp).
    destruct (shown_entry _ _ _ _ Hs Hshow) as (e & p' & _ & _ & _ & _ & Hp' & _ & _ & Hsel & _).
    rewrite Hp in Hp'. injection Hp' as <-. specialize (Hsel eq_refl). unfold row_good, trusted, row_key, row_seqno. rewrite Hp. split.
    + intros Hau. rewrite Ha in Hau. apply andb_true_iff in Hau as [_ Hau]. split; [done|]. left.
      by apply (authoritative_row _ s row p Hau Hs Hshow Hp).
    + intros Ht Hnew Hun. split; [done|]. by apply (cleared_row checked_scan s row p Hs Hshow Ht Hnew Hp Hun).
  - rewrite map_id in *. exists answers, out, last. split; [|done]. by eapply emits_answers.
Qed.

(** ** Candidate mode *)
Lemma candidate_scan :
  exists it n keys, scan_iter Candidate = Ok it /\ StronglySorted blt keys /\
    (forall k v, in_answer k v -> k <> [] -> k ∈ keys) /\
    (forall k, k ∈ keys -> k <> [] /\ exists e p, e ∈ all_entries db /\ parse_key (fst e) = Some p /\ pk_user_key p = k /\
       pk_sequence p <= read_seqno /\ is_value (pk_type p) = true) /\
    forall fuel, (n <= fuel)%nat -> exists out last, scan_run bit_key fuel it = Ok (out, last) /\ bi_valid last = false /\
      out `prefix_of` keys /\ (ok (bi_status last) = true -> out = keys).
Proof.
  destruct (scan_iter_ok Candidate) as (it & sq & cq & rows & Eit & Es & Ec & Hseek & Hg & Hm & Hcq & Ha & Hst & Hck).
  rewrite (bool_decide_false (Candidate = Verified)) in Hg, Ha, Hck by done. cbn [andb] in Hg, Ha, Hck.
  pose proof (gathered_fresh _ _ _ Hg) as [Hsort Hne]%StronglySorted_inv.
  exists it, (S (length rows)), (map (row_key parse_key) (fresh parse_key [] rows)). split; [done|]. split; [done|]. split_and!.
  - intros k v Hk Hn. destruct (answer_candidate _ _ _ Hg k v Hk Hn) as (row & Hr & <-). by apply list_elem_of_fmap_2.
  - intros k Hk. split; [intros ->; apply (proj1 (Forall_forall _ _) Hne) in Hk; by apply blt_irrefl in Hk|].
    apply list_elem_of_fmap in Hk as (row & -> & Hr%fresh_incl).
    destruct (gathered_row _ _ _ Hg row Hr) as (s & p & Hs & Hshow & Hp).
    destruct (shown_entry _ _ _ _ Hs Hshow) as (e & p' & _ & Hall & Hk & _ & Hp' & Hsq & Hty & _).
    rewrite Hp in Hp'. injection Hp' as <-. exists e, p. rewrite <- Hk. unfold row_key. rewrite Hp. done.
  - intros fuel Hf. unfold scan_run.
    pose proof (shadow_checker_laws FindTable tb_filter tb_whole_key mem_Get imm_Get lookup_ikey user_key_of FindFile bcompare
      (l_levels db) read_seqno parse_key icmp db (ss_db Hset) (ss_icmp Hset) (ss_lookup Hset) eq_refl eq_refl) as Hlaws.
    edestruct (@run_ok merging Merge checker_class parse_key MultiGet Candidate None false false read (fun _ => true)
      (handles_ok FindTable db) (unshadowed read_seqno parse_key db) Hlaws (ss_multiget Hset)
      (fun _ _ _ => eq_refl) (fun _ => True) _ bit_key fst reads_key fuel it rows) as (all & out & last & Hem & Hrun); try done.
    + apply Forall_forall. intros row _. by split.
    + rewrite (emits_candidates _ _ _ _ _ _ Hem) in Hrun. by exists out, last.
Qed.
End ScanSpec.

(** (C1) What a query returns. Over any tree that meets RocksDB's invariants,
    whose files were written with their index, for every schema and query the
    validators accept: the constructor returns an iterator, and with enough
    fuel draining it stops. What it returned is a prefix, and the whole when the
    final status is OK, of a list of rows in strictly increasing key order that
    holds every non-empty key for which a read at the snapshot returns a value
    the query selects, with that value, and nothing else but rows whose key has
    a deleted newest version that the query selects and that only range
    tombstones of the file holding it delete. When no file holds a key together
    with a newer visible range tombstone over it, the list is exactly the
    answer without the empty key. This holds on every path: authoritative scan,
    shadow check on, shadow check switched off. *)
Theorem query_returns_matches `{RoaringOps} `{!RoaringLaws _} {Src : BinSource} parse_key user_key_of icmp lookup_ikey R db
    FindTable mem_Get imm_Get FindFile MultiGet read_seqno o q sh lay :
  scan_setting parse_key user_key_of icmp lookup_ikey R db FindTable mem_Get imm_Get FindFile MultiGet read_seqno o q sh lay ->
  exists it n,
    scan_iter parse_key user_key_of lookup_ikey R db FindTable mem_Get imm_Get FindFile read_seqno o q sh Verified = Ok it /\
    forall fuel, (n <= fuel)%nat -> exists answers out last,
      scan_run parse_key user_key_of icmp lookup_ikey db FindTable mem_Get imm_Get FindFile MultiGet read_seqno read_row fuel it
        = Ok (out, last) /\
      bi_valid last = false /\ out `prefix_of` answers /\ (ok (bi_status last) = true -> out = answers) /\
      StronglySorted blt (map fst answers) /\
      (forall k v, get parse_key read_seqno db k = Some v -> CheckCondition q v lay = Ok true -> k <> [] -> (k, v) ∈ answers) /\
      (forall k v, (k, v) ∈ answers -> k <> [] /\ CheckCondition q v lay = Ok true /\
         (get parse_key read_seqno db k = Some v \/ own_file_deleted parse_key read_seqno db k v)) /\
      (no_own_tombstones parse_key read_seqno db -> forall k v, (k, v) ∈ answers <->
         (get parse_key read_seqno db k = Some v /\ CheckCondition q v lay = Ok true) /\ k <> []).
Proof.
  intros Hset. destruct (verified_scan _ _ _ _ _ _ _ _ _ _ _ _ _ _ _ _ Hset) as (it & n & E & Hrun).
  exists it, n. split; [done|]. intros fuel Hf. destruct (Hrun fuel Hf) as (answers & out & last & Hqa & Er & Hv & Hp & Hok).
  exists answers, out, last. split_and!; try done; [apply Hqa..|]. intros Hno k v. by apply query_answers_exact.
Qed.

(** (C4) Candidate mode is a superset. In the same setting, with the snapshot
    injected, the keys a drained iterator returned are a prefix of a strictly
    increasing list of keys that contains every non-empty key of the answer,
    and the whole list when the final status is OK; each key has a visible
    value in the tree. *)
Theorem candidates_cover_matches `{RoaringOps} `{!RoaringLaws _} {Src : BinSource} parse_key user_key_of icmp lookup_ikey R db
    FindTable mem_Get imm_Get FindFile MultiGet read_seqno o q sh lay :
  scan_setting parse_key user_key_of icmp lookup_ikey R db FindTable mem_Get imm_Get FindFile MultiGet read_seqno o q sh lay ->
  exists it n keys,
    scan_iter parse_key user_key_of lookup_ikey R db FindTable mem_Get imm_Get FindFile read_seqno o q sh Candidate = Ok it /\
    StronglySorted blt keys /\
    (forall k v, get parse_key read_seqno db k = Some v -> CheckCondition q v lay = Ok true -> k <> [] -> k ∈ keys) /\
    (forall k, k ∈ keys -> k <> [] /\ exists e p, e ∈ all_entries db /\ parse_key (fst e) = Some p /\ pk_user_key p = k /\
       pk_sequence p <= read_seqno /\ is_value (pk_type p) = true) /\
    forall fuel, (n <= fuel)%nat -> exists out last,
      scan_run parse_key user_key_of icmp lookup_ikey db FindTable mem_Get imm_Get FindFile MultiGet read_seqno bit_key fuel it
        = Ok (out, last) /\
      bi_valid last = false /\ out `prefix_of` keys /\ (ok (bi_status last) = true -> out = keys).
Proof.
  intros Hset. destruct (candidate_scan _ _ _ _ _ _ _ _ _ _ _ _ _ _ _ _ Hset) as (it & n & keys & E & Hs & Hin & Hrun).
  exists it, n, keys. split; [done|]. split; [done|]. split; [|done]. intros k v Hk Hv. apply (Hin k v). split; [done|].
  by apply selects_true.
Qed.
