(* ===== verification/ScanDemo.v ===== *)
(** * A small tree

    A memtable over one level-1 file (the table of [TableDemo]), with a newer
    version of one key in the memtable. It meets the assumptions of the scan
    theorems. *)
From Stdlib Require Import ZArith Lia Strings.Byte Strings.String Sorting.Sorted.
From stdpp Require Import base numbers strings list sets sorting gmap.
From S2P Require Import Prelude Options Row Okey BytesList Query QuerySpec Externals Intern.
From S2P Require Import RangeBuf Binning Builder Reader Index ReaderSpec BuilderSpec BlobSpec.
From S2P Require Import SstIndex BinSource TableIter QueryBitmap TableScan TableSpec.
From S2P Require Import Iterators Merging Lsm Shadow TopIterator BatchSpec LsmScan ScanSpec.

Module ScanDemo.
Import TableDemo.

(** Keys: user key, one byte of sequence number, one byte of type. *)
Definition seqno_of (k : bytes) : Z := match parse_key k with Some p => pk_sequence p | None => 0 end.
Definition icmp (a b : bytes) : comparison :=
  match bcompare (user_key_of a) (user_key_of b) with Eq => Z.compare (seqno_of b) (seqno_of a) | c => c end.
Definition lookup_ikey (uk : bytes) (n : Z) : bytes := uk ++ [z2b n; x01].

Definition mem_entries : list (bytes * bytes) := Eval vm_compute in
  [([x62; x0a; x01], value [AInt (-3); AString [x7a]]); ([x66; x08; x01], value [AInt 0; AString [x78]])].
Definition file : FileMetaData := mkFileMetaData 7 [x61; x09; x01] [x65; x01; x01] 20 0.
Definition levels : list (list FileMetaData) := [[]; [file]].
Definition db : lsm :=
  mkLsm [mkMemtable mem_entries OK] [] levels (fun f => if fm_number f =? 7 then blocks else []) (fun _ => []).
Definition shape : lsm_shape := mkLsmShape 2 0 levels false false.

Definition file_keys : list bytes := [[x61]; [x62]; [x63]; [x64]; [x65]].
Definition FindTable (r : SABIReader) (f : FileMetaData) : @table_reader _ resident_source + Status :=
  if fm_number f =? 7 then
    inl (@mkTableReader _ resident_source (inl r) r load_block (Some (fun uk _ => existsb (beqb uk) file_keys)) true)
  else inr (Corruption "missing").
Definition mem_Get (lk : bytes) : mem_answer :=
  if beqb (user_key_of lk) [x62] then mkMemAnswer true 0 10
  else if beqb (user_key_of lk) [x66] then mkMemAnswer true 0 8 else mkMemAnswer false 0 0.
Definition imm_Get (lk : bytes) : mem_answer := mkMemAnswer false 0 0.
Fixpoint FindFile (files : list FileMetaData) (k : bytes) : nat :=
  match files with
  | [] => 0
  | f :: rest => match icmp (fm_largest f) k with Lt => S (FindFile rest k) | _ => 0 end
  end.
Definition read (k : bytes) : option bytes := get parse_key 10 db k.
Definition MultiGet (ks : list bytes) : list (bytes + Status) :=
  map (fun k => match read k with Some v => inl v | None => inr (NotFound "") end) ks.

(** ** The assumptions hold *)
Lemma parse_user k p : parse_key k = Some p -> pk_user_key p = user_key_of k /\ pk_sequence p = seqno_of k.
Proof.
  intros E. unfold seqno_of. rewrite E. split; [|done]. unfold parse_key in E. unfold user_key_of.
  destruct (reverse k) as [|t [|s u]] eqn:Er; try done. injection E as <-. cbn [pk_user_key].
  rewrite <- (reverse_involutive k), Er, !reverse_cons, <- app_assoc, length_app. cbn [length app].
  rewrite take_app_le by lia. symmetry. apply take_ge. lia.
Qed.
Lemma parse_lookup uk : parse_key (lookup_ikey uk 10) = Some (mkParsedInternalKey uk 10 (kTypeOther 1)).
Proof.
  unfold parse_key, lookup_ikey. rewrite reverse_app. change (reverse [z2b 10; x01]) with [x01; z2b 10].
  cbn [app]. by rewrite reverse_involutive.
Qed.
Lemma icmp_laws : icmp_ok parse_key icmp lookup_ikey 10.
Proof.
  split.
  - done.
  - intros a b pa pb Ha Hb Hne. unfold icmp. destruct (parse_user _ _ Ha) as [-> _], (parse_user _ _ Hb) as [-> _].
    destruct (parse_user _ _ Ha) as [Ea _], (parse_user _ _ Hb) as [Eb _]. rewrite Ea, Eb in Hne.
    destruct (bcompare (user_key_of a) (user_key_of b)) eqn:E; try done. by apply bcompare_eq in E.
  - intros a b pa pb Ha Hb Hu Hs. unfold icmp. destruct (parse_user _ _ Ha) as [Ea Sa], (parse_user _ _ Hb) as [Eb Sb].
    by rewrite <- Ea, <- Eb, Hu, bcompare_refl, <- Sa, <- Sb.
  - intros uk. eexists. split; [apply parse_lookup|done].
  - intros k p Hp Hs. destruct (parse_user _ _ Hp) as [Eu Es]. unfold icmp.
    destruct (parse_user _ _ (parse_lookup (pk_user_key p))) as [Eu' Es']. cbn in Eu', Es'. rewrite <- Eu, <- Eu', bcompare_refl, <- Es', <- Es.
    rewrite Z.compare_lt_iff. lia.
Qed.
Lemma icmp_order : StrictWeak (fun a b : bytes => match icmp a b with Gt => true | _ => false end).
Proof.
  assert (forall a b, match icmp a b with Gt => true | _ => false end = true <->
    blt (user_key_of b) (user_key_of a) \/ user_key_of a = user_key_of b /\ seqno_of a < seqno_of b) as Hgt.
  { intros a b. unfold icmp, blt. rewrite (bcompare_antisym (user_key_of a)).
    destruct (bcompare (user_key_of a) (user_key_of b)) eqn:E; cbn [CompOpp].
    - apply bcompare_eq in E. destruct (Z.compare_spec (seqno_of b) (seqno_of a)); intuition (congruence || lia).
    - split; [done|]. intros [?|[E' _]]; [done|]. by rewrite E', bcompare_refl in E.
    - split; [by left|done]. }
  split.
  - intros x. apply not_true_iff_false. rewrite Hgt. intros [?%blt_irrefl|[_ ?]]; [done|lia].
  - intros x y z. rewrite !Hgt. intros [H1|[E1 H1]] [H2|[E2 H2]].
    + left. by eapply blt_trans.
    + left. by rewrite <- E2.
    + left. by rewrite E1.
    + right. split; [congruence|lia].
  - intros x y z. rewrite <- !not_true_iff_false, !Hgt. intros N1 N2 [H3|[E3 H3]].
    + destruct (blt_total (user_key_of y) (user_key_of x)) as [?|[E|?]]; [tauto| |].
      * rewrite <- E in H3. tauto.
      * apply N2. left. by eapply blt_trans.
    + destruct (blt_total (user_key_of y) (user_key_of x)) as [?|[E|?]]; [tauto| |].
      * destruct (Z.lt_ge_cases (seqno_of x) (seqno_of y)); [apply N1; right; done|]. apply N2. right. split; [congruence|lia].
      * apply N2. left. by rewrite <- E3.
Qed.

Lemma sources s : is_source db s -> s = Memtables \/ s = InFile 1 file.
Proof.
  destruct s as [|level f]; [by left|]. intros (files & Hl & Hf). right. cbn in Hl.
  destruct level as [|[|level]]; [| |done]; injection Hl as <-; [by apply not_elem_of_nil in Hf|].
  apply list_elem_of_singleton in Hf as ->. done.
Qed.
Ltac cases H := repeat (apply elem_of_cons in H; destruct H as [->|H]); try (by apply not_elem_of_nil in H).
Lemma entries_are : all_entries db = mem_entries ++ concat blocks.
Proof. reflexivity. Qed.

Lemma db_ok : lsm_ok parse_key user_key_of icmp db.
Proof.
  split.
  - intros e He. rewrite entries_are in He. cases He; by eexists.
  - intros uk n e He (p & Hp & _ & <-). rewrite entries_are in He. cases He; injection Hp as <-; unfold kMaxSequenceNumber; cbn; lia.
  - intros uk n e e' He He' (p & Hp & <- & <-) (p' & Hp' & Hu & Hn). rewrite entries_are in He, He'.
    cases He; injection Hp as <-; cases He'; try done; injection Hp' as <-; done.
  - intros s s' uk n n' e e' [->| ->]%sources [->| ->]%sources Hlt He He' (p & Hp & <- & <-) (p' & Hp' & Hu & <-); try (cbn in Hlt; unfold kMemtableSourceLevel in Hlt; lia).
    change (entries_in db Memtables) with mem_entries in He. change (entries_in db (InFile 1 file)) with (concat blocks) in He'.
    cases He; injection Hp as <-; cases He'; injection Hp' as <-; try done; cbn; lia.
  - intros s s' uk n e d _ [->| ->]%sources _ _ _ Hd; by apply not_elem_of_nil in Hd.
  - intros level f e uk n [[=]|[= -> ->]]%sources He (p & Hp & _ & <-). change (concat (l_blocks db file)) with (concat blocks) in He.
    cases He; injection Hp as <-; cbn; lia.
  - intros level f d _ Hd. by apply not_elem_of_nil in Hd.
  - intros level f e [[=]|[= -> ->]]%sources He. change (concat (l_blocks db file)) with (concat blocks) in He.
    cases He; done.
  - intros level f d uk _ Hd. by apply not_elem_of_nil in Hd.
  - done.
  - intros level f [[=]|[= -> ->]]%sources. by eexists.
  - intros level files i j f g _ Hl Hf Hg Hij. cbn in Hl. destruct level as [|[|level]]; [| |done]; injection Hl as <-; [done|].
    destruct j as [|j]; [lia|done].
  - intros level level' f g [[=]|[= -> ->]]%sources [[=]|[= -> ->]]%sources _. done.
  - intros m ->%list_elem_of_singleton. repeat constructor.
  - intros level f [[=]|[= -> ->]]%sources. change (concat (l_blocks db file)) with (concat blocks). repeat constructor.
Qed.

Lemma find_file_spec files k :
  (forall i f, files !! i = Some f -> (i < FindFile files k)%nat -> icmp (fm_largest f) k = Lt) /\
  (forall f, files !! FindFile files k = Some f -> icmp (fm_largest f) k <> Lt) /\ (FindFile files k <= length files)%nat.
Proof.
  induction files as [|g files (IH1 & IH2 & IH3)]; cbn [FindFile]; [split_and!; [done|done|cbn; lia]|].
  destruct (icmp (fm_largest g) k) eqn:E; cbn [length].
  - split_and!; [lia|intros f [= <-]; congruence|lia].
  - split_and!; [|exact IH2|lia]. intros [|i] f Hf Hi; [by injection Hf as <-|]. apply (IH1 i); [done|lia].
  - split_and!; [lia|intros f [= <-]; congruence|lia].
Qed.
Lemma user_key_lookup uk : user_key_of (lookup_ikey uk 10) = uk.
Proof. by destruct (parse_user _ _ (parse_lookup uk)) as [<- _]. Qed.
Lemma lookup_ok r : lookup_laws (FindTable r) tb_filter tb_whole_key mem_Get imm_Get lookup_ikey FindFile 10 parse_key icmp db.
Proof.
  split.
  - intros uk n e He (p & Hp & Hu & <-) _. left. unfold mem_Get. rewrite user_key_lookup.
    change (entries_in db Memtables) with mem_entries in He. cases He; injection Hp as <-; cbn in Hu; subst uk; left; cbn; split; done || lia.
  - intros uk d Hd. by apply not_elem_of_nil in Hd.
  - intros files i f k. apply find_file_spec.
  - intros files f k. apply find_file_spec.
  - intros files k. apply find_file_spec.
  - intros level f t may uk n e ik [[=]|[= -> ->]]%sources Et Em _ He (p & Hp & <- & _). injection Et as <-. injection Em as <-.
    change (concat (l_blocks db file)) with (concat blocks) in He. cases He; injection Hp as <-; reflexivity.
Qed.
Lemma values_are_ok : values_ok parse_key db lay.
Proof.
  intros e He. rewrite entries_are in He. cases He; eexists _, _; (split; [reflexivity|]); vm_compute; reflexivity.
Qed.

Lemma setting r :
  mode_ r = kResident -> reads_table (FromOptions demo_options) events rows r ->
  @scan_setting _ resident_source parse_key user_key_of icmp lookup_ikey 16 db (FindTable r) mem_Get imm_Get FindFile MultiGet
    10 demo_options demo_query shape lay.
Proof.
  intros Hm Hr. pose proof (resident_reads_index _ _ _ _ Hr Hm) as Hri.
  assert (TotalBins r = zlen (bitmaps (rd_index r))) as Htot.
  { rewrite (rt_bins _ _ _ _ Hr). symmetry. exact (io_bitmaps _ _ _ (ri_index _ _ _ _ Hri)). }
  split; try first [exact demo_schema_ok|exact demo_schema_fits|exact demo_attr_num|exact lay_ok|exact demo_query_wf|
    exact demo_query_fits|exact db_ok|exact icmp_laws|exact icmp_order|exact (lookup_ok r)|exact values_are_ok|done].
  - intros ks. unfold MultiGet. induction ks as [|k ks IH]; constructor; [|exact IH]. unfold fetched. fold (read k).
    by destruct (read k).
  - intros level f [[=]|[= -> ->]]%sources. cbn [FindTable fm_number file Z.eqb Pos.eqb index_of tb_udi].
    exists events, handles, rows, (rd_index r), (fun s => s = r). split_and!; try first [exact wrote_ok|exact rows_ok|exact loads_ok|exact (resident_laws r Htot)|done].
Qed.

(** ** Two trees with rows the scan treats unlike a read *)

(** A memtable with a row under the empty key. *)
Definition empty_key_row : bytes * bytes := Eval vm_compute in ([x05; x01], value [AInt (-3); AString [x7a]]).
Definition empty_key_db : lsm := mkLsm [mkMemtable [empty_key_row] OK] [] [[]] (fun _ => []) (fun _ => []).
Definition no_table (f : FileMetaData) : @table_reader _ resident_source + Status := inr (Corruption "missing").

(** A file with a row and a newer range tombstone over it, both kept because a
    snapshot lies between them. *)
Definition covered_file : FileMetaData := mkFileMetaData 9 [x60; x02; x01] [x63; x08; x01] 8 1.
Definition covered_db : lsm :=
  mkLsm [] [] [[covered_file]] (fun _ => [[([x60; x02; x01], value [AInt 0; AString [x78]]); ([x61; x03; x01], value [AInt (-3); AString [x7a]])]])
    (fun _ => [mkRdel 8 (fun k => bleb [x61] k && bltb k [x63])]).
End ScanDemo.

Lemma query_returns_matches_witness : exists r it (answers : list (bytes * bytes)) v,
  @scan_iter _ resident_source TableDemo.parse_key TableDemo.user_key_of ScanDemo.lookup_ikey 16 ScanDemo.db (ScanDemo.FindTable r)
    ScanDemo.mem_Get ScanDemo.imm_Get ScanDemo.FindFile 10 demo_options demo_query ScanDemo.shape Verified = Ok it /\
  ScanDemo.mem_entries !! 0%nat = Some ([x62; x0a; x01], v) /\ ([x62], v) ∈ answers.
Proof.
  destruct TableDemo.demo_reader as (r & Hm & Hr).
  destruct (@query_returns_matches _ _ resident_source _ _ _ _ _ _ _ _ _ _ _ _ _ _ _ _ (ScanDemo.setting r Hm Hr))
    as (it & n & E & Hrun). destruct (Hrun n (le_n n)) as (answers & out & last & _ & _ & _ & _ & _ & Hin & _).
  eexists r, it, answers, _. split; [exact E|]. split; [reflexivity|]. apply Hin; [vm_compute; reflexivity..|done].
Defined.
Lemma candidates_cover_matches_witness : exists r it (keys : list bytes),
  @scan_iter _ resident_source TableDemo.parse_key TableDemo.user_key_of ScanDemo.lookup_ikey 16 ScanDemo.db (ScanDemo.FindTable r)
    ScanDemo.mem_Get ScanDemo.imm_Get ScanDemo.FindFile 10 demo_options demo_query ScanDemo.shape Candidate = Ok it /\
  [x62] ∈ keys.
Proof.
  destruct TableDemo.demo_reader as (r & Hm & Hr).
  destruct (@candidates_cover_matches _ _ resident_source _ _ _ _ _ _ _ _ _ _ _ _ _ _ _ _ (ScanDemo.setting r Hm Hr))
    as (it & n & keys & E & Hs & Hin & _).
  exists r, it, keys. split; [exact E|]. eapply Hin; [vm_compute; reflexivity|vm_compute; reflexivity|done].
Defined.

(** A row whose user key is empty is never returned ([query_returns_matches]),
    because the iterator takes the empty string for "no key added yet". On a
    memtable with one such row, a read returns its value and the query selects
    it, and the drained scan ends with an OK status and no rows. *)
Example empty_key_lost :
  get TableDemo.parse_key 10 ScanDemo.empty_key_db [] = Some (snd ScanDemo.empty_key_row) /\
  CheckCondition demo_query (snd ScanDemo.empty_key_row) TableDemo.lay = Ok true /\
  (it ← @scan_iter _ resident_source TableDemo.parse_key TableDemo.user_key_of ScanDemo.lookup_ikey 16 ScanDemo.empty_key_db
      ScanDemo.no_table ScanDemo.imm_Get ScanDemo.imm_Get ScanDemo.FindFile 10 demo_options demo_query
      (mkLsmShape 1 0 [[]] false false) Verified;
   '(out, last) ← scan_run TableDemo.parse_key TableDemo.user_key_of ScanDemo.icmp ScanDemo.lookup_ikey ScanDemo.empty_key_db
      ScanDemo.no_table ScanDemo.imm_Get ScanDemo.imm_Get ScanDemo.FindFile ScanDemo.MultiGet 10 read_row 100 it;
   Ok (out, bi_status last)) = Ok ([], OK).
Proof. split; [|split]; vm_compute; reflexivity. Qed.

(** The shadow check passes over the candidate's own file before it looks at
    range deletions ([own_file_ignored]). For a row under a newer range tombstone
    of the same file, a read returns nothing, the row (the second of its file)
    carries no flag for a newer version, and the check answers that there is
    none. *)
Example own_tombstone_missed :
  get TableDemo.parse_key 10 ScanDemo.covered_db [x61] = None /\
  map br_shadowed (file_rows true 16 TableDemo.user_key_of (l_blocks ScanDemo.covered_db ScanDemo.covered_file)) = [true; false] /\
  fst (MayHaveNewerVersion ScanDemo.no_table tb_filter tb_whole_key ScanDemo.imm_Get ScanDemo.imm_Get
    ScanDemo.lookup_ikey TableDemo.user_key_of ScanDemo.FindFile bcompare (l_levels ScanDemo.covered_db) 10
    [x61] 3 0 9 ∅) = false.
Proof. split; [|split]; vm_compute; reflexivity. Qed.

(** The same check when the file had no range deletion at all. *)
Definition untombed (f : FileMetaData) : FileMetaData :=
  if fm_number f =? 9 then mkFileMetaData 9 (fm_smallest f) (fm_largest f) (fm_largest_seqno f) 0 else f.
Lemma own_file_ignored_witness :
  map (map untombed) (l_levels ScanDemo.covered_db) <> l_levels ScanDemo.covered_db /\
  MayHaveNewerVersion ScanDemo.no_table tb_filter tb_whole_key ScanDemo.imm_Get ScanDemo.imm_Get ScanDemo.lookup_ikey
    TableDemo.user_key_of ScanDemo.FindFile bcompare (map (map untombed) (l_levels ScanDemo.covered_db)) 10 [x61] 3 0 9 ∅ =
  MayHaveNewerVersion ScanDemo.no_table tb_filter tb_whole_key ScanDemo.imm_Get ScanDemo.imm_Get ScanDemo.lookup_ikey
    TableDemo.user_key_of ScanDemo.FindFile bcompare (l_levels ScanDemo.covered_db) 10 [x61] 3 0 9 ∅.
Proof.
  split; [done|]. apply own_file_ignored; [done|..].
  - intros f. unfold untombed. by destruct (Z.eqb_spec (fm_number f) 9).
  - intros f Hf. unfold untombed. by destruct (Z.eqb_spec (fm_number f) 9).
  - intros files k. induction files as [|f files IH]; [done|]. cbn [map ScanDemo.FindFile]. rewrite IH. unfold untombed.
    by destruct (_ =? _).
Defined.

Lemma shadow_check_sound_witness : exists r h',
  MayHaveNewerVersion (ScanDemo.FindTable r) tb_filter tb_whole_key ScanDemo.mem_Get ScanDemo.imm_Get ScanDemo.lookup_ikey
    TableDemo.user_key_of ScanDemo.FindFile bcompare (l_levels ScanDemo.db) 10 [x65] 1 1 7 ∅ = (false, h') /\
  forall e' n', e' ∈ entries_in ScanDemo.db Memtables -> version TableDemo.parse_key [x65] n' e' -> n' <= 10 -> n' <= 1.
Proof.
  destruct TableDemo.demo_reader as (r & Hm & Hr). exists r, ∅. split; [reflexivity|].
  eapply (shadow_check_sound (ScanDemo.FindTable r) tb_filter tb_whole_key ScanDemo.mem_Get ScanDemo.imm_Get ScanDemo.lookup_ikey
    TableDemo.user_key_of ScanDemo.FindFile 10 TableDemo.parse_key ScanDemo.icmp ScanDemo.db [x65] 1 1 7 (InFile 1 ScanDemo.file)
    (nth 5 (concat TableDemo.blocks) ([], [])) ∅ ∅ Memtables ScanDemo.db_ok ScanDemo.icmp_laws (ScanDemo.lookup_ok r)
    (handles_empty _ _) eq_refl); [|done|by right].
  split; [exists [ScanDemo.file]; split; [done|by left]|]. split; [done|]. split; [by apply (list_elem_of_lookup_2 _ 5)|].
  split; [by eexists|done].
Defined.
