(* ===== verification/Liveness.v ===== *)
(** * Scans without failures

    The scan theorems say that a run returns the answer, or a prefix of it with
    a non-OK status. Here: when nothing the scan asks of RocksDB fails, no
    iterator of the stack turns its status to non-OK, so the run returns all
    of those rows. *)
From Stdlib Require Import ZArith Lia Strings.Byte Strings.String Sorting.Sorted.
From stdpp Require Import base numbers strings list sets sorting gmap.
From S2P Require Import Prelude Options Row Okey BytesList Query QuerySpec Externals Intern.
From S2P Require Import RangeBuf Binning Builder Reader Index ReaderSpec BuilderSpec BlobSpec.
From S2P Require Import SstIndex BinSource TableIter QueryBitmap TableScan TableSpec.
From S2P Require Import Iterators Merging Lsm Shadow TopIterator BatchSpec LsmScan ScanSpec ScanDemo.

(** ** Iterators that do not fail *)
Section NeverFails.
Context `{InternalIterator A}.

(** The positions [Next] leads to. *)
Inductive reach (c : A) : A -> Prop :=
  | reach_here : reach c c
  | reach_next c' c'' : reach c c' -> ii_Next c' = Ok c'' -> reach c c''.
Definition never_fails (c : A) : Prop := forall c', reach c c' -> ok (ii_status c') = true.
Definition healthy (c : A) : Prop := forall c', ii_SeekToFirst c = Ok c' -> never_fails c'.

Lemma never_fails_inv (P : A -> Prop) c :
  (forall c, P c -> ok (ii_status c) = true) -> (forall c c', P c -> ii_Next c = Ok c' -> P c') ->
  P c -> never_fails c.
Proof. intros Hs Hn Hc c' Hr. apply Hs. induction Hr; eauto. Qed.
Lemma reach_trans a b c : reach a b -> reach b c -> reach a c.
Proof. intros Hab. induction 1; [done|]. by eapply reach_next. Qed.
Lemma never_fails_here c : never_fails c -> ok (ii_status c) = true.
Proof. intros Hc. apply Hc. constructor. Qed.
Lemma never_fails_next c c' : never_fails c -> ii_Next c = Ok c' -> never_fails c'.
Proof. intros Hc Hn d Hd. apply Hc. eapply reach_trans; [|exact Hd]. by eapply reach_next; [constructor|..]. Qed.
End NeverFails.

Lemma reach_child `{InternalIterator A} (c : A) d : reach (mkChild c) d -> exists s, d = mkChild s /\ reach c s.
Proof.
  induction 1 as [|d d' _ (s & -> & Hs) Hn]; [exists c; split; [done|constructor]|].
  cbn in Hn. apply result_bind_ok in Hn as (s' & Hn & [= <-]). exists s'. split; [done|]. by eapply reach_next.
Qed.
Lemma healthy_child `{InternalIterator A} (c : A) : healthy c -> healthy (mkChild c).
Proof.
  intros Hc d Hd. cbn in Hd. apply result_bind_ok in Hd as (s & Hd & [= <-]). intros e (s' & -> & Hs)%reach_child.
  by apply (Hc s Hd).
Qed.

(** ** Memtables *)
Section MemTable.
Context (read_seqno : Z) (compiled_ : option CompiledQuery) (parse_key : bytes -> option ParsedInternalKey).

Lemma mem_healthy m : ok (mt_end m) = true -> healthy (mem_child read_seqno compiled_ parse_key m).
Proof.
  intros Hm. apply (@healthy_child _ (memtable_iterator read_seqno compiled_ parse_key)).
  assert (forall it it', FindNextValidEntry read_seqno compiled_ parse_key it = Ok it' -> ok (mi_status it) = true -> mi_mem it = m ->
    ok (mi_status it') = true /\ mi_mem it' = m) as Hfind.
  { intros it it' E Hs Hmem. unfold FindNextValidEntry in E. apply result_bind_ok in E as (found & _ & [= <-]).
    destruct found; cbn; [done|]. by rewrite Hmem, Hm. }
  intros it E. change (mem_SeekToFirst read_seqno compiled_ parse_key (new_mem_iter m) = Ok it) in E.
  apply (@never_fails_inv _ (memtable_iterator read_seqno compiled_ parse_key) (fun it => ok (mi_status it) = true /\ mi_mem it = m));
    [by intros c []| |by eapply Hfind in E].
  intros c c' [Hs Hmem] Hn. change (mem_Next read_seqno compiled_ parse_key c = Ok c') in Hn.
  unfold mem_Next in Hn. destruct (negb _); [done|]. by eapply Hfind in Hn.
Qed.
End MemTable.

(** ** Tables *)
Section Table.
Context `{RoaringOps} {Src : BinSource}.
(** Bins can always be read. *)
Definition bins_available : Prop :=
  (forall i b b', bs_bin i b <> Ok (None, b')) /\ (forall i j b b', bs_range i j b <> Ok (None, b')).
Context (Hbins : bins_available).
Local Abbreviation keeps_status s' s := (bm_status s' = bm_status s).

Lemma iter_Bin_status i s v s' : iter_Bin i s = Ok (v, s') -> keeps_status s' s.
Proof.
  unfold iter_Bin. intros E. apply result_bind_ok in E as ([o b] & Eb & E). destruct o; injection E as <- <-; [done|].
  by apply Hbins in Eb.
Qed.
Lemma single_status r c s p s' : GetBitmapForSingleCondition r c s = Ok (p, s') -> keeps_status s' s.
Proof.
  unfold GetBitmapForSingleCondition. intros E. apply result_bind_ok in E as (sel & _ & E).
  destruct sel as [sel|]; [|by injection E as <- <-]. destruct (_ =? _).
  - apply result_bind_ok in E as ([v s1] & E1 & [= <- <-]). by eapply iter_Bin_status.
  - apply result_bind_ok in E as ([vs b] & Eb & E). destruct vs; injection E as <- <-; [done|].
    by apply Hbins in Eb.
Qed.
Lemma assign_status i bm s s' : assign i bm s = Ok s' -> keeps_status s' s.
Proof. unfold assign. intros E. by apply result_bind_ok in E as (l & _ & [= <-]). Qed.
Lemma conditions_status r cs s ps s' : condition_bitmaps r cs s = Ok (ps, s') -> keeps_status s' s.
Proof.
  revert s ps s'. induction cs as [|c cs IH]; intros s ps s' E; cbn [condition_bitmaps] in E; [by injection E as <- <-|].
  apply result_bind_ok in E as ([p s1] & E1 & E). apply result_bind_ok in E as ([ps2 s2] & E2 & [= <- <-]).
  rewrite (IH _ _ _ E2). by eapply single_status.
Qed.
Lemma or_all_status i ps s s' : or_all i ps s = Ok s' -> keeps_status s' s.
Proof.
  revert s. induction ps as [|p ps IH]; intros s E; cbn [or_all] in E; [by injection E as <-|]. inv_ok.
  match goal with Ha : assign _ _ _ = Ok _, Ho : or_all _ _ _ = Ok _ |- _ => rewrite (IH _ Ho); by eapply assign_status end.
Qed.
Lemma clause_status r c s p s' : clause_bitmap r c s = Ok (p, s') -> keeps_status s' s.
Proof.
  destruct c as [|c0 [|c1 c]]; cbn [clause_bitmap]; [by intros [= <- <-]|apply single_status|]. intros E.
  apply result_bind_ok in E as ([ps s1] & E1 & E). apply conditions_status in E1. destruct ps as [|p0 [|p1 ps]]; [done|done|].
  apply result_bind_ok in E as (b0 & _ & E). apply result_bind_ok in E as (b1 & _ & E). cbn [pool] in E.
  apply result_bind_ok in E as (s3 & E3 & [= <- <-]). rewrite (or_all_status _ _ _ _ E3). done.
Qed.
Lemma clauses_status r cs acc s p s' : and_clauses r cs acc s = Ok (p, s') -> keeps_status s' s.
Proof.
  revert acc s p s'. induction cs as [|c cs IH]; intros acc s p s' E; cbn [and_clauses] in E; [by injection E as <- <-|].
  apply result_bind_ok in E as ([c1 s1] & E1 & E). apply clause_status in E1.
  apply result_bind_ok in E as ([acc' s2] & E2 & E). apply result_bind_ok in E as (v & _ & E).
  assert (keeps_status s2 s1) as H2.
  { destruct acc as [[a|i]|]; [| |by injection E2 as <- <-]; apply result_bind_ok in E2 as (x & _ & E2); [by injection E2 as <- <-|].
    apply result_bind_ok in E2 as (y & _ & E2). apply result_bind_ok in E2 as (s3 & E3 & [= <- <-]). by eapply assign_status. }
  destruct (r_isEmpty v); [injection E as <- <-; congruence|]. rewrite (IH _ _ _ _ E). congruence.
Qed.
Lemma tombstones_status acc t s p s' : filter_tombstones acc t s = Ok (p, s') -> keeps_status s' s.
Proof.
  unfold filter_tombstones. destruct (r_isEmpty t); [by intros [= <- <-]|]. intros E. apply result_bind_ok in E as (v & _ & E).
  destruct acc as [bm|i]; [by injection E as <- <-|]. apply result_bind_ok in E as (s2 & E2 & [= <- <-]). by eapply assign_status.
Qed.
Lemma query_bitmap_status r q s bm s' : BuildQueryBitmap r q s = Ok (bm, s') -> keeps_status s' s.
Proof.
  unfold BuildQueryBitmap. intros E. apply result_bind_ok in E as (card & _ & E). apply result_bind_ok in E as ([t s0] & E0 & E).
  assert (keeps_status s0 s) as <-.
  { destruct (card =? 0); [by injection E0 as <- <-|]. by eapply iter_Bin_status. }
  destruct (s_clause_groups q) as [|c cs].
  - cbn [pool] in E. apply result_bind_ok in E as ([p s2] & E2 & E). apply result_bind_ok in E as (v & _ & [= <- <-]).
    by rewrite (tombstones_status _ _ _ _ _ E2).
  - apply result_bind_ok in E as ([acc s1] & E1 & E). apply clauses_status in E1. destruct acc as [[acc|]|]; [|done|by injection E as <- <-].
    apply result_bind_ok in E as ([p s2] & E2 & E). apply result_bind_ok in E as (v & _ & [= <- <-]).
    by rewrite (tombstones_status _ _ _ _ _ E2).
Qed.
Lemma table_iter_status r q b it : new_table_iter (inl r) q b = Ok it -> ok (ti_status it) = true.
Proof.
  unfold new_table_iter. destruct (unsat q); [by intros [= <-]|]. intros E. apply result_bind_ok in E as (can & _ & E).
  destruct can; cbn [negb] in E; [|by injection E as <-]. apply result_bind_ok in E as (b1 & _ & E).
  apply result_bind_ok in E as ([bm s] & Es & E). apply result_bind_ok in E as (ts & _ & [= <-]).
  cbn [ti_status]. by rewrite (query_bitmap_status _ _ _ _ _ Es).
Qed.

Context (read_seqno : Z) (compiled_ : option CompiledQuery) (track : bool) (R : Z).
Context (parse_key : bytes -> option ParsedInternalKey) (user_key_of : bytes -> bytes).
Context (load_block : BlockHandle -> list (bytes * bytes) + Status) (Hload : forall h st, load_block h <> inr st).

Lemma load_status fuel r it it' :
  LoadNextBlock read_seqno compiled_ track R load_block parse_key user_key_of fuel r it = Ok it' -> ti_status it' = ti_status it.
Proof.
  revert it. induction fuel as [|fuel IH]; intros it E; [done|]. cbn [LoadNextBlock] in E.
  destruct (_ <=? _); [by injection E as <-|]. apply result_bind_ok in E as ([bi bh] & _ & E).
  apply result_bind_ok in E as (gs & _ & E). apply result_bind_ok in E as (ge & _ & E).
  destruct (local_indexes gs ge _) as [[|i rest] ids]; [by apply IH in E|]. apply result_bind_ok in E as (got & Eg & E).
  destruct got as [rows|st].
  2: { unfold GetAllByIndexesFromDataBlock in Eg. destruct (load_block bh) as [es|st'] eqn:El; [|by apply Hload in El].
       by apply result_bind_ok in Eg as (? & _ & [=]). }
  destruct (negb _); [by injection E as <-|]. apply result_bind_ok in E as ([n buf] & _ & E).
  destruct (0 <? n); [by injection E as <-|by apply IH in E].
Qed.
Lemma table_healthy level file it :
  ok (ti_status it) = true ->
  @healthy _ (table_iterator read_seqno compiled_ track R parse_key user_key_of) (mkSti level file load_block it).
Proof.
  intros Hst s E. cbn in E. apply result_bind_ok in E as (it' & E & [= <-]).
  apply (@never_fails_inv _ (table_iterator read_seqno compiled_ track R parse_key user_key_of)
    (fun s => ok (ti_status (sti_it s)) = true /\ sti_load s = load_block)); [by intros c []| |].
  - intros [lv fl ld it1] c' [Hs Hl] Hn. cbn in Hs, Hl, Hn. subst ld. apply result_bind_ok in Hn as (it2 & Hn & [= <-]).
    split; [|done]. cbn. unfold Next in Hn. destruct (negb _); [done|]. destruct (_ <=? _); [|by injection Hn as <-].
    destruct (ti_reader it1) as [r|]; [|done]. by rewrite (load_status _ _ _ _ Hn).
  - split; [|done]. cbn. unfold SeekToFirst in E. rewrite Hst in E. cbn [negb] in E. destruct (ti_reader it) as [r|]; [|by injection E as <-].
    by rewrite (load_status _ _ _ _ E).
Qed.
End Table.

(** ** Levels *)
Section Level.
Context `{InternalIterator STI} {table : Type} (FindTable : FileMetaData -> table + Status).
Context (new_sti : table -> Z -> Z -> result STI) (level_ : Z) (files_ : list FileMetaData).
Definition file_healthy (f : FileMetaData) : Prop :=
  exists t, FindTable f = inl t /\ forall sti, new_sti t level_ (fm_number f) = Ok sti -> healthy sti.
Context (Hfiles : Forall file_healthy files_).
Local Abbreviation Level := (level_iterator FindTable new_sti level_ files_).
Definition level_good (it : level_iter) : Prop :=
  ok (lv_status it) = true /\ forall sti, cur_sti_ it = Some sti -> never_fails sti.

Lemma load_files_good n it it' :
  ok (lv_status it) = true -> (forall sti, cur_sti_ it = Some sti -> never_fails sti) ->
  load_files FindTable new_sti level_ files_ n it = Ok it' -> level_good it'.
Proof.
  revert it. induction n as [|n IH]; intros it Hs Hc E; cbn [load_files] in E; [injection E as <-; by split|].
  apply result_bind_ok in E as (it1 & E1 & E). unfold LoadFile in E1.
  destruct (files_ !! cur_file_idx_ it) as [f|] eqn:Ef.
  - destruct (proj1 (Forall_lookup _ _) Hfiles _ _ Ef) as (t & Et & Ht). rewrite Et in E1.
    apply result_bind_ok in E1 as (sti & Es & [= <-]). cbn [lv_status cur_sti_] in E. rewrite Hs in E. cbn [negb] in E.
    apply result_bind_ok in E as (sti' & Eseek & E). pose proof (Ht sti Es sti' Eseek) as Hnf.
    destruct (ii_Valid sti'); [injection E as <-; split; [done|intros ? [= <-]; done]|].
    rewrite (never_fails_here _ Hnf) in E. cbn [negb] in E. apply IH in E; [done|done|intros ? [= <-]; done].
  - injection E1 as <-. cbn [lv_status cur_sti_] in E. rewrite Hs in E. cbn [negb] in E. by apply IH in E.
Qed.
Lemma level_healthy : healthy (level_child FindTable new_sti level_ files_).
Proof.
  apply (@healthy_child _ Level). intros it E. change (level_SeekToFirst FindTable new_sti level_ files_ new_level_iter = Ok it) in E.
  unfold level_SeekToFirst, new_level_iter in E. cbn [lv_status ok negb] in E.
  apply (@never_fails_inv _ Level level_good); [by intros c []| |by eapply load_files_good in E].
  intros c c' [Hs Hc] Hn. change (level_Next FindTable new_sti level_ files_ c = Ok c') in Hn. unfold level_Next in Hn.
  destruct (negb _); [done|]. destruct (cur_sti_ c) as [sti|] eqn:Ec; [|done]. apply result_bind_ok in Hn as (sti' & Hn & E2).
  pose proof (never_fails_next _ _ (Hc sti eq_refl) Hn) as Hnf. rewrite (never_fails_here _ Hnf) in E2. cbn [negb] in E2.
  destruct (ii_Valid sti'); [injection E2 as <-; split; [done|intros ? [= <-]; done]|].
  eapply load_files_good in E2; [done|done|]. intros ? [= <-]. done.
Qed.
End Level.

(** ** The merge *)
Section Merging.
Context (icmp : bytes -> bytes -> comparison).
Local Abbreviation Merge := (merging_iterator icmp).

Lemma seek_children_healthy i cs heap cs' h :
  Forall healthy cs -> seek_children i cs heap = Ok (cs', h) -> Forall never_fails cs' /\ exists heap', h = inl heap'.
Proof.
  intros Hcs. revert i heap cs' h. induction Hcs as [|c cs Hc _ IH]; intros i heap cs' h E; cbn [seek_children] in E.
  { injection E as <- <-. split; [constructor|by exists heap]. }
  apply result_bind_ok in E as (c' & Ec & E). pose proof (Hc c' Ec) as Hnf. destruct (ii_Valid c').
  - apply result_bind_ok in E as (row & _ & E). apply result_bind_ok in E as ([cs1 h1] & E1 & [= <- <-]).
    destruct (IH _ _ _ _ E1). split; [by constructor|done].
  - rewrite (never_fails_here _ Hnf) in E. cbn [negb] in E. apply result_bind_ok in E as ([cs1 h1] & E1 & [= <- <-]).
    destruct (IH _ _ _ _ E1). split; [by constructor|done].
Qed.
Lemma merging_healthy m : ok (mg_status m) = true -> Forall healthy (ch_iters_ m) -> @healthy _ Merge m.
Proof.
  intros Hst Hcs m1 E. change (merging_SeekToFirst m = Ok m1) in E. unfold merging_SeekToFirst in E. rewrite Hst in E. cbn [negb] in E.
  apply result_bind_ok in E as ([cs h] & Eseek & [= <-]). apply seek_children_healthy in Eseek as [Hnf [heap ->]]; [|done].
  apply (@never_fails_inv _ Merge (fun m => ok (mg_status m) = true /\ Forall never_fails (ch_iters_ m))); [by intros c []| |by split].
  clear. intros m m' [Hs Hnf] Hn. change (merging_Next icmp m = Ok m') in Hn. unfold merging_Next in Hn.
  destruct (heap_ m) as [|e others]; [done|]. destruct (pop_max _ e others) as [[k i] heap].
  apply result_bind_ok in Hn as (c & Hc%get_or_ok & Hn). apply result_bind_ok in Hn as (c' & Hcn & Hn).
  pose proof (never_fails_next _ _ (proj1 (Forall_lookup _ _) Hnf _ _ Hc) Hcn) as Hnf'.
  apply result_bind_ok in Hn as (cs & Hset & Hn). unfold set_child in Hset.
  assert (Forall never_fails cs) as Hnfs.
  { pose proof (lookup_lt_Some _ _ _ Hc) as Hi. rewrite zset_ok in Hset by done. injection Hset as <-. by apply Forall_insert. }
  destruct (ii_Valid c'); [apply result_bind_ok in Hn as (row & _ & [= <-]); by split|].
  rewrite (never_fails_here _ Hnf') in Hn. cbn [negb] in Hn. injection Hn as <-. by split.
Qed.
End Merging.

(** ** The top-level iterator *)
Section Top.
Context `{InternalIterator SMI} {Chk : ShadowCheck}.
Context (parse_key : bytes -> option ParsedInternalKey) (MultiGet : list bytes -> list (bytes + Status)).
(** A re-fetch finds a value or nothing. *)
Definition fetches_succeed : Prop := forall ks st, inr st ∈ MultiGet ks -> IsNotFound st = true.
Context (Hfetch : fetches_succeed).
Definition scanning (it : @bit_iter SMI Chk) : Prop := ok (bi_status it) = true /\ never_fails (smi_ it).

Lemma take_candidates_good fuel bs n v c smi latest cs smi' latest' :
  never_fails smi -> take_candidates parse_key fuel bs n v c smi latest = Ok (cs, smi', latest') -> never_fails smi'.
Proof.
  revert n smi latest cs smi' latest'. induction fuel as [|fuel IH]; intros n smi latest cs smi' latest' Hnf E; cbn [take_candidates] in E;
    destruct (_ && _); try done; try (by injection E as <- <- <-).
  apply result_bind_ok in E as (row & _ & E). destruct (match parse_key (sr_key row) with Some _ => _ | None => _ end) as [new l].
  apply result_bind_ok in E as (smi1 & En & E). apply result_bind_ok in E as ([[cs1 smi2] l2] & E1 & [= <- <- <-]).
  eapply IH; [|exact E1]. by eapply never_fails_next.
Qed.
Lemma merge_batch_good compiled i d cs dirty got ks vs out :
  (forall st, inr st ∈ got -> IsNotFound st = true) -> merge_batch compiled i d cs dirty got ks vs = Ok out -> exists p, out = inl p.
Proof.
  intros Hg. revert i d ks vs. induction cs as [|c cs IH]; intros i d ks vs E; cbn [merge_batch] in E; [injection E as <-; by eexists|].
  destruct (match dirty !! Z.to_nat d with Some _ => _ | None => _ end).
  - apply result_bind_ok in E as (v & _ & E). by apply IH in E.
  - apply result_bind_ok in E as (g & Hd%get_or_ok & E). destruct g as [v|st].
    + apply result_bind_ok in E as ([] & _ & E); by apply IH in E.
    + rewrite (Hg st) in E by (by eapply list_elem_of_lookup_2). by apply IH in E.
Qed.
Lemma judge_good cs (it : @bit_iter SMI Chk) ds it' : judge cs it = Ok (ds, it') -> bi_status it' = bi_status it /\ smi_ it' = smi_ it.
Proof.
  unfold judge. destruct (check_enabled_ it); [|by intros [= <- <-]]. intros E. apply result_bind_ok in E as (ck & _ & E).
  by apply result_bind_ok in E as ([ds' ck'] & _ & [= <- <-]).
Qed.
Lemma answer_batch_good cs it out :
  scanning it -> answer_batch MultiGet cs it = Ok out -> exists it', out = inl it' /\ scanning it'.
Proof.
  intros Hs. unfold answer_batch. destruct (result_mode_ it); [|intros [= <-]; by eexists]. destruct (authoritative_scan_ it); intros E.
  { apply result_bind_ok in E as (vs & _ & [= <-]). by eexists. }
  apply result_bind_ok in E as ([ds it'] & Ej & E). destruct (judge_good _ _ _ _ Ej) as [E1 E2].
  apply result_bind_ok in E as (sl & _ & E). apply result_bind_ok in E as (o & Em & [= <-]).
  apply merge_batch_good in Em as [[ks vs] ->].
  - eexists. split; [done|]. destruct Hs. split; cbn; [by rewrite E1|by rewrite E2].
  - intros st Hst. destruct ds; [by apply not_elem_of_nil in Hst|by eapply Hfetch].
Qed.
Lemma fetch_loop_good fuel bs it it' : scanning it -> fetch_loop parse_key MultiGet fuel bs it = Ok it' -> scanning it'.
Proof.
  revert it. induction fuel as [|fuel IH]; intros it Hs E; cbn [fetch_loop] in E; destruct (batch_keys_ it); try (by injection E as <-);
    destruct (negb _); try (by injection E as <-); try done.
  apply result_bind_ok in E as ([[cs smi] latest] & Et & E). pose proof (take_candidates_good _ _ _ _ _ _ _ _ _ _ (proj2 Hs) Et) as Hnf.
  rewrite (never_fails_here _ Hnf) in E. cbn [negb] in E. assert (scanning (set_scan smi latest it)) as Hs1 by (split; [apply Hs|done]).
  destruct cs as [|c cs]; [by injection E as <-|]. apply result_bind_ok in E as (r & Ea & E).
  destruct (answer_batch_good _ _ _ Hs1 Ea) as (it2 & -> & Hs2). by apply IH in E.
Qed.
Lemma FetchNextBatch_good fuel bs it it' : scanning it -> FetchNextBatch parse_key MultiGet fuel bs it = Ok it' -> scanning it'.
Proof.
  intros Hs E. unfold FetchNextBatch in E. cbn [set_bi_valid set_idx set_batch smi_] in E.
  rewrite (never_fails_here _ (proj2 Hs)) in E. cbn [negb] in E. by eapply fetch_loop_good in E.
Qed.
Lemma consume_good {B} (read : bit_iter -> result B) fuel it out last :
  scanning it -> consume parse_key MultiGet read fuel it = Ok (out, last) -> scanning last.
Proof.
  revert it out. induction fuel as [|fuel IH]; intros it out Hs E; cbn [consume] in E; destruct (bi_valid it) eqn:Ev; try done;
    try (by injection E as <- <-).
  apply result_bind_ok in E as (x & _ & E). apply result_bind_ok in E as (it' & En & E).
  apply result_bind_ok in E as ([xs l] & Ec & [= <- <-]). apply IH in Ec; [done|]. unfold bit_Next in En. rewrite Ev in En. cbn [negb] in En.
  destruct (_ <=? _); [|by injection En as <-]. by eapply FetchNextBatch_good in En.
Qed.
Lemma run_good {B} (read : bit_iter -> result B) fuel it out last :
  healthy (smi_ it) -> ok (bi_status it) = true -> run parse_key MultiGet read fuel it = Ok (out, last) -> ok (bi_status last) = true.
Proof.
  intros Hh Hs E. unfold run in E. apply result_bind_ok in E as (it' & E1 & E). unfold bit_SeekToFirst in E1.
  apply result_bind_ok in E1 as (smi & Es & E1). apply (consume_good read fuel it' out last); [|done].
  eapply FetchNextBatch_good; [|exact E1]. split; [done|]. by apply Hh.
Qed.
End Top.

(** ** The whole scan *)
Section Scan.
Context `{RoaringOps} `{!RoaringLaws _} {Src : BinSource}.
Context (parse_key : bytes -> option ParsedInternalKey) (user_key_of : bytes -> bytes).
Context (R : Z) (db : lsm) (FindTable : FileMetaData -> table_reader + Status).
Context (MultiGet : list bytes -> list (bytes + Status)).

(** Memtable iterators end well, every file of the version opens with its
    index, every block and every bin can be read, and re-fetches succeed. *)
Record no_failures : Prop := {
  nf_mems m : m ∈ l_mems db -> ok (mt_end m) = true;
  nf_tables level f : is_source db (InFile level f) ->
    exists t r, FindTable f = inl t /\ tb_udi t = inl r /\ forall h st, tb_load t h <> inr st;
  nf_bins : bins_available;
  nf_fetch : fetches_succeed MultiGet;
}.
Context (Hnf : no_failures).
Context (read_seqno : Z) (sq : SABIQuery) (compiled : option CompiledQuery) (track : bool).
Local Abbreviation Sti := (sti_iterator parse_key user_key_of R read_seqno compiled track).

Lemma source_healthy level lv f :
  is_source db (InFile level f) -> @file_healthy sti Sti table_reader FindTable (new_sti sq) lv f.
Proof.
  intros Hs. destruct (nf_tables Hnf level f Hs) as (t & r & Et & Er & Hl). exists t. split; [done|].
  intros s E. unfold new_sti in E. rewrite Er in E. apply result_bind_ok in E as (it & E & [= <-]).
  exact (table_healthy read_seqno compiled track R parse_key user_key_of (tb_load t) Hl lv (fm_number f) it
    (table_iter_status (nf_bins Hnf) _ _ _ _ E)).
Qed.
Lemma open_l0_healthy l0 st cs st' :
  (forall f, f ∈ l0 -> is_source db (InFile 0 f)) -> @open_l0 sti Sti table_reader FindTable (new_sti sq) l0 st = Ok (cs, st') ->
  st' = st /\ Forall healthy cs.
Proof.
  revert cs. induction l0 as [|f l0 IH]; intros cs Hs E; cbn [open_l0] in E; [by injection E as <- <-|].
  destruct (source_healthy 0 0 f) as (t & Et & Ht); [apply Hs; by left|]. rewrite Et in E.
  apply result_bind_ok in E as (s & Es & E). apply result_bind_ok in E as ([cs1 st1] & E1 & [= <- <-]).
  destruct (IH cs1) as [-> Hcs]; [intros g Hg; apply Hs; by right|done|]. split; [done|]. constructor; [|done].
  apply (@healthy_child _ Sti). by apply Ht.
Qed.
Lemma open_levels_healthy lv ls :
  (forall files f, files ∈ ls -> f ∈ files -> exists level, is_source db (InFile level f)) ->
  Forall healthy (@open_levels sti Sti table_reader FindTable (new_sti sq) lv ls).
Proof.
  revert lv. induction ls as [|files ls IH]; intros lv Hs; cbn [open_levels]; [constructor|].
  assert (Forall healthy (@open_levels sti Sti table_reader FindTable (new_sti sq) (lv + 1) ls)) as Hrest.
  { apply IH. intros g f Hg. apply Hs. by right. }
  destruct files as [|f files]; [done|]. constructor; [|done]. apply (@level_healthy sti Sti). apply Forall_forall. intros g Hg.
  destruct (Hs (f :: files) g) as [level Hg']; [by left|done|]. by apply (source_healthy level).
Qed.
Lemma scan_merging_healthy m icmp :
  scan_merging parse_key user_key_of R db FindTable read_seqno sq compiled track = Ok m -> @healthy _ (merging_iterator icmp) m.
Proof.
  unfold scan_merging, new_merging. intros E. apply result_bind_ok in E as ([cs st] & E0 & [= <-]).
  apply open_l0_healthy in E0 as [-> Hcs].
  2: { intros f Hf. destruct (l_levels db) as [|l0 ls] eqn:El; [by apply not_elem_of_nil in Hf|]. exists l0. by rewrite El. }
  apply merging_healthy; [done|]. cbn [ch_iters_]. apply Forall_app. split.
  - apply Forall_map, Forall_forall. intros mt Hm. by apply mem_healthy, (nf_mems Hnf).
  - apply Forall_app. split; [done|]. apply open_levels_healthy. intros files f Hfs Hf.
    apply list_elem_of_lookup in Hfs as [i Hi]. exists (S i), files. split; [|done]. by destruct (l_levels db).
Qed.
End Scan.

(** (C2) A query completes. In the setting of the theorem on what a query
    returns, when nothing the scan asks of RocksDB fails, the constructor returns
    an iterator and draining it with enough fuel ends with status OK and returns,
    in strictly increasing key order, every non-empty key whose read at the
    snapshot the query selects, with its value. Any other row it returns is a
    deleted newest version that only range tombstones of its own file delete;
    when no file holds a key together with a newer visible range tombstone over
    it, the rows are exactly the answer without the empty key. *)
Theorem query_completes `{RoaringOps} `{!RoaringLaws _} {Src : BinSource} parse_key user_key_of icmp lookup_ikey R db
    FindTable mem_Get imm_Get FindFile MultiGet read_seqno o q sh lay :
  scan_setting parse_key user_key_of icmp lookup_ikey R db FindTable mem_Get imm_Get FindFile MultiGet read_seqno o q sh lay ->
  no_failures db FindTable MultiGet ->
  exists it n,
    scan_iter parse_key user_key_of lookup_ikey R db FindTable mem_Get imm_Get FindFile read_seqno o q sh Verified = Ok it /\
    forall fuel, (n <= fuel)%nat -> exists answers last,
      scan_run parse_key user_key_of icmp lookup_ikey db FindTable mem_Get imm_Get FindFile MultiGet read_seqno read_row fuel it
        = Ok (answers, last) /\ bi_valid last = false /\ ok (bi_status last) = true /\
      StronglySorted blt (map fst answers) /\
      (forall k v, get parse_key read_seqno db k = Some v -> CheckCondition q v lay = Ok true -> k <> [] -> (k, v) ∈ answers) /\
      (forall k v, (k, v) ∈ answers -> k <> [] /\ CheckCondition q v lay = Ok true /\
         (get parse_key read_seqno db k = Some v \/ own_file_deleted parse_key read_seqno db k v)) /\
      (no_own_tombstones parse_key read_seqno db -> forall k v, (k, v) ∈ answers <->
         (get parse_key read_seqno db k = Some v /\ CheckCondition q v lay = Ok true) /\ k <> []).
Proof.
  intros Hset Hnf. destruct (verified_scan _ _ _ _ _ _ _ _ _ _ _ _ _ _ _ _ Hset) as (it & n & E & Hrun).
  exists it, n. split; [done|]. intros fuel Hf. destruct (Hrun fuel Hf) as (answers & out & last & Hqa & Er & Hv & _ & Hok).
  exists answers, last. assert (ok (bi_status last) = true) as Hst.
  2: { rewrite Er, (Hok Hst). split_and!; try done; [apply Hqa..|]. intros Hno k v. by apply query_answers_exact. }
  unfold scan_iter, new_bit_iter in E. destruct (_ && _) in E; [done|]. apply result_bind_ok in E as (cq & _ & E).
  apply result_bind_ok in E as (sq & _ & E). apply result_bind_ok in E as (smi & Em & [= <-]).
  eapply (@run_good merging (merging_iterator icmp)); [apply Hnf| | |exact Er]; [|done]. cbn [smi_]. by eapply scan_merging_healthy.
Qed.
Lemma demo_no_failures r : @no_failures _ resident_source ScanDemo.db (ScanDemo.FindTable r) ScanDemo.MultiGet.
Proof.
  split.
  - by intros m ->%list_elem_of_singleton.
  - intros level f [[=]|[= -> ->]]%ScanDemo.sources. eexists _, r. split; [reflexivity|]. split; [done|].
    intros h st. cbn. unfold TableDemo.load_block. by destruct (_ =? _).
  - split; cbn; intros *; [destruct (ResidentBin _ _)|destruct (ResidentBinRange _ _ _)]; done.
  - intros ks st (k & E & _)%list_elem_of_fmap. destruct (ScanDemo.read k); [done|]. by injection E as ->.
Qed.
Lemma query_completes_witness : exists r it fuel (answers : list (bytes * bytes)) v last,
  @scan_run _ resident_source TableDemo.parse_key TableDemo.user_key_of ScanDemo.icmp ScanDemo.lookup_ikey ScanDemo.db
    (ScanDemo.FindTable r) ScanDemo.mem_Get ScanDemo.imm_Get ScanDemo.FindFile ScanDemo.MultiGet 10 _ read_row fuel it = Ok (answers, last) /\
  ok (bi_status last) = true /\ ([x62], v) ∈ answers.
Proof.
  destruct TableDemo.demo_reader as (r & Hm & Hr).
  destruct (@query_completes _ _ resident_source _ _ _ _ _ _ _ _ _ _ _ _ _ _ _ _ (ScanDemo.setting r Hm Hr) (demo_no_failures r))
    as (it & n & _ & Hrun).
  destruct (Hrun n (le_n n)) as (answers & last & E & _ & Hs & _ & Hin & _). exists r, it, n, answers, (snd (nth 0 ScanDemo.mem_entries ([], []))), last.
  split; [exact E|]. split; [exact Hs|]. apply Hin; [vm_compute; reflexivity..|done].
Defined.
