(* ===== verification/FloatOrder.v ===== *)
(** * Order and rounding of doubles

    Facts on the IEEE-754 specification that the estimator's arithmetic needs:
    comparison is a total preorder away from NaN, and the rounding of an exact
    result never passes a representable number. A finite double [m * 2^e] is
    compared through the integer [fv m e], its value in units of [2^-4096];
    every exponent the operations below meet is above that. *)
From Stdlib Require Import ZArith Lia Floats.SpecFloat.
From stdpp Require Import base numbers.
From S2P Require Import Prelude Floats.

(** ** Comparison *)
Lemma SFcompare_refl x : is_nan x = false -> SFcompare x x = Some Eq.
Proof.
  destruct x as [s|s| |s m e]; cbn; try done; [by destruct s|].
  rewrite Z.compare_refl. change (Pos.compare_cont Eq m m) with (Pos.compare m m). rewrite Pos.compare_refl. by destruct s.
Qed.
Lemma SFcompare_antisym x y : SFcompare y x = CompOpp <$> SFcompare x y.
Proof.
  destruct x as [s1|s1| |s1 m1 e1], y as [s2|s2| |s2 m2 e2]; cbn; try done;
    try (destruct s1; done); try (destruct s2; done); try (destruct s1, s2; done).
  change (Pos.compare_cont Eq m1 m2) with (Pos.compare m1 m2).
  change (Pos.compare_cont Eq m2 m1) with (Pos.compare m2 m1).
  rewrite (Z.compare_antisym e1 e2), (Pos.compare_antisym m1 m2).
  by destruct s1, s2, (Z.compare e1 e2), (Pos.compare m1 m2).
Qed.
Lemma SFleb_cases x y :
  is_nan x = false -> is_nan y = false -> SFleb x y = negb (SFltb y x).
Proof.
  unfold SFleb, SFltb. rewrite (SFcompare_antisym x y). intros Hx Hy.
  destruct (SFcompare x y) as [[]|] eqn:E; try done.
  destruct x as [s1|s1| |s1 m1 e1], y as [s2|s2| |s2 m2 e2]; cbn in *; try done.
Qed.
Lemma SFleb_refl x : is_nan x = false -> SFleb x x = true.
Proof. intros H. unfold SFleb. by rewrite SFcompare_refl. Qed.
Lemma SFleb_ltb x y : SFltb x y = true -> SFleb x y = true.
Proof. unfold SFleb, SFltb. by destruct (SFcompare x y) as [[]|]. Qed.
Lemma SFleb_not_nan x y : SFleb x y = true -> is_nan x = false /\ is_nan y = false.
Proof. unfold SFleb. destruct x as [[]|[]| |[]], y as [[]|[]| |[]]; cbn; try done. Qed.
Lemma SFleb_trans x y z : SFleb x y = true -> SFleb y z = true -> SFleb x z = true.
Proof.
  unfold SFleb.
  destruct x as [[]|[]| |[] m1 e1], y as [[]|[]| |[] m2 e2], z as [[]|[]| |[] m3 e3]; cbn; try done;
    change (Pos.compare_cont Eq) with Pos.compare;
    destruct (Z.compare_spec e1 e2), (Z.compare_spec e2 e3); try done;
    destruct (Pos.compare_spec m1 m2), (Pos.compare_spec m2 m3); try done;
    intros _ _; destruct (Z.compare_spec e1 e3); try lia; try done;
    destruct (Pos.compare_spec m1 m3); try lia; try done.
Qed.

(** [std::max] and [std::min] on doubles: the first argument unless the
    comparison holds, so a NaN second argument loses and a NaN first one
    stays. *)
Definition fmax (a b : spec_float) : spec_float := if SFltb a b then b else a.
Definition fmin (a b : spec_float) : spec_float := if SFltb b a then b else a.

Lemma fmin_le_l a b : is_nan a = false -> SFleb (fmin a b) a = true.
Proof.
  intros Ha. unfold fmin. destruct (SFltb b a) eqn:E; [by apply SFleb_ltb|by apply SFleb_refl].
Qed.
Lemma fmin_le_r a b : is_nan a = false -> is_nan b = false -> SFleb (fmin a b) b = true.
Proof.
  intros Ha Hb. unfold fmin. destruct (SFltb b a) eqn:E; [by apply SFleb_refl|].
  by rewrite SFleb_cases, E.
Qed.
Lemma fmin_glb c a b :
  SFleb c a = true -> (is_nan b = false -> SFleb c b = true) -> SFleb c (fmin a b) = true.
Proof.
  intros Ha Hb. unfold fmin. destruct (SFltb b a) eqn:E; [|done].
  apply Hb. by destruct (SFleb_not_nan _ _ (SFleb_ltb _ _ E)).
Qed.
Lemma fmax_ge_r a b : is_nan a = false -> is_nan b = false -> SFleb b (fmax a b) = true.
Proof.
  intros Ha Hb. unfold fmax. destruct (SFltb a b) eqn:E; [by apply SFleb_refl|].
  by rewrite SFleb_cases, E.
Qed.
Lemma fmax_ge_l a b : is_nan a = false -> SFleb a (fmax a b) = true.
Proof.
  intros Ha. unfold fmax. destruct (SFltb a b) eqn:E; [by apply SFleb_ltb|by apply SFleb_refl].
Qed.

(** ** Values as integers *)
Definition pw (e : Z) : Z := 2 ^ (e + 4096).
Definition fv (m e : Z) : Z := m * pw e.

Lemma pw_pos e : -4096 <= e -> 0 < pw e.
Proof. intros. apply Z.pow_pos_nonneg; lia. Qed.
Lemma pw_add e k : -4096 <= e -> 0 <= k -> pw (e + k) = 2 ^ k * pw e.
Proof. intros. unfold pw. rewrite <- Z.pow_add_r by lia. f_equal. lia. Qed.
Lemma pw_mono e f : -4096 <= e <= f -> pw e <= pw f.
Proof. intros. apply Z.pow_le_mono_r; lia. Qed.
Lemma fv_shift m e k : -4096 <= e -> 0 <= k -> fv m (e + k) = fv (m * 2 ^ k) e.
Proof. intros. unfold fv. rewrite pw_add by lia. ring. Qed.
Lemma fv_le m n e : -4096 <= e -> m <= n -> fv m e <= fv n e.
Proof. intros. unfold fv. pose proof (pw_pos e). nia. Qed.
Lemma fv_le_inv m n e : -4096 <= e -> fv m e <= fv n e -> m <= n.
Proof. intros. unfold fv in *. pose proof (pw_pos e). nia. Qed.
Lemma fv_lt_inv m n e : -4096 <= e -> fv m e < fv n e -> m < n.
Proof. intros. unfold fv in *. pose proof (pw_pos e). nia. Qed.

Lemma digits2_pos_spec p : 2 ^ (Zpos (digits2_pos p) - 1) <= Zpos p < 2 ^ Zpos (digits2_pos p).
Proof.
  induction p as [p IH|p IH|]; cbn [digits2_pos]; [..|done];
    rewrite Pos2Z.inj_succ, Z.pow_succ_r by lia;
    replace (Z.succ (Zpos (digits2_pos p)) - 1) with (Z.succ (Zpos (digits2_pos p) - 1)) by lia;
    rewrite Z.pow_succ_r by lia; lia.
Qed.
Lemma Zdigits2_spec m : 0 < m -> 1 <= Zdigits2 m /\ 2 ^ (Zdigits2 m - 1) <= m < 2 ^ Zdigits2 m.
Proof. destruct m; [lia| |lia]. intros _. split; [cbn; lia|]. apply digits2_pos_spec. Qed.
Lemma Zdigits2_0 : Zdigits2 0 = 0.
Proof. done. Qed.
Lemma Zdigits2_le m k : 0 <= m -> 0 <= k -> m < 2 ^ k -> Zdigits2 m <= k.
Proof.
  intros Hm Hk Hlt. destruct (decide (m = 0)) as [->|Hn]; [done|].
  destruct (Zdigits2_spec m ltac:(lia)) as (H1 & H2 & _).
  assert (2 ^ (Zdigits2 m - 1) < 2 ^ k) as H by lia. apply Z.pow_lt_mono_r_iff in H; lia.
Qed.
Lemma Zdigits2_ge m k : 0 <= k -> 2 ^ k <= m -> k + 1 <= Zdigits2 m.
Proof.
  intros Hk Hle. assert (0 < 2 ^ k) by (apply Z.pow_pos_nonneg; lia).
  destruct (Zdigits2_spec m ltac:(lia)) as (H1 & _ & H2).
  assert (2 ^ k < 2 ^ Zdigits2 m) as H' by lia. apply Z.pow_lt_mono_r_iff in H'; lia.
Qed.

(** ** Shifting right with a round and a sticky bit *)
Lemma iter_pos_nat {A} (f : A -> A) p x : SpecFloat.iter_pos f p x = Nat.iter (Pos.to_nat p) f x.
Proof.
  assert (forall a b y, Nat.iter a f (Nat.iter b f y) = Nat.iter (a + b) f y) as Hadd
    by (intros a b y; induction a as [|a IH]; [done|exact (f_equal f IH)]).
  revert x. induction p as [p IH|p IH|]; intros x; cbn [SpecFloat.iter_pos]; rewrite ?IH.
  - change (f x) with (Nat.iter 1 f x). rewrite !Hadd. f_equal. lia.
  - rewrite !Hadd. f_equal. lia.
  - done.
Qed.

Lemma shr_1_spec m r s :
  0 <= m -> shr_1 (Build_shr_record m r s) = Build_shr_record (m / 2) (Z.odd m) (r || s).
Proof.
  destruct m as [|[p|p|]|p]; intros Hm; [done| | |done|lia]; unfold shr_1; f_equal.
  - apply Z.div_unique with 1; lia.
  - apply Z.div_unique with 0; lia.
Qed.

(** Some bit has been shifted out, or the location was inexact before. *)
Definition sticky (x : shr_record) : bool := shr_r x || shr_s x.

Lemma shr_iter n m r s :
  0 <= m ->
  let x := Nat.iter n shr_1 (Build_shr_record m r s) in
  shr_m x = m / 2 ^ Z.of_nat n /\ sticky x = r || s || negb (m mod 2 ^ Z.of_nat n =? 0) /\
  (forall k, n = S k -> shr_r x = Z.odd (m / 2 ^ Z.of_nat k) /\
     shr_s x = r || s || negb (m mod 2 ^ Z.of_nat k =? 0)).
Proof.
  intros Hm. induction n as [|n IH].
  - cbn. rewrite Z.div_1_r, Z.mod_1_r. cbn. rewrite orb_false_r. done.
  - cbn zeta in *. cbn [Nat.iter nat_rect]. unfold Nat.iter in IH |- *.
    destruct (nat_rect _ _ _ n) as [m' r' s'] eqn:E. cbn [shr_m] in IH. destruct IH as (-> & Hst & _).
    assert (0 < 2 ^ Z.of_nat n) by (apply Z.pow_pos_nonneg; lia).
    rewrite shr_1_spec by (by apply Z.div_pos). cbn [shr_m shr_r shr_s].
    unfold sticky in Hst. cbn [shr_r shr_s] in Hst.
    assert (2 ^ Z.of_nat (S n) = 2 ^ Z.of_nat n * 2) as Hp
      by (rewrite Nat2Z.inj_succ, Z.pow_succ_r by lia; lia).
    split_and!.
    + rewrite Hp, Z.div_div by lia. done.
    + unfold sticky. cbn [shr_r shr_s]. rewrite Hst, Hp, Z.rem_mul_r by lia.
      rewrite (Zmod_odd (m / 2 ^ Z.of_nat n)).
      pose proof (Z.mod_pos_bound m (2 ^ Z.of_nat n) ltac:(lia)).
      destruct (Z.odd _), (Z.eqb_spec (m mod 2 ^ Z.of_nat n) 0) as [->|Hne]; cbn.
      * rewrite (proj2 (Z.eqb_neq _ _)) by lia. by rewrite orb_true_r.
      * rewrite (proj2 (Z.eqb_neq _ _)) by lia. by rewrite orb_true_r.
      * rewrite Z.mul_0_r. done.
      * rewrite Z.mul_0_r, Z.add_0_r. by rewrite (proj2 (Z.eqb_neq _ _)) by lia.
    + intros k [= <-]. by rewrite Hst.
Qed.

(** [shr] by a distance that is not negative. *)
Lemma shr_spec m l e n :
  0 <= m -> 0 <= n ->
  let x := shr (shr_record_of_loc m l) e n in
  snd x = e + n /\ shr_m (fst x) = m / 2 ^ n /\
  sticky (fst x) = negb (match l with loc_Exact => true | _ => false end && (m mod 2 ^ n =? 0)) /\
  (0 < n -> l = loc_Exact -> shr_r (fst x) = Z.odd (m / 2 ^ (n - 1)) /\
     shr_s (fst x) = negb (m mod 2 ^ (n - 1) =? 0)).
Proof.
  intros Hm Hn. cbn zeta.
  assert (exists r s, shr_record_of_loc m l = Build_shr_record m r s /\
    r || s = negb (match l with loc_Exact => true | _ => false end) /\
    (l = loc_Exact -> r = false /\ s = false)) as (r & s & -> & Hrs & Hex)
    by (destruct l as [|[]]; by do 2 eexists).
  destruct n as [|p|p]; [| |lia]; cbn [shr fst snd].
  - rewrite Z.pow_0_r, Z.div_1_r, Z.mod_1_r. unfold sticky. cbn [shr_m shr_r shr_s Z.eqb].
    rewrite Hrs, andb_true_r. split_and!; [lia|done|done|lia].
  - rewrite iter_pos_nat. destruct (shr_iter (Pos.to_nat p) m r s Hm) as (H1 & H2 & H3).
    rewrite positive_nat_Z in *. split_and!; [done|done|by rewrite H2, Hrs, negb_andb|].
    intros _ ->. destruct (Hex eq_refl) as [-> ->].
    destruct (H3 (Nat.pred (Pos.to_nat p)) ltac:(lia)) as [-> ->].
    replace (Z.of_nat (Nat.pred (Pos.to_nat p))) with (Zpos p - 1) by lia. done.
Qed.

(** ** Rounding *)
Abbreviation fexp64 := (fexp 53 1024).
Lemma fexp64_eq x : fexp64 x = Z.max (x - 53) (-1074).
Proof. done. Qed.

(** A finite double in canonical form. *)
Definition canon (m : positive) (e : Z) : Prop := bounded 53 1024 m e = true.
Lemma canon_spec m e :
  canon m e <-> Zpos m < 2 ^ 53 /\ -1074 <= e <= 971 /\ (e = -1074 \/ 2 ^ 52 <= Zpos m).
Proof.
  unfold canon, bounded, canonical_mantissa. rewrite andb_true_iff, Z.eqb_eq, Z.leb_le, fexp64_eq.
  pose proof (digits2_pos_spec m) as [H1 H2]. set (d := Zpos (digits2_pos m)) in *.
  split.
  - intros [He Hx]. assert (d <= 53) by lia.
    assert (2 ^ d <= 2 ^ 53) by (apply Z.pow_le_mono_r; lia).
    split; [lia|]. split; [lia|]. destruct (decide (e = -1074)) as [|Hn]; [by left|right].
    assert (d = 53) as Hd by lia. rewrite Hd in H1. exact H1.
  - intros (Hm & He & Hn).
    pose proof (Zdigits2_le (Zpos m) 53 ltac:(lia) ltac:(lia) Hm) as Hd. change (Zdigits2 (Zpos m)) with d in Hd.
    destruct Hn as [->|Hn]; [lia|].
    pose proof (Zdigits2_ge (Zpos m) 52 ltac:(lia) Hn) as Hd'. change (Zdigits2 (Zpos m)) with d in Hd'. lia.
Qed.

(** Canonical doubles compare like their values. *)
Lemma canon_compare m1 e1 m2 e2 :
  canon m1 e1 -> canon m2 e2 ->
  match Z.compare e1 e2 with Eq => Pos.compare m1 m2 | c => c end = Z.compare (fv (Zpos m1) e1) (fv (Zpos m2) e2).
Proof.
  rewrite !canon_spec. intros (A1 & B1 & C1) (A2 & B2 & C2).
  assert (forall p a q b, Zpos p < 2 ^ 53 -> -1074 <= a < b -> 2 ^ 52 <= Zpos q -> fv (Zpos p) a < fv (Zpos q) b) as Hlt.
  { intros p a q b Hp Hab Hq. unfold fv. replace b with (a + 1 + (b - a - 1)) by lia.
    rewrite !pw_add by lia. pose proof (pw_pos a ltac:(lia)).
    assert (1 <= 2 ^ (b - a - 1)) by (apply (Z.pow_le_mono_r 2 0); lia).
    apply Z.lt_le_trans with (2 ^ 53 * pw a); [nia|].
    replace (Zpos q * (2 ^ (b - a - 1) * (2 ^ 1 * pw a))) with (Zpos q * 2 * 2 ^ (b - a - 1) * pw a) by ring.
    apply Z.mul_le_mono_nonneg_r; [lia|]. nia. }
  destruct (Z.compare_spec e1 e2) as [->|H|H].
  - unfold fv. pose proof (pw_pos e2 ltac:(lia)). change (Pos.compare m1 m2) with (Z.compare (Zpos m1) (Zpos m2)).
    apply Zmult_compare_compat_r. lia.
  - symmetry. apply Z.compare_lt_iff, Hlt; lia.
  - symmetry. apply Z.compare_gt_iff, Hlt; lia.
Qed.
Lemma canon_leb m1 e1 m2 e2 :
  canon m1 e1 -> canon m2 e2 ->
  SFleb (S754_finite false m1 e1) (S754_finite false m2 e2) = true <-> fv (Zpos m1) e1 <= fv (Zpos m2) e2.
Proof.
  intros H1 H2. unfold SFleb. cbn [SFcompare]. change (Pos.compare_cont Eq m1 m2) with (Pos.compare m1 m2).
  pose proof (canon_compare _ _ _ _ H1 H2) as E. unfold Z.le. rewrite <- E.
  destruct (Z.compare e1 e2), (Pos.compare m1 m2); split; done.
Qed.

(** What the second half of [binary_round_aux] makes of a rounded mantissa. *)
Definition round_result (sx : bool) (M e1 : Z) (z : spec_float) : Prop :=
  (M = 0 /\ z = S754_zero sx) \/
  (exists m e, z = S754_finite sx m e /\ canon m e /\ fv (Zpos m) e = fv M e1) \/
  (z = S754_infinity sx /\ pw 1024 <= fv M e1).

Lemma round_tail sx M e1 :
  0 <= M <= 2 ^ 53 -> -1074 <= e1 -> (e1 = -1074 \/ 2 ^ 52 <= M) ->
  round_result sx M e1
    (let '(mrs, e) := shr_fexp 53 1024 M e1 loc_Exact in
     match shr_m mrs with
     | Z0 => S754_zero sx
     | Zpos m => if e <=? 1024 - 53 then S754_finite sx m e else S754_infinity sx
     | _ => S754_nan
     end).
Proof.
  intros HM He Hn. unfold shr_fexp.
  assert (forall m e, Zpos m < 2 ^ 53 -> -1074 <= e -> (e = -1074 \/ 2 ^ 52 <= Zpos m) -> fv (Zpos m) e = fv M e1 ->
    round_result sx M e1 (if e <=? 1024 - 53 then S754_finite sx m e else S754_infinity sx)) as Hfin.
  { intros m e Hm He' Hc Hv. destruct (Z.leb_spec e (1024 - 53)).
    - right; left. exists m, e. split; [done|]. split; [apply canon_spec; lia|done].
    - right; right. split; [done|]. rewrite <- Hv. unfold fv.
      replace e with (972 + (e - 972)) by lia. rewrite pw_add by lia.
      replace 1024 with (972 + 52) by lia. rewrite pw_add by lia. pose proof (pw_pos 972 ltac:(lia)).
      assert (1 <= 2 ^ (e - 972)) by (apply (Z.pow_le_mono_r 2 0); lia).
      rewrite Z.mul_assoc. apply Z.mul_le_mono_nonneg_r; [lia|]. nia. }
  destruct (decide (M = 2 ^ 53)) as [->|HM'].
  - assert (fexp64 (Zdigits2 (2 ^ 53) + e1) - e1 = 1) as -> by (rewrite fexp64_eq; change (Zdigits2 (2 ^ 53)) with 54; lia).
    change (shr _ _ _) with (Build_shr_record (2 ^ 52) false false, e1 + 1). cbn [shr_m].
    apply Hfin; [done|lia|by right|]. rewrite fv_shift by lia. done.
  - assert (Zdigits2 M <= 53) by (apply Zdigits2_le; lia).
    destruct (fexp64 (Zdigits2 M + e1) - e1) eqn:E; cbn [shr];
      try (rewrite fexp64_eq in E; lia); cbn [shr_record_of_loc shr_m];
      (destruct M as [|m|m]; [by left|by apply Hfin; try lia|lia]).
Qed.

(** The mantissa before that: the exact one cut to the target exponent, or its
    successor when something was cut off. *)
Definition good_exp (mx ex : Z) : Prop := -4096 <= ex <= fexp64 (Zdigits2 mx + ex).
Definition cut_mant (mx ex : Z) : Z := mx / 2 ^ (fexp64 (Zdigits2 mx + ex) - ex).
Definition cut_exact (mx ex : Z) (lx : location) : Prop :=
  lx = loc_Exact /\ mx mod 2 ^ (fexp64 (Zdigits2 mx + ex) - ex) = 0.

Lemma cut_mant_bounds mx ex :
  0 <= mx -> good_exp mx ex ->
  0 <= cut_mant mx ex < 2 ^ 53 /\
  (fexp64 (Zdigits2 mx + ex) = -1074 \/ 2 ^ 52 <= cut_mant mx ex).
Proof.
  intros Hm [H1 H2]. unfold cut_mant. set (e1 := fexp64 _) in *.
  assert (e1 = Z.max (Zdigits2 mx + ex - 53) (-1074)) as He by apply fexp64_eq. clearbody e1.
  assert (0 < 2 ^ (e1 - ex)) by (apply Z.pow_pos_nonneg; lia).
  destruct (decide (mx = 0)) as [->|Hn].
  { rewrite Z.div_0_l by lia. change (Zdigits2 0) with 0 in He. lia. }
  destruct (Zdigits2_spec mx ltac:(lia)) as (D1 & D2 & D3). split.
  - split; [by apply Z.div_pos|]. apply Z.div_lt_upper_bound; [done|].
    rewrite <- Z.pow_add_r by lia. eapply Z.lt_le_trans; [exact D3|]. apply Z.pow_le_mono_r; lia.
  - destruct (decide (e1 = -1074)) as [|Hne]; [by left|right]. apply Z.div_le_lower_bound; [done|].
    rewrite <- Z.pow_add_r by lia. replace (e1 - ex + 52) with (Zdigits2 mx - 1) by lia. done.
Qed.

Lemma round_shape sx mx ex lx :
  0 <= mx -> good_exp mx ex ->
  exists M, (M = cut_mant mx ex \/ M = cut_mant mx ex + 1 /\ ~ cut_exact mx ex lx) /\
    round_result sx M (fexp64 (Zdigits2 mx + ex)) (binary_round_aux 53 1024 sx mx ex lx).
Proof.
  intros Hm Hg. pose proof (cut_mant_bounds mx ex Hm Hg) as [Hq Hn].
  unfold binary_round_aux. unfold shr_fexp at 1.
  pose proof (shr_spec mx lx ex (fexp64 (Zdigits2 mx + ex) - ex) Hm ltac:(destruct Hg; lia)) as (S1 & S2 & S3 & _).
  destruct (shr _ _ _) as [x e1]. cbn [fst snd] in *. fold (cut_mant mx ex) in S2.
  replace (ex + (fexp64 (Zdigits2 mx + ex) - ex)) with (fexp64 (Zdigits2 mx + ex)) in S1 by lia. subst e1.
  set (M := round_nearest_even (shr_m x) (loc_of_shr_record x)).
  assert (M = cut_mant mx ex \/ M = cut_mant mx ex + 1 /\ ~ cut_exact mx ex lx) as HM.
  { subst M. rewrite S2. destruct (sticky x) eqn:Es.
    - assert (~ cut_exact mx ex lx).
      { intros [-> E]. by rewrite E in S3. }
      destruct x as [? [] []]; cbn; try destruct (Z.even _); auto.
    - left. destruct x as [? [] []]; done. }
  exists M. split; [done|]. apply round_tail; [lia| |].
  - rewrite fexp64_eq. lia.
  - destruct Hn as [Hn|Hn]; [by left|right]. lia.
Qed.

(** ** Rounding never passes a representable number *)
Lemma fv_split mx ex :
  0 <= mx -> good_exp mx ex ->
  let e1 := fexp64 (Zdigits2 mx + ex) in
  fv mx ex = fv (cut_mant mx ex) e1 + fv (mx mod 2 ^ (e1 - ex)) ex /\
  0 <= fv (mx mod 2 ^ (e1 - ex)) ex < pw e1.
Proof.
  intros Hm [H1 H2] e1. assert (0 < 2 ^ (e1 - ex)) as Hp by (apply Z.pow_pos_nonneg; lia).
  pose proof (pw_pos ex H1). pose proof (Z.mod_pos_bound mx _ Hp).
  assert (pw e1 = 2 ^ (e1 - ex) * pw ex) as E
    by (replace e1 with (ex + (e1 - ex)) at 1 by lia; apply pw_add; lia).
  unfold fv, cut_mant. fold e1. rewrite E. split; [|nia].
  pose proof (Z.div_mod mx (2 ^ (e1 - ex)) ltac:(lia)). nia.
Qed.

(** A canonical number at or above a cut value is a multiple of its unit. *)
Lemma canon_multiple mg eg e1 : canon mg eg -> -1074 <= e1 <= eg -> exists k, fv (Zpos mg) eg = fv k e1.
Proof.
  intros _ He. exists (Zpos mg * 2 ^ (eg - e1)). rewrite <- fv_shift by lia. f_equal. lia.
Qed.
Lemma canon_below mg eg e1 M : canon mg eg -> eg < e1 -> 2 ^ 52 <= M -> fv (Zpos mg) eg < fv M e1.
Proof.
  rewrite canon_spec. intros (Hm & He & _) Hlt HM. unfold fv.
  replace e1 with (eg + 1 + (e1 - eg - 1)) by lia. rewrite !pw_add by lia.
  pose proof (pw_pos eg ltac:(lia)). assert (1 <= 2 ^ (e1 - eg - 1)) by (apply (Z.pow_le_mono_r 2 0); lia).
  apply Z.lt_le_trans with (2 ^ 53 * pw eg); [nia|].
  replace (M * (2 ^ (e1 - eg - 1) * (2 ^ 1 * pw eg))) with (M * 2 * 2 ^ (e1 - eg - 1) * pw eg) by ring.
  apply Z.mul_le_mono_nonneg_r; [lia|]. nia.
Qed.
Lemma canon_max mg eg : canon mg eg -> fv (Zpos mg) eg < pw 1024.
Proof.
  intros Hc. pose proof (canon_below mg eg 972 (2 ^ 52) Hc) as H. apply canon_spec in Hc.
  replace (pw 1024) with (fv (2 ^ 52) 972); [apply H; lia|].
  unfold fv. change 1024 with (972 + 52). by rewrite pw_add.
Qed.

Lemma cut_below mx ex lx g :
  0 <= mx -> good_exp mx ex -> ~ cut_exact mx ex lx -> fv mx ex <= g -> (lx <> loc_Exact -> fv mx ex < g) ->
  fv (cut_mant mx ex) (fexp64 (Zdigits2 mx + ex)) < g.
Proof.
  intros Hm Hg Hne Hle Hlt. destruct (fv_split mx ex Hm Hg) as [Hs Hs']. cbn zeta in *.
  destruct lx; [|specialize (Hlt ltac:(done)); lia].
  assert (0 < fv (mx mod 2 ^ (fexp64 (Zdigits2 mx + ex) - ex)) ex); [|lia].
  apply Z.mul_pos_pos; [|apply pw_pos, Hg]. unfold cut_exact in Hne.
  pose proof (Z.mod_pos_bound mx (2 ^ (fexp64 (Zdigits2 mx + ex) - ex))
    ltac:(apply Z.pow_pos_nonneg; destruct Hg; lia)).
  destruct (decide (mx mod 2 ^ (fexp64 (Zdigits2 mx + ex) - ex) = 0)) as [E|E]; [by destruct Hne|lia].
Qed.

Lemma round_le mx ex lx mg eg :
  0 <= mx -> good_exp mx ex -> canon mg eg ->
  fv mx ex <= fv (Zpos mg) eg -> (lx <> loc_Exact -> fv mx ex < fv (Zpos mg) eg) ->
  SFleb (binary_round_aux 53 1024 false mx ex lx) (S754_finite false mg eg) = true.
Proof.
  intros Hm Hg Hc Hle Hlt. destruct (round_shape false mx ex lx Hm Hg) as (M & HM & Hr).
  set (e1 := fexp64 (Zdigits2 mx + ex)) in *.
  destruct (fv_split mx ex Hm Hg) as [Hs Hs']. fold e1 in Hs, Hs'.
  assert (-1074 <= e1) as He1 by (subst e1; rewrite fexp64_eq; lia).
  assert (fv M e1 <= fv (Zpos mg) eg) as Hv.
  { destruct HM as [->|[-> Hne]]; [lia|]. destruct (decide (e1 <= eg)) as [He|He].
    - destruct (canon_multiple mg eg e1 Hc ltac:(lia)) as [k Hk]. rewrite Hk in *. apply fv_le; [lia|].
      pose proof (cut_below mx ex lx (fv k e1) Hm Hg Hne Hle Hlt) as H. fold e1 in H.
      apply fv_lt_inv in H; lia.
    - exfalso. destruct (proj2 (cut_mant_bounds mx ex Hm Hg)) as [E|E].
      + fold e1 in E. apply canon_spec in Hc. lia.
      + pose proof (canon_below mg eg e1 _ Hc ltac:(lia) E). lia. }
  destruct Hr as [[-> ->]|[(m & e & -> & Hcm & E)|[-> Hi]]]; [done| |].
  - apply canon_leb; [done|done|lia].
  - pose proof (canon_max _ _ Hc). lia.
Qed.

Lemma round_ge mx ex lx mg eg :
  0 <= mx -> good_exp mx ex -> canon mg eg -> fv (Zpos mg) eg <= fv mx ex ->
  SFleb (S754_finite false mg eg) (binary_round_aux 53 1024 false mx ex lx) = true.
Proof.
  intros Hm Hg Hc Hge. destruct (round_shape false mx ex lx Hm Hg) as (M & HM & Hr).
  set (e1 := fexp64 (Zdigits2 mx + ex)) in *.
  destruct (fv_split mx ex Hm Hg) as [Hs Hs']. fold e1 in Hs, Hs'.
  assert (-1074 <= e1) as He1 by (subst e1; rewrite fexp64_eq; lia).
  assert (fv (Zpos mg) eg <= fv (cut_mant mx ex) e1) as Hv.
  { destruct (decide (e1 <= eg)) as [He|He].
    - destruct (canon_multiple mg eg e1 Hc ltac:(lia)) as [k Hk]. rewrite Hk in *. apply fv_le; [lia|].
      assert (fv k e1 < fv (cut_mant mx ex + 1) e1) as H by
        (unfold fv in *; rewrite Z.mul_add_distr_r; lia).
      apply fv_lt_inv in H; lia.
    - destruct (proj2 (cut_mant_bounds mx ex Hm Hg)) as [E|E].
      + fold e1 in E. apply canon_spec in Hc. lia.
      + pose proof (canon_below mg eg e1 _ Hc ltac:(lia) E). lia. }
  assert (fv (cut_mant mx ex) e1 <= fv M e1) as HvM by (apply fv_le; [lia|]; destruct HM as [->|[-> _]]; lia).
  assert (0 < fv (Zpos mg) eg) as Hpos
    by (apply Z.mul_pos_pos; [done|]; apply pw_pos; apply canon_spec in Hc; lia).
  destruct Hr as [[-> ->]|[(m & e & -> & Hcm & E)|[-> Hi]]]; [| |done].
  - unfold fv in HvM at 2. lia.
  - apply canon_leb; [done|done|lia].
Qed.

(** ** The operations on doubles that are not negative *)
Definition nnf (x : spec_float) : Prop :=
  match x with S754_zero _ => True | S754_finite false m e => canon m e | _ => False end.
(** The value in units of [2^-4096]. *)
Definition fval (x : spec_float) : Z := match x with S754_finite _ m e => fv (Zpos m) e | _ => 0 end.

Lemma nnf_not_nan x : nnf x -> is_nan x = false.
Proof. by destruct x. Qed.
Lemma nnf_fval x : nnf x -> 0 <= fval x.
Proof.
  destruct x as [| | |[] m e]; cbn; try done; try lia. intros Hc%canon_spec. unfold fv.
  pose proof (pw_pos e ltac:(lia)). nia.
Qed.
Lemma nnf_leb x y : nnf x -> nnf y -> SFleb x y = true <-> fval x <= fval y.
Proof.
  intros Hx Hy. pose proof (nnf_fval x Hx). pose proof (nnf_fval y Hy).
  destruct x as [s| | |[] m1 e1]; try done; destruct y as [t| | |[] m2 e2]; try done; cbn [fval] in *.
  - split; [done|]. unfold fv. apply canon_spec in Hx. pose proof (pw_pos e1 ltac:(lia)). nia.
  - by apply canon_leb.
Qed.
(** [z] is the rounding of the quotient [A / B]: it is a double that is not
    negative, and it does not pass a representable number. *)
Record rounds (z : spec_float) (A B : Z) : Prop := {
  rd_shape : nnf z \/ z = S754_infinity false;
  rd_le mg eg : canon mg eg -> A <= B * fv (Zpos mg) eg -> SFleb z (S754_finite false mg eg) = true;
  rd_ge mg eg : canon mg eg -> B * fv (Zpos mg) eg <= A -> SFleb (S754_finite false mg eg) z = true;
}.

Lemma rounds_bounded z A B mg eg :
  rounds z A B -> canon mg eg -> A <= B * fv (Zpos mg) eg -> nnf z /\ fval z <= fv (Zpos mg) eg.
Proof.
  intros [Hs Hle _] Hc HA. specialize (Hle mg eg Hc HA). destruct Hs as [Hs| ->]; [|done].
  split; [done|]. by apply (nnf_leb z (S754_finite false mg eg)).
Qed.
Lemma rounds_above z A B mg eg :
  rounds z A B -> nnf z -> canon mg eg -> B * fv (Zpos mg) eg <= A -> fv (Zpos mg) eg <= fval z.
Proof.
  intros [_ _ Hge] Hz Hc HA. by apply (nnf_leb (S754_finite false mg eg) z), Hge.
Qed.
Lemma rounds_self z : nnf z -> rounds z (fval z) 1.
Proof.
  intros Hz. split; [by left|..]; intros mg eg Hc; rewrite Z.mul_1_l; intros HA.
  - by apply nnf_leb.
  - by apply (nnf_leb (S754_finite false mg eg) z).
Qed.

Lemma round_aux_shape mx ex lx :
  0 <= mx -> good_exp mx ex ->
  nnf (binary_round_aux 53 1024 false mx ex lx) \/ binary_round_aux 53 1024 false mx ex lx = S754_infinity false.
Proof.
  intros Hm Hg. destruct (round_shape false mx ex lx Hm Hg) as (M & _ & [[_ ->]|[(m & e & -> & Hc & _)|[-> _]]]);
    [by left|by left|by right].
Qed.
Lemma round_aux_rounds mx ex lx A B :
  0 <= mx -> good_exp mx ex -> 0 < B ->
  B * fv mx ex <= A < B * (fv mx ex + pw ex) -> (lx = loc_Exact <-> A = B * fv mx ex) ->
  (forall mg eg, canon mg eg -> B * fv (Zpos mg) eg <= A -> fv (Zpos mg) eg <= fv mx ex) ->
  rounds (binary_round_aux 53 1024 false mx ex lx) A B.
Proof.
  intros Hm Hg HB HA Hl Hge. split.
  - by apply round_aux_shape.
  - intros mg eg Hc Hle. apply round_le; [done|done|done|nia|].
    intros Hne. assert (A <> B * fv mx ex) by tauto. nia.
  - intros mg eg Hc Hle. apply round_ge; auto.
Qed.
Lemma round_aux_exact mx ex :
  0 <= mx -> good_exp mx ex -> rounds (binary_round_aux 53 1024 false mx ex loc_Exact) (fv mx ex) 1.
Proof.
  intros Hm Hg. pose proof (pw_pos ex (proj1 Hg)).
  apply round_aux_rounds; rewrite ?Z.mul_1_l; [done|done|lia|lia|done|]. intros mg eg _. by rewrite Z.mul_1_l.
Qed.

Lemma shl_align_spec m e e' :
  -4096 <= e' -> -4096 <= e ->
  let x := shl_align m e e' in
  fv (Zpos (fst x)) (snd x) = fv (Zpos m) e /\ snd x = Z.min e e' /\
  Zdigits2 (Zpos (fst x)) + snd x = Zdigits2 (Zpos m) + e.
Proof.
  intros He' He. unfold shl_align. destruct (e' - e) as [|d|d] eqn:E; cbn [fst snd]; try (split_and!; lia).
  assert (forall d, Zpos (Pos.iter xO m d) = Zpos m * 2 ^ Zpos d) as Hit.
  { intros k. induction k as [|k IH] using Pos.peano_ind; [cbn; lia|].
    rewrite Pos.iter_succ, Pos2Z.inj_xO, IH, Pos2Z.inj_succ, Z.pow_succ_r by lia. lia. }
  assert (forall k, Zpos (digits2_pos (Pos.iter xO m k)) = Zpos (digits2_pos m) + Zpos k) as Hdg.
  { intros k. induction k as [|k IH] using Pos.peano_ind; [cbn; lia|].
    rewrite Pos.iter_succ. cbn [digits2_pos]. rewrite Pos2Z.inj_succ, IH. lia. }
  split_and!; [|lia|cbn [Zdigits2]; rewrite Hdg; lia].
  rewrite Hit, <- fv_shift by lia. f_equal. lia.
Qed.

Lemma binary_round_rounds m e : -4096 <= e -> rounds (binary_round 53 1024 false m e) (fv (Zpos m) e) 1.
Proof.
  intros He. unfold binary_round.
  assert (-1074 <= fexp64 (Zpos (digits2_pos m) + e)) by (rewrite fexp64_eq; lia).
  pose proof (shl_align_spec m e (fexp64 (Zpos (digits2_pos m) + e)) ltac:(lia) He) as (E1 & E2 & E3).
  destruct (shl_align _ _ _) as [mz ez]. cbn [fst snd] in *. rewrite <- E1.
  apply round_aux_exact; [done|]. split; [lia|]. rewrite E3. cbn [Zdigits2]. lia.
Qed.

Lemma of_Z_rounds n : 0 <= n -> rounds (f64_of_Z n) (fv n 0) 1.
Proof.
  destruct n as [|p|p]; intros Hn; [|by apply binary_round_rounds|lia].
  by apply (rounds_self (S754_zero false)).
Qed.

(** Doubles are closed under the operations of the estimator. *)
Definition f64_add : spec_float -> spec_float -> spec_float := SFadd 53 1024.
Definition f64_mul : spec_float -> spec_float -> spec_float := SFmul 53 1024.

Lemma add_rounds x y : nnf x -> nnf y -> rounds (f64_add x y) (fval x + fval y) 1.
Proof.
  intros Hx Hy. destruct x as [s| | |[] m1 e1]; try done; destruct y as [t| | |[] m2 e2]; try done.
  - destruct s, t; by apply (rounds_self (S754_zero _)).
  - by apply (rounds_self (S754_finite false m2 e2)).
  - cbn [fval]. rewrite Z.add_0_r. by apply (rounds_self (S754_finite false m1 e1)).
  - cbn [nnf fval] in *. apply canon_spec in Hx, Hy. unfold f64_add, SFadd. cbn [cond_Zopp].
    destruct (shl_align_spec m1 e1 (Z.min e1 e2) ltac:(lia) ltac:(lia)) as (E1 & E2 & _).
    destruct (shl_align_spec m2 e2 (Z.min e1 e2) ltac:(lia) ltac:(lia)) as (F1 & F2 & _).
    destruct (shl_align m1 _ _) as [a ea], (shl_align m2 _ _) as [b eb]. cbn [fst snd] in *.
    assert (fv (Zpos m1) e1 + fv (Zpos m2) e2 = fv (Zpos (a + b)) (Z.min e1 e2)) as ->.
    { rewrite <- E1, <- F1. replace ea with (Z.min e1 e2) by lia. replace eb with (Z.min e1 e2) by lia.
      unfold fv. rewrite Pos2Z.inj_add. ring. }
    apply binary_round_rounds. lia.
Qed.

(** The unit of [fval] is [1 / pw 0]. *)
Lemma pw_mul e f : -4096 <= e -> -4096 <= f -> -4096 <= e + f -> pw e * pw f = pw 0 * pw (e + f).
Proof. intros. unfold pw. rewrite <- !Z.pow_add_r by lia. f_equal. lia. Qed.

Lemma mul_rounds x y : nnf x -> nnf y -> rounds (f64_mul x y) (fval x * fval y) (pw 0).
Proof.
  intros Hx Hy. pose proof (pw_pos 0 ltac:(lia)) as Hp.
  assert (forall s, rounds (S754_zero s) 0 (pw 0)) as Hz.
  { intros s. split; [by left|done|]. intros mg eg Hc%canon_spec Hle. exfalso. unfold fv in Hle.
    pose proof (pw_pos eg ltac:(lia)). nia. }
  destruct x as [s| | |[] m1 e1]; try contradiction; destruct y as [t| | |[] m2 e2]; try contradiction;
    cbn [fval]; rewrite ?Z.mul_0_r, ?Z.mul_0_l; [apply Hz|apply Hz|apply Hz|].
  cbn [nnf] in *. apply canon_spec in Hx, Hy. unfold f64_mul, SFmul. cbn [xorb].
  assert (fv (Zpos m1) e1 * fv (Zpos m2) e2 = pw 0 * fv (Zpos (m1 * m2)) (e1 + e2)) as ->.
  { unfold fv. rewrite Pos2Z.inj_mul. 
    transitivity (Zpos m1 * Zpos m2 * (pw e1 * pw e2)); [ring|]. rewrite pw_mul by lia. ring. }
  assert (good_exp (Zpos (m1 * m2)) (e1 + e2)) as Hg.
  { split; [lia|]. rewrite fexp64_eq, Pos2Z.inj_mul.
    destruct (decide (2 ^ 52 <= Zpos m1 * Zpos m2)) as [Hd|Hd].
    - pose proof (Zdigits2_ge (Zpos m1 * Zpos m2) 52 ltac:(lia) Hd). lia.
    - assert (e1 = -1074 /\ e2 = -1074) by nia. lia. }
  pose proof (pw_pos (e1 + e2) ltac:(lia)).
  apply round_aux_rounds; [done|done|done|nia|done|]. intros mg eg _ Hle. nia.
Qed.

Lemma new_location_exact n k : new_location n k = loc_Exact <-> k = 0.
Proof.
  unfold new_location, new_location_even, new_location_odd.
  destruct (Z.even n), (Z.eqb_spec k 0); split; done.
Qed.

(** The quotient, remainder and exponent the division works with. *)
Lemma div_core m1 e1 m2 e2 :
  canon m1 e1 -> canon m2 e2 ->
  exists q r e',
    SFdiv_core_binary 53 1024 (Zpos m1) e1 (Zpos m2) e2 = (q, e', new_location (Zpos m2) r) /\
    0 <= q /\ 0 <= r < Zpos m2 /\ -2100 <= e' /\
    fv (Zpos m1) e1 * pw 0 = (Zpos m2 * q + r) * (pw e' * pw e2) /\
    good_exp q e' /\ (e' <= -1074 \/ 2 ^ 52 <= q).
Proof.
  intros H1 H2. pose proof H1 as C1. pose proof H2 as C2. apply canon_spec in C1, C2.
  pose proof (digits2_pos_spec m1) as D1. pose proof (digits2_pos_spec m2) as D2.
  unfold SFdiv_core_binary. cbn [Zdigits2].
  set (d1 := Zpos (digits2_pos m1)) in *. set (d2 := Zpos (digits2_pos m2)) in *.
  assert (1 <= d1 /\ 1 <= d2) by (subst d1 d2; lia). clearbody d1 d2.
  set (X := d1 + e1 - (d2 + e2)). set (e' := Z.min (fexp64 X) (e1 - e2)). set (s := e1 - e2 - e').
  assert (fexp64 X = Z.max (X - 53) (-1074)) as HX by apply fexp64_eq.
  assert (0 <= s) by lia. assert (-2100 <= e') as He' by lia.
  assert (match s with Zpos _ => Z.shiftl (Zpos m1) s | Z0 => Zpos m1 | Zneg _ => 0 end = Zpos m1 * 2 ^ s) as ->.
  { destruct s as [|p|p] eqn:Es; [lia|by rewrite Z.shiftl_mul_pow2|lia]. }
  set (m' := Zpos m1 * 2 ^ s).
  destruct (Z.div_eucl m' (Zpos m2)) as [q r] eqn:E.
  pose proof (Z_div_mod m' (Zpos m2) ltac:(lia)) as Hdm. rewrite E in Hdm. destruct Hdm as [Hq Hr].
  assert (0 < 2 ^ s) by (apply Z.pow_pos_nonneg; lia).
  assert (0 <= q) as Hq0 by nia.
  exists q, r, e'. split; [done|]. split; [done|]. split; [done|]. split; [done|]. split.
  { rewrite <- Hq. unfold fv, m'. rewrite pw_mul by lia.
    replace (pw e1) with (2 ^ s * pw (e' + e2)); [ring|].
    rewrite <- pw_add by lia. f_equal. lia. }
  assert (forall t, 0 <= t -> t = d1 + s - 1 - d2 -> 2 ^ t <= q) as Hqt.
  { intros t Ht ->. assert (2 ^ d2 * 2 ^ (d1 + s - 1 - d2) <= m') as Hm'.
    { rewrite <- Z.pow_add_r by lia. replace (d2 + (d1 + s - 1 - d2)) with (d1 - 1 + s) by lia.
      rewrite Z.pow_add_r by lia. unfold m'. nia. }
    assert (Zpos m2 * 2 ^ (d1 + s - 1 - d2) < Zpos m2 * (q + 1)); [|nia].
    assert (0 < 2 ^ (d1 + s - 1 - d2)) by (apply Z.pow_pos_nonneg; lia). nia. }
  destruct (decide (0 <= d1 + s - 1 - d2)) as [Ht|Ht].
  - specialize (Hqt _ Ht eq_refl). pose proof (Zdigits2_ge q _ Ht Hqt). split.
    + split; [lia|]. rewrite fexp64_eq. lia.
    + destruct (decide (e' <= -1074)) as [|Hn]; [by left|right].
      etrans; [|exact Hqt]. apply Z.pow_le_mono_r; lia.
  - split; [|left; lia]. split; [lia|]. rewrite fexp64_eq.
    assert (e' <= -1074) by lia. lia.
Qed.

Lemma div_rounds x y : nnf x -> nnf y -> 0 < fval y -> rounds (f64_div x y) (fval x * pw 0) (fval y).
Proof.
  intros Hx Hy Hpos. destruct y as [t| | |[] m2 e2]; try done. cbn [fval nnf] in *.
  destruct x as [s| | |[] m1 e1]; try done.
  { cbn [fval]. rewrite Z.mul_0_l. split; [by left|done|]. intros mg eg Hc%canon_spec Hle. exfalso.
    unfold fv in Hle at 2. pose proof (pw_pos eg ltac:(lia)). nia. }
  cbn [fval nnf] in *. destruct (div_core m1 e1 m2 e2 Hx Hy) as (q & r & e' & E & Hq & Hr & He' & HA & Hg & Hn).
  unfold f64_div, SFdiv. rewrite E. cbn [xorb].
  apply canon_spec in Hy. pose proof (pw_pos e2 ltac:(lia)). pose proof (pw_pos e' ltac:(lia)).
  set (W := pw e' * pw e2) in *. assert (0 < W) by nia.
  assert (forall n, fv (Zpos m2) e2 * (n * pw e') = Zpos m2 * n * W) as HB by (intros n; unfold fv, W; ring).
  assert (fv (Zpos m2) e2 * fv q e' = Zpos m2 * q * W) as HBq by apply HB.
  apply round_aux_rounds; [done|done|done| | |].
  - replace (fv q e' + pw e') with ((q + 1) * pw e') by (unfold fv; ring). rewrite HBq, HB, HA. nia.
  - rewrite new_location_exact, HBq, HA. nia.
  - intros mg eg Hc Hle. rewrite HA in Hle. destruct (decide (e' <= eg)) as [Hle'|Hlt].
    + apply canon_spec in Hc.
      assert (fv (Zpos mg) eg = Zpos mg * 2 ^ (eg - e') * pw e') as Ek
        by (unfold fv; replace eg with (e' + (eg - e')) at 1 by lia; rewrite pw_add by lia; ring).
      rewrite Ek in *. rewrite HB in Hle. apply fv_le; [lia|].
      assert (Zpos m2 * (Zpos mg * 2 ^ (eg - e')) <= Zpos m2 * q + r) by nia. nia.
    + destruct Hn as [Hn|Hn]; [apply canon_spec in Hc; lia|].
      pose proof (canon_below mg eg e' q Hc ltac:(lia) Hn). lia.
Qed.

(** ** Conversions *)

(** An integer below [2^53] is representable. *)
Lemma small_canon n : 0 < n < 2 ^ 53 -> exists m e, canon m e /\ fv (Zpos m) e = fv n 0.
Proof.
  intros Hn. destruct (Zdigits2_spec n ltac:(lia)) as (H1 & H2 & _).
  pose proof (Zdigits2_le n 53 ltac:(lia) ltac:(lia) ltac:(lia)).
  assert (0 < 2 ^ (53 - Zdigits2 n)) as Hp by (apply Z.pow_pos_nonneg; lia).
  exists (Z.to_pos (n * 2 ^ (53 - Zdigits2 n))), (Zdigits2 n - 53).
  rewrite Z2Pos.id by nia. rewrite <- fv_shift by lia.
  split; [|f_equal; lia]. apply canon_spec. rewrite Z2Pos.id by nia.
  destruct (Zdigits2_spec n ltac:(lia)) as (_ & _ & H3).
  assert (2 ^ 53 = 2 ^ Zdigits2 n * 2 ^ (53 - Zdigits2 n)) by (rewrite <- Z.pow_add_r by lia; f_equal; lia).
  assert (2 ^ 52 = 2 ^ (Zdigits2 n - 1) * 2 ^ (53 - Zdigits2 n)) by (rewrite <- Z.pow_add_r by lia; f_equal; lia).
  split; [nia|]. split; [lia|]. right. nia.
Qed.
(** Powers of two are. *)
Lemma pow2_canon k : -1022 <= k <= 1023 -> exists m, canon m (k - 52) /\ fv (Zpos m) (k - 52) = pw k.
Proof.
  intros Hk. exists (Z.to_pos (2 ^ 52)). split; [apply canon_spec; rewrite Z2Pos.id by lia; lia|].
  rewrite Z2Pos.id by lia. unfold fv. replace k with (k - 52 + 52) at 2 by lia. by rewrite pw_add by lia.
Qed.

Lemma of_Z_exact n : 0 <= n < 2 ^ 53 -> nnf (f64_of_Z n) /\ fval (f64_of_Z n) = fv n 0.
Proof.
  intros Hn. destruct (decide (n = 0)) as [->|Hne]; [done|].
  destruct (small_canon n ltac:(lia)) as (m & e & Hc & E).
  pose proof (of_Z_rounds n ltac:(lia)) as Hr.
  destruct (rounds_bounded _ _ _ m e Hr Hc ltac:(lia)) as [H1 H2].
  pose proof (rounds_above _ _ _ m e Hr H1 Hc ltac:(lia)). split; [done|lia].
Qed.

(** The bounds of a conversion by powers of two. *)
Lemma of_Z_pow2 n j k :
  0 <= j -> j <= k <= 1023 -> 2 ^ j <= n <= 2 ^ k -> nnf (f64_of_Z n) /\ pw j <= fval (f64_of_Z n) <= pw k.
Proof.
  intros Hj Hk Hn. pose proof (of_Z_rounds n ltac:(assert (0 < 2 ^ j) by (apply Z.pow_pos_nonneg; lia); lia)) as Hr.
  destruct (pow2_canon k ltac:(lia)) as (mk & Ck & Ek). destruct (pow2_canon j ltac:(lia)) as (mj & Cj & Ej).
  assert (forall i, 0 <= i -> pw i = fv (2 ^ i) 0) as Hp
    by (intros i Hi; unfold fv; rewrite <- pw_add by lia; f_equal; lia).
  rewrite (Hp k) in Ek by lia. rewrite (Hp j) in Ej by lia.
  destruct (rounds_bounded _ _ _ mk _ Hr Ck ltac:(rewrite Ek, Z.mul_1_l; apply fv_le; lia)) as [H1 H2].
  pose proof (rounds_above _ _ _ mj _ Hr H1 Cj ltac:(rewrite Ej, Z.mul_1_l; apply fv_le; lia)).
  rewrite !Hp by lia. split; [done|lia].
Qed.

(** The truncation of a double that is at most an integer. *)
Lemma to_Z_le bound x n :
  nnf x -> fval x <= fv n 0 -> n < bound -> exists k, f64_to_Z bound x = Ok k /\ 0 <= k <= n.
Proof.
  intros Hx Hv Hb. pose proof (nnf_fval x Hx) as H0.
  assert (0 <= n) as Hn0 by (unfold fv in *; pose proof (pw_pos 0 ltac:(lia)); nia).
  destruct x as [s| | |[] m e]; try contradiction; cbn [fval] in *; [exists 0; split; [done|lia]|].
  cbn [nnf] in Hx. apply canon_spec in Hx. unfold f64_to_Z.
  assert (0 <= Z.shiftl (Zpos m) e <= n) as [Hs1 Hs2].
  { destruct (decide (0 <= e)) as [He|He].
    - rewrite Z.shiftl_mul_pow2 by lia. assert (0 < 2 ^ e) by (apply Z.pow_pos_nonneg; lia).
      replace (fv (Zpos m) e) with (fv (Zpos m * 2 ^ e) 0) in Hv by (rewrite <- fv_shift by lia; f_equal; lia).
      apply fv_le_inv in Hv; lia.
    - rewrite Z.shiftl_div_pow2 by lia. assert (0 < 2 ^ (- e)) by (apply Z.pow_pos_nonneg; lia).
      split; [apply Z.div_pos; lia|]. replace (fv n 0) with (fv (n * 2 ^ (- e)) e) in Hv
        by (rewrite <- fv_shift by lia; f_equal; lia).
      apply fv_le_inv in Hv; [|lia]. apply Z.div_le_upper_bound; lia. }
  destruct (Z.ltb_spec (Z.shiftl (Zpos m) e) bound); [by eexists|lia].
Qed.

(** Conversion is monotone. *)
Definition rne (n k : Z) : Z :=
  n / 2 ^ k + (if Z.odd (n / 2 ^ (k - 1)) && (negb (n mod 2 ^ (k - 1) =? 0) || Z.odd (n / 2 ^ k)) then 1 else 0).

Lemma rne_mono n n' k : 0 < k -> 0 <= n <= n' -> rne n k <= rne n' k.
Proof.
  intros Hk Hn. unfold rne. assert (0 < 2 ^ (k - 1)) as Hp by (apply Z.pow_pos_nonneg; lia).
  assert (2 ^ k = 2 * 2 ^ (k - 1)) as E by (rewrite <- Z.pow_succ_r by lia; f_equal; lia).
  assert (n / 2 ^ k <= n' / 2 ^ k) as Hq by (apply Z.div_le_mono; lia).
  destruct (decide (n / 2 ^ k = n' / 2 ^ k)) as [Eq|Ne].
  2:{ destruct (_ && _), (_ && _); lia. }
  rewrite Eq. clear Hq.
  assert (forall a, 0 <= a -> a / 2 ^ k = a / 2 ^ (k - 1) / 2) as Hdd
    by (intros a Ha; rewrite Z.div_div by lia; f_equal; lia).
  rewrite !Hdd in Eq by lia.
  assert (n / 2 ^ (k - 1) <= n' / 2 ^ (k - 1)) as Hm by (apply Z.div_le_mono; lia).
  pose proof (Z.div_mod (n / 2 ^ (k - 1)) 2 ltac:(lia)) as D1. rewrite Zmod_odd in D1.
  pose proof (Z.div_mod (n' / 2 ^ (k - 1)) 2 ltac:(lia)) as D2. rewrite Zmod_odd in D2.
  pose proof (Z.div_mod n (2 ^ (k - 1)) ltac:(lia)). pose proof (Z.div_mod n' (2 ^ (k - 1)) ltac:(lia)).
  pose proof (Z.mod_pos_bound n _ Hp). pose proof (Z.mod_pos_bound n' _ Hp).
  destruct (Z.odd (n / 2 ^ (k - 1))), (Z.odd (n' / 2 ^ (k - 1))); cbn [andb]; try lia.
  - destruct (Z.odd (n' / 2 ^ k)); rewrite ?orb_true_r, ?orb_false_r; [lia|].
    destruct (Z.eqb_spec (n mod 2 ^ (k - 1)) 0), (Z.eqb_spec (n' mod 2 ^ (k - 1)) 0); cbn [negb]; try lia.
  - destruct (_ || _); lia.
Qed.

(** A long integer rounds at its own exponent. *)
Lemma of_Z_long n :
  2 ^ 53 <= n -> let k := Zdigits2 n - 53 in round_result false (rne n k) k (f64_of_Z n).
Proof.
  intros Hn k. pose proof (Zdigits2_ge n 53 ltac:(lia) Hn) as Hd.
  destruct n as [|p|p]; [lia| |lia]. unfold f64_of_Z, binary_normalize, binary_round.
  change (Zpos (digits2_pos p)) with (Zdigits2 (Zpos p)). rewrite Z.add_0_r.
  assert (fexp64 (Zdigits2 (Zpos p)) = k) as Hk by (rewrite fexp64_eq; lia). rewrite Hk.
  assert (shl_align p 0 k = (p, 0)) as -> by (unfold shl_align; destruct (k - 0) eqn:E; [done|done|lia]).
  unfold binary_round_aux. unfold shr_fexp at 1. rewrite Z.add_0_r, Hk.
  pose proof (shr_spec (Zpos p) loc_Exact 0 (k - 0) ltac:(lia) ltac:(lia)) as (S1 & S2 & S3 & S4).
  destruct (S4 ltac:(lia) eq_refl) as [S5 S6]. rewrite Z.sub_0_r in *.
  destruct (shr _ _ k) as [x e1]. cbn [fst snd] in *. subst e1.
  assert (good_exp (Zpos p) 0) as Hg by (split; [lia|]; rewrite Z.add_0_r, Hk; lia).
  pose proof (cut_mant_bounds (Zpos p) 0 ltac:(lia) Hg) as [Hb1 Hb2]. unfold cut_mant in Hb1, Hb2.
  rewrite Z.add_0_r, Hk, Z.sub_0_r in Hb1. rewrite Z.add_0_r, Hk, Z.sub_0_r in Hb2.
  assert (round_nearest_even (shr_m x) (loc_of_shr_record x) = rne (Zpos p) k) as HM.
  { unfold rne. rewrite S2, <- S5, <- S6. destruct x as [m [] []]; cbn [loc_of_shr_record round_nearest_even shr_r shr_s andb orb].
    all: try lia. rewrite <- Z.negb_odd. destruct (Z.odd (Zpos p / 2 ^ k)); cbn [negb]; lia. }
  rewrite HM. apply round_tail; [|lia|].
  - clear HM. unfold rne. destruct (Z.odd _ && _); lia.
  - destruct Hb2 as [Hb2|Hb2]; [lia|right]. unfold rne. destruct (Z.odd _ && _); lia.
Qed.

Lemma of_Z_mono n n' : 0 <= n <= n' -> n' < 2 ^ 1000 -> fval (f64_of_Z n) <= fval (f64_of_Z n').
Proof.
  intros Hn Hb. pose proof (of_Z_rounds n' ltac:(lia)) as Hr'.
  destruct (decide (n = 0)) as [->|Hn0].
  { destruct (rd_shape _ _ _ Hr') as [Hs|Hs]; [by apply nnf_fval|by rewrite Hs]. }
  assert (forall a, 0 < a < 2 ^ 1000 -> nnf (f64_of_Z a)) as Hnn
    by (intros a Ha; by destruct (of_Z_pow2 a 0 1000 ltac:(lia) ltac:(lia) ltac:(lia))).
  destruct (decide (n < 2 ^ 53)) as [Hs|Hs].
  { destruct (of_Z_exact n ltac:(lia)) as [_ ->]. destruct (small_canon n ltac:(lia)) as (m & e & Hc & E).
    rewrite <- E. apply (rounds_above _ _ _ m e Hr'); [apply Hnn; lia|done|].
    rewrite E, Z.mul_1_l. apply fv_le; lia. }
  pose proof (of_Z_long n ltac:(lia)) as L1. pose proof (of_Z_long n' ltac:(lia)) as L2. cbn zeta in *.
  pose proof (Zdigits2_ge n 53 ltac:(lia) ltac:(lia)) as Hd.
  destruct (Zdigits2_spec n ltac:(lia)) as (_ & D1 & D2). destruct (Zdigits2_spec n' ltac:(lia)) as (D0' & D1' & D2').
  assert (Zdigits2 n' <= 1000) by (apply Zdigits2_le; lia).
  destruct (decide (Zdigits2 n < Zdigits2 n')) as [Hlt|Hge].
  - assert (2 ^ Zdigits2 n <= 2 ^ (Zdigits2 n' - 1)) by (apply Z.pow_le_mono_r; lia).
    transitivity (pw (Zdigits2 n)).
    + apply (of_Z_pow2 n (Zdigits2 n - 1) (Zdigits2 n)); lia.
    + apply (of_Z_pow2 n' (Zdigits2 n) (Zdigits2 n')); lia.
  - assert (Zdigits2 n' = Zdigits2 n) as E.
    { assert (2 ^ (Zdigits2 n - 1) < 2 ^ Zdigits2 n') as H' by lia.
      apply Z.pow_lt_mono_r_iff in H'; lia. }
    rewrite E in *. pose proof (rne_mono n n' (Zdigits2 n - 53) ltac:(lia) ltac:(lia)) as Hm.
    assert (forall M a, round_result false M (Zdigits2 n - 53) (f64_of_Z a) -> 0 < a < 2 ^ 1000 ->
      fval (f64_of_Z a) = fv M (Zdigits2 n - 53)) as Hval.
    { intros M a [[-> ->]|[(m & e & -> & _ & Hv)|[Hi _]]] Ha; [done|done|].
      specialize (Hnn a Ha). by rewrite Hi in Hnn. }
    rewrite (Hval _ _ L1), (Hval _ _ L2) by lia. apply fv_le; lia.
Qed.

(** ** Quotients of counts *)

(** The double 1. *)
Definition f64_one : spec_float := S754_finite false 4503599627370496 (-52).
Lemma f64_one_canon : canon 4503599627370496 (-52).
Proof. done. Qed.
Lemma f64_one_val : fval f64_one = pw 0.
Proof. cbn [f64_one fval]. unfold fv. change 0 with (-52 + 52). by rewrite pw_add. Qed.
Lemma f64_one_of_Z : f64_of_Z 1 = f64_one.
Proof. by vm_compute. Qed.

(** A ratio of a count to a larger one is at most 1. *)
Lemma ratio_le_one a b :
  0 <= a <= b -> 0 < b < 2 ^ 1000 ->
  nnf (f64_div (f64_of_Z a) (f64_of_Z b)) /\ fval (f64_div (f64_of_Z a) (f64_of_Z b)) <= pw 0.
Proof.
  intros Ha Hb. assert (nnf (f64_of_Z b) /\ pw 0 <= fval (f64_of_Z b)) as [Hnb Hvb].
  { destruct (of_Z_pow2 b 0 1000 ltac:(lia) ltac:(lia) ltac:(lia)) as [? [? ?]]. done. }
  assert (nnf (f64_of_Z a)) as Hna.
  { destruct (decide (a = 0)) as [->|]; [done|]. by destruct (of_Z_pow2 a 0 1000 ltac:(lia) ltac:(lia) ltac:(lia)). }
  pose proof (pw_pos 0 ltac:(lia)). pose proof (of_Z_mono a b Ha ltac:(lia)).
  pose proof (div_rounds _ _ Hna Hnb ltac:(lia)) as Hr.
  rewrite <- f64_one_val. apply (rounds_bounded _ _ _ _ _ Hr f64_one_canon).
  change (fv _ _) with (fval f64_one). rewrite f64_one_val. nia.
Qed.
Lemma one_over_le b : 0 < b < 2 ^ 1000 -> SFleb (f64_div f64_one (f64_of_Z b)) f64_one = true.
Proof.
  intros Hb. rewrite <- f64_one_of_Z. destruct (ratio_le_one 1 b ltac:(lia) Hb) as [H1 H2].
  apply nnf_leb; [done|by vm_compute|]. rewrite f64_one_of_Z in *. by rewrite f64_one_val.
Qed.

(** The scale is a large number that proofs should not compute. *)
#[global] Opaque pw.
