(* ===== verification/ByteAxis.v ===== *)
(** * The byte axis of the estimator

    Models [ByteAxis] and [GlobalRangeStats::Place] ([bit_lsm_estimator.h],
    [bit_lsm_estimator.cpp]): byte strings as numbers in the base spanned by
    the bytes that occur, and query intervals as half-open windows of such
    coordinates. All coordinates are [uint64_t]; [size_t] has 64 bits. *)
From Stdlib Require Import ZArith Lia Strings.Byte.
From stdpp Require Import base numbers list.
From S2P Require Import Prelude Options Okey Query.

Definition SatAdd (a b : Z) : Z := if UINT64_MAX - b <? a then UINT64_MAX else a + b.

Fixpoint CommonPrefixLength (a b : bytes) : nat :=
  match a, b with
  | x :: a', y :: b' => if b2z x =? b2z y then S (CommonPrefixLength a' b') else O
  | _, _ => O
  end.

Record ByteAxis := mkByteAxis {
  ax_prefix : bytes;
  ax_lo_char : Z;
  ax_radix : Z;
  ax_digits : nat;
  ax_base : Z;
  ax_span : Z;
  ax_unit : Z;
}.

(** The digit at position [pos] of a string. *)
Definition digit_at (ax : ByteAxis) (s : bytes) (pos : nat) : Z :=
  match s !! pos with
  | Some c => if b2z c <=? ax_lo_char ax then 0 else Z.min (b2z c - ax_lo_char ax) (ax_radix ax - 1)
  | None => 0
  end.

(** [n] iterations of the loop of [Window], from position [pos] on. *)
Fixpoint window_loop (ax : ByteAxis) (s : bytes) (n pos : nat) (acc : Z) : Z :=
  match n with
  | O => acc
  | S n' => window_loop ax s n' (S pos) (u64 (acc * ax_radix ax + digit_at ax s pos))
  end.
Definition Window (ax : ByteAxis) (s : bytes) : Z :=
  window_loop ax s (ax_digits ax) (length (ax_prefix ax)) 0.

Definition End (ax : ByteAxis) : Z := SatAdd (ax_span ax) (ax_unit ax).

Definition Rel (ax : ByteAxis) (s : bytes) : Z :=
  match bcompare (take (length (ax_prefix ax)) s) (ax_prefix ax) with
  | Lt => 0
  | Gt => End ax
  | Eq =>
      let w := Window ax s in
      if w <? ax_base ax then 0
      else let r := u64 (w - ax_base ax) in if ax_span ax <? r then End ax else r
  end.

(** [for (p = 1; p * radix <= 2^64; p *= radix) ++digits], in 128 bits. The
    radix is at least 2, so 65 iterations reach the exit test. *)
Fixpoint count_digits (fuel : nat) (radix p : Z) (digits : nat) : nat :=
  match fuel with
  | O => digits
  | S fuel' => if p * radix <=? 2 ^ 64 then count_digits fuel' radix (p * radix) (S digits) else digits
  end.

Fixpoint pow_loop (n : nat) (radix acc : Z) : Z :=
  match n with O => acc | S n' => pow_loop n' radix (u64 (acc * radix)) end.

Definition Fit (min max : bytes) (lo_char hi_char : Z) (shortest : Z) : ByteAxis :=
  let k := CommonPrefixLength min max in
  let radix := Z.max 2 (u32 (hi_char - lo_char + 1)) in
  let digits := count_digits 65 radix 1 0 in
  let ax0 := mkByteAxis (take k min) lo_char radix digits 0 0 1 in
  let base := Window ax0 min in
  let span := u64 (Window ax0 max - base) in
  let kd := Z.of_nat k + Z.of_nat digits in
  let pad := if shortest <? kd then kd - shortest else 0 in
  let unit := pow_loop (Z.to_nat (Z.min pad (u64 (Z.of_nat digits - 1)))) radix 1 in
  mkByteAxis (take k min) lo_char radix digits base span unit.

(** [GlobalRangeStats::Window]. *)
Record axis_window := mkAxisWindow {
  aw_lo : Z;
  aw_hi : Z;
  aw_point : bool;
  aw_in_span : bool;
}.

(** [GlobalRangeStats::Place], of the fields it reads. *)
Definition Place (ax : ByteAxis) (min max : bytes) (w : ByteInterval) : axis_window :=
  let wlo :=
    if bltb (lo w) min then 0
    else if bltb max (lo w) then End ax
    else SatAdd (Rel ax (lo w)) (if lo_open w then ax_unit ax else 0) in
  let whi :=
    if hi_unbounded w || bltb max (hi w) then End ax
    else if bltb (hi w) min then 0
    else SatAdd (Rel ax (hi w)) (if hi_open w then 0 else ax_unit ax) in
  mkAxisWindow wlo whi ((wlo <? whi) && (u64 (whi - wlo) <=? ax_unit ax))
    (negb (bltb (lo w) min) && (wlo <=? ax_span ax)).

(** ** Strings as numbers *)
Section Digits.
Variables (lo_char radix : Z).

Definition digit (c : byte) : Z :=
  if b2z c <=? lo_char then 0 else Z.min (b2z c - lo_char) (radix - 1).

(** The first [n] characters as a number of [n] digits. *)
Fixpoint wval (n : nat) (s : bytes) : Z :=
  match n, s with
  | S n', c :: s' => digit c * radix ^ Z.of_nat n' + wval n' s'
  | _, _ => 0
  end.

Hypothesis Hradix : 2 <= radix.

Lemma digit_bounds c : 0 <= digit c <= radix - 1.
Proof. unfold digit. destruct (Z.leb_spec (b2z c) lo_char); lia. Qed.

Lemma radix_pow_pos n : 0 < radix ^ Z.of_nat n.
Proof. apply Z.pow_pos_nonneg; lia. Qed.
Lemma radix_pow_succ n : radix ^ Z.of_nat (S n) = radix * radix ^ Z.of_nat n.
Proof. rewrite Nat2Z.inj_succ, Z.pow_succ_r by lia. done. Qed.
Lemma radix_pow_mono n m : (n <= m)%nat -> radix ^ Z.of_nat n <= radix ^ Z.of_nat m.
Proof. intros. apply Z.pow_le_mono_r; lia. Qed.

Lemma wval_bounds n s : 0 <= wval n s < radix ^ Z.of_nat n.
Proof.
  revert s. induction n as [|n IH]; intros [|c s]; cbn [wval]; try (by split; [|apply radix_pow_pos]).
  rewrite radix_pow_succ. pose proof (digit_bounds c). pose proof (radix_pow_pos n).
  specialize (IH s). nia.
Qed.

(** The bytes of a string are digits of the base. *)
Definition in_base (s : bytes) : Prop := Forall (fun c => lo_char <= b2z c < lo_char + radix) s.

Lemma digit_in_base c : lo_char <= b2z c < lo_char + radix -> digit c = b2z c - lo_char.
Proof. intros H. unfold digit. destruct (Z.leb_spec (b2z c) lo_char); lia. Qed.

(** A larger string has no smaller number ... *)
Lemma wval_mono n s t : in_base s -> in_base t -> ble s t -> wval n s <= wval n t.
Proof.
  intros Hs. revert n t. induction Hs as [|c s Hc Hs IH]; intros n t Ht Hle.
  - assert (wval n [] = 0) as -> by by destruct n. apply wval_bounds.
  - destruct t as [|d t]; [done|]. apply Forall_cons in Ht as [Hd Ht].
    destruct n as [|n]; [done|]. cbn [wval]. rewrite !digit_in_base by done.
    unfold ble in Hle. cbn [bcompare] in Hle.
    pose proof (wval_bounds n s). pose proof (wval_bounds n t).
    destruct (Z.compare_spec (b2z c) (b2z d)) as [E|E|E]; [|nia|done].
    specialize (IH n t Ht Hle). nia.
Qed.

(** The digits past the end of a string are zeros. *)
Lemma wval_multiple n s :
  (length s <= n)%nat -> exists q, wval n s = q * radix ^ Z.of_nat (n - length s).
Proof.
  revert n. induction s as [|c s IH]; intros n Hn.
  - exists 0. by destruct n.
  - destruct n as [|n]; [simpl in Hn; lia|]. cbn [wval length Nat.sub] in *.
    destruct (IH n ltac:(lia)) as [q ->].
    exists (digit c * radix ^ Z.of_nat (length s) + q).
    replace (Z.of_nat n) with (Z.of_nat (length s) + Z.of_nat (n - length s)) at 1 by lia.
    rewrite Z.pow_add_r by lia. ring.
Qed.

(** ... and among strings of one length that fits, one at least a unit of the
    last position larger. *)
Lemma wval_strict n s t :
  in_base s -> in_base t -> length s = length t -> (length s <= n)%nat -> blt s t ->
  wval n s + radix ^ Z.of_nat (n - length s) <= wval n t.
Proof.
  intros Hs. revert n t. induction Hs as [|c s Hc Hs IH]; intros n [|d t] Ht Hlen Hn Hlt; try done.
  apply Forall_cons in Ht as [Hd Ht]. destruct n as [|n]; [simpl in Hn; lia|].
  cbn [wval]. rewrite !digit_in_base by done. unfold blt in Hlt. cbn [bcompare] in Hlt.
  cbn [length] in *. replace (S n - S (length s))%nat with (n - length s)%nat by lia.
  pose proof (wval_bounds n s). pose proof (wval_bounds n t).
  destruct (Z.compare_spec (b2z c) (b2z d)) as [E|E|E]; [| |done].
  - specialize (IH n t Ht ltac:(lia) ltac:(lia) Hlt). nia.
  - destruct (wval_multiple n s ltac:(lia)) as [q Hq].
    assert (radix ^ Z.of_nat n = radix ^ Z.of_nat (length s) * radix ^ Z.of_nat (n - length s)) as Hp
      by (rewrite <- Z.pow_add_r by lia; f_equal; lia).
    pose proof (radix_pow_pos (n - length s)). pose proof (radix_pow_pos (length s)).
    assert (q + 1 <= radix ^ Z.of_nat (length s)) by nia. nia.
Qed.
End Digits.

(** ** The loops *)
Lemma digit_at_lookup ax s pos c :
  s !! pos = Some c -> digit_at ax s pos = digit (ax_lo_char ax) (ax_radix ax) c.
Proof. intros H. unfold digit_at. by rewrite H. Qed.

Lemma window_loop_spec ax s n pos acc :
  2 <= ax_radix ax -> 0 <= acc -> (acc + 1) * ax_radix ax ^ Z.of_nat n <= 2 ^ 64 ->
  window_loop ax s n pos acc =
  acc * ax_radix ax ^ Z.of_nat n + wval (ax_lo_char ax) (ax_radix ax) n (drop pos s).
Proof.
  intros Hr. revert pos acc. induction n as [|n IH]; intros pos acc Ha Hb; [simpl; lia|].
  pose proof (radix_pow_pos _ Hr n) as Hp. rewrite radix_pow_succ in * by done. cbn [window_loop].
  assert (exists d, digit_at ax s pos = d /\ 0 <= d <= ax_radix ax - 1 /\
    wval (ax_lo_char ax) (ax_radix ax) (S n) (drop pos s) =
      d * ax_radix ax ^ Z.of_nat n + wval (ax_lo_char ax) (ax_radix ax) n (drop (S pos) s)) as (d & -> & Hd & ->).
  { destruct (s !! pos) as [c|] eqn:E.
    - eexists. split; [by apply digit_at_lookup|]. split; [by apply digit_bounds|]. by rewrite (drop_S _ _ _ E).
    - exists 0. unfold digit_at. rewrite E. apply lookup_ge_None in E.
      rewrite !drop_ge by lia. split; [done|]. split; [lia|]. by destruct n. }
  rewrite u64_small by (unfold is_u64; nia). rewrite IH by nia. ring.
Qed.

Lemma count_digits_spec fuel radix p digits :
  2 <= radix -> p = radix ^ Z.of_nat digits -> p <= 2 ^ 64 -> (digits + fuel = 65)%nat ->
  let n := count_digits fuel radix p digits in
  radix ^ Z.of_nat n <= 2 ^ 64 < radix ^ Z.of_nat (S n).
Proof.
  intros Hr. revert p digits. induction fuel as [|fuel IH]; intros p digits -> Hle Hf; cbn [count_digits].
  - exfalso. assert (2 ^ Z.of_nat digits <= radix ^ Z.of_nat digits) by (apply Z.pow_le_mono_l; lia).
    replace (Z.of_nat digits) with 65 in * by lia. lia.
  - destruct (Z.leb_spec (radix ^ Z.of_nat digits * radix) (2 ^ 64)) as [H|H].
    + apply IH; [|done|lia]. rewrite radix_pow_succ by done. ring.
    + cbn zeta. rewrite radix_pow_succ by done. lia.
Qed.

Lemma pow_loop_spec n radix acc :
  2 <= radix -> 0 <= acc -> acc * radix ^ Z.of_nat n < 2 ^ 64 -> pow_loop n radix acc = acc * radix ^ Z.of_nat n.
Proof.
  intros Hr. revert acc. induction n as [|n IH]; intros acc Ha Hb; cbn [pow_loop]; [lia|].
  rewrite radix_pow_succ in * by done. pose proof (radix_pow_pos _ Hr n).
  rewrite u64_small by (unfold is_u64; nia). rewrite IH by nia. ring.
Qed.

Lemma digits_range radix d :
  2 <= radix <= 256 -> radix ^ Z.of_nat d <= 2 ^ 64 < radix ^ Z.of_nat (S d) -> (8 <= d <= 64)%nat.
Proof.
  intros Hr [H1 H2]. split.
  - destruct (decide (8 <= d)%nat) as [|Hn]; [done|exfalso].
    pose proof (radix_pow_mono radix ltac:(lia) (S d) 8 ltac:(lia)).
    assert (radix ^ Z.of_nat 8 <= 256 ^ Z.of_nat 8) by (apply Z.pow_le_mono_l; lia).
    change (256 ^ Z.of_nat 8) with (2 ^ 64) in *. lia.
  - destruct (decide (d <= 64)%nat); [done|exfalso].
    pose proof (radix_pow_mono radix ltac:(lia) 65 d ltac:(lia)).
    assert (2 ^ Z.of_nat 65 <= radix ^ Z.of_nat 65) by (apply Z.pow_le_mono_l; lia).
    change (2 ^ Z.of_nat 65) with (2 * 2 ^ 64) in *. lia.
Qed.

(** The number of steps of the loop that computes [unit]. *)
Lemma unit_steps (k d : nat) shortest :
  (8 <= d <= 64)%nat ->
  Z.to_nat (Z.min (if shortest <? Z.of_nat k + Z.of_nat d then Z.of_nat k + Z.of_nat d - shortest else 0)
              (u64 (Z.of_nat d - 1))) =
  Nat.min (Z.to_nat (Z.of_nat k + Z.of_nat d - shortest)) (d - 1).
Proof.
  intros Hd. rewrite u64_small by (unfold is_u64; lia).
  destruct (Z.ltb_spec shortest (Z.of_nat k + Z.of_nat d)); lia.
Qed.

(** ** Common prefixes *)
Lemma CommonPrefixLength_take a b :
  take (CommonPrefixLength a b) a = take (CommonPrefixLength a b) b.
Proof.
  revert b. induction a as [|x a IH]; intros [|y b]; try done. cbn [CommonPrefixLength].
  destruct (Z.eqb_spec (b2z x) (b2z y)) as [E|E]; [|done]. apply (inj b2z) in E as ->.
  cbn [take]. by rewrite IH.
Qed.
Lemma CommonPrefixLength_le a b : (CommonPrefixLength a b <= length a)%nat.
Proof.
  revert b. induction a as [|x a IH]; intros [|y b]; cbn [CommonPrefixLength length]; try lia.
  destruct (_ =? _); [|lia]. specialize (IH b). lia.
Qed.
Lemma CommonPrefixLength_refl a : CommonPrefixLength a a = length a.
Proof. induction a as [|x a IH]; [done|]. cbn [CommonPrefixLength length]. by rewrite Z.eqb_refl, IH. Qed.
Lemma bcompare_app p a b : bcompare (p ++ a) (p ++ b) = bcompare a b.
Proof. induction p as [|x p IH]; [done|]. cbn [app bcompare]. by rewrite Z.compare_refl. Qed.

(** Strings between two strings have their common prefix. *)
Lemma between_prefix k a b s :
  take k a = take k b -> (k <= length a)%nat -> ble a s -> ble s b -> take k s = take k a.
Proof.
  unfold ble. revert a b s. induction k as [|k IH]; intros [|x a] [|y b] [|z s] E Hk H1 H2;
    cbn [take length bcompare] in *; try done; try lia.
  injection E as -> E.
  destruct (Z.compare_spec (b2z y) (b2z z)) as [Hc|Hc|Hc]; [|exfalso|done].
  - apply (inj b2z) in Hc as ->. rewrite Z.compare_refl in H2. f_equal. apply (IH a b s); [done|lia|done|done].
  - rewrite (proj2 (Z.compare_gt_iff _ _)) in H2 by lia. done.
Qed.

(** ** The axis of two bounds *)

(** Bounds in order whose bytes past the common prefix lie in
    [lo_char, hi_char]. *)
Record fit_pre (min max : bytes) (lo_char hi_char : Z) : Prop := {
  fp_chars : 0 <= lo_char <= hi_char /\ hi_char <= 255;
  fp_order : ble min max;
  fp_min : Forall (fun c => lo_char <= b2z c <= hi_char) (drop (CommonPrefixLength min max) min);
  fp_max : Forall (fun c => lo_char <= b2z c <= hi_char) (drop (CommonPrefixLength min max) max);
}.

Section Axis.
Context (min max : bytes) (lo_char hi_char shortest : Z).
Hypothesis Hpre : fit_pre min max lo_char hi_char.
Hypothesis Hshort : 0 <= shortest.
Abbreviation ax := (Fit min max lo_char hi_char shortest).
Abbreviation k := (CommonPrefixLength min max).
Abbreviation num s := (wval lo_char (ax_radix ax) (ax_digits ax) (drop k s)).

(** A string whose bytes past the prefix are bytes the boundaries use. *)
Definition uses_chars (s : bytes) : Prop := Forall (fun c => lo_char <= b2z c <= hi_char) (drop k s).
Definition inside (s : bytes) : Prop := ble min s /\ ble s max /\ uses_chars s.

Lemma Fit_radix : ax_radix ax = Z.max 2 (hi_char - lo_char + 1) /\ 2 <= ax_radix ax <= 256.
Proof.
  destruct (fp_chars _ _ _ _ Hpre). cbn [Fit ax_radix]. rewrite u32_small by (unfold is_u32; lia). lia.
Qed.
Lemma radix_ge2 : 2 <= ax_radix ax.
Proof. apply Fit_radix. Qed.

Lemma Fit_digits :
  ax_radix ax ^ Z.of_nat (ax_digits ax) <= 2 ^ 64 < ax_radix ax ^ Z.of_nat (S (ax_digits ax)) /\
  (8 <= ax_digits ax <= 64)%nat.
Proof.
  assert (ax_radix ax ^ Z.of_nat (ax_digits ax) <= 2 ^ 64 < ax_radix ax ^ Z.of_nat (S (ax_digits ax))) as H
    by (apply (count_digits_spec 65 (ax_radix ax) 1 0); [apply radix_ge2|done|lia|done]).
  split; [done|]. apply (digits_range (ax_radix ax)); [apply Fit_radix|done].
Qed.

Lemma Fit_prefix : ax_prefix ax = take k min /\ length (ax_prefix ax) = k.
Proof. split; [done|]. cbn [Fit ax_prefix]. rewrite length_take. pose proof (CommonPrefixLength_le min max). lia. Qed.

(** The loop of [Window] never wraps around: its result is the number the
    digits spell. *)
Lemma Window_num bx s :
  ax_prefix bx = ax_prefix ax -> ax_lo_char bx = lo_char -> ax_radix bx = ax_radix ax ->
  ax_digits bx = ax_digits ax -> Window bx s = num s.
Proof.
  intros E1 E2 E3 E4. unfold Window. rewrite window_loop_spec; rewrite ?E3, ?E4; [|apply radix_ge2|lia|].
  - rewrite E1, E2. rewrite (proj2 Fit_prefix). lia.
  - pose proof (proj1 (proj1 Fit_digits)). lia.
Qed.
Lemma Window_Fit s : Window ax s = num s.
Proof. by apply Window_num. Qed.

Lemma in_range_base s : Forall (fun c => lo_char <= b2z c <= hi_char) s -> in_base lo_char (ax_radix ax) s.
Proof. intros H. eapply Forall_impl; [exact H|]. intros c Hc. cbv beta in *. destruct Fit_radix as [E _]. rewrite E. lia. Qed.

Lemma ble_drop s t : ble min s -> ble s max -> ble min t -> ble t max -> bcompare s t = bcompare (drop k s) (drop k t).
Proof.
  intros Hs1 Hs2 Ht1 Ht2. pose proof (CommonPrefixLength_take min max) as E.
  pose proof (between_prefix k min max s E (CommonPrefixLength_le _ _) Hs1 Hs2) as Es.
  pose proof (between_prefix k min max t E (CommonPrefixLength_le _ _) Ht1 Ht2) as Et.
  rewrite <- (take_drop k s) at 1. rewrite <- (take_drop k t) at 1. rewrite Es, Et. apply bcompare_app.
Qed.

Lemma inside_min : inside min.
Proof. split; [reflexivity|]. split; [apply Hpre|apply Hpre]. Qed.
Lemma inside_max : inside max.
Proof. split; [apply Hpre|]. split; [reflexivity|apply Hpre]. Qed.
#[local] Hint Resolve inside_min inside_max : core.

Lemma num_mono s t : inside s -> inside t -> ble s t -> num s <= num t.
Proof.
  intros (Hs1 & Hs2 & Hs) (Ht1 & Ht2 & Ht) Hle.
  apply wval_mono; [apply radix_ge2|by apply in_range_base|by apply in_range_base|].
  unfold ble in *. by rewrite <- ble_drop.
Qed.
Lemma num_bounds s : 0 <= num s < ax_radix ax ^ Z.of_nat (ax_digits ax).
Proof. apply wval_bounds, radix_ge2. Qed.

Lemma Fit_base : ax_base ax = num min.
Proof. by apply Window_num. Qed.
Lemma Fit_span : ax_span ax = num max - num min /\ 0 <= ax_span ax < 2 ^ 64.
Proof.
  pose proof (num_mono min max inside_min inside_max (fp_order _ _ _ _ Hpre)) as Hm.
  pose proof (num_bounds min). pose proof (num_bounds max). pose proof (proj1 (proj1 Fit_digits)).
  assert (ax_span ax = num max - num min) as E.
  { transitivity (u64 (num max - num min)); [|apply u64_small; unfold is_u64; lia].
    cbn [Fit ax_span]. f_equal. f_equal; by apply Window_num. }
  split; [done|lia].
Qed.

(** The length of a step, in digits: the padding past the shortest boundary. *)
Definition pad : nat := Z.to_nat (Z.of_nat k + Z.of_nat (ax_digits ax) - shortest).
Lemma Fit_unit :
  ax_unit ax = ax_radix ax ^ Z.of_nat (Nat.min pad (ax_digits ax - 1)) /\ 1 <= ax_unit ax < 2 ^ 64.
Proof.
  destruct Fit_digits as [[Hd _] H8].
  set (m := Nat.min pad (ax_digits ax - 1)).
  assert (ax_radix ax ^ Z.of_nat m < 2 ^ 64) as Hm.
  { pose proof (radix_pow_mono _ radix_ge2 (S m) (ax_digits ax) ltac:(lia)) as H1.
    rewrite radix_pow_succ in H1 by apply radix_ge2. pose proof (radix_pow_pos _ radix_ge2 m).
    pose proof radix_ge2. nia. }
  pose proof (radix_pow_pos _ radix_ge2 m).
  assert (ax_unit ax = ax_radix ax ^ Z.of_nat m) as ->; [|lia].
  transitivity (pow_loop m (ax_radix ax) 1).
  2:{ rewrite pow_loop_spec; [apply Z.mul_1_l|apply radix_ge2|done|by rewrite Z.mul_1_l]. }
  cbn [Fit ax_unit]. f_equal. apply unit_steps, Fit_digits.
Qed.

Lemma SatAdd_bounds a b : is_u64 a -> is_u64 b -> is_u64 (SatAdd a b) /\ a <= SatAdd a b.
Proof. unfold SatAdd, is_u64, UINT64_MAX. destruct (Z.ltb_spec (2 ^ 64 - 1 - b) a); lia. Qed.
Lemma End_bounds : is_u64 (End ax) /\ ax_span ax <= End ax.
Proof.
  destruct Fit_span, Fit_unit. apply SatAdd_bounds; unfold is_u64; lia.
Qed.

Lemma Rel_inside s : inside s -> Rel ax s = num s - num min /\ 0 <= Rel ax s <= ax_span ax.
Proof.
  intros Hs. pose proof (proj1 Fit_span) as Hspan.
  pose proof (num_mono _ _ inside_min Hs (proj1 Hs)). pose proof (num_mono _ _ Hs inside_max (proj1 (proj2 Hs))).
  pose proof (num_bounds s). pose proof (num_bounds min). pose proof (proj1 (proj1 Fit_digits)).
  assert (Rel ax s = num s - num min) as E; [|lia].
  unfold Rel. rewrite (proj2 Fit_prefix), (proj1 Fit_prefix).
  destruct Hs as (Hs1 & Hs2 & Hs).
  rewrite (between_prefix k min max s) by (done || apply CommonPrefixLength_take || apply CommonPrefixLength_le).
  rewrite bcompare_refl, Window_Fit, Fit_base. rewrite (proj2 (Z.ltb_ge _ _)) by lia.
  rewrite u64_small by (unfold is_u64; lia). by rewrite (proj2 (Z.ltb_ge _ _)) by lia.
Qed.

Lemma Rel_bounds s : 0 <= Rel ax s <= End ax.
Proof.
  destruct End_bounds as [[He _] Hs]. pose proof (proj2 Fit_span).
  unfold Rel. destruct (bcompare _ _); [|lia|lia].
  destruct (_ <? _); [lia|]. pose proof (u64_range (Window ax s - ax_base ax)) as Hu. unfold is_u64 in Hu.
  destruct (Z.ltb_spec (ax_span ax) (u64 (Window ax s - ax_base ax))); lia.
Qed.

Lemma Rel_mono s t : inside s -> inside t -> ble s t -> Rel ax s <= Rel ax t.
Proof.
  intros Hs Ht Hle. rewrite (proj1 (Rel_inside s Hs)), (proj1 (Rel_inside t Ht)).
  pose proof (num_mono s t Hs Ht Hle). lia.
Qed.

(** *** Strings of one length

    The values of a numeric attribute are okeys of eight bytes; those of a
    fixed-width binary attribute have its width. *)
Section FixedWidth.
Hypothesis Hfits : shortest <= Z.of_nat k + Z.of_nat (ax_digits ax).
(** Not the whole 64-bit range: [End] does not saturate. *)
Hypothesis Hroom : ax_span ax + ax_unit ax <= UINT64_MAX.

Definition width_ok (s : bytes) : Prop := length s = Z.to_nat shortest.

Lemma End_exact : End ax = ax_span ax + ax_unit ax.
Proof. unfold End, SatAdd. destruct (Z.ltb_spec (UINT64_MAX - ax_unit ax) (ax_span ax)); lia. Qed.

Lemma Rel_strict s t :
  inside s -> inside t -> width_ok s -> width_ok t -> blt s t -> Rel ax s + ax_unit ax <= Rel ax t.
Proof.
  intros Hs Ht Ws Wt Hlt. rewrite (proj1 (Rel_inside s Hs)), (proj1 (Rel_inside t Ht)).
  destruct Hs as (Hs1 & Hs2 & Hs), Ht as (Ht1 & Ht2 & Ht). unfold width_ok in *.
  assert (blt (drop k s) (drop k t)) as Hlt' by (unfold blt in *; by rewrite <- ble_drop).
  assert (k < length s)%nat as Hk.
  { destruct (decide (k < length s)%nat) as [|Hge]; [done|exfalso].
    rewrite !drop_ge in Hlt' by lia. by apply blt_irrefl in Hlt'. }
  pose proof (wval_strict _ _ radix_ge2 (ax_digits ax) _ _ (in_range_base _ Hs) (in_range_base _ Ht)) as Hw.
  rewrite !length_drop in Hw. specialize (Hw ltac:(lia) ltac:(lia) Hlt').
  rewrite (proj1 Fit_unit).
  replace (Nat.min pad (ax_digits ax - 1)) with (ax_digits ax - (length s - k))%nat by (unfold pad; lia).
  lia.
Qed.

(** An end of a query interval that the axis represents exactly: outside the
    bounds, or a string of the attribute's width over the boundaries' bytes. *)
Definition end_ok (s : bytes) : Prop := blt s min \/ blt max s \/ (inside s /\ width_ok s).

Lemma Rel_cmp s t :
  inside s -> inside t -> width_ok s -> width_ok t ->
  (ble s t <-> Rel ax s < Rel ax t + ax_unit ax) /\ (blt s t <-> Rel ax s + ax_unit ax <= Rel ax t).
Proof.
  intros Hs Ht Ws Wt. pose proof (proj2 Fit_unit).
  pose proof (Rel_mono s t Hs Ht) as M. pose proof (Rel_strict s t Hs Ht Ws Wt) as S1.
  pose proof (Rel_strict t s Ht Hs Wt Ws) as S2.
  split; split; intros Hc.
  - specialize (M Hc). lia.
  - destruct (blt_total s t) as [Hx|[->|Hx]]; [border|border|]. specialize (S2 Hx). lia.
  - by apply S1.
  - destruct (blt_total s t) as [Hx|[->|Hx]]; [done|lia|]. specialize (S2 Hx). lia.
Qed.

Lemma SatAdd_small a b : a + b <= UINT64_MAX -> SatAdd a b = a + b.
Proof. intros. unfold SatAdd. destruct (Z.ltb_spec (UINT64_MAX - b) a); lia. Qed.

Lemma place_lo w v :
  end_ok (lo w) -> inside v -> width_ok v ->
  (if lo_open w then blt (lo w) v else ble (lo w) v) <-> aw_lo (Place ax min max w) <= Rel ax v.
Proof.
  intros He Hv Wv. pose proof (Rel_inside v Hv) as [_ Hr]. pose proof (proj2 Fit_unit).
  cbn [Place aw_lo]. destruct (bltb (lo w) min) eqn:E1.
  { apply bltb_lt in E1. destruct Hv as (Hv & _). destruct (lo_open w); split; intros; border || lia. }
  apply bltb_ge in E1. destruct (bltb max (lo w)) eqn:E2.
  { apply bltb_lt in E2. destruct Hv as (_ & Hv & _). rewrite End_exact.
    destruct (lo_open w); split; intros; (exfalso; border) || lia. }
  apply bltb_ge in E2. destruct He as [He|[He|[Hi Wi]]]; [border|border|].
  pose proof (Rel_inside _ Hi) as [_ Hri]. destruct (Rel_cmp (lo w) v Hi Hv Wi Wv) as [C1 C2].
  rewrite SatAdd_small by (destruct (lo_open w); lia).
  destruct (lo_open w); [rewrite C2; lia|]. rewrite Z.add_0_r. split; [by apply Rel_mono|].
  intros Hle. apply C1. lia.
Qed.

Lemma place_hi w v :
  hi_unbounded w = true \/ end_ok (hi w) -> inside v -> width_ok v ->
  (hi_unbounded w = true \/ if hi_open w then blt v (hi w) else ble v (hi w)) <->
  Rel ax v < aw_hi (Place ax min max w).
Proof.
  intros He Hv Wv. pose proof (Rel_inside v Hv) as [_ Hr]. pose proof (proj2 Fit_unit).
  cbn [Place aw_hi]. destruct (hi_unbounded w); cbn [orb].
  { rewrite End_exact. split; [lia|by left]. }
  assert ((false = true \/ if hi_open w then blt v (hi w) else ble v (hi w)) <->
    if hi_open w then blt v (hi w) else ble v (hi w)) as -> by (split; [by intros [?|?]|by right]).
  destruct He as [He|He]; [done|]. destruct (bltb max (hi w)) eqn:E1.
  { apply bltb_lt in E1. destruct Hv as (_ & Hv & _). rewrite End_exact.
    destruct (hi_open w); split; intros; border || lia. }
  apply bltb_ge in E1. destruct (bltb (hi w) min) eqn:E2.
  { apply bltb_lt in E2. destruct Hv as (Hv & _). destruct (hi_open w); split; intros; (exfalso; border) || lia. }
  apply bltb_ge in E2. destruct He as [He|[He|[Hi Wi]]]; [border|border|].
  pose proof (Rel_inside _ Hi) as [_ Hri]. destruct (Rel_cmp v (hi w) Hv Hi Wv Wi) as [C1 C2].
  rewrite SatAdd_small by (destruct (hi_open w); lia).
  destruct (hi_open w); [|exact C1]. rewrite Z.add_0_r, C2. split; [lia|].
  intros Hlt. apply C2. destruct (blt_total v (hi w)) as [Hx|[Hx|Hx]]; [done|subst; lia|].
  pose proof (Rel_strict _ _ Hi Hv Wi Wv Hx). lia.
Qed.
End FixedWidth.
End Axis.

(** The coordinates of an axis: the arithmetic of [Window] never wraps
    around, every coordinate lies between 0 and [End], the bounds have the
    coordinates 0 and [span], and between the bounds a larger string over the
    bytes the boundaries use has no smaller coordinate. *)
Theorem axis_order min max lo_char hi_char shortest :
  fit_pre min max lo_char hi_char -> 0 <= shortest ->
  let ax := Fit min max lo_char hi_char shortest in
  (forall s, 0 <= Window ax s < ax_radix ax ^ Z.of_nat (ax_digits ax)) /\
  ax_radix ax ^ Z.of_nat (ax_digits ax) <= 2 ^ 64 /\
  (forall s, 0 <= Rel ax s <= End ax) /\ End ax <= UINT64_MAX /\
  Rel ax min = 0 /\ Rel ax max = ax_span ax /\
  (forall s t, inside min max lo_char hi_char s -> inside min max lo_char hi_char t ->
     ble s t -> Rel ax s <= Rel ax t).
Proof.
  intros Hpre Hs ax.
  pose proof (Rel_inside _ _ _ _ shortest Hpre _ (inside_min _ _ _ _ Hpre)) as [E1 _].
  pose proof (Rel_inside _ _ _ _ shortest Hpre _ (inside_max _ _ _ _ Hpre)) as [E2 _].
  pose proof (Fit_span _ _ _ _ shortest Hpre) as [E3 _].
  split_and!.
  - intros s. unfold ax. rewrite Window_Fit by done. by apply num_bounds.
  - by apply Fit_digits.
  - intros s. by apply Rel_bounds.
  - pose proof (End_bounds _ _ _ _ shortest Hpre) as [[_ H] _]. unfold UINT64_MAX, ax. lia.
  - subst ax. lia.
  - subst ax. lia.
  - intros s t. by apply Rel_mono.
Qed.

(** Placing an interval on an axis of fixed-width values is exact: a value
    between the bounds satisfies the interval if and only if its coordinate
    lies in the half-open window [Place] computes, open, closed, unbounded and
    out-of-range ends included. *)
Theorem place_exact min max lo_char hi_char shortest w v :
  let ax := Fit min max lo_char hi_char shortest in
  fit_pre min max lo_char hi_char -> 0 <= shortest ->
  shortest <= Z.of_nat (CommonPrefixLength min max) + Z.of_nat (ax_digits ax) ->
  ax_span ax + ax_unit ax <= UINT64_MAX ->
  end_ok min max lo_char hi_char shortest (lo w) ->
  (hi_unbounded w = true \/ end_ok min max lo_char hi_char shortest (hi w)) ->
  inside min max lo_char hi_char v -> width_ok shortest v ->
  in_interval w v <->
  aw_lo (Place ax min max w) <= Rel ax v < aw_hi (Place ax min max w).
Proof.
  intros ax Hpre Hs Hfits Hroom Hlo Hhi Hv Wv. unfold in_interval.
  by rewrite (place_lo _ _ _ _ _ Hpre Hs Hfits Hroom w v), (place_hi _ _ _ _ _ Hpre Hs Hfits Hroom w v).
Qed.

(** The axis of the strings "user-00" to "user-99". *)
Definition user_key (a b : byte) : bytes := [x75; x73; x65; x72; x2d; a; b].
Lemma user_axis_pre : fit_pre (user_key x30 x30) (user_key x39 x39) 48 57.
Proof. split; [lia|by vm_compute|..]; apply (bool_decide_unpack _); by vm_compute. Qed.
Lemma user_inside a b :
  48 <= b2z a <= 57 -> 48 <= b2z b <= 57 ->
  inside (user_key x30 x30) (user_key x39 x39) 48 57 (user_key a b).
Proof.
  intros Ha Hb. split_and!.
  - unfold ble, user_key. cbn [bcompare]. rewrite !Z.compare_refl.
    change (b2z x30) with 48. destruct (Z.compare_spec 48 (b2z a)); [|done|lia].
    by destruct (Z.compare_spec 48 (b2z b)); [| |lia].
  - unfold ble, user_key. cbn [bcompare]. rewrite !Z.compare_refl.
    change (b2z x39) with 57. destruct (Z.compare_spec (b2z a) 57); [|done|lia].
    by destruct (Z.compare_spec (b2z b) 57); [| |lia].
  - unfold uses_chars. change (drop _ _) with [a; b].
    by rewrite !Forall_cons, Forall_nil.
Qed.

Lemma axis_order_witness :
  Rel (Fit (user_key x30 x30) (user_key x39 x39) 48 57 7) (user_key x32 x35) <=
  Rel (Fit (user_key x30 x30) (user_key x39 x39) 48 57 7) (user_key x37 x31).
Proof.
  apply (axis_order (user_key x30 x30) (user_key x39 x39) 48 57 7 user_axis_pre ltac:(lia)).
  - apply user_inside; by vm_compute.
  - apply user_inside; by vm_compute.
  - by vm_compute.
Defined.

(** user-25 <= x < user-71 *)
Definition user_interval : ByteInterval := mkByteInterval (user_key x32 x35) false (user_key x37 x31) true false.
Lemma place_exact_witness :
  in_interval user_interval (user_key x35 x30) <->
  let ax := Fit (user_key x30 x30) (user_key x39 x39) 48 57 7 in
  aw_lo (Place ax (user_key x30 x30) (user_key x39 x39) user_interval) <= Rel ax (user_key x35 x30)
  < aw_hi (Place ax (user_key x30 x30) (user_key x39 x39) user_interval).
Proof.
  apply (place_exact (user_key x30 x30) (user_key x39 x39) 48 57 7 user_interval (user_key x35 x30)).
  - apply user_axis_pre.
  - lia.
  - by vm_compute.
  - by vm_compute.
  - right; right. split; [apply user_inside; by vm_compute|done].
  - right; right; right. split; [apply user_inside; by vm_compute|done].
  - apply user_inside; by vm_compute.
  - done.
Defined.
