(* ===== verification/Estimator.v ===== *)
(** * The cardinality estimator

    Models [bit_lsm_estimator.h] and [bit_lsm_estimator.cpp]: the statistics
    over the live SSTables and their rebuild from the per-file histograms, and
    the estimate of a query. Doubles are IEEE-754 values; [std::max] and
    [std::min] are [fmax] and [fmin]. [Refresh] decides when to
    rebuild; the worker thread is in [Worker], the event listener in
    [Lifetimes]. *)
From Stdlib Require Import ZArith Lia Strings.Byte Floats.SpecFloat Sorting.Sorted.
From stdpp Require Import base numbers list sets sorting.
From S2P Require Import Prelude Floats Options Okey BytesList Query Externals Binning Builder Reader.
From S2P Require Import FloatOrder ByteAxis.

(** ** Statistics *)
Record SSTBins := mkSSTBins {
  sb_lo : Z;
  sb_hi : Z;
  sb_binmass : spec_float;
  sb_total : spec_float;
}.
Record GlobalRangeStats := mkGlobalRangeStats {
  gr_axis : ByteAxis;
  gr_min : bytes;
  gr_max : bytes;
  gr_cell_psum : list spec_float;
  gr_total : spec_float;
  gr_ndv : Z;
  gr_sst_bins : list SSTBins;
}.
Record GlobalEqualityStats := mkGlobalEqualityStats {
  ge_value_counts : list (bytes * spec_float);  (** one entry per value *)
  ge_total : spec_float;
  ge_truncated : bool;
  ge_binmass_sum : spec_float;
}.
Record GlobalStats := mkGlobalStats {
  gs_range : list (option GlobalRangeStats);
  gs_equality : list (option GlobalEqualityStats);
  gs_physical_rows : Z;
  gs_live_sst_count : Z;
}.
Record EstimateResult := mkEstimateResult {
  er_selectivity : spec_float;
  er_physical_rows : Z;
  er_fallback_attrs : list Z;
  er_candidate_selectivity : spec_float;
  er_memtable_entries : Z;
}.

Definition kMaxTrackedValues : Z := 10000.
(** The doubles 0.5, -1 and the stale-row fraction 0.1. *)
Definition f64_zero : spec_float := S754_zero false.
Definition f64_half : spec_float := f64_decode (0x3FE0000000000000).
Definition f64_minus_one : spec_float := f64_decode (0xBFF0000000000000).
Definition kStaleRowFraction : spec_float := f64_decode (0x3FB999999999999A).

(** ** Mass of a window *)
Definition CumBelow (g : GlobalRangeStats) (rel : Z) : result spec_float :=
  if (rel =? 0) || SFeqb (gr_total g) f64_zero then Ok f64_zero
  else if (ax_span (gr_axis g) =? 0) || (ax_span (gr_axis g) <? rel) then Ok (gr_total g)
  else
    let n := zlen (gr_cell_psum g) in
    let p := f64_mul (f64_div (f64_of_Z rel) (f64_of_Z (ax_span (gr_axis g)))) (f64_of_Z n) in
    pc ← f64_to_Z (2 ^ 32) p;
    let cell := Z.min pc (u32 (n - 1)) in
    below ← (if cell =? 0 then Ok f64_zero else zget (gr_cell_psum g) (cell - 1));
    upto ← zget (gr_cell_psum g) cell;
    let cell_mass := f64_sub upto below in
    Ok (f64_add below (f64_mul cell_mass (f64_sub p (f64_of_Z cell)))).

Definition RangeMass (g : GlobalRangeStats) (w : axis_window) : result spec_float :=
  if (aw_hi w <=? aw_lo w) || SFeqb (gr_total g) f64_zero then Ok f64_zero
  else
    upper ← (if ax_span (gr_axis g) <? aw_hi w then Ok (gr_total g) else CumBelow g (aw_hi w));
    lower ← CumBelow g (aw_lo w);
    Ok (fmax f64_zero (f64_sub upper lower)).

Definition PointAwareRangeMass (g : GlobalRangeStats) (w : axis_window) : result spec_float :=
  mass ← RangeMass g w;
  let mass :=
    if aw_point w && (0 <? gr_ndv g) && aw_in_span w
    then fmax mass (f64_div (gr_total g) (f64_of_Z (gr_ndv g))) else mass in
  Ok (fmin mass (gr_total g)).

(** An SSTable outside the window, or without binned rows, is passed over. *)
Definition skip_bins (unit : Z) (w : axis_window) (s : SSTBins) : bool :=
  (aw_hi w <=? sb_lo s) || (SatAdd (sb_hi s) unit <=? aw_lo w) || SFleb (sb_total s) f64_zero.

Definition span_len (unit : Z) (s : SSTBins) : spec_float :=
  f64_add (f64_of_Z (u64 (sb_hi s - sb_lo s))) (f64_of_Z unit).
Definition ov_len (unit : Z) (w : axis_window) (s : SSTBins) : spec_float :=
  f64_of_Z (u64 (Z.min (aw_hi w) (SatAdd (sb_hi s) unit) - Z.max (aw_lo w) (sb_lo s))).

(** Pass 1 and pass 2 of [CandidateMass]. *)
Fixpoint overlap_total (unit : Z) (w : axis_window) (bins : list SSTBins) (acc : spec_float) : spec_float :=
  match bins with
  | [] => acc
  | s :: rest =>
      overlap_total unit w rest
        (if skip_bins unit w s then acc
         else f64_add acc (f64_mul (sb_total s) (f64_div (ov_len unit w s) (span_len unit s))))
  end.

Definition candidate_share (unit : Z) (w : axis_window) (match_mass overlap : spec_float) (s : SSTBins) : spec_float :=
  let s_end := SatAdd (sb_hi s) unit in
  let c_lo := Z.max (aw_lo w) (sb_lo s) in
  let c_hi := Z.min (aw_hi w) s_end in
  let match_s :=
    if SFltb f64_zero overlap then
      f64_div (f64_mul match_mass (f64_mul (sb_total s) (f64_div (ov_len unit w s) (span_len unit s)))) overlap
    else f64_zero in
  let c :=
    if aw_point w then fmax (sb_binmass s) match_s
    else
      let smear :=
        f64_mul (f64_add (if sb_lo s <? c_lo then f64_half else f64_zero)
                         (if c_hi <? s_end then f64_half else f64_zero)) (sb_binmass s) in
      fmax (sb_binmass s) (f64_add match_s smear) in
  fmin c (sb_total s).

Fixpoint candidate_sum (unit : Z) (w : axis_window) (match_mass overlap : spec_float) (bins : list SSTBins)
    (acc : spec_float) : spec_float :=
  match bins with
  | [] => acc
  | s :: rest =>
      candidate_sum unit w match_mass overlap rest
        (if skip_bins unit w s then acc else f64_add acc (candidate_share unit w match_mass overlap s))
  end.

Definition CandidateMass (g : GlobalRangeStats) (w : axis_window) (match_mass : spec_float) : spec_float :=
  if (aw_hi w <=? aw_lo w) || (zlen (gr_sst_bins g) =? 0) then match_mass
  else
    let unit := ax_unit (gr_axis g) in
    let overlap := overlap_total unit w (gr_sst_bins g) f64_zero in
    fmax (candidate_sum unit w match_mass overlap (gr_sst_bins g) f64_zero) match_mass.

(** [Place] on the attribute's own axis and bounds. *)
Definition place (g : GlobalRangeStats) (w : ByteInterval) : axis_window :=
  Place (gr_axis g) (gr_min g) (gr_max g) w.

(** ** Estimates *)

(** [std::set<uint32_t>], as the ascending list of its elements. *)
Fixpoint set_insert (x : Z) (l : list Z) : list Z :=
  match l with
  | [] => [x]
  | y :: rest => if x <? y then x :: l else if x =? y then l else y :: set_insert x rest
  end.

Definition FallbackResult (q : SABIQuery) : EstimateResult :=
  let attrs :=
    fold_left (fun acc clause => fold_left (fun acc c => set_insert (s_attr_idx c) acc) clause acc)
      (s_clause_groups q) [] in
  mkEstimateResult f64_one 0 attrs f64_one 0.

(** [value_counts.find(bytes)] *)
Fixpoint find_value (v : bytes) (l : list (bytes * spec_float)) : option spec_float :=
  match l with
  | [] => None
  | (x, c) :: rest => if beqb x v then Some c else find_value v rest
  end.

Section Conditions.
Context (stats : GlobalStats) (index_types : list IndexType) (phys : spec_float).

Definition ConditionSelectivity (cond : SABICondition) : result spec_float :=
  if zlen index_types <=? s_attr_idx cond then Ok f64_minus_one else
  t ← zget index_types (s_attr_idx cond);
  match t with
  | kRange =>
      ord ← zget (gs_range stats) (s_attr_idx cond);
      match ord with
      | None => Ok f64_minus_one
      | Some g =>
          let w := place g (win cond) in
          if aw_hi w <=? aw_lo w then Ok f64_zero
          else mass ← PointAwareRangeMass g w; Ok (f64_div mass phys)
      end
  | kEquality =>
      uno ← zget (gs_equality stats) (s_attr_idx cond);
      match uno with
      | None => Ok f64_minus_one
      | Some e =>
          match find_value (s_bytes cond) (ge_value_counts e) with
          | Some c => Ok (f64_div c phys)
          | None => Ok (if ge_truncated e then f64_minus_one else f64_zero)
          end
      end
  end.

(** An absent optional would be undefined behaviour; the caller excludes it. *)
Definition ConditionCandidate (cond : SABICondition) (f : spec_float) : result spec_float :=
  t ← zget index_types (s_attr_idx cond);
  match t with
  | kRange =>
      ord ← zget (gs_range stats) (s_attr_idx cond);
      g ← get_or BadVariantAccess ord;
      let w := place g (win cond) in
      if aw_hi w <=? aw_lo w then Ok f64_zero
      else Ok (fmin f64_one (f64_div (CandidateMass g w (f64_mul f phys)) phys))
  | kEquality =>
      if SFeqb f f64_zero then Ok f64_zero else
      uno ← zget (gs_equality stats) (s_attr_idx cond);
      e ← get_or BadVariantAccess uno;
      Ok (fmin f64_one (fmax f (f64_div (ge_binmass_sum e) phys)))
  end.

(** [std::map<uint32_t, ByteInterval>], ascending by attribute;
    [windows[attr].Intersect(w)]. *)
Fixpoint window_intersect (attr : Z) (w : ByteInterval) (l : list (Z * ByteInterval)) : list (Z * ByteInterval) :=
  match l with
  | [] => [(attr, Intersect full_interval w)]
  | (a, x) :: rest =>
      if attr <? a then (attr, Intersect full_interval w) :: l
      else if attr =? a then (a, Intersect x w) :: rest
      else (a, x) :: window_intersect attr w rest
  end.

(** The state of the loop over the clauses. *)
Record est_state := mkEstState {
  es_product : spec_float;
  es_cand : spec_float;
  es_windows : list (Z * ByteInterval);
  es_fallback : list Z;
}.

(** A clause of one condition. *)
Definition single_clause (cond : SABICondition) (st : est_state) : result est_state :=
  is_range ←
    (if s_attr_idx cond <? u32 (zlen index_types) then
       t ← zget index_types (s_attr_idx cond); Ok (match t with kRange => true | _ => false end)
     else Ok false);
  if (is_range : bool) then
    Ok (mkEstState (es_product st) (es_cand st)
          (window_intersect (s_attr_idx cond) (win cond) (es_windows st)) (es_fallback st))
  else
    f ← ConditionSelectivity cond;
    if SFltb f f64_zero then
      Ok (mkEstState (es_product st) (es_cand st) (es_windows st) (set_insert (s_attr_idx cond) (es_fallback st)))
    else
      c ← ConditionCandidate cond f;
      Ok (mkEstState (f64_mul (es_product st) f) (f64_mul (es_cand st) c) (es_windows st) (es_fallback st)).

(** The loop over the members of an OR clause: both sums, the fallback flag
    and the fallback set. *)
Fixpoint or_members (clause : list SABICondition) (sum cand_sum : spec_float) (fb : bool) (fallback : list Z)
    : result (spec_float * spec_float * bool * list Z) :=
  match clause with
  | [] => Ok (sum, cand_sum, fb, fallback)
  | cond :: rest =>
      f ← ConditionSelectivity cond;
      if SFltb f f64_zero then or_members rest sum cand_sum true (set_insert (s_attr_idx cond) fallback)
      else
        c ← ConditionCandidate cond f;
        or_members rest (f64_add sum f) (f64_add cand_sum c) fb fallback
  end.

Definition or_clause (clause : list SABICondition) (st : est_state) : result est_state :=
  '(sum, cand_sum, fb, fallback) ← or_members clause f64_zero f64_zero false (es_fallback st);
  Ok (if (fb : bool) then mkEstState (es_product st) (es_cand st) (es_windows st) fallback
      else mkEstState (f64_mul (es_product st) (fmin f64_one sum)) (f64_mul (es_cand st) (fmin f64_one cand_sum))
             (es_windows st) fallback).

Fixpoint clause_loop (clauses : list SABIOrClause) (st : est_state) : result est_state :=
  match clauses with
  | [] => Ok st
  | clause :: rest =>
      st' ← (match clause with
             | [] => Ok st
             | [cond] => single_clause cond st
             | _ => or_clause clause st
             end);
      clause_loop rest st'
  end.

Fixpoint place_windows (ws : list (Z * ByteInterval)) (st : est_state) : result est_state :=
  match ws with
  | [] => Ok st
  | (attr, w) :: rest =>
      ord ← zget (gs_range stats) attr;
      st' ← (match ord with
             | None => Ok (mkEstState (es_product st) (es_cand st) (es_windows st) (set_insert attr (es_fallback st)))
             | Some g =>
                 let wd := place g w in
                 if aw_hi wd <=? aw_lo wd
                 then Ok (mkEstState f64_zero f64_zero (es_windows st) (es_fallback st))
                 else
                   mass ← PointAwareRangeMass g wd;
                   Ok (mkEstState (f64_mul (es_product st) (f64_div mass phys))
                         (f64_mul (es_cand st) (fmin f64_one (f64_div (CandidateMass g wd mass) phys)))
                         (es_windows st) (es_fallback st))
             end);
      place_windows rest st'
  end.
End Conditions.

(** [Estimate], of the current statistics and the live memtable count. *)
Definition Estimate (index_types : list IndexType) (stats : GlobalStats) (memtable : Z) (q : SABIQuery)
    : result EstimateResult :=
  if (gs_live_sst_count stats =? 0) || (gs_physical_rows stats =? 0) then
    let r := FallbackResult q in
    Ok (mkEstimateResult (er_selectivity r) (er_physical_rows r) (er_fallback_attrs r)
          (er_candidate_selectivity r) memtable)
  else
    let phys := f64_of_Z (gs_physical_rows stats) in
    st ← clause_loop stats index_types phys (s_clause_groups q) (mkEstState f64_one f64_one [] []);
    st ← place_windows stats phys (es_windows st) st;
    let sel := fmin f64_one (fmax (es_product st) (f64_div f64_one phys)) in
    Ok (mkEstimateResult sel (gs_physical_rows stats) (es_fallback st)
          (fmin f64_one (fmax (es_cand st) sel)) memtable).

(** ** Rebuilding the statistics *)

(** [std::nth_element]: the first [n] elements of the result are no later in
    the order than the rest. The entries come out of an [unordered_map] in an
    order the language leaves open; the choice among equal counts is open
    too. *)
Class NthElement := nth_element : forall {A : Type}, (A -> A -> bool) -> nat -> list A -> list A.
Class NthElementLaws (N : NthElement) : Prop := {
  nth_perm {A} (less : A -> A -> bool) n l : nth_element less n l ≡ₚ l;
  nth_split {A} (less : A -> A -> bool) n l x y : StrictWeak less ->
    x ∈ take n (nth_element less n l) -> y ∈ drop n (nth_element less n l) -> less y x = false;
}.

(** Sorting is one of the permitted behaviours. *)
#[global] Instance sorted_nth : NthElement := fun A less n l => isort less l.
#[global] Instance sorted_nth_laws : NthElementLaws sorted_nth.
Proof.
  split; unfold nth_element, sorted_nth.
  - intros A less n l. induction l as [|x l IH]; [done|]. cbn [isort]. by rewrite isort_insert_perm, IH.
  - intros A less n l x y Hw Hx Hy. pose proof (std_sort_sorted less l Hw) as Hs.
    unfold std_sort, insertion_sort in Hs. rewrite <- (take_drop n (isort less l)) in Hs.
    apply list_elem_of_lookup in Hx as [i Hi]. apply list_elem_of_lookup in Hy as [j Hj].
    assert (forall l1 l2, StronglySorted (fun x y => less y x = false) (l1 ++ l2) -> x ∈ l1 -> y ∈ l2 -> less y x = false) as Hl.
    { induction l1 as [|z l1 IH]; intros l2 Hs' Hx Hy; [by apply not_elem_of_nil in Hx|].
      cbn in Hs'. apply StronglySorted_inv in Hs' as [Hs' Hall].
      apply elem_of_cons in Hx as [->|Hx]; [|by eapply IH]. rewrite Forall_forall in Hall. apply Hall. set_solver. }
    apply (Hl _ _ Hs); by eapply list_elem_of_lookup_2.
Qed.

(** A file of the version, and what opening its table gives: [FindTable] can
    fail, the table can lack a usable index. *)
Record est_file := mkEstFile { ef_number : Z; ef_num_entries : Z; ef_num_deletions : Z }.

Section Rebuild.
Context `{RoaringOps} `{NthElement}.

Inductive table_found := TableUnreadable | TableNoIndex | TableIndexed (r : SABIReader).

(** The harvest of one attribute: the entries of [hists], [value_maps],
    [unordered_totals] and [unordered_binmass_sums]. *)
Record attr_acc := mkAttrAcc {
  aa_hists : list RangeAttrHistogram;
  aa_values : list (bytes * spec_float);
  aa_total : spec_float;
  aa_binmass : spec_float;
}.
Definition attr_acc_init : attr_acc := mkAttrAcc [] [] f64_zero f64_zero.

(** [value_maps[a][value] += count] *)
Fixpoint add_value (v : bytes) (c : spec_float) (l : list (bytes * spec_float)) : list (bytes * spec_float) :=
  match l with
  | [] => [(v, f64_add f64_zero c)]
  | (x, d) :: rest => if beqb x v then (x, f64_add d c) :: rest else (x, d) :: add_value v c rest
  end.
Fixpoint add_values (cs : list (bytes * spec_float)) (l : list (bytes * spec_float)) (sst_total : spec_float)
    : list (bytes * spec_float) * spec_float :=
  match cs with
  | [] => (l, sst_total)
  | (v, c) :: rest => add_values rest (add_value v c l) (f64_add sst_total c)
  end.

Definition harvest_attr (r : SABIReader) (t : IndexType) (a : Z) (acc : attr_acc) : result attr_acc :=
  match t with
  | kRange =>
      h ← RangeHistogram r a;
      Ok (match h with
          | Some h => mkAttrAcc (aa_hists acc ++ [h]) (aa_values acc) (aa_total acc) (aa_binmass acc)
          | None => acc
          end)
  | kEquality =>
      c ← EqualityValueCounts r a;
      match c with
      | None => Ok acc
      | Some cs =>
          let '(vals, sst_total) := add_values cs (aa_values acc) f64_zero in
          binmass ←
            (if a <? zlen (bitmap_nums (rd_index r)) then
               n ← zget (bitmap_nums (rd_index r)) a;
               Ok (if 0 <? n then f64_add (aa_binmass acc) (f64_div sst_total (f64_of_Z n)) else aa_binmass acc)
             else Ok (aa_binmass acc));
          Ok (mkAttrAcc (aa_hists acc) vals (f64_add (aa_total acc) sst_total) binmass)
      end
  end.

Fixpoint harvest_attrs (r : SABIReader) (types : list IndexType) (a : Z) (accs : list attr_acc) : result (list attr_acc) :=
  match types, accs with
  | t :: types', acc :: accs' =>
      acc' ← harvest_attr r t a acc;
      rest ← harvest_attrs r types' (a + 1) accs';
      Ok (acc' :: rest)
  | _, _ => Ok []
  end.

Record harvest := mkHarvest { hv_rows : Z; hv_files : Z; hv_accs : list attr_acc }.

Section Harvest.
Context (open_table : est_file -> table_found) (types : list IndexType).

Definition harvest_file (f : est_file) (h : harvest) : result harvest :=
  match open_table f with
  | TableUnreadable => Ok h
  | TableNoIndex =>
      Ok (mkHarvest (u64 (hv_rows h + u64 (ef_num_entries f - ef_num_deletions f))) (u64 (hv_files h + 1)) (hv_accs h))
  | TableIndexed r =>
      rows ←
        (match last (data_entries_cnt_psum r) with
         | Some n => t ← TombstoneCardinality r; Ok (u64 (hv_rows h + u64 (n - t)))
         | None => Ok (hv_rows h)
         end);
      accs ← harvest_attrs r types 0 (hv_accs h);
      Ok (mkHarvest rows (u64 (hv_files h + 1)) accs)
  end.

Fixpoint harvest_files (fs : list est_file) (h : harvest) : result harvest :=
  match fs with [] => Ok h | f :: rest => h' ← harvest_file f h; harvest_files rest h' end.
End Harvest.

(** The strings of a boundary list. *)
Definition bl_strings (l : BytesList) : result (list bytes) := mapM (fun i => bl_get l i) (seqZ 0 (BytesList.size l)).

(** The global bounds and the largest distinct count. *)
Fixpoint hist_bounds (hs : list RangeAttrHistogram) (first : bool) (mn mx : bytes) (ndv : Z) : result (bytes * bytes * Z) :=
  match hs with
  | [] => Ok (mn, mx, ndv)
  | h :: rest =>
      b0 ← bl_get (h_boundaries h) 0;
      b1 ← back (h_boundaries h);
      hist_bounds rest false (if first || bltb b0 mn then b0 else mn) (if first || bltb mx b1 then b1 else mx)
        (Z.max ndv (h_distinct h))
  end.

(** The byte range past the common prefix and the shortest boundary. *)
Definition boundary_chars (k : nat) (st : Z * Z * Z) (v : bytes) : Z * Z * Z :=
  let '(lo, hi, shortest) := st in
  let '(lo, hi) :=
    fold_left (fun '(lo, hi) c => (Z.min lo (b2z c), Z.max hi (b2z c))) (drop k v) (lo, hi) in
  (lo, hi, Z.min shortest (zlen v)).
Fixpoint hist_chars (k : nat) (hs : list RangeAttrHistogram) (st : Z * Z * Z) : result (Z * Z * Z) :=
  match hs with
  | [] => Ok st
  | h :: rest => vs ← bl_strings (h_boundaries h); hist_chars k rest (fold_left (boundary_chars k) vs st)
  end.

Definition fit_axis (hs : list RangeAttrHistogram) (mn mx : bytes) : result ByteAxis :=
  '(lo, hi, shortest) ← hist_chars (CommonPrefixLength mn mx) hs (255, 0, UINT64_MAX);
  let '(lo, hi) := if hi <? lo then (0, 0) else (lo, hi) in
  Ok (Fit mn mx lo hi shortest).

Definition sst_bin (ax : ByteAxis) (h : RangeAttrHistogram) : result SSTBins :=
  b0 ← bl_get (h_boundaries h) 0;
  b1 ← back (h_boundaries h);
  let total := fold_left (fun acc c => f64_add acc (f64_of_Z c)) (h_counts h) f64_zero in
  Ok (mkSSTBins (Rel ax b0) (Rel ax b1)
        (if zlen (h_counts h) =? 0 then f64_zero else f64_div total (f64_of_Z (zlen (h_counts h)))) total).

(** [ProjectHistogram]: the inner loop over the cells a bin overlaps, one bin,
    the loop over the bins. *)
Fixpoint project_cells (count cell_w s e : spec_float) (c : Z) (n : nat) (cells : list spec_float)
    : result (list spec_float) :=
  match n with
  | O => Ok cells
  | S n' =>
      let cl := f64_mul (f64_of_Z c) cell_w in
      let cr := f64_add cl cell_w in
      let overlap := f64_sub (fmin e cr) (fmax s cl) in
      cells' ←
        (if SFltb f64_zero overlap then
           x ← zget cells c;
           zset cells c (f64_add x (f64_mul count (f64_div overlap (f64_sub e s))))
         else Ok cells);
      project_cells count cell_w s e (c + 1) n' cells'
  end.

Definition project_bin (ax : ByteAxis) (cell_w : spec_float) (cnt : Z) (b0 b1 : bytes) (cells : list spec_float)
    : result (list spec_float) :=
  let n := zlen cells in
  let count := f64_of_Z cnt in
  if SFeqb count f64_zero then Ok cells else
  let s := f64_of_Z (Rel ax b0) in
  let e := f64_of_Z (Rel ax b1) in
  if SFleb e s then
    i ← f64_to_Z (2 ^ 64) (f64_div s cell_w);
    let cell := Z.min i (n - 1) in
    x ← zget cells cell;
    zset cells cell (f64_add x count)
  else
    i0 ← f64_to_Z (2 ^ 64) (f64_div s cell_w);
    i1 ← f64_to_Z (2 ^ 64) (f64_div e cell_w);
    let c0 := Z.min i0 (n - 1) in
    let c1 := Z.min i1 (n - 1) in
    project_cells count cell_w s e c0 (Z.to_nat (c1 - c0 + 1)) cells.

Fixpoint project_bins (ax : ByteAxis) (cell_w : spec_float) (h : RangeAttrHistogram) (b : Z) (n : nat)
    (cells : list spec_float) : result (list spec_float) :=
  match n with
  | O => Ok cells
  | S n' =>
      cnt ← zget (h_counts h) b;
      b0 ← bl_get (h_boundaries h) b;
      b1 ← bl_get (h_boundaries h) (b + 1);
      cells' ← project_bin ax cell_w cnt b0 b1 cells;
      project_bins ax cell_w h (b + 1) n' cells'
  end.

Definition ProjectHistogram (h : RangeAttrHistogram) (ax : ByteAxis) (cells : list spec_float) : result (list spec_float) :=
  if ax_span ax =? 0 then
    c0 ← zget cells 0;
    zset cells 0 (fold_left (fun acc c => f64_add acc (f64_of_Z c)) (h_counts h) c0)
  else
    let cell_w := f64_div (f64_of_Z (ax_span ax)) (f64_of_Z (zlen cells)) in
    project_bins ax cell_w h 0 (Z.to_nat (BytesList.size (h_boundaries h) - 1)) cells.

Fixpoint project_all (hs : list RangeAttrHistogram) (ax : ByteAxis) (cells : list spec_float) : result (list spec_float) :=
  match hs with [] => Ok cells | h :: rest => cells' ← ProjectHistogram h ax cells; project_all rest ax cells' end.

Fixpoint prefix_sums (cells : list spec_float) (acc : spec_float) : list spec_float * spec_float :=
  match cells with
  | [] => ([], acc)
  | c :: rest => let acc' := f64_add acc c in let '(ps, total) := prefix_sums rest acc' in (acc' :: ps, total)
  end.

Definition range_stats (grid_cells : Z) (hs : list RangeAttrHistogram) : result (option GlobalRangeStats) :=
  match hs with
  | [] => Ok None
  | _ =>
      '(mn, mx, ndv) ← hist_bounds hs true [] [] 0;
      ax ← fit_axis hs mn mx;
      bins ← mapM (sst_bin ax) hs;
      cells ← project_all hs ax (replicate (Z.to_nat grid_cells) f64_zero);
      let '(psum, total) := prefix_sums cells f64_zero in
      Ok (Some (mkGlobalRangeStats ax mn mx psum total ndv bins))
  end.

Definition equality_stats (acc : attr_acc) : option GlobalEqualityStats :=
  match aa_values acc with
  | [] => None
  | vals =>
      Some (if kMaxTrackedValues <? zlen vals then
              let top := nth_element (fun x y => SFltb (snd y) (snd x)) (Z.to_nat kMaxTrackedValues) vals in
              mkGlobalEqualityStats (take (Z.to_nat kMaxTrackedValues) top) (aa_total acc) true (aa_binmass acc)
            else mkGlobalEqualityStats vals (aa_total acc) false (aa_binmass acc))
  end.

Fixpoint attr_stats (grid_cells : Z) (types : list IndexType) (accs : list attr_acc)
    : result (list (option GlobalRangeStats) * list (option GlobalEqualityStats)) :=
  match types, accs with
  | t :: types', acc :: accs' =>
      '(r, e) ← (match t with
                 | kRange => r ← range_stats grid_cells (aa_hists acc); Ok (r, None)
                 | kEquality => Ok (None, equality_stats acc)
                 end);
      '(rs, es) ← attr_stats grid_cells types' accs';
      Ok (r :: rs, e :: es)
  | _, _ => Ok ([], [])
  end.

Definition Rebuild (open_table : est_file -> table_found) (types : list IndexType) (grid_cells : Z)
    (levels : list (list est_file)) : result GlobalStats :=
  h ← harvest_files open_table types (concat levels) (mkHarvest 0 0 (replicate (length types) attr_acc_init));
  '(rs, es) ← attr_stats grid_cells types (hv_accs h);
  Ok (mkGlobalStats rs es (hv_rows h) (hv_files h)).
End Rebuild.
