(* ===== verification/EstimatorSpec.v ===== *)
(** * What an estimate promises

    Statistics in good shape are estimated from without undefined behaviour:
    every conversion of a double to a cell number is in range and every access
    inside its vector, and the result lies between one row and all rows, the
    candidate fraction never below the match fraction. *)
From Stdlib Require Import ZArith Lia Strings.Byte Floats.SpecFloat Sorting.Sorted.
From stdpp Require Import base numbers list sets sorting.
From S2P Require Import Prelude Floats Options Okey BytesList Query Externals Binning Builder Reader.
From S2P Require Import FloatOrder ByteAxis Estimator.

(** ** The shape of statistics *)
Definition axis_ok (ax : ByteAxis) (mn mx : bytes) : Prop :=
  exists lo hi shortest, fit_pre mn mx lo hi /\ 0 <= shortest /\ ax = Fit mn mx lo hi shortest.

Record range_ok (g : GlobalRangeStats) : Prop := {
  gk_axis : axis_ok (gr_axis g) (gr_min g) (gr_max g);
  gk_cells : 1 <= zlen (gr_cell_psum g) < 2 ^ 32;
}.
Record stats_ok (types : list IndexType) (stats : GlobalStats) : Prop := {
  sk_range : length (gs_range stats) = length types;
  sk_equality : length (gs_equality stats) = length types;
  sk_attr i g : gs_range stats !! i = Some (Some g) -> range_ok g;
  sk_rows : is_u64 (gs_physical_rows stats);
  sk_files : is_u64 (gs_live_sst_count stats);
}.

Section Axis.
Context (ax : ByteAxis) (mn mx : bytes) (Hax : axis_ok ax mn mx).

Lemma axis_span_u64 : 0 <= ax_span ax < 2 ^ 64.
Proof. destruct Hax as (lo & hi & sh & Hp & Hs & ->). by apply Fit_span. Qed.
Lemma axis_unit_u64 : 1 <= ax_unit ax < 2 ^ 64.
Proof. destruct Hax as (lo & hi & sh & Hp & Hs & ->). by apply Fit_unit. Qed.
Lemma axis_End_u64 : is_u64 (End ax).
Proof. destruct Hax as (lo & hi & sh & Hp & Hs & ->). by apply End_bounds. Qed.
Lemma axis_Rel_u64 s : is_u64 (Rel ax s).
Proof.
  pose proof axis_End_u64 as He. destruct Hax as (lo & hi & sh & Hp & Hs & ->).
  pose proof (Rel_bounds _ _ _ _ sh Hp s). unfold is_u64 in *. lia.
Qed.

Lemma place_u64 w : is_u64 (aw_lo (Place ax mn mx w)) /\ is_u64 (aw_hi (Place ax mn mx w)).
Proof.
  pose proof axis_unit_u64. pose proof axis_End_u64.
  assert (is_u64 0) by (unfold is_u64; lia). assert (is_u64 (ax_unit ax)) by (unfold is_u64; lia).
  cbn [Place aw_lo aw_hi]. split; repeat case_match; try done;
    apply SatAdd_bounds; try done; apply axis_Rel_u64.
Qed.
End Axis.

(** ** Masses *)
Lemma CumBelow_ok g rel : range_ok g -> 0 <= rel -> exists x, CumBelow g rel = Ok x.
Proof.
  intros [Hax Hn] Hrel. pose proof (axis_span_u64 _ _ _ Hax) as Hspan. unfold CumBelow.
  destruct (_ || SFeqb _ _); [by eexists|]. destruct (Z.eqb_spec (ax_span (gr_axis g)) 0) as [|Hs0]; [by eexists|].
  destruct (Z.ltb_spec (ax_span (gr_axis g)) rel) as [|Hle]; [by eexists|]. cbn [orb].
  set (n := zlen (gr_cell_psum g)) in *.
  destruct (ratio_le_one rel (ax_span (gr_axis g)) ltac:(lia) ltac:(lia)) as [Hq1 Hq2].
  destruct (of_Z_exact n ltac:(lia)) as [Hn1 Hn2].
  pose proof (mul_rounds _ _ Hq1 Hn1) as Hr. pose proof (pw_pos 0 ltac:(lia)).
  destruct (small_canon n ltac:(lia)) as (m & e & Hc & Ec).
  assert (0 <= fv n 0) by (unfold fv; nia).
  destruct (rounds_bounded _ _ _ m e Hr Hc) as [Hp1 Hp2]; [rewrite Ec, Hn2; nia|]. rewrite Ec in Hp2.
  destruct (to_Z_le (2 ^ 32) _ n Hp1 Hp2 ltac:(lia)) as (k & -> & Hk). cbn [mbind result_bind].
  rewrite u32_small by (unfold is_u32; lia).
  set (cell := Z.min k (n - 1)). assert (0 <= cell < n) as Hcell by lia.
  assert (forall i, 0 <= i < n -> exists x, zget (gr_cell_psum g) i = Ok x) as Hget.
  { intros i Hi. destruct (lookup_lt_is_Some_2 (gr_cell_psum g) (Z.to_nat i)) as [x Hx];
      [unfold n, zlen in *; lia|]. exists x. apply zget_lookup. by split; [lia|]. }
  destruct (Hget cell Hcell) as [up Eup].
  destruct (Z.eqb_spec cell 0) as [E|E]; cbn [mbind result_bind].
  - rewrite Eup. by eexists.
  - destruct (Hget (cell - 1) ltac:(lia)) as [below ->]. cbn [mbind result_bind]. rewrite Eup. by eexists.
Qed.

Lemma PointAwareRangeMass_ok g w :
  range_ok g -> 0 <= aw_lo w -> 0 <= aw_hi w -> exists x, PointAwareRangeMass g w = Ok x.
Proof.
  intros Hg Hlo Hhi. unfold PointAwareRangeMass, RangeMass. destruct (_ || _); [by eexists|].
  destruct (CumBelow_ok g (aw_lo w) Hg Hlo) as [x Ex]. destruct (CumBelow_ok g (aw_hi w) Hg Hhi) as [y Ey].
  destruct (ax_span _ <? _); rewrite ?Ey; cbn [mbind result_bind]; rewrite Ex; by eexists.
Qed.

(** ** Conditions and clauses *)
Lemma elem_of_set_insert x l z : z ∈ set_insert x l <-> z = x \/ z ∈ l.
Proof.
  induction l as [|y l IH]; cbn [set_insert].
  - rewrite list_elem_of_singleton, elem_of_nil. tauto.
  - destruct (Z.ltb_spec x y); [by rewrite elem_of_cons|].
    destruct (Z.eqb_spec x y) as [->|]; rewrite ?elem_of_cons, ?IH; tauto.
Qed.
Lemma set_insert_sorted x l : StronglySorted Z.lt l -> StronglySorted Z.lt (set_insert x l).
Proof.
  induction 1 as [|y l Hs IH Hall]; cbn [set_insert]; [by repeat constructor|].
  destruct (Z.ltb_spec x y) as [Hlt|Hge].
  { constructor; [by constructor|]. constructor; [done|]. eapply Forall_impl; [exact Hall|]. cbn. intros z. lia. }
  destruct (Z.eqb_spec x y) as [->|Hne]; [by constructor|]. constructor; [done|].
  apply Forall_forall. intros z [->|Hz]%elem_of_set_insert; [lia|]. rewrite Forall_forall in Hall. by apply Hall.
Qed.

Section Conditions.
Context (types : list IndexType) (stats : GlobalStats) (phys : spec_float).
Context (Hst : stats_ok types stats) (Htypes : zlen types < 2 ^ 32).

Lemma attr_lookup {A} (l : list A) i :
  length l = length types -> 0 <= i < zlen types -> exists x, zget l i = Ok x /\ l !! Z.to_nat i = Some x.
Proof.
  intros Hl Hi. destruct (lookup_lt_is_Some_2 l (Z.to_nat i)) as [x Hx]; [unfold zlen in Hi; lia|].
  exists x. split; [|done]. apply zget_lookup. by split; [lia|].
Qed.

Lemma condition_ok c :
  0 <= s_attr_idx c ->
  exists f, ConditionSelectivity stats types phys c = Ok f /\
    (SFltb f f64_zero = false -> exists x, ConditionCandidate stats types phys c f = Ok x).
Proof.
  intros Hc. assert (SFltb f64_minus_one f64_zero = true) as Hneg by done.
  unfold ConditionSelectivity, ConditionCandidate.
  destruct (Z.leb_spec (zlen types) (s_attr_idx c)) as [|Hlt]; [exists f64_minus_one; by rewrite Hneg|].
  destruct (attr_lookup types (s_attr_idx c)) as (t & -> & Ht); [done|lia|].
  destruct (attr_lookup (gs_range stats) (s_attr_idx c)) as (ord & -> & Hord); [apply Hst|lia|].
  destruct (attr_lookup (gs_equality stats) (s_attr_idx c)) as (uno & -> & _); [apply Hst|lia|].
  cbn [mbind result_bind]. destruct t.
  - destruct uno as [e|]; [|exists f64_minus_one; by rewrite Hneg]. cbn [get_or mbind result_bind].
    destruct (find_value _ _); [|destruct (ge_truncated e)]; eexists; (split; [done|]);
      intros _; destruct (SFeqb _ _); by eexists.
  - destruct ord as [g|]; [|exists f64_minus_one; by rewrite Hneg]. cbn [get_or mbind result_bind].
    pose proof (sk_attr _ _ Hst _ _ Hord) as Hg.
    destruct (place_u64 _ _ _ (gk_axis _ Hg) (win c)) as [[Hlo _] [Hhi _]].
    destruct (_ <=? _); [by eexists; split; [done|eexists]|].
    destruct (PointAwareRangeMass_ok g (place g (win c)) Hg Hlo Hhi) as [x ->].
    eexists. split; [done|]. intros _. by eexists.
Qed.

(** The invariant of both loops. *)
Definition loop_inv (attrs : list Z) (st : est_state) : Prop :=
  Forall (fun x => 0 <= fst x < zlen types /\ fst x ∈ attrs) (es_windows st) /\
  StronglySorted Z.lt (es_fallback st) /\ Forall (fun x => x ∈ attrs) (es_fallback st).

Lemma fallback_insert (attrs : list Z) x l :
  x ∈ attrs -> StronglySorted Z.lt l /\ Forall (fun x => x ∈ attrs) l ->
  StronglySorted Z.lt (set_insert x l) /\ Forall (fun x => x ∈ attrs) (set_insert x l).
Proof.
  intros Hx [H1 H2]. split; [by apply set_insert_sorted|]. apply Forall_forall. intros z Hz.
  apply elem_of_set_insert in Hz as [->|Hz]; [done|]. rewrite Forall_forall in H2. by apply H2.
Qed.
Lemma window_intersect_inv (P : Z -> Prop) a w l :
  P a -> Forall (fun x => P (fst x)) l -> Forall (fun x => P (fst x)) (window_intersect a w l).
Proof.
  intros Ha. induction 1 as [|[b x] l Hb Hl IH]; cbn [window_intersect]; [by repeat constructor|].
  destruct (_ <? _); [by repeat constructor|]. destruct (_ =? _); by constructor.
Qed.

Lemma single_clause_ok (attrs : list Z) c st :
  0 <= s_attr_idx c -> s_attr_idx c ∈ attrs -> loop_inv attrs st ->
  exists st', single_clause stats types phys c st = Ok st' /\ loop_inv attrs st'.
Proof.
  intros Hc Hin (Hw & Hf). unfold single_clause. pose proof (zlen_nonneg types).
  rewrite u32_small by (unfold is_u32; lia).
  assert (exists b, (if s_attr_idx c <? zlen types then
      t ← zget types (s_attr_idx c); Ok (match t with kRange => true | _ => false end) else Ok false) = Ok b /\
      (b = true -> s_attr_idx c < zlen types)) as (b & -> & Hb).
  { destruct (Z.ltb_spec (s_attr_idx c) (zlen types)); [|by exists false].
    destruct (attr_lookup types (s_attr_idx c)) as (t & -> & _); [done|lia|]. by eexists. }
  cbn [mbind result_bind]. destruct b.
  { eexists. split; [done|]. split; [|done]. cbn [es_windows].
    apply (window_intersect_inv (fun a => 0 <= a < zlen types /\ a ∈ attrs)); [|done]. specialize (Hb eq_refl). auto with lia. }
  destruct (condition_ok c Hc) as (f & -> & Hcand). cbn [mbind result_bind].
  destruct (SFltb f f64_zero).
  - eexists. split; [done|]. split; [done|]. by apply fallback_insert.
  - destruct (Hcand eq_refl) as [x ->]. by eexists.
Qed.

Lemma or_members_ok (attrs : list Z) clause sum cand fb fallback :
  Forall (fun c => 0 <= s_attr_idx c /\ s_attr_idx c ∈ attrs) clause ->
  StronglySorted Z.lt fallback /\ Forall (fun x => x ∈ attrs) fallback ->
  exists s c b l, or_members stats types phys clause sum cand fb fallback = Ok (s, c, b, l) /\
    StronglySorted Z.lt l /\ Forall (fun x => x ∈ attrs) l.
Proof.
  intros Hcl. revert sum cand fb fallback. induction Hcl as [|c clause [Hc Hin] _ IH]; intros sum cand fb fallback Hf.
  { by do 4 eexists. }
  cbn [or_members]. destruct (condition_ok c Hc) as (f & -> & Hcand). cbn [mbind result_bind].
  destruct (SFltb f f64_zero).
  - apply IH. by apply fallback_insert.
  - destruct (Hcand eq_refl) as [x ->]. cbn [mbind result_bind]. by apply IH.
Qed.

Lemma clause_loop_ok (attrs : list Z) clauses st :
  Forall (Forall (fun c => 0 <= s_attr_idx c /\ s_attr_idx c ∈ attrs)) clauses -> loop_inv attrs st ->
  exists st', clause_loop stats types phys clauses st = Ok st' /\ loop_inv attrs st'.
Proof.
  intros Hcs. revert st. induction Hcs as [|cl clauses Hcl _ IH]; intros st Hinv; [by eexists|].
  cbn [clause_loop].
  assert (exists st', match cl with [] => Ok st | [c] => single_clause stats types phys c st
      | _ => or_clause stats types phys cl st end = Ok st' /\ loop_inv attrs st') as (st' & -> & Hinv').
  { destruct cl as [|c [|c' cl]]; [by eexists| |].
    - apply Forall_cons in Hcl as [[Hc Hin] _]. by apply single_clause_ok.
    - unfold or_clause. destruct Hinv as [Hw Hf].
      destruct (or_members_ok attrs _ f64_zero f64_zero false (es_fallback st) Hcl Hf) as (s & x & b & l & -> & Hl).
      cbn [mbind result_bind]. eexists. split; [done|]. by destruct b. }
  cbn [mbind result_bind]. by apply IH.
Qed.

Lemma place_windows_ok (attrs : list Z) ws st :
  Forall (fun x => 0 <= fst x < zlen types /\ fst x ∈ attrs) ws -> loop_inv attrs st ->
  exists st', place_windows stats phys ws st = Ok st' /\ loop_inv attrs st'.
Proof.
  intros Hws. revert st. induction Hws as [|[a w] ws [Ha Hin] _ IH]; intros st Hinv; [by eexists|].
  cbn [place_windows fst] in *. destruct (attr_lookup (gs_range stats) a) as (ord & -> & Hord); [apply Hst|done|].
  cbn [mbind result_bind]. destruct Hinv as [Hw Hf]. destruct ord as [g|].
  2:{ cbn [mbind result_bind]. apply IH. split; [done|]. by apply fallback_insert. }
  destruct (_ <=? _); [by apply IH; split|].
  pose proof (sk_attr _ _ Hst _ _ Hord) as Hg.
  destruct (place_u64 _ _ _ (gk_axis _ Hg) w) as [[Hlo _] [Hhi _]].
  destruct (PointAwareRangeMass_ok g (place g w) Hg Hlo Hhi) as [x ->]. by apply IH; split.
Qed.
End Conditions.

(** ** The result *)
Lemma clamp_bounds lo x :
  SFleb lo f64_one = true ->
  SFleb lo (fmin f64_one (fmax x lo)) = true /\ SFleb (fmin f64_one (fmax x lo)) f64_one = true.
Proof.
  intros Hlo. destruct (SFleb_not_nan _ _ Hlo) as [Hn _]. split; [|by apply fmin_le_l].
  apply fmin_glb; [done|]. intros Hm. apply fmax_ge_r; [|done].
  unfold fmax in Hm. destruct (SFltb x lo) eqn:E; [|done].
  by destruct (SFleb_not_nan _ _ (SFleb_ltb _ _ E)).
Qed.

Definition query_attrs (q : SABIQuery) : list Z := map s_attr_idx (concat (s_clause_groups q)).

Lemma fallback_attrs_spec q :
  StronglySorted Z.lt (er_fallback_attrs (FallbackResult q)) /\
  forall a, a ∈ er_fallback_attrs (FallbackResult q) <-> a ∈ query_attrs q.
Proof.
  unfold FallbackResult, query_attrs. cbn [er_fallback_attrs].
  assert (forall clause acc, StronglySorted Z.lt acc ->
    let r := fold_left (fun acc c => set_insert (s_attr_idx c) acc) clause acc in
    StronglySorted Z.lt r /\ forall a, a ∈ r <-> a ∈ acc \/ a ∈ map s_attr_idx clause) as Hcl.
  { induction clause as [|c clause IH]; intros acc Ha; cbn [fold_left map].
    - split; [done|]. intros a. rewrite elem_of_nil. tauto.
    - destruct (IH _ (set_insert_sorted (s_attr_idx c) acc Ha)) as [H1 H2]. split; [done|].
      intros a. rewrite H2, elem_of_set_insert, elem_of_cons. tauto. }
  assert (forall clauses acc, StronglySorted Z.lt acc ->
    let r := fold_left (fun acc clause => fold_left (fun acc c => set_insert (s_attr_idx c) acc) clause acc) clauses acc in
    StronglySorted Z.lt r /\ forall a, a ∈ r <-> a ∈ acc \/ a ∈ map s_attr_idx (concat clauses)) as Hcs.
  { induction clauses as [|cl clauses IH]; intros acc Ha; cbn [fold_left concat].
    - split; [done|]. intros a. cbn [map]. rewrite elem_of_nil. tauto.
    - destruct (Hcl cl acc Ha) as [H1 H2]. destruct (IH _ H1) as [H3 H4]. split; [done|].
      intros a. rewrite H4, H2, map_app, elem_of_app. tauto. }
  destruct (Hcs (s_clause_groups q) [] ltac:(constructor)) as [H1 H2]. split; [done|].
  intros a. rewrite H2, elem_of_nil. tauto.
Qed.

Lemma query_attrs_clauses q :
  Forall (fun a => 0 <= a) (query_attrs q) ->
  Forall (Forall (fun c => 0 <= s_attr_idx c /\ s_attr_idx c ∈ query_attrs q)) (s_clause_groups q).
Proof.
  unfold query_attrs. rewrite Forall_map. intros H. apply Forall_forall. intros cl Hcl.
  apply Forall_forall. intros c Hc.
  assert (c ∈ concat (s_clause_groups q)) as Hin by (apply list_elem_of_concat; eauto).
  rewrite Forall_forall in H. split; [by apply H|]. by apply list_elem_of_fmap_2.
Qed.

(** (C17) An estimate never has undefined behaviour and is within bounds: for
    statistics of any shape a rebuild gives and any query, [Estimate] returns;
    the flagged attributes are attributes of the query, each once, in
    ascending order; without statistics everything is flagged and both
    fractions are 1; otherwise one row of the live rows is at most the
    selectivity, which is at most the candidate selectivity, which is at most
    1. NaN and infinite intermediate masses are covered. *)
Theorem estimate_bounds types stats memtable q :
  stats_ok types stats -> zlen types < 2 ^ 32 -> Forall (fun a => 0 <= a) (query_attrs q) ->
  exists r, Estimate types stats memtable q = Ok r /\
    er_memtable_entries r = memtable /\
    StronglySorted Z.lt (er_fallback_attrs r) /\ (forall a, a ∈ er_fallback_attrs r -> a ∈ query_attrs q) /\
    if (gs_live_sst_count stats =? 0) || (gs_physical_rows stats =? 0) then
      er_selectivity r = f64_one /\ er_candidate_selectivity r = f64_one /\ er_physical_rows r = 0 /\
      (forall a, a ∈ query_attrs q -> a ∈ er_fallback_attrs r)
    else
      er_physical_rows r = gs_physical_rows stats /\
      SFleb (f64_div f64_one (f64_of_Z (gs_physical_rows stats))) (er_selectivity r) = true /\
      SFleb (er_selectivity r) (er_candidate_selectivity r) = true /\
      SFleb (er_candidate_selectivity r) f64_one = true.
Proof.
  intros Hst Hty Hq. unfold Estimate. destruct (_ || _) eqn:E0.
  { destruct (fallback_attrs_spec q) as [H1 H2]. eexists. split; [done|]. split_and!; try done.
    - intros a Ha. by apply H2.
    - intros a Ha. by apply H2. }
  apply orb_false_iff in E0 as [_ E0]. apply Z.eqb_neq in E0. pose proof (sk_rows _ _ Hst) as Hr. unfold is_u64 in Hr.
  set (phys := f64_of_Z (gs_physical_rows stats)).
  destruct (clause_loop_ok types stats phys Hst Hty (query_attrs q) (s_clause_groups q)
    (mkEstState f64_one f64_one [] []) (query_attrs_clauses q Hq)) as (st1 & -> & Hw1 & Hf1).
  { repeat split; constructor. }
  cbn [mbind result_bind].
  destruct (place_windows_ok types stats phys Hst (query_attrs q) (es_windows st1) st1 Hw1)
    as (st2 & -> & Hw2 & Hs2 & Hf2); [done|].
  cbn [mbind result_bind]. eexists. split; [done|]. cbn [er_memtable_entries er_fallback_attrs er_physical_rows
    er_selectivity er_candidate_selectivity].
  split; [done|]. split; [done|]. split; [by apply Forall_forall|]. split; [done|].
  destruct (clamp_bounds (f64_div f64_one phys) (es_product st2)) as [H1 H2]; [apply one_over_le; lia|].
  destruct (clamp_bounds _ (es_cand st2) H2) as [H3 H4]. done.
Qed.

(** Statistics of one range attribute over the keys "user-00" to "user-99",
    on a grid of two cells. *)
Definition user_stats : GlobalStats :=
  mkGlobalStats
    [Some (mkGlobalRangeStats (Fit (user_key x30 x30) (user_key x39 x39) 48 57 7) (user_key x30 x30) (user_key x39 x39)
             [f64_of_Z 60; f64_of_Z 100] (f64_of_Z 100) 100 [])]
    [None] 100 1.
Lemma user_stats_ok : stats_ok [kRange] user_stats.
Proof.
  split; [done|done| |unfold is_u64; cbn; lia|unfold is_u64; cbn; lia].
  intros [|i] g; [|done]. intros [= <-]. split; [|by vm_compute].
  exists 48, 57, 7. split; [apply user_axis_pre|done].
Qed.
Definition user_query : SABIQuery := mkSABIQuery [[mkSABICondition 0 user_interval []]; [mkSABICondition 7 user_interval []]] false.

Lemma estimate_bounds_witness : exists r, Estimate [kRange] user_stats 5 user_query = Ok r /\
  SFleb (er_selectivity r) (er_candidate_selectivity r) = true /\ er_fallback_attrs r = [7].
Proof.
  destruct (estimate_bounds [kRange] user_stats 5 user_query user_stats_ok) as (r & E & _ & _ & _ & H).
  - done.
  - repeat constructor; done.
  - exists r. split; [done|]. split; [apply H|]. revert E. vm_compute. by intros [= <-].
Defined.
