(* ===== verification/RebuildSpec.v ===== *)
(** * Rebuilding the estimator's statistics

    Against the contract of an open index ([reads_table]): a rebuild has no
    undefined behaviour, its statistics are in the shape estimates rely on,
    and they account for every row of the indexed files. *)
From Stdlib Require Import ZArith Lia Strings.Byte Floats.SpecFloat Sorting.Sorted.
From stdpp Require Import base numbers list sets sorting.
From S2P Require Import Prelude Floats Options Okey BytesList Query Externals RangeBuf Binning Builder Reader.
From S2P Require Import Index ReaderSpec BuilderSpec BlobSpec SstIndex FloatOrder ByteAxis Estimator EstimatorSpec.

(** A 64-bit running sum that does not wrap is at least each of its terms. *)
Lemma fold_u64_ge l acc :
  Forall (fun c => 0 <= c < 2 ^ 32) l -> 0 <= acc -> acc + zlen l * 2 ^ 32 < 2 ^ 64 ->
  acc <= fold_left (fun acc x => u64 (acc + x)) l acc /\
  forall c, c ∈ l -> c <= fold_left (fun acc x => u64 (acc + x)) l acc.
Proof.
  revert acc. induction l as [|c l IH]; intros acc Hf Ha Hlt; cbn [fold_left].
  - split; [lia|]. by intros c Hc%not_elem_of_nil.
  - apply Forall_cons in Hf as [Hc Hf]. rewrite zlen_cons in Hlt. pose proof (zlen_nonneg l).
    rewrite u64_small by (unfold is_u64; lia). destruct (IH (acc + c) Hf ltac:(lia) ltac:(lia)) as [H1 H2].
    split; [lia|]. intros c' [->|Hc']%elem_of_cons; [lia|by apply H2].
Qed.

(** A policy that fits a column has a bin for each of its values. *)
Lemma value_has_bin t p n vals v :
  policy_fits t p n vals -> v ∈ vals -> 1 <= n -> exists k, value_bin p n v k /\ 0 <= k < n.
Proof.
  intros Hf Hv Hn. destruct t, p as [bl|es]; cbn [policy_fits value_bin] in *; try done.
  - destruct (ef_total _ _ _ Hf v Hv) as [b Hb]. exists b. split; [done|]. by eapply ef_range.
  - destruct Hf as (bs & Hbs & Hf). exists (bin_rule bs n v). split; [by exists bs|]. by apply bin_rule_bounds.
Qed.

(** ** Histograms of one file *)
Section Histograms.
Context `{RoaringOps} `{!RoaringLaws _}.
Context (schema : SABISchema) (evs : list table_event) (rows : list sst_row) (r : SABIReader).
Context (Hrt : reads_table schema evs rows r) (Hrows : zlen rows < 2 ^ 32).

Lemma rows_in_bounds bm n : 0 <= n -> 0 <= rows_in bm n <= n.
Proof.
  intros Hn. unfold rows_in. split; [apply zlen_nonneg|].
  pose proof (length_filter (fun x => r_contains bm x = true) (seqZ 0 n)) as Hl.
  unfold zlen. rewrite length_seqZ in Hl. lia.
Qed.

Lemma bin_counts_spec n off cs :
  length cs = n -> 0 <= off -> (forall k c, cs !! k = Some c -> bin_cardinalities r !! Z.to_nat (off + Z.of_nat k) = Some c) ->
  bin_counts r off n = Ok cs.
Proof.
  revert off cs. induction n as [|n IH]; intros off [|c cs] Hl Ho Hk; try done.
  cbn [bin_counts]. unfold BinCardinality.
  rewrite (proj2 (zget_lookup _ off c)) by (split; [done|]; rewrite <- (Hk 0%nat c eq_refl); f_equal; lia).
  cbn [mbind result_bind]. rewrite (IH (off + 1) cs); [done|by injection Hl|lia|].
  intros k c' Hc'. rewrite <- (Hk (S k) c' Hc'). f_equal. lia.
Qed.

(** The counts of an attribute's bins; they vanish only when the column has no
    value. *)
Lemma attr_counts i t :
  index_types schema !! i = Some t ->
  exists bi p n cs, attr_ctx (index_types schema) rows bi i t p n /\
    binning_policy (rd_index r) !! i = Some p /\ bitmap_nums (rd_index r) !! i = Some n /\
    bin_counts r (AttrBinOffset r (Z.of_nat i)) (Z.to_nat n) = Ok cs /\ zlen cs = n /\
    Forall (fun c => 0 <= c < 2 ^ 32) cs /\
    (fold_left (fun acc x => u64 (acc + x)) cs 0 = 0 -> column i rows = []).
Proof.
  intros Ht. destruct (rt_metadata _ _ _ _ Hrt) as (bi & Hix & Hn & Hp & Hcards).
  assert (reads_index (index_types schema) rows bi r) as Hri by (split; [done|apply Hrt|done|done]).
  destruct (attr_ctx_of _ _ _ _ Hri i t Ht) as (p & n & Hctx).
  pose proof Hctx as [_ Hpi Hni Hfits Hb Hoff].
  set (off := bin_offset (bitmap_nums bi) i) in *.
  set (bms := take (Z.to_nat n) (drop (Z.to_nat off) (bitmaps bi))).
  assert (zlen (bitmaps bi) = zsum (bitmap_nums bi)) as Hbl by apply Hix.
  assert (length bms = Z.to_nat n) as Hl by (unfold bms, zlen in *; rewrite length_take, length_drop; lia).
  set (cs := map (fun bm => rows_in bm (zlen rows)) bms).
  assert (Forall (fun c => 0 <= c < 2 ^ 32) cs) as Hcs.
  { apply Forall_map, Forall_forall. intros bm _. pose proof (rows_in_bounds bm (zlen rows) (zlen_nonneg _)). lia. }
  exists bi, p, n, cs. split; [done|]. split; [by rewrite Hp|]. split; [by rewrite Hn|]. split.
  { rewrite (AttrBinOffset_spec _ _ _ _ Hri _ n) by by rewrite Nat2Z.id. rewrite Nat2Z.id. fold off.
    apply bin_counts_spec; [unfold cs; by rewrite length_map|lia|]. intros k c Hc. unfold cs in Hc.
    rewrite list_lookup_fmap in Hc. destruct (bms !! k) as [bm|] eqn:E; [|done]. injection Hc as <-.
    apply Hcards. apply lookup_app_l_Some.
    unfold bms in E. apply lookup_take_Some in E as [E _]. rewrite lookup_drop in E. rewrite <- E. f_equal. lia. }
  split; [unfold cs, zlen; rewrite length_map; lia|]. split; [done|]. intros Hsum.
  destruct (column i rows) as [|v col] eqn:Ecol; [done|exfalso].
  assert (v ∈ column i rows) as Hv by (rewrite Ecol; by left).
  apply column_elem in Hv as (j & row & Hj & Hv).
  destruct (value_has_bin t p n _ v Hfits ltac:(by left) ltac:(lia)) as (k & Hk & Hkn).
  destruct (lookup_lt_is_Some_2 bms (Z.to_nat k)) as [bm Hbm]; [lia|].
  assert (bitmaps bi !! Z.to_nat (off + k) = Some bm) as Hbm'.
  { unfold bms in Hbm. apply lookup_take_Some in Hbm as [Hbm _]. rewrite lookup_drop in Hbm. rewrite <- Hbm. f_equal. lia. }
  assert (r_contains bm (Z.of_nat j) = true) as Hrc by (eapply (io_rows _ _ _ Hix i p n bm j row k); eauto).
  assert (0 < rows_in bm (zlen rows)) as Hpos.
  { unfold rows_in. destruct (filter _ _) as [|y l] eqn:E; [|rewrite zlen_cons; pose proof (zlen_nonneg l); lia].
    assert (Z.of_nat j ∈ filter (fun x => r_contains bm x = true) (seqZ 0 (zlen rows))) as Hin.
    { apply list_elem_of_filter. split; [done|]. apply elem_of_seqZ. apply lookup_lt_Some in Hj. unfold zlen. lia. }
    rewrite E in Hin. by apply not_elem_of_nil in Hin. }
  assert (rows_in bm (zlen rows) ∈ cs) as Hin.
  { unfold cs. apply list_elem_of_In, (in_map (fun bm => rows_in bm (zlen rows))), list_elem_of_In.
    by eapply list_elem_of_lookup_2. }
  clear -Hcs Hsum Hpos Hin Hb Hl.
  destruct (fold_u64_ge cs 0 Hcs ltac:(lia)) as [_ H2]; [unfold cs, zlen; rewrite length_map; lia|].
  specialize (H2 _ Hin). lia.
Qed.

(** A histogram with its boundaries in order, and the values it spans. *)
Definition hist_ok (h : RangeAttrHistogram) (bs : list bytes) : Prop :=
  bl_repr (h_boundaries h) bs /\ StronglySorted ble bs /\ zlen bs = zlen (h_counts h) + 1 /\
  1 <= zlen (h_counts h) /\ Forall (fun c => 0 <= c < 2 ^ 32) (h_counts h).
Definition spans (bs : list bytes) (v : bytes) : Prop :=
  exists b0 b1, head bs = Some b0 /\ last bs = Some b1 /\ ble b0 v /\ ble v b1.

Lemma RangeHistogram_spec i :
  index_types schema !! i = Some kRange ->
  (RangeHistogram r (Z.of_nat i) = Ok None /\ column i rows = []) \/
  (exists h bs, RangeHistogram r (Z.of_nat i) = Ok (Some h) /\ hist_ok h bs /\ forall v, v ∈ column i rows -> spans bs v).
Proof.
  intros Ht. destruct (attr_counts i kRange Ht) as (bi & p & n & cs & Hctx & Hp & Hn & Hcs & Hlen & Hall & Hzero).
  unfold RangeHistogram. rewrite Nat2Z.id, (rt_schema _ _ _ _ Hrt), Ht, (zget_nat _ _ _ Hn).
  cbn [mbind result_bind]. rewrite Hcs. cbn [mbind result_bind].
  destruct (Z.eqb_spec (fold_left (fun acc x => u64 (acc + x)) cs 0) 0) as [E|E]; [by left; split; [|apply Hzero]|].
  right. rewrite (zget_nat _ _ _ Hp). cbn [mbind result_bind].
  destruct Hctx as [_ _ _ Hfits Hb _]. destruct p as [bl|es]; [|done]. cbn [policy_fits] in Hfits.
  destruct Hfits as (bs & Hbs & Hf).
  assert (exists d, distinct_cnts r !! i = Some d) as [d Hd].
  { rewrite (rt_distinct _ _ _ _ Hrt). unfold distinct_of. apply lookup_lt_is_Some_2.
    rewrite length_map, length_seq. by eapply lookup_lt_Some. }
  rewrite (zget_nat _ _ _ Hd). cbn [mbind result_bind]. eexists _, bs. split; [done|]. split.
  - split_and!; [done|apply Hf|cbn [h_counts]; rewrite (rf_count _ _ _ Hf); lia|cbn [h_counts]; lia|done].
  - intros v Hv. destruct (rf_low _ _ _ Hf v Hv) as (b0 & H0 & L0). destruct (rf_high _ _ _ Hf v Hv) as (b1 & H1 & L1).
    by exists b0, b1.
Qed.

Lemma count_values_spec es acc :
  (forall v b, (v, b) ∈ es -> 0 <= b < zlen acc) -> exists out, count_values es acc = Ok out /\ zlen out = zlen acc.
Proof.
  revert acc. induction es as [|[v b] es IH]; intros acc Hin; [by eexists|]. cbn [count_values snd].
  specialize (Hin v b ltac:(by left)) as Hb.
  destruct (lookup_lt_is_Some_2 acc (Z.to_nat b)) as [c Hc]; [unfold zlen in Hb; lia|].
  rewrite (proj2 (zget_lookup acc b c)) by (split; [lia|done]). cbn [mbind result_bind].
  rewrite zset_okZ by (unfold zlen in Hb; lia). cbn [mbind result_bind].
  destruct (IH (<[Z.to_nat b:=u32 (c + 1)]> acc)) as (out & E & Hl).
  { intros v' b' Hv'. unfold zlen. rewrite length_insert. apply (Hin v' b'). by right. }
  exists out. split; [done|]. rewrite Hl. unfold zlen. by rewrite length_insert.
Qed.
Lemma value_shares_spec es card in_bin :
  (forall v b, (v, b) ∈ es -> 0 <= b < zlen card /\ 0 <= b < zlen in_bin) ->
  exists out, value_shares es card in_bin = Ok out /\ map fst out = map fst es.
Proof.
  induction es as [|[v b] es IH]; intros Hin; [by eexists|]. cbn [value_shares snd fst].
  destruct (Hin v b ltac:(by left)) as [Hb1 Hb2].
  destruct (lookup_lt_is_Some_2 card (Z.to_nat b)) as [c Hc]; [unfold zlen in Hb1; lia|].
  destruct (lookup_lt_is_Some_2 in_bin (Z.to_nat b)) as [k Hk]; [unfold zlen in Hb2; lia|].
  rewrite (proj2 (zget_lookup card b c)), (proj2 (zget_lookup in_bin b k)) by (split; [lia|done]). cbn [mbind result_bind].
  destruct IH as (out & -> & E); [intros v' b' Hv'; apply (Hin v' b'); by right|].
  eexists. split; [done|]. cbn. by rewrite E.
Qed.

Lemma EqualityValueCounts_spec i :
  index_types schema !! i = Some kEquality ->
  (EqualityValueCounts r (Z.of_nat i) = Ok None /\ column i rows = []) \/
  (exists cs, EqualityValueCounts r (Z.of_nat i) = Ok (Some cs) /\ forall v, v ∈ column i rows -> v ∈ map fst cs).
Proof.
  intros Ht. destruct (attr_counts i kEquality Ht) as (bi & p & n & cs & Hctx & Hp & Hn & Hcs & Hlen & Hall & Hzero).
  unfold EqualityValueCounts. rewrite Nat2Z.id, (rt_schema _ _ _ _ Hrt), Ht, (zget_nat _ _ _ Hp).
  cbn [mbind result_bind]. destruct Hctx as [_ _ _ Hfits Hb _]. destruct p as [bl|es]; [done|]. cbn [policy_fits] in Hfits.
  destruct (Z.eqb_spec (zlen es) 0) as [E0|E0].
  { left. split; [done|]. apply zlen_0_inv in E0 as ->. destruct (column i rows) as [|v col]; [done|].
    destruct (ef_total _ _ _ Hfits v ltac:(by left)) as [b Hb']. by apply not_elem_of_nil in Hb'. }
  rewrite (zget_nat _ _ _ Hn). cbn [mbind result_bind].
  destruct (count_values_spec es (replicate (Z.to_nat n) 0)) as (ib & -> & Hib).
  { intros v b Hv. rewrite zlen_replicate, Z2Nat.id by lia. by eapply ef_range. }
  cbn [mbind result_bind]. rewrite Hcs. cbn [mbind result_bind].
  destruct (Z.eqb_spec (fold_left (fun acc x => u64 (acc + x)) cs 0) 0) as [E|E]; [by left; split; [|apply Hzero]|].
  right. rewrite zlen_replicate, Z2Nat.id in Hib by lia.
  destruct (value_shares_spec es cs ib) as (out & -> & Hout).
  { intros v b Hv. rewrite Hlen, Hib. split; by eapply ef_range. }
  exists out. split; [done|]. intros v Hv. rewrite Hout. destruct (ef_total _ _ _ Hfits v Hv) as [b Hb'].
  change v with (fst (v, b)). by apply list_elem_of_fmap_2.
Qed.
End Histograms.

(** ** The statistics of a range attribute *)
Lemma sorted_ends bs b0 b1 b :
  StronglySorted ble bs -> head bs = Some b0 -> last bs = Some b1 -> b ∈ bs -> ble b0 b /\ ble b b1.
Proof.
  intros Hs H0 H1 Hb. split.
  - destruct bs as [|x bs]; [done|]. injection H0 as ->. apply StronglySorted_inv in Hs as [_ Hall].
    apply elem_of_cons in Hb as [->|Hb]; [reflexivity|]. rewrite Forall_forall in Hall. by apply Hall.
  - clear H0. induction Hs as [|x bs Hs IH Hall]; [done|]. destruct bs as [|y bs].
    + injection H1 as ->. apply list_elem_of_singleton in Hb as ->. reflexivity.
    + change (last (x :: y :: bs)) with (last (y :: bs)) in H1.
      apply elem_of_cons in Hb as [->|Hb]; [|by apply IH]. rewrite Forall_forall in Hall.
      apply Hall. apply last_Some in H1 as [l' ->]. set_solver.
Qed.

Lemma hist_boundaries h bs :
  hist_ok h bs -> exists b0 b1, head bs = Some b0 /\ last bs = Some b1 /\
    bl_get (h_boundaries h) 0 = Ok b0 /\ back (h_boundaries h) = Ok b1 /\
    bl_strings (h_boundaries h) = Ok bs /\ BytesList.size (h_boundaries h) = zlen bs /\
    (forall i b, bs !! i = Some b -> bl_get (h_boundaries h) (Z.of_nat i) = Ok b).
Proof.
  intros (Hr & _ & Hlen & Hc & _). destruct bs as [|b0 bs]; [change (zlen []) with 0 in Hlen; lia|].
  destruct (last (b0 :: bs)) as [b1|] eqn:El; [|by apply last_None in El].
  assert (forall i b, (b0 :: bs) !! i = Some b -> bl_get (h_boundaries h) (Z.of_nat i) = Ok b) as Hget.
  { intros i b Hb. by apply (bl_get_repr _ _ _ _ Hr). }
  exists b0, b1. split; [done|]. split; [done|]. split; [by apply (Hget 0%nat)|]. split.
  { destruct (last_Some (b0 :: bs) b1) as [(l' & El') _]; [done|]. rewrite El' in Hr. by apply (back_repr _ _ _ Hr). }
  split; [|split; [by apply bl_repr_size|done]].
  unfold bl_strings. rewrite (bl_repr_size _ _ Hr).
  clear -Hget. assert (forall l k, (forall i b, l !! i = Some b -> bl_get (h_boundaries h) (k + Z.of_nat i) = Ok b) ->
    mapM (fun i => bl_get (h_boundaries h) i) (seqZ k (zlen l)) = Ok l) as Hm.
  { induction l as [|x l IH]; intros k Hk; [done|]. rewrite zlen_cons. pose proof (zlen_nonneg l).
    rewrite seqZ_cons by lia. cbn [mapM]. replace k with (k + Z.of_nat 0) at 1 by lia.
    rewrite (Hk 0%nat x eq_refl). cbn [mbind result_bind].
    replace (Z.pred (zlen l + 1)) with (zlen l) by lia. rewrite (IH (Z.succ k)); [done|].
    intros i b Hb. rewrite <- (Hk (S i) b Hb). f_equal. lia. }
  apply Hm. intros i b Hb. rewrite Z.add_0_l. by apply Hget.
Qed.

Lemma hist_bounds_spec hs bss first mn mx ndv :
  Forall2 hist_ok hs bss ->
  exists mn' mx' ndv', hist_bounds hs first mn mx ndv = Ok (mn', mx', ndv') /\
    (forall b, b ∈ concat bss -> ble mn' b /\ ble b mx') /\
    (first = false -> ble mn' mn /\ ble mx mx') /\
    (mn' ∈ concat bss \/ mn' = mn /\ (first = true -> hs = [])) /\
    (mx' ∈ concat bss \/ mx' = mx /\ (first = true -> hs = [])).
Proof.
  intros Hf. revert first mn mx ndv. induction Hf as [|h bs hs bss Hh _ IH]; intros first mn mx ndv.
  { exists mn, mx, ndv. split; [done|]. split; [by intros b Hb%not_elem_of_nil|].
    split; [done|]. split; by right. }
  destruct (hist_boundaries h bs Hh) as (b0 & b1 & H0 & H1 & E0 & E1 & _).
  cbn [hist_bounds]. rewrite E0, E1. cbn [mbind result_bind].
  set (mn1 := if first || bltb b0 mn then b0 else mn). set (mx1 := if first || bltb mx b1 then b1 else mx).
  destruct (IH false mn1 mx1 (Z.max ndv (h_distinct h))) as (mn' & mx' & ndv' & E & Hall & Hfst & Hmn & Hmx).
  exists mn', mx', ndv'. split; [done|]. destruct (Hfst eq_refl) as [L1 L2].
  assert (ble mn1 b0 /\ (first = false -> ble mn1 mn)) as [A1 A2].
  { unfold mn1. destruct first; cbn [orb]; [by split|]. destruct (bltb b0 mn) eqn:Eb.
    - apply bltb_lt in Eb. split; [reflexivity|intros _; border].
    - apply bltb_ge in Eb. by split. }
  assert (ble b1 mx1 /\ (first = false -> ble mx mx1)) as [B1 B2].
  { unfold mx1. destruct first; cbn [orb]; [by split|]. destruct (bltb mx b1) eqn:Eb.
    - apply bltb_lt in Eb. split; [reflexivity|intros _; border].
    - apply bltb_ge in Eb. by split. }
  assert (b0 ∈ concat (bs :: bss) /\ b1 ∈ concat (bs :: bss)) as [I0 I1].
  { cbn [concat]. rewrite !elem_of_app. split; left.
    - destruct bs as [|x bs]; [done|]. injection H0 as ->. by left.
    - apply last_Some in H1 as [l' ->]. set_solver. }
  split_and!.
  - intros b [Hb|Hb]%elem_of_app; [|by apply Hall].
    destruct (sorted_ends bs b0 b1 b (proj1 (proj2 Hh)) H0 H1 Hb). split; border.
  - intros Hx. specialize (A2 Hx). specialize (B2 Hx). split; border.
  - destruct Hmn as [Hmn|[-> _]]; [left; cbn [concat]; apply elem_of_app; by right|].
    unfold mn1. destruct (first || bltb b0 mn) eqn:Eb; [by left|right]. split; [done|]. by intros ->.
  - destruct Hmx as [Hmx|[-> _]]; [left; cbn [concat]; apply elem_of_app; by right|].
    unfold mx1. destruct (first || bltb mx b1) eqn:Eb; [by left|right]. split; [done|]. by intros ->.
Qed.

(** The byte range grows to cover the bytes it meets. *)
Definition covers_bytes (lo hi : Z) (l : bytes) : Prop := Forall (fun c => lo <= b2z c <= hi) l.
Lemma covers_bytes_mono lo hi lo' hi' l : lo' <= lo -> hi <= hi' -> covers_bytes lo hi l -> covers_bytes lo' hi' l.
Proof. intros H1 H2 H. eapply Forall_impl; [exact H|]. cbn. intros c. lia. Qed.

(** The growth of the triple of smallest byte, largest byte and shortest
    length. *)
Definition grows (st st' : Z * Z * Z) : Prop :=
  let '(lo, hi, sh) := st in let '(lo', hi', sh') := st' in
  lo' <= lo /\ hi <= hi' /\ (0 <= lo -> 0 <= lo') /\ (hi <= 255 -> hi' <= 255) /\ (0 <= sh -> 0 <= sh').
#[export] Instance grows_preorder : PreOrder grows.
Proof.
  split.
  - intros [[lo hi] sh]. cbn. lia.
  - intros [[? ?] ?] [[? ?] ?] [[? ?] ?]. cbn. lia.
Qed.
Definition covered (k : nat) (st : Z * Z * Z) (b : bytes) : Prop :=
  let '(lo, hi, _) := st in covers_bytes lo hi (drop k b).
Lemma covered_grows k st st' b : grows st st' -> covered k st b -> covered k st' b.
Proof. destruct st as [[lo hi] sh], st' as [[lo' hi'] sh']. cbn. intros H. apply covers_bytes_mono; lia. Qed.

Lemma boundary_chars_spec k st b : grows st (boundary_chars k st b) /\ covered k (boundary_chars k st b) b.
Proof.
  destruct st as [[lo hi] sh]. unfold boundary_chars.
  assert (forall l lo hi, let '(lo', hi') :=
    fold_left (fun '(lo, hi) c => (Z.min lo (b2z c), Z.max hi (b2z c))) l (lo, hi) in
    lo' <= lo /\ hi <= hi' /\ (0 <= lo -> 0 <= lo') /\ (hi <= 255 -> hi' <= 255) /\ covers_bytes lo' hi' l) as Hl.
  { induction l as [|c l IH]; intros lo' hi'; cbn [fold_left].
    - split_and!; try lia. constructor.
    - specialize (IH (Z.min lo' (b2z c)) (Z.max hi' (b2z c))). pose proof (b2z_range c).
      destruct (fold_left _ _ _) as [lo2 hi2]. destruct IH as (H1 & H2 & H3 & H4 & H5).
      split_and!; try lia. constructor; [lia|done]. }
  specialize (Hl (drop k b) lo hi). destruct (fold_left _ _ _) as [lo' hi'].
  pose proof (zlen_nonneg b). cbn. split_and!; try tauto; lia.
Qed.

Lemma chars_fold k bs st :
  grows st (fold_left (boundary_chars k) bs st) /\ Forall (covered k (fold_left (boundary_chars k) bs st)) bs.
Proof.
  revert st. induction bs as [|b bs IH]; intros st; cbn [fold_left]; [split; [reflexivity|constructor]|].
  destruct (boundary_chars_spec k st b) as [H1 H2]. destruct (IH (boundary_chars k st b)) as [H3 H4].
  split; [by etrans|]. constructor; [by eapply covered_grows|done].
Qed.

Lemma hist_chars_spec k hs bss st :
  Forall2 hist_ok hs bss ->
  exists st', hist_chars k hs st = Ok st' /\ grows st st' /\ Forall (covered k st') (concat bss).
Proof.
  intros Hf. revert st. induction Hf as [|h bs hs bss Hh _ IH]; intros st.
  { exists st. split; [done|]. split; [reflexivity|constructor]. }
  destruct (hist_boundaries h bs Hh) as (_ & _ & _ & _ & _ & _ & Es & _).
  cbn [hist_chars]. rewrite Es. cbn [mbind result_bind].
  destruct (chars_fold k bs st) as [H1 H2]. destruct (IH (fold_left (boundary_chars k) bs st)) as (st' & E & H3 & H4).
  exists st'. split; [done|]. split; [by etrans|]. cbn [concat]. apply Forall_app. split; [|done].
  eapply Forall_impl; [exact H2|]. intros b. by apply covered_grows.
Qed.

Lemma fit_axis_spec hs bss mn mx :
  Forall2 hist_ok hs bss -> mn ∈ concat bss -> mx ∈ concat bss -> ble mn mx ->
  exists lo hi sh, fit_axis hs mn mx = Ok (Fit mn mx lo hi sh) /\ 0 <= sh /\ fit_pre mn mx lo hi /\
    forall b, b ∈ concat bss -> uses_chars mn mx lo hi b.
Proof.
  intros Hf Hmn Hmx Hle. unfold fit_axis. set (k := CommonPrefixLength mn mx).
  destruct (hist_chars_spec k hs bss (255, 0, UINT64_MAX) Hf) as ([[lo hi] sh] & -> & Hg & Hall).
  cbn [mbind result_bind]. cbn [grows] in Hg. unfold UINT64_MAX in Hg. rewrite Forall_forall in Hall.
  destruct (Z.ltb_spec hi lo) as [Hlt|Hge].
  - assert (forall b, b ∈ concat bss -> drop k b = []) as Hnil.
    { intros b Hb. specialize (Hall b Hb). cbn [covered] in Hall. destruct (drop k b) as [|c l]; [done|].
      apply Forall_cons in Hall as [Hc _]. lia. }
    exists 0, 0, sh. split; [done|]. split; [lia|]. split.
    + split; [lia|done|fold k; rewrite (Hnil mn Hmn); constructor|fold k; rewrite (Hnil mx Hmx); constructor].
    + intros b Hb. unfold uses_chars. fold k. rewrite (Hnil b Hb). constructor.
  - exists lo, hi, sh. split; [done|]. split; [lia|]. split.
    + split; [lia|done|by apply (Hall mn)|by apply (Hall mx)].
    + intros b Hb. by apply (Hall b).
Qed.

(** ** Projection onto the grid *)

(** The cell number of a coordinate fits [size_t]: [s <= span] over cells of
    width [span / n] is at most [2^33]. *)
Lemma cell_number s span n :
  0 <= s <= span -> 0 < span < 2 ^ 64 -> 1 <= n < 2 ^ 32 ->
  exists i, f64_to_Z (2 ^ 64) (f64_div (f64_of_Z s) (f64_div (f64_of_Z span) (f64_of_Z n))) = Ok i /\ 0 <= i.
Proof.
  intros Hs Hspan Hn. set (j := Z.log2 span).
  assert (0 <= j <= 63) as Hj by (split; [apply Z.log2_nonneg|apply Z.lt_succ_r, Z.log2_lt_pow2; lia]).
  destruct (Z.log2_spec span ltac:(lia)) as [Hj1 Hj2]. fold j in Hj1, Hj2.
  destruct (of_Z_pow2 span j (j + 1) ltac:(lia) ltac:(lia)) as [Nsp [Vsp1 Vsp2]];
    [replace (j + 1) with (Z.succ j) by lia; lia|].
  destruct (of_Z_pow2 n 0 32 ltac:(lia) ltac:(lia) ltac:(lia)) as [Nn [Vn1 Vn2]].
  pose proof (pw_pos 0 ltac:(lia)) as P0. pose proof (pw_pos j ltac:(lia)) as Pj.
  assert (nnf (f64_of_Z s) /\ fval (f64_of_Z s) <= pw (j + 1)) as [Ns Vs].
  { split; [|etrans; [apply (of_Z_mono s span)|exact Vsp2]; lia].
    destruct (decide (s = 0)) as [->|]; [done|]. by destruct (of_Z_pow2 s 0 64 ltac:(lia) ltac:(lia) ltac:(lia)). }
  pose proof (div_rounds _ _ Nsp Nn ltac:(lia)) as Rw. set (w := f64_div (f64_of_Z span) (f64_of_Z n)) in *.
  destruct (pow2_canon (j + 1) ltac:(lia)) as (m1 & C1 & E1).
  destruct (rounds_bounded _ _ _ m1 _ Rw C1) as [Nw _]; [rewrite E1; nia|].
  destruct (pow2_canon (j - 32) ltac:(lia)) as (m2 & C2 & E2).
  pose proof (rounds_above _ _ _ m2 _ Rw Nw C2) as Vw. rewrite E2 in Vw.
  pose proof (pw_pos (j - 32) ltac:(lia)) as Pw.
  assert (pw (j - 32) <= fval w) as Vw'.
  { apply Vw. pose proof (pw_mul 32 (j - 32) ltac:(lia) ltac:(lia) ltac:(lia)) as Em.
    replace (32 + (j - 32)) with j in Em by lia. nia. }
  pose proof (div_rounds _ _ Ns Nw ltac:(lia)) as Rq.
  destruct (pow2_canon 33 ltac:(lia)) as (m3 & C3 & E3).
  destruct (rounds_bounded _ _ _ m3 _ Rq C3) as [Nq Vq].
  { rewrite E3. pose proof (pw_mul (j - 32) 33 ltac:(lia) ltac:(lia) ltac:(lia)) as Em.
    replace (j - 32 + 33) with (j + 1) in Em by lia. pose proof (pw_pos 33 ltac:(lia)). nia. }
  rewrite E3 in Vq. replace (pw 33) with (fv (2 ^ 33) 0) in Vq by (unfold fv; rewrite <- pw_add by lia; done).
  destruct (to_Z_le (2 ^ 64) _ _ Nq Vq ltac:(lia)) as (k & Ek & Hk). exists k. split; [exact Ek|lia].
Qed.

Lemma grid_get (cells : list spec_float) c : 0 <= c < zlen cells -> exists x, zget cells c = Ok x.
Proof.
  intros Hc. destruct (lookup_lt_is_Some_2 cells (Z.to_nat c)) as [x Hx]; [unfold zlen in Hc; lia|].
  exists x. apply zget_lookup. by split; [lia|].
Qed.
Lemma grid_set (cells : list spec_float) c x :
  0 <= c < zlen cells -> exists cells', zset cells c x = Ok cells' /\ zlen cells' = zlen cells.
Proof.
  intros Hc. eexists. split; [apply zset_okZ; unfold zlen in Hc; lia|]. unfold zlen. by rewrite length_insert.
Qed.

Lemma project_cells_ok count w s e c n cells :
  0 <= c -> c + Z.of_nat n <= zlen cells ->
  exists cells', project_cells count w s e c n cells = Ok cells' /\ zlen cells' = zlen cells.
Proof.
  revert c cells. induction n as [|n IH]; intros c cells Hc Hn; [by eexists|]. cbn [project_cells].
  destruct (SFltb _ _); cbn [mbind result_bind].
  - destruct (grid_get cells c ltac:(lia)) as [x ->]. cbn [mbind result_bind].
    match goal with |- context [zset cells c ?y] => destruct (grid_set cells c y ltac:(lia)) as (cells1 & -> & Hl) end.
    cbn [mbind result_bind]. destruct (IH (c + 1) cells1 ltac:(lia) ltac:(lia)) as (cells' & E & Hl').
    exists cells'. split; [done|lia].
  - apply IH; lia.
Qed.

Section Project.
Context (mn mx : bytes) (lo hi sh : Z).
Context (Hpre : fit_pre mn mx lo hi) (Hsh : 0 <= sh).
Abbreviation ax := (Fit mn mx lo hi sh).

Lemma project_bin_ok cnt b0 b1 cells :
  inside mn mx lo hi b0 -> inside mn mx lo hi b1 -> 1 <= zlen cells < 2 ^ 32 -> ax_span ax <> 0 ->
  exists cells', project_bin ax (f64_div (f64_of_Z (ax_span ax)) (f64_of_Z (zlen cells))) cnt b0 b1 cells = Ok cells' /\
    zlen cells' = zlen cells.
Proof.
  intros H0 H1 Hn Hs0. unfold project_bin. destruct (SFeqb _ _); [by eexists|].
  destruct (Rel_inside _ _ _ _ sh Hpre _ H0) as [_ R0]. destruct (Rel_inside _ _ _ _ sh Hpre _ H1) as [_ R1].
  pose proof (proj2 (Fit_span _ _ _ _ sh Hpre)) as Hspan.
  destruct (cell_number (Rel ax b0) (ax_span ax) (zlen cells) R0 ltac:(lia) Hn) as (i0 & -> & Hi0).
  destruct (cell_number (Rel ax b1) (ax_span ax) (zlen cells) R1 ltac:(lia) Hn) as (i1 & -> & Hi1).
  cbn [mbind result_bind]. destruct (SFleb _ _).
  - destruct (grid_get cells (Z.min i0 (zlen cells - 1)) ltac:(lia)) as [x ->]. cbn [mbind result_bind].
    apply grid_set. lia.
  - apply project_cells_ok; lia.
Qed.

Lemma project_bins_ok h bs n b cells :
  hist_ok h bs -> Forall (inside mn mx lo hi) bs -> 1 <= zlen cells < 2 ^ 32 -> ax_span ax <> 0 ->
  (n + b < length bs)%nat ->
  exists cells', project_bins ax (f64_div (f64_of_Z (ax_span ax)) (f64_of_Z (zlen cells))) h (Z.of_nat b) n cells = Ok cells' /\
    zlen cells' = zlen cells.
Proof.
  intros Hh Hin Hc Hs0. destruct (hist_boundaries h bs Hh) as (_ & _ & _ & _ & _ & _ & _ & _ & Hget).
  destruct Hh as (_ & _ & Hlen & _ & _).
  revert b cells Hc. induction n as [|n IH]; intros b cells Hc Hn; [by eexists|]. cbn [project_bins].
  destruct (lookup_lt_is_Some_2 (h_counts h) b) as [c Hcnt]; [unfold zlen in Hlen; lia|].
  destruct (lookup_lt_is_Some_2 bs b) as [b0 H0]; [lia|].
  destruct (lookup_lt_is_Some_2 bs (S b)) as [b1 H1]; [lia|].
  replace (Z.of_nat b + 1) with (Z.of_nat (S b)) by lia.
  rewrite (zget_nat _ _ _ Hcnt), (Hget _ _ H0), (Hget _ _ H1). cbn [mbind result_bind].
  rewrite Forall_forall in Hin.
  destruct (project_bin_ok c b0 b1 cells) as (cells1 & -> & Hl); try done;
    [by apply Hin, (list_elem_of_lookup_2 _ _ _ H0)|by apply Hin, (list_elem_of_lookup_2 _ _ _ H1)|].
  cbn [mbind result_bind]. rewrite <- Hl. destruct (IH (S b) cells1 ltac:(lia) ltac:(lia)) as (cells' & E & Hl').
  exists cells'. split; [exact E|lia].
Qed.

Lemma ProjectHistogram_ok h bs cells :
  hist_ok h bs -> Forall (inside mn mx lo hi) bs -> 1 <= zlen cells < 2 ^ 32 ->
  exists cells', ProjectHistogram h ax cells = Ok cells' /\ zlen cells' = zlen cells.
Proof.
  intros Hh Hin Hc. unfold ProjectHistogram. destruct (Z.eqb_spec (ax_span ax) 0) as [E|E].
  - destruct (grid_get cells 0 ltac:(lia)) as [x ->]. cbn [mbind result_bind]. apply grid_set. lia.
  - destruct (hist_boundaries h bs Hh) as (_ & _ & _ & _ & _ & _ & _ & -> & _).
    apply (project_bins_ok h bs _ 0 cells); try done. destruct Hh as (_ & _ & Hl & H1 & _). unfold zlen in *. lia.
Qed.

Lemma project_all_ok hs bss cells :
  Forall2 hist_ok hs bss -> Forall (Forall (inside mn mx lo hi)) bss -> 1 <= zlen cells < 2 ^ 32 ->
  exists cells', project_all hs ax cells = Ok cells' /\ zlen cells' = zlen cells.
Proof.
  intros Hf. revert cells. induction Hf as [|h bs hs bss Hh _ IH]; intros cells Hin Hc; [by eexists|].
  apply Forall_cons in Hin as [Hb Hin]. cbn [project_all].
  destruct (ProjectHistogram_ok h bs cells Hh Hb Hc) as (cells1 & -> & Hl). cbn [mbind result_bind].
  destruct (IH cells1 Hin ltac:(lia)) as (cells' & E & Hl'). exists cells'. split; [done|lia].
Qed.
End Project.

Lemma prefix_sums_length cells acc : length (fst (prefix_sums cells acc)) = length cells.
Proof.
  revert acc. induction cells as [|c cells IH]; intros acc; [done|]. cbn [prefix_sums].
  specialize (IH (f64_add acc c)). destruct (prefix_sums _ _) as [ps total]. cbn in *. by rewrite IH.
Qed.

Lemma range_stats_spec grid hs bss :
  Forall2 hist_ok hs bss -> 1 <= grid < 2 ^ 32 ->
  (hs = [] /\ range_stats grid hs = Ok None) \/
  exists g, range_stats grid hs = Ok (Some g) /\ range_ok g /\
    gr_min g ∈ concat bss /\ gr_max g ∈ concat bss /\
    forall b, b ∈ concat bss -> ble (gr_min g) b /\ ble b (gr_max g).
Proof.
  intros Hf Hgrid. destruct (decide (hs = [])) as [->|Hne]; [by left|right].
  assert (range_stats grid hs =
      '(mn, mx, ndv) ← hist_bounds hs true [] [] 0;
      ax ← fit_axis hs mn mx;
      bins ← mapM (sst_bin ax) hs;
      cells ← project_all hs ax (replicate (Z.to_nat grid) f64_zero);
      let '(psum, total) := prefix_sums cells f64_zero in
      Ok (Some (mkGlobalRangeStats ax mn mx psum total ndv bins))) as -> by by destruct hs.
  destruct (hist_bounds_spec hs bss true [] [] 0 Hf) as (mn & mx & ndv & -> & Hall & _ & Hmn & Hmx).
  cbn [mbind result_bind].
  assert (mn ∈ concat bss) as Imn by (destruct Hmn as [?|[_ Hx]]; [done|by specialize (Hx eq_refl)]).
  assert (mx ∈ concat bss) as Imx by (destruct Hmx as [?|[_ Hx]]; [done|by specialize (Hx eq_refl)]).
  destruct (fit_axis_spec hs bss mn mx Hf Imn Imx (proj2 (Hall mn Imn))) as (lo & hi & sh & -> & Hsh & Hpre & Huse).
  cbn [mbind result_bind].
  assert (exists bins, mapM (sst_bin (Fit mn mx lo hi sh)) hs = Ok bins) as [bins ->].
  { clear -Hf. induction Hf as [|h bs hs bss Hh _ [bins IH]]; [by eexists|]. cbn [mapM].
    destruct (hist_boundaries h bs Hh) as (b0 & b1 & _ & _ & E0 & E1 & _).
    assert (exists x, sst_bin (Fit mn mx lo hi sh) h = Ok x) as [x ->] by (unfold sst_bin; rewrite E0, E1; by eexists).
    cbn [mbind result_bind]. rewrite IH. by eexists. }
  cbn [mbind result_bind].
  destruct (project_all_ok mn mx lo hi sh Hpre hs bss (replicate (Z.to_nat grid) f64_zero) Hf) as (cells & -> & Hl).
  { apply Forall_forall. intros bs Hbs. apply Forall_forall. intros b Hb.
    assert (b ∈ concat bss) as Hin by (apply list_elem_of_concat; eauto).
    destruct (Hall b Hin). split_and!; [done|done|by apply Huse]. }
  { rewrite zlen_replicate. lia. }
  cbn [mbind result_bind]. pose proof (prefix_sums_length cells f64_zero) as Hp.
  destruct (prefix_sums cells f64_zero) as [psum total]. cbn [fst] in Hp. eexists. split; [done|].
  split; [|done]. split; cbn.
  - by exists lo, hi, sh.
  - rewrite zlen_replicate in Hl. unfold zlen in *. lia.
Qed.

(** ** Row counts *)
Definition live_rows (rows : list sst_row) : Z := zlen (filter (fun r => is_Some r) rows).

Lemma tombstones_counted rows (P : Z -> Prop) `{!forall x, Decision (P x)} :
  (forall x, 0 <= x < zlen rows -> P x <-> rows !! Z.to_nat x = Some None) ->
  zlen (filter P (seqZ 0 (zlen rows))) = zlen rows - live_rows rows.
Proof.
  unfold live_rows. induction rows as [|row rows IH] using rev_ind; intros HP; [done|].
  rewrite zlen_snoc. pose proof (zlen_nonneg rows).
  replace (seqZ 0 (zlen rows + 1)) with (seqZ 0 (zlen rows) ++ [zlen rows]).
  2:{ rewrite seqZ_app by lia. by rewrite Z.add_0_l. }
  rewrite !filter_app, !zlen_app, IH.
  2:{ intros x Hx. rewrite (HP x) by (rewrite zlen_snoc; lia). rewrite lookup_app_l; [done|]. unfold zlen in Hx. lia. }
  specialize (HP (zlen rows) ltac:(rewrite zlen_snoc; lia)). unfold zlen in HP at 2.
  rewrite Nat2Z.id, list_lookup_middle in HP by done.
  rewrite filter_cons, filter_nil, (filter_cons _ row), filter_nil. destruct row as [enc|].
  - rewrite decide_False by (rewrite HP; done). rewrite decide_True by done. rewrite !zlen_cons. zlen0. lia.
  - rewrite decide_True by (by rewrite HP). rewrite decide_False by (intros [? ?]; done). rewrite !zlen_cons. zlen0. lia.
Qed.

Lemma tombstone_cardinality `{RoaringOps} `{!RoaringLaws _} schema evs rows r :
  reads_table schema evs rows r -> TombstoneCardinality r = Ok (zlen rows - live_rows rows).
Proof.
  intros Hrt. destruct (rt_metadata _ _ _ _ Hrt) as (bi & Hix & Hn & _ & Hcards).
  unfold TombstoneCardinality, BinCardinality. rewrite (rt_bins _ _ _ _ Hrt), Hn, <- (io_bitmaps _ _ _ Hix).
  unfold zlen at 1. apply zget_nat. rewrite (Hcards _ (tombstone_bitmap bi)) by by apply list_lookup_middle.
  f_equal. unfold rows_in. apply tombstones_counted. intros x Hx. rewrite (io_tombstones _ _ _ Hix). intuition lia.
Qed.

(** ** The harvest *)
Lemma add_value_keys v c l x : x ∈ map fst (add_value v c l) <-> x = v \/ x ∈ map fst l.
Proof.
  induction l as [|[y d] l IH]; cbn [add_value map fst]; [by rewrite list_elem_of_singleton, elem_of_nil; tauto|].
  destruct (beqb y v) eqn:E; cbn [map fst]; rewrite !elem_of_cons; [|rewrite IH; tauto].
  apply beqb_eq in E as ->. tauto.
Qed.
Lemma add_values_keys cs l acc x :
  x ∈ map fst (fst (add_values cs l acc)) <-> x ∈ map fst cs \/ x ∈ map fst l.
Proof.
  revert l acc. induction cs as [|[v c] cs IH]; intros l acc; cbn [add_values map fst].
  - rewrite elem_of_nil. tauto.
  - rewrite IH, add_value_keys, elem_of_cons. tauto.
Qed.

Section Harvest.
Context `{RoaringOps} `{!RoaringLaws _} `{NthElement} `{!NthElementLaws _}.
Context (schema : SABISchema) (open_table : est_file -> table_found) (table_rows : est_file -> list sst_row).
Abbreviation types := (index_types schema).

(** An open index is the index of the file's rows. *)
Definition file_ok (f : est_file) : Prop :=
  forall r, open_table f = TableIndexed r -> exists evs, reads_table schema evs (table_rows f) r /\
    zlen (table_rows f) < 2 ^ 32 /\ default 0 (last (data_entries_cnt_psum r)) = zlen (table_rows f).
Definition indexed (f : est_file) : Prop := exists r, open_table f = TableIndexed r.

(** What a file adds to the row and file counts. *)
Definition file_live (f : est_file) : Z :=
  match open_table f with
  | TableUnreadable => 0
  | TableNoIndex => ef_num_entries f - ef_num_deletions f
  | TableIndexed _ => live_rows (table_rows f)
  end.
Definition file_count (f : est_file) : Z := match open_table f with TableUnreadable => 0 | _ => 1 end.

(** What an attribute's harvest accounts for. *)
Definition acc_ok (i : nat) (t : IndexType) (acc : attr_acc) (fs : list est_file) : Prop :=
  match t with
  | kRange => exists bss, Forall2 hist_ok (aa_hists acc) bss /\
      forall f v, f ∈ fs -> indexed f -> v ∈ column i (table_rows f) -> exists bs, bs ∈ bss /\ spans bs v
  | kEquality => forall f v, f ∈ fs -> indexed f -> v ∈ column i (table_rows f) -> v ∈ map fst (aa_values acc)
  end.
Record harvest_ok (h : harvest) (fs : list est_file) : Prop := {
  ho_rows : hv_rows h = u64 (zsum (map file_live fs));
  ho_files : hv_files h = u64 (zsum (map file_count fs));
  ho_length : length (hv_accs h) = length types;
  ho_accs i t acc : types !! i = Some t -> hv_accs h !! i = Some acc -> acc_ok i t acc fs;
}.

Lemma harvest_attr_ok f evs r i t acc fs :
  open_table f = TableIndexed r -> reads_table schema evs (table_rows f) r -> zlen (table_rows f) < 2 ^ 32 ->
  types !! i = Some t -> acc_ok i t acc fs ->
  exists acc', harvest_attr r t (Z.of_nat i) acc = Ok acc' /\ acc_ok i t acc' (fs ++ [f]).
Proof.
  intros Ho Hrt Hlt Ht Hacc. unfold harvest_attr. destruct t; cbn [acc_ok] in *.
  - destruct (EqualityValueCounts_spec schema evs (table_rows f) r Hrt Hlt i Ht) as [[-> Hnil]|(cs & -> & Hcs)];
      cbn [mbind result_bind].
    { exists acc. split; [done|]. intros f' v [Hf'|Hf'%list_elem_of_singleton]%elem_of_app Hix Hv; [by apply (Hacc f')|].
      subst f'. rewrite Hnil in Hv. by apply not_elem_of_nil in Hv. }
    pose proof (add_values_keys cs (aa_values acc) f64_zero) as Hk.
    destruct (add_values cs (aa_values acc) f64_zero) as [vals tot]. cbn [fst] in Hk.
    assert (exists bm, (if Z.of_nat i <? zlen (bitmap_nums (rd_index r)) then
        n ← zget (bitmap_nums (rd_index r)) (Z.of_nat i);
        Ok (if 0 <? n then f64_add (aa_binmass acc) (f64_div tot (f64_of_Z n)) else aa_binmass acc)
      else Ok (aa_binmass acc)) = Ok bm) as [bm ->].
    { destruct (Z.ltb_spec (Z.of_nat i) (zlen (bitmap_nums (rd_index r)))) as [Hi|]; [|by eexists].
      destruct (lookup_lt_is_Some_2 (bitmap_nums (rd_index r)) i) as [n Hn]; [unfold zlen in Hi; lia|].
      rewrite (zget_nat _ _ _ Hn). by eexists. }
    cbn [mbind result_bind]. eexists. split; [done|]. cbn [aa_values].
    intros f' v [Hf'|Hf'%list_elem_of_singleton]%elem_of_app Hix Hv; apply Hk; [right; by apply (Hacc f')|left].
    subst f'. by apply Hcs.
  - destruct Hacc as (bss & Hf2 & Hcov).
    destruct (RangeHistogram_spec schema evs (table_rows f) r Hrt Hlt i Ht) as [[-> Hnil]|(h & bs & -> & Hh & Hspan)];
      cbn [mbind result_bind]; eexists; (split; [done|]).
    + exists bss. split; [done|]. intros f' v [Hf'|Hf'%list_elem_of_singleton]%elem_of_app Hix Hv; [by apply (Hcov f')|].
      subst f'. rewrite Hnil in Hv. by apply not_elem_of_nil in Hv.
    + exists (bss ++ [bs]). cbn [aa_hists]. split; [apply Forall2_app; [done|by constructor]|].
      intros f' v [Hf'|Hf'%list_elem_of_singleton]%elem_of_app Hix Hv.
      * destruct (Hcov f' v Hf' Hix Hv) as (bs' & Hb & Hs). exists bs'. split; [set_solver|done].
      * subst f'. exists bs. split; [set_solver|by apply Hspan].
Qed.

Lemma harvest_attrs_ok f evs r fs ts k accs :
  open_table f = TableIndexed r -> reads_table schema evs (table_rows f) r -> zlen (table_rows f) < 2 ^ 32 ->
  length accs = length ts -> (forall i t, ts !! i = Some t -> types !! (k + i)%nat = Some t) ->
  (forall i t acc, ts !! i = Some t -> accs !! i = Some acc -> acc_ok (k + i) t acc fs) ->
  exists accs', harvest_attrs r ts (Z.of_nat k) accs = Ok accs' /\ length accs' = length ts /\
    forall i t acc, ts !! i = Some t -> accs' !! i = Some acc -> acc_ok (k + i) t acc (fs ++ [f]).
Proof.
  intros Ho Hrt Hlt. revert k accs. induction ts as [|t ts IH]; intros k [|acc accs] Hl Hty Hacc; try done.
  { by eexists. }
  cbn [harvest_attrs]. specialize (Hty 0%nat t eq_refl) as Ht0. rewrite Nat.add_0_r in Ht0.
  specialize (Hacc 0%nat t acc eq_refl eq_refl) as Ha0. rewrite Nat.add_0_r in Ha0.
  destruct (harvest_attr_ok f evs r k t acc fs Ho Hrt Hlt Ht0 Ha0) as (acc' & -> & Ha'). cbn [mbind result_bind].
  replace (Z.of_nat k + 1) with (Z.of_nat (S k)) by lia.
  destruct (IH (S k) accs) as (accs' & -> & Hl' & Ha2).
  { by injection Hl. }
  { intros i t' Ht'. replace (S k + i)%nat with (k + S i)%nat by lia. by apply Hty. }
  { intros i t' a Ht' Hai. replace (S k + i)%nat with (k + S i)%nat by lia. by apply Hacc. }
  cbn [mbind result_bind]. eexists. split; [done|]. split; [cbn; by rewrite Hl'|].
  intros [|i] t' a Ht' Hai.
  - injection Ht' as <-. injection Hai as <-. by rewrite Nat.add_0_r.
  - replace (k + S i)%nat with (S k + i)%nat by lia. by apply Ha2.
Qed.

Lemma u64_add a b : u64 (u64 a + b) = u64 (a + b).
Proof. unfold u64. by rewrite Z.add_mod_idemp_l by lia. Qed.
Lemma u64_add_r a b : u64 (a + u64 b) = u64 (a + b).
Proof. unfold u64. by rewrite Z.add_mod_idemp_r by lia. Qed.

Lemma acc_ok_skip i t acc fs f : ~ indexed f -> acc_ok i t acc fs -> acc_ok i t acc (fs ++ [f]).
Proof.
  intros Hn. destruct t; cbn [acc_ok].
  - intros Ha f' v [Hf'|Hf'%list_elem_of_singleton]%elem_of_app Hix Hv; [by apply (Ha f')|by subst].
  - intros (bss & H1 & H2). exists bss. split; [done|].
    intros f' v [Hf'|Hf'%list_elem_of_singleton]%elem_of_app Hix Hv; [by apply (H2 f')|by subst].
Qed.

Lemma zsum_snoc {A} (g : A -> Z) l x : zsum (map g (l ++ [x])) = zsum (map g l) + g x.
Proof. rewrite map_app, zsum_app. unfold zsum at 2. cbn. lia. Qed.

Lemma harvest_file_ok f h fs :
  file_ok f -> harvest_ok h fs ->
  exists h', harvest_file open_table types f h = Ok h' /\ harvest_ok h' (fs ++ [f]).
Proof.
  intros Hf [H1 H2 H3 H4]. unfold harvest_file.
  assert (file_live f = match open_table f with TableUnreadable => 0
    | TableNoIndex => ef_num_entries f - ef_num_deletions f | TableIndexed _ => live_rows (table_rows f) end) as Hlive by done.
  assert (file_count f = match open_table f with TableUnreadable => 0 | _ => 1 end) as Hcount by done.
  destruct (open_table f) as [| |r] eqn:Eo.
  - exists h. split; [done|]. split; [| |done|].
    + by rewrite zsum_snoc, Hlive, Z.add_0_r.
    + by rewrite zsum_snoc, Hcount, Z.add_0_r.
    + intros i t acc Ht Ha. apply acc_ok_skip; [intros [r Hr]; congruence|eauto].
  - eexists. split; [done|]. split; cbn [hv_rows hv_files hv_accs]; [| |done|].
    + by rewrite zsum_snoc, Hlive, u64_add_r, H1, u64_add.
    + by rewrite zsum_snoc, Hcount, H2, u64_add.
    + intros i t acc Ht Ha. apply acc_ok_skip; [intros [r Hr]; congruence|eauto].
  - destruct (Hf r Eo) as (evs & Hrt & Hlt & Hcnt).
    rewrite (tombstone_cardinality schema evs (table_rows f) r Hrt).
    assert ((match last (data_entries_cnt_psum r) with
      | Some n => t ← Ok (zlen (table_rows f) - live_rows (table_rows f)); Ok (u64 (hv_rows h + u64 (n - t)))
      | None => Ok (hv_rows h) end) = Ok (u64 (zsum (map file_live (fs ++ [f]))))) as ->.
    { rewrite zsum_snoc, Hlive. destruct (last _) as [n|] eqn:El; cbn [default] in Hcnt; cbn [mbind result_bind].
      - f_equal. rewrite u64_add_r, H1, u64_add. f_equal. cbn in Hcnt. lia.
      - symmetry in Hcnt. apply zlen_0_inv in Hcnt. rewrite Hcnt. f_equal. rewrite H1. f_equal. change (live_rows []) with 0. lia. }
    cbn [mbind result_bind].
    destruct (harvest_attrs_ok f evs r fs types 0 (hv_accs h) Eo Hrt Hlt H3) as (accs' & Ea & Hl' & Ha'); [done|exact H4|].
    change (Z.of_nat 0) with 0 in Ea. rewrite Ea. cbn [mbind result_bind]. eexists. split; [done|]. split; cbn [hv_rows hv_files hv_accs]; [done| |done|exact Ha'].
    by rewrite zsum_snoc, Hcount, H2, u64_add.
Qed.

Lemma harvest_files_ok fs h done_fs :
  Forall file_ok fs -> harvest_ok h done_fs ->
  exists h', harvest_files open_table types fs h = Ok h' /\ harvest_ok h' (done_fs ++ fs).
Proof.
  intros Hf. revert h done_fs. induction Hf as [|f fs Hf _ IH]; intros h done_fs Hh.
  { exists h. by rewrite app_nil_r. }
  cbn [harvest_files]. destruct (harvest_file_ok f h done_fs Hf Hh) as (h1 & -> & Hh1). cbn [mbind result_bind].
  destruct (IH h1 _ Hh1) as (h' & E & Hh'). exists h'. split; [done|]. by rewrite <- app_assoc in Hh'.
Qed.

(** What the statistics say of the values of an attribute. *)
Definition accounts (i : nat) (t : IndexType) (fs : list est_file) (r : option GlobalRangeStats)
    (e : option GlobalEqualityStats) : Prop :=
  forall f v, f ∈ fs -> indexed f -> v ∈ column i (table_rows f) ->
  match t with
  | kRange => exists g, r = Some g /\ ble (gr_min g) v /\ ble v (gr_max g)
  | kEquality => exists s, e = Some s /\ (ge_truncated s = false -> find_value v (ge_value_counts s) <> None)
  end.

Lemma find_value_elem v l : v ∈ map fst l -> find_value v l <> None.
Proof.
  induction l as [|[x c] l IH]; cbn [map fst find_value]; [by intros ?%not_elem_of_nil|].
  rewrite elem_of_cons. destruct (beqb x v) eqn:E; [done|]. intros [->|Hv]; [|by apply IH].
  assert (beqb x x = true) by by apply beqb_eq. congruence.
Qed.

Lemma attr_stats_one grid i t acc fs :
  acc_ok i t acc fs -> 1 <= grid < 2 ^ 32 ->
  exists r e, (match t with
               | kRange => r ← range_stats grid (aa_hists acc); Ok (r, None)
               | kEquality => Ok (None, equality_stats acc)
               end) = Ok (r, e) /\ (forall g, r = Some g -> range_ok g) /\ accounts i t fs r e.
Proof.
  intros Ha Hg. destruct t; cbn [acc_ok] in Ha.
  - eexists _, _. split; [done|]. split; [done|]. intros f v Hf Hix Hv. specialize (Ha f v Hf Hix Hv).
    unfold equality_stats. destruct (aa_values acc) as [|x vals] eqn:Ev; [by apply not_elem_of_nil in Ha|].
    eexists. split; [done|]. destruct (_ <? _); [done|]. intros _. by apply find_value_elem.
  - destruct Ha as (bss & Hf2 & Hcov).
    destruct (range_stats_spec grid (aa_hists acc) bss Hf2 Hg) as [[Hnil ->]|(g & -> & Hok & _ & _ & Hall)];
      cbn [mbind result_bind]; eexists _, _; (split; [done|]).
    + split; [done|]. intros f v Hf Hix Hv. destruct (Hcov f v Hf Hix Hv) as (bs & Hbs & _).
      rewrite Hnil in Hf2. apply Forall2_nil_inv_l in Hf2. subst. by apply not_elem_of_nil in Hbs.
    + split; [by intros ? [= <-]|]. intros f v Hf Hix Hv. exists g. split; [done|].
      destruct (Hcov f v Hf Hix Hv) as (bs & Hbs & b0 & b1 & Hb0 & Hb1 & L0 & L1).
      assert (b0 ∈ concat bss /\ b1 ∈ concat bss) as [I0 I1].
      { split; apply list_elem_of_concat; exists bs; (split; [|done]).
        - destruct bs as [|x bs]; [done|]. injection Hb0 as ->. by left.
        - apply last_Some in Hb1 as [l' ->]. set_solver. }
      destruct (Hall b0 I0), (Hall b1 I1). split; border.
Qed.

Lemma attr_stats_ok grid fs ts k accs :
  1 <= grid < 2 ^ 32 -> length accs = length ts ->
  (forall i t acc, ts !! i = Some t -> accs !! i = Some acc -> acc_ok (k + i) t acc fs) ->
  exists rs es, attr_stats grid ts accs = Ok (rs, es) /\ length rs = length ts /\ length es = length ts /\
    (forall i g, rs !! i = Some (Some g) -> range_ok g) /\
    (forall i t, ts !! i = Some t -> exists r e, rs !! i = Some r /\ es !! i = Some e /\ accounts (k + i) t fs r e).
Proof.
  intros Hg. revert k accs. induction ts as [|t ts IH]; intros k [|acc accs] Hl Hacc; try done.
  { by exists [], []. }
  cbn [attr_stats]. specialize (Hacc 0%nat t acc eq_refl eq_refl) as Ha0.
  destruct (attr_stats_one grid (k + 0) t acc fs Ha0 Hg) as (r & e & -> & Hok & Hcov). cbn [mbind result_bind].
  destruct (IH (S k) accs) as (rs & es & -> & Hl1 & Hl2 & Hr & Hc).
  { by injection Hl. }
  { intros i t' a Ht' Hai. replace (S k + i)%nat with (k + S i)%nat by lia. by apply Hacc. }
  cbn [mbind result_bind]. eexists _, _. split; [done|]. split; [cbn; by rewrite Hl1|]. split; [cbn; by rewrite Hl2|].
  split.
  - intros [|i] g Hi; [injection Hi as ->; by apply Hok|by eapply Hr].
  - intros [|i] t' Ht'; [injection Ht' as <-; by exists r, e|].
    destruct (Hc i t' Ht') as (r' & e' & H1 & H2 & H3). exists r', e'. split; [done|]. split; [done|].
    by replace (k + S i)%nat with (S k + i)%nat by lia.
Qed.

Lemma Rebuild_ok grid levels :
  Forall file_ok (concat levels) -> 1 <= grid < 2 ^ 32 ->
  exists stats, Rebuild open_table types grid levels = Ok stats /\ stats_ok types stats /\
    gs_physical_rows stats = u64 (zsum (map file_live (concat levels))) /\
    gs_live_sst_count stats = u64 (zsum (map file_count (concat levels))) /\
    forall i t, types !! i = Some t -> exists r e,
      gs_range stats !! i = Some r /\ gs_equality stats !! i = Some e /\ accounts i t (concat levels) r e.
Proof.
  intros Hf Hg. unfold Rebuild.
  destruct (harvest_files_ok (concat levels) (mkHarvest 0 0 (replicate (length types) attr_acc_init)) [] Hf)
    as (h & -> & Hh).
  { split; cbn [hv_rows hv_files hv_accs]; [done|done|by rewrite length_replicate|].
    intros i t acc _ Ha. apply lookup_replicate in Ha as [-> _]. destruct t; cbn.
    - by intros f v Hf'%not_elem_of_nil.
    - exists []. split; [constructor|]. by intros f v Hf'%not_elem_of_nil. }
  rewrite app_nil_l in Hh. cbn [mbind result_bind]. destruct Hh as [H1 H2 H3 H4].
  destruct (attr_stats_ok grid (concat levels) types 0 (hv_accs h) Hg H3 H4) as (rs & es & -> & L1 & L2 & Hr & Hc).
  cbn [mbind result_bind]. eexists. split; [done|].
  cbn [gs_physical_rows gs_live_sst_count gs_range gs_equality]. split_and!; [|done|done|exact Hc].
  split; cbn; [done|done|exact Hr|rewrite H1; apply u64_range|rewrite H2; apply u64_range].
Qed.
End Harvest.

(** (C18) A rebuild accounts for the live files. Whatever files cannot be opened
    or lack an index, [Rebuild] has no undefined behaviour and gives statistics
    in the shape estimates need; the row count is the sum over the readable
    files of their rows that are not tombstones (the metadata's count for a
    file without index), the file count the number of readable files. Every
    value of a range attribute in an indexed file lies within the attribute's
    bounds; every value of an equality attribute is in the dictionary unless it
    was truncated, so a value absent from an exact dictionary occurs in no
    indexed file, and an attribute without statistics has no values. *)
Theorem rebuild_correct `{RoaringOps} `{!RoaringLaws _} `{NthElement} `{!NthElementLaws _}
    schema open_table table_rows grid levels :
  Forall (file_ok schema open_table table_rows) (concat levels) -> 1 <= grid < 2 ^ 32 ->
  exists stats, Rebuild open_table (index_types schema) grid levels = Ok stats /\
    stats_ok (index_types schema) stats /\
    gs_physical_rows stats = u64 (zsum (map (file_live open_table table_rows) (concat levels))) /\
    gs_live_sst_count stats = u64 (zsum (map (file_count open_table) (concat levels))) /\
    forall i t, index_types schema !! i = Some t -> exists r e,
      gs_range stats !! i = Some r /\ gs_equality stats !! i = Some e /\
      accounts open_table table_rows i t (concat levels) r e.
Proof. apply Rebuild_ok. Qed.

(** The table of [Demo] beside a file without index and an unreadable one. *)
Definition demo_open (r : SABIReader) (f : est_file) : table_found :=
  if ef_number f =? 1 then TableIndexed r else if ef_number f =? 2 then TableNoIndex else TableUnreadable.
Definition demo_levels : list (list est_file) := [[mkEstFile 1 4 1; mkEstFile 2 10 4]; [mkEstFile 3 7 0]].

Lemma demo_file_ok r :
  reads_table Demo.schema Demo.events Demo.rows r ->
  Forall (file_ok Demo.schema (demo_open r) (fun _ => Demo.rows)) (concat demo_levels).
Proof.
  intros Hrt. apply Forall_forall. intros f _ r' Hr'. unfold demo_open in Hr'.
  destruct (ef_number f =? 1); [|by destruct (ef_number f =? 2)]. injection Hr' as <-.
  exists Demo.events. split; [done|]. split; [by vm_compute|].
  rewrite (proj1 (rt_blocks _ _ _ _ Hrt)). by vm_compute.
Qed.

Lemma rebuild_correct_witness : exists r stats,
  Rebuild (demo_open r) (index_types Demo.schema) 64 demo_levels = Ok stats /\
  gs_physical_rows stats = 6 + live_rows Demo.rows /\ gs_live_sst_count stats = 2.
Proof.
  destruct Demo.reader as (r & _ & Hrt). exists r.
  destruct (rebuild_correct Demo.schema (demo_open r) (fun _ => Demo.rows) 64 demo_levels (demo_file_ok r Hrt))
    as (stats & E & _ & Hrows & Hfiles & _); [lia|].
  exists stats. split; [done|]. split; [rewrite Hrows; by vm_compute|rewrite Hfiles; by vm_compute].
Defined.

(** The header says that for numeric okeys the window is the okey scaled by a
    power of two. A rebuild fits the radix to the bytes its boundaries use: on
    the boundaries 0, 16 and 256 no scaling at all relates the coordinates of
    16 and 256. *)
Definition okey_of (x : Z) : bytes := OkeyToBytes (I64ToOkey x).
Definition sparse_hist : RangeAttrHistogram :=
  mkRangeAttrHistogram (push_back (push_back (push_back bl_empty (okey_of 0)) (okey_of 16)) (okey_of 256)) [10; 10] 20.
Lemma okey_axis_not_scaled : exists ax, fit_axis [sparse_hist] (okey_of 0) (okey_of 256) = Ok ax /\
  ~ exists c, Rel ax (okey_of 16) = 16 * c /\ Rel ax (okey_of 256) = 256 * c.
Proof.
  eexists. split; [vm_compute; reflexivity|]. intros (c & H1 & H2).
  match type of H2 with Rel ?ax _ = _ =>
    assert (Rel ax (okey_of 256) <> 16 * Rel ax (okey_of 16)) by (vm_compute; discriminate) end. lia.
Qed.
