(* ===== verification/Refresh.v ===== *)
(** * Keeping the statistics fresh

    Models the part of [CardinalityEstimator] that decides when to rebuild
    ([Reconcile] of [bit_lsm_estimator.cpp]); [Worker] holds the thread that
    calls it. *)
From Stdlib Require Import ZArith Lia Floats.SpecFloat.
From stdpp Require Import base numbers list gmap.
From S2P Require Import Prelude Floats FloatOrder Options Binning Estimator.

(** ** Reconcile *)
Section Reconcile.
Context {Stats : Type}.

Record est_built := mkEstBuilt {
  built_files_ : gmap Z Z;  (** file number to entries *)
  built_entries_ : Z;
  cached_ : Stats;
}.

(** [live.emplace]: the first entry of a number stays. *)
Definition emplace (m : gmap Z Z) (f : est_file) : gmap Z Z :=
  match m !! ef_number f with Some _ => m | None => <[ef_number f := ef_num_entries f]> m end.
Definition live_files (fs : list est_file) : gmap Z Z := fold_left emplace fs ∅.
Definition live_entries (fs : list est_file) : Z := fold_left (fun acc f => u64 (acc + ef_num_entries f)) fs 0.

(** The entries of the files of [a] that [b] lacks. *)
Definition entries_outside (a b : gmap Z Z) : Z :=
  zsum (map snd (filter (fun p => b !! fst p = None) (map_to_list a))).
Definition changed_entries (built live : gmap Z Z) : Z :=
  u64 (entries_outside live built + entries_outside built live).

Definition fresh_enough (built_entries changed : Z) : bool :=
  (0 <? built_entries) && SFltb (f64_of_Z changed) (f64_mul kStaleRowFraction (f64_of_Z built_entries)).

Definition Reconcile (rebuild : list (list est_file) -> result Stats) (levels : list (list est_file)) (st : est_built)
    : result est_built :=
  let live := live_files (concat levels) in
  if fresh_enough (built_entries_ st) (changed_entries (built_files_ st) live) then Ok st
  else stats ← rebuild levels; Ok (mkEstBuilt live (live_entries (concat levels)) stats).

(** What readers of the statistics get, and the entries of the memtables of a
    SuperVersion, active and immutable; none without one. *)
Definition Stats_ (st : est_built) : Stats := cached_ st.
Definition MemtableEntries (sv : option (Z * Z)) : Z :=
  match sv with None => 0 | Some (mem, imm) => u64 (mem + imm) end.
End Reconcile.
Arguments est_built : clear implicits.

(** The threshold in whole rows: below a tenth the statistics stay, above it
    they are rebuilt. *)
Lemma stale_fraction : kStaleRowFraction = S754_finite false 7205759403792794 (-56).
Proof. by vm_compute. Qed.
Lemma stale_fraction_val : nnf kStaleRowFraction /\ fval kStaleRowFraction * 2 ^ 56 = 7205759403792794 * pw 0.
Proof.
  rewrite stale_fraction. split; [done|]. cbn [fval]. unfold fv.
  change 0 with (-56 + 56). rewrite pw_add by lia. ring.
Qed.

Lemma fresh_enough_spec built changed :
  0 < built < 2 ^ 50 -> 0 <= changed < 2 ^ 50 ->
  (10 * changed < built -> fresh_enough built changed = true) /\
  (built < 10 * changed -> fresh_enough built changed = false).
Proof.
  intros Hb Hc. unfold fresh_enough. rewrite (proj2 (Z.ltb_lt 0 built)) by lia. cbn [andb].
  destruct stale_fraction_val as [Nk Vk]. destruct (of_Z_exact built ltac:(lia)) as [Nb Vb].
  destruct (of_Z_exact changed ltac:(lia)) as [Nc Vc]. pose proof (mul_rounds _ _ Nk Nb) as Hr.
  pose proof (pw_pos 0 ltac:(lia)) as P0. set (p := f64_mul kStaleRowFraction (f64_of_Z built)) in *.
  assert (fval kStaleRowFraction * fval (f64_of_Z built) * 2 ^ 56 = 7205759403792794 * built * (pw 0 * pw 0)) as HA
    by (rewrite Vb; unfold fv; nia).
  assert (nnf p) as Np.
  { destruct (small_canon built ltac:(lia)) as (m & e & C & E).
    apply (rounds_bounded _ _ _ m e Hr C). rewrite E. unfold fv. nia. }
  assert (SFltb (f64_of_Z changed) p = negb (SFleb p (f64_of_Z changed))) as ->.
  { rewrite (SFleb_cases p) by (by apply nnf_not_nan). by rewrite negb_involutive. }
  split; intros Hlt.
  - (* a sixteenth above [changed] is still below the product *)
    apply negb_true_iff, not_true_iff_false. rewrite nnf_leb by done. apply Z.lt_nge. rewrite Vc.
    destruct (small_canon (16 * changed + 1) ltac:(lia)) as (m & e & C & E).
    assert (canon m (e - 4) /\ fv (Zpos m) (e - 4) * 16 = fv (Zpos m) e) as [C' E'].
    { assert (-60 <= e) as He.
      { apply canon_spec in C as (C1 & C2 & C3). destruct (decide (-60 <= e)) as [|Hn]; [done|exfalso].
        assert (fv (Zpos m) e < fv (2 ^ 53) (-53)) as H1.
        { unfold fv. pose proof (pw_pos e ltac:(lia)). pose proof (pw_mono e (-53) ltac:(lia)). nia. }
        replace (fv (2 ^ 53) (-53)) with (fv 1 0) in H1 by (unfold fv; change 0 with (-53 + 53); rewrite pw_add by lia; ring).
        rewrite E in H1. unfold fv in H1. nia. }
      apply canon_spec in C as (C1 & C2 & C3). split; [apply canon_spec; lia|].
      unfold fv. replace e with (e - 4 + 4) at 2 by lia. rewrite pw_add by lia. ring. }
    apply Z.lt_le_trans with (fv (Zpos m) (e - 4)).
    + assert (fv (16 * changed + 1) 0 = 16 * fv changed 0 + pw 0) by (unfold fv; ring). lia.
    + apply (rounds_above _ _ _ m (e - 4) Hr Np C'). rewrite E in E'. unfold fv in E' at 2.
      set (X := fv (Zpos m) (e - 4)) in *. apply (Z.mul_le_mono_pos_r _ _ (16 * 2 ^ 56)); [lia|].
      replace (pw 0 * X * (16 * 2 ^ 56)) with (2 ^ 56 * (16 * changed + 1) * (pw 0 * pw 0)) by
        (transitivity (2 ^ 56 * pw 0 * (X * 16)); [rewrite E'|]; ring).
      replace (fval kStaleRowFraction * fval (f64_of_Z built) * (16 * 2 ^ 56))
        with (16 * 7205759403792794 * built * (pw 0 * pw 0)) by
        (transitivity (16 * (fval kStaleRowFraction * fval (f64_of_Z built) * 2 ^ 56)); [rewrite HA|]; ring).
      apply Z.mul_le_mono_nonneg_r; [apply Z.mul_nonneg_nonneg|]; lia.
  - apply negb_false_iff. rewrite nnf_leb by done. rewrite Vc.
    destruct (small_canon changed ltac:(lia)) as (m & e & C & E). rewrite <- E.
    apply (rounds_bounded _ _ _ m e Hr C). rewrite E. unfold fv.
    apply (Z.mul_le_mono_pos_r _ _ (2 ^ 56)); [lia|]. rewrite HA.
    replace (pw 0 * (changed * pw 0) * 2 ^ 56) with (2 ^ 56 * changed * (pw 0 * pw 0)) by ring.
    apply Z.mul_le_mono_nonneg_r; [apply Z.mul_nonneg_nonneg|]; lia.
Qed.

(** A sequence of passes, each over the version it finds. *)
Fixpoint run_passes {Stats} (rebuild : list (list est_file) -> result Stats) (vs : list (list (list est_file)))
    (st : est_built Stats) : result (est_built Stats) :=
  match vs with [] => Ok st | v :: rest => st' ← Reconcile rebuild v st; run_passes rebuild rest st' end.

Lemma entries_outside_self m : entries_outside m m = 0.
Proof.
  unfold entries_outside. destruct (filter _ _) as [|[k x] l] eqn:E; [done|exfalso].
  assert ((k, x) ∈ filter (fun p => m !! fst p = None) (map_to_list m)) as Hin by (rewrite E; by left).
  apply list_elem_of_filter in Hin as [Hn Hx%elem_of_map_to_list]. cbn in Hn. congruence.
Qed.
Lemma live_entries_u64 fs : is_u64 (live_entries fs).
Proof.
  unfold live_entries. assert (forall l acc, is_u64 acc -> is_u64 (fold_left (fun acc f => u64 (acc + ef_num_entries f)) l acc)) as H
    by (induction l as [|f l IH]; intros acc Ha; cbn; [done|apply IH, u64_range]).
  apply H. unfold is_u64. lia.
Qed.

(** What the last pass leaves: statistics built from [v0], and little drift
    since. *)
Definition settled {Stats} (rebuild : list (list est_file) -> result Stats) (v0 v : list (list est_file))
    (st : est_built Stats) : Prop :=
  rebuild v0 = Ok (cached_ st) /\ built_files_ st = live_files (concat v0) /\ built_entries_ st = live_entries (concat v0) /\
  let changed := changed_entries (built_files_ st) (live_files (concat v)) in
  built_entries_ st < 2 ^ 50 -> changed < 2 ^ 50 -> 10 * changed <= built_entries_ st.

Lemma Reconcile_settles {Stats} (rebuild : list (list est_file) -> result Stats) v st :
  (exists s, rebuild v = Ok s) ->
  exists st' , Reconcile rebuild v st = Ok st' /\
    (settled rebuild v v st' \/
     (st' = st /\ built_entries_ st <> 0 /\ forall v0 v', settled rebuild v0 v' st -> settled rebuild v0 v st)).
Proof.
  intros [s Hs]. unfold Reconcile.
  destruct (fresh_enough _ _) eqn:Ef.
  - assert (built_entries_ st <> 0) as E0 by (intros E0; rewrite E0 in Ef; discriminate Ef).
    exists st. split; [done|]. right. split; [done|]. split; [done|]. intros v0 v' (H1 & H2 & H3 & _).
    split; [done|]. split; [done|]. split; [done|]. cbn zeta. intros Hb Hc.
    pose proof (live_entries_u64 (concat v0)) as Hu. rewrite <- H3 in Hu. unfold is_u64 in Hu.
    unfold changed_entries in *. pose proof (u64_range (entries_outside (live_files (concat v)) (built_files_ st) +
      entries_outside (built_files_ st) (live_files (concat v)))) as Hcu. unfold is_u64 in Hcu.
    destruct (fresh_enough_spec (built_entries_ st) _ ltac:(lia) ltac:(split; [apply Hcu|exact Hc])) as [_ Hf].
    apply Z.le_ngt. intros Hlt. rewrite (Hf Hlt) in Ef. discriminate Ef.
  - rewrite Hs. cbn [mbind result_bind]. eexists. split; [done|]. left. split; [done|]. split; [done|]. split; [done|].
    cbn [built_files_ built_entries_]. unfold changed_entries. rewrite !entries_outside_self. intros _ _.
    pose proof (live_entries_u64 (concat v)) as Hu. unfold is_u64 in Hu. change (u64 (0 + 0)) with 0. lia.
Qed.

(** (C28) Bounded staleness. After any sequence of passes over versions whose
    rebuild succeeds, the published statistics are those of one of the
    versions, with its files and entry count; and the entries in files born or
    dead between it and the version of the last pass are at most a tenth of its
    entries (as whole numbers, for counts the comparison in doubles represents
    exactly). *)
Theorem reconcile_bounds_drift {Stats} (rebuild : list (list est_file) -> result Stats) vs v empty :
  Forall (fun v => exists s, rebuild v = Ok s) (vs ++ [v]) ->
  exists st v0, run_passes rebuild (vs ++ [v]) (mkEstBuilt ∅ 0 empty) = Ok st /\ v0 ∈ vs ++ [v] /\ settled rebuild v0 v st.
Proof.
  intros Hall.
  assert (forall vs st seen, Forall (fun v => exists s, rebuild v = Ok s) (vs ++ [v]) ->
    (built_entries_ st = 0 \/ exists v0 v', v0 ∈ seen /\ settled rebuild v0 v' st) ->
    exists st' v0, run_passes rebuild (vs ++ [v]) st = Ok st' /\ v0 ∈ seen ++ vs ++ [v] /\ settled rebuild v0 v st') as H.
  { clear. induction vs as [|u vs IH]; intros st seen Hall Hst; cbn [app run_passes] in *;
      apply Forall_cons in Hall as [Hv Hall].
    - destruct (Reconcile_settles rebuild v st Hv) as (st' & -> & Hc). cbn [mbind result_bind].
      destruct Hc as [Hc|(-> & Hn & Hc)]; [exists st', v; split; [done|]; split; [set_solver|done]|].
      destruct Hst as [?|(v0 & v' & Hin & Hs)]; [done|]. exists st, v0.
      split; [done|]. split; [set_solver|by eapply Hc].
    - destruct (Reconcile_settles rebuild u st Hv) as (st' & -> & Hc). cbn [mbind result_bind].
      destruct (IH st' (seen ++ [u]) Hall) as (st2 & v0 & E & Hin & Hs).
      { destruct Hc as [Hc|(-> & Hn & Hc)]; [right; exists u, u; split; [set_solver|done]|].
        destruct Hst as [?|(v0 & v' & Hin & Hs)]; [done|]. right. exists v0, v'. split; [set_solver|done]. }
      exists st2, v0. split; [done|]. split; [by rewrite <- app_assoc in Hin|done]. }
  destruct (H vs (mkEstBuilt ∅ 0 empty) [] Hall) as (st & v0 & E & Hin & Hs); [by left|]. by exists st, v0.
Qed.

(** Three passes: a build of 1000 rows, then 50 more rows, then 80 more. *)
Definition demo_versions : list (list (list est_file)) :=
  [[[mkEstFile 1 1000 0]]; [[mkEstFile 1 1000 0; mkEstFile 2 50 0]];
   [[mkEstFile 1 1000 0; mkEstFile 2 50 0; mkEstFile 3 80 0]]].
Lemma reconcile_bounds_drift_witness : exists st v0,
  run_passes (fun v => Ok (length (concat v))) demo_versions (mkEstBuilt ∅ 0 0%nat) = Ok st /\
  settled (fun v => Ok (length (concat v))) v0 [[mkEstFile 1 1000 0; mkEstFile 2 50 0; mkEstFile 3 80 0]] st /\
  cached_ st = 3%nat.
Proof.
  destruct (reconcile_bounds_drift (fun v => Ok (length (concat v)))
    [[[mkEstFile 1 1000 0]]; [[mkEstFile 1 1000 0; mkEstFile 2 50 0]]]
    [[mkEstFile 1 1000 0; mkEstFile 2 50 0; mkEstFile 3 80 0]] 0%nat) as (st & v0 & E & _ & Hs).
  - repeat constructor; by eexists.
  - exists st, v0. split; [exact E|]. split; [done|]. revert E. vm_compute. by intros [= <-].
Defined.
