(* ===== verification/Worker.v ===== *)
(** * The refresh worker

    Models the threads of [CardinalityEstimator] ([bit_lsm_estimator.cpp]):
    [WorkerLoop], [NotifyChange], [TEST_Refresh] and the destructor, around one
    mutex and one condition variable. A critical section is one step; setting
    the state and [notify_all] are two, since the source notifies after
    unlocking; a sleeping thread may wake for no reason.

    Beside the source's fields the state keeps the number of signals ever
    given, the version RocksDB has installed, the version at each signal and
    the version the last finished pass looked at: what a refresh is for. *)
From Stdlib Require Import ZArith Lia.
From stdpp Require Import base numbers list relations.
From S2P Require Import Prelude.

(** Where the worker is: before the test of its first wait, asleep there,
    before the test of the pacing loop, asleep there, past the unlock with its
    target, inside [Reconcile] on a version, returned. *)
Inductive worker_pc :=
  | WCheck | WSleep | WPace | WPaceSleep
  | WUnlocked (target : Z) | WRead (target version : Z) | WExit.
(** A thread in [TEST_Refresh]: before its test, asleep, returned. *)
Inductive waiter_pc := Checking | Asleep | Returned.

Record rstate := mkRState {
  stop_ : bool;
  signal_gen_ : Z;
  processed_gen_ : Z;
  worker : worker_pc;
  not_before : Z;
  waiters : list (Z * waiter_pc);
  pending : nat;  (** threads between their unlock and [notify_all] *)
  clock : Z;
  signals : Z;
  version : Z;
  version_at : Z -> Z;
  seen : Z;
}.

Definition with_worker (st : rstate) (w : worker_pc) : rstate :=
  mkRState (stop_ st) (signal_gen_ st) (processed_gen_ st) w (not_before st) (waiters st) (pending st) (clock st)
    (signals st) (version st) (version_at st) (seen st).
Definition with_waiters (st : rstate) (ws : list (Z * waiter_pc)) : rstate :=
  mkRState (stop_ st) (signal_gen_ st) (processed_gen_ st) (worker st) (not_before st) ws (pending st) (clock st)
    (signals st) (version st) (version_at st) (seen st).

(** ** The condition variable *)
Definition wake_worker (w : worker_pc) : worker_pc :=
  match w with WSleep => WCheck | WPaceSleep => WPace | _ => w end.
Definition wake_waiter (x : Z * waiter_pc) : Z * waiter_pc :=
  match x with (t, Asleep) => (t, Checking) | _ => x end.
Definition wake (st : rstate) : rstate :=
  with_waiters (with_worker st (wake_worker (worker st))) (map wake_waiter (waiters st)).
(** A [notify_all] that was due. *)
Definition notify_all (st : rstate) : rstate :=
  let s := wake st in
  mkRState (stop_ s) (signal_gen_ s) (processed_gen_ s) (worker s) (not_before s) (waiters s) (Nat.pred (pending s))
    (clock s) (signals s) (version s) (version_at s) (seen s).

(** ** The other threads *)

(** [++signal_gen_] under the lock. *)
Definition NotifyChange (st : rstate) : rstate :=
  let g := u64 (signal_gen_ st + 1) in
  mkRState (stop_ st) g (processed_gen_ st) (worker st) (not_before st) (waiters st) (S (pending st)) (clock st)
    (signals st + 1) (version st) (fun x => if x =? g then version st else version_at st x) (seen st).
(** The same in [TEST_Refresh], which then waits for its own target. *)
Definition TEST_Refresh (st : rstate) : rstate :=
  let s := NotifyChange st in with_waiters s (waiters s ++ [(signal_gen_ s, Checking)]).
Definition waiter_test (st : rstate) (target : Z) : waiter_pc :=
  if stop_ st || (target <=? processed_gen_ st) then Returned else Asleep.
Definition Destroy (st : rstate) : rstate :=
  mkRState true (signal_gen_ st) (processed_gen_ st) (worker st) (not_before st) (waiters st) (S (pending st)) (clock st)
    (signals st) (version st) (version_at st) (seen st).
(** RocksDB installs a version. *)
Definition install (st : rstate) : rstate :=
  mkRState (stop_ st) (signal_gen_ st) (processed_gen_ st) (worker st) (not_before st) (waiters st) (pending st) (clock st)
    (signals st) (version st + 1) (version_at st) (seen st).
Definition tick (st : rstate) (t : Z) : rstate :=
  mkRState (stop_ st) (signal_gen_ st) (processed_gen_ st) (worker st) (not_before st) (waiters st) (pending st) t
    (signals st) (version st) (version_at st) (seen st).

(** ** WorkerLoop *)
Definition worker_check (st : rstate) : rstate :=
  with_worker st (if stop_ st then WExit else if processed_gen_ st <? signal_gen_ st then WPace else WSleep).
Definition worker_pace (st : rstate) : rstate :=
  with_worker st (if stop_ st then WExit else if clock st <? not_before st then WPaceSleep else WUnlocked (signal_gen_ st)).
(** The end of a pass: the time is taken, the target stored under the lock,
    the waiters woken. *)
Definition worker_finish (interval target v : Z) (st : rstate) : rstate :=
  wake (mkRState (stop_ st) (signal_gen_ st) target WCheck (clock st + interval) (waiters st) (pending st) (clock st)
    (signals st) (version st) (version_at st) v).

Section Protocol.
(** [min_rebuild_interval_ms_] *)
Context (interval : Z).

(** Steps of the worker, of the clock, and notifications that arrive. *)
Inductive wstep : rstate -> rstate -> Prop :=
  | w_check st : worker st = WCheck -> wstep st (worker_check st)
  | w_pace st : worker st = WPace -> wstep st (worker_pace st)
  | w_timeout st : worker st = WPaceSleep -> not_before st <= clock st -> wstep st (with_worker st WPace)
  | w_acquire st t : worker st = WUnlocked t -> wstep st (with_worker st (WRead t (version st)))
  | w_finish st t v : worker st = WRead t v -> wstep st (worker_finish interval t v st)
  | w_notify st n : pending st = S n -> wstep st (notify_all st)
  | w_tick st t : clock st <= t -> wstep st (tick st t).

(** Everything else. *)
Inductive estep : rstate -> rstate -> Prop :=
  | e_notify st : estep st (NotifyChange st)
  | e_refresh st : estep st (TEST_Refresh st)
  | e_waiter st i t : waiters st !! i = Some (t, Checking) ->
      estep st (with_waiters st (<[i := (t, waiter_test st t)]> (waiters st)))
  | e_spurious st : estep st (wake st)
  | e_stop st : estep st (Destroy st)
  | e_install st : estep st (install st).

Inductive step (a b : rstate) : Prop :=
  | worker_steps : wstep a b -> step a b
  | other_steps : estep a b -> step a b.

(** A new estimator: nothing signalled yet, the worker at its first test. The
    constructor's own [NotifyChange] is a step. *)
Definition init (v t : Z) : rstate := mkRState false 0 0 WCheck t [] 0 t 0 v (fun _ => v) v.
Definition reachable (v t : Z) (st : rstate) : Prop := rtc step (init v t) st.

(** ** The invariant *)
Definition wakes (st : rstate) : Prop := stop_ st = true \/ processed_gen_ st < signal_gen_ st.

Definition worker_ok (st : rstate) : Prop :=
  match worker st with
  | WCheck => True
  | WSleep => wakes st -> (0 < pending st)%nat
  | WPace => wakes st
  | WPaceSleep => wakes st /\ (stop_ st = true -> (0 < pending st)%nat)
  | WUnlocked t => processed_gen_ st < t <= signal_gen_ st
  | WRead t v => processed_gen_ st < t <= signal_gen_ st /\ version_at st t <= v <= version st
  | WExit => stop_ st = true
  end.
Definition waiter_ok (st : rstate) (x : Z * waiter_pc) : Prop :=
  1 <= fst x <= signal_gen_ st /\
  match snd x with
  | Checking => True
  | Asleep => stop_ st = true \/ fst x <= processed_gen_ st -> (0 < pending st)%nat
  | Returned => stop_ st = true \/ fst x <= processed_gen_ st
  end.
Record inv (st : rstate) : Prop := {
  i_signal : signal_gen_ st = signals st;
  i_range : 0 <= processed_gen_ st <= signal_gen_ st;
  i_worker : worker_ok st;
  i_versions g g' : 0 <= g <= g' -> g' <= signal_gen_ st -> version_at st g <= version_at st g';
  i_latest g : 0 <= g <= signal_gen_ st -> version_at st g <= version st;
  i_seen : version_at st (processed_gen_ st) <= seen st <= version st;
  i_waiters : Forall (waiter_ok st) (waiters st);
}.

Lemma init_inv v t : inv (init v t).
Proof. split; cbn; try lia; try done. Qed.

(** Waking can only help. *)
Lemma wake_inv st : inv st -> inv (wake st).
Proof.
  intros [H1 H2 H3 H4 H5 H6 H7]. split; try done.
  - unfold worker_ok, wakes in *. cbn. destruct (worker st); cbn; tauto.
  - cbn. apply Forall_map. eapply Forall_impl; [exact H7|]. intros [t []] [Ht Hw]; split; done.
Qed.

Lemma worker_check_inv st : inv st -> worker st = WCheck -> inv (worker_check st).
Proof.
  intros [H1 H2 H3 H4 H5 H6 H7] E. split; try done. unfold worker_ok, worker_check, wakes in *. cbn.
  destruct (stop_ st) eqn:Es; cbn; [done|]. destruct (Z.ltb_spec (processed_gen_ st) (signal_gen_ st)); cbn.
  - by right.
  - intros [?|?]; [congruence|lia].
Qed.
Lemma worker_pace_inv st : inv st -> worker st = WPace -> inv (worker_pace st).
Proof.
  intros [H1 H2 H3 H4 H5 H6 H7] E. split; try done. unfold worker_ok in *. rewrite E in H3.
  unfold worker_pace, wakes in *. cbn. destruct (stop_ st) eqn:Es; cbn; [done|].
  destruct H3 as [?|H3]; [done|]. destruct (clock st <? not_before st); cbn; [|lia].
  split; [by right|]. congruence.
Qed.
Lemma worker_finish_inv st t v : inv st -> worker st = WRead t v -> inv (worker_finish interval t v st).
Proof.
  intros [H1 H2 H3 H4 H5 H6 H7] E. unfold worker_ok in H3. rewrite E in H3. destruct H3 as [Ht Hv].
  unfold worker_finish. split; cbn; try done; [lia|].
  apply Forall_map. eapply Forall_impl; [exact H7|]. intros [x []] [Hx Hw]; split; cbn in *; try done.
  destruct Hw; [by left|right; lia].
Qed.
Lemma NotifyChange_inv st : inv st -> signals st + 1 < 2 ^ 64 -> inv (NotifyChange st).
Proof.
  intros [H1 H2 H3 H4 H5 H6 H7] Hlt. assert (u64 (signal_gen_ st + 1) = signal_gen_ st + 1) as Eu
    by (apply u64_small; unfold is_u64; lia).
  unfold NotifyChange. rewrite Eu. split; cbn; try lia.
  - unfold worker_ok, wakes in *. cbn. destruct (worker st); cbn in *; [done|intros _; lia| | |lia| |done].
    + destruct H3; [by left|right; lia].
    + split; [|lia]. destruct H3 as [[?|?] _]; [by left|right; lia].
    + rewrite (proj2 (Z.eqb_neq _ _)) by lia. lia.
  - intros g g' Hg Hg'. destruct (Z.eqb_spec g (signal_gen_ st + 1)), (Z.eqb_spec g' (signal_gen_ st + 1)); try lia.
    + apply H5. lia.
    + apply H4; lia.
  - intros g Hg. destruct (Z.eqb_spec g (signal_gen_ st + 1)); [lia|]. apply H5. lia.
  - rewrite (proj2 (Z.eqb_neq _ _)) by lia. done.
  - eapply Forall_impl; [exact H7|]. intros [x []] [Hx Hw]; split; cbn in *; try done; lia.
Qed.

Lemma step_signals a b : step a b -> signals a <= signals b.
Proof. destruct 1 as [Hs|Hs]; destruct Hs; cbn; lia. Qed.

(** Waiters that are not asleep do not depend on pending notifications. *)
Lemma notify_all_inv st : inv st -> inv (notify_all st).
Proof.
  intros [H1 H2 H3 H4 H5 H6 H7]. split; try done.
  - unfold worker_ok, wakes in *. cbn. destruct (worker st); cbn in *; tauto.
  - cbn. apply Forall_map. eapply Forall_impl; [exact H7|]. intros [t []] [Ht Hw]; split; done.
Qed.
Lemma Destroy_inv st : inv st -> inv (Destroy st).
Proof.
  intros [H1 H2 H3 H4 H5 H6 H7]. split; try done.
  - unfold worker_ok, wakes in *. cbn. destruct (worker st); cbn in *; try done; [intros _; lia|by left|].
    split; [by left|lia].
  - cbn. eapply Forall_impl; [exact H7|]. intros [t []] [Ht Hw]; split; cbn in *; [done|done|done|lia|done|by left].
Qed.
Lemma TEST_Refresh_inv st : inv st -> signals st + 1 < 2 ^ 64 -> inv (TEST_Refresh st).
Proof.
  intros Hi Hlt. pose proof (i_range _ Hi) as Hr. pose proof (i_signal _ Hi) as Hsig.
  apply NotifyChange_inv in Hi as [H1 H2 H3 H4 H5 H6 H7]; [|done]. split; try done.
  cbn [TEST_Refresh with_waiters waiters]. apply Forall_app. split; [done|]. repeat constructor; cbn [fst]; [|reflexivity].
  cbn in H1. cbn. lia.
Qed.
Lemma waiter_inv st i t :
  inv st -> waiters st !! i = Some (t, Checking) ->
  inv (with_waiters st (<[i := (t, waiter_test st t)]> (waiters st))).
Proof.
  intros [H1 H2 H3 H4 H5 H6 H7] Hi. split; try done. cbn. apply Forall_insert; [done|].
  rewrite Forall_forall in H7. destruct (H7 _ (list_elem_of_lookup_2 _ _ _ Hi)) as [Ht _]. split; [done|].
  unfold waiter_test. cbn. destruct (stop_ st) eqn:Es; cbn; [by left|].
  destruct (Z.leb_spec t (processed_gen_ st)); cbn; [by right|]. intros [?|?]; [congruence|lia].
Qed.

Lemma step_inv a b : inv a -> step a b -> signals b < 2 ^ 64 -> inv b.
Proof.
  intros Hi [Hs|Hs] Hlt.
  - destruct Hs as [st E|st E|st E Ht|st t E|st t v E|st n E|st t Ht].
    + by apply worker_check_inv.
    + by apply worker_pace_inv.
    + destruct Hi as [H1 H2 H3 H4 H5 H6 H7]. split; try done. unfold worker_ok in *. rewrite E in H3. cbn. apply H3.
    + destruct Hi as [H1 H2 H3 H4 H5 H6 H7]. split; try done. unfold worker_ok in *. rewrite E in H3. cbn.
      split; [done|]. split; [apply H5; lia|lia].
    + by apply worker_finish_inv.
    + by apply notify_all_inv.
    + by destruct Hi.
  - destruct Hs as [st|st|st i t E|st|st|st].
    + by apply NotifyChange_inv.
    + by apply TEST_Refresh_inv.
    + by apply waiter_inv.
    + by apply wake_inv.
    + by apply Destroy_inv.
    + destruct Hi as [H1 H2 H3 H4 H5 H6 H7]. split; cbn; try done; [|intros g Hg; specialize (H5 g Hg); lia|lia].
      unfold worker_ok in *. cbn. destruct (worker st); try done. lia.
Qed.

Lemma reachable_inv v t st : reachable v t st -> signals st < 2 ^ 64 -> inv st.
Proof.
  unfold reachable. revert st. apply (rtc_ind_r (fun st => signals st < 2 ^ 64 -> inv st)).
  - intros _. apply init_inv.
  - intros a b _ Hs IH Hlt. eapply step_inv; [|exact Hs|done]. apply IH. pose proof (step_signals _ _ Hs). lia.
Qed.

(** ** Progress *)
Lemma nsteps_one a b n c : wstep a b -> nsteps wstep n b c -> nsteps wstep (S n) a c.
Proof. intros H1 H2. by econstructor. Qed.

(** A pass past the unlock finishes. *)
Lemma finish_pass st t :
  worker st = WUnlocked t -> exists st', nsteps wstep 2 st st' /\ processed_gen_ st' = t /\ worker st' = WCheck /\
    stop_ st' = stop_ st /\ signal_gen_ st' = signal_gen_ st /\ signals st' = signals st /\ version_at st' = version_at st.
Proof.
  intros E. eexists. split; [eapply nsteps_one; [by apply w_acquire|]; eapply nsteps_one; [by eapply w_finish|]; constructor|].
  done.
Qed.

(** Before the pacing test, the pass that starts takes all signals. *)
Lemma pace_pass st :
  worker st = WPace -> stop_ st = false ->
  exists n st', nsteps wstep n st st' /\ (n <= 4)%nat /\ processed_gen_ st' = signal_gen_ st /\
    version_at st' = version_at st /\ signal_gen_ st' = signal_gen_ st /\ signals st' = signals st.
Proof.
  intros E Es. set (st1 := tick st (Z.max (clock st) (not_before st))).
  assert (worker_pace st1 = with_worker st1 (WUnlocked (signal_gen_ st))) as Ep.
  { unfold worker_pace. cbn. rewrite Es. rewrite (proj2 (Z.ltb_ge _ _)) by lia. done. }
  destruct (finish_pass (worker_pace st1) (signal_gen_ st)) as (st' & Hn & H1 & _ & _ & H2 & H3 & H4); [by rewrite Ep|].
  exists 4%nat, st'. split.
  { eapply nsteps_one; [apply (w_tick st (Z.max (clock st) (not_before st))); lia|].
    eapply nsteps_one; [by apply w_pace|]. done. }
  rewrite Ep in *. done.
Qed.

Lemma check_pass st :
  worker st = WCheck -> stop_ st = false -> processed_gen_ st < signal_gen_ st ->
  exists n st', nsteps wstep n st st' /\ (n <= 5)%nat /\ processed_gen_ st' = signal_gen_ st /\
    version_at st' = version_at st /\ signal_gen_ st' = signal_gen_ st /\ signals st' = signals st.
Proof.
  intros E Es Hlt. assert (worker_check st = with_worker st WPace) as Ec.
  { unfold worker_check. rewrite Es. by rewrite (proj2 (Z.ltb_lt _ _)) by lia. }
  destruct (pace_pass (worker_check st)) as (n & st' & Hn & Hle & H); [by rewrite Ec|by rewrite Ec|].
  exists (S n), st'. split; [eapply nsteps_one; [by apply w_check|done]|]. split; [lia|]. by rewrite Ec in H.
Qed.

Lemma served st t :
  inv st -> stop_ st = false -> 0 <= t <= signal_gen_ st ->
  exists n st', nsteps wstep n st st' /\ (n <= 8)%nat /\ t <= processed_gen_ st' /\ version_at st' = version_at st /\
    signals st' = signals st.
Proof.
  intros Hi Es Ht. destruct (decide (t <= processed_gen_ st)) as [Hd|Hd].
  { exists 0%nat, st. split; [constructor|]. split; [lia|]. done. }
  assert (forall n s, nsteps wstep n st s -> (n <= 3)%nat -> worker s = WCheck -> stop_ s = false ->
    signal_gen_ s = signal_gen_ st -> signals s = signals st -> version_at s = version_at st ->
    exists n st', nsteps wstep n st st' /\ (n <= 8)%nat /\ t <= processed_gen_ st' /\ version_at st' = version_at st /\
      signals st' = signals st) as Hcheck.
  { intros n s Hn Hle Ew Ess Esig Esigs Ever. destruct (decide (t <= processed_gen_ s)) as [Hd'|Hd'].
    - exists n, s. split; [done|]. split; [lia|]. done.
    - destruct (check_pass s Ew Ess ltac:(lia)) as (k & st' & Hk & Hkle & H1 & H2 & H3 & H4).
      exists (n + k)%nat, st'. split; [by eapply nsteps_trans|]. split; [lia|]. split; [lia|].
      split; [by rewrite H2|lia]. }
  pose proof (i_worker _ Hi) as Hw. unfold worker_ok in Hw. destruct (worker st) as [| | | |tg|tg v|] eqn:E.
  - apply (Hcheck 0%nat st); [constructor|lia|done..].
  - destruct (pending st) as [|p] eqn:Ep; [exfalso; assert (0 < 0)%nat; [apply Hw; right; lia|lia]|].
    apply (Hcheck 1%nat (notify_all st)); [eapply nsteps_one; [by eapply w_notify|constructor]|lia| |done..].
    cbn. by rewrite E.
  - destruct (pace_pass st E Es) as (n & st' & Hn & Hle & H1 & H2 & H3 & H4). exists n, st'.
    split; [done|]. split; [lia|]. split; [lia|]. done.
  - set (s := with_worker (tick st (Z.max (clock st) (not_before st))) WPace).
    destruct (pace_pass s eq_refl Es) as (n & st' & Hn & Hle & H1 & H2 & H3 & H4).
    exists (S (S n)), st'. split.
    { eapply nsteps_one; [apply (w_tick st (Z.max (clock st) (not_before st))); lia|].
      eapply nsteps_one; [apply w_timeout; [done|cbn; lia]|done]. }
    split; [lia|]. cbn in *. split; [lia|]. done.
  - destruct (finish_pass st tg E) as (s & Hn & _ & H1 & H2 & H3 & H4 & H5). apply (Hcheck 2%nat s); try done; congruence || lia.
  - apply (Hcheck 1%nat (worker_finish interval tg v st)); [eapply nsteps_one; [by apply w_finish|constructor]|lia|done..].
  - congruence.
Qed.

Lemma nsteps_inv n a b : nsteps wstep n a b -> inv a -> signals b < 2 ^ 64 -> inv b.
Proof.
  intros Hn. induction Hn as [|n a b c Hs Hn IH]; intros Hi Hlt; [done|]. apply IH; [|done].
  eapply step_inv; [done|by apply worker_steps|].
  assert (signals b <= signals c); [|lia]. clear -Hn.
  induction Hn as [|n a b c Hs _ IH]; [lia|]. pose proof (step_signals _ _ (worker_steps _ _ Hs)). lia.
Qed.

Lemma exits st :
  inv st -> stop_ st = true -> exists n st', nsteps wstep n st st' /\ (n <= 4)%nat /\ worker st' = WExit.
Proof.
  intros Hi Es.
  assert (forall s, worker s = WCheck -> stop_ s = true -> wstep s (with_worker s WExit)) as Hc.
  { intros s Ew Ess. replace (with_worker s WExit) with (worker_check s) by (unfold worker_check; by rewrite Ess). by apply w_check. }
  assert (forall s, worker s = WPace -> stop_ s = true -> wstep s (with_worker s WExit)) as Hp.
  { intros s Ew Ess. replace (with_worker s WExit) with (worker_pace s) by (unfold worker_pace; by rewrite Ess). by apply w_pace. }
  pose proof (i_worker _ Hi) as Hw. unfold worker_ok, wakes in Hw. destruct (worker st) as [| | | |tg|tg v|] eqn:E.
  - exists 1%nat. eexists. split; [eapply nsteps_one; [by apply Hc|constructor]|]. split; [lia|done].
  - destruct (pending st) as [|p] eqn:Ep; [exfalso; assert (0 < 0)%nat; [apply Hw; by left|lia]|].
    exists 2%nat. eexists. split; [eapply nsteps_one; [by eapply w_notify|]; eapply nsteps_one; [apply Hc; [cbn; by rewrite E|done]|constructor]|].
    split; [lia|done].
  - exists 1%nat. eexists. split; [eapply nsteps_one; [by apply Hp|constructor]|]. split; [lia|done].
  - destruct (pending st) as [|p] eqn:Ep; [exfalso; assert (0 < 0)%nat; [by apply Hw|lia]|].
    exists 2%nat. eexists. split; [eapply nsteps_one; [by eapply w_notify|]; eapply nsteps_one; [apply Hp; [cbn; by rewrite E|done]|constructor]|].
    split; [lia|done].
  - exists 3%nat. eexists. split; [eapply nsteps_one; [by apply w_acquire|]; eapply nsteps_one; [by eapply w_finish|];
      eapply nsteps_one; [by apply Hc|constructor]|]. split; [lia|done].
  - exists 2%nat. eexists. split; [eapply nsteps_one; [by eapply w_finish|]; eapply nsteps_one; [by apply Hc|constructor]|].
    split; [lia|done].
  - exists 0%nat, st. split; [constructor|]. split; [lia|done].
Qed.

(** The worker gives no signals. *)
Lemma wsteps_signals a b : rtc wstep a b -> signals b = signals a.
Proof. induction 1 as [|a b c H _ IH]; [done|]. rewrite IH. by destruct H. Qed.

(** A stop request stays. *)
Lemma step_stop a b : step a b -> stop_ a = true -> stop_ b = true.
Proof. destruct 1 as [[]|[]]; done. Qed.
End Protocol.

(** (C16) The refresh protocol keeps its promises in every interleaving of the
    worker, any number of signals, refreshes and waiters, spurious wake-ups,
    version installs and shutdown (for fewer than 2^64 signals): no wake-up is
    lost (a sleeping worker with work or a stop request, and a sleeping waiter
    whose condition holds, have a notification on the way); a refresh that
    returned without a stop was served by a pass that looked at a version no
    older than the one at its request; the last pass is never older than its
    signal. *)
Theorem refresh_protocol interval v t st :
  reachable interval v t st -> signals st < 2 ^ 64 ->
  (worker st = WSleep -> stop_ st = true \/ processed_gen_ st < signal_gen_ st -> (0 < pending st)%nat) /\
  (worker st = WPaceSleep -> stop_ st = true -> (0 < pending st)%nat) /\
  (forall target, (target, Asleep) ∈ waiters st -> stop_ st = true \/ target <= processed_gen_ st -> (0 < pending st)%nat) /\
  (forall target, (target, Returned) ∈ waiters st ->
     stop_ st = true \/ (target <= processed_gen_ st /\ version_at st target <= seen st)) /\
  0 <= processed_gen_ st <= signal_gen_ st /\
  version_at st (processed_gen_ st) <= seen st <= version st.
Proof.
  intros Hr Hlt. pose proof (reachable_inv interval v t st Hr Hlt) as [H1 H2 H3 H4 H5 H6 H7].
  unfold worker_ok, wakes in H3. rewrite Forall_forall in H7. split_and!; try lia.
  - intros E. by rewrite E in H3.
  - intros E. rewrite E in H3. apply H3.
  - intros tg Hin. exact (proj2 (H7 _ Hin)).
  - intros tg Hin. destruct (H7 _ Hin) as [Ht [Hs|Hd]]; [by left|right]. cbn in *. split; [done|].
    etrans; [apply (H4 tg (processed_gen_ st)); lia|lia].
Qed.

(** Two signals, the worker asleep before the first one's notification. *)
Definition woken : rstate := TEST_Refresh (NotifyChange (worker_check (init 7 100))).
Lemma woken_reachable : reachable 1000 7 100 woken.
Proof.
  unfold woken. eapply rtc_r; [|by apply other_steps, e_refresh]. eapply rtc_r; [|by apply other_steps, e_notify].
  eapply rtc_r; [apply rtc_refl|]. apply worker_steps. by apply w_check.
Qed.
Lemma refresh_protocol_witness : worker woken = WSleep /\ (0 < pending woken)%nat.
Proof.
  split; [done|].
  apply (proj1 (refresh_protocol 1000 7 100 woken woken_reachable ltac:(by vm_compute)) eq_refl).
  right. by vm_compute.
Defined.

