(* ===== verification/Facade.v ===== *)
(** * The database facade: rows in, iterators and estimates out

    Models the operations of [BitLSM] on a column family ([bit_lsm.cpp],
    [bit_lsm.h]): [Put], [PutBatch], [Delete], [Flush], [NewIterator] and
    [EstimateSelectivity]. The write interface of RocksDB is a class with the
    laws its documentation states. *)
From Stdlib Require Import ZArith Lia Strings.Byte Strings.String Sorting.Sorted.
From stdpp Require Import base numbers strings list sets sorting gmap.
From S2P Require Import Prelude Options Row Okey BytesList Query QuerySpec Externals Intern.
From S2P Require Import RangeBuf Binning Builder Reader Index ReaderSpec BuilderSpec BlobSpec.
From S2P Require Import SstIndex BinSource TableIter QueryBitmap TableScan TableSpec.
From S2P Require Import Iterators Merging Lsm Shadow TopIterator BatchSpec LsmScan ScanSpec ScanDemo.
From S2P Require Import ByteAxis Estimator.

(** A handle: the RocksDB handle is its column family's id, the estimator an
    object's address. *)
Record ColumnFamilyHandle := mkCFHandle {
  name_ : string;
  rocksdb_handle_ : Z;
  options_ : BitLSMOptions;
  layout_ : ValueLayout;
  estimator_ : option Z;
}.

(** ** RocksDB's writes

    A batch is the list of its entries: [WriteBatch::Put] takes every key and
    value below 4 GiB, and larger ones, whose refusal [PutBatch] would not
    notice, are outside the model. *)
Definition put_entry : Type := Z * bytes * bytes.
Class RocksWrite (D : Type) := {
  db_Put : D -> put_entry -> Status * D;
  db_Write : D -> list put_entry -> Status * D;  (** of a batch of puts *)
  db_Delete : D -> Z -> bytes -> Status * D;
  db_Flush : D -> Z -> Status * D;
  db_Get : D -> Z -> bytes -> option bytes;
}.

(** What reads return after a put. *)
Definition after_put (reads : Z -> bytes -> option bytes) (p : put_entry) : Z -> bytes -> option bytes :=
  fun cf k => if bool_decide (cf = p.1.1 /\ k = p.1.2) then Some p.2 else reads cf k.

(** An OK write is visible to reads; a write, batch or not, is applied as a
    whole or not at all; a flush changes no reads. *)
Class RocksWriteLaws D (W : RocksWrite D) : Prop := {
  rw_put d p : (db_Put d p).1 = OK -> forall cf k, db_Get (db_Put d p).2 cf k = after_put (db_Get d) p cf k;
  rw_put_atomic d p : (forall cf k, db_Get (db_Put d p).2 cf k = db_Get d cf k) \/
    (forall cf k, db_Get (db_Put d p).2 cf k = after_put (db_Get d) p cf k);
  rw_write d b : (db_Write d b).1 = OK -> forall cf k, db_Get (db_Write d b).2 cf k = foldl after_put (db_Get d) b cf k;
  rw_atomic d b : (forall cf k, db_Get (db_Write d b).2 cf k = db_Get d cf k) \/
    (forall cf k, db_Get (db_Write d b).2 cf k = foldl after_put (db_Get d) b cf k);
  rw_delete d cf k : (db_Delete d cf k).1 = OK -> forall cf' k',
    db_Get (db_Delete d cf k).2 cf' k' = if bool_decide (cf' = cf /\ k' = k) then None else db_Get d cf' k';
  rw_delete_atomic d cf k : (forall cf' k', db_Get (db_Delete d cf k).2 cf' k' = db_Get d cf' k') \/
    (forall cf' k', db_Get (db_Delete d cf k).2 cf' k' = if bool_decide (cf' = cf /\ k' = k) then None else db_Get d cf' k');
  rw_flush d cf cf' k : db_Get (db_Flush d cf).2 cf' k = db_Get d cf' k;
}.

(** A store that is a function and accepts everything. *)
#[global] Instance map_store : RocksWrite (Z -> bytes -> option bytes) := {|
  db_Put d p := (OK, after_put d p);
  db_Write d b := (OK, foldl after_put d b);
  db_Delete d cf k := (OK, fun cf' k' => if bool_decide (cf' = cf /\ k' = k) then None else d cf' k');
  db_Flush d _ := (OK, d);
  db_Get d := d;
|}.
#[global] Instance map_store_laws : RocksWriteLaws _ map_store.
Proof. split; try done; intros; by right. Qed.

(** ** Writes *)

(** [CheckFixedBinaryWidths] over the attributes from index [i] on. *)
Fixpoint CheckFixedBinaryWidths (options : BitLSMOptions) (i : Z) (attrs : list Attr) : result Status :=
  match attrs with
  | [] => Ok OK
  | a :: rest =>
      s ← zget (attr_specs options) i;
      bad ← (if bool_decide (physical_type s = kBinary) && negb (is_monostate a)
             then str ← get_string a; Ok (negb (zlen str =? width s)) else Ok false);
      if bad : bool then
        Ok (InvalidArgument ("attr " +:+ to_string i +:+ ": kBinary value must be exactly " +:+
          to_string (width s) +:+ " bytes"))
      else CheckFixedBinaryWidths options (i + 1) rest
  end.

Section Writes.
Context {D : Type} `{RocksWrite D}.

(** [buf] is the thread's [serialized_value_buf], which keeps what the last
    call left in it. *)
Definition Put (d : D) (buf : bytes) (cf : option ColumnFamilyHandle) (pk : bytes) (attrs : list Attr) (payload : bytes)
    : result (Status * D * bytes) :=
  match cf with
  | None => Ok (InvalidArgument "null column family", d, buf)
  | Some h =>
      if negb (zlen attrs =? attr_num (options_ h)) then
        Ok (InvalidArgument "The number of attrs does not match with db configuration.", d, buf)
      else
        ws ← CheckFixedBinaryWidths (options_ h) 0 attrs;
        if negb (ok ws) then Ok (ws, d, buf)
        else
          value ← EncodeValue (layout_ h) attrs payload buf;
          Ok (db_Put d (rocksdb_handle_ h, pk, value), value)
  end.

(** The loop: the batch so far, or the status the call returns early. *)
Fixpoint batch_loop (h : ColumnFamilyHandle) (pks : list bytes) (attrs_list : list (list Attr)) (payloads : list bytes)
    (n : nat) (i : Z) (batch : list put_entry) : result (Status + list put_entry) :=
  match n with
  | O => Ok (inr batch)
  | S n' =>
      attrs ← zget attrs_list i;
      if negb (zlen attrs =? attr_num (options_ h)) then
        Ok (inl (InvalidArgument ("PutBatch error: attrs size at index " +:+ to_string i +:+
          " does not match the configured attr_num.")))
      else
        ws ← CheckFixedBinaryWidths (options_ h) 0 attrs;
        if negb (ok ws) then Ok (inl ws)
        else
          payload ← zget payloads i;
          value ← EncodeValue (layout_ h) attrs payload [];
          pk ← zget pks i;
          batch_loop h pks attrs_list payloads n' (i + 1) (batch ++ [(rocksdb_handle_ h, pk, value)])
  end.

Definition PutBatch (d : D) (cf : option ColumnFamilyHandle) (pks : list bytes) (attrs_list : list (list Attr))
    (payloads : list bytes) : result (Status * D) :=
  match cf with
  | None => Ok (InvalidArgument "null column family", d)
  | Some h =>
      r ← batch_loop h pks attrs_list payloads (Z.to_nat (u32 (zlen pks))) 0 [];
      match r with inl s => Ok (s, d) | inr batch => Ok (db_Write d batch) end
  end.

Definition Delete (d : D) (cf : option ColumnFamilyHandle) (key : bytes) : Status * D :=
  match cf with
  | None => (InvalidArgument "null column family", d)
  | Some h => db_Delete d (rocksdb_handle_ h) key
  end.

Definition Flush (d : D) (cf : option ColumnFamilyHandle) : Status * D :=
  match cf with
  | None => (InvalidArgument "null column family", d)
  | Some h => db_Flush d (rocksdb_handle_ h)
  end.
End Writes.

(** ** Reads *)

(** [std::sort] of each clause by attribute, in the caller's query. *)
Definition idx_less (a b : QueryCondition) : bool := attr_idx a <? attr_idx b.
Definition sort_clauses `{StdSort} (q : BitLSMQuery) : BitLSMQuery :=
  mkBitLSMQuery (map (std_sort idx_less) (clause_groups q)).

(** [make] is [BitLSMIterator]'s constructor on the column family; the query is
    the caller's, which the call may reorder. *)
Definition NewIterator `{StdSort} {It} (make : BitLSMOptions -> BitLSMQuery -> result It) (cf : option ColumnFamilyHandle)
    (query : BitLSMQuery) : result (option It * BitLSMQuery) :=
  match cf with
  | None => Ok (None, query)
  | Some h =>
      if negb (ok (Validate query (options_ h))) then Ok (None, query)
      else
        let sorted := sort_clauses query in
        it ← make (options_ h) sorted; Ok (Some it, sorted)
  end.

(** [stats_of] and [memtable_of] are what an estimator's [Stats] and
    [MemtableEntries] return. *)
Definition EstimateSelectivity (stats_of : Z -> GlobalStats) (memtable_of : Z -> Z) (cf : option ColumnFamilyHandle)
    (q : SABIQuery) : result EstimateResult :=
  match cf with
  | Some h =>
      match estimator_ h with
      | Some e => Estimate (index_types (FromOptions (options_ h))) (stats_of e) (memtable_of e) q
      | None => Ok (FallbackResult q)
      end
  | None => Ok (FallbackResult q)
  end.

(** *** The overloads without a column family

    [default_cf_] is the object's field. *)
Section Defaults.
Context (default_cf_ : option ColumnFamilyHandle).
Definition Put_default {D} `{RocksWrite D} (d : D) (buf pk : bytes) (attrs : list Attr) (payload : bytes)
    : result (Status * D * bytes) := Put d buf default_cf_ pk attrs payload.
Definition PutBatch_default {D} `{RocksWrite D} (d : D) (pks : list bytes) (attrs_list : list (list Attr))
    (payloads : list bytes) : result (Status * D) := PutBatch d default_cf_ pks attrs_list payloads.
Definition Delete_default {D} `{RocksWrite D} (d : D) (key : bytes) : Status * D := Delete d default_cf_ key.
Definition Flush_default {D} `{RocksWrite D} (d : D) : Status * D := Flush d default_cf_.
Definition NewIterator_default `{StdSort} {It} (make : BitLSMOptions -> BitLSMQuery -> result It) (query : BitLSMQuery)
    : result (option It * BitLSMQuery) := NewIterator make default_cf_ query.
Definition EstimateSelectivity_default (stats_of : Z -> GlobalStats) (memtable_of : Z -> Z) (q : SABIQuery)
    : result EstimateResult := EstimateSelectivity stats_of memtable_of default_cf_ q.
End Defaults.

(** ** The width check *)

(** A value of the attribute's C++ alternative, of any length. *)
Definition attr_kind (s : AttrSpec) (a : Attr) : Prop :=
  match a with
  | AString _ => physical_type s = kBinary \/ physical_type s = kVarBinary
  | _ => attr_typed s a
  end.
Definition width_fits (s : AttrSpec) (a : Attr) : bool :=
  match physical_type s, a with kBinary, AString b => zlen b =? width s | _, _ => true end.

Lemma attr_kind_typed s a : attr_kind s a -> width_fits s a = true <-> attr_typed s a.
Proof.
  unfold attr_kind, width_fits, attr_typed. destruct a as [| | | |b]; try by destruct (physical_type s).
  intros Hk. destruct (physical_type s); destruct Hk; try done.
  - rewrite Z.eqb_eq. split; [by left|]. intros [[_ ?]|?]; done.
  - split; [by right|done].
Qed.

Lemma widths_from o ss attrs i :
  (forall j s, ss !! j = Some s -> attr_specs o !! Z.to_nat (i + Z.of_nat j) = Some s) -> 0 <= i ->
  Forall2 attr_kind ss attrs ->
  exists st, CheckFixedBinaryWidths o i attrs = Ok st /\
    if forallb (fun p => width_fits p.1 p.2) (zip ss attrs) then st = OK else exists msg, st = InvalidArgument msg.
Proof.
  intros Hat Hi Hk. revert i Hat Hi. induction Hk as [|s a ss attrs Hk _ IH]; intros i Hat Hi; [by exists OK|].
  cbn [CheckFixedBinaryWidths zip zip_with forallb].
  assert (zget (attr_specs o) i = Ok s) as ->.
  { specialize (Hat 0%nat s eq_refl). rewrite Z.add_0_r in Hat. unfold zget. rewrite Hat. destruct (Z.ltb_spec i 0); [lia|done]. }
  cbn [mbind result_bind].
  destruct (IH (i + 1)) as (st & E & Hst); [|lia|].
  { intros j s' Hj. specialize (Hat (S j) s' Hj). by replace (i + 1 + Z.of_nat j) with (i + Z.of_nat (S j)) by lia. }
  assert ((if bool_decide (physical_type s = kBinary) && negb (is_monostate a)
           then str ← get_string a; Ok (negb (zlen str =? width s)) else Ok false) = Ok (negb (width_fits s a))) as ->.
  { unfold attr_kind, attr_typed, width_fits in *. destruct a; destruct (physical_type s) eqn:Es; try done;
      cbn in Hk; destruct_and?; try done; destruct Hk; done. }
  cbn [mbind result_bind]. cbn [fst snd]. destruct (width_fits s a); cbn [negb andb]; [by exists st|].
  eexists. split; [done|]. by eexists.
Qed.

(** What [RegisterColumnFamily] makes of valid options. *)
Record handle_ok (h : ColumnFamilyHandle) : Prop := {
  ho_schema : schema_ok (options_ h);
  ho_fits : schema_fits (attr_specs (options_ h));
  ho_layout : mkLayout (options_ h) = Ok (layout_ h);
}.

Lemma handle_layout h : handle_ok h -> layout_of (attr_specs (options_ h)) (layout_ h).
Proof.
  intros [H1 H2 H3]. destruct (mkLayout_spec _ H1 H2) as (lay & E & Hl). rewrite H3 in E. by injection E as ->.
Qed.

(** The rows the facade accepts: as many attributes as the schema, fixed
    binaries of their width. *)
Definition accepts (o : BitLSMOptions) (attrs : list Attr) : bool :=
  (zlen attrs =? attr_num o) && forallb (fun p => width_fits p.1 p.2) (zip (attr_specs o) attrs).
(** The rows a caller may pass: every attribute of its C++ alternative. *)
Definition kinds_ok (o : BitLSMOptions) (attrs : list Attr) : Prop :=
  zlen attrs = attr_num o -> Forall2 attr_kind (attr_specs o) attrs.

Lemma accepts_typed o attrs :
  accepts o attrs = true -> kinds_ok o attrs -> Forall2 attr_typed (attr_specs o) attrs.
Proof.
  intros [Hn%Z.eqb_eq Hw]%andb_true_iff Hk. specialize (Hk Hn). clear Hn. revert Hw.
  induction Hk as [|s a ss attrs Hk _ IH]; [constructor|]. cbn. intros [H1 H2]%andb_true_iff.
  constructor; [by apply attr_kind_typed|by apply IH].
Qed.

(** The check every write makes of its row. *)
Lemma row_check o attrs :
  kinds_ok o attrs ->
  if zlen attrs =? attr_num o then
    exists st, CheckFixedBinaryWidths o 0 attrs = Ok st /\
      if accepts o attrs then st = OK else exists msg, st = InvalidArgument msg
  else accepts o attrs = false.
Proof.
  intros Hk. unfold accepts. destruct (Z.eqb_spec (zlen attrs) (attr_num o)) as [E|E]; [|done]. cbn [andb].
  apply (widths_from o (attr_specs o) attrs 0); [|lia|by apply Hk]. intros j s Hj. by rewrite Z.add_0_l, Nat2Z.id.
Qed.

Section WriteSpec.
Context {D : Type} `{RocksWrite D} `{!RocksWriteLaws D _}.

(** [v] holds the row. *)
Definition holds_row (h : ColumnFamilyHandle) (v : bytes) (attrs : list Attr) (payload : bytes) : Prop :=
  (forall j s a, attr_specs (options_ h) !! j = Some s -> attrs !! j = Some a ->
     DecodeAttr (layout_ h) v (Z.of_nat j) = Ok (stored_value s a)) /\
  DecodePayload (layout_ h) v = Ok payload.

Lemma row_value_holds h attrs payload :
  handle_ok h -> Forall2 attr_typed (attr_specs (options_ h)) attrs -> row_fits (attr_specs (options_ h)) attrs ->
  holds_row h (Row.row_value (attr_specs (options_ h)) attrs payload) attrs payload.
Proof.
  intros Hh Ht Hf. pose proof (handle_layout h Hh) as Hl. split.
  - intros j s a Hs Ha. by eapply DecodeAttr_row.
  - by apply DecodePayload_row.
Qed.

Lemma Put_spec d buf h pk attrs payload :
  handle_ok h -> kinds_ok (options_ h) attrs ->
  (accepts (options_ h) attrs = true -> row_fits (attr_specs (options_ h)) attrs) ->
  if accepts (options_ h) attrs then
    let v := Row.row_value (attr_specs (options_ h)) attrs payload in
    Put d buf (Some h) pk attrs payload = Ok (db_Put d (rocksdb_handle_ h, pk, v), v)
  else exists msg, Put d buf (Some h) pk attrs payload = Ok (InvalidArgument msg, d, buf).
Proof.
  intros Hh Hk Hf. pose proof (row_check _ _ Hk) as Hc. unfold Put.
  destruct (zlen attrs =? attr_num (options_ h)); cbn [negb].
  - destruct Hc as (st & -> & Hst). cbn [mbind result_bind]. destruct (accepts (options_ h) attrs) eqn:Ea.
    + rewrite Hst. cbn [ok negb]. rewrite (EncodeValue_refines _ (attr_specs (options_ h))); [done|by apply handle_layout| |by apply Hf].
      by apply accepts_typed.
    + destruct Hst as [msg ->]. by exists msg.
  - rewrite Hc. by eexists.
Qed.

(** The puts of a batch. *)
Fixpoint batch_entries (h : ColumnFamilyHandle) (pks : list bytes) (attrs_list : list (list Attr)) (payloads : list bytes)
    : list put_entry :=
  match pks, attrs_list, payloads with
  | pk :: pks', attrs :: attrs_list', payload :: payloads' =>
      (rocksdb_handle_ h, pk, Row.row_value (attr_specs (options_ h)) attrs payload) :: batch_entries h pks' attrs_list' payloads'
  | _, _, _ => []
  end.

Lemma zget_app_here {A} (l1 l2 : list A) x : zget (l1 ++ x :: l2) (zlen l1) = Ok x.
Proof.
  unfold zget, zlen. rewrite Nat2Z.id. destruct (Z.ltb_spec (Z.of_nat (length l1)) 0); [lia|].
  by rewrite lookup_app_r, Nat.sub_diag by lia.
Qed.

Lemma batch_loop_spec h pks0 attrs0 payloads0 pks attrs_list payloads batch :
  handle_ok h -> zlen attrs0 = zlen pks0 -> zlen payloads0 = zlen pks0 ->
  length attrs_list = length pks -> length payloads = length pks ->
  Forall (fun attrs => kinds_ok (options_ h) attrs /\
    (accepts (options_ h) attrs = true -> row_fits (attr_specs (options_ h)) attrs)) attrs_list ->
  exists r, batch_loop h (pks0 ++ pks) (attrs0 ++ attrs_list) (payloads0 ++ payloads) (length pks) (zlen pks0) batch = Ok r /\
    if forallb (accepts (options_ h)) attrs_list then r = inr (batch ++ batch_entries h pks attrs_list payloads)
    else exists msg, r = inl (InvalidArgument msg).
Proof.
  intros Hh. revert pks0 attrs0 payloads0 attrs_list payloads batch.
  induction pks as [|pk pks IH]; intros pks0 attrs0 payloads0 [|attrs attrs_list] [|payload payloads] batch Ha Hp L1 L2 Hf; try done.
  { eexists. split; [done|]. cbn. by rewrite app_nil_r. }
  apply Forall_cons in Hf as [[Hk Hfit] Hf]. cbn [length batch_loop forallb batch_entries].
  rewrite <- Ha, zget_app_here. cbn [mbind result_bind]. pose proof (row_check _ _ Hk) as Hc.
  destruct (zlen attrs =? attr_num (options_ h)); cbn [negb].
  2: { rewrite Hc. eexists. split; [done|]. by eexists. }
  destruct Hc as (st & -> & Hst). cbn [mbind result_bind]. destruct (accepts (options_ h) attrs) eqn:Ea; cbn [andb].
  2: { destruct Hst as [msg ->]. eexists. split; [done|]. by eexists. }
  rewrite Hst. cbn [ok negb]. rewrite Ha, <- Hp, zget_app_here. cbn [mbind result_bind].
  rewrite (EncodeValue_refines _ (attr_specs (options_ h))); [|by apply handle_layout|by apply accepts_typed|by apply Hfit].
  cbn [mbind result_bind]. rewrite Hp, zget_app_here. cbn [mbind result_bind].
  destruct (IH (pks0 ++ [pk]) (attrs0 ++ [attrs]) (payloads0 ++ [payload]) attrs_list payloads
    (batch ++ [(rocksdb_handle_ h, pk, Row.row_value (attr_specs (options_ h)) attrs payload)])) as (r & E & Hr).
  1,2: by rewrite !zlen_app, ?Ha, ?Hp.
  1,2: by injection L1; injection L2. 1: done.
  rewrite <- !app_assoc, zlen_app in E. cbn [app] in E. exists r. split; [exact E|].
  by rewrite <- app_assoc in Hr.
Qed.

Lemma PutBatch_spec d h pks attrs_list payloads :
  handle_ok h -> zlen pks < 2 ^ 32 -> length attrs_list = length pks -> length payloads = length pks ->
  Forall (fun attrs => kinds_ok (options_ h) attrs /\
    (accepts (options_ h) attrs = true -> row_fits (attr_specs (options_ h)) attrs)) attrs_list ->
  exists r, PutBatch d (Some h) pks attrs_list payloads = Ok r /\
    if forallb (accepts (options_ h)) attrs_list then r = db_Write d (batch_entries h pks attrs_list payloads)
    else exists msg, r = (InvalidArgument msg, d).
Proof.
  intros Hh Hn L1 L2 Hf. unfold PutBatch. rewrite u32_small by (unfold is_u32, zlen in *; lia).
  replace (Z.to_nat (zlen pks)) with (length pks) by (unfold zlen; lia).
  destruct (batch_loop_spec h [] [] [] pks attrs_list payloads [] Hh eq_refl eq_refl L1 L2 Hf) as (r & E & Hr).
  cbn [app] in E. change (zlen (@nil bytes)) with 0 in E. rewrite E. cbn [mbind result_bind].
  destruct (forallb _ attrs_list); [rewrite Hr; by eexists|destruct Hr as [msg ->]; eexists; split; [done|by exists msg]].
Qed.

(** A read after a batch: the last put of the key, or what was there. *)
Lemma foldl_after_put b reads cf k :
  foldl after_put reads b cf k =
  match last (filter (fun p => cf = p.1.1 /\ k = p.1.2) b) with Some p => Some p.2 | None => reads cf k end.
Proof.
  revert reads. induction b as [|p b IH] using rev_ind; intros reads; [done|].
  rewrite foldl_app, filter_app. cbn [foldl]. unfold after_put at 1. rewrite filter_cons, filter_nil.
  case_decide as E.
  - rewrite bool_decide_eq_true_2 by done. by rewrite last_snoc.
  - rewrite bool_decide_eq_false_2 by done. rewrite app_nil_r. apply IH.
Qed.
End WriteSpec.

(** *** The entries of a batch *)
Lemma batch_entries_at h pks attrs_list payloads i pk attrs payload :
  pks !! i = Some pk -> attrs_list !! i = Some attrs -> payloads !! i = Some payload ->
  batch_entries h pks attrs_list payloads !! i =
    Some (rocksdb_handle_ h, pk, Row.row_value (attr_specs (options_ h)) attrs payload).
Proof.
  revert attrs_list payloads i. induction pks as [|pk' pks IH]; intros [|attrs' attrs_list] [|payload' payloads] [|i]; try done; cbn.
  - by intros [= ->] [= ->] [= ->].
  - apply IH.
Qed.
Lemma batch_entries_key h pks attrs_list payloads i p :
  batch_entries h pks attrs_list payloads !! i = Some p -> p.1.1 = rocksdb_handle_ h /\ pks !! i = Some p.1.2.
Proof.
  revert attrs_list payloads i. induction pks as [|pk' pks IH]; intros [|attrs' attrs_list] [|payload' payloads] [|i]; try done; cbn.
  - by intros [= <-].
  - apply IH.
Qed.

Lemma last_filter_at {A} (P : A -> Prop) `{!forall x, Decision (P x)} l i x :
  l !! i = Some x -> P x -> (forall j y, (i < j)%nat -> l !! j = Some y -> ~ P y) -> last (filter P l) = Some x.
Proof.
  intros Hi Hx Hl. rewrite <- (take_drop_middle l i x Hi), filter_app, filter_cons, decide_True by done.
  assert (filter P (drop (S i) l) = []) as ->.
  { destruct (filter P (drop (S i) l)) as [|y ys] eqn:E; [done|].
    assert (y ∈ filter P (drop (S i) l)) as Hy by (rewrite E; left).
    apply list_elem_of_filter in Hy as [Hp Hy]. apply list_elem_of_lookup in Hy as [j Hj].
    rewrite lookup_drop in Hj. destruct (Hl (S i + j)%nat y ltac:(lia) Hj Hp). }
  by rewrite last_snoc.
Qed.
Lemma filter_none {A} (P : A -> Prop) `{!forall x, Decision (P x)} l : (forall x, x ∈ l -> ~ P x) -> filter P l = [].
Proof.
  induction l as [|x l IH]; intros Hn; [done|]. rewrite filter_cons, decide_False by (apply Hn; left).
  apply IH. intros y Hy. apply Hn. by right.
Qed.

(** (C19) A batch is written whole or refused whole. For rows of the schema's
    C++ types whose encodings fit 32-bit offsets, [PutBatch] hands RocksDB one
    batch with every row, in order, if every row has the schema's number of
    attributes and every fixed binary its width, and otherwise returns
    InvalidArgument and writes nothing. Once the write is OK, a read of a key
    gives bytes from which every attribute and the payload of the key's last
    row decode; other keys and other column families read as before; and a
    failed write changed all of the batch's keys or none. *)
Theorem put_batch_correct {D} `{RocksWrite D} `{!RocksWriteLaws D _} (d : D) h pks attrs_list payloads :
  handle_ok h -> zlen pks < 2 ^ 32 -> length attrs_list = length pks -> length payloads = length pks ->
  Forall (fun attrs => kinds_ok (options_ h) attrs /\
    (accepts (options_ h) attrs = true -> row_fits (attr_specs (options_ h)) attrs)) attrs_list ->
  exists r, PutBatch d (Some h) pks attrs_list payloads = Ok r /\
    if forallb (accepts (options_ h)) attrs_list then
      let all := foldl after_put (db_Get d) (batch_entries h pks attrs_list payloads) in
      (r.1 = OK -> forall i pk attrs payload,
         pks !! i = Some pk -> attrs_list !! i = Some attrs -> payloads !! i = Some payload ->
         (forall j, (i < j)%nat -> pks !! j <> Some pk) ->
         exists v, db_Get r.2 (rocksdb_handle_ h) pk = Some v /\ holds_row h v attrs payload) /\
      (forall cf k, cf <> rocksdb_handle_ h \/ k ∉ pks -> db_Get r.2 cf k = db_Get d cf k) /\
      ((forall cf k, db_Get r.2 cf k = db_Get d cf k) \/ (forall cf k, db_Get r.2 cf k = all cf k))
    else exists msg, r = (InvalidArgument msg, d).
Proof.
  intros Hh Hn L1 L2 Hf. destruct (PutBatch_spec d h pks attrs_list payloads Hh Hn L1 L2 Hf) as (r & -> & Hr).
  exists r. split; [done|]. destruct (forallb _ attrs_list) eqn:Ea; [|done]. subst r.
  set (b := batch_entries _ _ _ _). cbv zeta. split_and!.
  - intros Hok i pk attrs payload Hi1 Hi2 Hi3 Hlast. rewrite (rw_write d b Hok), foldl_after_put.
    pose proof (batch_entries_at h _ _ _ i _ _ _ Hi1 Hi2 Hi3) as Hb. fold b in Hb.
    rewrite (last_filter_at _ b i _ Hb) by (try done; intros j y Hj Hy [_ Hk];
      destruct (batch_entries_key h _ _ _ j y Hy) as [_ Hy2]; rewrite <- Hk in Hy2; by apply (Hlast j)).
    eexists. split; [done|]. pose proof (proj1 (Forall_lookup _ _) Hf i attrs Hi2) as [Hk Hfit].
    rewrite forallb_forall in Ea. specialize (Ea attrs (proj1 (list_elem_of_In _ _) (list_elem_of_lookup_2 _ _ _ Hi2))).
    apply row_value_holds; [done|by apply accepts_typed|by apply Hfit].
  - intros cf k Hck. destruct (rw_atomic d b) as [Hx|Hx]; rewrite Hx; [done|]. rewrite foldl_after_put, filter_none; [done|].
    intros p Hp [H1 H2]. apply list_elem_of_lookup in Hp as [i Hi]. apply batch_entries_key in Hi as [H3 H4%list_elem_of_lookup_2].
    destruct Hck as [Hc|Hc]; apply Hc; [congruence|by rewrite H2].
  - apply rw_atomic.
Qed.

(** Two rows under one key, in a column family with a nullable integer and a
    string; and a row that lacks an attribute. *)
Definition demo_handle : ColumnFamilyHandle := mkCFHandle "default" 0 demo_options TableDemo.lay None.
Lemma demo_handle_ok : handle_ok demo_handle.
Proof. split; [exact demo_schema_ok|by vm_compute|by vm_compute]. Qed.
Definition demo_rows : list (list Attr) := [[AInt 7; AString [x61]]; demo_row; [ANull; AString [x63]]].
Lemma demo_rows_ok (extra : list (list Attr)) :
  Forall (fun attrs => length attrs <> 2%nat) extra ->
  Forall (fun attrs => kinds_ok demo_options attrs /\
    (accepts demo_options attrs = true -> row_fits (attr_specs demo_options) attrs)) (demo_rows ++ extra).
Proof.
  intros Hx. apply Forall_app. split.
  - repeat (apply Forall_cons; split; [split; [intros _|intros _; split; by vm_compute]|]); [..|constructor];
      (apply Forall2_cons; split; [cbn; unfold is_s64; (done || (split; [done|lia]))|]);
      (apply Forall2_cons; split; [by right|constructor]).
  - eapply Forall_impl; [exact Hx|]. intros attrs Hn. cbn beta in Hn. split.
    + intros E. change (attr_num demo_options) with 2 in E. unfold zlen in E. lia.
    + unfold accepts, zlen. change (attr_num demo_options) with 2. destruct (Z.eqb_spec (Z.of_nat (length attrs)) 2); [lia|done].
Qed.

Lemma put_batch_correct_witness :
  (exists r v, PutBatch (fun _ _ => None) (Some demo_handle) [[x6b]; [x6c]; [x6b]] demo_rows [[]; [x70]; []] = Ok r /\
     r.1 = OK /\ db_Get r.2 0 [x6c] = Some v /\ holds_row demo_handle v demo_row [x70]) /\
  exists msg, PutBatch (fun _ _ => None) (Some demo_handle) [[x6b]; [x6c]; [x6b]; [x6d]] (demo_rows ++ [[AInt 1]]) [[]; [x70]; []; []]
    = Ok (InvalidArgument msg, fun _ _ => None).
Proof.
  split.
  - destruct (put_batch_correct (fun _ _ => None) demo_handle [[x6b]; [x6c]; [x6b]] demo_rows [[]; [x70]; []]
      demo_handle_ok ltac:(done) eq_refl eq_refl) as (r & E & Hr); [by apply (demo_rows_ok [])|].
    destruct Hr as [Hr _]. assert (r.1 = OK) as Hok by (injection E as <-; done).
    destruct (Hr Hok 1%nat [x6c] demo_row [x70]) as (v & Hv & Hh); [done|done|done| |by exists r, v].
    intros [|[|[|j]]] Hj; (done || lia).
  - destruct (put_batch_correct (fun _ _ => None) demo_handle [[x6b]; [x6c]; [x6b]; [x6d]] (demo_rows ++ [[AInt 1]])
      [[]; [x70]; []; []] demo_handle_ok ltac:(done) eq_refl eq_refl) as (r & E & Hr).
    { apply demo_rows_ok. by repeat constructor. }
    destruct Hr as [msg ->]. by exists msg.
Defined.

(** Finding: NULL is accepted for an attribute that is not nullable, and reads
    back as an empty string. *)
Theorem null_becomes_value : exists v,
  nullable <$> attr_specs demo_options !! 1%nat = Some false /\
  PutBatch (fun _ _ => None) (Some demo_handle) [[x6b]] [[AInt 7; ANull]] [[]] =
    Ok (OK, after_put (fun _ _ => None) (0, [x6b], v)) /\
  DecodeAttr TableDemo.lay v 1 = Ok (AString []).
Proof. eexists. split; [done|]. split; [vm_compute; reflexivity|by vm_compute]. Qed.

(** ** NewIterator *)
#[global] Instance idx_less_weak : StrictWeak idx_less.
Proof. unfold idx_less. split; intros *; rewrite ?Z.ltb_lt, ?Z.ltb_ge; lia. Qed.

Section Sorted.
Context `{StdSort} `{!StdSortLaws _}.

Lemma sort_clauses_perm q : Forall2 (≡ₚ) (clause_groups (sort_clauses q)) (clause_groups q).
Proof.
  cbn [sort_clauses clause_groups]. induction (clause_groups q) as [|c cs IH]; constructor; [|done].
  by apply std_sort_perm, _.
Qed.

Lemma sorted_Forall (P : OrClause -> Prop) q :
  (forall c c', c ≡ₚ c' -> P c' -> P c) -> Forall P (clause_groups q) -> Forall P (clause_groups (sort_clauses q)).
Proof.
  intros HP. generalize (sort_clauses_perm q). induction 1 as [|c c' cs cs' Hc _ IH]; [done|].
  intros [H1 H2]%Forall_cons. constructor; [by eapply HP|by apply IH].
Qed.

Lemma sorted_wf q : query_wf q -> query_wf (sort_clauses q).
Proof. apply sorted_Forall. intros c c' Hp. by rewrite Hp. Qed.

Lemma sorted_valid q o : query_wf q -> Validate q o = OK -> Validate (sort_clauses q) o = OK.
Proof.
  intros Hwf. rewrite !Validate_ok by (done || by apply sorted_wf). apply sorted_Forall. intros c c' Hp [Hn Hc].
  split; [|by rewrite Hp]. intros ->. by apply Permutation_nil in Hp.
Qed.

Lemma sorted_conds q : concat (clause_groups (sort_clauses q)) ≡ₚ concat (clause_groups q).
Proof. generalize (sort_clauses_perm q). induction 1 as [|c c' cs cs' Hc _ IH]; [done|]. cbn. by rewrite Hc, IH. Qed.

Lemma sorted_fits q : query_fits q -> query_fits (sort_clauses q).
Proof.
  unfold query_fits, query_conds. intros [H1 H2]. pose proof (sorted_conds q) as Hp. split.
  - unfold zlen in *. by rewrite Hp.
  - unfold zlen in *. by rewrite Hp.
Qed.

(** The OR of a clause, whatever the order of its conditions. *)
Definition cond_true (lay : ValueLayout) (row : bytes) (c : QueryCondition) : bool :=
  match check_cond lay row c with Ok b => b | Fault _ => false end.
Lemma any_cond_existsb lay row clause :
  Forall (fun c => exists b, check_cond lay row c = Ok b) clause ->
  any_cond lay row clause = Ok (existsb (cond_true lay row) clause).
Proof.
  induction 1 as [|c clause [b Hb] _ IH]; [done|]. cbn [any_cond existsb]. unfold cond_true at 1. rewrite Hb.
  cbn [mbind result_bind]. by destruct b.
Qed.
Lemma existsb_perm {A} (f : A -> bool) l l' : l ≡ₚ l' -> existsb f l = existsb f l'.
Proof.
  induction 1 as [|x l l' _ IH|x y l|l l' l'' _ IH1 _ IH2]; cbn; [done|by rewrite IH| |congruence].
  by destruct (f x), (f y).
Qed.

Lemma sorted_check o lay q key row enc :
  schema_ok o -> schema_fits (attr_specs o) -> is_u32 (attr_num o) -> mkLayout o = Ok lay ->
  query_wf q -> Validate q o = OK -> ExtractAll lay key row = Ok enc ->
  CheckCondition (sort_clauses q) row lay = CheckCondition q row lay.
Proof.
  intros Hok Hfit Hnum El Hwf Hv Hext. destruct (mkLayout_spec o Hok Hfit) as (lay' & El' & Hlay).
  rewrite El in El'. injection El' as <-. pose proof (Validate_conds q o Hwf Hv) as Hval.
  assert (forall cs, CheckCondition (mkBitLSMQuery cs) row lay = check_clauses lay row cs) as Hcc by by intros [].
  destruct q as [cs]. unfold sort_clauses. cbn [clause_groups] in *. rewrite !Hcc.
  unfold query_wf in Hwf. cbn [clause_groups] in Hwf. clear Hv.
  assert (forall c, Forall (cond_valid o) c -> Forall cond_wf c ->
    check_clause lay row c UINT32_MAX ANull = Ok (existsb (cond_true lay row) c)) as Hone.
  { intros c Hc Hw. rewrite check_clause_any, any_cond_existsb; [done|..|by left].
    - apply Forall_forall. intros x Hx. rewrite !Forall_forall in *.
      destruct (check_cond_bytes o lay key row enc Hlay Hext x (Hc x Hx) (proj2 (Hw x Hx))) as (b & Hb & _). by exists b.
    - eapply Forall_impl; [exact Hc|]. intros x Hx%cond_valid_idx. rewrite (schema_size o Hok) in Hx.
      unfold UINT32_MAX, is_u32 in *. lia. }
  induction cs as [|c cs IH]; [done|]. apply Forall_cons in Hval as [Hc Hval]. apply Forall_cons in Hwf as [Hw Hwf].
  pose proof (std_sort_perm idx_less c _) as Hp. cbn [map check_clauses].
  rewrite (Hone c Hc Hw), (Hone (std_sort idx_less c)) by (by rewrite Hp). rewrite (existsb_perm _ _ _ Hp).
  cbn [mbind result_bind]. destruct (existsb _ c); [|done]. by apply IH.
Qed.
End Sorted.

Section Scan.
Context `{RoaringOps} `{!RoaringLaws _} {Src : BinSource} `{StdSort} `{!StdSortLaws _}.
Context (parse_key : bytes -> option ParsedInternalKey) (user_key_of : bytes -> bytes).
Context (icmp : bytes -> bytes -> comparison) (lookup_ikey : bytes -> Z -> bytes).
Context (R : Z) (db : lsm) (FindTable : FileMetaData -> table_reader + Status).
Context (mem_Get imm_Get : bytes -> mem_answer) (FindFile : list FileMetaData -> bytes -> nat).
Context (MultiGet : list bytes -> list (bytes + Status)).
Context (read_seqno : Z) (o : BitLSMOptions) (q : BitLSMQuery) (sh : lsm_shape) (lay : ValueLayout).
Local Abbreviation setting q := (scan_setting parse_key user_key_of icmp lookup_ikey R db FindTable mem_Get imm_Get FindFile
  MultiGet read_seqno o q sh lay).
Context (Hset : setting q).

Lemma sorted_setting : setting (sort_clauses q).
Proof. destruct Hset. split; try done; [by apply sorted_wf|by apply sorted_valid|by apply sorted_fits]. Qed.

Lemma sorted_answer k v :
  get parse_key read_seqno db k = Some v \/ own_file_deleted parse_key read_seqno db k v ->
  CheckCondition (sort_clauses q) v lay = CheckCondition q v lay.
Proof.
  destruct Hset. intros Hv. assert (exists e p, e ∈ all_entries db /\ parse_key (fst e) = Some p /\ is_value (pk_type p) = true /\ snd e = v)
    as (e & p & He & Hp & Hty & <-).
  { destruct Hv as [(e & p & He & Hp & _ & _ & Hty & Hv & _)%get_stored|Hv]; [by exists e, p|by eapply own_file_deleted_stored]. }
  destruct (ss_values e He) as (r & p' & Hp' & Hr). rewrite Hp in Hp'. injection Hp' as <-.
  unfold added_row in Hr. rewrite Hty in Hr. apply result_bind_ok in Hr as (enc & Hx & _). by eapply sorted_check.
Qed.
Lemma sorted_answers answers :
  query_answers parse_key db read_seqno (sort_clauses q) lay answers -> query_answers parse_key db read_seqno q lay answers.
Proof.
  intros [Hs Hsound Hcomp]. split; [done|..].
  - intros k v (Hk & Hc & Hv)%Hsound. by rewrite (sorted_answer k v Hv) in Hc.
  - intros k v Hg Hc. apply Hcomp; [done|]. by rewrite (sorted_answer k v (or_introl Hg)).
Qed.
End Scan.

(** [NewIterator] answers the caller's query. A null column family and a
    query [Validate] rejects give a null iterator and leave the query alone.
    Otherwise, although the call sorts the conditions of every clause, in any
    order [std::sort] may leave equal ones in, the iterator it returns, drained,
    gives a prefix, and when the final status is OK the whole, of rows that
    answer the query as the caller wrote it ([query_answers]). *)
Theorem NewIterator_answers `{RoaringOps} `{!RoaringLaws _} {Src : BinSource} `{StdSort} `{!StdSortLaws _}
    parse_key user_key_of icmp lookup_ikey R db FindTable mem_Get imm_Get FindFile MultiGet read_seqno h q sh :
  let make o q := scan_iter parse_key user_key_of lookup_ikey R db FindTable mem_Get imm_Get FindFile read_seqno o q sh Verified in
  NewIterator make None q = Ok (None, q) /\
  (ok (Validate q (options_ h)) = false -> NewIterator make (Some h) q = Ok (None, q)) /\
  (scan_setting parse_key user_key_of icmp lookup_ikey R db FindTable mem_Get imm_Get FindFile MultiGet read_seqno
     (options_ h) q sh (layout_ h) ->
   exists it n,
     NewIterator make (Some h) q = Ok (Some it, sort_clauses q) /\
     forall fuel, (n <= fuel)%nat -> exists answers out last, query_answers parse_key db read_seqno q (layout_ h) answers /\
       scan_run parse_key user_key_of icmp lookup_ikey db FindTable mem_Get imm_Get FindFile MultiGet read_seqno read_row fuel it
         = Ok (out, last) /\
       bi_valid last = false /\ out `prefix_of` answers /\ (ok (bi_status last) = true -> out = answers)).
Proof.
  intros make. split; [done|]. split; [intros Hv; unfold NewIterator; by rewrite Hv|]. intros Hset.
  pose proof (sorted_setting _ _ _ _ _ _ _ _ _ _ _ _ _ _ _ _ Hset) as Hs.
  destruct (verified_scan _ _ _ _ _ _ _ _ _ _ _ _ _ _ _ _ Hs) as (it & n & E & Hrun).
  exists it, n. split.
  - unfold NewIterator. rewrite (ss_valid _ _ _ _ _ _ _ _ _ _ _ _ _ _ _ _ Hset). cbn [ok negb]. unfold make. by rewrite E.
  - intros fuel Hf. destruct (Hrun fuel Hf) as (answers & out & last & Hqa & Hr). exists answers, out, last. split; [|done].
    exact (sorted_answers _ _ _ _ _ _ _ _ _ _ _ _ _ _ _ _ Hset answers Hqa).
Qed.

Lemma NewIterator_answers_witness : exists r it q' (answers : list (bytes * bytes)) v,
  NewIterator (fun o q => @scan_iter _ resident_source TableDemo.parse_key TableDemo.user_key_of ScanDemo.lookup_ikey 16 ScanDemo.db
    (ScanDemo.FindTable r) ScanDemo.mem_Get ScanDemo.imm_Get ScanDemo.FindFile 10 o q ScanDemo.shape Verified)
    (Some demo_handle) demo_query = Ok (Some it, q') /\
  ScanDemo.mem_entries !! 0%nat = Some ([x62; x0a; x01], v) /\ ([x62], v) ∈ answers.
Proof.
  destruct TableDemo.demo_reader as (r & Hm & Hr).
  destruct (proj2 (proj2 (@NewIterator_answers _ _ resident_source _ _ _ _ _ _ _ _ _ _ _ _ _ _ demo_handle _ _))
    (ScanDemo.setting r Hm Hr)) as (it & n & E & Hrun). destruct (Hrun n (le_n n)) as (answers & out & last & Hqa & _).
  eexists r, it, _, answers, _. split; [exact E|]. split; [reflexivity|].
  apply (qa_complete _ _ _ _ _ _ Hqa); [vm_compute; reflexivity|vm_compute; reflexivity|done].
Defined.
