(* ===== verification/Lifetimes.v ===== *)
(** * Column families: open, create, drop, close

    Models [BitLSM]'s constructor, [RegisterColumnFamily], [GetColumnFamily],
    [CreateColumnFamily], [DropColumnFamily] and destructor ([bit_lsm.cpp]) and
    [StatsRefreshListener] ([bit_lsm_estimator.h]), with the objects they
    allocate and free. Steps are as coarse as the locks allow: what runs under
    [cf_mu_] is one step up to the call of [Arm], which takes the listener's
    lock; a drop releases [cf_mu_] before it disarms, drops, stops the
    estimator, joins its worker and destroys the RocksDB handle, and RocksDB's
    notifications, the workers and other calls run in between.

    RocksDB's column family operations are a class with laws. *)
From Stdlib Require Import ZArith Lia Strings.String.
From stdpp Require Import base numbers strings list sets gmap relations.
From S2P Require Import Prelude Options Row Facade Worker.

(** ** RocksDB's column families *)
Class RocksCF (D : Type) := {
  (** the column families in the order of the names, as ids *)
  db_Open : list string -> Status + (D * list Z);
  db_CreateColumnFamily : D -> string -> D * (Status + Z);
  db_DropColumnFamily : D -> Z -> Status * D;
  db_cfs : D -> gmap Z string;  (** the live column families *)
  db_ids : D -> gset Z;         (** the ids ever given out *)
}.

(** Open succeeds only if every column family of the database is listed; ids
    are never reused; a name is given to one live column family at a time; a
    drop that fails may or may not have happened. *)
Class RocksCFLaws D (R : RocksCF D) : Prop := {
  rc_open names d ids : db_Open names = inr (d, ids) -> NoDup names ->
    length ids = length names /\ NoDup ids /\ db_cfs d = list_to_map (zip ids names) /\ db_ids d = list_to_set ids;
  rc_create d n d' id : db_CreateColumnFamily d n = (d', inr id) ->
    id ∉ db_ids d /\ (forall i, db_cfs d !! i <> Some n) /\
    db_cfs d' = <[id := n]> (db_cfs d) /\ db_ids d' = {[id]} ∪ db_ids d;
  rc_refused d n d' s : db_CreateColumnFamily d n = (d', inl s) -> db_cfs d' = db_cfs d /\ db_ids d' = db_ids d /\ ok s = false;
  rc_drop d id : db_ids (db_DropColumnFamily d id).2 = db_ids d /\
    (db_cfs (db_DropColumnFamily d id).2 = delete id (db_cfs d) \/
     (ok (db_DropColumnFamily d id).1 = false /\ db_cfs (db_DropColumnFamily d id).2 = db_cfs d));
}.

(** ** State *)

Record ColumnFamilyDescriptor := mkDescriptor { d_name : string; d_options : BitLSMOptions }.

(** An estimator: the column family its worker refers to, its pacing interval,
    and the state of its threads. *)
Record est := mkEst { est_cfd : Z; est_interval : Z; est_sync : rstate }.

(** How far an object's teardown is: erased from the registry, disarmed,
    dropped in RocksDB with a status, told to stop, joined, released. *)
Inductive teardown_pc :=
  | Unlocked | Disarmed | Dropped (s : Status) | Stopped (s : Status) | Joined (s : Status) | Released.

(** In the constructor after [DB::Open], in use, in the destructor with the
    handles it has yet to release, gone. *)
Inductive phase_t := Opening (todo : list (ColumnFamilyDescriptor * Z)) | Running | Closing (todo : list Z) | Closed.

Record bitlsm (D : Type) := mkBitLSM {
  db_ : D;
  cf_registry_ : gmap string Z;
  default_cf_ : option Z;
  targets_ : gmap Z Z;
  heap : gmap Z ColumnFamilyHandle;  (** the objects of type ColumnFamilyHandle *)
  ests : gmap Z est;                 (** the objects of type CardinalityEstimator *)
  handles : gset Z;                  (** RocksDB handles not yet destroyed *)
  next_addr : Z;
  teardown : gmap Z teardown_pc;
  arming : option (Z * Z);           (** a registration before its call of [Arm] *)
  phase : phase_t;
}.
Arguments mkBitLSM {D}.
Arguments db_ {D}. Arguments cf_registry_ {D}. Arguments default_cf_ {D}. Arguments targets_ {D}. Arguments heap {D}.
Arguments ests {D}. Arguments handles {D}. Arguments next_addr {D}. Arguments teardown {D}. Arguments arming {D}.
Arguments phase {D}.

Definition kDefaultColumnFamilyName : string := "default".

Section Ops.
Context {D : Type} `{RocksCF D}.
Implicit Types st : bitlsm D.

Definition set_targets st m := mkBitLSM (db_ st) (cf_registry_ st) (default_cf_ st) m (heap st) (ests st) (handles st)
  (next_addr st) (teardown st) (arming st) (phase st).
Definition set_ests st m := mkBitLSM (db_ st) (cf_registry_ st) (default_cf_ st) (targets_ st) (heap st) m (handles st)
  (next_addr st) (teardown st) (arming st) (phase st).
Definition set_teardown st m := mkBitLSM (db_ st) (cf_registry_ st) (default_cf_ st) (targets_ st) (heap st) (ests st) (handles st)
  (next_addr st) m (arming st) (phase st).
Definition set_phase st p := mkBitLSM (db_ st) (cf_registry_ st) (default_cf_ st) (targets_ st) (heap st) (ests st) (handles st)
  (next_addr st) (teardown st) (arming st) p.
Definition set_db st (d : D) := mkBitLSM d (cf_registry_ st) (default_cf_ st) (targets_ st) (heap st) (ests st) (handles st)
  (next_addr st) (teardown st) (arming st) (phase st).

(** ** The listener *)
Definition Arm st (cf_id e : Z) : bitlsm D := set_targets st (<[cf_id := e]> (targets_ st)).
Definition Disarm st (cf_id : Z) : bitlsm D := set_targets st (delete cf_id (targets_ st)).
Definition DisarmAll st : bitlsm D := set_targets st ∅.
Definition Notify st (cf_id : Z) : result (bitlsm D) :=
  match targets_ st !! cf_id with
  | None => Ok st
  | Some e =>
      x ← get_or UseAfterFree (ests st !! e);
      Ok (set_ests st (<[e := mkEst (est_cfd x) (est_interval x) (NotifyChange (est_sync x))]> (ests st)))
  end.

(** ** Registration *)

(** [RegisterColumnFamily] up to the call of [Arm]; [v] and [t] are the column
    family's version and the time when the estimator is constructed, which
    primes itself. *)
Definition RegisterColumnFamily (v t : Z) st (name : string) (handle : Z) (options : BitLSMOptions) : result (Z * bitlsm D) :=
  layout ← mkLayout options;
  let a := next_addr st in
  let e := a + 1 in
  let estimator := if enable_estimator options then Some e else None in
  let cf := mkCFHandle name handle options layout estimator in
  match cf_registry_ st !! name with
  | Some _ => Fault AssertionFailed
  | None =>
      Ok (a, mkBitLSM (db_ st) (<[name := a]> (cf_registry_ st)) (default_cf_ st) (targets_ st) (<[a := cf]> (heap st))
        (if enable_estimator options
         then <[e := mkEst handle (estimator_min_rebuild_interval_ms options) (NotifyChange (init v t))]> (ests st) else ests st)
        ({[handle]} ∪ handles st) (a + 2) (teardown st)
        (if enable_estimator options then Some (handle, e) else None) (phase st))
  end.

(** The call of [Arm] a registration ends with. *)
Definition finish_arming st : bitlsm D :=
  match arming st with
  | None => st
  | Some (cf_id, e) =>
      let s := Arm st cf_id e in
      mkBitLSM (db_ s) (cf_registry_ s) (default_cf_ s) (targets_ s) (heap s) (ests s) (handles s)
        (next_addr s) (teardown s) None (phase s)
  end.

(** ** The constructor *)

(** The two loops over the descriptors before [DB::Open]. *)
Fixpoint check_names (ds : list ColumnFamilyDescriptor) (seen : gset string) : result unit :=
  match ds with
  | [] => Ok tt
  | d :: rest => if bool_decide (d_name d ∈ seen) then Fault InvalidArgumentError else check_names rest ({[d_name d]} ∪ seen)
  end.
Fixpoint check_specs (ds : list ColumnFamilyDescriptor) : result unit :=
  match ds with
  | [] => Ok tt
  | d :: rest => if negb (ok (ValidateAttrSpecs (d_options d))) then Fault InvalidArgumentError else check_specs rest
  end.
Definition has_default (ds : list ColumnFamilyDescriptor) : bool :=
  existsb (fun d => bool_decide (d_name d = kDefaultColumnFamilyName)) ds.

(** The constructor up to the loop that registers. *)
Definition BitLSM_open (ds : list ColumnFamilyDescriptor) : result (bitlsm D) :=
  _ ← check_names ds ∅;
  if negb (has_default ds) then Fault InvalidArgumentError
  else
    _ ← check_specs ds;
    match db_Open (map d_name ds) with
    | inl _ => Fault RuntimeError
    | inr (d, ids) => Ok (mkBitLSM d ∅ None ∅ ∅ ∅ ∅ 0 ∅ None (Opening (zip ds ids)))
    end.

(** The constructor with one schema: that of the default column family. *)
Definition BitLSM_single (options : BitLSMOptions) : result (bitlsm D) :=
  BitLSM_open [mkDescriptor kDefaultColumnFamilyName options].

(** One iteration of that loop, and its end. *)
Definition open_step (v t : Z) st : result (bitlsm D) :=
  match phase st with
  | Opening ((d, handle) :: rest) =>
      '(_, st') ← RegisterColumnFamily v t st (d_name d) handle (d_options d); Ok (set_phase st' (Opening rest))
  | Opening [] =>
      (* cf_registry_.at throws when there is no such element *)
      a ← get_or OutOfBounds (cf_registry_ st !! kDefaultColumnFamilyName);
      Ok (mkBitLSM (db_ st) (cf_registry_ st) (Some a) (targets_ st) (heap st) (ests st) (handles st) (next_addr st)
        (teardown st) (arming st) Running)
  | _ => Ok st
  end.

(** ** The interface *)
Definition GetColumnFamily st (name : string) : option Z := cf_registry_ st !! name.

Definition CreateColumnFamily (v t : Z) st (name : string) (options : BitLSMOptions) : result (Status * option Z * bitlsm D) :=
  if bool_decide (is_Some (cf_registry_ st !! name)) then
    Ok (InvalidArgument ("column family already exists: " +:+ name), None, st)
  else
    let vs := ValidateAttrSpecs options in
    if negb (ok vs) then Ok (vs, None, st)
    else
      match db_CreateColumnFamily (db_ st) name with
      | (d, inl s) => Ok (s, None, set_db st d)
      | (d, inr handle) =>
          '(a, st') ← RegisterColumnFamily v t (set_db st d) name handle options; Ok (OK, Some a, st')
      end.

(** [DropColumnFamily] up to the end of its critical section: the status of an
    early return, or the object taken out of the registry. *)
Definition drop_begin st (cf : option Z) : result (Status + bitlsm D) :=
  match cf with
  | None => Ok (inl (InvalidArgument "cannot drop null or the default column family"))
  | Some a =>
      if bool_decide (Some a = default_cf_ st) then
        Ok (inl (InvalidArgument "cannot drop null or the default column family"))
      else
        h ← get_or UseAfterFree (heap st !! a);
        if bool_decide (cf_registry_ st !! name_ h = Some a) then
          Ok (inr (mkBitLSM (db_ st) (delete (name_ h) (cf_registry_ st)) (default_cf_ st) (targets_ st) (heap st) (ests st)
            (handles st) (next_addr st) (<[a := Unlocked]> (teardown st)) (arming st) (phase st)))
        else Ok (inl (InvalidArgument "unknown column family handle"))
  end.

(** ** Teardown *)

(** [estimator_.reset()]: the destructor tells the worker to stop, ... *)
Definition stop_estimator st (h : ColumnFamilyHandle) : result (bitlsm D) :=
  match estimator_ h with
  | None => Ok st
  | Some e =>
      x ← get_or UseAfterFree (ests st !! e);
      Ok (set_ests st (<[e := mkEst (est_cfd x) (est_interval x) (Destroy (est_sync x))]> (ests st)))
  end.
(** ... and frees it once the worker has returned. *)
Definition joinable st (h : ColumnFamilyHandle) : Prop :=
  match estimator_ h with
  | None => True
  | Some e => match ests st !! e with Some x => worker (est_sync x) = WExit | None => True end
  end.
Definition free_estimator st (h : ColumnFamilyHandle) : result (bitlsm D) :=
  match estimator_ h with
  | None => Ok st
  | Some e => _ ← get_or UseAfterFree (ests st !! e); Ok (set_ests st (delete e (ests st)))
  end.
Definition DestroyColumnFamilyHandle st (handle : Z) : result (bitlsm D) :=
  if bool_decide (handle ∈ handles st) then
    Ok (mkBitLSM (db_ st) (cf_registry_ st) (default_cf_ st) (targets_ st) (heap st) (ests st) (handles st ∖ {[handle]})
      (next_addr st) (teardown st) (arming st) (phase st))
  else Fault UseAfterFree.

(** The next action of the thread that tears [a] down: [DropColumnFamily]
    after its critical section, or an iteration of the destructor's loop. *)
Definition teardown_step st (a : Z) (pc : teardown_pc) : result (bitlsm D) :=
  h ← get_or UseAfterFree (heap st !! a);
  let at_ st pc := set_teardown st (<[a := pc]> (teardown st)) in
  match pc with
  | Unlocked => Ok (at_ (Disarm st (rocksdb_handle_ h)) Disarmed)
  | Disarmed => let '(s, d) := db_DropColumnFamily (db_ st) (rocksdb_handle_ h) in Ok (at_ (set_db st d) (Dropped s))
  | Dropped s => st' ← stop_estimator st h; Ok (at_ st' (Stopped s))
  | Stopped s => st' ← free_estimator st h; Ok (at_ st' (Joined s))
  | Joined _ =>
      st' ← DestroyColumnFamilyHandle st (rocksdb_handle_ h);
      Ok (match phase st with
          | Closing todo => set_phase (at_ st' Released) (Closing (tail todo))
          | _ => (* [owned] goes out of scope *)
              mkBitLSM (db_ st') (cf_registry_ st') (default_cf_ st') (targets_ st') (delete a (heap st')) (ests st') (handles st')
                (next_addr st') (delete a (teardown st')) (arming st') (phase st')
          end)
  | Released => Ok st
  end.

(** The destructor: [DisarmAll], then the loop over the registry in the order
    of the names; each object starts where a drop is after its RocksDB drop. *)
Definition close_begin st (order : list Z) : bitlsm D :=
  set_phase (set_teardown (DisarmAll st) (list_to_map (map (fun a => (a, Dropped OK)) order))) (Closing order).
(** [delete db_] and the members' destructors. *)
Definition close_end st : bitlsm D :=
  mkBitLSM (db_ st) ∅ None ∅ ∅ (ests st) (handles st) (next_addr st) ∅ None Closed.
End Ops.

(** ** Interleavings *)
Section Steps.
Context {D : Type} `{RocksCF D}.

(** The threads: the constructor, calls of the interface, drops after their
    critical section, RocksDB's notifications and its own changes, each
    estimator's threads, and the destructor, which runs alone with RocksDB and
    the estimators. [cf_mu_] is free when no registration is before its [Arm].
    The destructor's loop may take the objects in any order. *)
Inductive lstep : bitlsm D -> bitlsm D -> Prop :=
  | l_open v t todo st st' : phase st = Opening todo -> arming st = None -> open_step v t st = Ok st' -> lstep st st'
  | l_arm x st : arming st = Some x -> lstep st (finish_arming st)
  | l_create v t name options s a st st' : phase st = Running -> arming st = None ->
      CreateColumnFamily v t st name options = Ok (s, a, st') -> lstep st st'
  | l_drop cf st st' : phase st = Running -> arming st = None -> drop_begin st cf = Ok (inr st') -> lstep st st'
  | l_teardown a pc st st' : teardown st !! a = Some pc ->
      (forall todo, phase st = Closing todo -> head todo = Some a) ->
      (forall s h, pc = Stopped s -> heap st !! a = Some h -> joinable st h) ->
      teardown_step st a pc = Ok st' -> lstep st st'
  | l_notify cf_id st st' : Notify st cf_id = Ok st' -> lstep st st'
  | l_worker e x y st : ests st !! e = Some x -> Worker.step (est_interval x) (est_sync x) y ->
      lstep st (set_ests st (<[e := mkEst (est_cfd x) (est_interval x) y]> (ests st)))
  | l_rocks d st : db_cfs d = db_cfs (db_ st) -> db_ids d = db_ids (db_ st) -> lstep st (set_db st d)
  | l_close order st : phase st = Running -> arming st = None -> teardown st = ∅ ->
      order ≡ₚ map snd (map_to_list (cf_registry_ st)) -> lstep st (close_begin st order)
  | l_closed st : phase st = Closing [] -> lstep st (close_end st).

Definition opened (ds : list ColumnFamilyDescriptor) (st : bitlsm D) : Prop :=
  exists st0, BitLSM_open ds = Ok st0 /\ rtc lstep st0 st.

(** ** The invariant *)

(** What an object's teardown has not undone yet. *)
Definition armed_pc (p : option teardown_pc) : bool := match p with None | Some Unlocked => true | _ => false end.
Definition est_pc (p : option teardown_pc) : bool := match p with Some (Joined _) | Some Released => false | _ => true end.
Definition handle_pc (p : option teardown_pc) : bool := match p with Some Released => false | _ => true end.
Definition live_pc (p : option teardown_pc) : bool := match p with None | Some Unlocked | Some Disarmed => true | _ => false end.

Definition todo_ok (st : bitlsm D) (todo : list (ColumnFamilyDescriptor * Z)) : Prop :=
  teardown st = ∅ /\ NoDup (map (fun x => d_name x.1) todo) /\ NoDup (map snd todo) /\
  (forall d i, (d, i) ∈ todo -> cf_registry_ st !! d_name d = None /\ schema_ok (d_options d) /\
     (forall a h, heap st !! a = Some h -> rocksdb_handle_ h <> i) /\ i ∈ db_ids (db_ st) /\ db_cfs (db_ st) !! i = Some (d_name d)) /\
  (is_Some (cf_registry_ st !! kDefaultColumnFamilyName) \/ exists d i, (d, i) ∈ todo /\ d_name d = kDefaultColumnFamilyName).

Definition phase_ok (st : bitlsm D) : Prop :=
  match phase st with
  | Opening todo => todo_ok st todo
  | Running => (exists a, default_cf_ st = Some a /\ cf_registry_ st !! kDefaultColumnFamilyName = Some a) /\
      forall b, teardown st !! b <> Some Released
  | Closing todo => arming st = None /\ NoDup todo /\ forall a h, heap st !! a = Some h ->
      exists pc, teardown st !! a = Some pc /\ live_pc (Some pc) = false /\ (handle_pc (Some pc) = true <-> a ∈ todo)
  | Closed => heap st = ∅
  end.

Record linv (st : bitlsm D) : Prop := {
  li_heap a h : heap st !! a = Some h -> a < next_addr st /\ rocksdb_handle_ h ∈ db_ids (db_ st) /\
    schema_ok (options_ h) /\ mkLayout (options_ h) = Ok (layout_ h) /\
    (live_pc (teardown st !! a) = true -> db_cfs (db_ st) !! rocksdb_handle_ h = Some (name_ h)) /\
    (forall e, estimator_ h = Some e -> e < next_addr st);
  li_reg n a : cf_registry_ st !! n = Some a -> exists h, heap st !! a = Some h /\ name_ h = n;
  li_live n a : cf_registry_ st !! n = Some a -> (forall todo, phase st <> Closing todo) -> teardown st !! a = None;
  li_owned a h : heap st !! a = Some h -> teardown st !! a = None -> cf_registry_ st !! name_ h = Some a;
  li_tear a pc : teardown st !! a = Some pc -> is_Some (heap st !! a);
  li_ids a b h h' : heap st !! a = Some h -> heap st !! b = Some h' -> rocksdb_handle_ h = rocksdb_handle_ h' -> a = b;
  li_owner a b h h' e : heap st !! a = Some h -> heap st !! b = Some h' ->
    estimator_ h = Some e -> estimator_ h' = Some e -> a = b;
  li_targets i e : targets_ st !! i = Some e <-> exists a h, heap st !! a = Some h /\ rocksdb_handle_ h = i /\
    estimator_ h = Some e /\ armed_pc (teardown st !! a) = true /\ arming st <> Some (i, e);
  li_ests e : is_Some (ests st !! e) <-> exists a h, heap st !! a = Some h /\ estimator_ h = Some e /\
    est_pc (teardown st !! a) = true;
  li_est e x : ests st !! e = Some x -> (exists a h, heap st !! a = Some h /\ estimator_ h = Some e /\
    est_cfd x = rocksdb_handle_ h) /\ exists v t, Worker.reachable (est_interval x) v t (est_sync x);
  li_handles i : i ∈ handles st <-> exists a h, heap st !! a = Some h /\ rocksdb_handle_ h = i /\
    handle_pc (teardown st !! a) = true;
  li_arming i e : arming st = Some (i, e) -> exists a h, heap st !! a = Some h /\ rocksdb_handle_ h = i /\
    estimator_ h = Some e /\ teardown st !! a = None;
  li_stop a h e x s : heap st !! a = Some h -> estimator_ h = Some e -> ests st !! e = Some x ->
    teardown st !! a = Some (Stopped s) -> stop_ (est_sync x) = true;
}.

(** ** Every step keeps it *)

Lemma mkLayout_total o : schema_ok o -> exists lay, mkLayout o = Ok lay.
Proof.
  intros [Hn _]. unfold mkLayout. rewrite Hn, Z.ltb_irrefl. destruct (layout_counts _ _ _) as [[? ?] ?].
  destruct (layout_slots _ _ _) as [[? ?] ?]. by eexists.
Qed.

Lemma ex_insert (m : gmap Z ColumnFamilyHandle) a h (P : Z -> ColumnFamilyHandle -> Prop) :
  m !! a = None ->
  (exists b h', <[a := h]> m !! b = Some h' /\ P b h') <-> P a h \/ exists b h', m !! b = Some h' /\ P b h'.
Proof.
  intros Ha. split.
  - intros (b & h' & [[<- <-]|[_ Hb]]%lookup_insert_Some & HP); [by left|right; by exists b, h'].
  - intros [HP|(b & h' & Hb & HP)]; [exists a, h; by rewrite lookup_insert_eq|].
    exists b, h'. rewrite lookup_insert_ne by congruence. done.
Qed.

(** A registered object and its estimator get new addresses. *)
Section Register.
Context (v t : Z) (st : bitlsm D) (name : string) (handle : Z) (options : BitLSMOptions) (lay : ValueLayout).
Context (Hi : linv st) (Ha : arming st = None) (Hfresh : forall a h, heap st !! a = Some h -> rocksdb_handle_ h <> handle).
Local Abbreviation a := (next_addr st).
Local Abbreviation est := (if enable_estimator options then Some (a + 1) else None).
Local Abbreviation h := (mkCFHandle name handle options lay est).
Local Abbreviation new_est := (mkEst handle (estimator_min_rebuild_interval_ms options) (NotifyChange (init v t))).
Local Abbreviation new_ests := (if enable_estimator options then <[a + 1 := new_est]> (ests st) else ests st).

Lemma fresh_addr : heap st !! a = None /\ teardown st !! a = None.
Proof.
  assert (heap st !! a = None) as H0.
  { destruct (heap st !! a) as [h'|] eqn:E; [|done]. apply (li_heap _ Hi) in E as [? _]. lia. }
  split; [done|]. destruct (teardown st !! a) as [pc|] eqn:E; [|done]. apply (li_tear _ Hi) in E as [? ?]. congruence.
Qed.
Lemma older_est b h' e : heap st !! b = Some h' -> estimator_ h' = Some e -> e < a.
Proof. intros Hb. apply (li_heap _ Hi) in Hb as (_ & _ & _ & _ & _ & Hb). apply Hb. Qed.
Lemma new_est_addr e : est = Some e -> e = a + 1.
Proof. destruct (enable_estimator options); [by intros [= <-]|done]. Qed.

Lemma register_owner b c h1 h2 : <[a := h]> (heap st) !! b = Some h1 -> <[a := h]> (heap st) !! c = Some h2 ->
  rocksdb_handle_ h1 = rocksdb_handle_ h2 \/ (exists e, estimator_ h1 = Some e /\ estimator_ h2 = Some e) -> b = c.
Proof.
  intros [[<- <-]|[Hne Hb]]%lookup_insert_Some [[<- <-]|[Hne' Hc]]%lookup_insert_Some; [done|..].
  - intros [E|(e & E1%new_est_addr & E2)]; [by destruct (Hfresh c h2 Hc)|]. pose proof (older_est c h2 e Hc E2). lia.
  - intros [E|(e & E1 & E2%new_est_addr)]; [by destruct (Hfresh b h1 Hb)|]. pose proof (older_est b h1 e Hb E1). lia.
  - intros [E|(e & E1 & E2)]; [by eapply (li_ids _ Hi)|by eapply (li_owner _ Hi)].
Qed.

Lemma register_targets i e : targets_ st !! i = Some e <->
  exists b h', <[a := h]> (heap st) !! b = Some h' /\ rocksdb_handle_ h' = i /\ estimator_ h' = Some e /\
    armed_pc (teardown st !! b) = true /\ (if enable_estimator options then Some (handle, a + 1) else None) <> Some (i, e).
Proof.
  rewrite (li_targets _ Hi), ex_insert by apply fresh_addr. rewrite Ha. split.
  - intros (b & h' & Hb & H1 & H2 & H3 & _). right. exists b, h'. split_and!; try done. pose proof (older_est b h' e Hb H2).
    destruct (enable_estimator options); [|done]. intros [= ? ?]. lia.
  - intros [(H1 & H2 & H3 & H4)|(b & h' & Hb & H1 & H2 & H3 & _)]; [|by exists b, h'].
    cbn in H1, H2. destruct (enable_estimator options); [|done]. congruence.
Qed.

Lemma register_ests e : is_Some (new_ests !! e) <->
  exists b h', <[a := h]> (heap st) !! b = Some h' /\ estimator_ h' = Some e /\ est_pc (teardown st !! b) = true.
Proof.
  destruct fresh_addr as [H0 H1]. rewrite ex_insert by done. cbn [estimator_]. rewrite H1.
  destruct (enable_estimator options) eqn:Ee; [rewrite lookup_insert_is_Some'|]; rewrite (li_ests _ Hi); naive_solver.
Qed.

Lemma register_est e x : new_ests !! e = Some x ->
  (exists b h', <[a := h]> (heap st) !! b = Some h' /\ estimator_ h' = Some e /\ est_cfd x = rocksdb_handle_ h') /\
  exists v t, Worker.reachable (est_interval x) v t (est_sync x).
Proof.
  intros Hx. destruct fresh_addr as [H0 _].
  assert ((e = a + 1 /\ x = new_est /\ enable_estimator options = true) \/ ests st !! e = Some x) as [(-> & -> & Ee)|Hx'].
  { destruct (enable_estimator options); [|by right]. apply lookup_insert_Some in Hx. naive_solver. }
  - split; [exists a, h; rewrite lookup_insert_eq; cbn; by rewrite Ee|].
    exists v, t. cbn. eapply rtc_r; [apply rtc_refl|]. apply other_steps, e_notify.
  - destruct (li_est _ Hi e x Hx') as [(b & h' & Hb & He & Hc) Hr]. split; [|done]. exists b, h'.
    rewrite lookup_insert_ne by congruence. done.
Qed.
End Register.

Lemma register_inv v t st name handle options :
  linv st -> arming st = None -> (forall todo, phase st <> Closing todo) -> schema_ok options ->
  cf_registry_ st !! name = None -> handle ∈ db_ids (db_ st) -> db_cfs (db_ st) !! handle = Some name ->
  (forall a h, heap st !! a = Some h -> rocksdb_handle_ h <> handle) ->
  exists st', RegisterColumnFamily v t st name handle options = Ok (next_addr st, st') /\ linv st' /\
    db_ st' = db_ st /\ cf_registry_ st' = <[name := next_addr st]> (cf_registry_ st) /\ default_cf_ st' = default_cf_ st /\
    teardown st' = teardown st /\ phase st' = phase st /\
    exists h, heap st' = <[next_addr st := h]> (heap st) /\ rocksdb_handle_ h = handle.
Proof.
  intros Hi Ha Hph Hs Hn Hid Hcf Hfresh. destruct (mkLayout_total _ Hs) as [lay El]. destruct (fresh_addr st Hi) as [Ha0 Ht0].
  unfold RegisterColumnFamily. rewrite El, Hn. cbn [mbind result_bind]. eexists. split; [done|].
  set (a := next_addr st) in *. set (h := mkCFHandle _ _ _ _ _). split; [|by split_and!; try done; exists h].
  split; cbn [db_ cf_registry_ default_cf_ targets_ heap ests handles next_addr teardown arming phase].
  - intros b h' [[<- <-]|[_ Hb]]%lookup_insert_Some.
    + split_and!; try done; [lia|]. intros e ->%new_est_addr. subst a. lia.
    + destruct (li_heap _ Hi b h' Hb) as (H1 & H2 & H3 & H4 & H5 & H6). split_and!; try done; [lia|].
      intros e He. specialize (H6 e He). lia.
  - intros n b [[<- <-]|[Hne Hb]]%lookup_insert_Some; [exists h; by rewrite lookup_insert_eq|].
    destruct (li_reg _ Hi n b Hb) as (h' & Hh' & Hname). exists h'. rewrite lookup_insert_ne by congruence. done.
  - intros n b [[<- <-]|[Hne Hb]]%lookup_insert_Some Hx; [done|by apply (li_live _ Hi n)].
  - intros b h' [[<- <-]|[Hne Hb]]%lookup_insert_Some Hx; [by rewrite lookup_insert_eq|].
    pose proof (li_owned _ Hi b h' Hb Hx) as Ho. rewrite lookup_insert_ne by congruence. done.
  - intros b pc Hpc. apply lookup_insert_is_Some'. right. by eapply (li_tear _ Hi).
  - intros b c h1 h2 Hb Hc Heq. eapply (register_owner st name handle options lay Hi Hfresh); [exact Hb|exact Hc|by left].
  - intros b c h1 h2 e Hb Hc He1 He2. eapply (register_owner st name handle options lay Hi Hfresh); [exact Hb|exact Hc|]. right. by exists e.
  - by apply register_targets.
  - by apply register_ests.
  - by apply register_est.
  - intros i. rewrite ex_insert by done. cbn [rocksdb_handle_ h]. rewrite Ht0, elem_of_union, elem_of_singleton, (li_handles _ Hi).
    naive_solver.
  - intros i e He. exists a, h. rewrite lookup_insert_eq. cbn [rocksdb_handle_ estimator_ h].
    destruct (enable_estimator options); [|done]. injection He as <- <-. done.
  - intros b h' e x s [[<- <-]|[Hne Hb]]%lookup_insert_Some He Hx Hst; [congruence|]. eapply (li_stop _ Hi b); try done.
    pose proof (older_est st Hi b h' e Hb He). destruct (enable_estimator options); [|done]. rewrite lookup_insert_ne in Hx by lia. done.
Qed.

(** The call of [Arm]. *)
Lemma arm_inv st x : linv st -> arming st = Some x -> linv (finish_arming st).
Proof.
  intros Hi Ea. destruct x as [i0 e0]. destruct (li_arming _ Hi i0 e0 Ea) as (a & h & Ha & Hid & He & Ht).
  unfold finish_arming. rewrite Ea. destruct Hi. split; try done.
  intros i e. cbn. rewrite lookup_insert_Some, li_targets0. split.
  - intros [[<- <-]|(Hne & b & h' & Hb & H1 & H2 & H3 & _)]; [|by exists b, h'].
    exists a, h. by rewrite Ht.
  - intros (b & h' & Hb & H1 & H2 & H3 & _). destruct (decide (i0 = i)) as [E|E].
    + subst i i0. rewrite (li_ids0 a b h h' Ha Hb E) in Ha. rewrite Ha in Hb. injection Hb as <-.
      left. split; [done|congruence].
    + right. split; [done|]. exists b, h'. rewrite Ea. split_and!; try done. congruence.
Qed.

(** What an object holds until its teardown has reached some point, [f], others
    holding the same being excluded by [C]. *)
Lemma pending_iff (m : gmap Z ColumnFamilyHandle) (td : gmap Z teardown_pc) a h p p' (f : option teardown_pc -> bool) (Q : ColumnFamilyHandle -> Prop) (C : Prop) :
  m !! a = Some h -> td !! a = Some p -> (f (Some p') = true -> f (Some p) = true) ->
  (Q h -> C) -> (forall b h', m !! b = Some h' -> Q h' -> C -> b = a) ->
  (exists b h', m !! b = Some h' /\ Q h' /\ f (td !! b) = true) /\ (C -> f (Some p') = true) <->
  exists b h', m !! b = Some h' /\ Q h' /\ f (<[a := p']> td !! b) = true.
Proof.
  intros Ha Hp Hf HQ Hu. split.
  - intros [(b & h' & Hb & H1 & H2) Hx]. exists b, h'. split_and!; try done. destruct (decide (b = a)) as [->|Hba].
    + rewrite Ha in Hb. injection Hb as <-. rewrite lookup_insert_eq. by apply Hx, HQ.
    + by rewrite lookup_insert_ne.
  - intros (b & h' & Hb & H1 & H2). destruct (decide (b = a)) as [->|Hba].
    + rewrite lookup_insert_eq in H2. split; [|done]. exists a, h'. rewrite Hp. split_and!; try done. by apply Hf.
    + rewrite lookup_insert_ne in H2 by done. split; [by exists b, h'|]. intros Hc. destruct Hba. by eapply Hu.
Qed.

(** Progress of one object's teardown, in terms of what it undoes. *)
Lemma teardown_inv st st' a h p p' :
  linv st -> heap st !! a = Some h -> teardown st !! a = Some p ->
  cf_registry_ st' = cf_registry_ st -> heap st' = heap st -> next_addr st' = next_addr st -> arming st' = arming st ->
  ((forall todo, phase st' <> Closing todo) -> forall todo, phase st <> Closing todo) ->
  teardown st' = <[a := p']> (teardown st) ->
  db_ids (db_ st') = db_ids (db_ st) ->
  (forall i, i <> rocksdb_handle_ h \/ live_pc (Some p') = true -> db_cfs (db_ st') !! i = db_cfs (db_ st) !! i) ->
  (live_pc (Some p') = true -> live_pc (Some p) = true) -> (armed_pc (Some p') = true -> armed_pc (Some p) = true) ->
  (est_pc (Some p') = true -> est_pc (Some p) = true) -> (handle_pc (Some p') = true -> handle_pc (Some p) = true) ->
  (forall i e, targets_ st' !! i = Some e <-> targets_ st !! i = Some e /\ (i = rocksdb_handle_ h -> armed_pc (Some p') = true)) ->
  (forall e, is_Some (ests st' !! e) <-> is_Some (ests st !! e) /\ (estimator_ h = Some e -> est_pc (Some p') = true)) ->
  (forall e x, ests st' !! e = Some x -> exists x0, ests st !! e = Some x0 /\ est_cfd x = est_cfd x0 /\
     forall v t, Worker.reachable (est_interval x0) v t (est_sync x0) -> Worker.reachable (est_interval x) v t (est_sync x)) ->
  (forall e x s, estimator_ h = Some e -> ests st' !! e = Some x -> p' = Stopped s -> stop_ (est_sync x) = true) ->
  (forall e, estimator_ h <> Some e -> ests st' !! e = ests st !! e) ->
  (forall i, i ∈ handles st' <-> i ∈ handles st /\ (i = rocksdb_handle_ h -> handle_pc (Some p') = true)) ->
  linv st'.
Proof.
  intros Hi Ha Hp Er Eh En Ear Eph Et Eids Ecfs Mlive Marm Mest Mhd Htg Hes Hex Hstp Hother Hhd.
  destruct Hi as [Iheap Ireg Ilive Iowned Itear Iids Iowner Itg Iests Iest Ihd Iarm Istop].
  assert (forall b, b <> a -> <[a := p']> (teardown st) !! b = teardown st !! b) as Hne
    by (intros b Hb; by rewrite lookup_insert_ne).
  split; rewrite ?Er, ?Eh, ?En, ?Ear, ?Et, ?Eids.
  - intros b h' Hb. destruct (Iheap b h' Hb) as (H1 & H2 & H3 & H4 & H5 & H6). split_and!; try done. destruct (decide (b = a)) as [->|Hba].
    + rewrite Ha in Hb. injection Hb as <-. rewrite lookup_insert_eq. intros Hl. rewrite Ecfs by (by right).
      apply H5. rewrite Hp. by apply Mlive.
    + rewrite Hne by done. intros Hl. rewrite Ecfs; [by apply H5|]. left. intros E. apply Hba. by eapply Iids.
  - done.
  - intros n b Hb Hph. rewrite Hne; [by eapply Ilive; eauto|]. intros ->. rewrite (Ilive n a Hb (Eph Hph)) in Hp. done.
  - intros b h' Hb. destruct (decide (b = a)) as [->|Hba]; [by rewrite lookup_insert_eq|]. rewrite Hne by done. by apply Iowned.
  - intros b pc Hb. destruct (decide (b = a)) as [->|Hba]; [by rewrite Ha|]. rewrite Hne in Hb by done. by eapply Itear.
  - done.
  - done.
  - intros i e. rewrite Htg, Itg.
    pose proof (pending_iff (heap st) (teardown st) a h p p' armed_pc
      (fun h' => rocksdb_handle_ h' = i /\ estimator_ h' = Some e) (i = rocksdb_handle_ h) Ha Hp Marm) as Hpi.
    assert (forall b h', heap st !! b = Some h' -> rocksdb_handle_ h' = i /\ estimator_ h' = Some e -> i = rocksdb_handle_ h -> b = a) as Hu
      by (intros b h' Hb [<- _] E; by eapply Iids).
    specialize (Hpi ltac:(by intros [<- _]) Hu). split.
    + intros [(b & h' & Hb & H1 & H2 & H3 & H4) Hx]. destruct (proj1 Hpi) as (c & h1 & Hc & [H5 H6] & H7); [|by exists c, h1].
      split; [by exists b, h'|done].
    + intros (b & h' & Hb & H1 & H2 & H3 & H4). destruct (proj2 Hpi) as [(c & h1 & Hc & [H5 H6] & H7) Hx]; [by exists b, h'|].
      split; [by exists c, h1|done].
  - intros e. rewrite Hes, Iests. apply pending_iff with (h := h) (p := p); try done. intros b h' Hb He He'. by eapply Iowner.
  - intros e x Hx. destruct (Hex e x Hx) as (x0 & Hx0 & Ec & Hr). destruct (Iest e x0 Hx0) as [Hown (v & t & Hvt)].
    rewrite Ec. split; [done|]. exists v, t. by apply Hr.
  - intros i. rewrite Hhd, Ihd. apply pending_iff with (h := h) (p := p); try done. intros b h' Hb <- E. by eapply Iids.
  - intros i e He. destruct (Iarm i e He) as (b & h' & Hb & H1 & H2 & H3). exists b, h'. split_and!; try done.
    rewrite Hne; [done|]. intros ->. congruence.
  - intros b h' e x s Hb He Hx Hst. destruct (decide (b = a)) as [->|Hba].
    + rewrite lookup_insert_eq in Hst. injection Hst as ->. rewrite Ha in Hb. injection Hb as <-. by eapply Hstp.
    + rewrite Hne in Hst by done. rewrite Hother in Hx; [by eapply Istop|]. intros He'. destruct Hba. by eapply Iowner.
Qed.

(** What an estimator's threads do. *)
Lemma ests_inv st e x y :
  linv st -> ests st !! e = Some x -> rtc (Worker.step (est_interval x)) (est_sync x) y ->
  linv (set_ests st (<[e := mkEst (est_cfd x) (est_interval x) y]> (ests st))).
Proof.
  intros Hi Hx Hy. destruct Hi. split; try done; cbn.
  - intros e'. rewrite <- li_ests0, lookup_insert_is_Some'. split; [intros [<-|?]; [by rewrite Hx|done]|by right].
  - intros e' x' [[<- <-]|[Hne Hx']]%lookup_insert_Some; [|by apply li_est0]. destruct (li_est0 e x Hx) as [Hown (v & t & Hr)].
    split; [done|]. exists v, t. unfold Worker.reachable in *. cbn. by etrans.
  - intros a h e' x' s Ha He [[<- <-]|[Hne Hx']]%lookup_insert_Some Hst; [|by eapply li_stop0]. cbn.
    pose proof (li_stop0 a h e x s Ha He Hx Hst) as Hs. clear -Hs Hy. induction Hy as [|s1 s2 s3 H12 _ IH]; [done|].
    by apply IH, (step_stop (est_interval x) s1).
Qed.
(** *** Teardown *)
Context `{!RocksCFLaws D _}.

Lemma teardown_phase st a pc :
  linv st -> phase_ok st -> teardown st !! a = Some pc -> phase st = Running \/ exists todo, phase st = Closing todo.
Proof.
  intros Hi Hp Ha. unfold phase_ok, todo_ok in Hp. destruct (phase st) as [todo| |todo|]; [|by left|right; by eexists|].
  - destruct Hp as [Hp _]. by rewrite Hp in Ha.
  - apply (li_tear _ Hi) in Ha as [h Ha]. by rewrite Hp in Ha.
Qed.

(** A teardown step that leaves the RocksDB handle keeps the phase. *)
Lemma phase_update st st' a p p' :
  phase_ok st -> teardown st !! a = Some p -> phase st = Running \/ (exists todo, phase st = Closing todo) ->
  phase st' = phase st -> heap st' = heap st -> arming st' = arming st -> default_cf_ st' = default_cf_ st ->
  cf_registry_ st' = cf_registry_ st -> teardown st' = <[a := p']> (teardown st) ->
  (live_pc (Some p) = false -> live_pc (Some p') = false) -> handle_pc (Some p') = handle_pc (Some p) -> phase_ok st'.
Proof.
  intros Hp Ha Hph E1 E2 E3 E4 E5 E6 Hlive Hhd. unfold phase_ok in *. rewrite E1. destruct Hph as [Hph|[todo Hph]]; rewrite Hph in *.
  - rewrite E4, E5, E6. destruct Hp as [Hp1 Hp2]. split; [done|]. intros b [[<- ->]|[_ Hb]]%lookup_insert_Some; [|by destruct (Hp2 b)].
    apply (Hp2 a). rewrite Ha. by destruct p.
  - rewrite E2, E3, E6. destruct Hp as (H1 & H2 & H3). split_and!; try done. intros b h Hb.
    destruct (H3 b h Hb) as (pc & Hpc & Hl & Hh). destruct (decide (b = a)) as [->|Hne].
    + exists p'. rewrite lookup_insert_eq. rewrite Hpc in Ha. injection Ha as ->. rewrite Hhd. auto.
    + exists pc. by rewrite lookup_insert_ne.
Qed.

Lemma target_of st a h i e :
  linv st -> heap st !! a = Some h -> armed_pc (teardown st !! a) = false -> targets_ st !! i = Some e -> i <> rocksdb_handle_ h.
Proof.
  intros Hi Ha Hp Ht ->. apply (li_targets _ Hi) in Ht as (b & h' & Hb & H1 & _ & H3 & _).
  rewrite (li_ids _ Hi b a h' h Hb Ha H1) in H3. congruence.
Qed.

Lemma est_alive st a h e :
  linv st -> heap st !! a = Some h -> estimator_ h = Some e -> est_pc (teardown st !! a) = true -> exists x, ests st !! e = Some x.
Proof. intros Hi Ha He Hp. apply (li_ests _ Hi). by exists a, h. Qed.

(** Discharge the parts of [teardown_inv] a step does not touch. *)
Ltac untouched :=
  first [ done | by intros | intros; split; [by intros; split|by intros [? _]]
        | intros e x ->; exists x; by split_and! ].

Lemma disarm_ok st a h :
  linv st -> heap st !! a = Some h -> teardown st !! a = Some Unlocked ->
  linv (set_teardown (Disarm st (rocksdb_handle_ h)) (<[a := Disarmed]> (teardown st))).
Proof.
  intros Hi Ha Hp. eapply (teardown_inv st _ a h Unlocked Disarmed); try done; cbn.
  - intros i e. rewrite lookup_delete_Some. naive_solver.
  - untouched.
  - untouched.
  - untouched.
Qed.

Lemma drop_ok st a h s d :
  linv st -> heap st !! a = Some h -> teardown st !! a = Some Disarmed ->
  db_DropColumnFamily (db_ st) (rocksdb_handle_ h) = (s, d) ->
  linv (set_teardown (set_db st d) (<[a := Dropped s]> (teardown st))).
Proof.
  intros Hi Ha Hp Hd. pose proof (rc_drop (db_ st) (rocksdb_handle_ h)) as [H1 H2]. rewrite Hd in H1, H2. cbn [fst snd] in *.
  eapply (teardown_inv st _ a h Disarmed (Dropped s)); try done; cbn.
  - intros i [Hne|Hx]; [|done]. destruct H2 as [->|[_ ->]]; [|done]. by rewrite lookup_delete_ne.
  - intros i e. split; [|by intros [? _]]. intros Ht. split; [done|]. intros E. exfalso.
    eapply (target_of st a h); try done. by rewrite Hp.
  - untouched.
  - untouched.
  - untouched.
Qed.
Lemma not_armed st a h p :
  linv st -> heap st !! a = Some h -> teardown st !! a = Some p -> armed_pc (Some p) = false ->
  forall i e, targets_ st !! i = Some e <-> targets_ st !! i = Some e /\ (i = rocksdb_handle_ h -> false = true).
Proof.
  intros Hi Ha Hp Harm i e. split; [|by intros [? _]]. intros Ht. split; [done|]. intros E. exfalso.
  eapply (target_of st a h); try done. by rewrite Hp.
Qed.

Lemma stop_ok st a h s :
  linv st -> heap st !! a = Some h -> teardown st !! a = Some (Dropped s) ->
  exists st', stop_estimator st h = Ok st' /\ linv (set_teardown st' (<[a := Stopped s]> (teardown st))) /\
    cf_registry_ st' = cf_registry_ st /\ default_cf_ st' = default_cf_ st /\ heap st' = heap st /\
    teardown st' = teardown st /\ arming st' = arming st /\ phase st' = phase st.
Proof.
  intros Hi Ha Hp. unfold stop_estimator. destruct (estimator_ h) as [e|] eqn:He.
  - destruct (est_alive st a h e Hi Ha He) as [x Hx]; [by rewrite Hp|]. rewrite Hx. cbn [get_or mbind result_bind].
    eexists. split; [done|]. split; [|done].
    eapply (teardown_inv st _ a h (Dropped s) (Stopped s)); try done; cbn; [by eapply not_armed| | | | |untouched].
    + intros e'. rewrite lookup_insert_is_Some'. split; [intros [<-|?]; [by rewrite Hx|done]|]. intros [? _]. by right.
    + intros e' y [[<- <-]|[Hne Hy]]%lookup_insert_Some; [|by exists y]. exists x. split_and!; try done. cbn. intros v t Hr.
      eapply rtc_r; [exact Hr|]. apply other_steps, e_stop.
    + intros e' y s' He' Hy _. assert (e' = e) as -> by congruence. rewrite lookup_insert_eq in Hy. by injection Hy as <-.
    + intros e' He'. rewrite lookup_insert_ne; [done|]. congruence.
  - eexists. split; [done|]. split; [|done].
    eapply (teardown_inv st _ a h (Dropped s) (Stopped s)); try done; cbn; [by eapply not_armed|untouched|untouched| |untouched].
    intros e x s' He'. congruence.
Qed.

Lemma free_ok st a h s :
  linv st -> heap st !! a = Some h -> teardown st !! a = Some (Stopped s) ->
  exists st', free_estimator st h = Ok st' /\ linv (set_teardown st' (<[a := Joined s]> (teardown st))) /\
    cf_registry_ st' = cf_registry_ st /\ default_cf_ st' = default_cf_ st /\ heap st' = heap st /\
    teardown st' = teardown st /\ arming st' = arming st /\ phase st' = phase st.
Proof.
  intros Hi Ha Hp. unfold free_estimator. destruct (estimator_ h) as [e|] eqn:He.
  - destruct (est_alive st a h e Hi Ha He) as [x Hx]; [by rewrite Hp|]. rewrite Hx. cbn [get_or mbind result_bind].
    eexists. split; [done|]. split; [|done].
    eapply (teardown_inv st _ a h (Stopped s) (Joined s)); try done; cbn; [by eapply not_armed| | | |untouched].
    + intros e'. rewrite He, lookup_delete_is_Some. split; [intros [Hne ?]; split; [done|congruence]|].
      intros [? Hx']. split; [|done]. intros ->. by specialize (Hx' eq_refl).
    + intros e' y [Hne Hy]%lookup_delete_Some. by exists y.
    + intros e' He'. rewrite lookup_delete_ne; [done|]. congruence.
  - eexists. split; [done|]. split; [|done].
    eapply (teardown_inv st _ a h (Stopped s) (Joined s)); try done; cbn; [by eapply not_armed| |untouched|untouched].
    intros e'. rewrite He. split; [by intros|by intros [? _]].
Qed.

Lemma release_ok st a h s q :
  linv st -> heap st !! a = Some h -> teardown st !! a = Some (Joined s) ->
  ((forall todo, q <> Closing todo) -> forall todo, phase st <> Closing todo) ->
  exists st', DestroyColumnFamilyHandle st (rocksdb_handle_ h) = Ok st' /\
    linv (set_phase (set_teardown st' (<[a := Released]> (teardown st))) q) /\
    cf_registry_ st' = cf_registry_ st /\ default_cf_ st' = default_cf_ st /\ heap st' = heap st /\
    teardown st' = teardown st /\ arming st' = arming st /\ phase st' = phase st.
Proof.
  intros Hi Ha Hp Hq. unfold DestroyColumnFamilyHandle.
  rewrite bool_decide_eq_true_2 by (apply (li_handles _ Hi); exists a, h; by rewrite Hp).
  eexists. split; [done|]. split; [|done].
  eapply (teardown_inv st _ a h (Joined s) Released); try done; cbn; [by eapply not_armed| |untouched|].
  - intros e. split; [|by intros [? _]]. intros Hx. split; [done|]. intros He. exfalso.
    apply (li_ests _ Hi) in Hx as (b & h' & Hb & He' & Hpc).
    rewrite (li_owner _ Hi b a h' h e Hb Ha He' He) in Hpc. by rewrite Hp in Hpc.
  - intros i. rewrite elem_of_difference, elem_of_singleton. naive_solver.
Qed.

(** [owned] goes out of scope. *)
Lemma forget_ok st a h :
  linv st -> heap st !! a = Some h -> teardown st !! a = Some Released ->
  (forall n, cf_registry_ st !! n <> Some a) ->
  linv (mkBitLSM (db_ st) (cf_registry_ st) (default_cf_ st) (targets_ st) (delete a (heap st)) (ests st) (handles st)
    (next_addr st) (delete a (teardown st)) (arming st) (phase st)).
Proof.
  intros Hi Ha Hp Hreg. destruct Hi as [Iheap Ireg Ilive Iowned Itear Iids Iowner Itg Iests Iest Ihd Iarm Istop].
  assert (forall (P : Z -> ColumnFamilyHandle -> option teardown_pc -> Prop), ~ P a h (Some Released) ->
    (exists b h', heap st !! b = Some h' /\ P b h' (teardown st !! b)) <->
    (exists b h', delete a (heap st) !! b = Some h' /\ P b h' (delete a (teardown st) !! b))) as Hex.
  { intros P Hnp. split.
    - intros (b & h' & Hb & HP). destruct (decide (b = a)) as [->|Hne]; [exfalso; congruence|].
      exists b, h'. by rewrite !lookup_delete_ne.
    - intros (b & h' & [Hne Hb]%lookup_delete_Some & HP). exists b, h'. by rewrite lookup_delete_ne in HP. }
  split; cbn.
  - intros b h' [Hne Hb]%lookup_delete_Some. rewrite lookup_delete_ne by done. by apply Iheap.
  - intros n b Hb. destruct (Ireg n b Hb) as (h' & Hh & Hn). exists h'. split; [|done].
    rewrite lookup_delete_ne; [done|]. intros ->. by destruct (Hreg n).
  - intros n b Hb Hph. apply lookup_delete_None. right. by eapply Ilive.
  - intros b h' [Hne Hb]%lookup_delete_Some. rewrite lookup_delete_ne by done. by apply Iowned.
  - intros b pc [Hne Hb]%lookup_delete_Some. rewrite lookup_delete_ne by done. by eapply Itear.
  - intros b c h1 h2 [_ Hb]%lookup_delete_Some [_ Hc]%lookup_delete_Some. by apply Iids.
  - intros b c h1 h2 e [_ Hb]%lookup_delete_Some [_ Hc]%lookup_delete_Some. by apply Iowner.
  - intros i e. rewrite Itg. apply (Hex (fun b h' p => rocksdb_handle_ h' = i /\ estimator_ h' = Some e /\ armed_pc p = true /\
      arming st <> Some (i, e))). by intros (_ & _ & ? & _).
  - intros e. rewrite Iests. apply (Hex (fun b h' p => estimator_ h' = Some e /\ est_pc p = true)). by intros (_ & ?).
  - intros e x Hx. destruct (Iest e x Hx) as [(b & h' & Hb & He & Hc) Hr]. split; [|done]. exists b, h'. split; [|done].
    assert (is_Some (ests st !! e)) as (b' & h2 & Hb' & He' & Hpc)%Iests by by rewrite Hx.
    assert (b' = b) as -> by by eapply Iowner. rewrite lookup_delete_ne; [done|]. intros ->. by rewrite Hp in Hpc.
  - intros i. rewrite Ihd. apply (Hex (fun b h' p => rocksdb_handle_ h' = i /\ handle_pc p = true)). by intros (_ & ?).
  - intros i e He. destruct (Iarm i e He) as (b & h' & Hb & H1 & H2 & H3). exists b, h'. split_and!; try done.
    + rewrite lookup_delete_ne; [done|]. intros ->. congruence.
    + apply lookup_delete_None. by right.
  - intros b h' e x s [_ Hb]%lookup_delete_Some He Hx [_ Hst]%lookup_delete_Some. by eapply Istop.
Qed.
Definition good (st : bitlsm D) : Prop := linv st /\ phase_ok st.

Lemma finish_ok st a h s st1 :
  good st -> heap st !! a = Some h -> teardown st !! a = Some (Joined s) ->
  (forall todo, phase st = Closing todo -> head todo = Some a) ->
  teardown_step st a (Joined s) = Ok st1 -> good st1.
Proof.
  intros [Hi Hp] Ha Ht Hh E. destruct (teardown_phase st a _ Hi Hp Ht) as [Hr|[todo Hr]].
  - destruct (release_ok st a h s (phase st) Hi Ha Ht) as (st' & E' & Hi' & E1 & E2 & E3 & E4 & E5 & E6); [done|].
    unfold teardown_step in E. rewrite Ha in E. cbn [get_or mbind result_bind] in E. rewrite E', Hr in E. cbn [mbind result_bind] in E.
    injection E as <-. split; cycle 1.
    { unfold phase_ok in *. cbn. rewrite E6, Hr in *. rewrite E1, E2, E4. destruct Hp as [Hp1 Hp2]. split; [done|].
      intros b [_ Hb]%lookup_delete_Some. by destruct (Hp2 b). }
    assert (forall n, cf_registry_ st !! n <> Some a) as Hreg.
    { intros n Hn. rewrite (li_live _ Hi n a Hn) in Ht; [done|]. by rewrite Hr. }
    eapply (forget_ok _ a h) in Hi'; cbn in *; [|by rewrite E3|by rewrite lookup_insert_eq|by rewrite E1].
    by rewrite delete_insert_eq, <- E4, <- E6 in Hi'.
  - destruct (release_ok st a h s (Closing (tail todo)) Hi Ha Ht) as (st' & E' & Hi' & E1 & E2 & E3 & E4 & E5 & E6).
    { intros Hx. by destruct (Hx (tail todo)). }
    unfold teardown_step in E. rewrite Ha in E. cbn [get_or mbind result_bind] in E. rewrite E', Hr in E. cbn [mbind result_bind] in E.
    injection E as <-. split; [by rewrite E4|]. unfold phase_ok in *. rewrite Hr in Hp. cbn. destruct Hp as (H1 & H2 & H3).
    specialize (Hh todo Hr). destruct todo as [|a' todo]; [done|]. injection Hh as ->. cbn [tail]. apply NoDup_cons in H2 as [Hn H2].
    rewrite E3, E4, E5. split_and!; try done. intros b h' Hb. destruct (H3 b h' Hb) as (pc & Hpc & Hl & Hhd).
    destruct (decide (b = a)) as [->|Hne].
    + exists Released. rewrite lookup_insert_eq. split_and!; try done.
    + exists pc. rewrite lookup_insert_ne by done. split_and!; try done. rewrite Hhd. set_solver.
Qed.

(** No step of a teardown touches a freed object, and each keeps the
    invariant. *)
Lemma teardown_step_ok st a pc :
  good st -> teardown st !! a = Some pc -> (forall todo, phase st = Closing todo -> head todo = Some a) ->
  exists st', teardown_step st a pc = Ok st' /\ good st'.
Proof.
  intros [Hi Hp] Ht Hh. destruct (li_tear _ Hi a pc Ht) as [h Ha]. pose proof (teardown_phase st a pc Hi Hp Ht) as Hph.
  destruct pc as [| |s|s|s|].
  - unfold teardown_step. rewrite Ha. cbn [get_or mbind result_bind]. eexists. split; [done|]. split; [exact (disarm_ok st a h Hi Ha Ht)|].
    by eapply (phase_update st _ a Unlocked Disarmed).
  - unfold teardown_step. rewrite Ha. cbn [get_or mbind result_bind].
    destruct (db_DropColumnFamily (db_ st) (rocksdb_handle_ h)) as [s d] eqn:Ed. eexists. split; [done|]. split; [exact (drop_ok st a h s d Hi Ha Ht Ed)|].
    by eapply (phase_update st _ a Disarmed (Dropped s)).
  - unfold teardown_step. rewrite Ha. cbn [get_or mbind result_bind].
    destruct (stop_ok st a h s Hi Ha Ht) as (st' & E & Hi' & E1 & E2 & E3 & E4 & E5 & E6). rewrite E. cbn [mbind result_bind].
    eexists. split; [done|]. rewrite E4. split; [done|]. by eapply (phase_update st _ a (Dropped s) (Stopped s)).
  - unfold teardown_step. rewrite Ha. cbn [get_or mbind result_bind].
    destruct (free_ok st a h s Hi Ha Ht) as (st' & E & Hi' & E1 & E2 & E3 & E4 & E5 & E6). rewrite E. cbn [mbind result_bind].
    eexists. split; [done|]. rewrite E4. split; [done|]. by eapply (phase_update st _ a (Stopped s) (Joined s)).
  - destruct (release_ok st a h s (phase st) Hi Ha Ht ltac:(done)) as (st' & E & _).
    assert (exists st1, teardown_step st a (Joined s) = Ok st1) as [st1 E1].
    { unfold teardown_step. rewrite Ha. cbn [get_or mbind result_bind]. rewrite E. cbn [mbind result_bind]. by eexists. }
    exists st1. split; [done|]. by eapply (finish_ok st a h s).
  - unfold teardown_step. rewrite Ha. by exists st.
Qed.

(** *** The listener and the estimators *)
Lemma Notify_ok st i : good st -> exists st', Notify st i = Ok st' /\ good st'.
Proof.
  intros [Hi Hp]. unfold Notify. destruct (targets_ st !! i) as [e|] eqn:Et; [|by exists st].
  apply (li_targets _ Hi) in Et as (a & h & Ha & _ & He & Harm & _).
  destruct (est_alive st a h e Hi Ha He) as [x Hx]; [by destruct (teardown st !! a) as [[]|]|]. rewrite Hx. cbn.
  eexists. split; [done|]. split; [|done]. apply ests_inv; [done|done|]. eapply rtc_r; [apply rtc_refl|]. apply other_steps, e_notify.
Qed.
(** *** RocksDB, open and create *)
Lemma db_good st d :
  good st -> db_ids (db_ st) ⊆ db_ids d -> (forall i, i ∈ db_ids (db_ st) -> db_cfs d !! i = db_cfs (db_ st) !! i) -> good (set_db st d).
Proof.
  intros [Hi Hp] Hids Hcfs. split.
  - destruct Hi. split; try done. intros a h Ha. destruct (li_heap0 a h Ha) as (H1 & H2 & H3 & H4 & H5 & H6). cbn.
    rewrite Hcfs by done. split_and!; try done. set_solver.
  - unfold phase_ok, todo_ok in *. cbn. destruct (phase st); try done. destruct Hp as (H1 & H2 & H3 & H4 & H5). split_and!; try done.
    intros d0 i Hin. destruct (H4 d0 i Hin) as (H6 & H7 & H8 & H9 & H10). rewrite Hcfs by done. split_and!; try done. set_solver.
Qed.

Lemma open_step_ok v t st todo :
  good st -> phase st = Opening todo -> arming st = None -> exists st', open_step v t st = Ok st' /\ good st'.
Proof.
  intros [Hi Hp] Eph Ear. unfold open_step. rewrite Eph. unfold phase_ok in Hp. rewrite Eph in Hp.
  destruct Hp as (Htd & Hn & Hids & Htodo & Hdef). destruct todo as [|[d i] todo].
  - destruct Hdef as [[a Ha]|(d & i & Hin & _)]; [|by apply elem_of_nil in Hin]. rewrite Ha. cbn. eexists. split; [done|]. split.
    + destruct Hi. split; try done. cbn. intros n b Hb _. apply (li_live0 n b Hb). by rewrite Eph.
    + unfold phase_ok. cbn. rewrite Htd. split; [by exists a|done].
  - destruct (Htodo d i) as (H1 & H2 & H3 & H4 & H5); [left|].
    destruct (register_inv v t st (d_name d) i (d_options d) Hi Ear) as (st' & E & Hi' & E1 & E2 & E3 & E4 & E5 & h & E6 & E7);
      try done; [by rewrite Eph|]. rewrite E. cbn [mbind result_bind]. eexists. split; [done|]. split.
    { destruct Hi'. split; try done. cbn. intros n b Hb _. apply (li_live0 n b Hb). by rewrite E5, Eph. }
    cbn in Hn, Hids. apply NoDup_cons in Hn as [Hn1 Hn2]. apply NoDup_cons in Hids as [Hi1 Hi2].
    unfold phase_ok, todo_ok. cbn. rewrite E1, E2, E4, E6. split_and!; try done.
    + intros d' i' Hin. destruct (Htodo d' i') as (G1 & G2 & G3 & G4 & G5); [by right|]. split_and!; try done.
      * rewrite lookup_insert_ne; [done|]. intros Heq. apply Hn1. rewrite Heq.
        exact (list_elem_of_fmap_2 (fun x => d_name x.1) todo (d', i') Hin).
      * intros a' h' [[<- <-]|[_ Ha']]%lookup_insert_Some; [|by eapply G3]. intros Heq. apply Hi1.
        replace i with i' by congruence. exact (list_elem_of_fmap_2 snd todo (d', i') Hin).
    + destruct (decide (d_name d = kDefaultColumnFamilyName)) as [Ed|Ed].
      { left. rewrite Ed, lookup_insert_eq. by eexists. }
      destruct Hdef as [Hdef|(d' & i' & Hin & Hd)]; [left; by rewrite lookup_insert_ne|].
      apply elem_of_cons in Hin as [[= -> ->]|Hin]; [done|]. right. by exists d', i'.
Qed.

Lemma create_ok v t st name options :
  good st -> phase st = Running -> arming st = None ->
  exists s a st', CreateColumnFamily v t st name options = Ok (s, a, st') /\ good st' /\
    (ok s = true -> exists a', a = Some a' /\ cf_registry_ st' !! name = Some a') /\
    (ok s = false -> a = None /\ cf_registry_ st' = cf_registry_ st).
Proof.
  intros Hg Eph Ear. unfold CreateColumnFamily. case_bool_decide as Hn.
  { eexists _, _, st. split; [done|]. split; [done|]. by split. }
  destruct (ok (ValidateAttrSpecs options)) eqn:Ev; cbn [negb].
  2: { eexists _, _, st. split; [done|]. split; [done|]. by rewrite Ev. }
  assert (schema_ok options) as Hs by (apply ValidateAttrSpecs_ok; by destruct (ValidateAttrSpecs options)).
  destruct (db_CreateColumnFamily (db_ st) name) as [d [s|i]] eqn:Ec.
  - apply rc_refused in Ec as (H1 & H2 & H3). eexists _, _, _. split; [done|]. split; [|by rewrite H3].
    apply db_good; [done|by rewrite H2|by rewrite H1].
  - apply rc_create in Ec as (H1 & H2 & H3 & H4).
    assert (good (set_db st d)) as [Hi' Hp'].
    { apply db_good; [done|rewrite H4; set_solver|]. intros j Hj. rewrite H3, lookup_insert_ne; [done|]. intros ->. done. }
    destruct Hg as [Hi Hp].
    destruct (register_inv v t (set_db st d) name i options Hi') as (st' & E & Hi2 & E1 & E2 & E3 & E4 & E5 & h & E6 & E7); try done; cbn.
    + by rewrite Eph.
    + by apply eq_None_not_Some.
    + rewrite H4. set_solver.
    + by rewrite H3, lookup_insert_eq.
    + intros a h Ha <-. by apply (li_heap _ Hi) in Ha as (_ & ? & _).
    + rewrite E. cbn [mbind result_bind]. eexists _, _, _. split; [done|]. split; [split; [done|]|].
      * unfold phase_ok in *. rewrite E5. cbn in *. rewrite Eph in *. destruct Hp as [(a & Ha1 & Ha2) Hp2].
        rewrite E3, E2, E4. cbn. split; [|done]. exists a. split; [done|]. rewrite lookup_insert_ne; [done|]. intros ->. by rewrite Ha2 in Hn; destruct Hn.
      * split; [|done]. intros _. eexists. split; [done|]. by rewrite E2, lookup_insert_eq.
Qed.
(** *** Drop and close *)
Lemma unlocked_ok st a h :
  linv st -> heap st !! a = Some h -> cf_registry_ st !! name_ h = Some a -> (forall todo, phase st <> Closing todo) -> arming st = None ->
  linv (mkBitLSM (db_ st) (delete (name_ h) (cf_registry_ st)) (default_cf_ st) (targets_ st) (heap st) (ests st)
    (handles st) (next_addr st) (<[a := Unlocked]> (teardown st)) (arming st) (phase st)).
Proof.
  intros Hi Ha Hr Hph Har. pose proof (li_live _ Hi _ a Hr Hph) as Ht.
  assert (forall (f : option teardown_pc -> bool) b, f (Some Unlocked) = f None ->
    f (<[a := Unlocked]> (teardown st) !! b) = f (teardown st !! b)) as Hf.
  { intros f b E. destruct (decide (b = a)) as [->|Hne]; [by rewrite lookup_insert_eq, Ht|by rewrite lookup_insert_ne]. }
  destruct Hi as [Iheap Ireg Ilive Iowned Itear Iids Iowner Itg Iests Iest Ihd Iarm Istop]. split; cbn; try done.
  - intros b h' Hb. rewrite (Hf live_pc) by done. by apply Iheap.
  - intros n b [_ Hb]%lookup_delete_Some. by apply Ireg.
  - intros n b [Hne Hb]%lookup_delete_Some _. rewrite lookup_insert_ne; [by eapply Ilive|]. intros <-.
    destruct (Ireg n a Hb) as (h' & Hh & Hn). congruence.
  - intros b h' Hb Hb'. destruct (decide (b = a)) as [->|Hne]; [by rewrite lookup_insert_eq in Hb'|].
    rewrite lookup_insert_ne in Hb' by done. pose proof (Iowned b h' Hb Hb') as Ho. rewrite lookup_delete_ne; [done|]. congruence.
  - intros b pc [[<- _]|[_ Hb]]%lookup_insert_Some; [by rewrite Ha|by eapply Itear].
  - intros i e. rewrite Itg. setoid_rewrite (Hf armed_pc); done.
  - intros e. rewrite Iests. setoid_rewrite (Hf est_pc); done.
  - intros i. rewrite Ihd. setoid_rewrite (Hf handle_pc); done.
  - intros i e He. congruence.
  - intros b h' e x s Hb He Hx [[_ ?]|[_ Hst]]%lookup_insert_Some; [done|by eapply Istop].
Qed.

Lemma drop_begin_ok st cf :
  good st -> phase st = Running -> arming st = None -> (forall a, cf = Some a -> is_Some (heap st !! a)) ->
  exists r, drop_begin st cf = Ok r /\ match r with
    | inl s => ok s = false
    | inr st' => good st' /\ exists a h, cf = Some a /\ heap st !! a = Some h /\ teardown st' !! a = Some Unlocked /\
        name_ h <> kDefaultColumnFamilyName /\ cf_registry_ st' = delete (name_ h) (cf_registry_ st)
    end.
Proof.
  intros [Hi Hp] Eph Har Hcf. unfold drop_begin. destruct cf as [a|]; [|by eexists].
  case_bool_decide as Hd; [by eexists|]. destruct (Hcf a eq_refl) as [h Ha]. rewrite Ha. cbn [get_or mbind result_bind].
  case_bool_decide as Hr; [|by eexists]. eexists. split; [done|].
  unfold phase_ok in Hp. rewrite Eph in Hp. destruct Hp as [(b & Hb1 & Hb2) Hp2].
  assert (name_ h <> kDefaultColumnFamilyName) as Hne by congruence.
  split; [split|].
  - apply unlocked_ok; try done. by rewrite Eph.
  - unfold phase_ok. cbn. rewrite Eph. split; [exists b; by rewrite lookup_delete_ne|].
    intros c [[_ ?]|[_ Hc]]%lookup_insert_Some; [done|by destruct (Hp2 c)].
  - exists a, h. cbn. by rewrite lookup_insert_eq.
Qed.

Lemma registry_order st order :
  linv st -> teardown st = ∅ -> order ≡ₚ map snd (map_to_list (cf_registry_ st)) ->
  NoDup order /\ forall a, a ∈ order <-> exists h, heap st !! a = Some h.
Proof.
  intros Hi Ht Ho. split.
  - rewrite Ho. apply NoDup_fmap_2_strong; [|apply NoDup_map_to_list].
    intros [n a] [n' a'] Hx%elem_of_map_to_list Hy%elem_of_map_to_list E. cbn in E. subst a'. f_equal.
    destruct (li_reg _ Hi n a Hx) as (h & Hh & <-). destruct (li_reg _ Hi n' a Hy) as (h' & Hh' & <-). congruence.
  - intros a. rewrite Ho. setoid_rewrite list_elem_of_fmap. split.
    + intros ([n b] & -> & Hin%elem_of_map_to_list). destruct (li_reg _ Hi n b Hin) as (h & Hh & _). by exists h.
    + intros [h Ha]. exists (name_ h, a). split; [done|]. apply elem_of_map_to_list. apply (li_owned _ Hi); [done|]. by rewrite Ht.
Qed.

Lemma close_begin_ok st order :
  good st -> arming st = None -> teardown st = ∅ -> order ≡ₚ map snd (map_to_list (cf_registry_ st)) -> good (close_begin st order).
Proof.
  intros [Hi Hp] Har Ht Ho. destruct (registry_order st order Hi Ht Ho) as [Hnd Hin].
  set (td := list_to_map (map (fun a => (a, Dropped OK)) order) : gmap Z teardown_pc).
  assert (forall a h, heap st !! a = Some h -> td !! a = Some (Dropped OK)) as Htd.
  { intros a h Ha. apply elem_of_list_to_map_1.
    - rewrite <- list_fmap_compose. unfold compose. cbn. by rewrite list_fmap_id.
    - apply list_elem_of_fmap. exists a. split; [done|]. apply Hin. by exists h. }
  destruct Hi as [Iheap Ireg Ilive Iowned Itear Iids Iowner Itg Iests Iest Ihd Iarm Istop].
  assert (forall (f : option teardown_pc -> bool) a h, f (Some (Dropped OK)) = f None -> heap st !! a = Some h ->
    f (td !! a) = f (teardown st !! a)) as Hf.
  { intros f a h E Ha. by rewrite (Htd a h Ha), Ht. }
  split; [split|]; cbn; fold td; try done.
  - intros a h Ha. destruct (Iheap a h Ha) as (H1 & H2 & H3 & H4 & H5 & H6). split_and!; try done. by rewrite (Htd a h Ha).
  - intros n a Ha Hx. by destruct (Hx order).
  - intros a h Ha. by rewrite (Htd a h Ha).
  - intros a pc Ha%elem_of_list_to_map_2. apply list_elem_of_fmap in Ha as (b & [= -> ->] & Hb). apply Hin in Hb as [h Hb]. by rewrite Hb.
  - intros i e. rewrite lookup_empty. split; [done|]. intros (a & h & Ha & _ & _ & Harm & _). by rewrite (Htd a h Ha) in Harm.
  - intros e. rewrite Iests. split; intros (a & h & Ha & He & Hx); exists a, h; split_and!; try done.
    + by rewrite (Hf est_pc a h eq_refl Ha).
    + by rewrite (Hf est_pc a h eq_refl Ha) in Hx.
  - intros i. rewrite Ihd. split; intros (a & h & Ha & He & Hx); exists a, h; split_and!; try done.
    + by rewrite (Hf handle_pc a h eq_refl Ha).
    + by rewrite (Hf handle_pc a h eq_refl Ha) in Hx.
  - intros i e He. congruence.
  - intros a h e x s Ha He Hx Hst. by rewrite (Htd a h Ha) in Hst.
  - unfold phase_ok. cbn. split_and!; try done. intros a h Ha. exists (Dropped OK). split_and!; [by eapply Htd|done|].
    rewrite Hin. split; [|done]. intros _. by exists h.
Qed.

Lemma close_end_ok st : good st -> phase st = Closing [] -> good (close_end st).
Proof.
  intros [Hi Hp] Eph. unfold phase_ok in Hp. rewrite Eph in Hp. destruct Hp as (Har & _ & Hall).
  assert (forall a h, heap st !! a = Some h -> teardown st !! a = Some Released) as Hrel.
  { intros a h Ha. destruct (Hall a h Ha) as (pc & Hpc & _ & Hx). destruct pc; try done;
      (destruct (proj1 (elem_of_nil a) (proj1 Hx eq_refl))). }
  split; [split|]; cbn; try done.
  - intros i e. split; [done|]. by intros (a & h & Ha & _).
  - intros e. split; [|by intros (a & h & Ha & _)]. intros (a & h & Ha & _ & Hx)%(li_ests _ Hi). by rewrite (Hrel a h Ha) in Hx.
  - intros e x Hx. assert (is_Some (ests st !! e)) as (a & h & Ha & _ & Hpc)%(li_ests _ Hi) by by rewrite Hx.
    by rewrite (Hrel a h Ha) in Hpc.
  - intros i. split; [|by intros (a & h & Ha & _)]. intros (a & h & Ha & _ & Hx)%(li_handles _ Hi). by rewrite (Hrel a h Ha) in Hx.
Qed.
(** *** The constructor *)
Lemma check_names_ok ds seen :
  check_names ds seen = (if bool_decide (NoDup (map d_name ds) /\ Forall (fun d => d_name d ∉ seen) ds) then Ok tt
                         else Fault InvalidArgumentError).
Proof.
  revert seen. induction ds as [|d ds IH]; intros seen; cbn [check_names map].
  - by rewrite bool_decide_eq_true_2 by (split; constructor).
  - case_bool_decide as Hd; [by rewrite bool_decide_eq_false_2 by (rewrite Forall_cons; naive_solver)|].
    rewrite IH. apply (f_equal (fun b : bool => if b then _ else _)). apply bool_decide_ext. rewrite NoDup_cons, Forall_cons, !Forall_forall. split.
    + intros [Hn Hx]. split_and!; [|done|done|].
      * intros (d' & E & Hin)%list_elem_of_fmap. apply (Hx d' Hin). rewrite E. set_solver.
      * intros d' Hin. specialize (Hx d' Hin). set_solver.
    + intros [[Hn1 Hn2] [_ Hx]]. split; [done|]. intros d' Hin. rewrite elem_of_union, elem_of_singleton. intros [E|E].
      * apply Hn1. rewrite <- E. by apply list_elem_of_fmap_2.
      * by apply (Hx d').
Qed.
Lemma check_specs_ok ds :
  check_specs ds = (if bool_decide (Forall (fun d => ok (ValidateAttrSpecs (d_options d)) = true) ds) then Ok tt else Fault InvalidArgumentError).
Proof.
  induction ds as [|d ds IH]; cbn [check_specs]; [by rewrite bool_decide_eq_true_2|].
  destruct (ok (ValidateAttrSpecs (d_options d))) eqn:E; cbn [negb]; rewrite ?IH.
  - apply (f_equal (fun b : bool => if b then _ else _)), bool_decide_ext. rewrite Forall_cons. naive_solver.
  - rewrite bool_decide_eq_false_2; [done|]. rewrite Forall_cons, E. by intros [? _].
Qed.

(** The descriptor lists the constructor accepts. *)
Definition accepted (ds : list ColumnFamilyDescriptor) : Prop :=
  NoDup (map d_name ds) /\ kDefaultColumnFamilyName ∈ map d_name ds /\
  Forall (fun d => ok (ValidateAttrSpecs (d_options d)) = true) ds.
#[global] Instance accepted_dec ds : Decision (accepted ds).
Proof. unfold accepted. apply _. Defined.

Lemma has_default_ok ds : has_default ds = bool_decide (kDefaultColumnFamilyName ∈ map d_name ds).
Proof.
  unfold has_default. induction ds as [|d ds IH]; [done|]. cbn [existsb map]. rewrite IH.
  destruct (decide (d_name d = kDefaultColumnFamilyName)) as [E|E].
  - rewrite (bool_decide_eq_true_2 _ E). cbn [orb]. symmetry. apply bool_decide_eq_true_2. rewrite E. left.
  - rewrite (bool_decide_eq_false_2 _ E). cbn [orb]. apply bool_decide_ext. rewrite elem_of_cons. naive_solver.
Qed.

Lemma BitLSM_open_spec ds :
  BitLSM_open ds = if bool_decide (accepted ds) then
      match db_Open (map d_name ds) with
      | inl _ => Fault RuntimeError
      | inr (d, ids) => Ok (mkBitLSM d ∅ None ∅ ∅ ∅ ∅ 0 ∅ None (Opening (zip ds ids)))
      end
    else Fault InvalidArgumentError.
Proof.
  unfold BitLSM_open. rewrite check_names_ok, check_specs_ok, has_default_ok. unfold accepted.
  assert (Forall (fun d => d_name d ∉ (∅ : gset string)) ds) as Hf by (apply Forall_forall; set_solver).
  repeat case_bool_decide; cbn; try done; naive_solver.
Qed.
(** With one schema only the schema can be refused. *)
Lemma BitLSM_single_spec options :
  BitLSM_single options = if ok (ValidateAttrSpecs options) then
      match db_Open [kDefaultColumnFamilyName] with
      | inl _ => Fault RuntimeError
      | inr (d, ids) => Ok (mkBitLSM d ∅ None ∅ ∅ ∅ ∅ 0 ∅ None (Opening (zip [mkDescriptor kDefaultColumnFamilyName options] ids)))
      end
    else Fault InvalidArgumentError.
Proof.
  unfold BitLSM_single. rewrite BitLSM_open_spec. destruct (ok (ValidateAttrSpecs options)) eqn:E.
  - rewrite bool_decide_eq_true_2; [done|]. split_and!; [by apply NoDup_singleton|by apply list_elem_of_singleton|by constructor].
  - rewrite bool_decide_eq_false_2; [done|]. intros (_ & _ & Hf). apply Forall_cons in Hf as [Hf _]. cbn [d_options] in Hf. congruence.
Qed.
Lemma open_good ds st : BitLSM_open ds = Ok st -> good st.
Proof.
  rewrite BitLSM_open_spec. case_bool_decide as Hacc; [|done]. destruct Hacc as (Hnd & Hdef & Hval).
  destruct (db_Open (map d_name ds)) as [s|[d ids]] eqn:Eo; [done|]. intros [= <-].
  destruct (rc_open _ d ids Eo Hnd) as (Hlen & Hids & Hcfs & Hdb). rewrite length_map in Hlen. split.
  - split; cbn; try done; try (intros i; split; [done|]; by intros (a & h & Ha & _)); try (intros i e; split; [done|]; by intros (a & h & Ha & _)).
    intros e. rewrite lookup_empty. split; [by intros [? ?]|]. by intros (a & h & Ha & _).
  - unfold phase_ok, todo_ok. cbn.
    assert (map (fun x : ColumnFamilyDescriptor * Z => d_name x.1) (zip ds ids) = map d_name ds) as En.
    { rewrite <- (map_map fst d_name). f_equal. apply (fst_zip ds ids). lia. }
    assert (map snd (zip ds ids) = ids) as Ei by (apply (snd_zip ds ids); lia).
    rewrite En, Ei. split_and!; try done.
    + intros d0 i Hin. split_and!; try done.
      * apply ValidateAttrSpecs_ok. rewrite Forall_forall in Hval.
        apply (list_elem_of_fmap_2 fst) in Hin as Hin'. rewrite (fst_zip ds ids) in Hin' by lia. specialize (Hval d0 Hin').
        by destruct (ValidateAttrSpecs (d_options d0)).
      * rewrite Hdb. apply (list_elem_of_fmap_2 snd) in Hin as Hin'. rewrite (snd_zip ds ids) in Hin' by lia. by apply elem_of_list_to_set.
      * rewrite Hcfs. apply elem_of_list_to_map_1; [by rewrite fst_zip by (rewrite length_map; lia)|].
        apply list_elem_of_lookup in Hin as [j [H1 H2]%lookup_zip_Some]. apply list_elem_of_lookup. exists j.
        apply lookup_zip_Some. split; [done|]. by rewrite list_lookup_fmap, H1.
    + right. apply list_elem_of_fmap in Hdef as (d0 & E0 & Hd0). apply list_elem_of_lookup in Hd0 as [j Hj].
      destruct (lookup_lt_is_Some_2 ids j) as [i Hi]; [rewrite Hlen; by eapply lookup_lt_Some|]. exists d0, i. split; [|done].
      apply list_elem_of_lookup. exists j. by apply lookup_zip_Some.
Qed.

Lemma step_good st st' : good st -> lstep st st' -> good st'.
Proof.
  intros Hg. destruct 1 as [v t todo st st' Ep Ea E|x st Ea|v t name options s a st st' Ep Ea E|cf st st' Ep Ea E|a pc st st' Ht Hh Hj E
    |i st st' E|e x y st Hx Hy|d st E1 E2|order st Ep Ea Et Ho|st Ep].
  - destruct (open_step_ok v t st todo Hg Ep Ea) as (s & E' & Hs). rewrite E in E'. by injection E' as ->.
  - destruct Hg as [Hi Hp]. split; [by eapply arm_inv|]. unfold finish_arming. rewrite Ea. destruct x.
    unfold phase_ok, todo_ok in *. cbn. destruct (phase st); try done. destruct Hp as (Hp & _). congruence.
  - destruct (create_ok v t st name options Hg Ep Ea) as (s' & a' & st1 & E' & Hs & _). rewrite E in E'. by injection E' as _ _ ->.
  - destruct (drop_begin_ok st cf Hg Ep Ea) as (r & E' & Hr).
    { intros a ->. unfold drop_begin in E. case_bool_decide; [done|]. destruct (heap st !! a); [by eexists|done]. }
    rewrite E in E'. injection E' as <-. apply Hr.
  - destruct (teardown_step_ok st a pc Hg Ht Hh) as (s & E' & Hs). rewrite E in E'. by injection E' as ->.
  - destruct (Notify_ok st i Hg) as (s & E' & Hs). rewrite E in E'. by injection E' as ->.
  - destruct Hg as [Hi Hp]. split; [|done]. apply ests_inv; [done|done|]. by apply rtc_once.
  - apply db_good; [done|by rewrite E2|by rewrite E1].
  - by apply close_begin_ok.
  - by apply close_end_ok.
Qed.

Lemma steps_good st st' : good st -> rtc lstep st st' -> good st'.
Proof. intros Hg Hr. induction Hr as [|x y z Hxy _ IH]; [done|]. by eapply IH, step_good. Qed.
Lemma opened_good ds st : opened ds st -> good st.
Proof. intros (st0 & E & Hr). by eapply steps_good, Hr; eapply open_good. Qed.
(** *** Runs that end *)
Lemma open_step_registers v t (st : bitlsm D) d i rest st' :
  phase st = Opening ((d, i) :: rest) -> open_step v t st = Ok st' ->
  phase st' = Opening rest /\ cf_registry_ st' = <[d_name d := next_addr st]> (cf_registry_ st).
Proof.
  intros Ep. unfold open_step, RegisterColumnFamily. rewrite Ep. destruct (mkLayout (d_options d)); [|done]. cbn [mbind result_bind].
  destruct (cf_registry_ st !! d_name d); [done|]. cbn [mbind result_bind]. by intros [= <-].
Qed.

Lemma arms (st : bitlsm D) : exists st', rtc lstep st st' /\ arming st' = None /\ phase st' = phase st /\ cf_registry_ st' = cf_registry_ st.
Proof.
  destruct (arming st) as [x|] eqn:Ea; [|by exists st]. exists (finish_arming st).
  split; [apply rtc_once; by eapply l_arm|]. unfold finish_arming. rewrite Ea. by destruct x.
Qed.

Lemma opens st todo :
  good st -> phase st = Opening todo -> arming st = None ->
  exists st', rtc lstep st st' /\ phase st' = Running /\ arming st' = None /\
    forall n, is_Some (cf_registry_ st' !! n) <-> is_Some (cf_registry_ st !! n) \/ n ∈ map (fun x => d_name x.1) todo.
Proof.
  revert st. induction todo as [|[d i] todo IH]; intros st Hg Ep Ea; destruct (open_step_ok 0 0 st _ Hg Ep Ea) as (st1 & E & Hg1).
  - exists st1. split; [apply rtc_once; by eapply l_open|]. revert E. unfold open_step. rewrite Ep.
    destruct (cf_registry_ st !! kDefaultColumnFamilyName); [|done]. cbn. intros [= <-]. cbn. split_and!; try done. intros n.
    split; [by left|]. intros [?|Hn]; [done|]. by apply elem_of_nil in Hn.
  - destruct (open_step_registers 0 0 st d i todo st1 Ep E) as [Ep1 Er1]. destruct (arms st1) as (st2 & Hr & Ea2 & Ep2 & Er2).
    assert (rtc lstep st st2) as Hrun by (eapply rtc_l; [by eapply (l_open 0 0)|done]).
    pose proof (steps_good st1 st2 Hg1 Hr) as Hg2.
    destruct (IH st2 Hg2 ltac:(by rewrite Ep2) Ea2) as (st3 & Hr3 & Ep3 & Ea3 & Hn). exists st3. split; [by etrans|]. split_and!; try done.
    intros n. rewrite Hn, Er2, Er1, lookup_insert_is_Some'. cbn [map]. rewrite elem_of_cons. naive_solver.
Qed.

(** A run of an estimator's threads. *)
Lemma est_runs st e x y :
  ests st !! e = Some x -> rtc (Worker.step (est_interval x)) (est_sync x) y ->
  rtc lstep st (set_ests st (<[e := mkEst (est_cfd x) (est_interval x) y]> (ests st))).
Proof.
  destruct x as [c i s]. cbn. intros Hx Hn. revert st Hx.
  induction Hn as [s|s s' y Hs _ IH]; intros st Hx; [rewrite insert_id by done; by destruct st|].
  eapply rtc_l; [by eapply l_worker|]. cbn [est_cfd est_interval].
  specialize (IH (set_ests st (<[e := mkEst c i s']> (ests st)))). unfold set_ests in IH. cbn in IH.
  rewrite insert_insert_eq in IH. apply IH. by rewrite lookup_insert_eq.
Qed.

(** The worker of a stopped estimator returns. *)
Lemma worker_exits st e x :
  good st -> ests st !! e = Some x -> stop_ (est_sync x) = true -> signals (est_sync x) < 2 ^ 64 ->
  exists y, rtc lstep st (set_ests st (<[e := mkEst (est_cfd x) (est_interval x) y]> (ests st))) /\ worker y = WExit /\
    signals y = signals (est_sync x).
Proof.
  intros [Hi _] Hx Hs Hlt. destruct (li_est _ Hi e x Hx) as [_ (v & t & Hr)].
  destruct (exits (est_interval x) (est_sync x)) as (n & y & Hn & _ & Hw); [by eapply reachable_inv|done|].
  exists y. apply rtc_nsteps_2 in Hn. split; [|by rewrite (wsteps_signals _ _ _ Hn)].
  apply est_runs; [done|]. eapply rtc_subrel; [|exact Hn]. intros ? ?. apply worker_steps.
Qed.

Definition rank (pc : teardown_pc) : nat :=
  match pc with Unlocked => 5 | Disarmed => 4 | Dropped _ => 3 | Stopped _ => 2 | Joined _ => 1 | Released => 0 end.

(** No estimator has had 2^64 signals. *)
Definition few_signals (st : bitlsm D) : Prop := forall e x, ests st !! e = Some x -> signals (est_sync x) < 2 ^ 64.

Lemma teardown_next st a pc st' :
  phase st = Running -> teardown_step st a pc = Ok st' -> few_signals st ->
  phase st' = Running /\ few_signals st' /\
  match pc with
  | Joined _ => heap st' !! a = None /\ teardown st' !! a = None
  | Released => st' = st
  | _ => exists pc', teardown st' !! a = Some pc' /\ S (rank pc') = rank pc /\ pc' <> Released
  end.
Proof.
  intros Ep E Hf. unfold teardown_step in E. destruct (heap st !! a) as [h|]; [|done]. cbn [get_or mbind result_bind] in E.
  destruct pc as [| |s|s|s|].
  - injection E as <-. split_and!; [done|done|]. exists Disarmed. cbn. by rewrite lookup_insert_eq.
  - destruct (db_DropColumnFamily _ _) as [s d]. injection E as <-. split_and!; [done|done|]. exists (Dropped s). cbn. by rewrite lookup_insert_eq.
  - unfold stop_estimator in E. destruct (estimator_ h) as [e|]; cbn [mbind result_bind] in E.
    + destruct (ests st !! e) as [x|] eqn:Hx; [|done]. cbn in E. injection E as <-. split_and!; [done| |].
      * intros e' x'. cbn. intros [[<- <-]|[_ Hx']]%lookup_insert_Some; [exact (Hf e x Hx)|by apply (Hf e')].
      * exists (Stopped s). cbn. by rewrite lookup_insert_eq.
    + injection E as <-. split_and!; [done|done|]. exists (Stopped s). cbn. by rewrite lookup_insert_eq.
  - unfold free_estimator in E. destruct (estimator_ h) as [e|]; cbn [mbind result_bind] in E.
    + destruct (ests st !! e) as [x|] eqn:Hx; [|done]. cbn in E. injection E as <-. split_and!; [done| |].
      * intros e' x'. cbn. intros [_ Hx']%lookup_delete_Some. by apply (Hf e').
      * exists (Joined s). cbn. by rewrite lookup_insert_eq.
    + injection E as <-. split_and!; [done|done|]. exists (Joined s). cbn. by rewrite lookup_insert_eq.
  - unfold DestroyColumnFamilyHandle in E. case_bool_decide; [|done]. cbn [mbind result_bind] in E. rewrite Ep in E. injection E as <-.
    cbn. rewrite !lookup_delete_eq. done.
  - by injection E as <-.
Qed.

Lemma drop_ends st a pc :
  good st -> phase st = Running -> few_signals st -> teardown st !! a = Some pc -> pc <> Released ->
  exists st', rtc lstep st st' /\ phase st' = Running /\ heap st' !! a = None /\ teardown st' !! a = None.
Proof.
  remember (rank pc) as n eqn:En. revert st pc En. induction n as [n IH] using lt_wf_ind. intros st pc -> Hg Ep Hf Ht Hne.
  assert (forall todo, phase st = Closing todo -> head todo = Some a) as Hh by by rewrite Ep.
  assert (exists st1, rtc lstep st st1 /\ good st1 /\ phase st1 = Running /\ few_signals st1 /\ teardown st1 !! a = Some pc /\
    forall s h, pc = Stopped s -> heap st1 !! a = Some h -> joinable st1 h) as (st1 & Hr1 & Hg1 & Ep1 & Hf1 & Ht1 & Hj1).
  { destruct (li_tear _ (proj1 Hg) a pc Ht) as [h Ha].
    assert ((exists s e x, pc = Stopped s /\ estimator_ h = Some e /\ ests st !! e = Some x) \/
      (forall s, pc = Stopped s -> joinable st h)) as [(s & e & x & -> & He & Hx)|Hj].
    { unfold joinable. destruct pc; try (by right). destruct (estimator_ h) as [e|] eqn:He; [|by right].
      destruct (ests st !! e) as [x|] eqn:Hx; [left; by eexists _, e, x|by right]. }
    - pose proof (li_stop _ (proj1 Hg) a h e x s Ha He Hx Ht) as Hs.
      destruct (worker_exits st e x Hg Hx Hs (Hf e x Hx)) as (y & Hr & Hw & Hsig). eexists. split; [exact Hr|]. split; [by eapply steps_good|].
      split; [done|]. split_and!; [|done|].
      + intros e' x'. cbn. intros [[<- <-]|[_ Hx']]%lookup_insert_Some; [|by apply (Hf e')]. cbn. rewrite Hsig. by apply (Hf e).
      + intros s' h' _ Ha'. cbn in Ha'. rewrite Ha in Ha'. injection Ha' as <-. unfold joinable. rewrite He. cbn. by rewrite lookup_insert_eq.
    - exists st. split_and!; try done. intros s h' Es Ha'. rewrite Ha in Ha'. injection Ha' as <-. by eapply Hj. }
  assert (forall todo, phase st1 = Closing todo -> head todo = Some a) as Hh1 by by rewrite Ep1.
  destruct (teardown_step_ok st1 a pc Hg1 Ht1 Hh1) as (st2 & E & Hg2).
  destruct (teardown_next st1 a pc st2 Ep1 E Hf1) as (Ep2 & Hf2 & Hn).
  assert (rtc lstep st st2) as Hr2 by (eapply rtc_r; [exact Hr1|]; by eapply l_teardown).
  assert ((exists pc', teardown st2 !! a = Some pc' /\ S (rank pc') = rank pc /\ pc' <> Released) -> exists st', rtc lstep st st' /\ phase st' = Running /\
    heap st' !! a = None /\ teardown st' !! a = None) as Hnext.
  { intros (pc' & Ht2 & Hrk & Hnr). destruct (IH (rank pc')) with (st := st2) (pc := pc') as (st3 & Hr3 & Hrest); try done; [lia|].
    exists st3. split; [by etrans|done]. }
  destruct pc; try (by apply Hnext). by exists st2.
Qed.
End Steps.

(** ** A database to run the statements on *)

(** Column families and the next id; nothing fails but the reuse of a name. *)
#[global] Instance cf_store : RocksCF (gmap Z string * nat) := {|
  db_Open names := inr ((list_to_map (zip (seqZ 0 (zlen names)) names), length names), seqZ 0 (zlen names));
  db_CreateColumnFamily d n :=
    if bool_decide (map_Forall (fun _ x => x <> n) d.1) then ((<[Z.of_nat d.2 := n]> d.1, S d.2), inr (Z.of_nat d.2))
    else (d, inl (InvalidArgument "Column family already exists"));
  db_DropColumnFamily d i := (OK, (delete i d.1, d.2));
  db_cfs d := d.1;
  db_ids d := list_to_set (seqZ 0 (Z.of_nat d.2));
|}.
#[global] Instance cf_store_laws : RocksCFLaws _ cf_store.
Proof.
  split; cbn.
  - intros names d ids [= <- <-] Hn. rewrite length_seqZ. unfold zlen. split_and!; [lia|apply NoDup_seqZ|done|done].
  - intros [m k] n d' i. cbn. case_bool_decide as Hf; intros [= <- <-]. cbn. split_and!; [| |done|].
    + rewrite elem_of_list_to_set, elem_of_seqZ. lia.
    + intros j Hj. by apply (Hf j n Hj).
    + apply set_eq. intros j. rewrite elem_of_union, elem_of_singleton, !elem_of_list_to_set, !elem_of_seqZ. lia.
  - intros [m k] n d' s. cbn. case_bool_decide; intros [= <- <-]. done.
  - intros [m k] i. split; [done|by left].
Qed.

(** A database with a default column family, which has an estimator, and a
    second one. *)
Definition demo_cf_options : BitLSMOptions := mkBitLSMOptions 2 (attr_specs demo_options) 0 0 0 true 256 1000 false.
Definition demo_ds : list ColumnFamilyDescriptor := [mkDescriptor "default" demo_cf_options; mkDescriptor "logs" demo_options].
Definition the {A} (d : A) (m : result A) : A := match m with Ok a => a | Fault _ => d end.
Definition db0 : bitlsm (gmap Z string * nat) := the (mkBitLSM (∅, 0%nat) ∅ None ∅ ∅ ∅ ∅ 0 ∅ None Closed) (BitLSM_open demo_ds).
Definition registered : bitlsm (gmap Z string * nat) := the db0 (open_step 7 100 db0).
Definition db1 : bitlsm (gmap Z string * nat) := finish_arming registered.
Definition db2 : bitlsm (gmap Z string * nat) := the db1 (open_step 7 100 db1).
Definition db3 : bitlsm (gmap Z string * nat) := the db2 (open_step 7 100 db2).
Lemma db3_opened : opened demo_ds db3.
Proof.
  exists db0. split; [by vm_compute|].
  eapply rtc_l; [eapply (l_open 7 100 _ db0 registered); by vm_compute|].
  eapply rtc_l; [eapply (l_arm (0, 1)); by vm_compute|]. fold db1.
  eapply rtc_l; [eapply (l_open 7 100 _ db1 db2); by vm_compute|].
  eapply rtc_l; [eapply (l_open 7 100 _ db2 db3); by vm_compute|]. apply rtc_refl.
Qed.

(** ** Claims *)

(** (C6) Lifetimes. In every state any interleaving can reach from a successful
    open (registrations, creates, drops, notifications, the estimators'
    threads, whatever RocksDB answers, and the destructor): a notification never
    touches a freed estimator, and no step of a drop or of the destructor
    touches a freed object; a live estimator's worker refers to a RocksDB
    handle that is not destroyed yet, and its threads follow the refresh
    protocol; while the database is in use, the handle a name resolves to is
    allocated, has that name, a validated schema and a column family that is
    live in RocksDB under that name, and its estimator, once registration is
    over, is the one RocksDB's events reach; the default column family stays
    registered; after the destructor no estimator and no handle is left. *)
Theorem facade_lifetimes {D} `{RocksCF D} `{!RocksCFLaws D _} ds (st : bitlsm D) :
  opened ds st ->
  (forall i, exists st', Notify st i = Ok st') /\
  (forall a pc, teardown st !! a = Some pc -> (forall todo, phase st = Closing todo -> head todo = Some a) ->
     exists st', teardown_step st a pc = Ok st') /\
  (forall e x, ests st !! e = Some x -> est_cfd x ∈ handles st /\ exists v t, Worker.reachable (est_interval x) v t (est_sync x)) /\
  (forall n a, phase st = Running -> GetColumnFamily st n = Some a -> exists h,
     heap st !! a = Some h /\ name_ h = n /\ schema_ok (options_ h) /\ mkLayout (options_ h) = Ok (layout_ h) /\
     rocksdb_handle_ h ∈ handles st /\ db_cfs (db_ st) !! rocksdb_handle_ h = Some n /\
     forall e, estimator_ h = Some e -> is_Some (ests st !! e) /\
       (arming st <> Some (rocksdb_handle_ h, e) -> targets_ st !! rocksdb_handle_ h = Some e)) /\
  (phase st = Running -> exists a, default_cf_ st = Some a /\ GetColumnFamily st kDefaultColumnFamilyName = Some a) /\
  (phase st = Closed -> ests st = ∅ /\ handles st = ∅).
Proof.
  intros Ho. pose proof (opened_good ds st Ho) as Hg. pose proof Hg as [Hi Hp]. split_and!.
  - intros i. destruct (Notify_ok st i Hg) as (st' & E & _). by exists st'.
  - intros a pc Ht Hh. destruct (teardown_step_ok st a pc Hg Ht Hh) as (st' & E & _). by exists st'.
  - intros e x Hx. destruct (li_est _ Hi e x Hx) as [(a & h & Ha & He & ->) Hr]. split; [|done].
    assert (is_Some (ests st !! e)) as (b & h' & Hb & He' & Hpc)%(li_ests _ Hi) by by rewrite Hx.
    rewrite (li_owner _ Hi b a h' h e Hb Ha He' He) in Hpc. apply (li_handles _ Hi). exists a, h. split_and!; try done.
    by destruct (teardown st !! a) as [[]|].
  - intros n a Ep Hn. destruct (li_reg _ Hi n a Hn) as (h & Ha & Hnm).
    pose proof (li_live _ Hi n a Hn ltac:(by rewrite Ep)) as Ht. destruct (li_heap _ Hi a h Ha) as (_ & _ & H3 & H4 & H5 & _).
    rewrite Ht in H5. exists h. split_and!; try done.
    + apply (li_handles _ Hi). exists a, h. by rewrite Ht.
    + rewrite <- Hnm. by apply H5.
    + intros e He. split; [apply (li_ests _ Hi); exists a, h; by rewrite Ht|]. intros Har. apply (li_targets _ Hi). exists a, h. by rewrite Ht.
  - intros Ep. unfold phase_ok in Hp. rewrite Ep in Hp. apply Hp.
  - intros Ep. unfold phase_ok in Hp. rewrite Ep in Hp. split.
    + apply map_eq. intros e. rewrite lookup_empty. destruct (ests st !! e) as [x|] eqn:Hx; [|done].
      destruct (li_est _ Hi e x Hx) as [(a & h & Ha & _) _]. by rewrite Hp in Ha.
    + apply set_eq. intros i. split; [|set_solver]. intros (a & h & Ha & _)%(li_handles _ Hi). by rewrite Hp in Ha.
Qed.

(** (C30) Opening. The constructor throws [std::invalid_argument] exactly for
    descriptor lists with a repeated name, without the default column family or
    with an invalid schema, before it opens anything, and [std::runtime_error]
    exactly when RocksDB then refuses to open; otherwise it can run to its end,
    and the names it leaves registered are those of the descriptors. *)
Theorem open_validates {D} `{RocksCF D} `{!RocksCFLaws D _} ds :
  match BitLSM_open ds : result (bitlsm D) with
  | Fault f => (f = InvalidArgumentError /\ ~ accepted ds) \/
      (f = RuntimeError /\ accepted ds /\ exists s, db_Open (map d_name ds) = inl s :> Status + (D * list Z))
  | Ok st => accepted ds /\ exists st', rtc lstep st st' /\ phase st' = Running /\
      forall n, is_Some (GetColumnFamily st' n) <-> n ∈ map d_name ds
  end.
Proof.
  destruct (BitLSM_open ds) as [st|f] eqn:E.
  - pose proof (open_good ds st E) as Hg. rewrite BitLSM_open_spec in E. case_bool_decide as Hacc; [|done]. split; [done|].
    destruct (db_Open (map d_name ds)) as [s|[d ids]] eqn:Eo; [done|]. injection E as <-.
    destruct (opens _ (zip ds ids) Hg eq_refl eq_refl) as (st' & Hr & Ep & _ & Hn). exists st'. split; [done|]. split; [done|].
    intros n. unfold GetColumnFamily. rewrite Hn. cbn [cf_registry_]. rewrite lookup_empty.
    destruct (rc_open _ d ids Eo (proj1 Hacc)) as (Hlen & _). rewrite length_map in Hlen.
    replace (map (fun x => d_name x.1) (zip ds ids)) with (map d_name ds).
    + split; [intros [[? ?]|?]; done|by right].
    + rewrite <- (map_map fst d_name). f_equal. symmetry. apply (fst_zip ds ids). lia.
  - rewrite BitLSM_open_spec in E. case_bool_decide as Hacc; [|left; by injection E as <-].
    right. destruct (db_Open (map d_name ds)) as [s|[d ids]] eqn:Eo; [|done]. injection E as <-. eauto.
Qed.

(** (C29) Dropping. While the database is in use, a drop of the default column
    family is refused; of any other it makes the name unknown at once, and from
    every state a drop in progress can then be in (with fewer than 2^64 signals
    to an estimator) it can run to its end, whatever status RocksDB's drop
    returns, and frees the handle. *)
Theorem drop_completes {D} `{RocksCF D} `{!RocksCFLaws D _} ds (st : bitlsm D) :
  opened ds st -> phase st = Running ->
  (forall n a, arming st = None -> GetColumnFamily st n = Some a ->
     if bool_decide (n = kDefaultColumnFamilyName) then exists s, drop_begin st (Some a) = Ok (inl s) /\ ok s = false
     else exists st', drop_begin st (Some a) = Ok (inr st') /\ GetColumnFamily st' n = None /\ teardown st' !! a = Some Unlocked) /\
  (forall a pc, few_signals st -> teardown st !! a = Some pc ->
     exists st', rtc lstep st st' /\ phase st' = Running /\ heap st' !! a = None /\ teardown st' !! a = None).
Proof.
  intros Ho Ep. pose proof (opened_good ds st Ho) as Hg. pose proof Hg as [Hi Hp]. unfold phase_ok in Hp. rewrite Ep in Hp.
  destruct Hp as [(d & Hd1 & Hd2) Hrel]. split.
  - intros n a Har Hn. destruct (li_reg _ Hi n a Hn) as (h & Ha & Hnm).
    destruct (drop_begin_ok st (Some a) Hg Ep Har) as (r & E & Hr); [intros b [= <-]; by rewrite Ha|].
    case_bool_decide as Hdef.
    + subst n. exists (InvalidArgument "cannot drop null or the default column family"). split; [|done].
      unfold drop_begin, GetColumnFamily in *. rewrite bool_decide_eq_true_2; [done|congruence].
    + assert (exists st', r = inr st') as [st' ->].
      { unfold drop_begin in E. rewrite bool_decide_eq_false_2 in E; cycle 1.
        { intros Ed. rewrite Hd1 in Ed. injection Ed as ->. destruct (li_reg _ Hi _ d Hd2) as (h' & Hh' & Hn').
          apply Hdef. congruence. }
        rewrite Ha in E. cbn [get_or mbind result_bind] in E. rewrite Hnm, bool_decide_eq_true_2 in E by done. injection E as <-. by eexists. }
      exists st'. destruct Hr as (_ & a' & h' & [= <-] & Ha' & Ht & _ & Er). split_and!; try done.
      unfold GetColumnFamily. rewrite Er. rewrite Ha in Ha'. injection Ha' as <-. by rewrite Hnm, lookup_delete_eq.
  - intros a pc Hf Ht. eapply drop_ends; try done. intros ->. by destruct (Hrel a).
Qed.

Lemma facade_lifetimes_witness : exists a h, GetColumnFamily db3 "default" = Some a /\ heap db3 !! a = Some h /\
  targets_ db3 !! rocksdb_handle_ h = Some 1.
Proof.
  destruct (facade_lifetimes demo_ds db3 db3_opened) as (_ & _ & _ & H & _ & _).
  destruct (H "default" 0 ltac:(by vm_compute) ltac:(by vm_compute)) as (h & Hh & _ & _ & _ & _ & _ & He).
  exists 0, h. split; [by vm_compute|]. split; [done|]. apply (He 1); [|by vm_compute].
  assert (estimator_ <$> heap db3 !! 0 = Some (Some 1)) as Eh by by vm_compute. rewrite Hh in Eh. by injection Eh.
Defined.
Lemma open_validates_witness : BitLSM_open demo_ds = Ok db0 /\ accepted demo_ds.
Proof.
  assert (BitLSM_open demo_ds = Ok db0) as E by by vm_compute. split; [done|].
  pose proof (open_validates (D := gmap Z string * nat) demo_ds) as H. rewrite E in H. apply H.
Defined.
Lemma drop_completes_witness : exists st', drop_begin db3 (Some 2) = Ok (inr st') /\ GetColumnFamily st' "logs" = None.
Proof.
  destruct (drop_completes demo_ds db3 db3_opened ltac:(by vm_compute)) as [H _].
  destruct (H "logs" 2 ltac:(by vm_compute) ltac:(by vm_compute)) as (st' & E & Hn & _). by exists st'.
Defined.


(** Finding: a flush or compaction that ends between the construction of an
    estimator, which primes it, and the call of [Arm] is dropped. The priming
    pass has looked at version 7 when version 8 is installed; its event finds no
    target; and the database comes up armed, with the worker asleep, every
    signal processed, no notification due and the statistics of version 7. *)
Definition primed : rstate :=
  let s2 := worker_pace (worker_check (NotifyChange (init 7 100))) in
  install (worker_check (notify_all (worker_finish 1000 1 7 (with_worker s2 (WRead 1 7))))).
Lemma primed_run : rtc (Worker.step 1000) (NotifyChange (init 7 100)) primed.
Proof.
  eapply rtc_l; [by apply worker_steps, w_check|]. eapply rtc_l; [by apply worker_steps, w_pace|].
  eapply rtc_l; [by eapply worker_steps, w_acquire|]. eapply rtc_l; [by eapply worker_steps, w_finish|].
  eapply rtc_l; [by eapply worker_steps, w_notify|]. eapply rtc_l; [by apply worker_steps, w_check|].
  apply rtc_once, other_steps, e_install.
Qed.

Theorem event_before_arm_lost : exists st st' : bitlsm (gmap Z string * nat),
  opened demo_ds st /\ arming st = Some (0, 1) /\ ests st !! 1 = Some (mkEst 0 1000 primed) /\ version primed = 8 /\
  Notify st 0 = Ok st /\
  rtc lstep st st' /\ phase st' = Running /\ targets_ st' !! 0 = Some 1 /\ ests st' !! 1 = Some (mkEst 0 1000 primed) /\
  worker primed = WSleep /\ signal_gen_ primed = processed_gen_ primed /\ pending primed = 0%nat /\ seen primed = 7.
Proof.
  set (st := set_ests registered (<[1 := mkEst 0 1000 primed]> (ests registered))).
  set (st1 := finish_arming st). set (st2 := the st1 (open_step 7 100 st1)). set (st3 := the st2 (open_step 7 100 st2)).
  exists st, st3. split.
  { exists db0. split; [by vm_compute|]. eapply rtc_l; [eapply (l_open 7 100 _ db0 registered); by vm_compute|].
    apply (est_runs registered 1 (mkEst 0 1000 (NotifyChange (init 7 100))) primed); [by vm_compute|exact primed_run]. }
  do 4 (split; [by vm_compute|]). split.
  { eapply rtc_l; [eapply (l_arm (0, 1)); by vm_compute|]. fold st1.
    eapply rtc_l; [eapply (l_open 7 100 _ st1 st2); by vm_compute|].
    eapply rtc_l; [eapply (l_open 7 100 _ st2 st3); by vm_compute|]. apply rtc_refl. }
  split_and!; by vm_compute.
Qed.
