(* ===== verification/Database.v ===== *)
(** * What a client sees

    A column family as a map from keys to rows of typed attributes, and the
    facade's operations as operations on that map: writes update it or are
    refused, and a query returns the rows that satisfy it. The meaning of a
    query is stated on attribute values, without reference to bytes, layouts or
    indexes. *)
From Stdlib Require Import ZArith Lia Strings.Byte Strings.String Sorting.Sorted.
From stdpp Require Import base numbers strings list sets sorting gmap.
From S2P Require Import Prelude Floats Options Row Okey BytesList Query QuerySpec Externals Intern.
From S2P Require Import RangeBuf Binning Builder Reader Index ReaderSpec BuilderSpec BlobSpec.
From S2P Require Import SstIndex BinSource TableIter QueryBitmap TableScan TableSpec.
From S2P Require Import Iterators Merging Lsm Shadow TopIterator BatchSpec LsmScan ScanSpec ScanDemo.
From S2P Require Import ByteAxis Estimator Facade.

(** ** Rows and queries *)

(** The rows of a column family. *)
Definition rows_t : Type := bytes -> option (list Attr * bytes).

Definition order_holds (o : CompareOp) (c : comparison) : bool :=
  match o, c with
  | EQUAL, Eq | LESS, Lt | GREATER, Gt => true
  | LESS_EQUAL, (Lt | Eq) | GREATER_EQUAL, (Gt | Eq) => true
  | _, _ => false
  end.

(** A condition on an attribute's value: integers by magnitude, strings
    lexicographically by bytes, doubles as IEEE-754 compares them; NULL
    satisfies nothing. *)
Definition attr_sat (c : QueryCondition) (a : Attr) : bool :=
  match a, value c with
  | AInt x, VInt y => order_holds (op c) (x ?= y)
  | AUint x, VUint y => order_holds (op c) (x ?= y)
  | ADouble x, VDouble y => ApplyCompareOp double_operand (op c) x y
  | AString x, VString y => order_holds (op c) (bcompare x y)
  | _, _ => false
  end.
Definition row_sat (q : BitLSMQuery) (attrs : list Attr) : bool :=
  forallb (existsb (fun c => match attrs !! Z.to_nat (attr_idx c) with Some a => attr_sat c a | None => false end)) (clause_groups q).

(** The rows a client may store without loss. *)
Record row_wf (o : BitLSMOptions) (attrs : list Attr) : Prop := {
  rw_typed : Forall2 attr_typed (attr_specs o) attrs;
  rw_fits : Forall2 attr_fits (attr_specs o) attrs;
  rw_size : row_fits (attr_specs o) attrs;
}.

Lemma row_wf_lookup o attrs i s :
  row_wf o attrs -> attr_specs o !! i = Some s -> Valid s = true ->
  exists a, attrs !! i = Some a /\ attr_typed s a /\ stored_value s a = a.
Proof.
  intros [Ht Hf _] Hs Hv. destruct (Forall2_lookup_l _ _ _ _ _ Ht Hs) as (a & Ha & Hta).
  exists a. split; [done|]. split; [done|]. apply stored_value_lossless; [done|done|].
  by eapply Forall2_lookup_lr.
Qed.

Lemma int_sat o x y : ApplyCompareOp int_operand o x y = order_holds o (x ?= y).
Proof.
  destruct (Z.compare_spec x y), o; cbn;
    first [apply Z.eqb_eq; lia|apply Z.eqb_neq; lia|apply Z.ltb_lt; lia|apply Z.ltb_ge; lia|apply Z.leb_le; lia|apply Z.leb_gt; lia].
Qed.

Lemma EvalCondition_sat spec c a :
  comparand_matches (physical_type spec) (value c) = true -> attr_typed spec a -> EvalCondition c a = Ok (attr_sat c a).
Proof.
  intros Hm Ht. unfold EvalCondition, attr_sat. destruct a as [|x|x|x|x]; [done|..]; cbn in Ht.
  - destruct Ht as [E _]. rewrite E in Hm. destruct (value c); try done. cbn [vget_int mbind result_bind]. by rewrite int_sat.
  - destruct Ht as [E _]. rewrite E in Hm. destruct (value c); try done. cbn [vget_uint mbind result_bind]. by rewrite int_sat.
  - destruct Ht as [E _]. rewrite E in Hm. by destruct (value c).
  - assert (exists s, value c = VString s) as [s ->].
    { destruct Ht as [[E _]|E]; rewrite E in Hm; destruct (value c); try done; by eexists. }
    cbn. f_equal. destruct (bcompare x s), (op c); done.
Qed.

(** The reference evaluation of a stored row is the query's meaning on its
    attributes. *)
Lemma CheckCondition_sat h q attrs payload :
  handle_ok h -> is_u32 (attr_num (options_ h)) -> query_wf q -> Validate q (options_ h) = OK -> row_wf (options_ h) attrs ->
  CheckCondition q (Row.row_value (attr_specs (options_ h)) attrs payload) (layout_ h) = Ok (row_sat q attrs).
Proof.
  intros Hh Hnum Hwf Hv Hr. pose proof (handle_layout h Hh) as Hlay. pose proof (Validate_conds q _ Hwf Hv) as Hval.
  set (v := Row.row_value _ attrs payload).
  assert (CheckCondition q v (layout_ h) = check_clauses (layout_ h) v (clause_groups q)) as ->
    by (unfold CheckCondition; by destruct (clause_groups q)).
  unfold row_sat. clear Hv Hwf. induction (clause_groups q) as [|clause cs IH]; [done|].
  apply Forall_cons in Hval as [Hc Hval]. cbn [check_clauses forallb]. rewrite check_clause_any; [|..|by left]; cycle 1.
  { eapply Forall_impl; [exact Hc|]. intros x Hx%cond_valid_idx. rewrite (schema_size _ (ho_schema _ Hh)) in Hx.
    unfold UINT32_MAX, is_u32 in *. lia. }
  assert (any_cond (layout_ h) v clause = Ok (existsb (fun c =>
    match attrs !! Z.to_nat (attr_idx c) with Some a => attr_sat c a | None => false end) clause)) as ->.
  { clear -Hc Hh Hlay Hr. induction Hc as [|c clause [Hi (spec & Hs & Hm & _)] _ IH]; [done|]. cbn [any_cond existsb]. unfold check_cond.
    destruct (row_wf_lookup _ _ _ _ Hr Hs) as (a & Ha & Hta & Hst).
    { pose proof (schema_valid _ (ho_schema _ Hh)) as Hval. by eapply Forall_lookup_1 in Hval. }
    pose proof (DecodeAttr_row (layout_ h) _ attrs payload _ _ _ Hlay (rw_typed _ _ Hr) (rw_size _ _ Hr) Hs Ha) as Hd.
    rewrite Z2Nat.id in Hd by done. unfold v. rewrite Hd, Hst, Ha. cbn [mbind result_bind].
    rewrite (EvalCondition_sat spec) by done. cbn [mbind result_bind]. by destruct (attr_sat c a). }
  cbn [mbind result_bind]. destruct (existsb _ clause); [|done]. by apply IH.
Qed.

(** ** Writes *)
Inductive client_op :=
  | WPut (pk : bytes) (attrs : list Attr) (payload : bytes)
  | WBatch (pks : list bytes) (attrs_list : list (list Attr)) (payloads : list bytes)
  | WDelete (key : bytes)
  | WFlush.

(** *** On the map of rows *)
Definition put_row (rows : rows_t) (k : bytes) (r : list Attr * bytes) : rows_t :=
  fun k' => if bool_decide (k' = k) then Some r else rows k'.
Fixpoint put_rows (rows : rows_t) (pks : list bytes) (attrs_list : list (list Attr)) (payloads : list bytes) : rows_t :=
  match pks, attrs_list, payloads with
  | pk :: pks', attrs :: attrs_list', payload :: payloads' => put_rows (put_row rows pk (attrs, payload)) pks' attrs_list' payloads'
  | _, _, _ => rows
  end.
Definition apply_op (rows : rows_t) (op : client_op) : rows_t :=
  match op with
  | WPut pk attrs payload => put_row rows pk (attrs, payload)
  | WBatch pks attrs_list payloads => put_rows rows pks attrs_list payloads
  | WDelete key => fun k => if bool_decide (k = key) then None else rows k
  | WFlush => rows
  end.
Definition valid_op (o : BitLSMOptions) (op : client_op) : bool :=
  match op with
  | WPut _ attrs _ => accepts o attrs
  | WBatch _ attrs_list _ => forallb (accepts o) attrs_list
  | _ => true
  end.

(** An operation takes effect as a whole; one that fails in RocksDB may or may
    not have; a refused one has none. *)
Inductive spec_step (o : BitLSMOptions) (rows : rows_t) (op : client_op) : Status -> rows_t -> Prop :=
  | spec_applied s : valid_op o op = true -> spec_step o rows op s (apply_op rows op)
  | spec_failed s : valid_op o op = true -> s <> OK -> spec_step o rows op s rows
  | spec_refused msg : valid_op o op = false -> spec_step o rows op (InvalidArgument msg) rows.
Inductive spec_run (o : BitLSMOptions) : rows_t -> list client_op -> list Status -> rows_t -> Prop :=
  | spec_nil rows : spec_run o rows [] [] rows
  | spec_cons rows op ops s ss rows1 rows2 :
      spec_step o rows op s rows1 -> spec_run o rows1 ops ss rows2 -> spec_run o rows (op :: ops) (s :: ss) rows2.

(** *** On the database *)
Section Run.
Context {D : Type} `{RocksWrite D}.
Definition do_op (d : D) (buf : bytes) (h : ColumnFamilyHandle) (op : client_op) : result (Status * D * bytes) :=
  match op with
  | WPut pk attrs payload => Put d buf (Some h) pk attrs payload
  | WBatch pks attrs_list payloads => r ← PutBatch d (Some h) pks attrs_list payloads; Ok (r, buf)
  | WDelete key => Ok (Delete d (Some h) key, buf)
  | WFlush => Ok (Flush d (Some h), buf)
  end.
Fixpoint run_ops (d : D) (buf : bytes) (h : ColumnFamilyHandle) (ops : list client_op) : result (list Status * D) :=
  match ops with
  | [] => Ok ([], d)
  | op :: rest =>
      '(s, d', buf') ← do_op d buf h op;
      '(ss, d'') ← run_ops d' buf' h rest;
      Ok (s :: ss, d'')
  end.
End Run.

(** The store holds these rows. *)
Definition represents (h : ColumnFamilyHandle) (read : bytes -> option bytes) (rows : rows_t) : Prop :=
  forall k, match rows k with
            | Some (attrs, payload) => row_wf (options_ h) attrs /\ read k = Some (Row.row_value (attr_specs (options_ h)) attrs payload)
            | None => read k = None
            end.

(** What a caller owes: every attribute of its C++ alternative, values that fit
    their columns, rows below 4 GiB, vectors of one length. *)
Definition row_ok (o : BitLSMOptions) (attrs : list Attr) : Prop :=
  kinds_ok o attrs /\ (accepts o attrs = true -> Forall2 attr_fits (attr_specs o) attrs /\ row_fits (attr_specs o) attrs).
Definition op_ok (o : BitLSMOptions) (op : client_op) : Prop :=
  match op with
  | WPut _ attrs _ => row_ok o attrs
  | WBatch pks attrs_list payloads => zlen pks < 2 ^ 32 /\ length attrs_list = length pks /\ length payloads = length pks /\
      Forall (row_ok o) attrs_list
  | _ => True
  end.

Lemma row_ok_wf o attrs : row_ok o attrs -> accepts o attrs = true -> row_wf o attrs.
Proof. intros [Hk Hf] Ha. destruct (Hf Ha). split; [by apply accepts_typed|done|done]. Qed.

Lemma represents_put h read rows k attrs payload :
  represents h read rows -> row_wf (options_ h) attrs ->
  represents h (fun k' => if bool_decide (k' = k) then Some (Row.row_value (attr_specs (options_ h)) attrs payload) else read k')
    (put_row rows k (attrs, payload)).
Proof. intros Hr Hw k'. unfold put_row. case_bool_decide; [done|apply Hr]. Qed.
Lemma represents_ext h read read' rows : (forall k, read' k = read k) -> represents h read rows -> represents h read' rows.
Proof. intros E Hr k. specialize (Hr k). rewrite E. exact Hr. Qed.

Lemma represents_batch h pks attrs_list payloads reads rows :
  Forall (fun attrs => row_wf (options_ h) attrs) attrs_list -> represents h (reads (rocksdb_handle_ h)) rows ->
  represents h (foldl after_put reads (batch_entries h pks attrs_list payloads) (rocksdb_handle_ h)) (put_rows rows pks attrs_list payloads).
Proof.
  intros Hw. revert pks payloads reads rows. induction Hw as [|attrs attrs_list Ha _ IH]; intros [|pk pks] [|payload payloads] reads rows Hr; try done.
  cbn [batch_entries put_rows foldl]. apply IH. eapply represents_ext; [|by eapply represents_put].
  intros k. unfold after_put. cbn. apply (f_equal (fun b : bool => if b then _ else _)), bool_decide_ext. naive_solver.
Qed.

Section Refinement.
Context {D : Type} `{RocksWrite D} `{!RocksWriteLaws D _}.
Context (h : ColumnFamilyHandle) (Hh : handle_ok h).
Local Abbreviation o := (options_ h).
Local Abbreviation cf := (rocksdb_handle_ h).

(** One operation: it returns, leaves other column families alone, and does to
    the rows what the specification allows. *)
Definition op_refines (d : D) (rows : rows_t) (op : client_op) (s : Status) (d' : D) : Prop :=
  (forall cf' k, cf' <> cf -> db_Get d' cf' k = db_Get d cf' k) /\
  exists rows', spec_step o rows op s rows' /\ represents h (db_Get d' cf) rows'.

Lemma refines_atomic d rows op s d' (after : Z -> bytes -> option bytes) :
  valid_op o op = true -> represents h (db_Get d cf) rows -> represents h (after cf) (apply_op rows op) ->
  (forall cf' k, cf' <> cf -> after cf' k = db_Get d cf' k) ->
  (s = OK -> forall cf k, db_Get d' cf k = after cf k) ->
  ((forall cf k, db_Get d' cf k = db_Get d cf k) \/ (forall cf k, db_Get d' cf k = after cf k)) ->
  op_refines d rows op s d'.
Proof.
  intros Hv Hr Ha Hframe Hok Hat.
  assert ((s <> OK /\ forall cf k, db_Get d' cf k = db_Get d cf k) \/ (forall cf k, db_Get d' cf k = after cf k)) as [[Hs E]|E].
  { destruct Hat as [E|E]; [|by right]. destruct (decide (ok s = true)) as [Es|Es].
    - right. apply Hok. by destruct s.
    - left. split; [|done]. by intros ->. }
  - split; [by intros; rewrite E|]. exists rows. split; [by apply spec_failed|]. eapply represents_ext; [|done]. intros k. apply E.
  - split; [intros; by rewrite E, Hframe|]. exists (apply_op rows op). split; [by apply spec_applied|].
    eapply represents_ext; [|done]. intros k. apply E.
Qed.

Lemma put_refines d buf rows pk attrs payload :
  represents h (db_Get d cf) rows -> row_ok o attrs ->
  exists s d' buf', Put d buf (Some h) pk attrs payload = Ok (s, d', buf') /\ op_refines d rows (WPut pk attrs payload) s d'.
Proof.
  intros Hr Hok. pose proof (Put_spec d buf h pk attrs payload Hh (proj1 Hok) (fun Ha => proj2 (proj2 Hok Ha))) as Hp.
  destruct (accepts o attrs) eqn:Ea.
  - destruct (db_Put d (cf, pk, Row.row_value (attr_specs o) attrs payload)) as [s d'] eqn:Ed. cbv zeta in Hp. rewrite Ed in Hp.
    eexists s, d', _. split; [exact Hp|]. pose proof (rw_put d (cf, pk, Row.row_value (attr_specs o) attrs payload)) as H1.
    pose proof (rw_put_atomic d (cf, pk, Row.row_value (attr_specs o) attrs payload)) as H2. rewrite Ed in H1, H2. cbn [fst snd] in *.
    eapply (refines_atomic d rows _ s d' (after_put (db_Get d) (cf, pk, Row.row_value (attr_specs o) attrs payload))); try done.
    + cbn [apply_op]. eapply represents_ext; [|apply represents_put; [done|by apply row_ok_wf]].
      intros k. unfold after_put. cbn. apply (f_equal (fun b : bool => if b then _ else _)), bool_decide_ext. naive_solver.
    + intros cf' k Hne. unfold after_put. cbn. rewrite bool_decide_eq_false_2; [done|]. naive_solver.
  - destruct Hp as [msg Hp]. eexists _, d, _. split; [exact Hp|]. split; [done|]. exists rows. split; [by apply spec_refused|done].
Qed.

Lemma batch_refines d rows pks attrs_list payloads :
  represents h (db_Get d cf) rows -> op_ok o (WBatch pks attrs_list payloads) ->
  exists s d', PutBatch d (Some h) pks attrs_list payloads = Ok (s, d') /\ op_refines d rows (WBatch pks attrs_list payloads) s d'.
Proof.
  intros Hr (Hn & L1 & L2 & Hrows).
  pose proof (PutBatch_spec d h pks attrs_list payloads Hh Hn L1 L2) as Hp.
  destruct Hp as (r & E & Hp). { eapply Forall_impl; [exact Hrows|]. intros attrs [Hk Hf]. split; [done|]. intros Ha. by apply Hf. }
  destruct r as [s d']. exists s, d'. split; [done|]. destruct (forallb (accepts o) attrs_list) eqn:Ea.
  - set (b := batch_entries h pks attrs_list payloads) in *. pose proof (rw_write d b) as H1. pose proof (rw_atomic d b) as H2.
    rewrite <- Hp in H1, H2. cbn [fst snd] in *. eapply (refines_atomic d rows _ s d' (foldl after_put (db_Get d) b)); try done.
    + cbn [apply_op]. apply represents_batch; [|done]. apply Forall_forall. intros attrs Hin.
      rewrite Forall_forall in Hrows. apply row_ok_wf; [by apply Hrows|]. rewrite forallb_forall in Ea. by apply Ea, list_elem_of_In.
    + intros cf' k Hne. rewrite foldl_after_put, filter_none; [done|]. intros p Hp' [E1 _].
      apply list_elem_of_lookup in Hp' as [i [E2 _]%batch_entries_key]. congruence.
  - destruct Hp as [msg [= -> ->]]. split; [done|]. exists rows. split; [by apply spec_refused|done].
Qed.

Lemma do_op_refines d buf rows op :
  represents h (db_Get d cf) rows -> op_ok o op ->
  exists s d' buf', do_op d buf h op = Ok (s, d', buf') /\ op_refines d rows op s d'.
Proof.
  intros Hr Hok. destruct op as [pk attrs payload|pks attrs_list payloads|key|]; cbn [do_op].
  - by apply put_refines.
  - destruct (batch_refines d rows pks attrs_list payloads Hr Hok) as (s & d' & E & Href). exists s, d', buf. by rewrite E.
  - cbn [Delete]. destruct (db_Delete d cf key) as [s d'] eqn:Ed. exists s, d', buf. split; [done|].
    pose proof (rw_delete d cf key) as H1. pose proof (rw_delete_atomic d cf key) as H2. rewrite Ed in H1, H2. cbn [fst snd] in *.
    eapply (refines_atomic d rows _ s d'); [done|done| | |exact H1|exact H2].
    + intros k. cbn [apply_op]. case_bool_decide as Ek.
      * by rewrite bool_decide_eq_true_2.
      * specialize (Hr k). destruct (rows k) as [[attrs payload]|]; by rewrite bool_decide_eq_false_2 by naive_solver.
    + intros cf' k Hne. cbn. rewrite bool_decide_eq_false_2; [done|]. naive_solver.
  - cbn [Flush]. destruct (db_Flush d cf) as [s d'] eqn:Ed. exists s, d', buf. split; [done|].
    pose proof (rw_flush d cf) as H1. rewrite Ed in H1. cbn [fst snd] in *.
    eapply (refines_atomic d rows _ s d' (db_Get d)); try done. by right.
Qed.

Lemma run_ops_refines ops d buf rows :
  represents h (db_Get d cf) rows -> Forall (op_ok o) ops ->
  exists ss d', run_ops d buf h ops = Ok (ss, d') /\ (forall cf' k, cf' <> cf -> db_Get d' cf' k = db_Get d cf' k) /\
    exists rows', spec_run o rows ops ss rows' /\ represents h (db_Get d' cf) rows'.
Proof.
  revert d buf rows. induction ops as [|op ops IH]; intros d buf rows Hr Hok.
  { exists [], d. split; [done|]. split; [done|]. exists rows. split; [constructor|done]. }
  apply Forall_cons in Hok as [Hop Hok]. destruct (do_op_refines d buf rows op Hr Hop) as (s & d1 & buf1 & E & Hf & rows1 & Hs & Hr1).
  destruct (IH d1 buf1 rows1 Hr1 Hok) as (ss & d2 & E2 & Hf2 & rows2 & Hs2 & Hr2). exists (s :: ss), d2. cbn [run_ops]. rewrite E.
  cbn [mbind result_bind]. rewrite E2. cbn [mbind result_bind]. split; [done|]. split; [intros; by rewrite Hf2, Hf|].
  exists rows2. split; [by econstructor|done].
Qed.
End Refinement.

(** (C20) Writes refine operations on a map of rows. From a store that holds the
    rows of a map, any sequence of puts, batches, deletes and flushes by a
    caller that keeps the types of the schema returns, changes no other column
    family, and ends in a store that holds the rows of a map the specification
    allows for the returned statuses: an operation with status OK took effect
    as a whole, one RocksDB failed took effect as a whole or not at all, one
    with a wrong attribute count or width was refused with InvalidArgument and
    had none. *)
Theorem writes_refine {D} `{RocksWrite D} `{!RocksWriteLaws D _} h ops (d : D) buf rows :
  handle_ok h -> represents h (db_Get d (rocksdb_handle_ h)) rows -> Forall (op_ok (options_ h)) ops ->
  exists ss d', run_ops d buf h ops = Ok (ss, d') /\
    (forall cf' k, cf' <> rocksdb_handle_ h -> db_Get d' cf' k = db_Get d cf' k) /\
    exists rows', spec_run (options_ h) rows ops ss rows' /\ represents h (db_Get d' (rocksdb_handle_ h)) rows'.
Proof. intros Hh. by apply run_ops_refines. Qed.

Definition demo_ops : list client_op :=
  [WPut [x6b] demo_row [x70]; WBatch [[x6b]; [x6c]; [x6b]] demo_rows [[]; [x70]; []]; WDelete [x6c]; WPut [x6d] [AInt 1] []; WFlush].
Lemma demo_ops_ok : Forall (op_ok demo_options) demo_ops.
Proof.
  assert (Forall (row_ok demo_options) (demo_rows ++ [[AInt 1]])) as Hall.
  { pose proof (demo_rows_ok [[AInt 1]] ltac:(by repeat constructor)) as Hk. apply Forall_forall. intros attrs Hin.
    destruct (proj1 (Forall_forall _ _) Hk attrs Hin) as [H1 H2]. split; [done|]. intros Ha. split; [|by apply H2].
    repeat (apply elem_of_cons in Hin as [->|Hin]; [try done; repeat constructor; cbn; lia|]). by apply elem_of_nil in Hin. }
  rewrite Forall_forall in Hall.
  unfold demo_ops. constructor; [|constructor; [|constructor; [done|constructor; [|by repeat constructor]]]]; cbn [op_ok].
  - apply Hall. set_solver.
  - split_and!; [done|done|done|]. apply Forall_forall. intros attrs Hin. apply Hall. set_solver.
  - apply Hall. set_solver.
Qed.
Definition empty_store : Z -> bytes -> option bytes := fun _ _ => None.
Lemma writes_refine_witness : exists ss d', run_ops empty_store [] demo_handle demo_ops = Ok (ss, d') /\
  exists rows, spec_run demo_options (fun _ => None) demo_ops ss rows /\ represents demo_handle (db_Get d' 0) rows.
Proof.
  destruct (writes_refine demo_handle demo_ops empty_store [] (fun _ => None) demo_handle_ok ltac:(by intros k) demo_ops_ok)
    as (ss & d' & E & _ & H). by exists ss, d'.
Defined.

(** ** Queries *)

(** The row decodes from [v]. *)
Definition reads_row (h : ColumnFamilyHandle) (v : bytes) (attrs : list Attr) (payload : bytes) : Prop :=
  (forall j a, attrs !! j = Some a -> DecodeAttr (layout_ h) v (Z.of_nat j) = Ok a) /\ DecodePayload (layout_ h) v = Ok payload.

Lemma row_value_reads h attrs payload :
  handle_ok h -> row_wf (options_ h) attrs -> reads_row h (Row.row_value (attr_specs (options_ h)) attrs payload) attrs payload.
Proof.
  intros Hh [Ht Hf Hs]. destruct (row_value_holds h attrs payload Hh Ht Hs) as [H1 H2]. split; [|done]. intros j a Ha.
  destruct (Forall2_lookup_r _ _ _ _ _ Ht Ha) as (s & Hsp & Hta). rewrite (H1 j s a Hsp Ha). f_equal.
  apply stored_value_lossless; [|done|by eapply Forall2_lookup_lr].
  pose proof (schema_valid _ (ho_schema _ Hh)) as Hval. by eapply Forall_lookup_1 in Hval.
Qed.

(** A query returns the rows that satisfy it. When the snapshot holds the
    rows of a map, over any tree that meets RocksDB's invariants and whose files
    carry their index, the iterator [NewIterator] returns, drained, gives a
    prefix, and the whole when the final status is OK, of rows in strictly
    increasing key order: every non-empty key whose row's attributes satisfy the
    query, with bytes from which exactly that row decodes, and beside those only
    keys without a row whose last version a range tombstone of its own file
    deletes. A null column family and a query [Validate] rejects give a null
    iterator. *)
Theorem query_refines_filter `{RoaringOps} `{!RoaringLaws _} {Src : BinSource} `{StdSort} `{!StdSortLaws _}
    parse_key user_key_of icmp lookup_ikey R db FindTable mem_Get imm_Get FindFile MultiGet read_seqno h q sh rows :
  let make o q := scan_iter parse_key user_key_of lookup_ikey R db FindTable mem_Get imm_Get FindFile read_seqno o q sh Verified in
  NewIterator make None q = Ok (None, q) /\
  (ok (Validate q (options_ h)) = false -> NewIterator make (Some h) q = Ok (None, q)) /\
  (scan_setting parse_key user_key_of icmp lookup_ikey R db FindTable mem_Get imm_Get FindFile MultiGet read_seqno
     (options_ h) q sh (layout_ h) -> represents h (get parse_key read_seqno db) rows ->
   exists it n,
     NewIterator make (Some h) q = Ok (Some it, sort_clauses q) /\
     forall fuel, (n <= fuel)%nat -> exists answers out last,
       scan_run parse_key user_key_of icmp lookup_ikey db FindTable mem_Get imm_Get FindFile MultiGet read_seqno read_row fuel it
         = Ok (out, last) /\
       bi_valid last = false /\ out `prefix_of` answers /\ (ok (bi_status last) = true -> out = answers) /\
       StronglySorted blt (map fst answers) /\
       (forall k attrs payload, rows k = Some (attrs, payload) -> row_sat q attrs = true -> k <> [] ->
          exists v, (k, v) ∈ answers /\ reads_row h v attrs payload) /\
       (forall k v, (k, v) ∈ answers -> k <> [] /\
          ((exists attrs payload, rows k = Some (attrs, payload) /\ row_sat q attrs = true /\ reads_row h v attrs payload) \/
           rows k = None /\ CheckCondition q v (layout_ h) = Ok true /\ own_file_deleted parse_key read_seqno db k v)) /\
       (no_own_tombstones parse_key read_seqno db -> forall k, k ∈ map fst answers <->
          k <> [] /\ exists attrs payload, rows k = Some (attrs, payload) /\ row_sat q attrs = true)).
Proof.
  destruct (NewIterator_answers parse_key user_key_of icmp lookup_ikey R db FindTable mem_Get imm_Get FindFile MultiGet read_seqno h q sh)
    as (H1 & H2 & H3). split; [done|]. split; [done|]. intros Hset Hrep. destruct (H3 Hset) as (it & n & E & Hrun).
  assert (handle_ok h) as Hh by (destruct Hset; by split).
  assert (forall attrs payload, row_wf (options_ h) attrs ->
    CheckCondition q (Row.row_value (attr_specs (options_ h)) attrs payload) (layout_ h) = Ok (row_sat q attrs)) as Hcheck
    by (intros; destruct Hset; by apply CheckCondition_sat).
  exists it, n. split; [done|]. intros fuel Hf. destruct (Hrun fuel Hf) as (answers & out & last & Hqa & Er & Hv & Hp & Hok).
  exists answers, out, last.
  assert (forall k attrs payload, rows k = Some (attrs, payload) -> row_sat q attrs = true -> k <> [] ->
    exists v, (k, v) ∈ answers /\ reads_row h v attrs payload) as Hall.
  { intros k attrs payload Hrow Hsat Hk. specialize (Hrep k). rewrite Hrow in Hrep. destruct Hrep as [Hw Hg].
    exists (Row.row_value (attr_specs (options_ h)) attrs payload). split; [|by apply row_value_reads].
    apply (qa_complete _ _ _ _ _ _ Hqa); [done| |done]. by rewrite Hcheck, Hsat. }
  assert (forall k v, get parse_key read_seqno db k = Some v -> CheckCondition q v (layout_ h) = Ok true ->
    exists attrs payload, rows k = Some (attrs, payload) /\ row_sat q attrs = true /\ reads_row h v attrs payload) as Hrow.
  { intros k v Hg Hc. specialize (Hrep k). destruct (rows k) as [[attrs payload]|]; [|congruence]. destruct Hrep as [Hw Hg'].
    exists attrs, payload. rewrite Hg' in Hg. injection Hg as <-. rewrite (Hcheck attrs payload Hw) in Hc. injection Hc as Hc.
    split_and!; [done..|]. by apply row_value_reads. }
  split_and!; try done; [apply Hqa|..].
  - intros k v (Hk & Hc & Hg)%(qa_sound _ _ _ _ _ _ Hqa). split; [done|]. destruct Hg as [Hg|Hdel]; [left; by apply Hrow|right].
    split; [|done]. specialize (Hrep k). rewrite (own_file_deleted_none _ _ _ _ _ Hdel) in Hrep.
    destruct (rows k) as [[attrs payload]|]; [|done]. by destruct Hrep.
  - intros Hno k. rewrite list_elem_of_fmap. split.
    + intros ([k' v] & -> & [[Hg Hc] Hk]%(query_answers_exact _ _ _ _ _ _ _ _ Hqa Hno)). split; [done|].
      destruct (Hrow _ _ Hg Hc) as (attrs & payload & ? & ? & _). by exists attrs, payload.
    + intros (Hk & attrs & payload & Hr & Hsat). destruct (Hall k attrs payload Hr Hsat Hk) as (v & Hin & _). by exists (k, v).
Qed.

(** The rows of the tree of [ScanDemo]. *)
Definition demo_known : list (list Attr * bytes) :=
  map (fun attrs => (attrs, [x70])) [[AInt (-3); AString [x7a]]; [AInt 0; AString [x78]]; [AInt (-5); AString [x61; x62]];
    [AInt 20; AString [x7a; x7a]]; [ANull; AString [x61; x62]]; [AInt (-1); AString [x71]]].
Definition demo_map : rows_t := fun k =>
  match get TableDemo.parse_key 10 ScanDemo.db k with
  | Some v => List.find (fun r => beqb (Row.row_value (attr_specs demo_options) r.1 r.2) v) demo_known
  | None => None
  end.
Lemma demo_known_wf : Forall (fun r => row_wf demo_options r.1) demo_known.
Proof.
  repeat (apply Forall_cons; split; [split; [| |split; by vm_compute]|]); try constructor; try (by repeat constructor);
    repeat constructor; cbn; unfold is_s64; (lia || done || by right).
Qed.
Lemma demo_represents : represents demo_handle (get TableDemo.parse_key 10 ScanDemo.db) demo_map.
Proof.
  intros k. unfold demo_map. destruct (get TableDemo.parse_key 10 ScanDemo.db k) as [v|] eqn:Eg; [|done].
  apply get_stored in Eg as (e & p & He & Hp & _ & _ & Hty & <- & _).
  assert (exists r, List.find (fun r => beqb (Row.row_value (attr_specs demo_options) r.1 r.2) (snd e)) demo_known = Some r) as [[attrs payload] E].
  { rewrite ScanDemo.entries_are in He. ScanDemo.cases He; injection Hp as <-; try done; eexists; vm_compute; reflexivity. }
  rewrite E. apply List.find_some in E as [Hin Heq]. cbn [fst snd] in Heq. apply beqb_eq in Heq. split; [|by rewrite <- Heq].
  apply (proj1 (Forall_forall _ _) demo_known_wf (attrs, payload)). by apply list_elem_of_In.
Qed.

Lemma query_refines_filter_witness : exists r it (answers : list (bytes * bytes)),
  NewIterator (fun o q => @scan_iter _ resident_source TableDemo.parse_key TableDemo.user_key_of ScanDemo.lookup_ikey 16 ScanDemo.db
    (ScanDemo.FindTable r) ScanDemo.mem_Get ScanDemo.imm_Get ScanDemo.FindFile 10 o q ScanDemo.shape Verified)
    (Some demo_handle) demo_query = Ok (Some it, sort_clauses demo_query) /\ [x62] ∈ map fst answers.
Proof.
  destruct TableDemo.demo_reader as (r & Hm & Hr).
  destruct (proj2 (proj2 (@query_refines_filter _ _ resident_source _ _ _ _ _ _ _ _ _ _ _ _ _ _ demo_handle _ _ _))
    (ScanDemo.setting r Hm Hr) demo_represents) as (it & n & E & Hrun).
  destruct (Hrun n (le_n n)) as (answers & out & last & _ & _ & _ & _ & _ & Hin & _).
  destruct (Hin [x62] [AInt (-3); AString [x7a]] [x70]) as (v & Hv & _); [vm_compute; reflexivity|vm_compute; reflexivity|done|].
  exists r, it, answers. split; [exact E|]. apply list_elem_of_fmap. exists ([x62], v). split; [reflexivity|exact Hv].
Defined.

(** ** Both together *)

(** (C3) What a client sees. Starting from a store that holds the rows of a map,
    any sequence of puts, batches, deletes and flushes by a caller that keeps the
    types of the schema returns, and there is a map of rows the specification
    allows for the returned statuses such that a query on any later view of the
    database that meets RocksDB's invariants, whose files carry their index, and
    that reads what the store reads, when drained gives a prefix, and the whole
    when the status is OK, of rows in strictly increasing key order: every
    non-empty key of that map whose attributes satisfy the query, with bytes from
    which that row decodes. Any further row has a key the map lacks: its newest
    version is deleted, and only by range tombstones of the file that holds it.
    When no file of the view holds a key together with a newer visible range
    tombstone over it, the keys are exactly the non-empty ones of the map whose
    row satisfies the query. A null column family and a query [Validate] rejects
    give a null iterator. *)
Theorem client_view `{RoaringOps} `{!RoaringLaws _} {Src : BinSource} `{StdSort} `{!StdSortLaws _}
    {D} `{RocksWrite D} `{!RocksWriteLaws D _} h ops (d : D) buf rows q :
  handle_ok h -> represents h (db_Get d (rocksdb_handle_ h)) rows -> Forall (op_ok (options_ h)) ops ->
  (forall It (make : BitLSMOptions -> BitLSMQuery -> result It), NewIterator make None q = Ok (None, q) /\
     (ok (Validate q (options_ h)) = false -> NewIterator make (Some h) q = Ok (None, q))) /\
  exists ss d' rows', run_ops d buf h ops = Ok (ss, d') /\ spec_run (options_ h) rows ops ss rows' /\
    forall parse_key user_key_of icmp lookup_ikey R db FindTable mem_Get imm_Get FindFile MultiGet read_seqno sh,
    (forall k, get parse_key read_seqno db k = db_Get d' (rocksdb_handle_ h) k) ->
    scan_setting parse_key user_key_of icmp lookup_ikey R db FindTable mem_Get imm_Get FindFile MultiGet read_seqno
      (options_ h) q sh (layout_ h) ->
    exists it n,
      NewIterator (fun o q => scan_iter parse_key user_key_of lookup_ikey R db FindTable mem_Get imm_Get FindFile read_seqno o q sh Verified)
        (Some h) q = Ok (Some it, sort_clauses q) /\
      forall fuel, (n <= fuel)%nat -> exists answers out last,
        scan_run parse_key user_key_of icmp lookup_ikey db FindTable mem_Get imm_Get FindFile MultiGet read_seqno read_row fuel it
          = Ok (out, last) /\
        bi_valid last = false /\ out `prefix_of` answers /\ (ok (bi_status last) = true -> out = answers) /\
        StronglySorted blt (map fst answers) /\
        (forall k attrs payload, rows' k = Some (attrs, payload) -> row_sat q attrs = true -> k <> [] ->
           exists v, (k, v) ∈ answers /\ reads_row h v attrs payload) /\
        (forall k v, (k, v) ∈ answers -> k <> [] /\
           ((exists attrs payload, rows' k = Some (attrs, payload) /\ row_sat q attrs = true /\ reads_row h v attrs payload) \/
            rows' k = None /\ CheckCondition q v (layout_ h) = Ok true /\ own_file_deleted parse_key read_seqno db k v)) /\
        (no_own_tombstones parse_key read_seqno db -> forall k, k ∈ map fst answers <->
           k <> [] /\ exists attrs payload, rows' k = Some (attrs, payload) /\ row_sat q attrs = true).
Proof.
  intros Hh Hrep Hops. split. { intros It make. split; [done|]. intros Hv. cbn [NewIterator]. by rewrite Hv. }
  destruct (run_ops_refines h Hh ops d buf rows Hrep Hops) as (ss & d' & E & _ & rows' & Hs & Hrep').
  exists ss, d', rows'. split; [done|]. split; [done|]. intros parse_key user_key_of icmp lookup_ikey R db FindTable mem_Get imm_Get
    FindFile MultiGet read_seqno sh Hget Hset.
  apply (proj2 (proj2 (query_refines_filter parse_key user_key_of icmp lookup_ikey R db FindTable mem_Get imm_Get FindFile MultiGet
    read_seqno h q sh rows')) Hset). eapply represents_ext; [exact Hget|exact Hrep'].
Qed.

(** A store over the tree of [ScanDemo]: it takes one row, the one of key "b",
    and fails every other write. *)
Definition demo_key : bytes := [x62].
Definition demo_value : bytes := default [] (get TableDemo.parse_key 10 ScanDemo.db demo_key).
Definition demo_entry : put_entry := (0, demo_key, demo_value).
Definition demo_reads (loaded : bool) : Z -> bytes -> option bytes := fun cf k =>
  if negb loaded && bool_decide (cf = 0 /\ k = demo_key) then None else get TableDemo.parse_key 10 ScanDemo.db k.
#[local] Instance one_row_store : RocksWrite bool := {|
  db_Put d p := if bool_decide (p = demo_entry) then (OK, true) else (NotSupported "", d);
  db_Write d _ := (NotSupported "", d);
  db_Delete d _ _ := (NotSupported "", d);
  db_Flush d _ := (OK, d);
  db_Get d := demo_reads d;
|}.
Lemma demo_put_reads d cf k : demo_reads true cf k = after_put (demo_reads d) demo_entry cf k.
Proof.
  unfold after_put, demo_reads. cbn [demo_entry fst snd negb andb]. case_bool_decide as E; [|by rewrite andb_false_r].
  destruct E as [-> ->]. vm_compute. reflexivity.
Qed.
#[local] Instance one_row_store_laws : RocksWriteLaws bool one_row_store.
Proof.
  split; cbn [db_Put db_Write db_Delete db_Flush db_Get one_row_store]; try done; try (intros; by left).
  - intros d p. case_bool_decide as E; [|done]. intros _ cf k. subst p. apply demo_put_reads.
  - intros d p. case_bool_decide as E; [|by left]. right. intros cf k. subst p. apply demo_put_reads.
Qed.
Definition rows_before : rows_t := fun k => if bool_decide (k = demo_key) then None else demo_map k.
Lemma rows_before_represented : represents demo_handle (db_Get false 0) rows_before.
Proof.
  intros k. unfold rows_before. cbn [db_Get one_row_store demo_reads negb andb]. unfold demo_reads. cbn [negb andb].
  case_bool_decide as E.
  - subst k. by rewrite bool_decide_eq_true_2.
  - rewrite bool_decide_eq_false_2 by (intros [_ ?]; done). apply demo_represents.
Qed.

Definition demo_writes : list client_op := [WPut [x7a] demo_row []; WPut demo_key [AInt (-3); AString [x7a]] [x70]; WFlush].
Lemma demo_writes_ok : Forall (op_ok demo_options) demo_writes.
Proof.
  assert (row_ok demo_options [AInt (-3); AString [x7a]] /\ row_ok demo_options demo_row) as [H1 H2].
  { split; (split; [intros _; repeat constructor; cbn; (lia || by right)|]); intros _;
      (split; [repeat constructor; cbn; lia|split; by vm_compute]). }
  by repeat constructor.
Qed.
Lemma demo_writes_rows ss rows' : spec_run demo_options rows_before demo_writes ss rows' -> ss = [NotSupported ""; OK; OK] ->
  rows' demo_key = Some ([AInt (-3); AString [x7a]], [x70]).
Proof.
  intros Hs ->. inversion Hs as [|? ? ? ? ? ? ? _ Hs1]; subst. inversion Hs1 as [|? ? ? ? ? ? ? Hp Hs2]; subst.
  inversion Hs2 as [|? ? ? ? ? ? ? Hf Hs3]; subst. inversion Hs3; subst. inversion Hp; subst; [|done]. by inversion Hf; subst.
Qed.
Lemma client_view_witness : exists r ss rows' it (answers : list (bytes * bytes)),
  run_ops false [] demo_handle demo_writes = Ok (ss, true) /\ spec_run demo_options rows_before demo_writes ss rows' /\
  NewIterator (fun o q => @scan_iter _ resident_source TableDemo.parse_key TableDemo.user_key_of ScanDemo.lookup_ikey 16 ScanDemo.db
    (ScanDemo.FindTable r) ScanDemo.mem_Get ScanDemo.imm_Get ScanDemo.FindFile 10 o q ScanDemo.shape Verified)
    (Some demo_handle) demo_query = Ok (Some it, sort_clauses demo_query) /\ demo_key ∈ map fst answers.
Proof.
  destruct TableDemo.demo_reader as (r & Hm & Hr).
  destruct (proj2 (@client_view _ _ resident_source _ _ bool _ _ demo_handle demo_writes false [] rows_before demo_query demo_handle_ok
    rows_before_represented demo_writes_ok)) as (ss & d' & rows' & E & Hs & Hq).
  assert (run_ops false [] demo_handle demo_writes = Ok ([NotSupported ""; OK; OK], true)) as E' by (vm_compute; reflexivity).
  rewrite E' in E. injection E as <- <-.
  destruct (Hq _ _ _ _ _ _ _ _ _ _ _ _ _ ltac:(by intros k) (ScanDemo.setting r Hm Hr)) as (it & n & Ei & Hrun).
  destruct (Hrun n (le_n n)) as (answers & out & last & _ & _ & _ & _ & _ & Hin & _).
  destruct (Hin demo_key [AInt (-3); AString [x7a]] [x70]) as (v & Hv & _);
    [apply (demo_writes_rows _ _ Hs); reflexivity|vm_compute; reflexivity|done|].
  exists r, [NotSupported ""; OK; OK], rows', it, answers. split; [exact E'|]. split; [exact Hs|]. split; [exact Ei|].
  apply list_elem_of_fmap. exists (demo_key, v). split; [reflexivity|exact Hv].
Defined.
