(* ===== verification/Workload.v ===== *)
(** * The benchmarks' loaders

    Models [utils.h]: random strings, the batch loader [fill_kvp], the single
    row of [fill_single_kvp], and the multi-threaded loader
    [fill_kvp_multi_thread], whose threads take primary keys from one atomic
    counter. The random sources of the C and C++ libraries are parameters with
    the ranges those libraries document. Progress messages are left out. *)
From Stdlib Require Import ZArith Lia Strings.Byte Strings.String.
From stdpp Require Import base numbers strings list sets relations pretty.
From S2P Require Import Prelude Floats FloatOrder Options Row Query TableSpec Facade Database.

(** ** Random data *)
Definition char_set : bytes := list_byte_of_string "ABCDEFGHIJKLMNOPQRSTUVWXYZabcdefghijklmnopqrstuvwxyz0123456789".
Definition max_index : Z := zlen char_set - 1.

(** [std::to_string] as the bytes of a key or value. *)
Definition to_bytes (z : Z) : bytes := list_byte_of_string (to_string z).

(** [srand] and [rand]; [RAND_MAX] is that of the platform. *)
Definition RAND_MAX : Z := 2147483647.
Class Rand (R : Type) := { srand : Z -> R; rand : R -> Z * R }.
Class RandLaws R (W : Rand R) : Prop := rand_range r : 0 <= (rand r).1 <= RAND_MAX.

(** [mt19937] and the three distributions of a thread. *)
Class Dists (G : Type) := {
  mt19937 : Z -> G;
  cat_dist : G -> Z * G;
  cont_dist : G -> Z * G;   (** a double's pattern *)
  char_dist : G -> Z * G;
}.
Class DistsLaws G (W : Dists G) : Prop := {
  cat_dist_range g : 0 <= (cat_dist g).1 <= 99;
  cont_dist_range g : is_u64 (cont_dist g).1;
  char_dist_range g : 0 <= (char_dist g).1 <= max_index;
}.

Section Gen.
Context {G : Type}.
(** [n] characters of [char_set] at the indexes [next] draws. *)
Fixpoint string_loop (next : G -> Z * G) (n : nat) (g : G) (res : bytes) : result (bytes * G) :=
  match n with
  | O => Ok (res, g)
  | S n' =>
      let '(i, g') := next g in
      c ← zget char_set i;
      string_loop next n' g' (res ++ [c])
  end.

(** The attributes from index [j] on: a decimal number at even indexes, a double
    at odd ones. *)
Fixpoint attrs_loop (cat cont : G -> Z * G) (n : nat) (j : Z) (g : G) : list Attr * G :=
  match n with
  | O => ([], g)
  | S n' =>
      let '(a, g') := if j mod 2 =? 0 then let '(c, g') := cat g in (AString (to_bytes c), g')
                      else let '(d, g') := cont g in (ADouble d, g') in
      let '(rest, g'') := attrs_loop cat cont n' (j + 1) g' in
      (a :: rest, g'')
  end.
End Gen.

Section RandGen.
Context {R : Type} `{Rand R}.
Definition rand_mod (m : Z) (r : R) : Z * R := let '(x, r') := rand r in (x mod m, r').
(** [(double)rand() / RAND_MAX * 100.0] *)
Definition rand_double (r : R) : Z * R :=
  let '(x, r') := rand r in
  (u64 (f64_encode (f64_mul (f64_div (f64_of_Z x) (f64_of_Z RAND_MAX)) (f64_of_Z 100))), r').
Definition random_string (length : Z) (r : R) : result (bytes * R) :=
  string_loop (rand_mod max_index) (Z.to_nat length) r [].
Definition rand_attrs (attr_num : Z) (r : R) : list Attr * R :=
  attrs_loop (rand_mod 100) rand_double (Z.to_nat attr_num) 0 r.

(** ** Loaders that call [rand] *)
Context {D : Type} `{RocksWrite D}.
Context (default_cf_ : option ColumnFamilyHandle).

Definition fill_single_kvp (d : D) (buf key : bytes) (attr_num payload_size seed : Z) : result (D * bytes) :=
  let r := srand seed in
  let '(attrs, r) := rand_attrs attr_num r in
  '(payload, _) ← random_string payload_size r;
  '(s, d', buf') ← Put_default default_cf_ d buf key attrs payload;
  if ok s then Ok (d', buf') else Fault AssertionFailed.

(** The rows of one batch. *)
Record batch := mkBatch { b_pks : list bytes; b_attrs : list (list Attr); b_payloads : list bytes }.
Fixpoint batch_rows (n : nat) (attr_num payload_size auto_increment : Z) (r : R) (b : batch) : result (Z * R * batch) :=
  match n with
  | O => Ok (auto_increment, r, b)
  | S n' =>
      let '(attrs, r) := rand_attrs attr_num r in
      '(payload, r) ← random_string payload_size r;
      let auto_increment := u64 (auto_increment + 1) in
      batch_rows n' attr_num payload_size auto_increment r
        (mkBatch (b_pks b ++ [to_bytes auto_increment]) (b_attrs b ++ [attrs]) (b_payloads b ++ [payload]))
  end.

Definition batch_size : Z := 1000000.
(** The loop over batches, left at the first that fails: the last status, the
    counter and the database. *)
Fixpoint fill_batches (k : nat) (n attr_num payload_size auto_increment : Z) (r : R) (d : D) : result (Status * Z * D) :=
  match k with
  | O => Ok (OK, auto_increment, d)
  | S k' =>
      let current_batch_limit := Z.min batch_size (u64 (n - auto_increment)) in
      '(auto_increment, r, b) ← batch_rows (Z.to_nat current_batch_limit) attr_num payload_size auto_increment r (mkBatch [] [] []);
      '(s, d') ← PutBatch_default default_cf_ d (b_pks b) (b_attrs b) (b_payloads b);
      if ok s then fill_batches k' n attr_num payload_size auto_increment r d'
      else Ok (s, auto_increment, d')
  end.
Definition fill_kvp (d : D) (n attr_num payload_size seed : Z) : result (Status * Z * D) :=
  let total_batch := u64 (n + batch_size - 1) / batch_size in
  fill_batches (Z.to_nat total_batch) n attr_num payload_size 0 (srand seed) d.
End RandGen.

(** ** The threads of the multi-threaded loader *)
Section Threads.
Context {G : Type} `{Dists G} {D : Type} `{RocksWrite D}.
Context (default_cf_ : option ColumnFamilyHandle) (n payload_size attr_num : Z).

(** Where a thread stands: before it takes a key, before it puts the row of a
    key, or past the loop. *)
Inductive thread_pc :=
  | Take
  | PutRow (current_pk_val : Z) (attrs : list Attr) (payload : bytes)
  | Exited.
(** A thread: its generator, and the buffer [Put] keeps per thread. *)
Record thread := mkThread { gen : G; thread_buf : bytes; pc : thread_pc }.
(** The counter and the database are shared; [calls] records the calls of [Put]
    and what they returned. *)
Record load_state := mkLoad {
  global_auto_increment : Z;
  database : D;
  threads : list thread;
  calls : list (Z * Status);
}.

(** One atomic action of a thread. *)
Definition put_thread_worker (st : load_state) (t : thread) : result (load_state * thread) :=
  match pc t with
  | Take =>
      let current_pk_val := global_auto_increment st in
      let st' := mkLoad (u64 (current_pk_val + 1)) (database st) (threads st) (calls st) in
      if n <=? current_pk_val then Ok (st', mkThread (gen t) (thread_buf t) Exited)
      else
        let '(attrs, g) := attrs_loop cat_dist cont_dist (Z.to_nat attr_num) 0 (gen t) in
        '(payload, g) ← string_loop char_dist (Z.to_nat payload_size) g [];
        Ok (st', mkThread g (thread_buf t) (PutRow current_pk_val attrs payload))
  | PutRow current_pk_val attrs payload =>
      '(s, d', buf') ← Put_default default_cf_ (database st) (thread_buf t) (to_bytes current_pk_val) attrs payload;
      Ok (mkLoad (global_auto_increment st) d' (threads st) (calls st ++ [(current_pk_val, s)]), mkThread (gen t) buf' Take)
  | Exited => Ok (st, t)
  end.

(** Thread [i] acts. *)
Definition act (st : load_state) (i : nat) (t : thread) : result load_state :=
  '(st', t') ← put_thread_worker st t;
  Ok (mkLoad (global_auto_increment st') (database st') (<[i := t']> (threads st')) (calls st')).

(** [fill_kvp_multi_thread] starts the threads and joins them: any thread that
    has not left its loop may act next. *)
Definition fill_kvp_multi_thread (num_threads : Z) (d : D) : load_state :=
  mkLoad 0 d (map (fun i => mkThread (mt19937 i) [] Take) (seqZ 0 num_threads)) [].
Inductive load_step : load_state -> load_state -> Prop :=
  | load_act st i t st' : threads st !! i = Some t -> pc t <> Exited -> act st i t = Ok st' -> load_step st st'.
Definition joined (st : load_state) : Prop := Forall (fun t => pc t = Exited) (threads st).
End Threads.
Arguments thread : clear implicits.
Arguments load_state : clear implicits.

(** ** The data is well typed *)
Lemma to_bytes_inj x y : to_bytes x = to_bytes y -> x = y.
Proof.
  intros E%(f_equal string_of_list_byte). unfold to_bytes, to_string in E.
  rewrite !string_of_list_byte_of_string in E. by apply (inj pretty) in E.
Qed.
Lemma to_bytes_short c : 0 <= c <= 99 -> zlen (to_bytes c) <= 2.
Proof.
  intros Hc. assert (forallb (fun c => zlen (to_bytes c) <=? 2) (seqZ 0 100) = true) as H by (vm_compute; reflexivity).
  rewrite forallb_forall in H. apply Z.leb_le, H, list_elem_of_In, elem_of_seqZ. lia.
Qed.

Lemma string_loop_ok {G} (next : G -> Z * G) (P : byte -> Prop) n g res :
  (forall g, exists c, zget char_set (next g).1 = Ok c /\ P c) ->
  exists s g', string_loop next n g res = Ok (res ++ s, g') /\ length s = n /\ Forall P s.
Proof.
  intros Hn. revert g res. induction n as [|n IH]; intros g res; [exists [], g; by rewrite app_nil_r|].
  cbn [string_loop]. destruct (Hn g) as (c & Hc & HP). destruct (next g) as [i g1]. cbn [fst] in Hc. rewrite Hc.
  cbn [mbind result_bind]. destruct (IH g1 (res ++ [c])) as (s & g' & -> & Hs & HF). exists (c :: s), g'.
  rewrite <- app_assoc. split; [done|]. split; [cbn; lia|by constructor].
Qed.

(** An index in the set's range gives a character of its first [i + 1]. *)
Lemma char_at i : 0 <= i <= max_index -> exists c, zget char_set i = Ok c /\ c ∈ take (S (Z.to_nat i)) char_set.
Proof.
  intros Hi. change max_index with 61 in Hi.
  destruct (lookup_lt_is_Some_2 char_set (Z.to_nat i)) as [c Hc]; [change (length char_set) with 62%nat; lia|].
  exists c. unfold zget. rewrite Hc. destruct (Z.ltb_spec i 0); [lia|]. split; [done|].
  apply list_elem_of_lookup. exists (Z.to_nat i). rewrite lookup_take_lt by lia. done.
Qed.

Lemma rand_mod_range {R} `{Rand R} `{!RandLaws R _} m (r : R) : 0 < m -> 0 <= (rand_mod m r).1 < m.
Proof. intros Hm. unfold rand_mod. destruct (rand r). by apply Z.mod_pos_bound. Qed.

(** The schemas the loaders fill: strings at even columns, doubles at odd ones,
    and room for the rows. *)
Definition workload_spec (j : Z) (s : AttrSpec) : Prop :=
  if j mod 2 =? 0 then physical_type s = kVarBinary else physical_type s = kFloat /\ width s = 8.
Record workload_schema (o : BitLSMOptions) : Prop := {
  ws_specs j s : attr_specs o !! j = Some s -> workload_spec (Z.of_nat j) s;
  ws_size : hdr_of (attr_specs o) + fixed_len (attr_specs o) + 2 * zlen (attr_specs o) < 2 ^ 32;
}.

Section Typed.
Context {G : Type} (cat cont : G -> Z * G).
Context (Hcat : forall g, 0 <= (cat g).1 <= 99) (Hcont : forall g, is_u64 (cont g).1).

Lemma attrs_loop_typed ss j g :
  (forall k s, ss !! k = Some s -> workload_spec (j + Z.of_nat k) s) ->
  let attrs := (attrs_loop cat cont (length ss) j g).1 in
  Forall2 attr_typed ss attrs /\ Forall2 attr_fits ss attrs /\ zlen (var_region ss attrs) <= 2 * zlen ss.
Proof.
  revert j g. induction ss as [|s ss IH]; intros j g Hs; [by repeat constructor|].
  pose proof (Hs 0%nat s eq_refl) as H0. rewrite Z.add_0_r in H0. cbn [length attrs_loop].
  set (p := if j mod 2 =? 0 then _ else _). destruct p as [a g'] eqn:Ep. unfold p in Ep. clear p.
  specialize (IH (j + 1) g'). destruct (attrs_loop cat cont (length ss) (j + 1) g') as [rest g''].
  destruct IH as (IH1 & IH2 & IH3).
  { intros k s' Hk. replace (j + 1 + Z.of_nat k) with (j + Z.of_nat (S k)) by lia. by apply Hs. }
  cbn [fst] in *. unfold workload_spec in H0. cbn [var_region]. rewrite zlen_app, zlen_cons.
  assert (attr_typed s a /\ attr_fits s a /\ zlen (if IsFixed s then [] else var_bytes a) <= 2) as (H1 & H2 & H3).
  { destruct (j mod 2 =? 0).
    - specialize (Hcat g). destruct (cat g) as [c g1]. injection Ep as <- <-. split; [by right|]. split; [done|].
      destruct (IsFixed s); [by vm_compute|]. by apply to_bytes_short.
    - destruct H0 as [H0 H0']. specialize (Hcont g). destruct (cont g) as [d g1]. injection Ep as <- <-. split; [done|]. split; [by left|].
      unfold IsFixed. by rewrite H0. }
  split_and!; [by constructor|by constructor|lia].
Qed.

Lemma attrs_loop_row o g :
  schema_ok o -> schema_fits (attr_specs o) -> workload_schema o ->
  let attrs := (attrs_loop cat cont (Z.to_nat (attr_num o)) 0 g).1 in
  row_ok o attrs /\ accepts o attrs = true.
Proof.
  intros Ho [Hf _] [Hs Hsz]. rewrite <- (schema_size _ Ho). unfold zlen. rewrite Nat2Z.id.
  destruct (attrs_loop_typed (attr_specs o) 0 g Hs) as (H1 & H2 & H3). set (attrs := (attrs_loop _ _ _ _ _).1) in *.
  assert (Forall2 attr_kind (attr_specs o) attrs) as Hk.
  { eapply Forall2_impl; [exact H1|]. intros s [] H; try done. cbn in *. by destruct H as [[? _]|?]; [left|right]. }
  split; [split; [by intros _|]; intros _; split; [done|split; [done|lia]]|].
  unfold accepts. rewrite <- (schema_size _ Ho). apply andb_true_iff. split.
  - apply Z.eqb_eq. unfold zlen. by rewrite (Forall2_length _ _ _ H1).
  - apply forallb_forall. intros [s a] Hin%list_elem_of_In%elem_of_lookup_zip_with_1.
    destruct Hin as (i & s' & a' & [= <- <-] & Hi1 & Hi2). cbn [fst snd]. apply attr_kind_typed; by eapply Forall2_lookup_lr.
Qed.
End Typed.

(** ** The batch loader *)
Lemma put_rows_other pks attrs_list payloads rows k : k ∉ pks -> put_rows rows pks attrs_list payloads k = rows k.
Proof.
  revert attrs_list payloads rows. induction pks as [|pk pks IH]; intros [|a al] [|p pl] rows Hk; try done.
  apply not_elem_of_cons in Hk as [Hne Hk]. cbn [put_rows]. rewrite IH by done. unfold put_row. by rewrite bool_decide_eq_false_2.
Qed.
Lemma put_rows_in pks attrs_list payloads rows k :
  k ∈ pks -> length attrs_list = length pks -> length payloads = length pks ->
  exists attrs payload, put_rows rows pks attrs_list payloads k = Some (attrs, payload) /\ payload ∈ payloads.
Proof.
  revert attrs_list payloads rows. induction pks as [|pk pks IH]; intros [|a al] [|p pl] rows Hk L1 L2; try done; [by apply elem_of_nil in Hk|].
  cbn [put_rows]. injection L1 as L1. injection L2 as L2. destruct (decide (k ∈ pks)) as [Hin|Hnin].
  - destruct (IH al pl (put_row rows pk (a, p)) Hin L1 L2) as (attrs & payload & E & Hp). exists attrs, payload. split; [done|set_solver].
  - rewrite put_rows_other by done. apply elem_of_cons in Hk as [->|Hk]; [|done]. exists a, p. unfold put_row.
    rewrite bool_decide_eq_true_2 by done. split; [done|set_solver].
Qed.

(** The rows of keys [lo..hi] are there, with payloads of the wanted size. *)
Definition filled (payload_size lo hi : Z) (rows : rows_t) : Prop :=
  forall i, lo <= i <= hi -> exists attrs payload, rows (to_bytes i) = Some (attrs, payload) /\ zlen payload = payload_size.
(** Only rows of keys [lo..hi] differ. *)
Definition only_keys (lo hi : Z) (rows rows' : rows_t) : Prop :=
  forall k, (forall i, lo <= i <= hi -> k <> to_bytes i) -> rows' k = rows k.

Section Fill.
Context {R : Type} `{Rand R} `{!RandLaws R _} {D : Type} `{RocksWrite D} `{!RocksWriteLaws D _}.
Context (h : ColumnFamilyHandle) (Hh : handle_ok h) (Hw : workload_schema (options_ h)).
Context (payload_size : Z) (Hps : 0 <= payload_size).
Local Abbreviation o := (options_ h).
Local Abbreviation cf := (rocksdb_handle_ h).

Lemma random_string_ok length (r : R) : 0 <= length ->
  exists s r', random_string length r = Ok (s, r') /\ zlen s = length /\ Forall (fun c => c ∈ take 61 char_set) s.
Proof.
  intros Hl. unfold random_string.
  destruct (string_loop_ok (rand_mod max_index) (fun c => c ∈ take 61 char_set) (Z.to_nat length) r []) as (s & r' & E & Hs & HF).
  { intros r0. pose proof (rand_mod_range max_index r0 ltac:(by vm_compute)) as Hr. change max_index with 61 in *.
    destruct (char_at (rand_mod 61 r0).1) as (c & Hc & Hin); [change max_index with 61; lia|]. exists c. split; [done|].
    apply list_elem_of_lookup in Hin as [i Hi]. apply list_elem_of_lookup. exists i. rewrite lookup_take_Some in *. split; [by apply Hi|lia]. }
  exists s, r'. split; [done|]. unfold zlen. split; [lia|done].
Qed.

Lemma rand_attrs_ok (r : R) : row_ok o (rand_attrs (attr_num o) r).1 /\ accepts o (rand_attrs (attr_num o) r).1 = true.
Proof.
  apply attrs_loop_row; [| |by destruct Hh..|done].
  - intros r0. pose proof (rand_mod_range 100 r0 eq_refl). lia.
  - intros r0. unfold rand_double. destruct (rand r0). apply u64_range.
Qed.

Lemma batch_rows_ok n ai (r : R) b : 0 <= ai -> ai + Z.of_nat n < 2 ^ 64 ->
  exists r' al pl,
    batch_rows n (attr_num o) payload_size ai r b = Ok (ai + Z.of_nat n, r',
      mkBatch (b_pks b ++ map to_bytes (seqZ (ai + 1) (Z.of_nat n))) (b_attrs b ++ al) (b_payloads b ++ pl)) /\
    length al = n /\ length pl = n /\ Forall (fun a => row_ok o a /\ accepts o a = true) al /\ Forall (fun p => zlen p = payload_size) pl.
Proof.
  revert ai r b. induction n as [|n IH]; intros ai r b Hai Hn.
  { exists r, [], []. rewrite Z.add_0_r. cbn. rewrite !app_nil_r. destruct b. by split_and!. }
  cbn [batch_rows]. pose proof (rand_attrs_ok r) as Ha. destruct (rand_attrs (attr_num o) r) as [a r1]. cbn [fst] in Ha.
  destruct (random_string_ok payload_size r1 Hps) as (p & r2 & -> & Hp & _). cbn [mbind result_bind].
  rewrite u64_small by (unfold is_u64; lia). edestruct (IH (ai + 1) r2) as (r' & al & pl & E & L1 & L2 & F1 & F2); [lia|lia|].
  exists r', (a :: al), (p :: pl). rewrite E. cbn [b_pks b_attrs b_payloads].
  assert (seqZ (ai + 1) (Z.of_nat (S n)) = (ai + 1) :: seqZ (ai + 1 + 1) (Z.of_nat n)) as Es.
  { rewrite seqZ_cons by lia. f_equal. f_equal; lia. }
  rewrite Es. cbn [map]. rewrite <- !app_assoc. cbn [app]. split_and!; [|cbn; lia|cbn; lia|by constructor|by constructor].
  f_equal. f_equal. f_equal. lia.
Qed.

Lemma fill_batches_ok n k ai (r : R) (d : D) rows0 rows :
  0 <= ai <= n -> n < 2 ^ 64 -> n - ai <= Z.of_nat k * batch_size ->
  represents h (db_Get d cf) rows -> filled payload_size 1 ai rows -> only_keys 1 n rows0 rows ->
  exists s ai' d' rows', fill_batches (Some h) k n (attr_num o) payload_size ai r d = Ok (s, ai', d') /\
    (forall cf' k, cf' <> cf -> db_Get d' cf' k = db_Get d cf' k) /\
    represents h (db_Get d' cf) rows' /\ only_keys 1 n rows0 rows' /\ (s = OK -> ai' = n /\ filled payload_size 1 n rows').
Proof.
  revert ai r d rows. induction k as [|k IH]; intros ai r d rows Hai Hn Hk Hrep Hfill Honly.
  { assert (ai = n) as -> by lia. by exists OK, n, d, rows. }
  cbn [fill_batches]. rewrite (u64_small (n - ai)) by (unfold is_u64; lia).
  set (m := Z.min batch_size (n - ai)). assert (0 <= m <= n - ai /\ m <= batch_size) as Hm by (unfold m, batch_size; lia).
  destruct (batch_rows_ok (Z.to_nat m) ai r (mkBatch [] [] [])) as (r' & al & pl & -> & L1 & L2 & F1 & F2); [lia|lia|].
  rewrite Z2Nat.id by lia. cbn [mbind result_bind b_pks b_attrs b_payloads app].
  set (pks := map to_bytes (seqZ (ai + 1) m)).
  assert (length pks = Z.to_nat m) as Lp by (unfold pks; by rewrite length_map, length_seqZ).
  assert (forall key, key ∈ pks <-> exists i, ai < i <= ai + m /\ key = to_bytes i) as Hpks.
  { intros key. unfold pks. rewrite list_elem_of_fmap. split.
    - intros (i & -> & Hi%elem_of_seqZ). exists i. split; [lia|done].
    - intros (i & Hi & ->). exists i. split; [done|]. apply elem_of_seqZ. lia. }
  destruct (batch_refines h Hh d rows pks al pl Hrep) as (s & d1 & E & Hframe & rows1 & Hstep & Hrep1).
  { split; [unfold zlen, batch_size in *; lia|]. split; [lia|]. split; [lia|]. eapply Forall_impl; [exact F1|]. by intros a [? _]. }
  unfold PutBatch_default. rewrite E. cbn [mbind result_bind].
  assert (forallb (accepts o) al = true) as Hvalid.
  { apply forallb_forall. intros a Ha%list_elem_of_In. by apply (proj1 (Forall_forall _ _) F1). }
  assert (only_keys 1 n rows0 rows1) as Honly1.
  { intros key Hkey. rewrite <- Honly by done. inversion Hstep; subst; try done.
    cbn [apply_op]. apply put_rows_other. intros (i & Hi & ->)%Hpks. apply (Hkey i); [lia|done]. }
  destruct (ok s) eqn:Es; [|exists s, (ai + m), d1, rows1; split_and!; try done; by intros ->].
  assert (rows1 = apply_op rows (WBatch pks al pl)) as ->.
  { inversion Hstep; subst; try done. by destruct s. }
  edestruct (IH (ai + m) r' d1) as (s' & ai' & d2 & rows2 & E2 & Hf2 & Hr2 & Ho2 & Hd2); [lia|done| |exact Hrep1| |exact Honly1|].
  { unfold m. destruct (Z.min_spec batch_size (n - ai)) as [[? ->]|[? ->]]; unfold batch_size in *; lia. }
  { intros i Hi. cbn [apply_op]. destruct (decide (to_bytes i ∈ pks)) as [Hin|Hnin].
    - destruct (put_rows_in pks al pl rows _ Hin) as (attrs & payload & -> & Hp); [lia|lia|].
      exists attrs, payload. split; [done|]. by apply (proj1 (Forall_forall _ _) F2).
    - rewrite put_rows_other by done. apply Hfill. destruct (decide (i <= ai)); [lia|]. exfalso. apply Hnin, Hpks. exists i. split; [lia|done]. }
  exists s', ai', d2, rows2. split; [done|]. split; [intros; by rewrite Hf2, Hframe|done].
Qed.
End Fill.

(** The single-row loader: the key's row is replaced, or the assertion fails
    because RocksDB refused the write. *)
Lemma fill_single_kvp_ok {R} `{Rand R} `{!RandLaws R _} {D} `{RocksWrite D} `{!RocksWriteLaws D _} h (d : D) buf rows key payload_size seed :
  handle_ok h -> workload_schema (options_ h) -> 0 <= payload_size -> represents h (db_Get d (rocksdb_handle_ h)) rows ->
  match fill_single_kvp (Some h) d buf key (attr_num (options_ h)) payload_size seed with
  | Ok (d', _) => exists attrs payload, zlen payload = payload_size /\
      represents h (db_Get d' (rocksdb_handle_ h)) (put_row rows key (attrs, payload))
  | Fault f => f = AssertionFailed
  end.
Proof.
  intros Hh Hw Hps Hrep. unfold fill_single_kvp. pose proof (rand_attrs_ok h Hh Hw (srand seed)) as [Ha Hacc].
  destruct (rand_attrs _ _) as [attrs r1]. cbn [fst] in Ha, Hacc.
  destruct (random_string_ok payload_size r1 Hps) as (p & r2 & -> & Hp & _). cbn [mbind result_bind].
  destruct (put_refines h Hh d buf rows key attrs p Hrep Ha) as (s & d' & buf' & E & _ & rows' & Hstep & Hrep').
  unfold Put_default. rewrite E. cbn [mbind result_bind]. destruct (ok s) eqn:Es; [|done]. exists attrs, p. split; [done|].
  inversion Hstep; subst; try done. by destruct s.
Qed.

(** The batch loader loads what it says. On a schema of alternating string
    and double columns, for any random source in range and any database that
    meets RocksDB's laws, [fill_kvp] returns; it changes rows of the keys
    "1".."n" only, in this column family only; and when the last status is OK,
    all [n] keys, which are distinct, hold a well-typed row with a payload of
    the wanted size. *)
Theorem fill_kvp_loads {R} `{Rand R} `{!RandLaws R _} {D} `{RocksWrite D} `{!RocksWriteLaws D _} h n payload_size seed (d : D) rows :
  handle_ok h -> workload_schema (options_ h) -> 0 <= n <= 2 ^ 64 - batch_size -> 0 <= payload_size ->
  represents h (db_Get d (rocksdb_handle_ h)) rows ->
  NoDup (map to_bytes (seqZ 1 n)) /\
  exists s ai d' rows', fill_kvp (Some h) d n (attr_num (options_ h)) payload_size seed = Ok (s, ai, d') /\
    (forall cf' k, cf' <> rocksdb_handle_ h -> db_Get d' cf' k = db_Get d cf' k) /\
    represents h (db_Get d' (rocksdb_handle_ h)) rows' /\ only_keys 1 n rows rows' /\
    (s = OK -> ai = n /\ filled payload_size 1 n rows').
Proof.
  intros Hh Hw Hn Hps Hrep. split.
  { apply NoDup_fmap_2_strong; [|apply NoDup_seqZ]. intros x y _ _. apply to_bytes_inj. }
  unfold fill_kvp. rewrite u64_small by (unfold is_u64, batch_size in *; lia).
  apply (fill_batches_ok h Hh Hw payload_size Hps n _ 0 (srand seed) d rows rows); [lia|unfold batch_size in *; lia| |done| |by intros k _].
  - rewrite Z2Nat.id by (apply Z.div_pos; unfold batch_size; lia).
    pose proof (Z.div_mod (n + batch_size - 1) batch_size ltac:(done)).
    pose proof (Z.mod_pos_bound (n + batch_size - 1) batch_size ltac:(done)). lia.
  - intros i Hi. lia.
Qed.

(** A source that counts. *)
#[global] Instance count_rand : Rand Z := {| srand s := s; rand r := (r mod 1000, r + 1) |}.
#[global] Instance count_rand_laws : RandLaws Z _.
Proof. intros r. cbn. pose proof (Z.mod_pos_bound r 1000 ltac:(lia)). unfold RAND_MAX. lia. Qed.

(** A schema of the benchmarks. *)
Definition bench_options : BitLSMOptions :=
  mkBitLSMOptions 3 [mkAttrSpec kEquality kVarBinary 0 false; mkAttrSpec kRange kFloat 8 false; mkAttrSpec kEquality kVarBinary 0 false]
    0 0x3FE0000000000000 4 false 0 0 false.
Lemma bench_schema_ok : schema_ok bench_options.
Proof. by apply ValidateAttrSpecs_ok. Qed.
Lemma bench_schema_fits : schema_fits (attr_specs bench_options).
Proof. by split; vm_compute. Qed.
Definition bench_layout : ValueLayout :=
  match mkLayout bench_options with Ok l => l | Fault _ => TableDemo.lay end.
Definition bench_handle : ColumnFamilyHandle := mkCFHandle "default" 0 bench_options bench_layout None.
Lemma bench_handle_ok : handle_ok bench_handle.
Proof.
  split; [exact bench_schema_ok|exact bench_schema_fits|]. cbn. unfold bench_layout.
  destruct (mkLayout_spec _ bench_schema_ok bench_schema_fits) as (lay & -> & _). done.
Qed.
Lemma bench_workload : workload_schema bench_options.
Proof. split; [|by vm_compute]. intros [|[|[|j]]] s Hs; try done; by injection Hs as <-. Qed.

Lemma fill_kvp_loads_witness : exists ai d' rows',
  fill_kvp (Some bench_handle) empty_store 5 3 8 42 = Ok (OK, ai, d') /\
  represents bench_handle (db_Get d' 0) rows' /\ ai = 5 /\ filled 8 1 5 rows'.
Proof.
  destruct (proj2 (fill_kvp_loads bench_handle 5 8 42 empty_store (fun _ => None) bench_handle_ok bench_workload
    ltac:(by vm_compute) ltac:(lia) ltac:(by intros k))) as (s & ai & d' & rows' & E & _ & Hr & _ & Hok).
  assert (match fill_kvp (Some bench_handle) empty_store 5 3 8 42 with Ok (s, _, _) => ok s | Fault _ => false end = true) as Hs
    by (vm_compute; reflexivity).
  cbn [bench_handle options_ bench_options attr_num] in E. rewrite E in Hs. destruct s; try discriminate Hs.
  exists ai, d', rows'. split; [exact E|]. split; [exact Hr|]. exact (Hok eq_refl).
Defined.

(** [random_string] never draws the last character of the set: it takes
    [rand() % max_index], and [max_index] is the last index. The threads'
    distribution includes it. *)
Lemma last_char_unused {R} `{Rand R} `{!RandLaws R _} length (r : R) : 0 <= length ->
  exists s r', random_string length r = Ok (s, r') /\ x39 ∉ s /\ char_set !! Z.to_nat max_index = Some x39.
Proof.
  intros Hl. destruct (random_string_ok length r Hl) as (s & r' & E & _ & HF). exists s, r'. split; [done|]. split; [|done].
  intros Hin. apply (proj1 (Forall_forall _ _) HF) in Hin. apply list_elem_of_In in Hin. vm_compute in Hin. naive_solver.
Qed.

(** ** The multi-threaded loader *)

(** Keys taken and not put yet, threads that left, and the steps a thread has
    left once no key is. *)
Definition in_flight {G} (ts : list (thread G)) : list Z :=
  omap (fun t => match pc t with PutRow k _ _ => Some k | _ => None end) ts.
Definition exited {G} (ts : list (thread G)) : Z :=
  Z.of_nat (sum_list_with (fun t => match pc t with Exited => 1%nat | _ => 0%nat end) ts).
Definition left_over {G} (ts : list (thread G)) : Z :=
  Z.of_nat (sum_list_with (fun t => match pc t with Take => 1%nat | PutRow _ _ _ => 2%nat | Exited => 0%nat end) ts).

Lemma threads_split {G} (ts : list (thread G)) i t : ts !! i = Some t ->
  exists l1 l2, ts = l1 ++ t :: l2 /\ forall t', <[i := t']> ts = l1 ++ t' :: l2.
Proof.
  intros Hi. exists (take i ts), (drop (S i) ts). split; [by rewrite take_drop_middle|].
  intros t'. apply insert_take_drop. by eapply lookup_lt_Some.
Qed.

Section Load.
Context {G : Type} `{Dists G} `{!DistsLaws G _} {D : Type} `{RocksWrite D} `{!RocksWriteLaws D _}.
Context (h : ColumnFamilyHandle) (Hh : handle_ok h) (Hw : workload_schema (options_ h)).
Context (n payload_size num_threads : Z) (Hn : 0 <= n) (Hps : 0 <= payload_size) (HT : 0 < num_threads) (Hmax : n + num_threads < 2 ^ 64).
Context (d0 : D) (rows0 : rows_t).
Local Abbreviation o := (options_ h).
Local Abbreviation cf := (rocksdb_handle_ h).
Local Abbreviation worker := (put_thread_worker (Some h) n payload_size (attr_num o)).
Local Abbreviation lstep := (load_step (Some h) n payload_size (attr_num o)).

(** The data of a call, and what the store holds. *)
Definition row_ready (t : thread G) : Prop :=
  match pc t with
  | PutRow _ attrs payload => row_ok o attrs /\ accepts o attrs = true /\ zlen payload = payload_size
  | _ => True
  end.
Definition store_ok (st : load_state G D) (rows : rows_t) : Prop :=
  (forall cf' k, cf' <> cf -> db_Get (database st) cf' k = db_Get d0 cf' k) /\
  represents h (db_Get (database st) cf) rows /\ only_keys 0 (n - 1) rows0 rows /\
  (forall i, (i, OK) ∈ calls st -> exists attrs payload, rows (to_bytes i) = Some (attrs, payload) /\ zlen payload = payload_size).

(** Every key below the counter is put or in flight, once. *)
Record load_inv (st : load_state G D) : Prop := {
  li_len : zlen (threads st) = num_threads;
  li_counter : 0 <= global_auto_increment st;
  li_exited : exited (threads st) = Z.max 0 (global_auto_increment st - n);
  li_keys : (calls st).*1 ++ in_flight (threads st) ≡ₚ seqZ 0 (Z.min (global_auto_increment st) n);
  li_ready : Forall row_ready (threads st);
  li_store : exists rows, store_ok st rows;
}.
Definition steps_left (st : load_state G D) : Z := 2 * (n - Z.min (global_auto_increment st) n) + left_over (threads st).

Lemma exited_le (ts : list (thread G)) : 0 <= exited ts <= zlen ts.
Proof.
  unfold exited, zlen. induction ts as [|t ts IH]; cbn [sum_list_with length]; [lia|]. destruct (pc t); lia.
Qed.

Lemma load_inv_init : represents h (db_Get d0 cf) rows0 -> load_inv (fill_kvp_multi_thread num_threads d0).
Proof.
  intros Hrep. unfold fill_kvp_multi_thread. split; cbn [threads global_auto_increment calls database].
  - unfold zlen. rewrite length_map, length_seqZ. lia.
  - done.
  - unfold exited. rewrite Z.max_l by lia. induction (seqZ 0 num_threads) as [|i l IH]; [done|exact IH].
  - rewrite Z.min_l by lia. cbn. induction (seqZ 0 num_threads) as [|i l IH]; [done|exact IH].
  - apply Forall_fmap. by apply Forall_true.
  - exists rows0. split_and!; try done. intros i Hi. by apply elem_of_nil in Hi.
Qed.
Lemma steps_left_init : steps_left (fill_kvp_multi_thread num_threads d0) = 2 * n + num_threads.
Proof.
  unfold steps_left, fill_kvp_multi_thread. cbn [threads global_auto_increment]. rewrite Z.min_l by lia.
  assert (forall m : nat, left_over (map (fun i => mkThread (mt19937 i) [] Take) (seqZ 0 (Z.of_nat m))) = Z.of_nat m) as E.
  { intros m. generalize 0. induction m as [|m IH]; intros z; [done|]. rewrite seqZ_cons by lia.
    replace (Z.pred (Z.of_nat (S m))) with (Z.of_nat m) by lia. specialize (IH (Z.succ z)). unfold left_over in *.
    cbn [map sum_list_with pc]. lia. }
  specialize (E (Z.to_nat num_threads)). rewrite Z2Nat.id in E by lia. rewrite E. lia.
Qed.

(** What a change of one thread does to the counts. *)
Lemma counts_at l1 l2 (t : thread G) :
  exited (l1 ++ t :: l2) = exited (l1 ++ l2) + (match pc t with Exited => 1 | _ => 0 end) /\
  left_over (l1 ++ t :: l2) = left_over (l1 ++ l2) + (match pc t with Take => 1 | PutRow _ _ _ => 2 | Exited => 0 end) /\
  in_flight (l1 ++ t :: l2) ≡ₚ (match pc t with PutRow k _ _ => [k] | _ => [] end) ++ in_flight (l1 ++ l2).
Proof.
  unfold exited, left_over, in_flight. rewrite !sum_list_with_app, !omap_app. cbn [sum_list_with].
  split_and!; [destruct (pc t); lia..|]. cbn [omap list_omap]. destruct (pc t); [done| |done]. cbn [app]. symmetry. apply (Permutation_middle (omap _ l1) (omap _ l2)).
Qed.

Lemma seqZ_snoc_perm m l : 0 <= m -> l ≡ₚ seqZ 0 m -> m :: l ≡ₚ seqZ 0 (m + 1).
Proof. intros Hm ->. rewrite seqZ_app by lia. change (seqZ (0 + m) 1) with [0 + m]. rewrite Z.add_0_l. apply Permutation_cons_append. Qed.

Lemma take_ok st i t : load_inv st -> threads st !! i = Some t -> pc t = Take ->
  exists st', act (Some h) n payload_size (attr_num o) st i t = Ok st' /\ load_inv st' /\ steps_left st' = steps_left st - 1.
Proof.
  intros [Hlen Hc Hex Hkeys Hready [rows Hst]] Hi Hpc. destruct (threads_split _ _ _ Hi) as (l1 & l2 & Ets & Hins).
  pose proof (exited_le (l1 ++ l2)) as Hel. rewrite zlen_app in Hel.
  rewrite Ets in *. rewrite zlen_app, zlen_cons in Hlen. destruct (counts_at l1 l2 t) as (C1 & C2 & C3). rewrite Hpc in C1, C2, C3.
  apply Forall_app in Hready as [R1 [_ R2]%Forall_cons].
  unfold act, put_thread_worker. rewrite Hpc. set (c := global_auto_increment st) in *.
  rewrite (u64_small (c + 1)) by (unfold is_u64; lia). destruct (Z.leb_spec n c) as [Hge|Hlt].
  - cbn [mbind result_bind threads global_auto_increment database calls]. rewrite Ets, Hins. eexists. split; [done|].
    set (t' := mkThread (gen t) (thread_buf t) Exited). destruct (counts_at l1 l2 t') as (C1' & C2' & C3'). cbn [pc t'] in C1', C2', C3'.
    split; [|unfold steps_left; cbn [threads global_auto_increment]; rewrite Ets; fold c; lia].
    split; cbn [threads global_auto_increment calls database]; [rewrite zlen_app, zlen_cons; lia|lia|lia| | |].
    + rewrite C3', <- C3, Hkeys. by replace (Z.min (c + 1) n) with (Z.min c n) by lia.
    + apply Forall_app. split; [done|]. by constructor.
    + exists rows. exact Hst.
  - assert (Hrow := attrs_loop_row cat_dist cont_dist cat_dist_range cont_dist_range o (gen t) (ho_schema _ Hh) (ho_fits _ Hh) Hw).
    destruct (attrs_loop cat_dist cont_dist (Z.to_nat (attr_num o)) 0 (gen t)) as [attrs g]. destruct Hrow as [Ha Hacc]. cbn [fst] in Ha, Hacc.
    destruct (string_loop_ok char_dist (fun _ => True) (Z.to_nat payload_size) g []) as (p & g' & -> & Hp & _).
    { intros g0. destruct (char_at (char_dist g0).1 (char_dist_range g0)) as (x & Hx & _). by exists x. }
    cbn [mbind result_bind app threads global_auto_increment database calls]. rewrite Ets, Hins. eexists. split; [done|].
    set (t' := mkThread g' (thread_buf t) (PutRow c attrs p)). destruct (counts_at l1 l2 t') as (C1' & C2' & C3'). cbn [pc t'] in C1', C2', C3'.
    split; [|unfold steps_left; cbn [threads global_auto_increment]; rewrite Ets; fold c; lia].
    split; cbn [threads global_auto_increment calls database]; [rewrite zlen_app, zlen_cons; lia|lia|lia| | |].
    + rewrite C3'. cbn [app]. rewrite <- Permutation_middle. replace (Z.min (c + 1) n) with (c + 1) by lia.
      apply seqZ_snoc_perm; [lia|]. rewrite <- (app_nil_l (in_flight (l1 ++ l2))), <- C3, Hkeys. by replace (Z.min c n) with c by lia.
    + apply Forall_app. split; [done|]. constructor; [|done]. cbn. split; [done|]. split; [done|]. unfold zlen. lia.
    + exists rows. exact Hst.
Qed.

Lemma put_ok st i t k attrs payload : load_inv st -> threads st !! i = Some t -> pc t = PutRow k attrs payload ->
  exists st', act (Some h) n payload_size (attr_num o) st i t = Ok st' /\ load_inv st' /\ steps_left st' = steps_left st - 1.
Proof.
  intros [Hlen Hc Hex Hkeys Hready [rows (Hf & Hrep & Honly & Hcalls)]] Hi Hpc. destruct (threads_split _ _ _ Hi) as (l1 & l2 & Ets & Hins).
  rewrite Ets in *. rewrite zlen_app, zlen_cons in Hlen. destruct (counts_at l1 l2 t) as (C1 & C2 & C3). rewrite Hpc in C1, C2, C3.
  apply Forall_app in Hready as [R1 [Rt R2]%Forall_cons]. unfold row_ready in Rt. rewrite Hpc in Rt. destruct Rt as (Ha & Hacc & Hp).
  unfold act, put_thread_worker, Put_default. rewrite Hpc.
  destruct (put_refines h Hh (database st) (thread_buf t) rows (to_bytes k) attrs payload Hrep Ha) as (s & d' & buf' & -> & Hf' & rows' & Hstep & Hrep').
  cbn [mbind result_bind threads global_auto_increment database calls]. rewrite Ets, Hins. eexists. split; [done|].
  set (t' := mkThread (gen t) buf' Take). destruct (counts_at l1 l2 t') as (C1' & C2' & C3'). cbn [pc t'] in C1', C2', C3'.
  assert (0 <= k < n) as Hk.
  { assert (k ∈ seqZ 0 (Z.min (global_auto_increment st) n)) as Hin%elem_of_seqZ; [|lia]. rewrite <- Hkeys, C3. set_solver. }
  assert (rows' = put_row rows (to_bytes k) (attrs, payload) \/ rows' = rows /\ s <> OK) as Hrows.
  { inversion Hstep as [? Hv|? Hv Hne|? Hv]; subst; [by left|by right|]. cbn in Hv. congruence. }
  split; [|unfold steps_left; cbn [threads global_auto_increment]; rewrite Ets; lia].
  split; cbn [threads global_auto_increment calls database]; [rewrite zlen_app, zlen_cons; lia|done|lia| | |].
  - rewrite fmap_app, C3'. cbn [fmap list_fmap fst app]. rewrite <- app_assoc, <- Hkeys, C3. done.
  - apply Forall_app. split; [done|]. by constructor.
  - exists rows'. split; [intros; by rewrite Hf', Hf|]. split; [done|]. split.
    + intros key Hkey. rewrite <- Honly by done. destruct Hrows as [->|[-> _]]; [|done]. unfold put_row.
      rewrite bool_decide_eq_false_2; [done|]. apply Hkey. lia.
    + intros j Hj. destruct Hrows as [->|[-> Hs]].
      * unfold put_row. case_bool_decide as E; [by exists attrs, payload|]. apply Hcalls.
        apply elem_of_app in Hj as [Hj|Hj]; [done|]. apply list_elem_of_singleton in Hj. by simplify_eq.
      * apply Hcalls. apply elem_of_app in Hj as [Hj|Hj]; [done|]. apply list_elem_of_singleton in Hj. by simplify_eq.
Qed.

(** Every thread still in its loop can act, and keeps the invariant. *)
Lemma act_ok st i t : load_inv st -> threads st !! i = Some t -> pc t <> Exited ->
  exists st', act (Some h) n payload_size (attr_num o) st i t = Ok st' /\ load_inv st' /\ steps_left st' = steps_left st - 1.
Proof. intros Hinv Hi Hpc. destruct (pc t) eqn:E; [by apply take_ok|by eapply put_ok|done]. Qed.

Lemma load_run k st st' : load_inv st -> nsteps lstep k st st' -> load_inv st' /\ steps_left st' = steps_left st - Z.of_nat k.
Proof.
  intros Hinv Hs. induction Hs as [st|k st st1 st2 Hstep _ IH]; [split; [done|lia]|].
  destruct Hstep as [st i t st1 Hi Hpc E]. destruct (act_ok st i t Hinv Hi Hpc) as (st1' & E' & Hinv' & Hleft).
  rewrite E in E'. injection E' as <-. destruct (IH Hinv') as [H1 H2]. split; [done|lia].
Qed.

Lemma joined_counts (ts : list (thread G)) : Forall (fun t => pc t = Exited) ts -> in_flight ts = [] /\ exited ts = zlen ts /\ left_over ts = 0.
Proof.
  unfold in_flight, exited, left_over, zlen. induction 1 as [|t ts Ht _ (IH1 & IH2 & IH3)]; [done|].
  cbn [omap list_omap sum_list_with length]. rewrite Ht. split_and!; [done|lia|lia].
Qed.
End Load.

(** (C31) The multi-threaded loader puts every key once, in any interleaving. From
    any store, after any number of actions of its threads in any order: no
    action faults and every thread still in its loop can act; at most
    [2 n + num_threads] actions happen, so the threads are joined after exactly
    that many; no key is put twice; other column families and other keys are
    untouched; a put that returned OK left a well-typed row. Once the threads are
    joined, the keys put are exactly 0..n-1. *)
Theorem multi_thread_loads {G} `{Dists G} `{!DistsLaws G _} {D} `{RocksWrite D} `{!RocksWriteLaws D _}
    h n payload_size num_threads (d : D) rows k (st : load_state G D) :
  handle_ok h -> workload_schema (options_ h) -> 0 <= n -> 0 <= payload_size -> 0 < num_threads -> n + num_threads < 2 ^ 64 ->
  represents h (db_Get d (rocksdb_handle_ h)) rows ->
  nsteps (load_step (Some h) n payload_size (attr_num (options_ h))) k (fill_kvp_multi_thread num_threads d) st ->
  Z.of_nat k <= 2 * n + num_threads /\
  (forall i t, threads st !! i = Some t -> pc t <> Exited ->
     exists st', act (Some h) n payload_size (attr_num (options_ h)) st i t = Ok st') /\
  NoDup (calls st).*1 /\ (forall i, i ∈ (calls st).*1 -> 0 <= i < n) /\
  (forall cf' key, cf' <> rocksdb_handle_ h -> db_Get (database st) cf' key = db_Get d cf' key) /\
  (exists rows', represents h (db_Get (database st) (rocksdb_handle_ h)) rows' /\ only_keys 0 (n - 1) rows rows' /\
     (forall i, (i, OK) ∈ calls st -> filled payload_size i i rows')) /\
  (joined st -> Z.of_nat k = 2 * n + num_threads /\ (calls st).*1 ≡ₚ seqZ 0 n).
Proof.
  intros Hh Hw Hn Hps HT Hmax Hrep Hs.
  destruct (load_run h Hh Hw n payload_size num_threads Hn Hps HT Hmax d rows k _ st
    (load_inv_init h n payload_size num_threads Hn HT d rows Hrep) Hs) as [Hinv Hleft].
  rewrite (steps_left_init n num_threads Hn HT) in Hleft.
  assert (0 <= steps_left n st) as Hpos by (unfold steps_left, left_over; lia).
  assert (NoDup ((calls st).*1 ++ in_flight (threads st))) as [Hnd _]%NoDup_app.
  { rewrite (li_keys _ _ _ _ _ _ _ Hinv). apply NoDup_seqZ. }
  split; [lia|]. split; [|split; [done|split; [|split; [|split]]]].
  - intros i t Hi Hpc. destruct (act_ok h Hh Hw n payload_size num_threads Hn Hps HT Hmax d rows st i t Hinv Hi Hpc) as (st' & E & _). by exists st'.
  - intros i Hi. assert (i ∈ (calls st).*1 ++ in_flight (threads st)) as Hin by set_solver.
    rewrite (li_keys _ _ _ _ _ _ _ Hinv) in Hin. apply elem_of_seqZ in Hin. lia.
  - destruct (li_store _ _ _ _ _ _ _ Hinv) as (rows' & Hf & _). exact Hf.
  - destruct (li_store _ _ _ _ _ _ _ Hinv) as (rows' & _ & Hr & Ho & Hc). exists rows'. split; [done|]. split; [done|].
    intros i Hi j Hj. replace j with i by lia. by apply Hc.
  - intros Hj. destruct (joined_counts _ Hj) as (J1 & J2 & J3). pose proof (li_exited _ _ _ _ _ _ _ Hinv) as He.
    pose proof (li_len _ _ _ _ _ _ _ Hinv) as Hl. pose proof (li_keys _ _ _ _ _ _ _ Hinv) as Hk.
    unfold steps_left in Hleft, Hpos. rewrite J1, app_nil_r in Hk. replace (Z.min (global_auto_increment st) n) with n in * by lia.
    split; [lia|done].
Qed.

(** Generators that count. *)
#[global] Instance count_dists : Dists Z := {|
  mt19937 s := s; cat_dist g := (g mod 100, g + 1); cont_dist g := (u64 g, g + 1); char_dist g := (g mod 62, g + 1);
|}.
#[global] Instance count_dists_laws : DistsLaws Z _.
Proof.
  split; intros g; cbn [cat_dist cont_dist char_dist count_dists fst].
  - pose proof (Z.mod_pos_bound g 100 ltac:(lia)). lia.
  - apply u64_range.
  - pose proof (Z.mod_pos_bound g 62 ltac:(lia)). change max_index with 61. lia.
Qed.

(** A schedule: which thread acts next. *)
Fixpoint run_schedule {G} `{Dists G} {D} `{RocksWrite D} (h : ColumnFamilyHandle) (n payload_size attr_num : Z)
    (sched : list nat) (st : load_state G D) : result (load_state G D) :=
  match sched with
  | [] => Ok st
  | i :: rest =>
      match threads st !! i with
      | Some t => match pc t with
                  | Exited => Fault LogicError
                  | _ => st' ← act (Some h) n payload_size attr_num st i t; run_schedule h n payload_size attr_num rest st'
                  end
      | None => Fault LogicError
      end
  end.
Lemma run_schedule_steps {G} `{Dists G} {D} `{RocksWrite D} h n payload_size attr_num sched (st st' : load_state G D) :
  run_schedule h n payload_size attr_num sched st = Ok st' ->
  nsteps (load_step (Some h) n payload_size attr_num) (length sched) st st'.
Proof.
  revert st. induction sched as [|i sched IH]; intros st E; cbn [run_schedule] in E; [injection E as <-; constructor|].
  destruct (threads st !! i) as [t|] eqn:Ei; [|done].
  destruct (pc t) eqn:Ep; try done; apply result_bind_ok in E as (st1 & E1 & E);
    (econstructor; [econstructor; [exact Ei|by rewrite Ep|exact E1]|by apply IH]).
Qed.

Definition two_threads : list nat := [0; 1; 1; 0; 1; 1; 0; 1]%nat.
Lemma multi_thread_loads_witness : exists st : load_state Z (Z -> bytes -> option bytes),
  run_schedule bench_handle 3 4 3 two_threads (fill_kvp_multi_thread 2 empty_store) = Ok st /\
  (calls st).*1 ≡ₚ seqZ 0 3.
Proof.
  assert (match run_schedule bench_handle 3 4 3 two_threads (fill_kvp_multi_thread 2 empty_store) with
          | Ok st => forallb (fun t => match pc t with Exited => true | _ => false end) (threads st) | Fault _ => false end = true) as Hdone
    by (vm_compute; reflexivity).
  destruct (run_schedule bench_handle 3 4 3 two_threads (fill_kvp_multi_thread 2 empty_store)) as [st|] eqn:E; [|discriminate Hdone].
  exists st. split; [reflexivity|].
  pose proof (multi_thread_loads bench_handle 3 4 2 empty_store (fun _ => None) _ st bench_handle_ok bench_workload
    ltac:(lia) ltac:(lia) ltac:(lia) ltac:(lia) ltac:(by intros k) (run_schedule_steps _ _ _ _ _ _ _ E)) as (_ & _ & _ & _ & _ & _ & Hj).
  apply Hj. apply Forall_forall. intros t Ht%list_elem_of_In.
  rewrite forallb_forall in Hdone. specialize (Hdone t Ht). by destruct (pc t).
Defined.
